(* ===== verification/_CoqProject ===== *)
-Q . S2P
Prelude.v
TextFormat.v
SequenceInfo.v
MissingRanges.v
CommittedSN.v
WalRecord.v
Blocks.v
Recovery.v
Sequencing.v
CommitPipeline.v
KafkaConfig.v
KafkaWal.v
KafkaConsumer.v
Multiplexer.v
KafkaPool.v
IngestingBlocks.v
IngestStream.v
Catalog.v
Placement.v
Wire.v
ZooKeeper.v
SessionQueue.v
SnapshotTable.v
KeeperStorage.v
KeeperTree.v
KeeperSession.v
KeeperSnapshot.v
SipHash.v
Changelog.v
ChangelogLife.v
KeeperSnapshotFiles.v
KeeperStateMachine.v
KeeperReplica.v
KeeperCluster.v
Io.v
MessageBlock.v
TaskStatus.v
MetadataService.v
DDLService.v
DDLInterpreters.v
KeeperDispatcher.v
KeeperDelivery.v
KeeperShutdown.v
LogStore.v
StateManager.v
PartInfo.v
PartSet.v
DedupLog.v
RestRoute.v
Rest.v
RestDDL.v
RestCluster.v
RestIngest.v
KeeperConnection.v
KeeperClient.v
KeeperEndToEnd.v
KeeperCalls.v
