(* ===== verification/Prelude.v ===== *)
(** * Verification of the streaming ingestion and the coordination service of Daisy

    Daisy extends a column store with streaming ingestion: a client's insert is
    sharded, appended to a distributed write-ahead log (Kafka), consumed by the
    nodes that hold the table's shards, written as parts of a MergeTree table and
    recorded by checkpoints.  The development models the way of a block through
    these stages, with the failures on the way, and proves what the stages
    promise to each other.  The tables are coordinated by a service of the same
    program that speaks the protocol of ZooKeeper: a tree of nodes, replicated over a
    Raft log, with snapshots.  The development models it from the bytes of a request
    to the servers of a cluster.  Statements on tables and databases travel over a log of
    their own to the node that carries them out on the hosts, and their progress
    over another; these services and the statements sent to them are modelled too, and so is the
    REST interface through which clients send statements and poll what they ingested.

    ** The program's parts and the files that model them

    All sources are under src/src/.

    - [Prelude]: the error monad for C++ exceptions, error codes, machine
      integers, std::sort as a type class, ordered containers, shared lemmas
      and tactics.
    - [TextFormat]: the text primitives of IO/ReadHelpers.{h,cpp},
      Common/parseIntStrict.h and Common/hex.h, and the names of topics
      (escapeName, escapeDWALName of DistributedWriteAheadLog/KafkaWALCommon.cpp).
    - [SequenceInfo]: Storages/MergeTree/SequenceInfo.{h,cpp}: the ranges
      of log records that a part holds and its idempotent keys, the file sn.txt,
      and merging.
    - [MissingRanges]: the search for what is not on disk in the same file:
      the index loops as written, and blocks with their parts as the reference.
    - [CommittedSN]: the file committed_sn.txt of Storages/StorageMergeTree.cpp,
      as a sequence of disk operations.
    - [WalRecord]: DistributedWriteAheadLog/Record.{h,cpp}, OpCodes.h and
      KafkaWALCommon.cpp: the record format, messages and error codes.
      The native block format and its compression are the class [BlockCodec].
    - [Blocks]: the blocks of Core/Block.cpp as far as merging batches uses them,
      and StorageDistributedMergeTree::mergeBlocks.
    - [Recovery]: what a node replays after a restart:
      populateCommittedSNFromParts, DistributedMergeTreeCallbackData.{h,cpp} and
      the writing of missing parts in MergeTreeBlockOutputStream.cpp.
    - [Sequencing]: the sequence numbers and idempotent keys of
      Storages/DistributedMergeTree/StorageDistributedMergeTree.cpp
      (progressSequencesWithoutLock, dedupBlock and their callers).
    - [CommitPipeline]: the same class's commit, doCommit, its pool of writing
      tasks and the checkpoints, as a step relation at the grain of its locks.
    - [KafkaConfig]: KafkaWALSettings.h, KafkaWALContext.h and the configuration
      table of KafkaWALPool.cpp.
    - [KafkaWal]: KafkaWAL.{h,cpp}: appends, delivery reports, topics.
    - [KafkaConsumer]: KafkaWALSimpleConsumer.cpp and KafkaWALConsumer.cpp.
    - [Multiplexer]: KafkaWALConsumerMultiplexer.{h,cpp}, as a step relation of
      the clients and the poller over a store of shared contexts.
    - [KafkaPool]: KafkaWALPool.{h,cpp}.
    - [IngestingBlocks]: Storages/DistributedMergeTree/IngestingBlocks.{h,cpp},
      as a step relation over its two locks.
    - [IngestStream]: Interpreters/createBlockSelector.cpp, the scattering of
      Columns/IColumnImpl.h and DistributedMergeTreeBlockOutputStream.{h,cpp}.
    - [Catalog]: DistributedMetadata/CatalogService.{h,cpp} and Node.h: the merge
      of the tables every node broadcasts, the lookups, and the announcement
      of a node (setupRecordHeaders of MetadataService.cpp).
    - [Placement]: DistributedMetadata/PlacementService.cpp and
      PlacementStrategy.{h,cpp}: the metrics of the nodes and the choice of the
      nodes of a new table.
    - [Wire]: the binary readers and writers of IO/ReadHelpers.h,
      IO/WriteHelpers.h and IO/VarInt.h, and Common/ZooKeeper/ZooKeeperIO.{h,cpp}.
    - [ZooKeeper]: Common/ZooKeeper/ZooKeeperCommon.{h,cpp} and IKeeper.h: requests and
      responses as bytes, and the entries of the Raft log (getZooKeeperLogEntry of
      Coordination/KeeperServer.cpp, parseRequest of KeeperStateMachine.cpp).
    - [SessionQueue]: Coordination/SessionExpiryQueue.{h,cpp}.
    - [SnapshotTable]: Coordination/SnapshotableHashTable.h, the table of nodes that
      can be read as of the start of a snapshot while it changes.
    - [KeeperStorage]: Coordination/KeeperStorage.{h,cpp}: the handlers of the requests,
      watches, ephemeral nodes and sessions.  [KeeperTree] and [KeeperSession] hold the
      reference tree, the invariants and the refinement.
    - [KeeperSnapshot], [KeeperSnapshotFiles]: Coordination/KeeperSnapshotManager.{h,cpp}:
      the format of snapshots, and their files.
    - [SipHash]: Common/SipHash.h.
    - [Changelog], [ChangelogLife]: Coordination/Changelog.{h,cpp}: the files of the Raft
      log; their records, rotation, overwriting, compaction and start, and
      runs with crashes.
    - [KeeperStateMachine]: Coordination/KeeperStateMachine.{h,cpp}.
    - [KeeperReplica], [KeeperCluster]: the deterministic reference of a replica, and
      the states the servers of a cluster can be in over one log.
    - [Io]: a monad for code that talks to its surroundings, with its rules.
    - [MessageBlock]: the blocks that carry messages: Interpreters/BlockUtils.cpp, the columns and
      the lookups of Core/Block.cpp they use, Common/escapeForFileName.cpp.
    - [TaskStatus]: DistributedMetadata/TaskStatusService.{h,cpp}.
    - [MetadataService]: DistributedMetadata/MetadataService.{h,cpp}: the start of a service by the
      roles of the node, its topic, the loop over its records and the appends.
    - [DDLService]: DistributedMetadata/DDLService.cpp and sendRequest.cpp: the statements
      on the hosts, their retries and their status.
    - [DDLInterpreters]: the part of Interpreters/InterpreterCreateQuery.cpp, InterpreterAlterQuery.cpp and
      InterpreterDropQuery.cpp that sends a statement to that service.
    - [KeeperDispatcher], [KeeperDelivery], [KeeperShutdown]: Coordination/KeeperStorageDispatcher.{h,cpp}: the thread
      of requests, the tables through which responses find clients, and the threads, locks and
      queues of its shutdown as a transition system; putRequestBatch and
      putLocalReadRequest of KeeperServer.cpp.
    - [KeeperConnection]: Server/KeeperTCPHandler.{h,cpp}: the handshake, the loop of a connection, and the
      queue and pipe between it and the dispatcher, as a transition system.
    - [KeeperClient]: Common/ZooKeeper/ZooKeeperImpl.{h,cpp} and the prefixes of IKeeper.cpp: the client, whose threads that call,
      send, receive and finalize are a transition system over requests they share.
    - [KeeperEndToEnd]: no code of its own; the bytes the client writes are those the connection reads.
    - [KeeperCalls]: Common/ZooKeeper/ZooKeeper.cpp: the calls that wait for their answers, with the errors they return and those they throw,
      several operations in one request, and the removal of subtrees, which others may remove from at the same time.
    - [LogStore]: Coordination/KeeperLogStore.cpp, InMemoryLogStore.{h,cpp} and the packs of
      Changelog.cpp, as instances of one class.
    - [StateManager]: Coordination/KeeperStateManager.{h,cpp} and the callback of
      KeeperServer.cpp that tells when a server is ready.
    - [PartInfo], [PartSet], [DedupLog]: Storages/MergeTree/MergeTreePartInfo.{h,cpp},
      ActiveDataPartSet.{h,cpp} and MergeTreeDeduplicationLog.{h,cpp}: the names of the parts, the
      set of active parts, and the log of the last inserted blocks with its files.
    - [RestRoute]: Server/RestRouterHandlers/RestRouterFactory.h: the table of routes; the texts of its
      patterns are those of the source ([patterns_of_source]).
    - [Rest]: Server/RestHTTPRequestHandler.cpp, RestRouterHandlers/RestRouterHandler.{h,cpp},
      SchemaValidator.cpp and the reader of forms of HTTP/HTMLForm.cpp: a request from its credentials
      to the answer, exceptions included.
    - [RestDDL]: the handlers of tables, columns and databases: TableRestRouterHandler.cpp,
      TabularTableRestRouterHandler.cpp, RawstoreTableRestRouterHandler.cpp,
      ColumnRestRouterHandler.cpp, ColumnDefinition.cpp and DatabaseRestRouterHandler.cpp.
    - [RestCluster]: no code of its own; it puts [Rest], [RestDDL], [DDLInterpreters] and [DDLService] together.
    - [RestIngest]: the poll identifiers of Interpreters/Context.cpp, and the handlers
      IngestStatusHandler.cpp, TaskRestRouterHandler.cpp, ClusterInfoHandler.cpp and PingHandler.cpp.

    ** How code becomes definitions

    A definition has the name of its function and its branches; loops are
    [Fixpoint]s over the container they run through.  A function that throws
    returns a [result]; undefined behaviour (an iterator past the end, the front of
    an empty queue, a division by zero, signed overflow) and waiting without
    end are [None].  Integers are [Z] and wrap where the code's width matters.
    Strings are lists of characters.  An unordered map that is iterated over is
    visited in an arbitrary permutation.  Assertions are those of a release
    build.  librdkafka, the clock, the random generator and Poco's configuration
    are parameters: what a call answers is an argument.  The Raft library is
    one too: it calls the state machine with the entries of its log, and its
    snapshot metadata and the compression of snapshots are classes
    ([SnapshotMetadata], [NewMetadata], [SnapshotCodec]) with instances in the witnesses, as are its
    buffers ([Nuraft]).  Of Poco and RE2 the code uses what the classes [PocoURI], [PocoURIText], [PocoNet],
    [PocoJSON], [PocoBase64] and [Re2] name; their laws are what the libraries document, and instances that satisfy
    them are given where a theorem needs them ([backtracking] is a matcher for the patterns).  Code that calls other services is in the monad of [Io]: an answer is a function of
    the calls made before, so that a theorem holds for every sequence of answers.  Concurrent code is a
    step relation whose steps are the critical sections of the code, with
    history variables for what an observer may ask; theorems about it hold in
    every reachable state.

    ** What is shown

    - Recovery: the missing ranges are exact and the next number is right
      ([missingSequenceRanges_exact], [missingSequenceRanges_progress]); replaying
      the log writes what is missing, once ([recovery_exactly_once]);
      background merges below the checkpoint do not disturb it ([merge_preserves_recovery],
      [mergeSequenceInfo_spec]); the sequence file round trips
      ([info_read_write]) and the committed number survives a crash at any
      point of its update ([commitSN_atomic]).
    - Commit pipeline: progress refines the longest written prefix
      ([progressSequences_refines]); checkpoints never cover unwritten
      blocks while the table runs ([checkpoint_safe]) and reach the end when
      the pool drains and has not thrown ([drained_caught_up]); deduplication is a window
      ([dedupBlock_window]); batches are merged and parts are stamped correctly
      ([mergeBlocks_spec], [write_block_parts]).
    - Coordination: a request that the storage is made for ([good]: the root is neither set nor
      removed, paths have the form of a parent and a name, sequential names are free, counters have room) acts on a consistent storage as on a tree
      ([request_refines_tree]) and a multi request does all or nothing
      ([multi_refines_tree]); the storage stays well formed
      ([processRequest_invariant]), sessions end completely ([close_leaves_nothing]) and
      expire at their tick ([expired_sessions_exact]); requests and responses
      survive the wire and the log ([log_entry_round_trip],
      [multi_response_round_trip]) and reading them ends ([parse_terminates]).
    - Durability of the coordination service: a snapshot is isolated from later changes
      ([snapshot_isolation]) and restores the storage ([snapshot_restores]); its
      files survive crashes ([snapshots_survive]), and so do the entries of
      a log that is appended to and read from its first entry on ([changelog_survives]); hashing in parts is hashing the whole
      ([siphash_streaming]).
    - The servers: in whatever way a server got where it is, it shows the state of
      a reference that depends on the committed entries only, and goes on
      from there ([servers_follow_log]); after a crash it starts from its newest
      complete snapshot ([server_restarts_from_newest]).  Times are not part of the
      reference: each server writes its own clock into the nodes.
    - The log: records round trip ([wal_round_trip]); consumers deliver
      what was asked for, once and in order ([consume_callback_delivers],
      [group_consume_no_loss]); the multiplexer routes records to subscriptions
      that match what Kafka was told and never calls a client that has left
      ([handleResult_delivers], [mux_subscriptions_assigned],
      [expired_never_called]); the pool reads its settings, is balanced and
      bounded ([read_settings_spec], [get_round_robin],
      [getOrCreateConsumerMultiplexer_spec], [pool_default_client]).
    - The cluster: the catalog lists what the nodes reported last
      ([catalog_refines_reports]), by identifier too while identifiers are not
      exchanged ([catalog_ids]); placement gives enough usable nodes and
      the best ones, or none ([placement_spec]).
    - Ingestion: sharding partitions rows ([doShardBlock_spec]) by selectors that
      agree for constants and rows ([selector_const_rows]); a sync flush waits
      for all deliveries ([flush_waits]); the progress of queries is right
      ([status_spec]) and their expiry sound ([expiry_finds_query]); topics of
      tables are distinct ([escapeDWALName_injective]).
    - Services: a statement ends with a status, unless the node of the service fails
      ([statement_settled]), reaches the hosts it was placed on ([placement_reaches_hosts]), and
      the offset is committed after the statements before it ([offset_committed_last]);
      what an interpreter submits is what the service takes ([submitted_statement_ok]);
      the status service keeps what was reported ([task_service_refines]); a service starts its thread
      once ([startup_ready]), creates its topic with a bounded number of calls, before a wait that has no bound, with settings in their bounds
      ([topic_calls_bounded], [topic_settings_bounds]), and all nodes see the reports
      ([nodes_see_reports]).
    - Requests and responses: requests are handed on in the order of the queue and a reading
      request waits for the writing ones before it ([requests_in_order]); who asks for a session
      gets the first answer to its request and no other ([session_ids_delivered]); a session that
      ended hears nothing more ([ended_session_silent]); a connection hands requests over and writes
      responses in order, each once ([connection_in_order]); a shutdown takes a bounded number
      of steps, and then it is over, in one of three deadlocks that are named, or at a null pointer
      ([shutdown_ends_or_hangs], [shutdown_can_hang], [shutdown_can_crash]).
    - The client: every call that returns is called back exactly once, at the latest when the session
      ends, and one that throws never ([callbacks_once]); a session that ends does so in a bounded number of steps
      ([finalization_ends]); what it accepts reaches the dispatcher of the server in order
      ([calls_reach_dispatcher]); the response to a request goes to its callback ([response_delivered]); and
      client and server agree on a session ([handshake_agrees]).  Removing a subtree succeeds, and removes no other node, while others
      remove nodes of it ([subtree_removed_despite_others]); the exception of a request of several operations names the
      one that failed ([failed_operation_named]).
    - Replication: what a leader packs a follower applies, whichever log store each of them
      has ([follower_catches_up]); a server that starts knows itself and lists its
      cluster ([create_manager_ok]), and is ready after certain events only ([ready_spec]).
    - The REST interface: a request reaches the handler its path and method say, whatever the order of the
      routes ([get_exact]); every request for a statement, the parameters of which can be read, is answered, and with success exactly when
      one statement was run and did not fail ([ddl_request_answered]); a statement that a client
      sends to one node is run by every host of the table, as the same statement and for the same user
      ([statement_reaches_nodes]); a poll is answered by any node ([poll_any_node]), and an identifier to
      poll with is read back by the user it was made for ([poll_id_round_trip]).
    - Parts: adding a part keeps the set of active parts free of overlaps, and replaces what it
      covers ([add_refines]); the log of inserted blocks finds the duplicates of a window in memory,
      through restarts that no drop precedes ([window_survives]).
    - What the code does against its intent is proved too, as theorems that end in the
      behaviour: a checkpoint over an unwritten block on shutdown, duplicated
      parts after a retry, colliding topic names, the double mapping of
      errors and the endless wait of a synchronous append, the torn read of a callback, a
      default sync mode that is not flushed, a destructor that throws, narrow
      negative sharding keys, a counter of 16 bits, a failed query listed twice,
      nodes with high ports that are ignored ([announced_ports]), an identifier
      lost when tables are exchanged ([exchange_loses_id]), watches fired by a
      request that failed ([failed_multi_fires_watches]), entries of the log
      lost after an overwrite ([overwrite_after_restart_loses]) or a snapshot received in
      part ([half_received_snapshot_loses]), a tick in the wrong unit ([restored_tick]),
      a request that cannot be committed ([multi_with_read_stops]), finished tasks that
      are never written to the table ([finished_never_persisted]), a null pointer taken from a queue
      ([empty_request_dereferenced]), refusals that reach nobody ([refused_session_request_lost]), a
      setting counted as a server ([secure_counted_as_server]), parts lost by one that is refused ([refused_part_drops]), blocks
      forgotten by the log ([dropped_blocks_push_out], [torn_record_loses]), databases that cannot be dropped
      ([escaped_database]), a test of local tables that is inverted ([local_table_shards]), poll
      identifiers that are never accepted ([useless_poll_ids]), a response that nobody is woken for
      ([dropped_signal_stuck]), timeouts that overflow or never come ([long_timeout_overflows],
      [negative_timeout_never]), and sessions ended by a watch on the root or by a path that is not valid
      ([root_watch_ends_session], [bad_path_ends_session]), assertions that fail for records the code is written for
      ([recovery_exactly_once], [skipped_number_asserts]), a number to commit that a full pool holds back
      ([thrown_batch_blocks]), blocks forgotten by a merge before the checkpoint
      ([merge_before_checkpoint_forgets]), a response taken for that of a close ([shared_number_closes]), tables
      whose names are not routed ([dashed_table]), and described paths that are not served ([described_paths]).

    ** Assertions

    The functions of the commit pipeline and of recovery that assert take a flag, true for a build with
    assertions ([assert_]); a failed assertion is [None].  Their theorems say what holds in each build.

    ** Bounds and fuel

    Loops run over lists, so few need fuel.  [removeExpiredBlockIds] takes the
    length of its queue, each turn of which removes an element.  The digits of
    a number take its binary logarithm as fuel ([dec_fuel_enough]).  Reading a multi
    request takes the length of the buffer, each turn of which reads a byte
    ([parse_terminates]); removing outdated snapshots and looking for a readable one take
    the number of snapshots.  The theorems on servers hold for logs shorter than
    2^63 entries and clocks before the end of a signed 64 bit number of milliseconds,
    beyond which the code overflows.  Loops that wait
    for another thread run over the list of what they observe and give [None]
    when it ends; theorems say for which observations they return.  Loops that poll another
    service take as fuel the number of turns: [requests_in_order] asks for more than the number of events after
    which every append has its result, and [steps_left] bounds a shutdown, as [work] does the end of a client's session.  A client makes
    at most 2^32 calls, the numbers there are.  The removal of a subtree takes one more than its depth, which [shallow] bounds.  Reading a form takes one more
    than the length of its text, and reading a file of the deduplication log the length of the file: each turn reads a character.
    The commits and the creation of topics of a statement take the number of retries of the code.

    ** What is not modelled

    The query side of StorageDistributedMergeTree (stages, pruning, plans) rests on the
    analyser of the query engine, which is not modelled.  Of the
    catalog, virtual storages and the lookups that parse a CREATE query are left
    out.  Of the status service, the table of finished tasks is made and read by queries that the
    query engine runs.  Of the interpreters, the parsing and checking of statements is left out.  Of Coordination, launching and
    stopping the Raft library are calls of it; its sources are not part of the tree.  Of the client of that service,
    the calls with a watch, the asynchronous calls, the configuration and the retries of the wrapper (ZooKeeper.cpp), the cache of
    nodes and the server for tests (TestKeeper.cpp) are left out.
    Of the REST interface, searching, analysing SQL and ingesting stream to and from the query engine, the lists of
    tables and databases parse CREATE queries, and the exchange of SPNEGO tokens is a library's.
    Of the names of parts, the sets of names in the coordination service are left out.
    Logging and statistics (KafkaWALStats) have no state
    that the modelled parts depend on.  The query engine, the storage formats
    and the server of the underlying database are used through the operations
    named above. *)

From Stdlib Require Export ZArith Lia Ascii.
From stdpp Require Export base numbers list list_numbers gmap strings sorting relations.

Declare Scope daisy_scope.
Delimit Scope daisy_scope with daisy.
#[global] Open Scope daisy_scope.

(** ** Error results

    A C++ function that may throw returns a [result]: the exceptions are those
    the modelled code raises, a [DB::Exception] with its error code, a
    [Coordination::Exception] with its own, a [Poco::Exception] or an exception
    of the C++ standard library. *)

Inductive exn : Type :=
| DBException (code : Z)
| KeeperException (code : Z)
| PocoException
| StdOutOfRange
| StdInvalidArgument.

Inductive result (A : Type) : Type :=
| Ok (a : A)
| Throw (e : exn).
Arguments Ok {A} a.
Arguments Throw {A} e.

#[export] Instance exn_eq_dec : EqDecision exn.
Proof. solve_decision. Defined.

#[export] Instance result_eq_dec {A} `{EqDecision A} : EqDecision (result A).
Proof. solve_decision. Defined.

#[export] Instance result_ret : MRet result := fun A a => Ok a.
#[export] Instance result_bind : MBind result :=
  fun A B f r => match r with Ok a => f a | Throw e => Throw e end.

Definition is_ok {A} (r : result A) : bool :=
  match r with Ok _ => true | Throw _ => false end.

(** ** Strings

    [std::string] is a list of bytes; [lit] writes a literal. *)

Abbreviation str := (list ascii).

Definition lit (s : string) : str := String.list_ascii_of_string s.

(** ** Error codes, from src/src/Common/ErrorCodes.cpp *)

Module ErrorCodes.
Definition OK : Z := 0.
Definition UNSUPPORTED_PARAMETER : Z := 2.
Definition CANNOT_PARSE_TEXT : Z := 6.
Definition SIZES_OF_COLUMNS_DOESNT_MATCH : Z := 9.
Definition NOT_FOUND_COLUMN_IN_BLOCK : Z := 10.
Definition NO_SUCH_COLUMN_IN_TABLE : Z := 16.
Definition CANNOT_PARSE_ESCAPE_SEQUENCE : Z := 25.
Definition CANNOT_PARSE_QUOTED_STRING : Z := 26.
Definition CANNOT_PARSE_INPUT_ASSERTION_FAILED : Z := 27.
Definition ATTEMPT_TO_READ_AFTER_EOF : Z := 32.
Definition CANNOT_READ_ALL_DATA : Z := 33.
Definition BAD_ARGUMENTS : Z := 36.
Definition UNKNOWN_ELEMENT_IN_AST : Z := 37.
Definition CANNOT_PARSE_DATE : Z := 38.
Definition CHECKSUM_DOESNT_MATCH : Z := 40.
Definition CANNOT_PARSE_DATETIME : Z := 41.
Definition ILLEGAL_COLUMN : Z := 44.
Definition UNKNOWN_FUNCTION : Z := 46.
Definition UNKNOWN_IDENTIFIER : Z := 47.
Definition NOT_IMPLEMENTED : Z := 48.
Definition NETWORK_ERROR : Z := 210.
Definition SYSTEM_ERROR : Z := 425.
Definition LOGICAL_ERROR : Z := 49.
Definition UNKNOWN_TYPE : Z := 50.
Definition TYPE_MISMATCH : Z := 53.
Definition UNKNOWN_STORAGE : Z := 56.
Definition TABLE_ALREADY_EXISTS : Z := 57.
Definition UNKNOWN_TABLE : Z := 60.
Definition SYNTAX_ERROR : Z := 62.
Definition UNKNOWN_AGGREGATE_FUNCTION : Z := 63.
Definition CANNOT_PARSE_NUMBER : Z := 72.
Definition UNKNOWN_FORMAT : Z := 73.
Definition CANNOT_OPEN_FILE : Z := 76.
Definition UNKNOWN_TYPE_OF_QUERY : Z := 78.
Definition UNKNOWN_DATABASE : Z := 81.
Definition DATABASE_ALREADY_EXISTS : Z := 82.
Definition UNEXPECTED_PACKET_FROM_CLIENT : Z := 101.
Definition FILE_DOESNT_EXIST : Z := 107.
Definition UNKNOWN_SETTING : Z := 115.
Definition INCORRECT_DATA : Z := 117.
Definition UNKNOWN_TYPE_OF_AST_NODE : Z := 123.
Definition UNKNOWN_DIRECTION_OF_SORTING : Z := 152.
Definition TIMEOUT_EXCEEDED : Z := 159.
Definition TOO_DEEP_AST : Z := 167.
Definition TOO_BIG_AST : Z := 168.
Definition UNKNOWN_USER : Z := 192.
Definition WRONG_PASSWORD : Z := 193.
Definition REQUIRED_PASSWORD : Z := 194.
Definition SOCKET_TIMEOUT : Z := 209.
Definition UNEXPECTED_AST_STRUCTURE : Z := 223.
Definition QUERY_IS_TOO_LARGE : Z := 229.
Definition BAD_DATA_PART_NAME : Z := 233.
Definition DUPLICATE_DATA_PART : Z := 235.
Definition CORRUPTED_DATA : Z := 246.
Definition CANNOT_COMPRESS : Z := 270.
Definition CANNOT_DECOMPRESS : Z := 271.
Definition UNKNOWN_FORMAT_VERSION : Z := 287.
Definition INVALID_CONFIG_PARAMETER : Z := 318.
Definition UNKNOWN_DATABASE_ENGINE : Z := 336.
Definition HTTP_LENGTH_REQUIRED : Z := 381.
Definition BAD_REQUEST_PARAMETER : Z := 408.
Definition INVALID_SETTING_VALUE : Z := 471.
Definition ACCESS_DENIED : Z := 497.
Definition AUTHENTICATION_FAILED : Z := 516.
Definition RAFT_ERROR : Z := 568.
Definition UNKNOWN_SNAPSHOT : Z := 575.
Definition POCO_EXCEPTION : Z := 1000.
Definition STD_EXCEPTION : Z := 1001.
Definition UNKNOWN_EXCEPTION : Z := 1002.
Definition RESOURCE_NOT_FOUND : Z := 1003.
Definition RESOURCE_NOT_INITED : Z := 1004.
Definition RESOURCE_ALREADY_EXISTS : Z := 1005.
Definition DWAL_FATAL_ERROR : Z := 1006.
Definition CONFIG_ERROR : Z := 1007.
Definition UNRETRIABLE_ERROR : Z := 1008.
Definition INVALID_POLL_ID : Z := 1010.
Definition CHANNEL_ID_NOT_EXISTS : Z := 1011.
Definition SEND_POLL_REQ_ERROR : Z := 1012.
Definition DWAL_RETRIABLE_ERROR : Z := 1013.
Definition INVALID_OPERATION : Z := 1014.
Definition MSG_SIZE_TOO_LARGE : Z := 1015.
Definition INTERNAL_INGEST_BUFFER_FULL : Z := 1016.
Definition INVALID_REPLICATION_FACTOR : Z := 1017.
End ErrorCodes.

(** ** Machine integers

    An unsigned w-bit integer is a [Z] in [0, 2^w); arithmetic on it wraps. *)

Definition wrap (w z : Z) : Z := z mod 2 ^ w.

(** The signed [w]-bit integer with the bits of an unsigned one. *)
Definition to_signed (w z : Z) : Z := if (z <? 2 ^ (w - 1))%Z then z else (z - 2 ^ w)%Z.

Definition in_signed (w z : Z) : bool :=
  (- 2 ^ (w - 1) <=? z)%Z && (z <? 2 ^ (w - 1))%Z.

(** ** [std::sort]

    The standard leaves the order of equivalent elements open: a model that
    sorts is written against this interface, which states what [std::sort]
    promises, and theorems about it hold for every implementation. *)

Record strict_weak_order {A} (lt : A -> A -> bool) : Prop := {
  swo_asym : forall x y, lt x y = true -> lt y x = false;
  swo_negtrans : forall x y z, lt x y = false -> lt y z = false -> lt x z = false;
}.

Class StdSort : Type := {
  std_sort : forall {A : Type}, (A -> A -> bool) -> list A -> list A;
  std_sort_perm : forall {A} (lt : A -> A -> bool) l, std_sort lt l ≡ₚ l;
  std_sort_sorted : forall {A} (lt : A -> A -> bool) l,
    strict_weak_order lt -> Sorted (fun x y => lt y x = false) (std_sort lt l);
}.

Fixpoint insert_sorted {A} (lt : A -> A -> bool) (x : A) (l : list A) : list A :=
  match l with
  | [] => [x]
  | y :: l' => if lt y x then y :: insert_sorted lt x l' else x :: y :: l'
  end.

Definition insertion_sort {A} (lt : A -> A -> bool) (l : list A) : list A :=
  foldr (insert_sorted lt) [] l.

(** ** [std::set] and [std::map]

    An ordered container is the list of its elements in increasing order;
    inserting an element equivalent to one that is there changes nothing. *)

Fixpoint set_insert {A} (lt : A -> A -> bool) (x : A) (l : list A) : list A :=
  match l with
  | [] => [x]
  | y :: l' => if lt x y then x :: l else if lt y x then y :: set_insert lt x l' else l
  end.

(** Insert the elements of [xs] in turn. *)
Definition set_insert_all {A} (lt : A -> A -> bool) (xs l : list A) : list A :=
  foldl (fun l x => set_insert lt x l) l xs.

(** [std::advance] from the begin to the last [n] elements, where there are more. *)
Definition last_n {A} (n : nat) (l : list A) : list A :=
  if decide (n < length l)%nat then drop (length l - n) l else l.

(** ** Tactics and hint databases *)

Create HintDb daisy discriminated.

(** Split every [if] and [match] on a boolean comparison in the goal or the context. *)
Ltac case_bools :=
  repeat (case_match; simplify_eq/=).

Ltac boolify :=
  repeat match goal with
  | H : (_ <? _)%Z = true |- _ => apply Z.ltb_lt in H
  | H : (_ <? _)%Z = false |- _ => apply Z.ltb_ge in H
  | H : (_ <=? _)%Z = true |- _ => apply Z.leb_le in H
  | H : (_ <=? _)%Z = false |- _ => apply Z.leb_gt in H
  | H : (_ =? _)%Z = true |- _ => apply Z.eqb_eq in H
  | H : (_ =? _)%Z = false |- _ => apply Z.eqb_neq in H
  | H : (_ && _) = true |- _ => apply andb_true_iff in H as [? ?]
  | H : (_ || _) = false |- _ => apply orb_false_iff in H as [? ?]
  | H : negb _ = true |- _ => apply negb_true_iff in H
  | H : negb _ = false |- _ => apply negb_false_iff in H
  end.

(** ** Lemmas on sorting *)

Lemma insert_sorted_perm {A} (lt : A -> A -> bool) x l :
  insert_sorted lt x l ≡ₚ x :: l.
Proof.
  induction l as [|y l IH]; simpl; [done|].
  destruct (lt y x); [|done]. rewrite IH. apply Permutation_swap.
Qed.

Lemma insertion_sort_perm {A} (lt : A -> A -> bool) l : insertion_sort lt l ≡ₚ l.
Proof.
  induction l as [|x l IH]; simpl; [done|].
  by rewrite insert_sorted_perm, IH.
Qed.

Lemma insert_sorted_sorted {A} (lt : A -> A -> bool) x l :
  (forall x y, lt x y = true -> lt y x = false) ->
  Sorted (fun x y => lt y x = false) l ->
  Sorted (fun x y => lt y x = false) (insert_sorted lt x l).
Proof.
  intros Hasym. induction l as [|y l IH]; simpl; intros Hl; [by repeat constructor|].
  destruct (lt y x) eqn:E; [|by constructor; [|constructor]].
  apply Sorted_inv in Hl as [Hl Hy]. constructor; [by apply IH|].
  destruct l as [|z l]; simpl; [by constructor; apply Hasym|].
  inversion Hy; subst. destruct (lt z x); constructor; [done|by apply Hasym].
Qed.

Lemma insertion_sort_sorted {A} (lt : A -> A -> bool) l :
  (forall x y, lt x y = true -> lt y x = false) ->
  Sorted (fun x y => lt y x = false) (insertion_sort lt l).
Proof.
  intros Hasym. induction l as [|x l IH]; simpl; [constructor|].
  by apply insert_sorted_sorted.
Qed.

#[export] Instance insertion_StdSort : StdSort := {|
  std_sort := @insertion_sort;
  std_sort_perm := @insertion_sort_perm;
  std_sort_sorted A lt l H := insertion_sort_sorted lt l (swo_asym lt H);
|}.

Lemma std_sort_strongly {S : StdSort} {A} (lt : A -> A -> bool) l :
  strict_weak_order lt ->
  StronglySorted (fun x y => lt y x = false) (std_sort lt l).
Proof.
  intros H. apply Sorted_StronglySorted; [|by apply std_sort_sorted].
  intros x y z Hxy Hyz. by apply (swo_negtrans lt H z y x).
Qed.

(** ** Lemmas on ordered containers *)

(** [lt] is the strict order of an ordered container: two elements neither of
    which is below the other are equivalent. *)
Record strict_order {A} (lt : A -> A -> bool) : Prop := {
  so_irrefl : forall x, lt x x = false;
  so_trans : forall x y z, lt x y = true -> lt y z = true -> lt x z = true;
}.

Section std_set.
Context {A : Type} (lt : A -> A -> bool).

Abbreviation increasing := (StronglySorted (fun x y => lt x y = true)).

Lemma set_insert_elem x l y : y ∈ set_insert lt x l -> y = x \/ y ∈ l.
Proof.
  induction l as [|z l IH]; simpl; [set_solver|].
  case_bools; set_solver.
Qed.

Lemma set_insert_subset x l y : y ∈ l -> y ∈ set_insert lt x l.
Proof.
  induction l as [|z l IH]; simpl; [set_solver|].
  intros Hy. case_bools; [set_solver| |done].
  apply elem_of_cons in Hy as [->|Hy]; set_solver.
Qed.

Lemma set_insert_all_elem xs l y : y ∈ set_insert_all lt xs l -> y ∈ xs \/ y ∈ l.
Proof.
  unfold set_insert_all. revert l. induction xs as [|x xs IH]; simpl; intros l Hy; [by right|].
  apply IH in Hy as [Hy|[->|Hy]%set_insert_elem]; set_solver.
Qed.

Lemma set_insert_all_subset xs l y : y ∈ l -> y ∈ set_insert_all lt xs l.
Proof.
  unfold set_insert_all. revert l. induction xs as [|x xs IH]; simpl; intros l Hy; [done|].
  by apply IH, set_insert_subset.
Qed.

Context (Hlt : strict_order lt).

Lemma set_insert_increasing x l : increasing l -> increasing (set_insert lt x l).
Proof.
  destruct Hlt as [_ Htrans].
  induction l as [|z l IH]; simpl; intros Hl; [by repeat constructor|].
  apply StronglySorted_inv in Hl as [Hl Hz].
  destruct (lt x z) eqn:Exz; [|destruct (lt z x) eqn:Ezx].
  - constructor; [by constructor|]. constructor; [done|].
    eapply Forall_impl; [exact Hz|]. intros y Hy. by eapply Htrans.
  - constructor; [by apply IH|]. apply Forall_forall. intros y [->|Hy]%set_insert_elem; [done|].
    by eapply Forall_forall in Hz.
  - by constructor.
Qed.

(** After the insertion some element equivalent to [x] is in the container. *)
Lemma set_insert_equiv x l :
  exists y, y ∈ set_insert lt x l /\ lt x y = false /\ lt y x = false.
Proof.
  pose proof (so_irrefl lt Hlt x) as Hx.
  induction l as [|z l IH]; simpl; [exists x; set_solver|].
  destruct (lt x z) eqn:Exz; [exists x; set_solver|].
  destruct (lt z x) eqn:Ezx; [|exists z; set_solver].
  destruct IH as (y & ? & ?). exists y. set_solver.
Qed.

Lemma set_insert_all_increasing xs l : increasing l -> increasing (set_insert_all lt xs l).
Proof.
  unfold set_insert_all. revert l. induction xs as [|x xs IH]; simpl; intros l Hl; [done|].
  by apply IH, set_insert_increasing.
Qed.

Lemma set_insert_all_equiv xs l x :
  x ∈ xs -> exists y, y ∈ set_insert_all lt xs l /\ lt x y = false /\ lt y x = false.
Proof.
  revert l. induction xs as [|z xs IH]; intros l Hx; [set_solver|].
  apply elem_of_cons in Hx as [->|Hx]; [|by apply IH].
  destruct (set_insert_equiv z l) as (y & Hy & Heq). exists y. split; [|done].
  by apply (set_insert_all_subset xs).
Qed.
End std_set.

Lemma StronglySorted_drop {A} (R : relation A) n l : StronglySorted R l -> StronglySorted R (drop n l).
Proof.
  revert l. induction n as [|n IH]; intros [|x l] Hl; simpl; try done.
  apply IH. by apply StronglySorted_inv in Hl as [? _].
Qed.

Lemma StronglySorted_take_drop {A} (R : relation A) n l x y :
  StronglySorted R l -> x ∈ take n l -> y ∈ drop n l -> R x y.
Proof.
  revert l. induction n as [|n IH]; intros [|z l] Hl Hx Hy; simpl in *; try set_solver.
  apply StronglySorted_inv in Hl as [Hl Hz].
  apply elem_of_cons in Hx as [->|Hx]; [|by eapply IH].
  rewrite Forall_forall in Hz. apply Hz. rewrite <- (take_drop n l). set_solver.
Qed.

Lemma last_n_length {A} n (l : list A) : length (last_n n l) = Nat.min n (length l).
Proof. unfold last_n. case_decide; [rewrite length_drop|]; lia. Qed.

Lemma last_n_drop {A} n (l : list A) : last_n n l = drop (length l - n) l.
Proof.
  unfold last_n. case_decide; [done|].
  by replace (length l - n)%nat with 0%nat by lia.
Qed.

Lemma StronglySorted_filter {A} (R : relation A) (P : A -> Prop) `{forall x, Decision (P x)} (l : list A) :
  StronglySorted R l -> StronglySorted R (filter P l).
Proof.
  induction 1 as [|x l Hl IH Hx]; [constructor|]. rewrite filter_cons. case_decide; [|done].
  constructor; [done|]. apply Forall_forall. intros y [_ Hy]%list_elem_of_filter.
  by eapply Forall_forall in Hx.
Qed.

(** [assert(b)]: a build with assertions ([debug]) stops when it fails, one without them goes on. *)
Definition assert_ (debug b : bool) : option unit := if debug && negb b then None else Some tt.

Lemma assert_holds debug b : b = true -> assert_ debug b = Some tt.
Proof. unfold assert_. intros ->. by rewrite andb_false_r. Qed.

(** ** Lemmas on lists *)

Lemma drop_cons_lookup {A} (l l' : list A) i x :
  drop i l = x :: l' -> l !! i = Some x /\ drop (S i) l = l'.
Proof.
  intros H. split.
  - rewrite <- (Nat.add_0_r i), <- lookup_drop, H. done.
  - by rewrite <- Nat.add_1_r, <- drop_drop, H.
Qed.

Lemma drop_app_drop {A} (l l1 l2 : list A) i :
  drop i l = l1 ++ l2 -> drop (i + length l1) l = l2.
Proof. intros H. by rewrite <- drop_drop, H, drop_app_length. Qed.

Lemma filter_all {A} (P : A -> Prop) `{forall x, Decision (P x)} (l : list A) :
  Forall P l -> filter P l = l.
Proof. induction 1; [done|]. rewrite filter_cons, decide_True by done. by f_equal. Qed.

Lemma filter_none {A} (P : A -> Prop) `{forall x, Decision (P x)} (l : list A) : Forall (fun x => ~ P x) l -> filter P l = [].
Proof. induction 1; [done|]. by rewrite filter_cons, decide_False by done. Qed.

Lemma sublist_filter {A} (P : A -> Prop) `{forall x, Decision (P x)} (l : list A) : filter P l `sublist_of` l.
Proof. induction l as [|x l IH]; [done|]. rewrite filter_cons. case_decide; [by apply sublist_skip|by apply sublist_cons]. Qed.

Lemma sublist_Forall {A} (P : A -> Prop) (m m' : list A) : m' `sublist_of` m -> Forall P m -> Forall P m'.
Proof. induction 1; [done| |]; intros [H1 H2]%Forall_cons; [constructor; [done|]|]; auto. Qed.

Lemma foldl_delete_lookup {K A} `{Countable K} (ks : list K) (m : gmap K A) j : foldl (fun m i => delete i m) m ks !! j = if decide (j ∈ ks) then None else m !! j.
Proof.
  revert m. induction ks as [|k ks IH]; intros m; cbn [foldl]; [by rewrite decide_False by apply not_elem_of_nil|]. rewrite IH. destruct (decide (j = k)) as [->|Hne].
  - rewrite (decide_True (P := k ∈ k :: ks)) by by left. case_decide; [done|]. apply lookup_delete_eq.
  - rewrite lookup_delete_ne by done. destruct (decide (j ∈ ks)); [by rewrite decide_True by by right|]. by rewrite decide_False by set_solver.
Qed.

Lemma filter_ext_elem {A} (P Q : A -> Prop) `{forall x, Decision (P x)} `{forall x, Decision (Q x)} (l : list A) :
  (forall x, x ∈ l -> P x <-> Q x) -> filter P l = filter Q l.
Proof.
  induction l as [|x l IH]; intros Hpq; [done|].
  rewrite !filter_cons, IH by set_solver.
  specialize (Hpq x ltac:(set_solver)). repeat case_decide; tauto.
Qed.
