(* ===== verification/TextFormat.v ===== *)
(** * TextFormat: the text primitives of the sequence files and topic names

    Models the functions of src/src/IO/ReadHelpers.{h,cpp}, src/src/Common/hex.h,
    src/src/Common/parseIntStrict.h and src/src/DistributedWriteAheadLog/KafkaWALCommon.cpp
    that read and write the text of `sn.txt` and the names of WAL topics.  A
    read buffer over a file that fits in memory is the list of the bytes not yet
    consumed; a write buffer is the list of bytes written. *)

From S2P Require Import Prelude.

Local Open Scope Z_scope.

(** ** Characters *)

Definition code (c : ascii) : Z := Z.of_N (N_of_ascii c).
Definition chr (z : Z) : ascii := ascii_of_N (Z.to_N z).

Definition ch_tab : ascii := "009"%char.
Definition ch_newline : ascii := "010"%char.
Definition ch_backslash : ascii := "\"%char.
Definition ch_comma : ascii := ","%char.
Definition ch_semicolon : ascii := ";"%char.
Definition ch_minus : ascii := "-"%char.

(** ** [std::string] operations with positions *)

(** [s.find(c, pos)]; [None] is [npos]. *)
Definition find_char (c : ascii) (s : str) (pos : nat) : option nat :=
  (fun p => (pos + p.1)%nat) <$> list_find (fun x => x = c) (drop pos s).

(** The characters of [s] in positions [lpos, rpos). *)
Definition slice (s : str) (lpos rpos : nat) : str := take (rpos - lpos) (drop lpos s).

(** ** Decimal integers *)

Definition digit_char (d : Z) : ascii := chr (48 + d).
Definition is_digit (c : ascii) : bool := (48 <=? code c) && (code c <=? 57).

Fixpoint dec_digits (fuel : nat) (n : Z) : str :=
  match fuel with
  | O => []
  | S f => if n <? 10 then [digit_char n] else dec_digits f (n / 10) ++ [digit_char (n mod 10)]
  end.

(** What [writeText] writes for an integer ([itoa]). *)
Definition writeIntText (z : Z) : str :=
  let digits n := dec_digits (S (Z.to_nat (Z.log2 n))) n in
  if z <? 0 then ch_minus :: digits (- z) else digits z.

(** [std::from_chars] on a signed [w]-bit integer: the number of characters
    matched, the error and the value. *)
Inductive errc : Type := errc_ok | errc_invalid_argument | errc_result_out_of_range.

Fixpoint take_digits (s : str) : str :=
  match s with
  | [] => []
  | c :: s' => if is_digit c then c :: take_digits s' else []
  end.

Definition digits_value (ds : str) : Z :=
  foldl (fun acc c => acc * 10 + (code c - 48)) 0 ds.

Definition from_chars (w : Z) (s : str) : nat * errc * Z :=
  let '(neg, body) :=
    match s with
    | c :: s' => if decide (c = ch_minus) then (true, s') else (false, s)
    | [] => (false, s)
    end in
  match take_digits body with
  | [] => (0%nat, errc_invalid_argument, 0)
  | ds =>
      let v := if neg then - digits_value ds else digits_value ds in
      let p := ((if neg then 1 else 0) + length ds)%nat in
      if in_signed w v then (p, errc_ok, v) else (p, errc_result_out_of_range, 0)
  end.

(** parseIntStrict.h: the whole of [lpos, rpos) must be one number.  Building
    the message of the exception takes a substring at [lpos], which is itself
    out of range when [lpos] is past the end of the string. *)
Definition invalid_number {A} (s : str) (lpos : nat) : result A :=
  if decide (length s < lpos)%nat then Throw StdOutOfRange
  else Throw (DBException ErrorCodes.INVALID_SETTING_VALUE).

Definition parseIntStrict (w : Z) (s : str) (lpos rpos : nat) : result Z :=
  if decide (rpos <= lpos \/ length s < rpos)%nat then invalid_number s lpos
  else
    let '(p, ec, n) := from_chars w (slice s lpos rpos) in
    match ec with
    | errc_ok => if decide (p = rpos - lpos)%nat then Ok n else invalid_number s lpos
    | _ => invalid_number s lpos
    end.

(** ** Reading: ReadHelpers *)

Fixpoint checkString (s : str) (buf : str) : bool * str :=
  match s with
  | [] => (true, buf)
  | c :: s' =>
      match buf with
      | [] => (false, buf)
      | b :: buf' => if decide (b = c) then checkString s' buf' else (false, buf)
      end
  end.

Definition assertString (s : str) (buf : str) : result str :=
  let '(ok, buf') := checkString s buf in
  if ok then Ok buf' else Throw (DBException ErrorCodes.CANNOT_PARSE_INPUT_ASSERTION_FAILED).

Definition parseEscapeSequence (c : ascii) : ascii :=
  match c with
  | "a"%char => "007"%char
  | "b"%char => "008"%char
  | "e"%char => "027"%char
  | "f"%char => "012"%char
  | "n"%char => "010"%char
  | "r"%char => "013"%char
  | "t"%char => "009"%char
  | "v"%char => "011"%char
  | "0"%char => "000"%char
  | _ => c
  end.

Definition isControlASCII (c : ascii) : bool := code c <=? 31.

(** The table [hex_char_to_digit_table]: 0xff for a character that is not a hex digit. *)
Definition unhex (c : ascii) : Z :=
  let z := code c in
  if (48 <=? z) && (z <=? 57) then z - 48
  else if (65 <=? z) && (z <=? 70) then z - 55
  else if (97 <=? z) && (z <=? 102) then z - 87
  else 255.

Definition unhex2 (c1 c2 : ascii) : ascii := chr (wrap 8 (unhex c1 * 16 + unhex c2)).

(** The characters an escape sequence of one character appends: the backslash
    stays before a character that needs no escape. *)
Definition decode_simple_escape (d : ascii) : str :=
  let decoded := parseEscapeSequence d in
  if negb (bool_decide (decoded ∈ ["\"%char; "'"%char; "034"%char; "`"%char; "/"%char]))
     && negb (isControlASCII decoded)
  then [ch_backslash; decoded] else [decoded].

(** [readEscapedStringInto] with [parseComplexEscapeSequence]: reads up to a tab
    or a newline, which stays in the buffer.  The result is the text read and
    the rest of the buffer. *)
Fixpoint readEscapedString (buf : str) : result (str * str) :=
  match buf with
  | [] => Ok ([], [])
  | c :: rest =>
      if decide (c = ch_tab \/ c = ch_newline) then Ok ([], buf)
      else if decide (c = ch_backslash) then
        match rest with
        | [] => Throw (DBException ErrorCodes.CANNOT_PARSE_ESCAPE_SEQUENCE)
        | d :: rest' =>
            if decide (d = "x"%char) then
              match rest' with
              | h1 :: h2 :: rest'' =>
                  '(s, tl) ← readEscapedString rest''; Ok (unhex2 h1 h2 :: s, tl)
              | _ => Throw (DBException ErrorCodes.CANNOT_READ_ALL_DATA)
              end
            else if decide (d = "N"%char) then readEscapedString rest'
            else '(s, tl) ← readEscapedString rest'; Ok (decode_simple_escape d ++ s, tl)
        end
      else '(s, tl) ← readEscapedString rest; Ok (c :: s, tl)
  end.

(** ** Topic names: KafkaWALCommon.cpp *)

Definition hex_digit_uppercase (d : Z) : ascii :=
  if d <? 10 then chr (48 + d) else chr (55 + d).

Definition writeHexByteUppercase (b : ascii) : str :=
  [hex_digit_uppercase (code b / 16); hex_digit_uppercase (code b mod 16)].

Definition topic_char_allowed (b : ascii) : bool :=
  ((97 <=? code b) && (code b <=? 122)) || ((65 <=? code b) && (code b <=? 90))
  || ((48 <=? code b) && (code b <=? 57))
  || (bool_decide (b = "."%char) || bool_decide (b = "-"%char)).

Fixpoint escapeName (s : str) : str :=
  match s with
  | [] => []
  | b :: s' =>
      (if topic_char_allowed b then [b] else "_"%char :: writeHexByteUppercase b) ++ escapeName s'
  end.

Definition escapeDWALName (ns name : str) : str :=
  escapeName ns ++ ["."%char] ++ escapeName name.

(** A [std::string] made of a C string stops at the first NUL. *)
Fixpoint c_str (s : str) : str :=
  match s with
  | [] => []
  | c :: s => if decide (c = "000"%char) then [] else c :: c_str s
  end.

(** ** Lemmas: positions *)

Lemma slice_app_mid (pre mid post : str) :
  slice (pre ++ mid ++ post) (length pre) (length pre + length mid) = mid.
Proof.
  unfold slice. rewrite drop_app_length.
  replace (length pre + length mid - length pre)%nat with (length mid) by lia.
  apply take_app_length.
Qed.

Lemma find_char_app (c : ascii) (pre mid post : str) :
  c ∉ mid ->
  find_char c (pre ++ mid ++ c :: post) (length pre) = Some (length pre + length mid)%nat.
Proof.
  intros Hc. unfold find_char. rewrite drop_app_length.
  rewrite (list_find_app_r _ mid).
  - simpl. rewrite decide_True by done. done.
  - apply list_find_None, Forall_forall. set_solver.
Qed.

Lemma find_char_none (c : ascii) (pre mid : str) :
  c ∉ mid -> find_char c (pre ++ mid) (length pre) = None.
Proof.
  intros Hc. unfold find_char. rewrite drop_app_length.
  replace (list_find (fun x => x = c) mid) with (@None (nat * ascii)); [done|].
  symmetry. apply list_find_None, Forall_forall. set_solver.
Qed.

Lemma c_str_id s : "000"%char ∉ s -> c_str s = s.
Proof.
  induction s as [|c s IH]; intros Hs; simpl; [done|]. rewrite not_elem_of_cons in Hs. destruct Hs as [Hc Hs].
  rewrite decide_False by congruence. by rewrite IH.
Qed.

(** ** Lemmas: decimal numbers *)

Lemma code_chr z : 0 <= z < 256 -> code (chr z) = z.
Proof.
  intros Hz. unfold code, chr. rewrite N_ascii_embedding by lia. lia.
Qed.

Lemma is_digit_char d : 0 <= d < 10 -> is_digit (digit_char d) = true.
Proof. intros Hd. unfold is_digit, digit_char. rewrite code_chr; lia. Qed.

Lemma dec_digits_digits fuel n :
  0 <= n -> Forall (fun c => is_digit c = true) (dec_digits fuel n).
Proof.
  revert n. induction fuel as [|f IH]; intros n Hn; simpl; [constructor|].
  case_match; boolify.
  - constructor; [apply is_digit_char; lia|constructor].
  - apply Forall_app. split; [apply IH, Z.div_pos; lia|].
    constructor; [|constructor]. apply is_digit_char, Z.mod_pos_bound. lia.
Qed.

Lemma digits_value_snoc ds c : digits_value (ds ++ [c]) = digits_value ds * 10 + (code c - 48).
Proof. unfold digits_value. by rewrite foldl_app. Qed.

Lemma dec_digits_value fuel n :
  0 <= n < 10 ^ Z.of_nat fuel -> digits_value (dec_digits fuel n) = n.
Proof.
  revert n. induction fuel as [|f IH]; intros n Hn; simpl.
  { change (10 ^ Z.of_nat 0) with 1 in Hn. unfold digits_value. simpl. lia. }
  rewrite Nat2Z.inj_succ, Z.pow_succ_r in Hn by lia.
  case_match; boolify.
  - unfold digits_value, digit_char; simpl. rewrite code_chr; lia.
  - rewrite digits_value_snoc, IH.
    + unfold digit_char. pose proof (Z.mod_pos_bound n 10 ltac:(lia)).
      rewrite code_chr by lia. pose proof (Z.div_mod n 10 ltac:(lia)). lia.
    + split; [apply Z.div_pos; lia|apply Z.div_lt_upper_bound; lia].
Qed.

Lemma dec_digits_nonempty fuel n : dec_digits (S fuel) n <> [].
Proof. simpl. case_match; [done|]. by destruct (dec_digits fuel (n / 10)). Qed.

Lemma dec_fuel_enough n :
  0 <= n -> 0 <= n < 10 ^ Z.of_nat (S (Z.to_nat (Z.log2 n))).
Proof.
  intros Hn. split; [done|].
  destruct (decide (n = 0)) as [->|Hnz]; [by vm_compute|].
  pose proof (Z.log2_spec n ltac:(lia)) as [_ Hlt].
  rewrite Nat2Z.inj_succ, Z2Nat.id by apply Z.log2_nonneg.
  eapply Z.lt_le_trans; [exact Hlt|].
  apply Z.pow_le_mono_l. lia.
Qed.

Lemma take_digits_all ds : Forall (fun c => is_digit c = true) ds -> take_digits ds = ds.
Proof. induction 1 as [|c ds Hc _ IH]; simpl; [done|]. by rewrite Hc, IH. Qed.

Lemma is_digit_not_minus c : is_digit c = true -> c <> ch_minus.
Proof. intros H ->. vm_compute in H. done. Qed.

Lemma from_chars_writeIntText w z :
  in_signed w z = true ->
  from_chars w (writeIntText z) = (length (writeIntText z), errc_ok, z).
Proof.
  intros Hw. unfold writeIntText.
  pose proof (dec_digits_nonempty (Z.to_nat (Z.log2 (Z.abs z))) (Z.abs z)) as Hne.
  pose proof (dec_digits_digits (S (Z.to_nat (Z.log2 (Z.abs z)))) (Z.abs z) (Z.abs_nonneg z)) as Hds.
  pose proof (dec_digits_value _ _ (dec_fuel_enough (Z.abs z) (Z.abs_nonneg z))) as Hv.
  destruct (z <? 0) eqn:E; boolify.
  - rewrite Z.abs_neq in * by lia. unfold from_chars.
    rewrite decide_True by done. rewrite take_digits_all by done.
    destruct (dec_digits _ _) as [|c ds] eqn:Ed; [done|].
    rewrite Hv, Z.opp_involutive, Hw. done.
  - rewrite Z.abs_eq in * by lia. unfold from_chars.
    destruct (dec_digits _ _) as [|c ds] eqn:Ed; [done|].
    rewrite decide_False.
    + rewrite take_digits_all by done. rewrite Hv, Hw. done.
    + apply is_digit_not_minus. by inversion Hds.
Qed.

Lemma writeIntText_nonempty z : writeIntText z <> [].
Proof.
  unfold writeIntText. case_match; [done|]. apply dec_digits_nonempty.
Qed.

(** A number printed by [writeIntText] anywhere in a string parses back. *)
Lemma parseIntStrict_writeIntText w z pre post :
  in_signed w z = true ->
  parseIntStrict w (pre ++ writeIntText z ++ post)
    (length pre) (length pre + length (writeIntText z)) = Ok z.
Proof.
  intros Hw. unfold parseIntStrict.
  pose proof (writeIntText_nonempty z) as Hne.
  rewrite decide_False.
  - rewrite slice_app_mid, from_chars_writeIntText by done.
    rewrite decide_True by lia. done.
  - rewrite !length_app. destruct (writeIntText z); simpl in *; [done|lia].
Qed.

(** A printed number holds digits and a minus sign only. *)
Lemma writeIntText_chars z c :
  c ∈ writeIntText z -> is_digit c = true \/ c = ch_minus.
Proof.
  unfold writeIntText. intros Hc.
  destruct (z <? 0) eqn:E; boolify.
  - apply elem_of_cons in Hc as [->|Hc]; [by right|left].
    by eapply (proj1 (Forall_forall _ _)) in Hc; [|apply dec_digits_digits; lia].
  - left. by eapply (proj1 (Forall_forall _ _)) in Hc; [|apply dec_digits_digits; lia].
Qed.

Lemma writeIntText_no (c : ascii) z :
  is_digit c = false -> c <> ch_minus -> c ∉ writeIntText z.
Proof. intros Hd Hm Hc. apply writeIntText_chars in Hc as [H|H]; congruence. Qed.

(** ** Lemmas: reading back plain text *)

(** A character [readEscapedString] reads as itself. *)
Definition plain_char (c : ascii) : bool :=
  negb (bool_decide (c ∈ [ch_tab; ch_newline; ch_backslash])).

Lemma assertString_app s buf : assertString s (s ++ buf) = Ok buf.
Proof.
  unfold assertString. enough (checkString s (s ++ buf) = (true, buf)) as -> by done.
  induction s as [|c s IH]; simpl; [done|]. by rewrite decide_True.
Qed.

Lemma plain_char_spec c :
  plain_char c = true -> c <> ch_tab /\ c <> ch_newline /\ c <> ch_backslash.
Proof.
  unfold plain_char. intros H%negb_true_iff%bool_decide_eq_false. set_solver.
Qed.

Lemma readEscapedString_plain s :
  Forall (fun c => plain_char c = true) s -> readEscapedString s = Ok (s, []).
Proof.
  induction 1 as [|c s Hc _ IH]; [done|].
  apply plain_char_spec in Hc as (? & ? & ?). simpl.
  rewrite decide_False by tauto. rewrite decide_False by done. by rewrite IH.
Qed.

Lemma readEscapedString_plain_newline s rest :
  Forall (fun c => plain_char c = true) s ->
  readEscapedString (s ++ ch_newline :: rest) = Ok (s, ch_newline :: rest).
Proof.
  induction 1 as [|c s Hc _ IH]; simpl.
  { done. }
  apply plain_char_spec in Hc as (? & ? & ?).
  rewrite decide_False by tauto. rewrite decide_False by done. by rewrite IH.
Qed.

Lemma writeIntText_plain z : Forall (fun c => plain_char c = true) (writeIntText z).
Proof.
  apply Forall_forall. intros c Hc. apply writeIntText_chars in Hc as [Hd| ->]; [|done].
  unfold plain_char. apply negb_true_iff, bool_decide_eq_false. intros Hin.
  repeat (apply elem_of_cons in Hin as [->|Hin]; [by vm_compute in Hd|]).
  by apply elem_of_nil in Hin.
Qed.

(** ** Topic names *)

(** The inverse of the escaping, used to show that it loses nothing. *)
Fixpoint unescapeName (s : str) : option str :=
  match s with
  | [] => Some []
  | c :: rest =>
      if decide (c = "_"%char) then
        match rest with
        | h1 :: h2 :: rest' => cons (unhex2 h1 h2) <$> unescapeName rest'
        | _ => None
        end
      else cons c <$> unescapeName rest
  end.

(** The characters Kafka accepts in a topic name. *)
Definition kafka_legal (c : ascii) : bool :=
  topic_char_allowed c || bool_decide (c = "_"%char).

Lemma unhex2_writeHex b :
  exists h1 h2, writeHexByteUppercase b = [h1; h2] /\ unhex2 h1 h2 = b
    /\ kafka_legal h1 = true /\ kafka_legal h2 = true /\ bool_decide ("."%char ∈ [h1; h2]) = false.
Proof. destruct b as [[] [] [] [] [] [] [] []]; repeat econstructor. Qed.

Lemma topic_char_allowed_not_escape b : topic_char_allowed b = true -> b <> "_"%char.
Proof. intros H ->. by vm_compute in H. Qed.

Lemma unescapeName_escapeName s : unescapeName (escapeName s) = Some s.
Proof.
  induction s as [|b s IH]; [done|]. cbn [escapeName].
  destruct (topic_char_allowed b) eqn:E.
  - simpl. rewrite decide_False by (by apply topic_char_allowed_not_escape).
    by rewrite IH.
  - destruct (unhex2_writeHex b) as (h1 & h2 & -> & Hb & _).
    simpl. rewrite IH. simpl. by rewrite Hb.
Qed.

#[export] Instance escapeName_inj : Inj (=) (=) escapeName.
Proof.
  intros s1 s2 H. apply (f_equal unescapeName) in H.
  rewrite !unescapeName_escapeName in H. by simplify_eq.
Qed.

Lemma escapeName_legal s : Forall (fun c => kafka_legal c = true) (escapeName s).
Proof.
  induction s as [|b s IH]; cbn [escapeName]; [constructor|].
  apply Forall_app. split; [|done].
  destruct (topic_char_allowed b) eqn:E.
  - repeat constructor. unfold kafka_legal. by rewrite E.
  - destruct (unhex2_writeHex b) as (h1 & h2 & -> & _ & H1 & H2 & _).
    by do 3 (constructor; [done|]).
Qed.

Lemma escapeName_no_dot s : "."%char ∉ s -> "."%char ∉ escapeName s.
Proof.
  induction s as [|b s IH]; cbn [escapeName]; [done|]. intros Hd.
  apply not_elem_of_cons in Hd as [Hb Hs].
  apply not_elem_of_app. split; [|by apply IH].
  destruct (topic_char_allowed b) eqn:E; [by apply not_elem_of_cons; split; [|apply not_elem_of_nil]|].
  destruct (unhex2_writeHex b) as (h1 & h2 & -> & _ & _ & _ & H%bool_decide_eq_false).
  by apply not_elem_of_cons.
Qed.

Lemma split_at_first (c : ascii) l1 r1 l2 r2 :
  c ∉ l1 -> c ∉ l2 -> l1 ++ c :: r1 = l2 ++ c :: r2 -> l1 = l2 /\ r1 = r2.
Proof.
  revert l2. induction l1 as [|a l1 IH]; intros [|b l2] H1 H2 Heq; simpl in Heq.
  - by injection Heq.
  - injection Heq as -> _. set_solver.
  - injection Heq as -> _. set_solver.
  - injection Heq as -> Heq. apply IH in Heq as [-> ->]; set_solver.
Qed.

(** Distinct tables get distinct WAL topics: as long as the database
    names hold no dot, the topic name determines the database and the table,
    and the escaped name holds only characters Kafka accepts. *)
Lemma escapeDWALName_injective ns1 n1 ns2 n2 :
  "."%char ∉ ns1 -> "."%char ∉ ns2 ->
  escapeDWALName ns1 n1 = escapeDWALName ns2 n2 ->
  ns1 = ns2 /\ n1 = n2 /\ Forall (fun c => kafka_legal c = true) (escapeDWALName ns1 n1).
Proof.
  intros H1 H2 Heq. pose proof Heq as Heq'. unfold escapeDWALName in Heq.
  apply split_at_first in Heq as [Hns Hn]; [|by apply escapeName_no_dot..].
  apply (inj _) in Hns, Hn. split_and!; [done..|].
  unfold escapeDWALName. rewrite !Forall_app.
  split_and!; [apply escapeName_legal|by repeat constructor|apply escapeName_legal].
Qed.

Lemma escapeDWALName_injective_witness :
  escapeDWALName (lit "db_1") (lit "t.2") = lit "db_5F1.t.2" /\
  lit "db_1" = lit "db_1".
Proof.
  split; [by vm_compute|].
  refine (proj1 (escapeDWALName_injective (lit "db_1") (lit "t.2") (lit "db_1") (lit "t.2") _ _ eq_refl));
    apply (bool_decide_unpack _); vm_compute; exact I.
Defined.

(** The escaping keeps the dot as it is, which is also the separator
    between the database and the table: two different tables of databases with
    dots in their names share one topic. *)
Lemma escapeDWALName_collision :
  exists ns1 n1 ns2 n2, (ns1, n1) <> (ns2, n2) /\ escapeDWALName ns1 n1 = escapeDWALName ns2 n2.
Proof. exists (lit "a.b"), (lit "c"), (lit "a"), (lit "b.c"). by vm_compute. Qed.
