(* ===== verification/SequenceInfo.v ===== *)
(** * SequenceInfo: the sequence numbers of a data part

    Models src/src/Storages/MergeTree/SequenceInfo.{h,cpp}: the ranges of WAL
    sequence numbers a part holds, the text file `sn.txt` they are saved in and
    read back from, and the merge of the files of merged parts.  The search for
    missing ranges is in MissingRanges. *)

From S2P Require Import Prelude TextFormat.

Local Open Scope Z_scope.

(** ** Data *)

Record SequenceRange : Type := mkRange {
  start_sn : Z;
  end_sn : Z;
  part_index : Z;
  parts : Z;
}.

(** [SequenceRange()] and [SequenceRange(start, end)]: the part fields are -1. *)
Definition default_range : SequenceRange := mkRange (-1) (-1) (-1) (-1).
Definition sn_range (s e : Z) : SequenceRange := mkRange s e (-1) (-1).

#[export] Instance SequenceRange_eq_dec : EqDecision SequenceRange.
Proof. solve_decision. Defined.
#[export] Instance SequenceRange_inhabited : Inhabited SequenceRange := populate default_range.

Definition range_valid (r : SequenceRange) : bool :=
  (start_sn r >=? 0) && (end_sn r >=? 0) && (start_sn r <=? end_sn r)
  && (((part_index r >=? 0) && (parts r >=? 1) && (part_index r <? parts r))
      || ((part_index r =? 0) && (parts r =? 0))).

(** [operator==] and [operator<]. *)
Definition range_eqb (l r : SequenceRange) : bool :=
  (start_sn l =? start_sn r) && (end_sn l =? end_sn r)
  && (part_index l =? part_index r) && (parts l =? parts r).

Definition range_lt (l r : SequenceRange) : bool :=
  if start_sn l <? start_sn r then true
  else if start_sn l =? start_sn r then part_index l <? part_index r
  else false.

Abbreviation IdempotentKey := (Z * str)%type.

(** [idempotent_keys] is a shared pointer: [None] is the null pointer. *)
Record SequenceInfo : Type := mkInfo {
  sequence_ranges : list SequenceRange;
  idempotent_keys : option (list IdempotentKey);
}.

(** The constructor used by an ingested block. *)
Definition block_info (s e : Z) (keys : option (list IdempotentKey)) : SequenceInfo :=
  mkInfo [sn_range s e] keys.

(** [shallowClone] stamps the first range with the index of the part and the
    number of parts the block was split into; it needs a range to stamp. *)
Definition shallowClone (si : SequenceInfo) (index n : Z) : option SequenceInfo :=
  match sequence_ranges si with
  | [] => None
  | r :: rs => Some (mkInfo (mkRange (start_sn r) (end_sn r) index n :: rs) (idempotent_keys si))
  end.

Definition info_valid (si : SequenceInfo) : bool :=
  if bool_decide (sequence_ranges si = [])
     && match idempotent_keys si with None => true | Some ks => bool_decide (ks = []) end
  then false
  else forallb range_valid (sequence_ranges si).

(** ** Writing `sn.txt` *)

Definition range_write (r : SequenceRange) : str :=
  writeIntText (start_sn r) ++ [ch_comma] ++ writeIntText (end_sn r) ++ [ch_comma]
  ++ writeIntText (part_index r) ++ [ch_comma] ++ writeIntText (parts r).

Definition key_write (k : IdempotentKey) : str := writeIntText k.1 ++ [ch_comma] ++ k.2.

(** The elements separated by semicolons, as the index loops write them. *)
Fixpoint write_list {A} (f : A -> str) (l : list A) : str :=
  match l with
  | [] => []
  | [x] => f x
  | x :: l' => f x ++ [ch_semicolon] ++ write_list f l'
  end.

Definition info_write (si : SequenceInfo) : str :=
  if negb (info_valid si) then []
  else
    ["1"%char; ch_newline] ++ lit "seqs:" ++ write_list range_write (sequence_ranges si)
    ++ match idempotent_keys si with
       | None => []
       | Some ks => [ch_newline] ++ lit "keys:" ++ write_list key_write ks
       end.

(** [sequenceRangesToString], used in logs. *)
Definition sequenceRangesToString (l : list SequenceRange) : str :=
  flat_map (fun r => range_write r ++ [ch_semicolon]) l.

(** ** Reading `sn.txt` *)

Definition invalid_sequences {A} : result A :=
  Throw (DBException ErrorCodes.INVALID_CONFIG_PARAMETER).

(** One turn of the loop of [parseSequenceRange]: the number up to the next
    comma, and the position after the comma. *)
Definition parse_field (w : Z) (s : str) (lpos rpos : nat) : result (Z * nat) :=
  match find_char ch_comma s lpos with
  | None => invalid_sequences
  | Some comma_pos =>
      if decide (rpos < comma_pos)%nat then invalid_sequences
      else n ← parseIntStrict w s lpos comma_pos; Ok (n, S comma_pos)
  end.

Definition parseSequenceRange (s : str) (lpos rpos : nat) : result SequenceRange :=
  '(a, lpos) ← parse_field 64 s lpos rpos;
  '(b, lpos) ← parse_field 64 s lpos rpos;
  '(i, lpos) ← parse_field 32 s lpos rpos;
  n ← parseIntStrict 32 s lpos rpos;
  Ok (mkRange a b i n).

Definition parseIdempotentKey (s : str) (lpos rpos : nat) : result IdempotentKey :=
  match find_char ch_comma s lpos with
  | None => invalid_sequences
  | Some comma_pos =>
      if decide (rpos <= comma_pos)%nat then invalid_sequences
      else n ← parseIntStrict 64 s lpos comma_pos; Ok (n, slice s (S comma_pos) rpos)
  end.

(** The loop both readers share: parse the text up to each semicolon.  Every
    turn moves [lpos] past a semicolon, so [length data + 1] turns are enough. *)
Fixpoint read_loop {A} (parse : str -> nat -> nat -> result A) (fuel : nat)
    (data : str) (lpos : nat) (acc : list A) : result (list A) :=
  match fuel with
  | O => Ok acc
  | S fuel =>
      if decide (lpos < length data)%nat then
        match find_char ch_semicolon data lpos with
        | None => x ← parse data lpos (length data); Ok (acc ++ [x])
        | Some pos => x ← parse data lpos pos; read_loop parse fuel data (S pos) (acc ++ [x])
        end
      else Ok acc
  end.

Definition readSequenceRanges (buf : str) : result (list SequenceRange * str) :=
  buf ← assertString (lit "seqs:") buf;
  '(data, buf) ← readEscapedString buf;
  match data with
  | [] => Ok ([], buf)
  | _ => l ← read_loop parseSequenceRange (S (length data)) data 0 []; Ok (l, buf)
  end.

Definition readIdempotentKeys (buf : str) : result (option (list IdempotentKey)) :=
  buf ← assertString (lit "keys:") buf;
  '(data, buf) ← readEscapedString buf;
  match data with
  | [] => Ok None
  | _ => l ← read_loop parseIdempotentKey (S (length data)) data 0 []; Ok (Some l)
  end.

Definition info_read (buf : str) : result SequenceInfo :=
  buf ← assertString ["1"%char; ch_newline] buf;
  '(ranges, buf) ← readSequenceRanges buf;
  match buf with
  | [] => Ok (mkInfo ranges None)
  | _ =>
      buf ← assertString [ch_newline] buf;
      keys ← readIdempotentKeys buf;
      Ok (mkInfo ranges keys)
  end.

(** ** Merging the sequence info of parts *)

Section merge.
Context {Sort : StdSort}.

(** The variables of the loop of [mergeSequenceRanges]; [duplicates] are the
    pairs it reports with an error message. *)
Record merge_state : Type := mkMerge {
  merged : list SequenceRange;
  last_seq_range : SequenceRange;
  min_sn : Z;
  max_sn : Z;
  duplicates : list (SequenceRange * SequenceRange);
}.

Definition merge_step (committed_sn : Z) (st : merge_state) (next : SequenceRange) : merge_state :=
  mkMerge
    (if end_sn next >? committed_sn then merged st ++ [next] else merged st)
    next
    (if min_sn st =? -1 then start_sn next else min_sn st)
    (if end_sn next >? max_sn st then end_sn next else max_sn st)
    (if range_valid (last_seq_range st) && (end_sn (last_seq_range st) >=? start_sn next)
     then duplicates st ++ [(last_seq_range st, next)] else duplicates st).

Definition mergeSequenceRanges (ranges : list SequenceRange) (committed_sn : Z) : merge_state :=
  foldl (merge_step committed_sn) (mkMerge [] default_range (-1) (-1) []) (std_sort range_lt ranges).

(** [operator<] of [std::string] (bytes compared as unsigned) and of
    [std::pair<Int64, String>]. *)
Fixpoint str_lt (a b : str) : bool :=
  match a, b with
  | _, [] => false
  | [], _ :: _ => true
  | x :: a', y :: b' => if code x <? code y then true else if code y <? code x then false else str_lt a' b'
  end.

Definition key_lt (a b : IdempotentKey) : bool :=
  if a.1 <? b.1 then true else if b.1 <? a.1 then false else str_lt a.2 b.2.

(** The argument is the [std::set] of the keys, in order. *)
Definition mergeIdempotentKeys (keys : list IdempotentKey) (max_idempotent_keys : nat)
    : option (list IdempotentKey) :=
  match keys with
  | [] => None
  | _ => Some (last_n max_idempotent_keys keys)
  end.

Definition info_keys (si : SequenceInfo) : list IdempotentKey := default [] (idempotent_keys si).

Definition mergeSequenceInfo (sequences : list SequenceInfo) (committed_sn : Z)
    (max_idempotent_keys : nat) : option SequenceInfo :=
  match sequences with
  | [] => None
  | _ =>
      let ranges := flat_map sequence_ranges sequences in
      let keys := foldl (fun s si => set_insert_all key_lt (info_keys si) s) [] sequences in
      Some (mkInfo (merged (mergeSequenceRanges ranges committed_sn))
                   (mergeIdempotentKeys keys max_idempotent_keys))
  end.

(** MergeTreeDataMergerMutator::mergeSequenceInfo: the merge of the infos of the
    parts that have one which is not empty. *)
Definition info_not_empty (si : SequenceInfo) : bool :=
  negb (bool_decide (sequence_ranges si = []))
  || match idempotent_keys si with None => false | Some ks => negb (bool_decide (ks = [])) end.

Definition mergePartsSequenceInfo (part_infos : list (option SequenceInfo)) (committed_sn : Z)
    (max_idempotent_ids : nat) : option SequenceInfo :=
  mergeSequenceInfo (filter (fun si => info_not_empty si = true) (omap id part_infos))
    committed_sn max_idempotent_ids.
End merge.

Example info_write_ex :
  info_write (mkInfo [mkRange 1 3 0 3; mkRange 4 5 1 2] (Some [(1, lit "idem1")]))
  = ["1"%char; ch_newline] ++ lit "seqs:1,3,0,3;4,5,1,2" ++ [ch_newline] ++ lit "keys:1,idem1".
Proof. by vm_compute. Qed.

Example info_read_ex :
  info_read (["1"%char; ch_newline] ++ lit "seqs:" ++ [ch_newline] ++ lit "keys:1,idem1;2,idem2")
  = Ok (mkInfo [] (Some [(1, lit "idem1"); (2, lit "idem2")])).
Proof. by vm_compute. Qed.

(** ** Round trip of `sn.txt` *)

(** The integers of a range fit the widths they are parsed at. *)
Definition range_fits (r : SequenceRange) : bool :=
  in_signed 64 (start_sn r) && in_signed 64 (end_sn r)
  && in_signed 32 (part_index r) && in_signed 32 (parts r).

(** A key is written as it is, and read with escapes processed, up to a tab or
    a newline; the reader splits at semicolons. *)
Definition key_char_ok (c : ascii) : bool := plain_char c && negb (bool_decide (c = ch_semicolon)).

Definition key_fits (k : IdempotentKey) : bool :=
  in_signed 64 k.1 && forallb key_char_ok k.2.

Definition info_fits (si : SequenceInfo) : bool :=
  forallb range_fits (sequence_ranges si)
  && match idempotent_keys si with None => true | Some ks => forallb key_fits ks end.

(** An empty list of keys is written like a missing one is read. *)
Definition normalize_keys (ks : option (list IdempotentKey)) : option (list IdempotentKey) :=
  match ks with Some [] => None | _ => ks end.

(** What both element formats promise the loop: the text of an element is not
    empty, has no semicolon, is plain, and is parsed back wherever it stands. *)
Class Segment {A} (f : A -> str) (parse : str -> nat -> nat -> result A) (ok : A -> Prop) : Prop := {
  segment_nonempty : forall x, f x <> [];
  segment_no_semicolon : forall x, ok x -> ch_semicolon ∉ f x;
  segment_plain : forall x, ok x -> Forall (fun c => plain_char c = true) (f x);
  segment_parse : forall x pre post, ok x ->
    parse (pre ++ f x ++ post) (length pre) (length pre + length (f x))%nat = Ok x;
}.

(** Normalise concatenations and their lengths. *)
Ltac text_norm :=
  repeat first [rewrite length_app | rewrite <- app_assoc | progress cbn [app length]];
  first [lia | reflexivity].

Lemma parse_field_at w z pre post rpos :
  in_signed w z = true -> (length pre + length (writeIntText z) <= rpos)%nat ->
  parse_field w (pre ++ writeIntText z ++ ch_comma :: post) (length pre) rpos
  = Ok (z, S (length pre + length (writeIntText z))).
Proof.
  intros Hz Hr. unfold parse_field.
  rewrite find_char_app by (by apply writeIntText_no).
  rewrite decide_False by lia.
  by rewrite parseIntStrict_writeIntText.
Qed.

Lemma parse_field_step w z pre post rest rpos :
  in_signed w z = true ->
  (length pre + length (writeIntText z) <= rpos)%nat ->
  rest = pre ++ writeIntText z ++ ch_comma :: post ->
  parse_field w rest (length pre) rpos
  = Ok (z, length (pre ++ writeIntText z ++ [ch_comma])).
Proof.
  intros Hz Hr ->. rewrite parse_field_at by done.
  rewrite !length_app. simpl. do 2 f_equal. lia.
Qed.

Lemma parseIntStrict_step w z pre post rest rpos :
  in_signed w z = true ->
  rpos = (length pre + length (writeIntText z))%nat ->
  rest = pre ++ writeIntText z ++ post ->
  parseIntStrict w rest (length pre) rpos = Ok z.
Proof. intros Hz -> ->. by apply parseIntStrict_writeIntText. Qed.

Lemma parseSequenceRange_at r pre post :
  range_fits r = true ->
  parseSequenceRange (pre ++ range_write r ++ post) (length pre)
    (length pre + length (range_write r)) = Ok r.
Proof.
  destruct r as [a b i n]. unfold range_fits, range_write, parseSequenceRange. simpl.
  intros H. boolify.
  set (p1 := pre ++ writeIntText a ++ [ch_comma]).
  set (p2 := p1 ++ writeIntText b ++ [ch_comma]).
  set (p3 := p2 ++ writeIntText i ++ [ch_comma]).
  erewrite (parse_field_step 64 a pre); [cbn [mbind result_bind]|done|text_norm..].
  erewrite (parse_field_step 64 b p1); [cbn [mbind result_bind]|done|unfold p1; text_norm..].
  erewrite (parse_field_step 32 i p2); [cbn [mbind result_bind]|done|unfold p2, p1; text_norm..].
  fold p1 p2 p3.
  erewrite (parseIntStrict_step 32 n p3); [done|done|unfold p3, p2, p1; text_norm..].
Qed.

Lemma parseIdempotentKey_at k pre post :
  key_fits k = true ->
  parseIdempotentKey (pre ++ key_write k ++ post) (length pre)
    (length pre + length (key_write k)) = Ok k.
Proof.
  destruct k as [n key]. unfold key_fits, key_write, parseIdempotentKey. simpl.
  intros H. boolify. rewrite <- app_assoc. simpl.
  rewrite find_char_app by (by apply writeIntText_no).
  rewrite decide_False by (rewrite length_app; simpl; lia).
  rewrite parseIntStrict_writeIntText by done. simpl. do 2 f_equal.
  etransitivity; [|apply (slice_app_mid (pre ++ writeIntText n ++ [ch_comma]) key post)].
  f_equal; text_norm.
Qed.

Lemma key_char_ok_spec c : key_char_ok c = true -> plain_char c = true /\ c <> ch_semicolon.
Proof.
  unfold key_char_ok. intros H. boolify. split; [done|]. by apply bool_decide_eq_false in H0.
Qed.

#[export] Instance range_segment :
  Segment range_write parseSequenceRange (fun r => range_fits r = true).
Proof.
  split.
  - intros r. unfold range_write. destruct (writeIntText (start_sn r)); done.
  - intros r _. unfold range_write. rewrite !not_elem_of_app.
    split_and!; first [by apply writeIntText_no|by apply not_elem_of_cons; split; [|apply not_elem_of_nil]].
  - intros r _. unfold range_write. rewrite !Forall_app.
    split_and!; first [apply writeIntText_plain|by repeat constructor].
  - intros r pre post Hr. by apply parseSequenceRange_at.
Qed.

#[export] Instance key_segment :
  Segment key_write parseIdempotentKey (fun k => key_fits k = true).
Proof.
  split.
  - intros k. unfold key_write. by destruct (writeIntText k.1).
  - intros [n key] [_ Hk]%andb_true_iff. unfold key_write. simpl in *. rewrite not_elem_of_app, not_elem_of_cons.
    rewrite forallb_forall in Hk. split_and!; [by apply writeIntText_no|done|].
    intros Hin%list_elem_of_In%Hk%key_char_ok_spec. tauto.
  - intros [n key] [_ Hk]%andb_true_iff. unfold key_write. simpl in *. rewrite Forall_app, Forall_cons.
    split_and!; [apply writeIntText_plain|done|].
    rewrite forallb_forall in Hk. apply Forall_forall.
    intros c Hin%list_elem_of_In%Hk%key_char_ok_spec. tauto.
  - intros k pre post Hk. by apply parseIdempotentKey_at.
Qed.

Section round_trip.
Context {A} (f : A -> str) (parse : str -> nat -> nat -> result A) (ok : A -> Prop).
Context {Hseg : Segment f parse ok}.

Lemma write_list_cons x y l : write_list f (x :: y :: l) = f x ++ ch_semicolon :: write_list f (y :: l).
Proof. done. Qed.

Lemma write_list_nonempty l : l <> [] -> write_list f l <> [].
Proof.
  destruct l as [|x [|y l]]; intros Hl; [done|apply (@segment_nonempty _ _ _ _ Hseg)|].
  rewrite write_list_cons. by destruct (f x).
Qed.

Lemma write_list_plain l : Forall ok l -> Forall (fun c => plain_char c = true) (write_list f l).
Proof.
  induction 1 as [|x l Hx Hl IH]; [constructor|].
  destruct l as [|y l]; [by apply (@segment_plain _ _ _ _ Hseg)|].
  rewrite write_list_cons. apply Forall_app. split; [by apply (@segment_plain _ _ _ _ Hseg)|].
  by constructor.
Qed.

(** The loop reads back what was written, from any position on. *)
Lemma read_loop_write_list l pre acc fuel :
  Forall ok l -> (length l < fuel)%nat ->
  read_loop parse fuel (pre ++ write_list f l) (length pre) acc = Ok (acc ++ l).
Proof.
  intros Hok. revert pre acc fuel.
  induction Hok as [|x l Hx Hl IH]; intros pre acc fuel Hfuel; destruct fuel as [|fuel];
    simpl in Hfuel; try lia.
  { simpl. rewrite decide_False by (rewrite !app_nil_r; lia). by rewrite app_nil_r. }
  assert (Hne : (0 < length (f x))%nat).
  { pose proof (@segment_nonempty _ _ _ _ Hseg x). destruct (f x); simpl; [done|lia]. }
  pose proof (@segment_no_semicolon _ _ _ _ Hseg x Hx) as Hsemi.
  destruct l as [|y l]; cbn [read_loop].
  - cbn [write_list]. rewrite decide_True by text_norm. rewrite find_char_none by done.
    rewrite length_app. rewrite <- (app_nil_r (f x)) at 1.
    by rewrite (@segment_parse _ _ _ _ Hseg).
  - rewrite write_list_cons. rewrite decide_True by text_norm.
    rewrite find_char_app, (@segment_parse _ _ _ _ Hseg) by done. cbn [mbind result_bind].
    replace (pre ++ f x ++ ch_semicolon :: write_list f (y :: l))
      with ((pre ++ f x ++ [ch_semicolon]) ++ write_list f (y :: l)) by text_norm.
    replace (S (length pre + length (f x))) with (length (pre ++ f x ++ [ch_semicolon])) by text_norm.
    rewrite IH by (simpl in *; lia). by rewrite <- app_assoc.
Qed.

Lemma write_list_length l : (length l <= length (write_list f l))%nat.
Proof.
  induction l as [|x [|y l] IH]; [done| |].
  - simpl. pose proof (@segment_nonempty _ _ _ _ Hseg x). destruct (f x); simpl; [done|lia].
  - rewrite write_list_cons, length_app. simpl in *. lia.
Qed.

Lemma read_all_write_list l :
  Forall ok l ->
  read_loop parse (S (length (write_list f l))) (write_list f l) 0 [] = Ok l.
Proof.
  intros Hl. apply (read_loop_write_list l [] []); [done|].
  pose proof (write_list_length l). lia.
Qed.
End round_trip.

(** The escaped-string reader takes a written list whole, at the end of the
    buffer or before a newline. *)
Lemma readSequenceRanges_write l rest :
  Forall (fun r => range_fits r = true) l ->
  (rest = [] \/ exists rest', rest = ch_newline :: rest') ->
  readSequenceRanges (lit "seqs:" ++ write_list range_write l ++ rest) = Ok (l, rest).
Proof.
  intros Hl Hrest. unfold readSequenceRanges. rewrite assertString_app. cbn [mbind result_bind].
  assert (readEscapedString (write_list range_write l ++ rest) = Ok (write_list range_write l, rest)) as ->.
  { pose proof (write_list_plain range_write parseSequenceRange _ l Hl).
    destruct Hrest as [->|[rest' ->]]; [|by apply readEscapedString_plain_newline].
    rewrite app_nil_r. by apply readEscapedString_plain. }
  cbn [mbind result_bind]. rewrite (read_all_write_list _ _ _ l Hl). cbn [mbind result_bind].
  destruct l as [|r l]; [done|].
  pose proof (write_list_nonempty range_write parseSequenceRange _ (r :: l) ltac:(done)).
  by destruct (write_list range_write (r :: l)).
Qed.

Lemma readIdempotentKeys_write ks :
  Forall (fun k => key_fits k = true) ks ->
  readIdempotentKeys (lit "keys:" ++ write_list key_write ks) = Ok (normalize_keys (Some ks)).
Proof.
  intros Hks. unfold readIdempotentKeys. rewrite assertString_app. cbn [mbind result_bind].
  rewrite readEscapedString_plain by (by apply (write_list_plain _ parseIdempotentKey _)).
  cbn [mbind result_bind]. rewrite (read_all_write_list _ _ _ ks Hks). cbn [mbind result_bind].
  destruct ks as [|k ks]; [done|].
  pose proof (write_list_nonempty key_write parseIdempotentKey _ (k :: ks) ltac:(done)).
  by destruct (write_list key_write (k :: ks)).
Qed.

(** What a part saves in `sn.txt` is what loading the part reads back: the
    ranges, and the idempotent keys with an empty list read as none.  The keys
    hold no tab, newline, backslash or semicolon. *)
Lemma info_read_write (si : SequenceInfo) :
  info_valid si = true -> info_fits si = true ->
  info_read (info_write si) = Ok (mkInfo (sequence_ranges si) (normalize_keys (idempotent_keys si))).
Proof.
  destruct si as [rs ks]. unfold info_fits, info_write. intros -> Hf. cbn [negb sequence_ranges idempotent_keys] in *. boolify.
  rewrite forallb_forall in H. setoid_rewrite <- list_elem_of_In in H.
  apply Forall_forall in H. unfold info_read.
  rewrite (assertString_app ["1"%char; ch_newline]). cbn [mbind result_bind].
  destruct ks as [ks|]; rewrite (readSequenceRanges_write rs) by eauto; cbn [mbind result_bind]; [|done].
  rewrite forallb_forall in H0. setoid_rewrite <- list_elem_of_In in H0. apply Forall_forall in H0.
  rewrite (assertString_app [ch_newline]). cbn [mbind result_bind].
  by rewrite readIdempotentKeys_write.
Qed.

Lemma info_read_write_witness :
  info_read (info_write (mkInfo [mkRange 1 3 0 3; mkRange 4 5 1 2] (Some [(1, lit "idem1")])))
  = Ok (mkInfo [mkRange 1 3 0 3; mkRange 4 5 1 2] (Some [(1, lit "idem1")])).
Proof.
  exact (info_read_write (mkInfo [mkRange 1 3 0 3; mkRange 4 5 1 2] (Some [(1, lit "idem1")]))
    eq_refl eq_refl).
Defined.

(** ** Correctness of the merge *)

Lemma range_lt_spec l r :
  range_lt l r = true <-> start_sn l < start_sn r \/ (start_sn l = start_sn r /\ part_index l < part_index r).
Proof. unfold range_lt. repeat case_match; boolify; lia. Qed.

Lemma range_lt_spec_false l r :
  range_lt l r = false <-> start_sn r < start_sn l \/ (start_sn l = start_sn r /\ part_index r <= part_index l).
Proof. rewrite <- not_true_iff_false, range_lt_spec. lia. Qed.

Lemma range_lt_swo : strict_weak_order range_lt.
Proof.
  split; [intros x y; rewrite range_lt_spec, range_lt_spec_false
         |intros x y z; rewrite !range_lt_spec_false]; lia.
Qed.

Lemma code_inj c1 c2 : code c1 = code c2 -> c1 = c2.
Proof.
  unfold code. intros H. assert (N_of_ascii c1 = N_of_ascii c2) as H' by lia.
  by rewrite <- (ascii_N_embedding c1), H', ascii_N_embedding.
Qed.

Lemma str_lt_irrefl a : str_lt a a = false.
Proof. induction a; simpl; [done|]. by rewrite Z.ltb_irrefl. Qed.

Lemma str_lt_trans a b c : str_lt a b = true -> str_lt b c = true -> str_lt a c = true.
Proof.
  revert b c. induction a as [|x a IH]; intros [|y b] [|z c]; simpl; try done.
  intros H1 H2. repeat case_match; boolify; try done; try lia. by eapply IH.
Qed.

Lemma str_lt_total a b : str_lt a b = false -> str_lt b a = false -> a = b.
Proof.
  revert b. induction a as [|x a IH]; intros [|y b]; simpl; try done.
  intros H1 H2. repeat case_match; boolify; try done; try lia.
  f_equal; [apply code_inj; lia|by apply IH].
Qed.

Lemma key_lt_order : strict_order key_lt.
Proof.
  split.
  - intros [n k]. unfold key_lt. simpl. by rewrite Z.ltb_irrefl, str_lt_irrefl.
  - intros [n1 k1] [n2 k2] [n3 k3]. unfold key_lt. simpl. intros H1 H2.
    repeat case_match; boolify; try done; try lia. by eapply str_lt_trans.
Qed.

Lemma key_lt_total a b : key_lt a b = false -> key_lt b a = false -> a = b.
Proof.
  destruct a as [n1 k1], b as [n2 k2]. unfold key_lt. simpl. intros H1 H2.
  repeat case_match; boolify; try done; try lia.
  f_equal; [lia|by apply str_lt_total].
Qed.

Section merge_correct.
Context {Sort : StdSort}.

Lemma merged_fold committed l st :
  merged (foldl (merge_step committed) st l)
  = merged st ++ filter (fun r => committed < end_sn r) l.
Proof.
  revert st. induction l as [|r l IH]; intros st; simpl; [by rewrite app_nil_r|].
  rewrite IH, filter_cons. unfold merge_step. simpl.
  rewrite Z.gtb_ltb. case_decide as E; apply Z.ltb_lt in E || (apply Z.nlt_ge, Z.ltb_ge in E); rewrite E;
    [by rewrite <- app_assoc|done].
Qed.

Lemma merged_spec ranges committed :
  merged (mergeSequenceRanges ranges committed)
  = filter (fun r => committed < end_sn r) (std_sort range_lt ranges).
Proof. apply merged_fold. Qed.

Definition all_keys (sequences : list SequenceInfo) : list IdempotentKey :=
  foldl (fun s si => set_insert_all key_lt (info_keys si) s) [] sequences.

Lemma all_keys_snoc l si : all_keys (l ++ [si]) = set_insert_all key_lt (info_keys si) (all_keys l).
Proof. unfold all_keys. by rewrite foldl_app. Qed.

Lemma all_keys_increasing l : StronglySorted (fun x y => key_lt x y = true) (all_keys l).
Proof.
  induction l as [|si l IH] using rev_ind; [constructor|].
  rewrite all_keys_snoc. by apply (set_insert_all_increasing _ key_lt_order).
Qed.

Lemma all_keys_elem l k : k ∈ all_keys l <-> k ∈ flat_map info_keys l.
Proof.
  induction l as [|si l IH] using rev_ind; [done|].
  rewrite all_keys_snoc, flat_map_app, elem_of_app. simpl. rewrite app_nil_r. split.
  - intros [?|?%IH]%set_insert_all_elem; tauto.
  - intros [Hk|Hk]; [by apply set_insert_all_subset, IH|].
    destruct (set_insert_all_equiv _ key_lt_order (info_keys si) (all_keys l) k Hk) as (y & Hy & H1 & H2).
    by rewrite (key_lt_total k y).
Qed.

Lemma info_keys_merged rs ks n : info_keys (mkInfo rs (mergeIdempotentKeys ks n)) = last_n n ks.
Proof. destruct ks; [|done]. by destruct n. Qed.

(** Merging parts keeps the sequence numbers recovery needs: the merged part
    holds exactly the ranges that end beyond the committed sequence number, in
    order, and the idempotent keys with the largest sequence numbers: no more
    than the limit, and a key is dropped only when the limit is reached by keys
    all above it. *)
Lemma mergeSequenceInfo_spec (sequences : list SequenceInfo) (committed : Z) (max_keys : nat) :
  sequences <> [] ->
  exists m, mergeSequenceInfo sequences committed max_keys = Some m
  /\ sequence_ranges m ≡ₚ filter (fun r => committed < end_sn r) (flat_map sequence_ranges sequences)
  /\ StronglySorted (fun x y => range_lt y x = false) (sequence_ranges m)
  /\ StronglySorted (fun x y => key_lt x y = true) (info_keys m)
  /\ (length (info_keys m) <= max_keys)%nat
  /\ (forall k, k ∈ info_keys m -> k ∈ flat_map info_keys sequences)
  /\ (forall k, k ∈ flat_map info_keys sequences -> k ∉ info_keys m ->
        length (info_keys m) = max_keys /\ Forall (fun k' => key_lt k k' = true) (info_keys m)).
Proof.
  intros Hne. unfold mergeSequenceInfo. fold (all_keys sequences).
  destruct sequences as [|si l] eqn:E; [done|]. rewrite <- E in *. clear E.
  eexists. split; [reflexivity|]. rewrite info_keys_merged. cbn [sequence_ranges].
  rewrite merged_spec. split_and!.
  - by rewrite std_sort_perm.
  - apply StronglySorted_filter, std_sort_strongly, range_lt_swo.
  - rewrite last_n_drop. apply StronglySorted_drop, all_keys_increasing.
  - rewrite last_n_length. lia.
  - intros k. rewrite last_n_drop, <- all_keys_elem. intros Hk.
    rewrite <- (take_drop (length (all_keys sequences) - max_keys) (all_keys sequences)). set_solver.
  - intros k. rewrite <- all_keys_elem, last_n_length, last_n_drop.
    set (n := (length (all_keys sequences) - max_keys)%nat). intros Hk Hk'.
    assert (Ht : k ∈ take n (all_keys sequences)).
    { rewrite <- (take_drop n (all_keys sequences)) in Hk. set_solver. }
    split.
    + destruct (decide (n = 0%nat)) as [E|]; [rewrite E in Ht; set_solver|lia].
    + apply Forall_forall. intros k' Hk''.
      by eapply (StronglySorted_take_drop (fun x y => key_lt x y = true));
        [apply all_keys_increasing| |].
Qed.

End merge_correct.

Lemma mergeSequenceInfo_spec_witness :
  exists m, mergeSequenceInfo [mkInfo [mkRange 5 6 1 2; mkRange 1 2 0 1] (Some [(5, lit "b")]);
                               mkInfo [mkRange 3 4 0 1] (Some [(1, lit "a")])] 2 1 = Some m
  /\ sequence_ranges m = [mkRange 3 4 0 1; mkRange 5 6 1 2] /\ info_keys m = [(5, lit "b")].
Proof.
  destruct (mergeSequenceInfo_spec [mkInfo [mkRange 5 6 1 2; mkRange 1 2 0 1] (Some [(5, lit "b")]);
    mkInfo [mkRange 3 4 0 1] (Some [(1, lit "a")])] 2 1) as (m & H & _); [done|].
  exists m. split; [exact H|]. vm_compute in H. by injection H as <-.
Defined.
