(* ===== verification/MissingRanges.v ===== *)
(** * MissingRanges: which sequence numbers a restarted table has to read again

    Models [missingSequenceRanges] and its helpers of
    src/src/Storages/MergeTree/SequenceInfo.cpp: from the ranges of the parts on
    disk and the committed sequence number it computes the ranges, and the parts
    of partly written blocks, that are missing.  The loops run over indices as
    the code's do; a reference over blocks is proved equal, and the exactness of
    the answer is proved from it. *)

From S2P Require Import Prelude SequenceInfo.

Local Open Scope Z_scope.

(** ** The code's definitions *)

Definition with_part (r : SequenceRange) (i : Z) : SequenceRange :=
  mkRange (start_sn r) (end_sn r) i (parts r).

Definition collectMissingSequenceRangeBefore (prev : SequenceRange) (prev_index : nat)
    (next_expecting_sn : Z) (missing : list SequenceRange) : list SequenceRange :=
  if negb (prev_index =? 0)%nat then missing
  else if negb (start_sn prev =? next_expecting_sn)
  then missing ++ [sn_range next_expecting_sn (start_sn prev - 1)]
  else missing.

Definition collectMissingSequenceRangeBetween (prev cur : SequenceRange)
    (missing : list SequenceRange) : list SequenceRange :=
  if negb (start_sn prev =? start_sn cur) && negb (end_sn prev + 1 =? start_sn cur)
  then missing ++ [sn_range (end_sn prev + 1) (start_sn cur - 1)]
  else missing.

(** The loop [for (j = next; j != part_index; ++j)]: it runs to [part_index] from
    below, and into signed overflow from above ([None]). *)
Definition fill_parts (r : SequenceRange) (next to : Z) : option (list SequenceRange) :=
  if to <? next then None else Some (with_part r <$> seqZ next (to - next)).

(** The first loop of [collectMissingPartsSequenceRange], over [n] indices from [i]. *)
Fixpoint missing_parts_loop (ranges : list SequenceRange) (first : SequenceRange) (i n : nat)
    (next : Z) (missing : list SequenceRange) : option (Z * list SequenceRange) :=
  match n with
  | O => Some (next, missing)
  | S n' =>
      r ← ranges !! i;
      if negb (part_index r =? next) then
        filled ← fill_parts first next (part_index r);
        missing_parts_loop ranges first (S i) n' (part_index r + 1) (missing ++ filled)
      else missing_parts_loop ranges first (S i) n' (next + 1) missing
  end.

Definition collectMissingPartsSequenceRange (ranges : list SequenceRange)
    (prev_index cur_index : nat) (missing : list SequenceRange) : option (list SequenceRange) :=
  first ← ranges !! prev_index;
  '(next, missing) ← missing_parts_loop ranges first prev_index (cur_index - prev_index) 0 missing;
  Some (missing ++ (with_part first <$> seqZ next (parts first - next))).

Definition collectMissingSequenceRanges (ranges : list SequenceRange)
    (prev_index cur_index : nat) (nparts : Z) (next_expecting_sn : Z)
    (missing : list SequenceRange) : option (Z * list SequenceRange) :=
  prev ← ranges !! prev_index;
  let index := if (cur_index =? length ranges)%nat then (cur_index - 1)%nat else cur_index in
  cur ← ranges !! index;
  if parts prev =? nparts then
    let '(next, missing) :=
      if start_sn prev =? next_expecting_sn then (end_sn prev + 1, missing)
      else (next_expecting_sn,
            collectMissingSequenceRangeBefore prev prev_index next_expecting_sn missing) in
    Some (next, collectMissingSequenceRangeBetween prev cur missing)
  else
    let missing := collectMissingSequenceRangeBefore prev prev_index next_expecting_sn missing in
    missing ← collectMissingPartsSequenceRange ranges prev_index cur_index missing;
    Some (next_expecting_sn, collectMissingSequenceRangeBetween prev cur missing).

(** The main loop: [n] turns are left, [cur_index] is the index of the next. *)
Fixpoint missing_loop (ranges : list SequenceRange) (n cur_index prev_index : nat)
    (nparts next_expecting_sn : Z) (missing : list SequenceRange)
    : option (Z * list SequenceRange) :=
  match n with
  | O => collectMissingSequenceRanges ranges prev_index (length ranges) nparts next_expecting_sn missing
  | S n' =>
      prev ← ranges !! prev_index;
      cur ← ranges !! cur_index;
      if start_sn prev =? start_sn cur
      then missing_loop ranges n' (S cur_index) prev_index (nparts + 1) next_expecting_sn missing
      else
        '(next, missing) ←
          collectMissingSequenceRanges ranges prev_index cur_index nparts next_expecting_sn missing;
        missing_loop ranges n' (S cur_index) cur_index 1 next missing
  end.

Definition missingSequenceRanges {Sort : StdSort} (ranges : list SequenceRange) (committed : Z)
    : option (list SequenceRange * Z * Z) :=
  match ranges with
  | [] => Some ([], committed + 1, committed + 1)
  | _ =>
      let ranges := std_sort range_lt ranges in
      '(next, missing) ← missing_loop ranges (length ranges - 1) 1 0 1 (committed + 1) [];
      last_range ← last ranges;
      Some (missing, next, end_sn last_range + 1)
  end.

(** The example of the comment in SequenceInfo.h, with two gaps and a missing part. *)
Example missingSequenceRanges_ex :
  missingSequenceRanges [mkRange 9 9 0 1; mkRange 3 4 2 3; mkRange 1 1 0 1; mkRange 3 4 0 3] 0
  = Some ([sn_range 2 2; mkRange 3 4 1 3; sn_range 5 8], 2, 10).
Proof. by vm_compute. Qed.

(** ** Reference: the ranges of the parts as blocks

    A block is written as [parts] parts; [present] are the indices on disk. *)

Record block : Type := mkBlock {
  shape : SequenceRange;
  present : list Z;
}.

Definition block_ranges (b : block) : list SequenceRange := with_part (shape b) <$> present b.
Definition blocks_ranges (bs : list block) : list SequenceRange := bs ≫= block_ranges.

Definition block_missing (b : block) : list SequenceRange :=
  with_part (shape b) <$> filter (fun i => i ∉ present b) (seqZ 0 (parts (shape b))).

Definition gap (last_end next_start : Z) : list SequenceRange :=
  if next_start =? last_end + 1 then [] else [sn_range (last_end + 1) (next_start - 1)].

Fixpoint missing_ref (last_end : Z) (bs : list block) : list SequenceRange :=
  match bs with
  | [] => []
  | b :: bs => gap last_end (start_sn (shape b)) ++ block_missing b ++ missing_ref (end_sn (shape b)) bs
  end.

Definition block_complete (b : block) : bool := Z.of_nat (length (present b)) =? parts (shape b).

(** The next expected sequence number after the complete blocks at the front. *)
Fixpoint progress_ref (next : Z) (bs : list block) : Z :=
  match bs with
  | [] => next
  | b :: bs =>
      progress_ref (if block_complete b && (start_sn (shape b) =? next)
                    then end_sn (shape b) + 1 else next) bs
  end.

Definition last_end_ref (last_end : Z) (bs : list block) : Z :=
  match last bs with Some b => end_sn (shape b) | None => last_end end.

(** Blocks in order above [last_end], each with parts on disk in order. *)
Inductive blocks_wf : Z -> list block -> Prop :=
| blocks_wf_nil lo : blocks_wf lo []
| blocks_wf_cons lo b bs :
    lo < start_sn (shape b) <= end_sn (shape b) ->
    present b <> [] ->
    StronglySorted Z.lt (present b) ->
    Forall (fun i => 0 <= i < parts (shape b)) (present b) ->
    blocks_wf (end_sn (shape b)) bs ->
    blocks_wf lo (b :: bs).

(** ** The index loops compute the reference *)

Lemma seqZ_split n i m :
  n <= i < m -> seqZ n (m - n) = seqZ n (i - n) ++ i :: seqZ (i + 1) (m - (i + 1)).
Proof.
  intros H. replace (m - n) with ((i - n) + (m - i)) by lia.
  rewrite seqZ_app by lia. f_equal. rewrite seqZ_cons by lia.
  f_equal; [lia|]. f_equal; lia.
Qed.

(** The absent indices split around the first one present. *)
Lemma absent_split n i js m :
  n <= i < m -> Forall (Z.lt i) js ->
  filter (fun j => j ∉ i :: js) (seqZ n (m - n))
  = seqZ n (i - n) ++ filter (fun j => j ∉ js) (seqZ (i + 1) (m - (i + 1))).
Proof.
  intros Hi Hjs. rewrite Forall_forall in Hjs. rewrite (seqZ_split n i m) by done.
  rewrite filter_app. f_equal.
  - apply filter_all, Forall_forall. intros j Hj%elem_of_seqZ Hin.
    apply elem_of_cons in Hin as [->|Hin]; [lia|]. apply Hjs in Hin. lia.
  - rewrite filter_cons, decide_False by set_solver.
    apply filter_ext_elem. intros j Hj%elem_of_seqZ.
    rewrite not_elem_of_cons. split; [tauto|]. intros; split; [lia|done].
Qed.

Section block_loop.
Context (f : SequenceRange).

Lemma missing_parts_loop_ref ranges js rest i next missing :
  drop i ranges = (with_part f <$> js) ++ rest ->
  StronglySorted Z.lt js -> Forall (fun j => next <= j < parts f) js ->
  exists next' found,
    missing_parts_loop ranges f i (length js) next missing = Some (next', missing ++ found)
    /\ found ++ (with_part f <$> seqZ next' (parts f - next'))
       = with_part f <$> filter (fun j => j ∉ js) (seqZ next (parts f - next)).
Proof.
  revert i next missing. induction js as [|j js IH]; intros i next missing Hdrop Hs Hr.
  { exists next, []. simpl. rewrite app_nil_r. split; [done|]. f_equal. symmetry.
    apply filter_all, Forall_forall. intros ? _. apply not_elem_of_nil. }
  apply StronglySorted_inv in Hs as [Hs Hj]. apply Forall_cons in Hr as [Hjr Hr].
  simpl in Hdrop. apply drop_cons_lookup in Hdrop as [Hi Hdrop].
  simpl. rewrite Hi. simpl.
  assert (Hr' : Forall (fun k => j + 1 <= k < parts f) js).
  { apply Forall_forall. intros k Hk. rewrite Forall_forall in Hj, Hr.
    specialize (Hj k Hk). specialize (Hr k Hk). simpl in *. lia. }
  rewrite absent_split by done. rewrite fmap_app.
  destruct (j =? next) eqn:E; boolify; simpl.
  - subst j. destruct (IH (S i) (next + 1) missing Hdrop Hs Hr') as (n' & found & -> & Hf).
    exists n', found. split; [done|]. rewrite Hf. by rewrite Z.sub_diag.
  - unfold fill_parts. destruct (j <? next) eqn:E'; boolify; [lia|]. simpl.
    destruct (IH (S i) (j + 1) (missing ++ (with_part f <$> seqZ next (j - next))) Hdrop Hs Hr')
      as (n' & found & -> & Hf).
    eexists n', (_ ++ found). rewrite (app_assoc missing). split; [done|].
    by rewrite <- app_assoc, Hf.
Qed.
End block_loop.

Lemma StronglySorted_lt_NoDup (js : list Z) : StronglySorted Z.lt js -> NoDup js.
Proof.
  induction 1 as [|x l Hs IH Hx]; constructor; [|done].
  intros Hin. rewrite Forall_forall in Hx. specialize (Hx x Hin). lia.
Qed.

(** Distinct indices below [n], [n] of them, are all of them. *)
Lemma complete_present (js : list Z) n :
  StronglySorted Z.lt js -> Forall (fun j => 0 <= j < n) js -> Z.of_nat (length js) = n ->
  forall j, 0 <= j < n -> j ∈ js.
Proof.
  intros Hs Hr Hn j Hj.
  assert (Hsub : js ⊆+ seqZ 0 n).
  { apply NoDup_submseteq; [by apply StronglySorted_lt_NoDup|]. intros k Hk. rewrite Forall_forall in Hr.
    apply elem_of_seqZ. specialize (Hr k Hk). lia. }
  apply submseteq_length_Permutation in Hsub; [|rewrite length_seqZ; lia].
  rewrite Hsub. apply elem_of_seqZ. lia.
Qed.

Lemma block_missing_complete b :
  StronglySorted Z.lt (present b) -> Forall (fun j => 0 <= j < parts (shape b)) (present b) ->
  block_complete b = true -> block_missing b = [].
Proof.
  unfold block_complete. intros Hs Hr Hc. boolify. unfold block_missing.
  replace (filter _ _) with (@nil Z); [done|]. symmetry.
  apply elem_of_nil_inv. intros j [Hn Hj%elem_of_seqZ]%list_elem_of_filter. apply Hn.
  apply (complete_present _ (parts (shape b))); [done..|lia].
Qed.

Lemma blocks_ranges_cons b bs : blocks_ranges (b :: bs) = block_ranges b ++ blocks_ranges bs.
Proof. done. Qed.

Definition last_start (b : block) (bs : list block) : Z :=
  match bs with [] => start_sn (shape b) | b' :: _ => start_sn (shape b') end.

Definition gap_between (b : block) (bs : list block) : list SequenceRange :=
  match bs with [] => [] | b' :: _ => gap (end_sn (shape b)) (start_sn (shape b')) end.

Section loop.
Context (ranges : list SequenceRange).

Lemma block_head b rest i :
  drop i ranges = block_ranges b ++ rest -> present b <> [] ->
  exists j, ranges !! i = Some (with_part (shape b) j).
Proof.
  unfold block_ranges. destruct (present b) as [|j js]; [done|]. simpl. intros Hd _.
  apply drop_cons_lookup in Hd as [? _]. by exists j.
Qed.

(** The range compared with the block: the head of the next one, or at the end
    the last range of the block itself. *)
Lemma cur_range_start lo b bs i :
  drop i ranges = blocks_ranges (b :: bs) -> blocks_wf lo (b :: bs) ->
  exists cur,
    ranges !! (if (i + length (present b) =? length ranges)%nat
               then (i + length (present b) - 1)%nat else (i + length (present b))%nat) = Some cur
    /\ start_sn cur = last_start b bs.
Proof.
  intros Hd Hwf. inversion Hwf as [|? ? ? _ Hne _ _ Hbs]; subst.
  assert (Hlen : length ranges = (i + length (block_ranges b) + length (blocks_ranges bs))%nat).
  { pose proof (f_equal length Hd) as Hl. rewrite blocks_ranges_cons, length_drop, length_app in Hl.
    assert (length (block_ranges b) <> 0%nat); [|lia].
    unfold block_ranges. rewrite length_fmap. by destruct (present b). }
  pose proof (drop_app_drop ranges (block_ranges b) (blocks_ranges bs) i Hd) as Hd'.
  unfold block_ranges in Hlen, Hd'. rewrite length_fmap in Hlen, Hd'.
  destruct bs as [|b' bs]; cbn [last_start].
  - change (length (blocks_ranges [])) with 0%nat in Hlen.
    replace (_ =? _)%nat with true by (symmetry; apply Nat.eqb_eq; lia).
    destruct (lookup_lt_is_Some_2 (present b) (length (present b) - 1)) as [j Hj].
    { destruct (present b); simpl; [done|lia]. }
    exists (with_part (shape b) j). split; [|done].
    replace (i + length (present b) - 1)%nat with (i + (length (present b) - 1))%nat
      by (destruct (present b); simpl in *; [done|lia]).
    rewrite <- lookup_drop, Hd, blocks_ranges_cons. change (blocks_ranges []) with (@nil SequenceRange).
    rewrite app_nil_r. unfold block_ranges. by rewrite list_lookup_fmap, Hj.
  - inversion Hbs as [|? ? ? _ Hne' _ _ _]; subst.
    destruct (block_head b' _ _ Hd' Hne') as [j Hj].
    exists (with_part (shape b') j). split; [|done].
    apply lookup_lt_Some in Hj as Hlt.
    replace (_ =? _)%nat with false by (symmetry; apply Nat.eqb_neq; lia). done.
Qed.

Lemma before_gap b j i next missing :
  collectMissingSequenceRangeBefore (with_part (shape b) j) i next missing
  = missing ++ (if (i =? 0)%nat then gap (next - 1) (start_sn (shape b)) else []).
Proof.
  unfold collectMissingSequenceRangeBefore, gap. simpl.
  replace (next - 1 + 1) with next by lia.
  destruct (i =? 0)%nat; simpl; [|by rewrite app_nil_r].
  destruct (_ =? next); simpl; [by rewrite app_nil_r|done].
Qed.

Lemma between_gap b bs j cur missing lo :
  blocks_wf lo (b :: bs) -> start_sn cur = last_start b bs ->
  collectMissingSequenceRangeBetween (with_part (shape b) j) cur missing
  = missing ++ gap_between b bs.
Proof.
  intros Hwf Hc. unfold collectMissingSequenceRangeBetween, gap_between, gap. simpl. rewrite Hc.
  destruct bs as [|b' bs]; simpl; [by rewrite Z.eqb_refl, app_nil_r|].
  inversion Hwf as [|? ? ? ? _ _ _ Hbs]; subst. inversion Hbs; subst.
  replace (start_sn (shape b) =? start_sn (shape b')) with false by (symmetry; apply Z.eqb_neq; lia).
  rewrite Z.eqb_sym. simpl. destruct (_ =? _); simpl; [by rewrite app_nil_r|done].
Qed.

(** One call of [collectMissingSequenceRanges], on the block that starts at [i]. *)
Lemma collect_block lo b bs i next missing :
  drop i ranges = blocks_ranges (b :: bs) -> blocks_wf lo (b :: bs) ->
  collectMissingSequenceRanges ranges i (i + length (present b))
    (Z.of_nat (length (present b))) next missing
  = Some (if block_complete b && (start_sn (shape b) =? next) then end_sn (shape b) + 1 else next,
          missing ++ (if (i =? 0)%nat then gap (next - 1) (start_sn (shape b)) else [])
            ++ block_missing b ++ gap_between b bs).
Proof.
  intros Hd Hwf. destruct (cur_range_start lo b bs i Hd Hwf) as (cur & Hcur & Hstart).
  inversion Hwf as [|? ? ? Hr Hne Hs Hp _]; subst.
  destruct (block_head b (blocks_ranges bs) i Hd Hne) as [j Hj].
  unfold collectMissingSequenceRanges. rewrite Hj. cbn [mbind option_bind]. rewrite Hcur.
  cbn [mbind option_bind]. rewrite before_gap. change (parts (with_part _ _)) with (parts (shape b)).
  rewrite (Z.eqb_sym (parts _)). fold (block_complete b).
  destruct (block_complete b) eqn:Hc; cbn [andb].
  - rewrite (block_missing_complete b Hs Hp Hc).
    change (start_sn (with_part (shape b) j)) with (start_sn (shape b)).
    destruct (start_sn (shape b) =? next) eqn:E; f_equal; f_equal;
      rewrite (between_gap b bs j cur _ lo Hwf Hstart); [|by rewrite <- app_assoc].
    boolify. subst next. unfold gap. rewrite Z.sub_add, Z.eqb_refl. by destruct (i =? 0)%nat.
  - unfold collectMissingPartsSequenceRange. rewrite Hj. cbn [mbind option_bind].
    replace (i + length (present b) - i)%nat with (length (present b)) by lia.
    destruct (missing_parts_loop_ref (with_part (shape b) j) ranges (present b) (blocks_ranges bs) i 0
      (missing ++ (if (i =? 0)%nat then gap (next - 1) (start_sn (shape b)) else [])))
      as (n' & found & -> & Hf); [exact Hd|exact Hs|exact Hp|]. cbn [mbind option_bind].
    rewrite (between_gap b bs j cur _ lo Hwf Hstart). f_equal. f_equal.
    rewrite <- !app_assoc. do 2 f_equal. rewrite app_assoc, Hf, Z.sub_0_r. done.
Qed.

(** Within a block the loop only counts the parts. *)
Lemma missing_loop_scan (f : SequenceRange) (js : list Z) rest prev first n cur np next missing :
  ranges !! prev = Some first -> start_sn first = start_sn f ->
  drop cur ranges = (with_part f <$> js) ++ rest ->
  missing_loop ranges (length js + n) cur prev np next missing
  = missing_loop ranges n (cur + length js) prev (np + Z.of_nat (length js)) next missing.
Proof.
  intros Hprev Hstart. revert cur np. induction js as [|j js IH]; intros cur np Hd.
  { simpl. by rewrite Nat.add_0_r, Z.add_0_r. }
  apply drop_cons_lookup in Hd as [Hcur Hd]. simpl. rewrite Hprev, Hcur. simpl.
  rewrite Hstart, Z.eqb_refl, IH by done. f_equal; lia.
Qed.

Lemma missing_loop_ref lo b bs i next missing :
  drop i ranges = blocks_ranges (b :: bs) -> blocks_wf lo (b :: bs) ->
  missing_loop ranges (length ranges - S i) (S i) i 1 next missing
  = Some (progress_ref next (b :: bs),
          missing ++ (if (i =? 0)%nat then gap (next - 1) (start_sn (shape b)) else [])
            ++ block_missing b ++ missing_ref (end_sn (shape b)) bs).
Proof.
  revert lo b i next missing. induction bs as [|b' bs IH]; intros lo b i next missing Hd Hwf;
    pose proof (collect_block lo b _ i next missing Hd Hwf) as Hcol;
    inversion Hwf as [|? ? ? Hr Hne Hs Hp Hbs]; subst;
    destruct (block_head b _ i Hd Hne) as [j Hj];
    pose proof (f_equal length Hd) as Hlen; rewrite length_drop, blocks_ranges_cons, length_app in Hlen;
    unfold block_ranges in Hlen at 1; rewrite length_fmap in Hlen;
    pose proof (drop_app_drop _ _ _ _ Hd) as Hd'; unfold block_ranges in Hd' at 1; rewrite length_fmap in Hd';
    pose proof Hd as Htl; rewrite blocks_ranges_cons in Htl; unfold block_ranges at 1 in Htl;
    destruct (present b) as [|k ks] eqn:Epres; try done;
    apply drop_cons_lookup in Htl as [_ Htl]; cbn [length] in *.
  - change (length (blocks_ranges [])) with 0%nat in Hlen.
    replace (length ranges - S i)%nat with (length ks + 0)%nat by lia.
    rewrite (missing_loop_scan (shape b) ks (blocks_ranges []) i _ _ _ _ _ _ Hj eq_refl Htl).
    cbn [missing_loop]. replace (length ranges) with (i + S (length ks))%nat by lia.
    replace (1 + Z.of_nat (length ks)) with (Z.of_nat (S (length ks))) by lia.
    rewrite Hcol. cbn [progress_ref missing_ref gap_between]. done.
  - inversion Hbs as [|? ? ? Hr' Hne' Hs' Hp' Hbs']; subst.
    destruct (block_head b' (blocks_ranges bs) _ Hd' Hne') as [j' Hj'].
    apply lookup_lt_Some in Hj' as Hlt.
    replace (length ranges - S i)%nat
      with (length ks + S (length ranges - S (i + S (length ks))))%nat by lia.
    rewrite (missing_loop_scan (shape b) ks _ i _ _ _ _ _ _ Hj eq_refl Htl).
    replace (S i + length ks)%nat with (i + S (length ks))%nat by lia.
    replace (1 + Z.of_nat (length ks)) with (Z.of_nat (S (length ks))) by lia.
    cbn [missing_loop]. rewrite Hj, Hj'. cbn [mbind option_bind].
    replace (start_sn (with_part (shape b) j) =? start_sn (with_part (shape b') j')) with false
      by (symmetry; apply Z.eqb_neq; simpl; lia).
    rewrite Hcol. cbn [mbind option_bind].
    rewrite (IH (end_sn (shape b)) b' _ _ _ Hd' Hbs). cbn [progress_ref missing_ref gap_between].
    replace (i + S (length ks) =? 0)%nat with false by (symmetry; apply Nat.eqb_neq; lia).
    f_equal. f_equal. by rewrite <- !app_assoc.
Qed.
End loop.

(** ** Well-formed ranges of a table *)

(** Ranges of the parts of one block agree; ranges of different blocks are disjoint. *)
Definition compatible (r1 r2 : SequenceRange) : Prop :=
  (start_sn r1 = start_sn r2 /\ end_sn r1 = end_sn r2 /\ parts r1 = parts r2)
  \/ end_sn r1 < start_sn r2 \/ end_sn r2 < start_sn r1.

Definition range_ok (committed : Z) (r : SequenceRange) : Prop :=
  committed < start_sn r /\ start_sn r <= end_sn r /\ 0 <= part_index r /\ part_index r < parts r.

#[export] Instance compatible_dec r1 r2 : Decision (compatible r1 r2).
Proof. unfold compatible. solve_decision. Defined.
#[export] Instance range_ok_dec c r : Decision (range_ok c r).
Proof. unfold range_ok. solve_decision. Defined.

Definition ranges_wf (committed : Z) (l : list SequenceRange) : Prop :=
  Forall (range_ok committed) l /\ Forall (fun r1 => Forall (compatible r1) l) l /\ NoDup l.

#[export] Instance ranges_wf_dec c l : Decision (ranges_wf c l).
Proof. unfold ranges_wf. solve_decision. Defined.

Definition covers (r : SequenceRange) (sn : Z) : Prop := start_sn r <= sn <= end_sn r.

#[export] Instance covers_dec r sn : Decision (covers r sn).
Proof. unfold covers. solve_decision. Defined.

(** A range of sequence numbers none of which is on disk. *)
Definition is_gap (r : SequenceRange) : Prop := part_index r = -1.

(** All the parts of the block of [sn] are on disk. *)
Definition fully_committed (l : list SequenceRange) (sn : Z) : Prop :=
  exists r, r ∈ l /\ covers r sn /\ forall i, 0 <= i < parts r -> with_part r i ∈ l.

(** ** From ranges to blocks *)

Fixpoint group (l : list SequenceRange) : list block :=
  match l with
  | [] => []
  | r :: l' =>
      match group l' with
      | b :: bs =>
          if start_sn (shape b) =? start_sn r
          then mkBlock (shape b) (part_index r :: present b) :: bs
          else mkBlock r [part_index r] :: b :: bs
      | [] => [mkBlock r [part_index r]]
      end
  end.

Lemma with_part_same r : with_part r (part_index r) = r.
Proof. by destruct r. Qed.

Lemma ranges_wf_perm c l1 l2 : l1 ≡ₚ l2 -> ranges_wf c l1 -> ranges_wf c l2.
Proof.
  intros Hp (H1 & H2 & H3). unfold ranges_wf. rewrite <- Hp. split_and!; [done| |done].
  eapply Forall_impl; [exact H2|]. intros r Hr. by rewrite <- Hp.
Qed.

Lemma ranges_wf_compat c l r1 r2 : ranges_wf c l -> r1 ∈ l -> r2 ∈ l -> compatible r1 r2.
Proof.
  intros (_ & H & _) H1 H2. rewrite Forall_forall in H. specialize (H r1 H1).
  rewrite Forall_forall in H. by apply H.
Qed.

Lemma ranges_wf_ok c l r : ranges_wf c l -> r ∈ l -> range_ok c r.
Proof. intros (H & _ & _) Hr. rewrite Forall_forall in H. by apply H. Qed.

Lemma ranges_wf_tail c r l : ranges_wf c (r :: l) -> ranges_wf c l.
Proof.
  intros (H1 & H2 & H3). apply Forall_cons in H1 as [_ H1]. apply Forall_cons in H2 as [_ H2].
  apply NoDup_cons in H3 as [_ H3]. split_and!; [done| |done].
  eapply Forall_impl; [exact H2|]. intros r' Hr'. by apply Forall_cons in Hr' as [_ ?].
Qed.

Lemma blocks_wf_bound lo lo' b bs :
  blocks_wf lo (b :: bs) -> lo' < start_sn (shape b) -> blocks_wf lo' (b :: bs).
Proof. inversion 1; subst. intros. constructor; [lia|done..]. Qed.

Lemma group_spec c l :
  ranges_wf c l -> StronglySorted (fun x y => range_lt y x = false) l ->
  blocks_ranges (group l) = l /\ blocks_wf c (group l).
Proof.
  intros Hwf Hs. induction l as [|r l IH]; [split; [done|constructor]|].
  apply StronglySorted_inv in Hs as [Hs Hr].
  destruct (IH (ranges_wf_tail _ _ _ Hwf) Hs) as [Hbr Hbw]. clear IH.
  pose proof (ranges_wf_ok _ _ r Hwf ltac:(set_solver)) as (Hok1 & Hok2 & Hok3 & Hok4). cbn [group].
  destruct (group l) as [|b bs].
  { change (blocks_ranges []) with (@nil SequenceRange) in Hbr. subst l. split.
    - unfold blocks_ranges, block_ranges. simpl. by rewrite with_part_same.
    - constructor; simpl; [lia|done| | |constructor]; by repeat constructor. }
  assert (Hin : forall k, k ∈ present b -> with_part (shape b) k ∈ l).
  { intros k Hk. rewrite <- Hbr, blocks_ranges_cons. apply elem_of_app. left.
    unfold block_ranges. by apply list_elem_of_fmap_2. }
  inversion Hbw as [|? ? ? Hb1 Hb2 Hb3 Hb4 Hb5]; subst.
  assert (exists k, k ∈ present b) as [k Hk] by (destruct (present b); [done|set_solver]).
  rewrite Forall_forall in Hr.
  pose proof (ranges_wf_compat _ _ r _ Hwf ltac:(set_solver) ltac:(apply elem_of_cons; right; by apply Hin, Hk)) as Hcomp.
  unfold compatible in Hcomp. simpl in Hcomp.
  destruct (start_sn (shape b) =? start_sn r) eqn:E; boolify.
  - assert (Heq : with_part (shape b) (part_index r) = r).
    { destruct r as [s0 e0 i0 n0]. unfold with_part. simpl in *. f_equal; lia. }
    split.
    + unfold blocks_ranges, block_ranges. simpl. by rewrite Heq.
    + constructor; simpl; [lia|done| |by constructor; [lia|]|done]. constructor; [done|].
      apply Forall_forall. intros i Hi. pose proof (Hr _ (Hin i Hi)) as Hlt.
      apply range_lt_spec_false in Hlt. simpl in Hlt.
      enough (i <> part_index r) by lia. intros ->. apply Hin in Hi. rewrite Heq in Hi.
      destruct Hwf as (_ & _ & Hnd). by apply NoDup_cons in Hnd as [? _].
  - split.
    + rewrite blocks_ranges_cons. unfold block_ranges at 1. simpl. by rewrite with_part_same.
    + constructor; simpl; [lia|done|by repeat constructor|by repeat constructor|].
      eapply blocks_wf_bound; [exact Hbw|]. pose proof (Hr _ (Hin k Hk)) as Hlt.
      apply range_lt_spec_false in Hlt. simpl in Hlt. lia.
Qed.

(** ** What the reference computes *)

Lemma last_end_ref_cons lo b bs : last_end_ref lo (b :: bs) = last_end_ref (end_sn (shape b)) bs.
Proof. unfold last_end_ref. rewrite last_cons. by destruct (last bs). Qed.

Lemma last_end_ref_ge lo bs : blocks_wf lo bs -> lo <= last_end_ref lo bs.
Proof.
  induction 1 as [|lo b bs Hr _ _ _ _ IH]; [done|]. rewrite last_end_ref_cons. lia.
Qed.

Lemma blocks_wf_start lo bs b : blocks_wf lo bs -> b ∈ bs -> lo < start_sn (shape b).
Proof.
  induction 1 as [|lo b' bs Hr _ _ _ _ IH]; intros Hb; [set_solver|].
  apply elem_of_cons in Hb as [->|Hb]; [lia|]. specialize (IH Hb). lia.
Qed.

Lemma last_end_ref_bound lo bs b : blocks_wf lo bs -> b ∈ bs -> end_sn (shape b) <= last_end_ref lo bs.
Proof.
  induction 1 as [|lo b' bs Hr _ _ _ Hbs IH]; intros Hb; [set_solver|].
  rewrite last_end_ref_cons. apply elem_of_cons in Hb as [->|Hb]; [by apply last_end_ref_ge|by apply IH].
Qed.

Lemma gap_elem lo s g : g ∈ gap lo s <-> s <> lo + 1 /\ g = sn_range (lo + 1) (s - 1).
Proof. unfold gap. destruct (_ =? _) eqn:E; boolify; set_solver. Qed.

Lemma block_missing_elem b r :
  r ∈ block_missing b
  <-> exists i, r = with_part (shape b) i /\ 0 <= i < parts (shape b) /\ i ∉ present b.
Proof.
  unfold block_missing. rewrite list_elem_of_fmap.
  setoid_rewrite list_elem_of_filter. setoid_rewrite elem_of_seqZ. naive_solver lia.
Qed.

Lemma block_missing_not_gap b r : r ∈ block_missing b -> ~ is_gap r.
Proof. intros (i & -> & Hi & _)%block_missing_elem. unfold is_gap. simpl. lia. Qed.

Lemma missing_ref_gaps lo bs sn :
  blocks_wf lo bs ->
  (exists g, g ∈ missing_ref lo bs /\ is_gap g /\ covers g sn)
  <-> lo < sn <= last_end_ref lo bs /\ ~ (exists b, b ∈ bs /\ covers (shape b) sn).
Proof.
  induction 1 as [lo|lo b bs Hr _ _ _ Hbs IH]; cbn [missing_ref].
  { unfold last_end_ref. simpl. set_solver by lia. }
  rewrite last_end_ref_cons. pose proof (last_end_ref_ge _ _ Hbs).
  assert (Hsplit : (exists g, g ∈ gap lo (start_sn (shape b)) ++ block_missing b
                       ++ missing_ref (end_sn (shape b)) bs /\ is_gap g /\ covers g sn)
    <-> lo < sn < start_sn (shape b)
        \/ exists g, g ∈ missing_ref (end_sn (shape b)) bs /\ is_gap g /\ covers g sn).
  { setoid_rewrite elem_of_app. setoid_rewrite elem_of_app. setoid_rewrite gap_elem. split.
    - intros (g & [[Hs ->]|[Hg|Hg]] & Hgap & Hc); [left|by apply block_missing_not_gap in Hg|eauto].
      unfold covers in Hc. simpl in Hc. lia.
    - intros [Hsn|(g & ? & ?)]; [|eauto 10]. exists (sn_range (lo + 1) (start_sn (shape b) - 1)).
      split; [left; split; [lia|done]|]. unfold is_gap, covers. simpl. lia. }
  rewrite Hsplit, IH. clear Hsplit IH. split.
  - intros [Hsn|[Hsn Hno]].
    + split; [lia|]. intros (b' & [->|Hb']%elem_of_cons & Hc); unfold covers in Hc; [lia|].
      apply (blocks_wf_start _ _ b' Hbs) in Hb'. lia.
    + split; [lia|]. intros (b' & [->|Hb']%elem_of_cons & Hc); [unfold covers in Hc; lia|].
      apply Hno. by exists b'.
  - intros [Hsn Hno]. destruct (decide (sn < start_sn (shape b))); [left; lia|right].
    split; [|intros (b' & ? & ?); apply Hno; exists b'; set_solver].
    enough (~ sn <= end_sn (shape b)) by lia. intros ?. apply Hno. exists b.
    split; [set_solver|]. unfold covers. lia.
Qed.

Lemma missing_ref_parts lo bs r :
  ~ is_gap r ->
  (r ∈ missing_ref lo bs <-> exists b, b ∈ bs /\ r ∈ block_missing b).
Proof.
  intros Hg. revert lo. induction bs as [|b bs IH]; intros lo; cbn [missing_ref]; [set_solver|].
  rewrite !elem_of_app, IH, gap_elem. split.
  - intros [[_ ->]|[?|(b' & ? & ?)]]; [by contradict Hg|exists b; set_solver|exists b'; set_solver].
  - intros (b' & [->|?]%elem_of_cons & ?); [by auto|]. right; right. by exists b'.
Qed.

Lemma progress_ref_stuck lo next bs : blocks_wf lo bs -> next <= lo -> progress_ref next bs = next.
Proof.
  induction 1 as [|lo b bs Hr _ _ _ _ IH]; intros Hn; simpl; [done|].
  replace (start_sn (shape b) =? next) with false by (symmetry; apply Z.eqb_neq; lia).
  rewrite andb_false_r. apply IH. lia.
Qed.

(** The next expected number is the first one after [lo] outside complete blocks. *)
Lemma progress_ref_spec lo bs :
  blocks_wf lo bs ->
  let next := progress_ref (lo + 1) bs in
  lo + 1 <= next <= last_end_ref lo bs + 1
  /\ (forall sn, lo < sn < next -> exists b, b ∈ bs /\ block_complete b = true /\ covers (shape b) sn)
  /\ ~ (exists b, b ∈ bs /\ block_complete b = true /\ covers (shape b) next).
Proof.
  induction 1 as [lo|lo b bs Hr _ _ _ Hbs IH]; cbn [progress_ref].
  { unfold last_end_ref. simpl. split_and!; [lia|lia|lia|set_solver]. }
  rewrite last_end_ref_cons. pose proof (last_end_ref_ge _ _ Hbs).
  destruct (block_complete b && (start_sn (shape b) =? lo + 1)) eqn:E; simpl.
  - boolify. destruct IH as (IH1 & IH2 & IH3). split_and!; [lia|lia| |].
    + intros sn Hsn. destruct (decide (sn <= end_sn (shape b))).
      * exists b. split_and!; [set_solver|done|unfold covers; lia..].
      * destruct (IH2 sn ltac:(lia)) as (b' & ? & ?). exists b'. set_solver.
    + intros (b' & [->|Hb']%elem_of_cons & Hc & Hcov); [unfold covers in Hcov; lia|].
      apply IH3. by exists b'.
  - rewrite (progress_ref_stuck (end_sn (shape b))) by (done || lia).
    split_and!; [lia|lia|lia|].
    intros (b' & [->|Hb']%elem_of_cons & Hc & Hcov); unfold covers in Hcov.
    + rewrite Hc in E. simpl in E. boolify. lia.
    + apply (blocks_wf_start _ _ b' Hbs) in Hb'. lia.
Qed.

(** The missing ranges come in order: the parts of one block next to each
    other, different blocks and gaps apart. *)
Definition missing_before (a b : SequenceRange) : Prop :=
  end_sn a < start_sn b
  \/ (start_sn a = start_sn b /\ end_sn a = end_sn b /\ parts a = parts b
      /\ ~ is_gap a /\ ~ is_gap b /\ part_index a < part_index b).

Lemma StronglySorted_app_intro {A} (R : relation A) l1 l2 :
  StronglySorted R l1 -> StronglySorted R l2 ->
  (forall x y, x ∈ l1 -> y ∈ l2 -> R x y) -> StronglySorted R (l1 ++ l2).
Proof.
  intros H1 H2 H. induction H1 as [|x l1 H1 IH Hx]; [done|]. simpl. constructor.
  - apply IH. set_solver.
  - apply Forall_app. split; [done|]. apply Forall_forall. set_solver.
Qed.

Lemma seqZ_sorted n m : StronglySorted Z.lt (seqZ n m).
Proof.
  destruct (decide (0 <= m)) as [Hm|]; [|rewrite seqZ_nil by lia; constructor].
  revert n. pattern m. apply natlike_ind; [|clear m Hm; intros m Hm IH n|done].
  - intros n. rewrite seqZ_nil by lia. constructor.
  - rewrite seqZ_cons, Z.pred_succ by lia. constructor; [apply IH|].
    apply Forall_forall. intros x Hx%elem_of_seqZ. lia.
Qed.

Lemma block_missing_sorted b : StronglySorted missing_before (block_missing b).
Proof.
  unfold block_missing. pose proof (StronglySorted_filter Z.lt (fun i => i ∉ present b) _
    (seqZ_sorted 0 (parts (shape b)))) as H.
  assert (Hpos : Forall (fun i => 0 <= i) (filter (fun i => i ∉ present b) (seqZ 0 (parts (shape b))))).
  { apply Forall_forall. intros i [_ Hi%elem_of_seqZ]%list_elem_of_filter. lia. }
  induction H as [|i l H IH Hi]; simpl; [constructor|]. apply Forall_cons in Hpos as [Hi0 Hpos].
  constructor; [by apply IH|]. rewrite Forall_forall in Hi, Hpos.
  apply Forall_forall. intros r (j & -> & Hj)%list_elem_of_fmap. right. unfold is_gap. simpl.
  specialize (Hi j Hj). specialize (Hpos j Hj). simpl in *. lia.
Qed.

Lemma missing_ref_sorted lo bs :
  blocks_wf lo bs ->
  StronglySorted missing_before (missing_ref lo bs)
  /\ Forall (fun m => lo < start_sn m <= end_sn m) (missing_ref lo bs).
Proof.
  induction 1 as [lo|lo b bs Hr _ _ _ Hbs [IH1 IH2]]; cbn [missing_ref]; [split; constructor|].
  assert (Hgap : Forall (fun m => lo < start_sn m <= end_sn m /\ end_sn m < start_sn (shape b))
                        (gap lo (start_sn (shape b)))).
  { apply Forall_forall. intros g [Hg ->]%gap_elem. simpl. lia. }
  assert (Hparts : Forall (fun m => start_sn m = start_sn (shape b) /\ end_sn m = end_sn (shape b))
                          (block_missing b)).
  { apply Forall_forall. by intros m (i & -> & _)%block_missing_elem. }
  rewrite Forall_forall in IH2, Hgap, Hparts. split.
  - apply StronglySorted_app_intro; [|apply StronglySorted_app_intro; [apply block_missing_sorted|done|]|].
    + unfold gap. case_match; by repeat constructor.
    + intros x y Hx Hy. left. specialize (Hparts x Hx). specialize (IH2 y Hy). simpl in *. lia.
    + intros x y Hx Hy. left. specialize (Hgap x Hx).
      apply elem_of_app in Hy as [Hy|Hy]; [specialize (Hparts y Hy)|specialize (IH2 y Hy)]; simpl in *; lia.
  - apply Forall_forall. intros x [Hx|[Hx|Hx]%elem_of_app]%elem_of_app;
      [specialize (Hgap x Hx)|specialize (Hparts x Hx)|specialize (IH2 x Hx)]; simpl in *; lia.
Qed.

Lemma missing_ref_gap_shape lo bs m :
  m ∈ missing_ref lo bs -> is_gap m -> m = sn_range (start_sn m) (end_sn m).
Proof.
  revert lo. induction bs as [|b bs IH]; intros lo; cbn [missing_ref]; [set_solver|].
  intros [[_ ->]%gap_elem|[Hm|Hm]%elem_of_app]%elem_of_app Hg; [done| |by eapply IH].
  by apply block_missing_not_gap in Hm.
Qed.

Lemma StronglySorted_trichotomy {A} (R : relation A) l x y :
  StronglySorted R l -> x ∈ l -> y ∈ l -> x = y \/ R x y \/ R y x.
Proof.
  induction 1 as [|z l Hl IH Hz]; intros Hx Hy; [set_solver|]. rewrite Forall_forall in Hz.
  apply elem_of_cons in Hx as [->|Hx], Hy as [->|Hy]; auto.
Qed.

(** ** From blocks back to ranges *)

Lemma blocks_ranges_elem bs r :
  r ∈ blocks_ranges bs <-> exists b i, b ∈ bs /\ i ∈ present b /\ r = with_part (shape b) i.
Proof.
  unfold blocks_ranges. rewrite list_elem_of_bind. unfold block_ranges.
  setoid_rewrite list_elem_of_fmap. naive_solver.
Qed.

Lemma blocks_wf_unique lo bs b1 b2 :
  blocks_wf lo bs -> b1 ∈ bs -> b2 ∈ bs -> start_sn (shape b1) = start_sn (shape b2) -> b1 = b2.
Proof.
  induction 1 as [|lo b bs Hr _ _ _ Hbs IH]; intros H1 H2 Heq; [set_solver|].
  apply elem_of_cons in H1 as [->|H1], H2 as [->|H2]; [done| | |by apply IH];
    apply (blocks_wf_start _ _ _ Hbs) in H1 || apply (blocks_wf_start _ _ _ Hbs) in H2; lia.
Qed.

Lemma blocks_wf_block lo bs b :
  blocks_wf lo bs -> b ∈ bs ->
  present b <> [] /\ StronglySorted Z.lt (present b)
  /\ Forall (fun i => 0 <= i < parts (shape b)) (present b).
Proof.
  induction 1 as [|lo b' bs Hr H1 H2 H3 Hbs IH]; intros Hb; [set_solver|].
  apply elem_of_cons in Hb as [->|Hb]; [done|by apply IH].
Qed.

Section blocks.
Context (lo : Z) (bs : list block) (Hwf : blocks_wf lo bs).

Lemma covers_blocks sn :
  (exists b, b ∈ bs /\ covers (shape b) sn) <-> exists r, r ∈ blocks_ranges bs /\ covers r sn.
Proof.
  setoid_rewrite blocks_ranges_elem. split; [|naive_solver].
  intros (b & Hb & Hc). destruct (blocks_wf_block _ _ _ Hwf Hb) as (Hne & _).
  assert (exists k, k ∈ present b) as [k Hk] by (destruct (present b); [done|set_solver]).
  exists (with_part (shape b) k). split; [by exists b, k|done].
Qed.

Lemma with_part_elem b i :
  b ∈ bs -> (with_part (shape b) i ∈ blocks_ranges bs <-> i ∈ present b).
Proof.
  intros Hb. rewrite blocks_ranges_elem. split; [|by exists b, i].
  intros (b' & i' & Hb' & Hi' & Heq).
  assert (b = b') as <-.
  { apply (blocks_wf_unique lo bs); [done..|]. by injection Heq. }
  by injection Heq as ->.
Qed.

Lemma missing_part_blocks r :
  (exists b, b ∈ bs /\ r ∈ block_missing b)
  <-> 0 <= part_index r < parts r /\ r ∉ blocks_ranges bs /\ exists i, with_part r i ∈ blocks_ranges bs.
Proof.
  setoid_rewrite block_missing_elem. split.
  - intros (b & Hb & i & -> & Hi & Hn). split; [done|]. split.
    + by rewrite with_part_elem.
    + destruct (blocks_wf_block _ _ _ Hwf Hb) as (Hne & _).
      assert (exists k, k ∈ present b) as [k Hk] by (destruct (present b); [done|set_solver]).
      exists k. change (with_part (with_part (shape b) i) k) with (with_part (shape b) k).
      by rewrite with_part_elem.
  - intros (Hr & Hn & i & Hi). apply blocks_ranges_elem in Hi as (b & k & Hb & Hk & Heq).
    assert (r = with_part (shape b) (part_index r)) as Hrb.
    { destruct r. unfold with_part in *. simpl in *. by injection Heq as -> -> _ ->. }
    exists b. split; [done|]. exists (part_index r). split; [done|].
    rewrite Hrb in Hr, Hn. simpl in Hr. split; [done|]. by rewrite with_part_elem in Hn.
Qed.

Lemma fully_committed_blocks sn :
  fully_committed (blocks_ranges bs) sn
  <-> exists b, b ∈ bs /\ block_complete b = true /\ covers (shape b) sn.
Proof.
  unfold fully_committed. split.
  - intros (r & Hr & Hc & Hall). apply blocks_ranges_elem in Hr as (b & k & Hb & Hk & ->).
    exists b. split_and!; [done| |done]. destruct (blocks_wf_block _ _ _ Hwf Hb) as (_ & Hs & Hp).
    unfold block_complete. apply Z.eqb_eq. simpl in Hall.
    assert (Hsub : seqZ 0 (parts (shape b)) ⊆+ present b).
    { apply NoDup_submseteq; [apply NoDup_seqZ|]. intros i Hi%elem_of_seqZ.
      specialize (Hall i ltac:(lia)).
      change (with_part (with_part (shape b) k) i) with (with_part (shape b) i) in Hall.
      by rewrite with_part_elem in Hall. }
    assert (Hsub' : present b ⊆+ seqZ 0 (parts (shape b))).
    { apply NoDup_submseteq; [by apply StronglySorted_lt_NoDup|]. intros i Hi.
      rewrite Forall_forall in Hp. specialize (Hp i Hi). apply elem_of_seqZ. lia. }
    apply submseteq_length in Hsub, Hsub'. rewrite length_seqZ in *. destruct (present b); simpl in *; [set_solver|lia].
  - intros (b & Hb & Hc & Hcov). destruct (blocks_wf_block _ _ _ Hwf Hb) as (Hne & Hs & Hp).
    assert (exists k, k ∈ present b) as [k Hk] by (destruct (present b); [done|set_solver]).
    exists (with_part (shape b) k). split_and!; [by rewrite with_part_elem|done|].
    intros i Hi. change (with_part (with_part (shape b) k) i) with (with_part (shape b) i).
    rewrite with_part_elem by done. unfold block_complete in Hc. boolify.
    by apply (complete_present _ (parts (shape b))).
Qed.
End blocks.

(** ** Correctness of [missingSequenceRanges] *)

Section missing.
Context {Sort : StdSort}.

Definition sorted_blocks (l : list SequenceRange) : list block := group (std_sort range_lt l).

Lemma sorted_blocks_spec c l :
  ranges_wf c l ->
  blocks_ranges (sorted_blocks l) = std_sort range_lt l /\ blocks_wf c (sorted_blocks l).
Proof.
  intros Hwf. apply group_spec.
  - by eapply ranges_wf_perm; [symmetry; apply std_sort_perm|].
  - apply std_sort_strongly, range_lt_swo.
Qed.

Lemma last_blocks_end lo bs b :
  blocks_wf lo (b :: bs) ->
  exists r, last (blocks_ranges (b :: bs)) = Some r /\ end_sn r = last_end_ref lo (b :: bs).
Proof.
  revert lo b. induction bs as [|b' bs IH]; intros lo b Hwf;
    inversion Hwf as [|? ? ? _ Hne _ _ Hbs]; subst; rewrite last_end_ref_cons, blocks_ranges_cons.
  - change (blocks_ranges []) with (@nil SequenceRange). rewrite app_nil_r.
    unfold block_ranges. rewrite fmap_last.
    destruct (last (present b)) as [k|] eqn:E; [by eexists|by apply last_None in E].
  - destruct (IH _ _ Hbs) as (r & Hr & He). exists r. by rewrite last_app, Hr.
Qed.

(** The index loops over the sorted ranges compute the reference over blocks. *)
Lemma missingSequenceRanges_ref l c :
  ranges_wf c l ->
  missingSequenceRanges l c
  = Some (missing_ref c (sorted_blocks l), progress_ref (c + 1) (sorted_blocks l),
          last_end_ref c (sorted_blocks l) + 1).
Proof.
  intros Hwf. destruct (sorted_blocks_spec c l Hwf) as [Hbr Hbw].
  destruct l as [|r l].
  { unfold sorted_blocks. assert (std_sort range_lt [] = @nil SequenceRange) as ->; [|done].
    apply Permutation_nil_r, std_sort_perm. }
  unfold missingSequenceRanges. rewrite <- Hbr.
  destruct (sorted_blocks (r :: l)) as [|b bs] eqn:E.
  { symmetry in Hbr. apply (f_equal length) in Hbr.
    rewrite (Permutation_length (std_sort_perm range_lt (r :: l))) in Hbr. done. }
  rewrite (missing_loop_ref _ c b bs 0 (c + 1) []) by done.
  destruct (last_blocks_end c bs b Hbw) as (lr & Hl & He). cbn [mbind option_bind]. rewrite Hl.
  cbn [mbind option_bind missing_ref Nat.eqb app].
  rewrite He, Z.add_simpl_r. done.
Qed.

Lemma sorted_blocks_elem c l r : ranges_wf c l -> (r ∈ blocks_ranges (sorted_blocks l) <-> r ∈ l).
Proof. intros Hwf. destruct (sorted_blocks_spec c l Hwf) as [-> _]. by rewrite std_sort_perm. Qed.

(** What the callers rely on: the missing ranges are not empty intervals, do
    not repeat, and two of them that meet are parts of one block. *)
Lemma missingSequenceRanges_shape l c missing next max :
  ranges_wf c l -> missingSequenceRanges l c = Some (missing, next, max) ->
  StronglySorted missing_before missing /\ Forall (fun m => c < start_sn m <= end_sn m) missing.
Proof.
  intros Hwf. rewrite (missingSequenceRanges_ref _ _ Hwf). intros [= <- _ _].
  by apply missing_ref_sorted, sorted_blocks_spec.
Qed.

(** The order the parts are read in does not matter. *)
Lemma missingSequenceRanges_perm l1 l2 c :
  ranges_wf c l1 -> l1 ≡ₚ l2 -> missingSequenceRanges l1 c = missingSequenceRanges l2 c.
Proof.
  intros Hwf Hp. rewrite !missingSequenceRanges_ref by (done || by eapply ranges_wf_perm).
  enough (std_sort range_lt l1 = std_sort range_lt l2) as H by (unfold sorted_blocks; by rewrite H).
  apply (StronglySorted_unique_strong (fun x y => range_lt y x = false)).
  - intros r1 r2. rewrite !std_sort_perm, <- Hp, !range_lt_spec_false. intros H1 H2 Hlt1 Hlt2.
    pose proof (ranges_wf_compat _ _ _ _ Hwf H1 H2) as Hc.
    destruct (ranges_wf_ok _ _ _ Hwf H1) as (_ & ? & _), (ranges_wf_ok _ _ _ Hwf H2) as (_ & ? & _).
    unfold compatible in Hc. destruct r1, r2; simpl in *. f_equal; lia.
  - apply std_sort_strongly, range_lt_swo.
  - apply std_sort_strongly, range_lt_swo.
  - by rewrite !std_sort_perm.
Qed.

Lemma missing_gaps l c missing next max sn :
  ranges_wf c l -> missingSequenceRanges l c = Some (missing, next, max) ->
  (exists g, g ∈ missing /\ is_gap g /\ covers g sn)
  <-> c < sn < max /\ ~ (exists r, r ∈ l /\ covers r sn).
Proof.
  intros Hwf. rewrite (missingSequenceRanges_ref _ _ Hwf). intros [= <- _ <-].
  destruct (sorted_blocks_spec _ _ Hwf) as [_ Hbw].
  setoid_rewrite <- (fun r => sorted_blocks_elem _ _ r Hwf).
  rewrite (missing_ref_gaps _ _ _ Hbw), (covers_blocks _ _ Hbw).
  split; intros [? ?]; (split; [lia|done]).
Qed.

Lemma missing_parts l c missing next max r :
  ranges_wf c l -> missingSequenceRanges l c = Some (missing, next, max) -> ~ is_gap r ->
  (r ∈ missing <-> 0 <= part_index r < parts r /\ r ∉ l /\ exists i, with_part r i ∈ l).
Proof.
  intros Hwf. rewrite (missingSequenceRanges_ref _ _ Hwf). intros [= <- _ _] Hr.
  destruct (sorted_blocks_spec _ _ Hwf) as [_ Hbw].
  setoid_rewrite <- (fun r => sorted_blocks_elem _ _ r Hwf).
  rewrite missing_ref_parts by done. by rewrite (missing_part_blocks _ _ Hbw).
Qed.

Lemma missing_gap_shape l c missing next max m :
  ranges_wf c l -> missingSequenceRanges l c = Some (missing, next, max) ->
  m ∈ missing -> is_gap m -> m = sn_range (start_sn m) (end_sn m).
Proof.
  intros Hwf. rewrite (missingSequenceRanges_ref _ _ Hwf). intros [= <- _ _].
  apply missing_ref_gap_shape.
Qed.

Lemma missing_max l c missing next max :
  ranges_wf c l -> missingSequenceRanges l c = Some (missing, next, max) ->
  c < max /\ forall r, r ∈ l -> end_sn r < max.
Proof.
  intros Hwf. rewrite (missingSequenceRanges_ref _ _ Hwf). intros [= _ _ <-].
  destruct (sorted_blocks_spec _ _ Hwf) as [_ Hbw].
  split; [pose proof (last_end_ref_ge _ _ Hbw); lia|].
  setoid_rewrite <- (fun r => sorted_blocks_elem _ _ r Hwf).
  intros r (b & i & Hb & _ & ->)%blocks_ranges_elem.
  pose proof (last_end_ref_bound _ _ _ Hbw Hb). simpl. lia.
Qed.

Lemma missing_some l c : ranges_wf c l -> is_Some (missingSequenceRanges l c).
Proof. intros Hwf. rewrite (missingSequenceRanges_ref _ _ Hwf). by eexists. Qed.


(** The committed sequence number progresses to the right place: the next
    expected number is the first one after the committed one whose block is not
    wholly on disk, and the largest number on disk is reported. *)
Lemma missingSequenceRanges_progress (ranges : list SequenceRange) (committed : Z) :
  ranges_wf committed ranges ->
  exists missing next_expecting max_expecting,
  missingSequenceRanges ranges committed = Some (missing, next_expecting, max_expecting)
  /\ committed < next_expecting <= max_expecting
  /\ (forall sn, committed < sn < next_expecting -> fully_committed ranges sn)
  /\ ~ fully_committed ranges next_expecting
  /\ (forall r, r ∈ ranges -> end_sn r < max_expecting)
  /\ (max_expecting = committed + 1 \/ exists r, r ∈ ranges /\ end_sn r = max_expecting - 1).
Proof.
  intros Hwf. rewrite (missingSequenceRanges_ref _ _ Hwf). do 3 eexists. split; [reflexivity|].
  destruct (sorted_blocks_spec _ _ Hwf) as [_ Hbw].
  destruct (progress_ref_spec _ _ Hbw) as (Hle & Hall & Hnot).
  unfold fully_committed. setoid_rewrite <- (fun r => sorted_blocks_elem _ _ r Hwf).
  split_and!; [lia|lia| | | |].
  - intros sn Hsn. by apply (fully_committed_blocks _ _ Hbw), Hall.
  - by rewrite <- (fully_committed_blocks _ _ Hbw) in Hnot.
  - intros r Hr. rewrite (sorted_blocks_elem _ _ _ Hwf) in Hr.
    by apply (missing_max _ _ _ _ _ Hwf (missingSequenceRanges_ref _ _ Hwf)).
  - destruct (sorted_blocks ranges) as [|b bs] eqn:E; [by left|right].
    destruct (last_blocks_end _ _ _ Hbw) as (r & Hl & He). exists r.
    split; [by apply last_Some_elem_of|lia].
Qed.
End missing.

Definition witness_ranges : list SequenceRange :=
  [mkRange 9 9 0 1; mkRange 3 4 2 3; mkRange 1 1 0 1; mkRange 3 4 0 3].

Lemma witness_ranges_wf : ranges_wf 0 witness_ranges.
Proof. apply (bool_decide_unpack _). vm_compute. exact I. Qed.


Lemma missingSequenceRanges_progress_witness :
  exists missing next_expecting max_expecting,
  missingSequenceRanges witness_ranges 0 = Some (missing, next_expecting, max_expecting)
  /\ next_expecting = 2 /\ max_expecting = 10.
Proof.
  destruct (missingSequenceRanges_progress witness_ranges 0 witness_ranges_wf) as (m & n & x & H & _).
  exists m, n, x. split; [exact H|]. vm_compute in H. by injection H as _ <- <-.
Defined.
