(* ===== verification/CommittedSN.v ===== *)
(** * CommittedSN: the file `committed_sn.txt`

    Models [locateSNFile], [loadSN] and [commitSN] of
    src/src/Storages/StorageMergeTree.cpp and the number reader they use
    ([readIntTextImpl] of src/src/IO/ReadHelpers.h).  The disks of the storage
    policy are a map from a disk and a path to the contents of the file;
    [commitSN] is the sequence of its disk operations, so that a crash between
    two of them is a prefix of the sequence. *)

From S2P Require Import Prelude TextFormat.

Local Open Scope Z_scope.

(** ** [readIntTextImpl<Int64>] without the overflow check

    A sign may stand anywhere; digits accumulate in an unsigned 64-bit word. *)

Fixpoint read_int_loop (buf : str) (res : Z) (negative : bool) : Z * bool * str :=
  match buf with
  | [] => (res, negative, [])
  | c :: rest =>
      if decide (c = "+"%char) then read_int_loop rest res negative
      else if decide (c = ch_minus) then read_int_loop rest res true
      else if is_digit c
      then read_int_loop rest (wrap 64 (wrap 64 (res * 10) + (code c - 48))) negative
      else (res, negative, buf)
  end.

Definition readIntText (buf : str) : result (Z * str) :=
  match buf with
  | [] => Throw (DBException ErrorCodes.ATTEMPT_TO_READ_AFTER_EOF)
  | _ =>
      let '(res, negative, rest) := read_int_loop buf 0 false in
      Ok (if negative then to_signed 64 (wrap 64 (- res)) else to_signed 64 res, rest)
  end.

(** ** Disks *)

Abbreviation disk := nat.
Abbreviation disk_files := (gmap (nat * str) str).

Inductive disk_op : Type :=
| RemoveFileIfExists (d : disk) (path : str)
| WriteFile (d : disk) (path : str) (data : str)
| ReplaceFile (d : disk) (from to : str).

(** [ReplaceFile] renames over the target; [WriteFile] truncates. *)
Definition disk_step (fs : disk_files) (op : disk_op) : disk_files :=
  match op with
  | RemoveFileIfExists d p => delete (d, p) fs
  | WriteFile d p data => <[(d, p) := data]> fs
  | ReplaceFile d from to =>
      match fs !! (d, from) with
      | Some data => <[(d, to) := data]> (delete (d, from) fs)
      | None => fs
      end
  end.

Definition disk_run (fs : disk_files) (ops : list disk_op) : disk_files := foldl disk_step fs ops.

(** ** StorageMergeTree *)

Definition COMMITTED_SN_FILE_NAME : str := lit "committed_sn.txt".

Record sn_storage : Type := mkSN {
  sn_file : str * disk;
  committed_sn : Z;
}.

Definition setCommittedSN (st : sn_storage) (sn : Z) : sn_storage := mkSN (sn_file st) sn.

Definition loadSN (fs : disk_files) (file : str * disk) : result Z :=
  match fs !! (file.2, file.1) with
  | None => Ok (-1)
  | Some data =>
      buf ← assertString ["1"%char; ch_newline] data;
      '(sn, _) ← readIntText buf;
      Ok sn
  end.

(** The search over the data paths of the table and their disks. *)
Fixpoint locate_loop (fs : disk_files) (paths : list (str * disk)) (sn_file : str * disk)
    : result (str * disk) :=
  match paths with
  | [] => Ok sn_file
  | (path, d) :: rest =>
      let p := path ++ COMMITTED_SN_FILE_NAME in
      if bool_decide (is_Some (fs !! (d, p))) then
        if negb (bool_decide (sn_file.1 = []))
        then Throw (DBException ErrorCodes.CORRUPTED_DATA)
        else locate_loop fs rest (p, d)
      else locate_loop fs rest sn_file
  end.

Definition locateSNFile (fs : disk_files) (paths : list (str * disk)) (relative_data_path : str)
    (any_disk : disk) : result sn_storage :=
  file ← locate_loop fs paths ([], 0%nat);
  let file := if bool_decide (file.1 = [])
              then (relative_data_path ++ COMMITTED_SN_FILE_NAME, any_disk) else file in
  sn ← loadSN fs file;
  Ok (mkSN file sn).

Definition tmp_file (file : str) : str := file ++ lit ".tmp".

Definition commit_ops (file : str * disk) (sn : Z) : list disk_op :=
  [RemoveFileIfExists file.2 (tmp_file file.1);
   WriteFile file.2 (tmp_file file.1) (["1"%char; ch_newline] ++ writeIntText sn);
   ReplaceFile file.2 (tmp_file file.1) file.1].

Definition commitSN (fs : disk_files) (st : sn_storage) (sn : Z) : disk_files * sn_storage :=
  (disk_run fs (commit_ops (sn_file st) sn), setCommittedSN st sn).

(** ** Reading a number back *)

Lemma digit_not_sign c : is_digit c = true -> c <> "+"%char /\ c <> ch_minus.
Proof. intros H. split; intros ->; by vm_compute in H. Qed.

Lemma digit_value_bound c : is_digit c = true -> 0 <= code c - 48 <= 9.
Proof. unfold is_digit. intros H. boolify. lia. Qed.

(** On digits whose value fits, the loop computes the value. *)
Lemma read_int_loop_digits ds acc neg :
  Forall (fun c => is_digit c = true) ds -> 0 <= acc ->
  foldl (fun a c => a * 10 + (code c - 48)) acc ds < 2 ^ 64 ->
  read_int_loop ds acc neg = (foldl (fun a c => a * 10 + (code c - 48)) acc ds, neg, []).
Proof.
  intros Hds. revert acc. induction Hds as [|c ds Hc Hds IH]; intros acc Hacc Hb; [done|].
  destruct (digit_not_sign c Hc) as [Hp Hm]. pose proof (digit_value_bound c Hc) as Hv.
  simpl in *. rewrite !decide_False, Hc by done.
  assert (Hmono : forall l a, Forall (fun c => is_digit c = true) l -> 0 <= a ->
            a <= foldl (fun a c => a * 10 + (code c - 48)) a l).
  { induction l as [|x l IHl]; intros a Hl Ha; simpl; [lia|].
    apply Forall_cons in Hl as [Hx Hl]. pose proof (digit_value_bound x Hx).
    specialize (IHl (a * 10 + (code x - 48)) Hl ltac:(lia)). lia. }
  specialize (Hmono ds _ Hds (ltac:(lia) : 0 <= acc * 10 + (code c - 48))).
  assert (wrap 64 (wrap 64 (acc * 10) + (code c - 48)) = acc * 10 + (code c - 48)) as ->.
  { unfold wrap. rewrite !Z.mod_small; [done|lia|rewrite Z.mod_small; lia]. }
  apply IH; [lia|done].
Qed.

Lemma readIntText_writeIntText z :
  in_signed 64 z = true -> readIntText (writeIntText z) = Ok (z, []).
Proof.
  intros Hz. unfold in_signed in Hz. boolify. change (64 - 1) with 63 in *.
  pose proof (dec_digits_digits (S (Z.to_nat (Z.log2 (Z.abs z)))) (Z.abs z) (Z.abs_nonneg z)) as Hds.
  pose proof (dec_digits_value _ _ (dec_fuel_enough (Z.abs z) (Z.abs_nonneg z))) as Hv.
  pose proof (writeIntText_nonempty z) as Hne. unfold digits_value in Hv.
  unfold readIntText. destruct (writeIntText z) as [|c s] eqn:E; [done|]. rewrite <- E. clear E Hne c s.
  unfold writeIntText, to_signed. destruct (z <? 0) eqn:Ez; boolify.
  - cbn [read_int_loop]. rewrite decide_False by done. rewrite decide_True by done.
    rewrite Z.abs_neq in * by lia. rewrite read_int_loop_digits by (done || lia). rewrite Hv.
    unfold wrap. rewrite Z.opp_involutive. change (64 - 1) with 63.
    replace (z mod 2 ^ 64) with (z + 2 ^ 64) by (rewrite <- (Z_mod_plus z 1), Z.mod_small; lia).
    case_match; boolify; do 2 f_equal; lia.
  - rewrite Z.abs_eq in * by lia. rewrite read_int_loop_digits by (done || lia). rewrite Hv.
    change (64 - 1) with 63. case_match; boolify; [done|lia].
Qed.

(** ** Committing is atomic *)

Lemma tmp_file_neq file : tmp_file file <> file.
Proof.
  unfold tmp_file. intros H. apply (f_equal length) in H. rewrite length_app in H. simpl in H. lia.
Qed.

Lemma disk_run_commit fs file sn :
  disk_run fs (commit_ops file sn)
  = <[(file.2, file.1) := ["1"%char; ch_newline] ++ writeIntText sn]> (delete (file.2, tmp_file file.1) fs).
Proof.
  unfold disk_run, commit_ops. cbn [foldl disk_step]. rewrite lookup_insert_eq.
  by rewrite delete_insert_eq, delete_delete_eq.
Qed.

Lemma loadSN_committed fs file sn :
  in_signed 64 sn = true -> loadSN (disk_run fs (commit_ops file sn)) file = Ok sn.
Proof.
  intros Hsn. rewrite disk_run_commit. unfold loadSN. rewrite lookup_insert_eq.
  rewrite assertString_app. cbn [mbind result_bind]. by rewrite readIntText_writeIntText.
Qed.

(** Until the rename, the committed file is untouched. *)
Lemma commit_prefix_lookup fs file sn n :
  (n < 3)%nat -> disk_run fs (take n (commit_ops file sn)) !! (file.2, file.1) = fs !! (file.2, file.1).
Proof.
  intros Hn. pose proof (tmp_file_neq file.1).
  assert ((file.2, tmp_file file.1) <> (file.2, file.1)) by congruence.
  destruct n as [|[|[|n]]]; [done| | |lia]; unfold disk_run; simpl;
    rewrite ?lookup_insert_ne by done; by rewrite lookup_delete_ne.
Qed.

(** Committing a sequence number to `committed_sn.txt` is atomic: after a
    crash between any two of its disk operations the table reads back the
    number it had before or the new one, and after all of them the new one. *)
Lemma commitSN_atomic (fs : disk_files) (st : sn_storage) (sn : Z) (n : nat) :
  in_signed 64 sn = true ->
  let crashed := disk_run fs (take n (commit_ops (sn_file st) sn)) in
  (loadSN crashed (sn_file st) = loadSN fs (sn_file st) \/ loadSN crashed (sn_file st) = Ok sn)
  /\ loadSN (commitSN fs st sn).1 (sn_file st) = Ok sn.
Proof.
  intros Hsn crashed. subst crashed. split; [|by apply loadSN_committed].
  destruct (decide (n < 3)%nat).
  - left. unfold loadSN. by rewrite commit_prefix_lookup.
  - right. rewrite take_ge by (simpl; lia). by apply loadSN_committed.
Qed.

Lemma commitSN_atomic_witness :
  loadSN (disk_run ∅ (take 2 (commit_ops (lit "t/committed_sn.txt", 0%nat) 42))) (lit "t/committed_sn.txt", 0%nat)
  = Ok (-1)
  /\ loadSN (commitSN ∅ (mkSN (lit "t/committed_sn.txt", 0%nat) (-1)) 42).1 (lit "t/committed_sn.txt", 0%nat) = Ok 42.
Proof.
  split; [by vm_compute|].
  exact (proj2 (commitSN_atomic ∅ (mkSN (lit "t/committed_sn.txt", 0%nat) (-1)) 42 2 eq_refl)).
Defined.
