(* ===== verification/WalRecord.v ===== *)
(** * WalRecord: the records of the write-ahead log

    Models src/src/DistributedWriteAheadLog/OpCodes.h, Record.{h,cpp}
    and the record side of KafkaWALCommon.cpp: the operation
    codes, the flag word, the wire format of a record, the conversion of a Kafka
    message and the mapping of Kafka's error codes.  The native format of a block
    and the LZ4 frame are the interface [BlockCodec]. *)

From S2P Require Import Prelude TextFormat.

Local Open Scope Z_scope.

(** ** Operation codes *)

Inductive OpCode : Type :=
| ADD_DATA_BLOCK | ALTER_DATA_BLOCK
| CREATE_TABLE | DELETE_TABLE | ALTER_TABLE
| CREATE_COLUMN | DELETE_COLUMN | ALTER_COLUMN
| CREATE_DATABASE | DELETE_DATABASE
| CREATE_DICTIONARY | DELETE_DICTIONARY
| MAX_OPS_CODE
| UNKNOWN.

#[export] Instance OpCode_eq_dec : EqDecision OpCode.
Proof. solve_decision. Defined.

Definition opcode_value (op : OpCode) : Z :=
  match op with
  | ADD_DATA_BLOCK => 0 | ALTER_DATA_BLOCK => 1
  | CREATE_TABLE => 2 | DELETE_TABLE => 3 | ALTER_TABLE => 4
  | CREATE_COLUMN => 5 | DELETE_COLUMN => 6 | ALTER_COLUMN => 7
  | CREATE_DATABASE => 8 | DELETE_DATABASE => 9
  | CREATE_DICTIONARY => 10 | DELETE_DICTIONARY => 11
  | MAX_OPS_CODE => 12
  | UNKNOWN => 63
  end.

(** [static_cast<OpCode>] of a value below [MAX_OPS_CODE]. *)
Definition all_opcodes : list OpCode :=
  [ADD_DATA_BLOCK; ALTER_DATA_BLOCK; CREATE_TABLE; DELETE_TABLE; ALTER_TABLE; CREATE_COLUMN;
   DELETE_COLUMN; ALTER_COLUMN; CREATE_DATABASE; DELETE_DATABASE; CREATE_DICTIONARY; DELETE_DICTIONARY].

Definition opcode_of_value (z : Z) : OpCode := nth (Z.to_nat z) all_opcodes UNKNOWN.

(** ** The flag word: bits 0-4 version, 5-10 operation, 11 compression *)

Definition VERSION : Z := 1.

Definition make_flags (op : OpCode) (compressed : bool) : Z :=
  Z.lor (Z.lor VERSION (Z.shiftl (opcode_value op) 5)) (Z.shiftl (if compressed then 1 else 0) 11).

Definition version (flags : Z) : Z := Z.land flags 31.

Definition opcode (flags : Z) : OpCode :=
  let op := Z.land (Z.shiftr flags 5) 63 in
  if op <? opcode_value MAX_OPS_CODE then opcode_of_value op else UNKNOWN.

Definition compression (flags : Z) : Z := Z.land (Z.shiftr flags 11) 1.

(** ** [writeIntBinary] and [readIntBinary] of a [UInt64], little endian *)

Fixpoint le_bytes (n : nat) (z : Z) : str :=
  match n with O => [] | S n' => chr (z mod 256) :: le_bytes n' (z / 256) end.

Fixpoint le_value (s : str) : Z :=
  match s with [] => 0 | c :: s' => code c + 256 * le_value s' end.

Definition writeIntBinary (z : Z) : str := le_bytes 8 z.

Definition readIntBinary (buf : str) : result (Z * str) :=
  if decide (8 <= length buf)%nat then Ok (le_value (take 8 buf), drop 8 buf)
  else Throw (DBException ErrorCodes.CANNOT_READ_ALL_DATA).

(** ** Blocks

    What the record layer needs of blocks: [operator bool] (a block with no
    columns is false), the number of rows, and the native and compressed
    formats, which read back what they write.  [Block] stands for blocks of full columns:
    NativeBlockOutputStream writes a constant column as a full one. *)

Class BlockCodec (Block : Type) : Type := {
  block_rows : Block -> nat;
  native_write : Block -> str;
  native_read : str -> result Block;
  lz4_write : str -> str;
  lz4_read : str -> result str;
  native_read_write : forall b, native_read (native_write b) = Ok b;
  lz4_read_write : forall s, lz4_read (lz4_write s) = Ok s;
}.

(** ** Records *)

Definition IDEMPOTENT_KEY : str := lit "_idem".

Record WalRecord (Block : Type) : Type := mkRecord {
  op_code : OpCode;
  headers : gmap str str;
  block : Block;
  topic : str;
  partition_key : Z;
  sn : Z;
}.
Arguments mkRecord {Block} _ _ _ _ _ _.
Arguments op_code {Block} _.
Arguments headers {Block} _.
Arguments block {Block} _.
Arguments topic {Block} _.
Arguments partition_key {Block} _.
Arguments sn {Block} _.

Section record.
Context {Block : Type} `{!BlockCodec Block}.

Definition new_record (op : OpCode) (b : Block) : WalRecord Block := mkRecord op ∅ b [] 0 (-1).

Definition record_empty (r : WalRecord Block) : bool := (block_rows (block r) =? 0)%nat.

Definition hasIdempotentKey (r : WalRecord Block) : bool :=
  match headers r !! IDEMPOTENT_KEY with
  | Some key => negb (bool_decide (key = []))
  | None => false
  end.

(** [headers.at] throws when the key is not there. *)
Definition idempotentKey (r : WalRecord Block) : result str :=
  match headers r !! IDEMPOTENT_KEY with Some key => Ok key | None => Throw StdOutOfRange end.

Definition setIdempotentKey (key : str) (r : WalRecord Block) : WalRecord Block :=
  mkRecord (op_code r) (<[IDEMPOTENT_KEY := key]> (headers r)) (block r) (topic r) (partition_key r) (sn r).

Definition record_write (r : WalRecord Block) (compressed : bool) : str :=
  writeIntBinary (make_flags (op_code r) compressed)
  ++ (if compressed then lz4_write (native_write (block r)) else native_write (block r)).

Definition record_read (data : str) : result (WalRecord Block) :=
  '(flags, rb) ← readIntBinary data;
  if negb (compression flags =? 0) then
    raw ← lz4_read rb;
    b ← native_read raw;
    Ok (new_record (opcode flags) b)
  else
    b ← native_read rb;
    Ok (new_record (opcode flags) b).

(** ** Kafka messages

    [msg_headers] is [None] when the message has no headers; a header that
    librdkafka cannot return is a [None] in the list. *)
Record rd_kafka_message : Type := mkMessage {
  payload : str;
  offset : Z;
  partition : Z;
  topic_name : str;
  msg_headers : option (list (option (str * str)));
}.

(** [emplace] keeps the value of a name that is already there; the name is a C
    string. *)
Definition emplace_header (h : gmap str str) (kv : option (str * str)) : gmap str str :=
  match kv with
  | None => h
  | Some (k, v) => match h !! c_str k with Some _ => h | None => <[c_str k := v]> h end
  end.

Definition kafkaMsgToRecord (msg : rd_kafka_message) (copy_topic : bool) : result (WalRecord Block) :=
  record ← record_read (payload msg);
  Ok (mkRecord (op_code record)
        (match msg_headers msg with
         | None => headers record
         | Some hs => foldl emplace_header (headers record) hs
         end)
        (block record)
        (if copy_topic then topic_name msg else topic record)
        (wrap 64 (partition msg)) (offset msg)).
End record.

(** ** Kafka's error codes, as librdkafka numbers them *)

Module RdKafka.
Definition NO_ERROR : Z := 0.
Definition UNKNOWN_TOPIC_OR_PART : Z := 3.
Definition MSG_SIZE_TOO_LARGE : Z := 10.
Definition TOPIC_ALREADY_EXISTS : Z := 36.
Definition INVALID_REPLICATION_FACTOR : Z := 38.
Definition FATAL : Z := -150.
Definition QUEUE_FULL : Z := -184.
Definition INVALID_ARG : Z := -186.
Definition UNKNOWN_TOPIC : Z := -188.
Definition UNKNOWN_PARTITION : Z := -190.
End RdKafka.

Definition mapErrorCode (err : Z) (retriable : bool) : result Z :=
  if retriable then Ok ErrorCodes.DWAL_RETRIABLE_ERROR
  else if err =? RdKafka.NO_ERROR then Ok ErrorCodes.OK
  else if err =? RdKafka.TOPIC_ALREADY_EXISTS then Ok ErrorCodes.RESOURCE_ALREADY_EXISTS
  else if (err =? RdKafka.UNKNOWN_PARTITION) || (err =? RdKafka.UNKNOWN_TOPIC)
          || (err =? RdKafka.UNKNOWN_TOPIC_OR_PART)
       then Ok ErrorCodes.RESOURCE_NOT_FOUND
  else if err =? RdKafka.INVALID_ARG then Ok ErrorCodes.BAD_ARGUMENTS
  else if err =? RdKafka.FATAL then Throw (DBException ErrorCodes.DWAL_FATAL_ERROR)
  else if err =? RdKafka.MSG_SIZE_TOO_LARGE then Ok ErrorCodes.MSG_SIZE_TOO_LARGE
  else if err =? RdKafka.QUEUE_FULL then Ok ErrorCodes.INTERNAL_INGEST_BUFFER_FULL
  else if err =? RdKafka.INVALID_REPLICATION_FACTOR then Ok ErrorCodes.INVALID_REPLICATION_FACTOR
  else Ok ErrorCodes.UNKNOWN_EXCEPTION.

(** ** The wire format round trips *)

Lemma le_bytes_length n z : length (le_bytes n z) = n.
Proof. revert z. induction n as [|n IH]; intros z; simpl; [done|]. by rewrite IH. Qed.

Lemma le_value_bytes n z : 0 <= z < 256 ^ Z.of_nat n -> le_value (le_bytes n z) = z.
Proof.
  revert z. induction n as [|n IH]; intros z Hz.
  { change (256 ^ Z.of_nat 0) with 1 in Hz. simpl. lia. }
  rewrite Nat2Z.inj_succ, Z.pow_succ_r in Hz by lia. cbn [le_bytes le_value].
  rewrite code_chr by (apply Z.mod_pos_bound; lia).
  rewrite IH; [pose proof (Z.div_mod z 256); lia|].
  split; [apply Z.div_pos; lia|apply Z.div_lt_upper_bound; lia].
Qed.

Lemma readIntBinary_write z rest :
  0 <= z < 2 ^ 64 -> readIntBinary (writeIntBinary z ++ rest) = Ok (z, rest).
Proof.
  intros Hz. unfold readIntBinary, writeIntBinary.
  pose proof (le_bytes_length 8 z) as Hl.
  rewrite decide_True by (rewrite length_app; lia).
  rewrite take_app_le, take_ge, drop_app_le, drop_ge by lia.
  by rewrite le_value_bytes.
Qed.

(** The three fields of the flag word do not overlap. *)
Lemma make_flags_fields op c :
  0 <= make_flags op c < 2 ^ 64
  /\ version (make_flags op c) = VERSION
  /\ compression (make_flags op c) = (if c then 1 else 0)
  /\ (op <> MAX_OPS_CODE -> opcode (make_flags op c) = op).
Proof. destruct op, c; by vm_compute. Qed.

Section round_trip.
Context {Block : Type} `{!BlockCodec Block}.

Lemma record_read_write_lemma (r : WalRecord Block) compressed :
  op_code r <> MAX_OPS_CODE ->
  record_read (record_write r compressed) = Ok (new_record (op_code r) (block r)).
Proof.
  intros Hop. destruct (make_flags_fields (op_code r) compressed) as (Hb & _ & Hc & Hf).
  unfold record_read, record_write. rewrite readIntBinary_write by done. cbn [mbind result_bind].
  rewrite Hc, (Hf Hop). destruct compressed; cbn [Z.eqb negb].
  - rewrite lz4_read_write. cbn [mbind result_bind]. by rewrite native_read_write.
  - by rewrite native_read_write.
Qed.
End round_trip.

(** A codec: a block is its bytes, one row per byte, and nothing is compressed. *)
#[export] Instance plain_codec : BlockCodec str :=
  {| block_rows := length; native_write b := b; native_read s := Ok s;
     lz4_write s := s; lz4_read s := Ok s;
     native_read_write b := eq_refl; lz4_read_write s := eq_refl |}.
