(* ===== verification/Blocks.v ===== *)
(** * Blocks: the columns of a batch of rows

    Models the parts of src/src/Core/Block.cpp that ingestion uses and
    [StorageDistributedMergeTree::mergeBlocks] of
    src/src/Storages/DistributedMergeTree/StorageDistributedMergeTree.cpp, which
    appends the rows of a block to another.  A column has a name, the default
    value of its type, and its values. *)

From S2P Require Import Prelude.

Record column (V : Type) : Type := mkColumn {
  col_name : str;
  col_default : V;
  col_data : list V;
}.
Arguments mkColumn {V} _ _ _.
Arguments col_name {V} _.
Arguments col_default {V} _.
Arguments col_data {V} _.

Section block.
Context {V : Type}.

Abbreviation Block := (list (column V)).

(** [rows] is the size of the first column. *)
Definition rows (b : Block) : nat :=
  match b with [] => 0 | c :: _ => length (col_data c) end.

(** [index_by_name] holds the first column of a name. *)
Definition findByName (b : Block) (name : str) : option nat :=
  fst <$> list_find (fun c => col_name c = name) b.

(** [checkNumberOfRows]: the size of every column is that of the first. *)
Fixpoint check_rows (first : option nat) (b : Block) : bool :=
  match b with
  | [] => true
  | c :: b' =>
      match first with
      | None => check_rows (Some (length (col_data c))) b'
      | Some n => if decide (n = length (col_data c)) then check_rows first b' else false
      end
  end.

Definition checkNumberOfRows (b : Block) : result unit :=
  if check_rows None b then Ok () else Throw (DBException ErrorCodes.SIZES_OF_COLUMNS_DOESNT_MATCH).

Definition append_data (data : list V) (c : column V) : column V :=
  mkColumn (col_name c) (col_default c) (col_data c ++ data).

(** One turn of the loop of [mergeBlocks] over the columns of [rhs]. *)
Definition merge_column (lhs_rows : nat) (lhs : Block) (rhs_col : column V) : Block :=
  match findByName lhs (col_name rhs_col) with
  | Some i => alter (append_data (col_data rhs_col)) i lhs
  | None =>
      let new_col := mkColumn (col_name rhs_col) (col_default rhs_col)
                              (replicate lhs_rows (col_default rhs_col)) in
      lhs ++ [append_data (col_data rhs_col) new_col]
  end.

Definition mergeBlocks (lhs rhs : Block) : result Block :=
  let merged := foldl (merge_column (rows lhs)) lhs rhs in
  _ ← checkNumberOfRows merged;
  Ok merged.

(** A block as the rest of the code builds it: columns of one size with
    different names. *)
Definition block_wf (n : nat) (b : Block) : Prop :=
  NoDup (map col_name b) /\ Forall (fun c => length (col_data c) = n) b.

Definition column_named (b : Block) (name : str) : option (column V) :=
  snd <$> list_find (fun c => col_name c = name) b.

(** ** Lemmas *)

Lemma check_rows_some n b :
  check_rows (Some n) b = true <-> Forall (fun c => length (col_data c) = n) b.
Proof.
  induction b as [|c b IH]; simpl; [by split|]. rewrite Forall_cons. case_decide; naive_solver.
Qed.

Lemma checkNumberOfRows_ok b :
  checkNumberOfRows b = Ok () <-> Forall (fun c => length (col_data c) = rows b) b.
Proof.
  unfold checkNumberOfRows. destruct b as [|c b]; simpl; [by split|].
  rewrite Forall_cons, <- check_rows_some. destruct (check_rows _ b); naive_solver.
Qed.

Lemma findByName_some b name i :
  NoDup (map col_name b) ->
  (findByName b name = Some i <-> exists c, b !! i = Some c /\ col_name c = name).
Proof.
  intros Hnd. unfold findByName. rewrite fmap_Some. split.
  - intros ([j c] & (Hj & Hc & _)%list_find_Some & ->). eauto.
  - intros (c & Hi & Hc). exists (i, c). split; [|done]. apply list_find_Some. split_and!; [done..|].
    intros j y Hj Hlt Hy. apply (f_equal (fmap col_name)) in Hi, Hj.
    rewrite <- list_lookup_fmap in Hi, Hj. simpl in Hi, Hj. rewrite Hc in Hi. rewrite Hy in Hj.
    pose proof (NoDup_lookup _ _ _ _ Hnd Hi Hj). lia.
Qed.

Lemma findByName_none b name : findByName b name = None <-> name ∉ map col_name b.
Proof.
  unfold findByName. rewrite fmap_None, list_find_None, Forall_forall.
  rewrite list_elem_of_fmap. naive_solver.
Qed.

Lemma merge_column_names n lhs c :
  map col_name (merge_column n lhs c)
  = if decide (col_name c ∈ map col_name lhs) then map col_name lhs else map col_name lhs ++ [col_name c].
Proof.
  unfold merge_column. destruct (findByName lhs (col_name c)) as [i|] eqn:E.
  - assert (col_name c ∈ map col_name lhs) as Hin.
    { destruct (decide (col_name c ∈ map col_name lhs)) as [|Hn]; [done|].
      apply findByName_none in Hn. congruence. }
    rewrite decide_True by done. change (col_name <$> alter (append_data (col_data c)) i lhs = col_name <$> lhs).
    apply list_eq. intros j. rewrite !list_lookup_fmap. destruct (decide (i = j)) as [->|].
    + rewrite list_lookup_alter_eq. by destruct (lhs !! j).
    + by rewrite list_lookup_alter_ne.
  - apply findByName_none in E. rewrite decide_False by done. by rewrite map_app.
Qed.

Definition data_named (b : Block) (name : str) : option (list V) := col_data <$> column_named b name.

Lemma column_named_spec b name c :
  NoDup (map col_name b) -> (column_named b name = Some c <-> c ∈ b /\ col_name c = name).
Proof.
  intros Hnd. unfold column_named. rewrite fmap_Some. split.
  - intros ([j c'] & (Hj & Hc & _)%list_find_Some & ->). split; [by eapply list_elem_of_lookup_2|done].
  - intros [[i Hi]%list_elem_of_lookup Hc].
    assert (Hf : findByName b name = Some i) by (apply findByName_some; eauto).
    unfold findByName in Hf. apply fmap_Some in Hf as ([j c'] & Hf & [= ->]). exists (j, c').
    split; [done|]. apply list_find_Some in Hf as (Hj & _). simpl in *. congruence.
Qed.

Lemma column_named_none b name : column_named b name = None <-> name ∉ map col_name b.
Proof. rewrite <- findByName_none. unfold column_named, findByName. by rewrite !fmap_None. Qed.

Lemma merge_column_NoDup n lhs c :
  NoDup (map col_name lhs) -> NoDup (map col_name (merge_column n lhs c)).
Proof.
  intros Hnd. rewrite merge_column_names. case_decide; [done|]. apply NoDup_app.
  split_and!; [done|set_solver|apply NoDup_singleton].
Qed.

(** Only the column of the name changes: it gets the new rows, after defaults
    for the old rows where it is new. *)
Lemma merge_column_data n lhs c name :
  NoDup (map col_name lhs) ->
  data_named (merge_column n lhs c) name
  = if decide (name = col_name c)
    then Some (default (replicate n (col_default c)) (data_named lhs name) ++ col_data c)
    else data_named lhs name.
Proof.
  intros Hnd. pose proof (merge_column_NoDup n lhs c Hnd) as Hnd'. unfold data_named.
  apply option_eq. intros d. rewrite fmap_Some. setoid_rewrite (column_named_spec _ _ _ Hnd').
  unfold merge_column in *. destruct (findByName lhs (col_name c)) as [i|] eqn:E.
  - apply findByName_some in E as (l & Hi & Hl); [|done].
    assert (Hin : forall x, x ∈ alter (append_data (col_data c)) i lhs
      <-> x = append_data (col_data c) l \/ (x ∈ lhs /\ col_name x <> col_name c)).
    { intros x. split.
      - intros [j Hj]%list_elem_of_lookup. destruct (decide (i = j)) as [<-|Hne].
        + rewrite list_lookup_alter_eq, Hi in Hj. left. by injection Hj.
        + rewrite list_lookup_alter_ne in Hj by done. right. split; [by eapply list_elem_of_lookup_2|].
          intros Hx. apply Hne. apply (f_equal (fmap col_name)) in Hi, Hj.
          rewrite <- list_lookup_fmap in Hi, Hj. simpl in Hi, Hj. rewrite Hl in Hi. rewrite Hx in Hj.
          exact (NoDup_lookup _ _ _ _ Hnd Hi Hj).
      - intros [->|[[j Hj]%list_elem_of_lookup Hne]].
        + apply (list_elem_of_lookup_2 _ i). by rewrite list_lookup_alter_eq, Hi.
        + apply (list_elem_of_lookup_2 _ j). rewrite list_lookup_alter_ne; [done|]. congruence. }
    assert (Hcl : column_named lhs (col_name c) = Some l).
    { apply column_named_spec; [done|]. split; [by eapply list_elem_of_lookup_2|done]. }
    setoid_rewrite Hin. case_decide as Hname.
    + subst name. rewrite Hcl. simpl. split; [|intros [= <-]; exists (append_data (col_data c) l); naive_solver].
      intros (x & [[->|[_ ?]] ?] & ->); [done|congruence].
    + rewrite fmap_Some. setoid_rewrite (column_named_spec _ _ _ Hnd). naive_solver.
  - apply findByName_none in E. setoid_rewrite elem_of_app. setoid_rewrite list_elem_of_singleton.
    case_decide as Hname.
    + subst name. assert (column_named lhs (col_name c) = None) as -> by (by apply column_named_none).
      simpl. split; [|intros [= <-]; eexists; split; [split; [by right|done]|done]].
      intros (x & [[Hx| ->] Hn] & ->); [|done]. exfalso. apply E. rewrite <- Hn. by apply list_elem_of_fmap_2.
    + rewrite fmap_Some. setoid_rewrite (column_named_spec _ _ _ Hnd). simpl. naive_solver.
Qed.
End block.

Section merge_blocks.
Context {V : Type}.
Abbreviation Block := (list (column V)).

Lemma merge_columns_NoDup n (lhs rhs : Block) :
  NoDup (map col_name lhs) -> NoDup (map col_name (foldl (merge_column n) lhs rhs)).
Proof.
  revert lhs. induction rhs as [|c rhs IH]; intros lhs Hnd; simpl; [done|].
  by apply IH, merge_column_NoDup.
Qed.

Lemma merge_columns_data n (lhs rhs : Block) name :
  NoDup (map col_name lhs) -> NoDup (map col_name rhs) ->
  data_named (foldl (merge_column n) lhs rhs) name
  = match column_named rhs name with
    | Some r => Some (default (replicate n (col_default r)) (data_named lhs name) ++ col_data r)
    | None => data_named lhs name
    end.
Proof.
  revert lhs. induction rhs as [|c rhs IH]; intros lhs Hl Hr; [done|].
  simpl in Hr. apply NoDup_cons in Hr as [Hc Hr]. cbn [foldl].
  rewrite IH by (done || by apply merge_column_NoDup). rewrite merge_column_data by done.
  unfold column_named at 2. simpl. case_decide as Hn.
  - rewrite Hn in *. rewrite decide_True by done. simpl.
    by assert (column_named rhs (col_name c) = None) as -> by (by apply column_named_none).
  - rewrite decide_False by congruence. unfold column_named.
    by destruct (list_find _ rhs) as [[j r]|].
Qed.

Lemma data_named_length n (b : Block) name d :
  block_wf n b -> data_named b name = Some d -> length d = n.
Proof.
  intros [Hnd Hn] (c & Hc & ->)%fmap_Some. apply column_named_spec in Hc as [Hc _]; [|done].
  rewrite Forall_forall in Hn. by apply Hn.
Qed.

Lemma data_named_some (b : Block) c : NoDup (map col_name b) -> c ∈ b -> data_named b (col_name c) = Some (col_data c).
Proof.
  intros Hnd Hc. unfold data_named.
  by assert (column_named b (col_name c) = Some c) as -> by (by apply column_named_spec).
Qed.

Lemma rows_wf n (b : Block) : block_wf n b -> b <> [] -> rows b = n.
Proof. intros [_ Hn] Hb. destruct b as [|c b]; [done|]. by apply Forall_cons in Hn as [? _]. Qed.

Lemma checkNumberOfRows_cases (b : Block) :
  checkNumberOfRows b = Ok () \/ checkNumberOfRows b = Throw (DBException ErrorCodes.SIZES_OF_COLUMNS_DOESNT_MATCH).
Proof. unfold checkNumberOfRows. case_match; auto. Qed.

(** The columns of the merge, as they stand before the check of their sizes. *)
Lemma merged_column n m (lhs rhs : Block) c :
  block_wf n lhs -> block_wf m rhs -> c ∈ foldl (merge_column n) lhs rhs ->
  (col_name c ∈ map col_name rhs /\ length (col_data c) = (n + m)%nat)
  \/ (col_name c ∉ map col_name rhs /\ c.(col_name) ∈ map col_name lhs /\ length (col_data c) = n).
Proof.
  intros Hl Hr Hc. pose proof (merge_columns_NoDup n lhs rhs (proj1 Hl)) as Hnd.
  pose proof (data_named_some _ _ Hnd Hc) as Hd.
  rewrite merge_columns_data in Hd by (apply Hl || apply Hr).
  destruct (column_named rhs (col_name c)) as [r|] eqn:E; [left|right].
  - apply column_named_spec in E as [Hin Hn]; [|apply Hr].
    split; [rewrite <- Hn; by apply list_elem_of_fmap_2|].
    injection Hd as <-. rewrite length_app. destruct Hr as [_ Hr]. rewrite Forall_forall in Hr.
    rewrite (Hr r Hin). f_equal. destruct (data_named lhs (col_name c)) as [d|] eqn:Ed; simpl;
      [by eapply data_named_length|apply length_replicate].
  - apply column_named_none in E. split; [done|]. split; [|by eapply data_named_length].
    unfold data_named in Hd. apply fmap_Some in Hd as (l & Hl' & _).
    apply column_named_spec in Hl' as [Hin Hn]; [|apply Hl]. rewrite <- Hn. by apply list_elem_of_fmap_2.
Qed.

Lemma merged_present n (lhs rhs : Block) name :
  NoDup (map col_name lhs) -> NoDup (map col_name rhs) ->
  name ∈ map col_name lhs \/ name ∈ map col_name rhs ->
  exists c, c ∈ foldl (merge_column n) lhs rhs /\ col_name c = name.
Proof.
  intros Hl Hr Hn. pose proof (merge_columns_NoDup n lhs rhs Hl) as Hnd.
  assert (is_Some (data_named (foldl (merge_column n) lhs rhs) name)) as [d Hd].
  { rewrite merge_columns_data by done. destruct (column_named rhs name) eqn:E; [by eexists|].
    apply column_named_none in E. destruct Hn as [Hn|Hn]; [|done]. unfold data_named.
    destruct (column_named lhs name) eqn:E'; [by eexists|]. by apply column_named_none in E'. }
  apply fmap_Some in Hd as (c & Hc & _). exists c. by apply column_named_spec in Hc.
Qed.

(** Appending the rows of a block keeps every row of both: the columns of
    the second block get the rows of the first, or defaults where the first has
    no such column, followed by their own.  When the first block has a column
    that the second lacks the result is ragged and the merge is refused. *)
Lemma mergeBlocks_spec (lhs rhs : Block) (n m : nat) :
  block_wf n lhs -> block_wf m rhs -> lhs <> [] ->
  (map col_name lhs ⊆ map col_name rhs ->
    exists b, mergeBlocks lhs rhs = Ok b /\ block_wf (n + m) b
    /\ forall name, data_named b name
       = (fun r => default (replicate n (col_default r)) (data_named lhs name) ++ col_data r)
         <$> column_named rhs name)
  /\ (~ map col_name lhs ⊆ map col_name rhs -> rhs <> [] -> m <> 0%nat ->
    mergeBlocks lhs rhs = Throw (DBException ErrorCodes.SIZES_OF_COLUMNS_DOESNT_MATCH)).
Proof.
  intros Hl Hr Hne. unfold mergeBlocks. rewrite (rows_wf n lhs Hl Hne).
  set (b := foldl (merge_column n) lhs rhs). split.
  - intros Hsub. assert (Hall : Forall (fun c => length (col_data c) = (n + m)%nat) b).
    { apply Forall_forall. intros c Hc. destruct (merged_column n m lhs rhs c Hl Hr Hc) as [[_ ?]|(? & ? & _)]; [done|].
      set_solver. }
    assert (Hwf : block_wf (n + m) b) by (split; [apply merge_columns_NoDup, Hl|done]).
    assert (checkNumberOfRows b = Ok ()) as ->.
    { apply checkNumberOfRows_ok. destruct b as [|c b']; [constructor|]. by rewrite (rows_wf _ _ Hwf). }
    exists b. split_and!; [done|apply Hwf..|]. intros name. unfold b.
    rewrite merge_columns_data by (apply Hl || apply Hr).
    destruct (column_named rhs name) eqn:E; [done|]. apply column_named_none in E.
    unfold data_named. assert (column_named lhs name = None) as -> by (apply column_named_none; set_solver). done.
  - intros Hsub Hrne Hm. destruct (checkNumberOfRows_cases b) as [Hok| ->]; [exfalso|done].
    apply checkNumberOfRows_ok in Hok. rewrite Forall_forall in Hok.
    destruct rhs as [|c0 rhs']; [done|]. set (rhs := c0 :: rhs') in *.
    assert (exists x, x ∈ map col_name lhs /\ x ∉ map col_name rhs) as (x & Hx1 & Hx2).
    { destruct (decide (Exists (fun x => x ∉ map col_name rhs) (map col_name lhs))) as [He|He];
        [by apply Exists_exists in He|]. exfalso. apply Hsub. intros x Hx.
      destruct (decide (x ∈ map col_name rhs)) as [|Hn]; [done|]. exfalso. apply He, Exists_exists. eauto. }
    destruct (merged_present n lhs rhs x (proj1 Hl) (proj1 Hr)) as (c1 & Hc1 & Hn1); [by left|].
    destruct (merged_present n lhs rhs (col_name c0) (proj1 Hl) (proj1 Hr)) as (c2 & Hc2 & Hn2); [right; set_solver|].
    pose proof (Hok c1 Hc1). pose proof (Hok c2 Hc2).
    destruct (merged_column n m lhs rhs c1 Hl Hr Hc1) as [[? ?]|(_ & _ & ?)]; [by subst x|].
    destruct (merged_column n m lhs rhs c2 Hl Hr Hc2) as [[_ ?]|(Hno & _ & _)]; [lia|].
    rewrite Hn2 in Hno. set_solver.
Qed.
End merge_blocks.

Lemma mergeBlocks_spec_witness :
  exists b, mergeBlocks [mkColumn (lit "a") 0 [1; 2]%nat]%nat
                        [mkColumn (lit "b") 7 [9]; mkColumn (lit "a") 0 [3]]%nat = Ok b
  /\ data_named b (lit "a") = Some [1; 2; 3]%nat /\ data_named b (lit "b") = Some [7; 7; 9]%nat.
Proof.
  destruct (mergeBlocks_spec [mkColumn (lit "a") 0 [1; 2]%nat]%nat
    [mkColumn (lit "b") 7 [9]; mkColumn (lit "a") 0 [3]]%nat 2 1) as [H _].
  - apply (conj (A := NoDup _)); [|by repeat constructor]. apply (bool_decide_unpack _). vm_compute. exact I.
  - apply (conj (A := NoDup _)); [|by repeat constructor]. apply (bool_decide_unpack _). vm_compute. exact I.
  - done.
  - destruct H as (b & Hb & _); [apply (bool_decide_unpack _); vm_compute; exact I|].
    exists b. split; [exact Hb|]. vm_compute in Hb. injection Hb as <-. by vm_compute.
Defined.
