(* ===== verification/Recovery.v ===== *)
(** * Recovery: reading a table's missing data again after a restart

    Models [populateCommittedSNFromParts] of src/src/Storages/StorageMergeTree.cpp,
    the recovery phase of
    src/src/Storages/DistributedMergeTree/DistributedMergeTreeCallbackData.{h,cpp}
    and the writing of the parts of a block in
    src/src/Storages/MergeTree/MergeTreeBlockOutputStream.cpp. *)

From S2P Require Import Prelude SequenceInfo MissingRanges WalRecord.

Local Open Scope Z_scope.

(** ** [StorageMergeTree::populateCommittedSNFromParts] *)

Record recovered : Type := mkRecovered {
  rec_committed_sn : Z;
  max_committed_sn : Z;
  missing_sequence_ranges : list SequenceRange;
  last_idempotent_keys : list str;
}.

(** The order of [std::map<Int64, ...>]: an entry that is there is kept. *)
Definition key_sn_lt (a b : IdempotentKey) : bool := a.1 <? b.1.

Definition populateCommittedSNFromParts {Sort : StdSort} (part_infos : list (option SequenceInfo))
    (committed : Z) (max_keys : nat) : option recovered :=
  let infos := omap id part_infos in
  let ranges := filter (fun r => committed < end_sn r) (flat_map sequence_ranges infos) in
  let keys := foldl (fun m si => set_insert_all key_sn_lt (info_keys si) m) [] infos in
  '(missing, next_expecting_sn, max_expecting_sn) ← missingSequenceRanges ranges committed;
  Some (mkRecovered
          (if negb (next_expecting_sn =? committed + 1) then next_expecting_sn - 1 else committed)
          (max_expecting_sn - 1) missing (snd <$> last_n max_keys keys)).

(** ** Writing the parts of a block: MergeTreeBlockOutputStream *)

(** [None] is an assertion that fails. *)
Definition ignorePartBlock (debug : bool) (missing_seq_ranges : list SequenceRange) (nparts index : Z) : option bool :=
  match last missing_seq_ranges with
  | None => Some false
  | Some last_seq_range =>
      _ ← assert_ debug (nparts =? parts last_seq_range);
      Some (if negb (nparts =? parts last_seq_range) then false
            else negb (existsb (fun r => part_index r =? index) missing_seq_ranges))
  end.

(** The loop over the part blocks; [created] tells whether [writeTempPart]
    creates a part for the block (after merging it may be empty), and the
    result are the parts added, each with its sequence info.  Stamping the info
    needs a range ([None]). *)
Fixpoint write_parts {PartBlock} (debug : bool) (created : PartBlock -> bool) (seq_info : option SequenceInfo)
    (missing_seq_ranges : list SequenceRange) (nparts : Z) (index : Z) (part_blocks : list PartBlock)
    : option (list (PartBlock * option SequenceInfo)) :=
  match part_blocks with
  | [] => Some []
  | current_block :: rest =>
      ignored ← ignorePartBlock debug missing_seq_ranges nparts index;
      if (ignored : bool)
      then write_parts debug created seq_info missing_seq_ranges nparts (index + 1) rest
      else
        part_seq ← match seq_info with
                   | None => Some None
                   | Some si => Some <$> shallowClone si index nparts
                   end;
        written ← write_parts debug created seq_info missing_seq_ranges nparts (index + 1) rest;
        Some (if created current_block then (current_block, part_seq) :: written else written)
  end.

Definition write_block {Block PartBlock} (debug : bool) (splitBlockIntoParts : Block -> list PartBlock)
    (created : PartBlock -> bool) (seq_info : option SequenceInfo)
    (missing_seq_ranges : list SequenceRange) (b : Block)
    : option (list (PartBlock * option SequenceInfo)) :=
  let part_blocks := splitBlockIntoParts b in
  write_parts debug created seq_info missing_seq_ranges (Z.of_nat (length part_blocks)) 0 part_blocks.

(** ** The recovery phase: DistributedMergeTreeCallbackData *)

Section callback.
Context {Block : Type}.
Abbreviation record := (WalRecord Block).
Abbreviation bucket := (list record * list SequenceRange)%type.

(** [std::find] and [push_back] of the ranges from [j] on that start like [r]. *)
Definition push_new (start : Z) (acc : list SequenceRange) (r : SequenceRange) : list SequenceRange :=
  if (start_sn r =? start) && negb (existsb (range_eqb r) acc) then acc ++ [r] else acc.

Definition in_range (s : Z) (r : SequenceRange) : bool := (start_sn r <=? s) && (s <=? end_sn r).

(** One record: the last bucket takes the records above the largest committed
    number; a record in a missing range goes to the bucket of the first such
    range; any other was committed.  [sequence_ranges.back()] needs a range. *)
Definition categorize_record (ranges : list SequenceRange) (max_committed : Z)
    (buckets : list bucket) (r : record) : option (list bucket) :=
  if sn r >? max_committed then
    Some (alter (fun b => (b.1 ++ [r], b.2)) (length buckets - 1)%nat buckets)
  else
    last_range ← last ranges;
    if sn r >? end_sn last_range then Some buckets
    else
      match list_find (fun m => in_range (sn r) m = true) ranges with
      | None => Some buckets
      | Some (i, m) =>
          Some (alter (fun b => (b.1 ++ [r], foldl (push_new (start_sn m)) b.2 (drop i ranges))) i buckets)
      end.

Fixpoint categorize_loop (ranges : list SequenceRange) (max_committed : Z)
    (buckets : list bucket) (records : list record) : option (list bucket) :=
  match records with
  | [] => Some buckets
  | r :: records =>
      buckets ← categorize_record ranges max_committed buckets r;
      categorize_loop ranges max_committed buckets records
  end.

Definition categorizeRecordsAccordingToSequenceRanges (records : list record)
    (ranges : list SequenceRange) (max_committed : Z) : option (list bucket) :=
  buckets ← categorize_loop ranges max_committed (replicate (length ranges + 1) ([], [])) records;
  Some (filter (fun b => b.1 <> []) buckets).

(** The callback's state and [commit]: the result is the calls of
    [storage->commit], in order.  [recovery_records.back()] needs a record. *)
Record callback_data : Type := mkCallback {
  cb_missing : list SequenceRange;
  recovery_records : list record;
}.

Definition finishRecovery (st : callback_data) : bool :=
  bool_decide (cb_missing st = []) && bool_decide (recovery_records st = []).

Definition callback_commit (max_committed : Z) (st : callback_data) (records : list record)
    : option (list bucket * callback_data) :=
  if finishRecovery st then Some ([(records, [])], st)
  else
    let all := recovery_records st ++ records in
    last_rec ← last all;
    if sn last_rec <? max_committed then Some ([], mkCallback (cb_missing st) all)
    else
      buckets ← categorizeRecordsAccordingToSequenceRanges all (cb_missing st) max_committed;
      Some (buckets, mkCallback [] []).
End callback.

(** ** Which parts of a block are written *)

Lemma ignorePartBlock_same debug missing n i m :
  last missing = Some m -> parts m = n ->
  ignorePartBlock debug missing n i = Some (negb (existsb (fun r => part_index r =? i) missing)).
Proof. intros Hl <-. unfold ignorePartBlock. rewrite Hl, Z.eqb_refl, assert_holds by done. done. Qed.

Lemma ignorePartBlock_other missing n i m :
  last missing = Some m -> parts m <> n ->
  ignorePartBlock false missing n i = Some false /\ ignorePartBlock true missing n i = None.
Proof.
  intros Hl Hn. unfold ignorePartBlock. rewrite Hl. replace (n =? parts m) with false by (symmetry; apply Z.eqb_neq; lia). done.
Qed.

Lemma ignorePartBlock_total missing n i : exists b, ignorePartBlock false missing n i = Some b.
Proof. unfold ignorePartBlock. destruct (last missing); by eexists. Qed.

(** ** The buckets of the recovery phase *)

Section categorize.
Context {Block : Type}.
Abbreviation record := (WalRecord Block).
Context (ranges : list SequenceRange) (max_committed : Z) (Hne : ranges <> []).

(** The bucket a record goes to. *)
Definition bucket_of (r : record) : option nat :=
  if sn r >? max_committed then Some (length ranges)
  else
    match last ranges with
    | None => None
    | Some last_range =>
        if sn r >? end_sn last_range then None
        else fst <$> list_find (fun m => in_range (sn r) m = true) ranges
    end.

Definition bucket_ranges (i : nat) : list SequenceRange :=
  match ranges !! i with
  | Some m => filter (fun r => start_sn r = start_sn m) (drop i ranges)
  | None => []
  end.

Definition bucket_expected (records : list record) (i : nat) : list record * list SequenceRange :=
  let recs := filter (fun r => bucket_of r = Some i) records in
  (recs, match recs with [] => [] | _ => bucket_ranges i end).

Lemma range_eqb_eq a b : range_eqb a b = true <-> a = b.
Proof.
  unfold range_eqb. rewrite !andb_true_iff, !Z.eqb_eq. destruct a, b; simpl. naive_solver.
Qed.

Lemma push_new_seen s r acc : r ∈ acc -> push_new s acc r = acc.
Proof.
  intros Hr. unfold push_new. replace (existsb (range_eqb r) acc) with true; [by rewrite andb_false_r|].
  symmetry. apply existsb_exists. exists r. rewrite <- list_elem_of_In. by rewrite range_eqb_eq.
Qed.

Lemma push_new_fresh s r acc : r ∉ acc -> push_new s acc r = acc ++ filter (fun r => start_sn r = s) [r].
Proof.
  intros Hr. unfold push_new. rewrite filter_cons, filter_nil.
  replace (existsb (range_eqb r) acc) with false.
  - rewrite andb_true_r. case_decide as E;
      [by apply Z.eqb_eq in E as ->|by apply Z.eqb_neq in E as ->; rewrite app_nil_r].
  - symmetry. apply not_true_iff_false. rewrite existsb_exists. setoid_rewrite <- list_elem_of_In.
    setoid_rewrite range_eqb_eq. naive_solver.
Qed.

(** Pushing the ranges with a start once collects them, a second time changes nothing. *)
Lemma push_new_fresh_all s l acc :
  NoDup l -> (forall r, r ∈ l -> r ∉ acc) ->
  foldl (push_new s) acc l = acc ++ filter (fun r => start_sn r = s) l.
Proof.
  revert acc. induction l as [|r l IH]; intros acc Hnd Hdis; simpl; [by rewrite app_nil_r|].
  apply NoDup_cons in Hnd as [Hr Hnd]. rewrite push_new_fresh by set_solver.
  rewrite IH; [by rewrite <- app_assoc, <- filter_app|done|].
  intros r' Hr'. rewrite not_elem_of_app. split; [set_solver|].
  intros [_ ->%list_elem_of_singleton]%list_elem_of_filter. done.
Qed.

Lemma push_new_seen_all s l acc :
  (forall r, r ∈ l -> start_sn r = s -> r ∈ acc) -> foldl (push_new s) acc l = acc.
Proof.
  intros H. induction l as [|r l IH]; simpl; [done|].
  assert (push_new s acc r = acc) as ->; [|apply IH; set_solver].
  destruct (decide (start_sn r = s)); [apply push_new_seen; set_solver|].
  unfold push_new. by replace (start_sn r =? s) with false by (symmetry; by apply Z.eqb_neq).
Qed.

Lemma alter_map_seq {A} (f : A -> A) (g : nat -> A) n i :
  alter f i (g <$> seq 0 n) = (fun j => if decide (j = i) then f (g j) else g j) <$> seq 0 n.
Proof.
  apply list_eq. intros j. rewrite list_lookup_fmap.
  destruct (decide (j = i)) as [->|Hj].
  - rewrite list_lookup_alter_eq, list_lookup_fmap.
    destruct (seq 0 n !! i) as [k|] eqn:E; simpl; [|done].
    apply lookup_seq in E as [-> _]. by rewrite decide_True.
  - rewrite list_lookup_alter_ne, list_lookup_fmap by done.
    destruct (seq 0 n !! j) as [k|] eqn:E; simpl; [|done].
    apply lookup_seq in E as [-> _]. by rewrite decide_False.
Qed.

Lemma bucket_of_range r i :
  bucket_of r = Some i -> i = length ranges \/ exists m, ranges !! i = Some m.
Proof.
  unfold bucket_of. intros H. repeat case_match; simplify_eq; [by left|].
  apply fmap_Some in H as ([j m] & Hf & ->). apply list_find_Some in Hf as (Hm & _).
  right. by exists m.
Qed.

Lemma bucket_expected_snoc records r j :
  bucket_expected (records ++ [r]) j
  = if decide (bucket_of r = Some j)
    then ((bucket_expected records j).1 ++ [r], bucket_ranges j)
    else bucket_expected records j.
Proof.
  unfold bucket_expected. rewrite filter_app, filter_cons, filter_nil. simpl.
  case_decide; [|by rewrite app_nil_r].
  by destruct (filter _ records).
Qed.

(** One turn of the loop moves a record to its bucket. *)
Lemma categorize_record_spec records r :
  NoDup ranges ->
  categorize_record ranges max_committed (bucket_expected records <$> seq 0 (length ranges + 1)) r
  = Some (bucket_expected (records ++ [r]) <$> seq 0 (length ranges + 1)).
Proof.
  intros Hnd. unfold categorize_record. rewrite length_fmap, length_seq.
  assert (Hsnoc : forall i, bucket_of r = Some i ->
    bucket_expected (records ++ [r]) <$> seq 0 (length ranges + 1)
    = alter (fun b => (b.1 ++ [r], bucket_ranges i)) i
        (bucket_expected records <$> seq 0 (length ranges + 1))).
  { intros i Hi. rewrite alter_map_seq. apply list_fmap_ext. intros _ j _.
    rewrite bucket_expected_snoc, Hi. repeat case_decide; congruence. }
  assert (Hskip : bucket_of r = None ->
    bucket_expected (records ++ [r]) <$> seq 0 (length ranges + 1)
    = bucket_expected records <$> seq 0 (length ranges + 1)).
  { intros Hi. apply list_fmap_ext. intros _ j _. by rewrite bucket_expected_snoc, Hi. }
  pose proof Hskip as Hskip'. pose proof Hsnoc as Hsnoc'. unfold bucket_of in Hskip, Hsnoc.
  destruct (sn r >? max_committed) eqn:E1.
  { replace (length ranges + 1 - 1)%nat with (length ranges) by lia.
    rewrite (Hsnoc (length ranges) eq_refl), !alter_map_seq. f_equal.
    apply list_fmap_ext. intros _ j _. case_decide as Hj; [|done]. subst j. f_equal.
    unfold bucket_expected, bucket_ranges. rewrite lookup_ge_None_2 by lia. by case_match. }
  destruct (last ranges) as [lr|] eqn:El; [|by apply last_None in El]. cbn [mbind option_bind].
  destruct (sn r >? end_sn lr) eqn:E2; [by rewrite Hskip|].
  destruct (list_find _ ranges) as [[i m]|] eqn:Ef; [|by rewrite Hskip].
  rewrite (Hsnoc i eq_refl), !alter_map_seq. f_equal.
  apply list_fmap_ext. intros _ j _. case_decide as Hj; [|done]. subst j. f_equal.
  apply list_find_Some in Ef as (Hm & _ & _). unfold bucket_expected, bucket_ranges. rewrite Hm. simpl.
  destruct (filter _ records) as [|r0 rs]; simpl.
  - rewrite push_new_fresh_all; [done| |set_solver].
    rewrite <- (take_drop i ranges) in Hnd. by apply NoDup_app in Hnd as (_ & _ & ?).
  - apply push_new_seen_all. intros r' Hr' Hs. by apply list_elem_of_filter.
Qed.

Lemma categorize_loop_spec records done_records :
  NoDup ranges ->
  categorize_loop ranges max_committed (bucket_expected done_records <$> seq 0 (length ranges + 1)) records
  = Some (bucket_expected (done_records ++ records) <$> seq 0 (length ranges + 1)).
Proof.
  intros Hnd. revert done_records. induction records as [|r records IH]; intros done_records.
  { simpl. by rewrite app_nil_r. }
  cbn [categorize_loop]. rewrite categorize_record_spec by done. cbn [mbind option_bind].
  by rewrite IH, <- app_assoc.
Qed.

(** The result: the buckets that have records, in order. *)
Lemma categorize_spec records :
  NoDup ranges ->
  categorizeRecordsAccordingToSequenceRanges records ranges max_committed
  = Some (filter (fun b => b.1 <> []) (bucket_expected records <$> seq 0 (length ranges + 1))).
Proof.
  intros Hnd. unfold categorizeRecordsAccordingToSequenceRanges.
  assert (replicate (length ranges + 1) ([], []) = bucket_expected [] <$> seq 0 (length ranges + 1)) as ->.
  { apply list_eq. intros j. rewrite list_lookup_fmap. destruct (seq 0 _ !! j) as [k|] eqn:E; simpl.
    - apply lookup_seq in E as [-> Hj]. rewrite lookup_replicate_2 by lia. done.
    - apply lookup_ge_None in E. rewrite length_seq in E. by apply lookup_ge_None_2; rewrite length_replicate. }
  by rewrite categorize_loop_spec.
Qed.
End categorize.

(** ** Recovery is exactly once *)

(** Handing every element to the list of its index loses and repeats nothing. *)
Lemma concat_buckets {A} (f : A -> option nat) n (l : list A) :
  Forall (fun x => match f x with Some i => (i < n)%nat | None => True end) l ->
  concat ((fun i => filter (fun x => f x = Some i) l) <$> seq 0 n) ≡ₚ filter (fun x => f x <> None) l.
Proof.
  induction 1 as [|x l Hx Hl IH].
  { rewrite filter_nil. replace (concat _) with (@nil A); [done|].
    induction (seq 0 n) as [|i s IHs]; [done|exact IHs]. }
  rewrite filter_cons. destruct (f x) as [i|] eqn:Ef.
  - rewrite decide_True by done. rewrite <- IH.
    assert (Hother : forall s : list nat, i ∉ s ->
      (fun j => filter (fun y => f y = Some j) (x :: l)) <$> s
      = (fun j => filter (fun y => f y = Some j) l) <$> s).
    { intros s Hs. apply list_fmap_ext. intros k j Hj%list_elem_of_lookup_2.
      assert (j <> i) by set_solver. by rewrite filter_cons_False by congruence. }
    destruct (list_elem_of_split (seq 0 n) i) as (s1 & s2 & Hseq); [apply elem_of_seq; lia|].
    pose proof (NoDup_seq 0 n) as Hnd. rewrite Hseq in Hnd |- *.
    apply NoDup_app in Hnd as (_ & Hd & Hnd%NoDup_cons). pose proof (fun H => Hd i H ltac:(set_solver)).
    rewrite !fmap_app, !fmap_cons, !concat_app, !Hother by set_solver. simpl.
    rewrite filter_cons_True by done. simpl. by rewrite <- Permutation_middle.
  - rewrite decide_False by auto. rewrite <- IH. apply reflexive_eq, (f_equal (@concat A)).
    apply list_fmap_ext. intros _ j _. by rewrite filter_cons_False by congruence.
Qed.

Section exactly_once.
Context {Sort : StdSort} {Block : Type}.
Abbreviation record := (WalRecord Block).
Context (ranges : list SequenceRange) (committed : Z) (missing : list SequenceRange) (next max : Z).
Context (Hwf : ranges_wf committed ranges)
        (Hmissing : missingSequenceRanges ranges committed = Some (missing, next, max))
        (Hne : missing <> []).

Lemma missing_NoDup : NoDup missing.
Proof.
  destruct (missingSequenceRanges_shape _ _ _ _ _ Hwf Hmissing) as [Hs Hi].
  clear Hmissing Hne. induction Hs as [|m l Hs IH Hm]; constructor; apply Forall_cons in Hi as [Hm' Hi].
  - intros Hin. rewrite Forall_forall in Hm. specialize (Hm m Hin). unfold missing_before in Hm.
    simpl in Hm'. lia.
  - by apply IH.
Qed.

Lemma missing_nonempty m : m ∈ missing -> committed < start_sn m <= end_sn m.
Proof.
  destruct (missingSequenceRanges_shape _ _ _ _ _ Hwf Hmissing) as [_ Hi].
  rewrite Forall_forall in Hi. apply Hi.
Qed.

(** Missing ranges that meet are one gap, or parts of one block. *)
Lemma missing_meet m1 m2 s :
  m1 ∈ missing -> m2 ∈ missing -> covers m1 s -> covers m2 s ->
  m1 = m2 \/ (start_sn m1 = start_sn m2 /\ end_sn m1 = end_sn m2 /\ parts m1 = parts m2
              /\ ~ is_gap m1 /\ ~ is_gap m2).
Proof.
  intros H1 H2 Hc1 Hc2. unfold covers in *.
  destruct (missingSequenceRanges_shape _ _ _ _ _ Hwf Hmissing) as [Hs _].
  destruct (StronglySorted_trichotomy _ _ _ _ Hs H1 H2) as [?|[H|H]]; [by left|right..];
    unfold missing_before in H; destruct H as [?|(? & ? & ? & ? & ? & ?)]; split_and!; (done || lia).
Qed.

Lemma missing_same_start m1 m2 s :
  m1 ∈ missing -> m2 ∈ missing -> covers m1 s -> start_sn m2 = start_sn m1 -> covers m2 s.
Proof.
  intros H1 H2 Hc Hs. pose proof (missing_nonempty m1 H1). pose proof (missing_nonempty m2 H2).
  destruct (missing_meet m1 m2 (start_sn m1) H1 H2) as [<-|(_ & He & _)]; unfold covers in *; [lia..|done|lia].
Qed.

Lemma last_missing_end lr m : last missing = Some lr -> m ∈ missing -> end_sn m <= end_sn lr.
Proof.
  intros Hl Hm. apply last_Some in Hl as [l' Hl].
  destruct (missingSequenceRanges_shape _ _ _ _ _ Hwf Hmissing) as [Hs _].
  pose proof (missing_nonempty lr ltac:(rewrite Hl; set_solver)).
  rewrite Hl in Hs, Hm. apply elem_of_app in Hm as [Hm|Hm]; [|set_solver by lia].
  assert (missing_before m lr) as [?|(_ & ? & _)]; [|lia..].
  clear - Hs Hm. induction l' as [|x l' IH]; [set_solver|]. simpl in Hs.
  apply StronglySorted_inv in Hs as [Hs Hx]. rewrite Forall_forall in Hx.
  apply elem_of_cons in Hm as [->|Hm]; [apply Hx; set_solver|by apply IH].
Qed.

Lemma in_range_covers s m : in_range s m = true <-> covers m s.
Proof. unfold in_range, covers. rewrite andb_true_iff, !Z.leb_le. done. Qed.

(** The shortcut on the last range changes nothing. *)
Lemma bucket_of_below (r : record) :
  sn r < max ->
  bucket_of missing (max - 1) r = fst <$> list_find (fun m => in_range (sn r) m = true) missing.
Proof.
  intros Hr. unfold bucket_of. rewrite !Z.gtb_ltb.
  replace (max - 1 <? sn r) with false by (symmetry; apply Z.ltb_ge; lia).
  destruct (last missing) as [lr|] eqn:El; [|by apply last_None in El].
  rewrite Z.gtb_ltb. destruct (end_sn lr <? sn r) eqn:E; [|done]. boolify.
  replace (list_find _ missing) with (@None (nat * SequenceRange)); [done|]. symmetry.
  apply list_find_None, Forall_forall. intros m Hm Hc%in_range_covers.
  pose proof (last_missing_end lr m El Hm). unfold covers in Hc. lia.
Qed.

Lemma bucket_of_above (r : record) : max <= sn r -> bucket_of missing (max - 1) r = Some (length missing).
Proof.
  intros Hr. unfold bucket_of. rewrite Z.gtb_ltb.
  by replace (max - 1 <? sn r) with true by (symmetry; apply Z.ltb_lt; lia).
Qed.

(** A missing part belongs to the block of any range on disk it meets. *)
Lemma missing_part_of m r s :
  m ∈ missing -> r ∈ ranges -> covers m s -> covers r s ->
  ~ is_gap m /\ m = with_part r (part_index m) /\ m ∉ ranges.
Proof.
  intros Hm Hr Hcm Hcr.
  assert (Hg : ~ is_gap m).
  { intros Hg. assert (H : exists g, g ∈ missing /\ is_gap g /\ covers g s) by eauto.
    apply (missing_gaps _ _ _ _ _ _ Hwf Hmissing) in H as [_ H]. apply H. eauto. }
  apply (missing_parts _ _ _ _ _ _ Hwf Hmissing Hg) in Hm as (_ & Hn & i & Hi).
  split_and!; [done| |done].
  pose proof (ranges_wf_compat _ _ _ _ Hwf Hi Hr) as Hc. unfold compatible, covers in *.
  destruct m, r. unfold with_part in *. simpl in *. f_equal; lia.
Qed.

(** No missing range holds [s] exactly when its block is wholly on disk. *)
Lemma missing_none_iff s :
  committed < s -> s < max ->
  (forall m, m ∈ missing -> ~ covers m s) <-> fully_committed ranges s.
Proof.
  intros Hs Hmax. split.
  - intros Hnone.
    destruct (decide (Exists (fun r => in_range s r = true) ranges)) as [He|He].
    + apply Exists_exists in He as (r & Hr & Hc). apply in_range_covers in Hc.
      exists r. split_and!; [done..|]. intros i Hi.
      destruct (decide (with_part r i ∈ ranges)) as [|Hn]; [done|]. exfalso.
      apply (Hnone (with_part r i)); [|done].
      apply (missing_parts _ _ _ _ _ _ Hwf Hmissing); [unfold is_gap; simpl; lia|].
      split_and!; [simpl; lia..|done|]. exists (part_index r).
      change (with_part (with_part r i) (part_index r)) with (with_part r (part_index r)).
      by rewrite with_part_same.
    + exfalso. assert (Hg : committed < s < max /\ ~ (exists r, r ∈ ranges /\ covers r s)).
      { split; [lia|]. intros (r & Hr & Hc). apply He, Exists_exists. exists r.
        by rewrite in_range_covers. }
      apply (missing_gaps _ _ _ _ _ _ Hwf Hmissing) in Hg as (g & Hg & _ & Hc). by apply (Hnone g).
  - intros (r & Hr & Hc & Hall) m Hm Hcm.
    destruct (missing_part_of m r s Hm Hr Hcm Hc) as (Hg & Heq & Hn).
    apply Hn. rewrite Heq. apply Hall.
    apply (missing_parts _ _ _ _ _ _ Hwf Hmissing Hg) in Hm as (Hi & _). rewrite Heq in Hi. done.
Qed.

Lemma bucket_of_none_iff (r : record) :
  committed < sn r -> (bucket_of missing (max - 1) r = None <-> fully_committed ranges (sn r)).
Proof.
  intros Hr. destruct (decide (sn r < max)) as [Hm|Hm].
  - rewrite bucket_of_below, fmap_None, list_find_None, Forall_forall by done.
    rewrite <- missing_none_iff by done. by setoid_rewrite in_range_covers.
  - rewrite bucket_of_above by lia. split; [done|]. intros (m & Hin & Hc & _).
    apply (missing_max _ _ _ _ _ Hwf Hmissing) in Hin. unfold covers in Hc. lia.
Qed.

(** A record that is not on disk at all is written with all its parts; an
    assertion, where there are any, stops it when its range is a missing one. *)
Lemma bucket_ranges_uncovered (r : record) i n k :
  committed < sn r -> bucket_of missing (max - 1) r = Some i ->
  ~ (exists r', r' ∈ ranges /\ covers r' (sn r)) -> 0 <= n ->
  ignorePartBlock false (bucket_ranges missing i) n k = Some false
  /\ ignorePartBlock true (bucket_ranges missing i) n k = if decide (bucket_ranges missing i = []) then Some false else None.
Proof.
  intros Hr Hb Hn Hpos. unfold bucket_ranges.
  destruct (missing !! i) as [m|] eqn:Hi; [|done].
  destruct (last (filter (fun r => start_sn r = start_sn m) (drop i missing))) as [lr|] eqn:El; [|by apply last_None in El as ->].
  rewrite decide_False by (intros E; by rewrite E in El). apply (ignorePartBlock_other _ n k _ El).
  apply last_Some_elem_of, list_elem_of_filter in El as [Hs Hin].
  assert (Hlr : lr ∈ missing) by (rewrite <- (take_drop i missing); set_solver).
  assert (Hm : m ∈ missing) by (by eapply list_elem_of_lookup_2).
  destruct (decide (sn r < max)) as [Hmax|Hmax].
  2: { rewrite bucket_of_above in Hb by lia. simplify_eq. apply lookup_lt_Some in Hi. lia. }
  rewrite bucket_of_below in Hb by done. apply fmap_Some in Hb as ([j m'] & Hf & [= ->]).
  apply list_find_Some in Hf as (Hj & Hc & _). simplify_eq. apply in_range_covers in Hc.
  assert (Hg : exists g, g ∈ missing /\ is_gap g /\ covers g (sn r)).
  { apply (missing_gaps _ _ _ _ _ _ Hwf Hmissing). done. }
  destruct Hg as (g & Hg1 & Hg2 & Hg3).
  destruct (missing_meet lr g (sn r) Hlr Hg1) as [->|(_ & _ & _ & _ & Hno)]; [|done| |done].
  - by apply (missing_same_start m' lr (sn r)).
  - rewrite (missing_gap_shape _ _ _ _ _ _ Hwf Hmissing Hg1 Hg2). simpl. lia.
Qed.

(** The records of a partly written block share a bucket, and no other record
    is in it. *)
Lemma bucket_of_block (r : record) (r0 : SequenceRange) i :
  committed < sn r -> r0 ∈ ranges -> covers r0 (sn r) -> bucket_of missing (max - 1) r = Some i ->
  exists m, missing !! i = Some m /\ covers m (sn r)
  /\ (forall j m', missing !! j = Some m' -> covers m' (sn r) -> (i <= j)%nat)
  /\ forall r' : record, bucket_of missing (max - 1) r' = Some i <-> covers r0 (sn r').
Proof.
  intros Hr Hr0 Hc Hb. destruct (missing_max _ _ _ _ _ Hwf Hmissing) as [_ Hmax].
  specialize (Hmax r0 Hr0).
  rewrite bucket_of_below in Hb by (unfold covers in Hc; lia).
  apply fmap_Some in Hb as ([j m] & Hf & [= ->]). apply list_find_Some in Hf as (Hj & Hcm & Hfirst).
  apply in_range_covers in Hcm. assert (Hm : m ∈ missing) by (by eapply list_elem_of_lookup_2).
  destruct (missing_part_of m r0 (sn r) Hm Hr0 Hcm Hc) as (_ & Heq & _).
  assert (Hcov : forall s, covers m s <-> covers r0 s) by (by rewrite Heq).
  exists m. split_and!; [done..| |].
  - intros k m' Hk Hcm'. destruct (decide (j <= k)%nat) as [|Hlt]; [done|exfalso].
    apply (Hfirst k m'); [done|lia|by apply in_range_covers].
  - intros r'. split.
    + intros Hb'. destruct (decide (sn r' < max)) as [Hlt|Hge].
      * rewrite bucket_of_below in Hb' by done. apply fmap_Some in Hb' as ([k m'] & Hf & [= ->]).
        apply list_find_Some in Hf as (Hj' & Hc' & _). simplify_eq. by apply Hcov, in_range_covers.
      * rewrite bucket_of_above in Hb' by lia. simplify_eq. by rewrite lookup_ge_None_2 in Hj by lia.
    + intros Hc'. rewrite bucket_of_below by (unfold covers in Hc'; lia). apply fmap_Some.
      exists (j, m). split; [|done]. apply list_find_Some.
      split_and!; [done|by apply in_range_covers, Hcov|].
      intros k m' Hk Hlt Hc''. apply (Hfirst k m' Hk Hlt), in_range_covers.
      apply (missing_same_start m m' (sn r)); [done|by eapply list_elem_of_lookup_2|done|].
      apply in_range_covers in Hc''.
      destruct (missing_meet m m' (sn r') Hm ltac:(by eapply list_elem_of_lookup_2)) as [->|(-> & _)];
        [by apply Hcov|done..].
Qed.

(** Of a partly written block exactly the missing parts are written, and no assertion fails. *)
Lemma bucket_ranges_block debug (r : record) (r0 : SequenceRange) i k :
  committed < sn r -> r0 ∈ ranges -> covers r0 (sn r) -> bucket_of missing (max - 1) r = Some i ->
  0 <= k < parts r0 ->
  ignorePartBlock debug (bucket_ranges missing i) (parts r0) k = Some (bool_decide (with_part r0 k ∈ ranges)).
Proof.
  intros Hr Hr0 Hc Hb Hk.
  destruct (bucket_of_block r r0 i Hr Hr0 Hc Hb) as (m & Hi & Hcm & Hfirst & _).
  assert (Hm : m ∈ missing) by (by eapply list_elem_of_lookup_2).
  destruct (missing_part_of m r0 (sn r) Hm Hr0 Hcm Hc) as (_ & Heq & _).
  assert (Hin : forall m', m' ∈ bucket_ranges missing i <-> m' ∈ missing /\ start_sn m' = start_sn r0).
  { intros m'. unfold bucket_ranges. rewrite Hi, list_elem_of_filter.
    assert (start_sn m = start_sn r0) as -> by (by rewrite Heq). split; intros [H1 H2]; split; try done.
    - rewrite <- (take_drop i missing). set_solver.
    - apply list_elem_of_lookup in H1 as [j Hj].
      assert (i <= j)%nat.
      { apply (Hfirst j m' Hj). apply (missing_same_start m m' (sn r)); [done| |done|by rewrite Heq].
        by eapply list_elem_of_lookup_2. }
      apply (list_elem_of_lookup_2 _ (j - i)). rewrite lookup_drop. by replace (i + (j - i))%nat with j by lia. }
  assert (Hshape : forall m', m' ∈ bucket_ranges missing i -> m' = with_part r0 (part_index m')).
  { intros m' [Hm' Hs]%Hin. apply (missing_part_of m' r0 (sn r)); [done..| |done].
    apply (missing_same_start m m' (sn r)); [done..|]. by rewrite Heq. }
  destruct (last (bucket_ranges missing i)) as [lr|] eqn:El.
  2: { apply last_None in El. assert (m ∈ bucket_ranges missing i) as Hx by (apply Hin; by rewrite Heq in *).
       rewrite El in Hx. set_solver. }
  rewrite (ignorePartBlock_same debug _ _ k _ El) by (apply last_Some_elem_of, Hshape in El; by rewrite El). f_equal.
  assert (Hpart : with_part r0 k ∈ missing <-> with_part r0 k ∉ ranges).
  { rewrite (missing_parts _ _ _ _ _ _ Hwf Hmissing) by (unfold is_gap; simpl; lia). simpl.
    split; [tauto|]. intros Hn. split_and!; [lia..|done|]. exists (part_index r0).
    change (with_part (with_part r0 k) (part_index r0)) with (with_part r0 (part_index r0)).
    by rewrite with_part_same. }
  assert (Hex : existsb (fun r => part_index r =? k) (bucket_ranges missing i) = true <-> with_part r0 k ∉ ranges).
  { rewrite <- Hpart, existsb_exists. setoid_rewrite <- list_elem_of_In. setoid_rewrite Z.eqb_eq. split.
    - intros (m' & Hm' & <-). rewrite <- (Hshape m' Hm'). by apply Hin.
    - intros Hx. exists (with_part r0 k). split; [by apply Hin|done]. }
  case_bool_decide as Hx; destruct (existsb _ _); [by apply Hex in Hx|done|done|]. by assert (false = true) by (by apply Hex).
Qed.

Lemma bucket_of_bound (r : record) :
  match bucket_of missing (max - 1) r with Some i => (i < length missing + 1)%nat | None => True end.
Proof.
  destruct (bucket_of missing (max - 1) r) as [i|] eqn:E; [|done].
  apply bucket_of_range in E as [->|[m Hm%lookup_lt_Some]]; [lia..|done].
Qed.

(** The records in the buckets, counted with multiplicity. *)
Lemma buckets_records (records : list record) :
  concat (fst <$> filter (fun b => b.1 <> []) (bucket_expected missing (max - 1) records <$> seq 0 (length missing + 1)))
  ≡ₚ filter (fun r => bucket_of missing (max - 1) r <> None) records.
Proof.
  rewrite <- (concat_buckets (bucket_of missing (max - 1)) (length missing + 1)).
  2: { apply Forall_forall. intros r _. apply bucket_of_bound. }
  apply reflexive_eq. induction (seq 0 (length missing + 1)) as [|i s IH]; [done|].
  rewrite fmap_cons, filter_cons, fmap_cons. cbn [concat].
  case_decide as H; rewrite <- IH; [done|]. unfold bucket_expected in H. simpl in H.
  by rewrite H.
Qed.

Lemma bucket_elem (records : list record) b :
  b ∈ filter (fun b => b.1 <> []) (bucket_expected missing (max - 1) records <$> seq 0 (length missing + 1)) ->
  exists i, b = (filter (fun r => bucket_of missing (max - 1) r = Some i) records, bucket_ranges missing i).
Proof.
  intros [Hb (i & -> & _)%list_elem_of_fmap]%list_elem_of_filter. exists i.
  unfold bucket_expected in *. simpl in *. by destruct (filter _ records).
Qed.

End exactly_once.

Definition unit_record (s : Z) : WalRecord unit := mkRecord ADD_DATA_BLOCK ∅ tt [] 0 s.


(** ** The parts written carry the ranges recovery reads *)

Definition stamp (si : SequenceInfo) (r : SequenceRange) (rs : list SequenceRange) (index n : Z) : SequenceInfo :=
  mkInfo (mkRange (start_sn r) (end_sn r) index n :: rs) (idempotent_keys si).

Lemma write_parts_spec {PartBlock} (created : PartBlock -> bool) si r rs missing n index (bs : list PartBlock) :
  sequence_ranges si = r :: rs ->
  write_parts false created (Some si) missing n index bs
  = Some (omap (fun kb : nat * PartBlock =>
                  let k := index + Z.of_nat kb.1 in
                  if negb (default false (ignorePartBlock false missing n k)) && created kb.2
                  then Some (kb.2, Some (stamp si r rs k n)) else None)
               (zip (seq 0 (length bs)) bs)).
Proof.
  intros Hsi. revert index. induction bs as [|b bs IH]; intros index; [done|].
  cbn [write_parts length seq]. rewrite IH. unfold shallowClone. rewrite Hsi.
  assert (Hshift : forall (g : Z -> PartBlock -> option (PartBlock * option SequenceInfo)),
    omap (fun kb : nat * PartBlock => g (index + 1 + Z.of_nat kb.1) kb.2) (zip (seq 0 (length bs)) bs)
    = omap (fun kb : nat * PartBlock => g (index + Z.of_nat kb.1) kb.2) (zip (seq 1 (length bs)) bs)).
  { intros g. clear. generalize 0%nat as j. induction bs as [|b bs IH]; intros j; [done|].
    cbn [length seq zip zip_with omap list_omap]. simpl.
    replace (index + 1 + Z.of_nat j) with (index + Z.of_nat (S j)) by lia.
    by rewrite (IH (S j)). }
  specialize (Hshift (fun k b => if negb (default false (ignorePartBlock false missing n k)) && created b
    then Some (b, Some (stamp si r rs k n)) else None)). cbn beta in Hshift.
  cbn [zip zip_with]. simpl. rewrite Z.add_0_r.
  destruct (ignorePartBlock_total missing n index) as [[] E]; rewrite E; simpl; [by rewrite Hshift|].
  destruct (created b); simpl; by rewrite Hshift.
Qed.

(** Writing a block adds the parts that are not ignored and not empty, each
    stamped with the block's sequence numbers, its index and the number of
    parts: the range recovery will find in its `sn.txt`. *)
Lemma write_block_parts {Block PartBlock} (splitBlockIntoParts : Block -> list PartBlock)
    (created : PartBlock -> bool) (s e : Z) keys missing (b : Block) :
  exists written,
  write_block false splitBlockIntoParts created (Some (block_info s e keys)) missing b = Some written
  /\ forall pb info, (pb, info) ∈ written <->
       exists k : nat, splitBlockIntoParts b !! k = Some pb /\ created pb = true
       /\ ignorePartBlock false missing (Z.of_nat (length (splitBlockIntoParts b))) (Z.of_nat k) = Some false
       /\ info = Some (mkInfo [mkRange s e (Z.of_nat k) (Z.of_nat (length (splitBlockIntoParts b)))] keys).
Proof.
  unfold write_block. rewrite (write_parts_spec created (block_info s e keys) (sn_range s e) []) by done.
  eexists. split; [reflexivity|]. intros pb info. rewrite list_elem_of_omap.
  set (bs := splitBlockIntoParts b). cbn beta zeta. split.
  - intros ([k pb'] & Hin & Hk). cbn [fst snd] in Hk. apply list_elem_of_lookup in Hin as [j Hj].
    apply lookup_zip_Some in Hj as [Hj1 Hj2]. apply lookup_seq in Hj1 as [-> _].
    exists j. destruct (ignorePartBlock_total missing (Z.of_nat (length bs)) (Z.of_nat j)) as [[] E1]; change (0 + j)%nat with j in Hk; rewrite Z.add_0_l, E1 in Hk; [done|]. simpl in Hk. destruct (created pb') eqn:E2; [|done].
    simpl in *. simplify_eq. done.
  - intros (k & Hk & Hc & Hi & ->). exists (k, pb). split.
    + apply list_elem_of_lookup. exists k. apply lookup_zip_Some. split; [|done].
      apply lookup_seq. split; [done|by eapply lookup_lt_Some].
    + cbn [fst snd]. by rewrite Z.add_0_l, Hi, Hc.
Qed.

(** ** Merging parts does not change what is recovered *)

Section merge_recovery.
Context {Sort : StdSort}.

Definition live_ranges (committed : Z) (part_infos : list (option SequenceInfo)) : list SequenceRange :=
  filter (fun r => committed < end_sn r) (flat_map sequence_ranges (omap id part_infos)).

Definition recovered_ranges (r : recovered) : Z * Z * list SequenceRange :=
  (rec_committed_sn r, max_committed_sn r, missing_sequence_ranges r).

Lemma populate_ranges part_infos1 part_infos2 c n1 n2 :
  live_ranges c part_infos1 ≡ₚ live_ranges c part_infos2 -> ranges_wf c (live_ranges c part_infos1) ->
  recovered_ranges <$> populateCommittedSNFromParts part_infos1 c n1
  = recovered_ranges <$> populateCommittedSNFromParts part_infos2 c n2.
Proof.
  intros Hp Hwf. unfold populateCommittedSNFromParts.
  fold (live_ranges c part_infos1) (live_ranges c part_infos2).
  rewrite (missingSequenceRanges_perm _ _ _ Hwf Hp).
  by destruct (missingSequenceRanges _ _) as [[[missing next] max]|].
Qed.

Lemma flat_map_not_empty (infos : list SequenceInfo) :
  flat_map sequence_ranges (filter (fun si => info_not_empty si = true) infos)
  = flat_map sequence_ranges infos.
Proof.
  induction infos as [|si infos IH]; [done|]. rewrite filter_cons. case_decide as H; simpl; rewrite IH; [done|].
  unfold info_not_empty in H. destruct (sequence_ranges si); [done|]. simpl in H. done.
Qed.

Lemma merge_live_ranges infos committed c max_keys :
  committed <= c ->
  live_ranges c [mergePartsSequenceInfo infos committed max_keys] ≡ₚ live_ranges c infos.
Proof.
  intros Hc. unfold mergePartsSequenceInfo, live_ranges. rewrite <- (flat_map_not_empty (omap id infos)).
  set (l := filter _ (omap id infos)). clearbody l. unfold mergeSequenceInfo.
  destruct l as [|si l'] eqn:E; [done|]. rewrite <- E. cbn [omap list_omap id flat_map sequence_ranges].
  simpl. rewrite app_nil_r, merged_spec, list_filter_filter, std_sort_perm. apply reflexive_eq.
  apply filter_ext_elem. intros r _. lia.
Qed.

(** C39: a background merge of parts does not change what the table recovers, when
    the committed number in memory at the merge was no larger than the one the next start reads from `committed_sn.txt`: the
    committed and the largest number and the missing ranges are the same.  Recovery itself can
    raise the number in memory above the file; [merge_before_checkpoint_forgets] shows what is lost then. *)
Theorem merge_preserves_recovery (others merging : list (option SequenceInfo))
    (committed_at_merge committed : Z) (max_keys n1 n2 : nat) :
  committed_at_merge <= committed ->
  ranges_wf committed (live_ranges committed (others ++ merging)) ->
  recovered_ranges <$> populateCommittedSNFromParts
    (others ++ [mergePartsSequenceInfo merging committed_at_merge max_keys]) committed n1
  = recovered_ranges <$> populateCommittedSNFromParts (others ++ merging) committed n2.
Proof.
  intros Hc Hwf. symmetry. apply populate_ranges; [|done].
  pose proof (merge_live_ranges merging committed_at_merge committed max_keys Hc) as H.
  unfold live_ranges in *. rewrite !omap_app, !flat_map_app, !filter_app. by rewrite H.
Qed.
End merge_recovery.

Lemma merge_preserves_recovery_witness :
  recovered_ranges <$> populateCommittedSNFromParts
    ([Some (mkInfo [mkRange 4 5 0 2] None)]
     ++ [mergePartsSequenceInfo [Some (mkInfo [mkRange 3 3 0 1] None); Some (mkInfo [mkRange 1 1 0 1] None)] 1 10]) 2 10
  = Some (3, 5, [mkRange 4 5 1 2]).
Proof.
  etransitivity; [apply (merge_preserves_recovery [Some (mkInfo [mkRange 4 5 0 2] None)]
    [Some (mkInfo [mkRange 3 3 0 1] None); Some (mkInfo [mkRange 1 1 0 1] None)] 1 2 10 10 10)|].
  - lia.
  - apply (bool_decide_unpack _). vm_compute. exact I.
  - by vm_compute.
Defined.

(** Recovery raises the committed number in memory, to 3, without writing the
    file, which says 0; a merge drops the ranges up to 3, and after a crash the next start finds 1 to 3 missing and
    reads them again, although their rows are in the table. *)
Lemma merge_before_checkpoint_forgets :
  let infos := [Some (mkInfo [mkRange 1 2 0 1] None); Some (mkInfo [mkRange 3 3 0 1] None)] in
  let others := [Some (mkInfo [mkRange 5 5 0 1] None)] in
  recovered_ranges <$> populateCommittedSNFromParts (others ++ infos) 0 10 = Some (3, 5, [sn_range 4 4])
  /\ recovered_ranges <$> populateCommittedSNFromParts (others ++ [mergePartsSequenceInfo infos 3 10]) 0 10 = Some (0, 5, [sn_range 1 4]).
Proof. by vm_compute. Qed.
