(* ===== verification/Sequencing.v ===== *)
(** * Sequencing: progress of the committed number and deduplication

    Models the members of StorageDistributedMergeTree
    (src/src/Storages/DistributedMergeTree/StorageDistributedMergeTree.{h,cpp})
    that [sns_mutex] guards: the sequence numbers in flight, their progress when
    the blocks are written in any order, and the window of idempotent keys. *)

From S2P Require Import Prelude WalRecord.

Local Open Scope Z_scope.

Abbreviation SequencePair := (Z * Z)%type.

(** [operator<] of [std::pair<RecordSN, RecordSN>]. *)
Definition pair_lt (a b : SequencePair) : bool :=
  if a.1 <? b.1 then true else if b.1 <? a.1 then false else a.2 <? b.2.

(** ** The sequence numbers in flight *)

Record sn_state : Type := mkSNs {
  last_sn : Z;
  prev_sn : Z;
  local_sn : Z;
  outstanding_sns : list SequencePair;
  local_committed_sns : list SequencePair;
}.

(** The loop over the numbers written out of order; it reads the front of the
    deque, which must not be empty ([None]), and asserts that the numbers are consecutive. *)
Fixpoint progress_loop (debug : bool) (last : Z) (outstanding local : list SequencePair) {struct local}
    : option (Z * list SequencePair * list SequencePair) :=
  match local with
  | [] => Some (last, outstanding, [])
  | b :: local' =>
      match outstanding with
      | [] => None
      | p :: outstanding' =>
          if decide (b = p) then
            _ ← assert_ debug (p.1 =? last + 1);
            progress_loop debug p.2 outstanding' local'
          else Some (last, outstanding, local)
      end
  end.

Definition progressSequencesWithoutLock (debug : bool) (st : sn_state) (seq : SequencePair) : option sn_state :=
  match outstanding_sns st with
  | [] => None
  | front :: outstanding' =>
      if decide (seq <> front) then
        Some (mkSNs (last_sn st) (prev_sn st) (local_sn st) (outstanding_sns st)
                    (set_insert pair_lt seq (local_committed_sns st)))
      else
        '(last, outstanding, local) ← progress_loop debug seq.2 outstanding' (local_committed_sns st);
        _ ← assert_ debug (length local <=? length outstanding)%nat;
        _ ← assert_ debug (prev_sn st <=? last);
        Some (mkSNs last (prev_sn st) (local_sn st) outstanding local)
  end.

(** The first part of [doCommit], under the lock. *)
Definition push_outstanding (debug : bool) (st : sn_state) (seq : SequencePair) : option sn_state :=
  _ ← assert_ debug (last_sn st <? seq.1);
  Some (mkSNs (last_sn st) (prev_sn st) (local_sn st) (outstanding_sns st ++ [seq]) (local_committed_sns st)).

Definition set_prev_sn (st : sn_state) (s : Z) : sn_state :=
  mkSNs (last_sn st) s (local_sn st) (outstanding_sns st) (local_committed_sns st).
Definition set_local_sn (st : sn_state) (s : Z) : sn_state :=
  mkSNs (last_sn st) (prev_sn st) s (outstanding_sns st) (local_committed_sns st).

Definition lastSN (st : sn_state) : Z := last_sn st.

(** The offset the consumer starts from; -1000 is Kafka's stored offset. *)
Definition snLoaded (st : sn_state) : Z := if local_sn st >=? 0 then local_sn st + 1 else -1000.

(** The constructor, from the committed number the parts and the file give. *)
Definition initial_sns (sn : Z) : sn_state :=
  if sn >=? 0 then mkSNs sn (-1) sn [] [] else mkSNs (-1) (-1) (-1) [] [].

(** ** The window of idempotent keys *)

Record dedup_state : Type := mkDedup {
  idempotent_keys : list str;
  idempotent_keys_index : gset str;
}.

Definition buildIdempotentKeysIndex (keys : list str) : dedup_state :=
  mkDedup keys (foldl (fun index k => {[ k ]} ∪ index) ∅ keys).

(** [front] of an empty deque is undefined ([None]); the caller inserts a key
    the index does not hold. *)
Definition addIdempotentKey (max_idempotent_ids : nat) (st : dedup_state) (key : str) : option dedup_state :=
  if decide (max_idempotent_ids <= length (idempotent_keys st))%nat then
    match idempotent_keys st with
    | [] => None
    | front :: rest =>
        Some (mkDedup (rest ++ [key]) ({[ key ]} ∪ (idempotent_keys_index st ∖ {[ front ]})))
    end
  else Some (mkDedup (idempotent_keys st ++ [key]) ({[ key ]} ∪ idempotent_keys_index st)).

(** True when the record is a duplicate. *)
Definition dedupBlock {Block} (max_idempotent_ids : nat) (st : dedup_state) (r : WalRecord Block)
    : option (bool * dedup_state) :=
  if negb (hasIdempotentKey r) then Some (false, st)
  else
    match idempotentKey r with
    | Throw _ => None
    | Ok key =>
        if decide (key ∈ idempotent_keys_index st) then Some (true, st)
        else
          st' ← addIdempotentKey max_idempotent_ids st key;
          Some (false, st')
    end.

(** ** Specification of the progress

    Blocks are scheduled in the order of [log]; [completed] are those written.
    The last number is the end of the longest written prefix. *)

Fixpoint spec_last_sn (init : Z) (log completed : list SequencePair) : Z :=
  match log with
  | [] => init
  | p :: log' => if decide (p ∈ completed) then spec_last_sn p.2 log' completed else init
  end.

(** The log increases from [lo]: the consumer reads the WAL in order. *)
Fixpoint increasing_from (lo : Z) (log : list SequencePair) : Prop :=
  match log with
  | [] => True
  | p :: log' => lo < p.1 /\ p.1 <= p.2 /\ increasing_from p.2 log'
  end.

(** The numbers of a log without gaps. *)
Fixpoint consecutive_from (lo : Z) (log : list SequencePair) : Prop :=
  match log with
  | [] => True
  | p :: log' => p.1 = lo + 1 /\ consecutive_from p.2 log'
  end.

Definition end_of (init : Z) (log : list SequencePair) : Z := default init (snd <$> last log).

Record seqs_inv (init : Z) (log completed : list SequencePair) (st : sn_state) : Prop := {
  si_log : increasing_from init log;
  si_prefix : exists pre, log = pre ++ outstanding_sns st /\ last_sn st = end_of init pre
              /\ Forall (fun p => p ∈ completed) pre;
  si_sorted : StronglySorted (fun a b => pair_lt a b = true) (local_committed_sns st);
  si_local : forall p, p ∈ local_committed_sns st <-> p ∈ outstanding_sns st /\ p ∈ completed;
  si_head : match outstanding_sns st with [] => True | p :: _ => p ∉ completed end;
  si_prev : prev_sn st <= last_sn st;
}.

(** ** Lemmas: the order of the log *)

Lemma pair_lt_spec a b : pair_lt a b = true <-> a.1 < b.1 \/ (a.1 = b.1 /\ a.2 < b.2).
Proof. unfold pair_lt. repeat case_match; boolify; lia. Qed.

Lemma pair_lt_order : strict_order pair_lt.
Proof.
  split.
  - intros x. apply not_true_iff_false. rewrite pair_lt_spec. lia.
  - intros x y z. rewrite !pair_lt_spec. lia.
Qed.

Lemma pair_lt_total a b : pair_lt a b = false -> pair_lt b a = false -> a = b.
Proof.
  rewrite <- !not_true_iff_false, !pair_lt_spec. destruct a, b; simpl. intros. f_equal; lia.
Qed.

Lemma end_of_cons init p log : end_of init (p :: log) = end_of p.2 log.
Proof. unfold end_of. rewrite last_cons. by destruct (last log). Qed.

Lemma end_of_app init l1 l2 : end_of init (l1 ++ l2) = end_of (end_of init l1) l2.
Proof. revert init. induction l1 as [|p l1 IH]; intros init; [done|]. simpl. by rewrite !end_of_cons. Qed.

Lemma increasing_from_app lo l1 l2 :
  increasing_from lo (l1 ++ l2) <-> increasing_from lo l1 /\ increasing_from (end_of lo l1) l2.
Proof.
  revert lo. induction l1 as [|p l1 IH]; intros lo; simpl; [tauto|].
  rewrite end_of_cons, IH. tauto.
Qed.

Lemma consecutive_from_app lo l1 l2 :
  consecutive_from lo (l1 ++ l2) <-> consecutive_from lo l1 /\ consecutive_from (end_of lo l1) l2.
Proof.
  revert lo. induction l1 as [|p l1 IH]; intros lo; simpl; [tauto|].
  rewrite end_of_cons, IH. tauto.
Qed.

Lemma increasing_from_elem lo log p : increasing_from lo log -> p ∈ log -> lo < p.1 /\ p.1 <= p.2.
Proof.
  revert lo. induction log as [|q log IH]; intros lo H Hp; simpl in *; [set_solver|].
  destruct H as (H1 & H2 & H3). apply elem_of_cons in Hp as [->|Hp]; [done|].
  specialize (IH _ H3 Hp). lia.
Qed.

Lemma increasing_from_sorted lo log :
  increasing_from lo log -> StronglySorted (fun a b => pair_lt a b = true) log.
Proof.
  revert lo. induction log as [|p log IH]; intros lo H; simpl in *; constructor.
  - by eapply IH, H.
  - apply Forall_forall. intros q Hq. destruct H as (_ & H & Hlog).
    apply (increasing_from_elem _ _ _ Hlog) in Hq. apply pair_lt_spec. lia.
Qed.

Lemma increasing_from_end lo log : increasing_from lo log -> lo <= end_of lo log.
Proof.
  revert lo. induction log as [|p log IH]; intros lo H; simpl in *; [unfold end_of; simpl; lia|].
  destruct H as (? & ? & H). rewrite end_of_cons. specialize (IH _ H). lia.
Qed.

Lemma spec_last_sn_prefix init pre out completed :
  Forall (fun p => p ∈ completed) pre ->
  match out with [] => True | p :: _ => p ∉ completed end ->
  spec_last_sn init (pre ++ out) completed = end_of init pre.
Proof.
  intros Hpre Hout. revert init. induction Hpre as [|p pre Hp _ IH]; intros init; simpl.
  - destruct out; simpl; [done|]. by rewrite decide_False.
  - by rewrite decide_True, end_of_cons.
Qed.

Lemma seqs_inv_last init log completed st :
  seqs_inv init log completed st -> last_sn st = spec_last_sn init log completed.
Proof.
  intros [_ (pre & -> & -> & Hpre) _ _ Hhead _]. by rewrite spec_last_sn_prefix.
Qed.

(** Everything up to the last number is written. *)
Lemma seqs_inv_covered init log completed st p :
  seqs_inv init log completed st -> p ∈ log -> p.2 <= last_sn st -> p ∈ completed.
Proof.
  intros [Hlog (pre & -> & Hlast & Hpre) _ _ _ _] Hp Hle. apply elem_of_app in Hp as [Hp|Hp].
  - rewrite Forall_forall in Hpre. by apply Hpre.
  - apply increasing_from_app in Hlog as [_ Hlog].
    apply (increasing_from_elem _ _ _ Hlog) in Hp. lia.
Qed.

(** ** The progress loop *)

Lemma sorted_cons_neq x y l :
  StronglySorted (fun a b => pair_lt a b = true) (x :: l) -> y ∈ l -> pair_lt x y = true /\ x <> y.
Proof.
  intros [_ Hx]%StronglySorted_inv Hy. rewrite Forall_forall in Hx. specialize (Hx y Hy). simpl in Hx.
  split; [done|]. intros ->. by rewrite (so_irrefl _ pair_lt_order) in Hx.
Qed.

Lemma assert_consecutive debug (a b : Z) : (debug = true -> a = b) -> assert_ debug (a =? b) = Some tt.
Proof. unfold assert_. destruct debug; [|done]. intros ->; [by rewrite Z.eqb_refl|done]. Qed.

Lemma progress_loop_spec debug (completed local : list SequencePair) : forall last outstanding,
  (debug = true -> consecutive_from last outstanding) ->
  StronglySorted (fun a b => pair_lt a b = true) outstanding ->
  StronglySorted (fun a b => pair_lt a b = true) local ->
  (forall p, p ∈ local <-> p ∈ outstanding /\ p ∈ completed) ->
  exists last' out' local' pre, progress_loop debug last outstanding local = Some (last', out', local')
  /\ outstanding = pre ++ out' /\ Forall (fun p => p ∈ completed) pre /\ last' = end_of last pre
  /\ StronglySorted (fun a b => pair_lt a b = true) local'
  /\ (forall p, p ∈ local' <-> p ∈ out' /\ p ∈ completed)
  /\ match out' with [] => True | p :: _ => p ∉ completed end.
Proof.
  induction local as [|b local IH]; intros last outstanding Hcon Hout Hloc Hiff; cbn [progress_loop].
  { exists last, outstanding, [], []. split_and!; [done|done|constructor|done|constructor|done|].
    destruct outstanding as [|p out]; [done|]. intros Hp.
    assert (p ∈ @nil SequencePair) by (apply Hiff; set_solver). set_solver. }
  destruct outstanding as [|p out]; [exfalso; specialize (Hiff b); set_solver|].
  case_decide as Hbp.
  - subst b. rewrite assert_consecutive by (intros Hd; apply (Hcon Hd)). cbn [mbind option_bind].
    destruct (IH p.2 out) as (last' & out' & local' & pre & -> & Ho & Hpre & Hl & Hrest).
    + intros Hd. apply (Hcon Hd).
    + by apply StronglySorted_inv in Hout as [? _].
    + by apply StronglySorted_inv in Hloc as [? _].
    + intros q. split.
      * intros Hq. destruct (sorted_cons_neq _ _ _ Hloc Hq) as [_ Hne].
        specialize (Hiff q). set_solver.
      * intros [Hq Hc]. destruct (sorted_cons_neq _ _ _ Hout Hq) as [_ Hne].
        specialize (Hiff q). set_solver.
    + exists last', out', local', (p :: pre). subst out. split_and!; [done|done| |by rewrite end_of_cons|apply Hrest..].
      constructor; [|done]. apply Hiff. set_solver.
  - exists last, (p :: out), (b :: local), []. split_and!; [done|done|constructor|done|done|done|].
    intros Hp. assert (Hpl : p ∈ local) by (specialize (Hiff p); set_solver).
    assert (Hbo : b ∈ out) by (specialize (Hiff b); set_solver).
    destruct (sorted_cons_neq _ _ _ Hloc Hpl) as [H1 _], (sorted_cons_neq _ _ _ Hout Hbo) as [H2 _].
    pose proof (so_trans _ pair_lt_order _ _ _ H1 H2) as H. by rewrite (so_irrefl _ pair_lt_order) in H.
Qed.

(** ** The invariant is kept *)

Lemma seqs_inv_init init prev local :
  prev <= init -> seqs_inv init [] [] (mkSNs init prev local [] []).
Proof.
  intros Hp. split; simpl; [done|exists []; split_and!; [done..|constructor]|constructor|set_solver|done|done].
Qed.

(** The other two numbers may change. *)
Lemma seqs_inv_other init log completed st prev local :
  seqs_inv init log completed st -> prev <= last_sn st ->
  seqs_inv init log completed (mkSNs (last_sn st) prev local (outstanding_sns st) (local_committed_sns st)).
Proof. by intros [?????] ?; split. Qed.

Lemma seqs_inv_push debug init log completed st p :
  seqs_inv init log completed st -> end_of init log < p.1 -> p.1 <= p.2 -> p ∉ completed ->
  exists st', push_outstanding debug st p = Some st' /\ seqs_inv init (log ++ [p]) completed st'
  /\ last_sn st' = last_sn st /\ prev_sn st' = prev_sn st /\ local_sn st' = local_sn st
  /\ outstanding_sns st' = outstanding_sns st ++ [p].
Proof.
  intros [Hlog (pre & -> & Hlast & Hpre) Hsort Hiff Hhead Hprev] Hlt Hle Hp. unfold push_outstanding.
  rewrite assert_holds.
  2: { apply Z.ltb_lt. rewrite end_of_app in Hlt. apply increasing_from_app in Hlog as [_ Hlog].
       pose proof (increasing_from_end _ _ Hlog). lia. }
  eexists. split; [reflexivity|]. split; [|done]. split; simpl.
  - apply increasing_from_app. simpl. split; [done|]. by split_and!.
  - exists pre. by rewrite app_assoc.
  - done.
  - intros q. rewrite Hiff, elem_of_app, list_elem_of_singleton. naive_solver.
  - by destruct (outstanding_sns st).
  - done.
Qed.

(** The numbers written out of order are among those in flight. *)
Lemma local_shorter (local outstanding : list SequencePair) :
  StronglySorted (fun a b => pair_lt a b = true) local -> (forall p, p ∈ local -> p ∈ outstanding) ->
  (length local <= length outstanding)%nat.
Proof.
  intros Hs Hsub. apply submseteq_length, NoDup_submseteq; [|done].
  induction Hs as [|q l Hs IH Hq]; constructor; [|apply IH; set_solver].
  intros Hin. rewrite Forall_forall in Hq. specialize (Hq q Hin). simpl in Hq. by rewrite (so_irrefl _ pair_lt_order) in Hq.
Qed.

Lemma seqs_inv_progress debug init log completed st p :
  (debug = true -> consecutive_from init log) ->
  seqs_inv init log completed st -> p ∈ log -> p ∉ completed ->
  exists st', progressSequencesWithoutLock debug st p = Some st'
  /\ seqs_inv init log (p :: completed) st' /\ last_sn st <= last_sn st'
  /\ prev_sn st' = prev_sn st /\ local_sn st' = local_sn st.
Proof.
  intros Hcon [Hlog (pre & -> & Hlast & Hpre) Hsort Hiff Hhead Hprev] Hp Hnc.
  rewrite Forall_forall in Hpre.
  assert (Hpo : p ∈ outstanding_sns st) by (apply elem_of_app in Hp as [Hp|Hp]; [by apply Hpre in Hp|done]).
  unfold progressSequencesWithoutLock. destruct (outstanding_sns st) as [|front out] eqn:Eo; [set_solver|].
  apply increasing_from_app in Hlog as Hlog'. destruct Hlog' as [Hlog1 Hlog2].
  case_decide as Hf.
  - eexists. split; [reflexivity|]. split_and!; [|simpl; lia|done..]. split; simpl.
    + done.
    + exists pre. split_and!; [done..|]. apply Forall_forall. set_solver.
    + apply (set_insert_increasing _ pair_lt_order), Hsort.
    + intros q. split.
      * intros [->|Hq]%set_insert_elem; [set_solver|]. apply Hiff in Hq. set_solver.
      * intros [Hq [->|Hc]%elem_of_cons]; [|apply set_insert_subset, Hiff; set_solver].
        destruct (set_insert_equiv _ pair_lt_order p (local_committed_sns st)) as (y & Hy & H1 & H2).
        by assert (p = y) as <- by (by apply pair_lt_total).
    + set_solver.
    + done.
  - subst front.
    pose proof (increasing_from_sorted _ _ Hlog2) as Hs2.
    destruct (progress_loop_spec debug (p :: completed) (local_committed_sns st) p.2 out)
      as (last' & out' & local' & pre' & -> & Hout & Hpre' & Hl' & Hsort' & Hiff' & Hhead').
    + intros Hd. specialize (Hcon Hd). apply consecutive_from_app in Hcon as [_ Hcon]. apply Hcon.
    + by apply StronglySorted_inv in Hs2 as [? _].
    + done.
    + intros q. rewrite Hiff. split; [set_solver|].
      intros [Hq [->|Hc]%elem_of_cons]; [|set_solver].
      destruct (sorted_cons_neq _ _ _ Hs2 Hq). done.
    + assert (Hle : last_sn st <= last').
      { subst last' out. destruct Hlog2 as (? & ? & Hlog2). apply increasing_from_app in Hlog2 as [Hlog2 _].
        apply increasing_from_end in Hlog2. lia. }
      cbn [mbind option_bind]. rewrite (assert_holds debug (length local' <=? length out')%nat) by (apply Nat.leb_le, local_shorter; [done|]; intros q Hq; by apply Hiff').
      cbn [mbind option_bind]. rewrite assert_holds by (apply Z.leb_le; lia). cbn [mbind option_bind].
      eexists. split; [reflexivity|]. subst last' out. split_and!; [split; simpl|done..].
      * done.
      * exists (pre ++ p :: pre'). rewrite <- app_assoc. split_and!; [done| |].
        -- by rewrite end_of_app, end_of_cons.
        -- apply Forall_app. split; [apply Forall_forall; set_solver|]. constructor; [set_solver|done].
      * done.
      * done.
      * done.
      * lia.
Qed.

(** A build with assertions that goes on does what one without them does. *)
Lemma progress_loop_debug debug last outstanding local x :
  progress_loop debug last outstanding local = Some x -> progress_loop false last outstanding local = Some x.
Proof.
  revert last outstanding. induction local as [|b local IH]; intros last outstanding; [done|]. cbn [progress_loop].
  destruct outstanding as [|p outstanding]; [done|]. case_decide; [|done].
  destruct (assert_ debug _) as [[]|]; [|done]. apply IH.
Qed.

Lemma progress_debug debug st p st' :
  progressSequencesWithoutLock debug st p = Some st' -> progressSequencesWithoutLock false st p = Some st'.
Proof.
  unfold progressSequencesWithoutLock. destruct (outstanding_sns st) as [|front out]; [done|]. case_decide; [done|].
  destruct (progress_loop debug _ _ _) as [[[last outstanding] local]|] eqn:E; [|done].
  rewrite (progress_loop_debug _ _ _ _ _ E). cbn [mbind option_bind].
  destruct (assert_ debug (length local <=? length outstanding)%nat) as [[]|]; [|done].
  destruct (assert_ debug (prev_sn st <=? last)) as [[]|]; [|done]. done.
Qed.

(** ** Progress refines its specification *)

(** The states reached by scheduling blocks in the order of the log,
    completing them in any order and checkpointing the progress. *)
Inductive sn_reach (debug : bool) (init : Z) : list SequencePair -> list SequencePair -> sn_state -> Prop :=
| sn_reach_init prev local : prev <= init -> sn_reach debug init [] [] (mkSNs init prev local [] [])
| sn_reach_schedule log completed st p st' :
    sn_reach debug init log completed st -> end_of init log < p.1 -> p.1 <= p.2 ->
    push_outstanding debug st p = Some st' -> sn_reach debug init (log ++ [p]) completed st'
| sn_reach_complete log completed st p st' :
    sn_reach debug init log completed st -> p ∈ log -> p ∉ completed ->
    progressSequencesWithoutLock debug st p = Some st' ->
    sn_reach debug init log (p :: completed) st'
| sn_reach_checkpoint log completed st local :
    sn_reach debug init log completed st ->
    sn_reach debug init log completed (set_local_sn (set_prev_sn st (last_sn st)) local).

Lemma increasing_from_end_ge lo log q : increasing_from lo log -> q ∈ log -> q.2 <= end_of lo log.
Proof.
  revert lo. induction log as [|q' log IH]; intros lo Hlog Hin; [set_solver|].
  destruct Hlog as (_ & _ & Hlog). rewrite end_of_cons.
  apply elem_of_cons in Hin as [->|Hin]; [by apply increasing_from_end|by apply IH].
Qed.

Lemma sn_reach_inv debug init log completed st :
  sn_reach debug init log completed st ->
  seqs_inv init log completed st /\ (forall p, p ∈ completed -> p ∈ log).
Proof.
  induction 1 as [prev local Hp|log completed st p st' _ [IH Hsub] Hlt Hle Hst|log completed st p st' _ [IH Hsub] Hp Hc Hst|log completed st local _ [IH Hsub]].
  - split; [by apply seqs_inv_init|set_solver].
  - split; [|set_solver]. assert (Hn : p ∉ completed).
    { intros Hin%Hsub. pose proof (increasing_from_end_ge _ _ _ (si_log _ _ _ _ IH) Hin). lia. }
    destruct (seqs_inv_push debug _ _ _ _ _ IH Hlt Hle Hn) as (st2 & Hst2 & ? & _). congruence.
  - split; [|set_solver]. apply progress_debug in Hst.
    destruct (seqs_inv_progress false _ _ _ _ _ ltac:(done) IH Hp Hc) as (st2 & Hst2 & ? & _). congruence.
  - split; [|done]. by apply (seqs_inv_other _ _ _ st).
Qed.

(** C23: the sequence number to commit is right whatever the order in which the
    blocks in flight are written: it is the end of the longest prefix of the
    scheduled blocks that are all written.  In a build without assertions
    completing a block in flight never reads past the end of the queue, whatever gaps there are
    between the numbers of the blocks; in a build with assertions, none of those of the functions fails as
    long as the numbers are consecutive. *)
Theorem progressSequences_refines (debug : bool) (init : Z) (log completed : list SequencePair) (st : sn_state) :
  sn_reach debug init log completed st ->
  last_sn st = spec_last_sn init log completed
  /\ (forall p, p ∈ log -> p ∉ completed -> (debug = true -> consecutive_from init log) ->
        exists st', progressSequencesWithoutLock debug st p = Some st'
        /\ last_sn st' = spec_last_sn init log (p :: completed))
  /\ (forall p, end_of init log < p.1 -> p.1 <= p.2 ->
        exists st', push_outstanding debug st p = Some st' /\ last_sn st' = last_sn st
        /\ outstanding_sns st' = outstanding_sns st ++ [p]).
Proof.
  intros [Hinv Hsub]%sn_reach_inv. split; [by apply seqs_inv_last|]. split.
  - intros p Hp Hc Hcon. destruct (seqs_inv_progress debug _ _ _ _ _ Hcon Hinv Hp Hc) as (st' & Hst & Hinv' & _).
    exists st'. split; [done|]. by apply seqs_inv_last.
  - intros p Hlt Hle. assert (Hn : p ∉ completed).
    { intros Hin%Hsub. pose proof (increasing_from_end_ge _ _ _ (si_log _ _ _ _ Hinv) Hin). lia. }
    destruct (seqs_inv_push debug _ _ _ _ _ Hinv Hlt Hle Hn) as (st' & ? & _ & ? & _ & _ & ?). by exists st'.
Qed.

Lemma progressSequences_refines_witness :
  last_sn (mkSNs 4 (-1) 4 [(5, 6); (7, 7)] [(7, 7)]) = spec_last_sn 4 [(5, 6); (7, 7)] [(7, 7)]
  /\ (exists st', progressSequencesWithoutLock true (mkSNs 4 (-1) 4 [(5, 6); (7, 7)] [(7, 7)]) (5, 6) = Some st'
       /\ last_sn st' = spec_last_sn 4 [(5, 6); (7, 7)] [(5, 6); (7, 7)])
  /\ spec_last_sn 4 [(5, 6); (7, 7)] [(5, 6); (7, 7)] = 7.
Proof.
  assert (H : sn_reach true 4 [(5, 6); (7, 7)] [(7, 7)] (mkSNs 4 (-1) 4 [(5, 6); (7, 7)] [(7, 7)])).
  { apply (sn_reach_complete true 4 [(5, 6); (7, 7)] [] (mkSNs 4 (-1) 4 [(5, 6); (7, 7)] []) (7, 7)).
    - apply (sn_reach_schedule true 4 [(5, 6)] [] (mkSNs 4 (-1) 4 [(5, 6)] []) (7, 7)); [|by vm_compute..].
      apply (sn_reach_schedule true 4 [] [] (mkSNs 4 (-1) 4 [] []) (5, 6)); [by apply sn_reach_init|by vm_compute..].
    - apply (bool_decide_unpack _). vm_compute. exact I.
    - apply (bool_decide_unpack _). vm_compute. exact I.
    - by vm_compute. }
  destruct (progressSequences_refines true 4 [(5, 6); (7, 7)] [(7, 7)] _ H) as (H1 & H2 & _). split; [exact H1|]. split; [|by vm_compute].
  apply (H2 (5, 6)); [apply list_elem_of_here|apply (bool_decide_unpack _); vm_compute; exact I|by repeat split].
Defined.

(** Recovery skips what is on disk: a block may begin after the number that
    follows the last one, and then the assertion that numbers are consecutive fails when the blocks
    are written out of order, although the number to commit would be right. *)
Lemma skipped_number_asserts :
  exists st, sn_reach true 4 [(5, 6); (9, 9)] [(9, 9)] st
  /\ progressSequencesWithoutLock true st (5, 6) = None
  /\ (last_sn <$> progressSequencesWithoutLock false st (5, 6)) = Some 9.
Proof.
  exists (mkSNs 4 (-1) 4 [(5, 6); (9, 9)] [(9, 9)]). split; [|by vm_compute].
  apply (sn_reach_complete true 4 [(5, 6); (9, 9)] [] (mkSNs 4 (-1) 4 [(5, 6); (9, 9)] []) (9, 9)).
  - apply (sn_reach_schedule true 4 [(5, 6)] [] (mkSNs 4 (-1) 4 [(5, 6)] []) (9, 9)); [|by vm_compute..].
    apply (sn_reach_schedule true 4 [] [] (mkSNs 4 (-1) 4 [] []) (5, 6)); [by apply sn_reach_init|by vm_compute..].
  - apply (bool_decide_unpack _). vm_compute. exact I.
  - apply (bool_decide_unpack _). vm_compute. exact I.
  - by vm_compute.
Qed.

(** ** Deduplication is a window over the last keys *)

Definition dedup_wf (max_ids : nat) (st : dedup_state) : Prop :=
  NoDup (idempotent_keys st) /\ idempotent_keys_index st = list_to_set (idempotent_keys st)
  /\ (length (idempotent_keys st) <= max_ids)%nat.

Lemma build_index_spec (keys : list str) : idempotent_keys_index (buildIdempotentKeysIndex keys) = list_to_set keys.
Proof.
  simpl. enough (forall index : gset str, foldl (fun index k => {[ k ]} ∪ index) index keys = list_to_set keys ∪ index)
    as -> by set_solver.
  induction keys as [|k keys IH]; intros index; simpl; [set_solver|]. rewrite IH. set_solver.
Qed.

Lemma build_dedup_wf max_ids keys :
  NoDup keys -> (length keys <= max_ids)%nat -> dedup_wf max_ids (buildIdempotentKeysIndex keys).
Proof. intros Hnd Hlen. split_and!; [done|apply build_index_spec|done]. Qed.

Lemma last_n_snoc {A} n (l : list A) x :
  (0 < n)%nat -> (length l <= n)%nat ->
  last_n n (l ++ [x]) = (if decide (n <= length l)%nat then drop 1 l else l) ++ [x].
Proof.
  intros Hn Hl. rewrite last_n_drop, length_app. simpl. case_decide.
  - replace (length l + 1 - n)%nat with 1%nat by lia. by rewrite drop_app_le by lia.
  - by replace (length l + 1 - n)%nat with 0%nat by lia.
Qed.

Lemma addIdempotentKey_spec max_ids st key :
  (0 < max_ids)%nat -> dedup_wf max_ids st -> key ∉ idempotent_keys st ->
  exists st', addIdempotentKey max_ids st key = Some st' /\ dedup_wf max_ids st'
  /\ idempotent_keys st' = last_n max_ids (idempotent_keys st ++ [key]).
Proof.
  intros Hmax (Hnd & Hidx & Hlen) Hk. unfold addIdempotentKey.
  rewrite last_n_snoc by done. case_decide as Hfull.
  - destruct (idempotent_keys st) as [|front rest] eqn:E; [simpl in *; lia|].
    eexists. split; [reflexivity|]. apply NoDup_cons in Hnd as [Hf Hnd].
    split; [|done]. split_and!; simpl.
    + apply NoDup_app. split_and!; [done|set_solver|apply NoDup_singleton].
    + rewrite Hidx. simpl. rewrite list_to_set_app_L. simpl.
      assert (front ∉ (list_to_set rest : gset str)) by set_solver.
      assert (front <> key) by set_solver. set_solver.
    + rewrite length_app. simpl in *. lia.
  - eexists. split; [reflexivity|]. split; [|done]. split_and!; simpl.
    + apply NoDup_app. split_and!; [done|set_solver|apply NoDup_singleton].
    + rewrite Hidx, list_to_set_app_L. set_solver.
    + rewrite length_app. simpl. lia.
Qed.

(** A record with an idempotent key is skipped exactly when its key is among
    the last [max_idempotent_ids] keys accepted; otherwise it is accepted and
    its key enters the window, the oldest one leaving when it is full.  The
    index of the window is kept exact. *)
Lemma dedupBlock_window {Block} (max_ids : nat) (st : dedup_state) (r : WalRecord Block) (key : str) :
  (0 < max_ids)%nat -> dedup_wf max_ids st ->
  hasIdempotentKey r = true -> idempotentKey r = Ok key ->
  exists st', dedupBlock max_ids st r = Some (bool_decide (key ∈ idempotent_keys st), st')
  /\ dedup_wf max_ids st'
  /\ idempotent_keys st' = (if decide (key ∈ idempotent_keys st) then idempotent_keys st
                            else last_n max_ids (idempotent_keys st ++ [key])).
Proof.
  intros Hmax Hwf Hhas Hkey. unfold dedupBlock. rewrite Hhas, Hkey. simpl.
  assert (Hin : key ∈ idempotent_keys_index st <-> key ∈ idempotent_keys st).
  { destruct Hwf as (_ & -> & _). by rewrite elem_of_list_to_set. }
  destruct (decide (key ∈ idempotent_keys_index st)) as [Hk|Hk]; rewrite Hin in Hk.
  - exists st. rewrite bool_decide_eq_true_2, decide_True by done. done.
  - rewrite bool_decide_eq_false_2, decide_False by done.
    destruct (addIdempotentKey_spec max_ids st key Hmax Hwf Hk) as (st' & -> & Hwf' & Hkeys). by exists st'.
Qed.

Definition keyed_record (key : str) (s : Z) : WalRecord unit :=
  mkRecord ADD_DATA_BLOCK {[ IDEMPOTENT_KEY := key ]} tt [] 0 s.

Lemma dedupBlock_window_witness :
  exists st', dedupBlock 2 (buildIdempotentKeysIndex [lit "a"; lit "b"]) (keyed_record (lit "c") 7) = Some (false, st')
  /\ idempotent_keys st' = [lit "b"; lit "c"].
Proof.
  destruct (dedupBlock_window 2 (buildIdempotentKeysIndex [lit "a"; lit "b"]) (keyed_record (lit "c") 7) (lit "c"))
    as (st' & H & _ & Hk).
  - lia.
  - apply build_dedup_wf; [apply (bool_decide_unpack _); vm_compute; exact I|simpl; lia].
  - by vm_compute.
  - by vm_compute.
  - exists st'. split; [exact H|]. rewrite Hk. by vm_compute.
Defined.

(** With a window of no keys the first record that has an idempotent key
    reads the front of an empty queue: the setting must be positive. *)
Lemma dedupBlock_zero_window {Block} (r : WalRecord Block) :
  hasIdempotentKey r = true -> dedupBlock 0 (buildIdempotentKeysIndex []) r = None.
Proof.
  intros Hhas. unfold dedupBlock. rewrite Hhas. simpl. destruct (idempotentKey r) as [key|]; [|done].
  rewrite decide_False by set_solver. done.
Qed.
