(* ===== verification/CommitPipeline.v ===== *)
(** * CommitPipeline: from consumed records to parts and checkpoints

    Models [commit], [doCommit] and the checkpointing of
    src/src/Storages/DistributedMergeTree/StorageDistributedMergeTree.cpp.  The
    consumer thread merges the records of a batch into a block, queues its
    sequence numbers and schedules a task; the tasks of the pool write the blocks
    in any order; the consumer checkpoints the progress to `committed_sn.txt` and
    to the log.  The step relation interleaves them between the sections that
    [sns_mutex] protects; [scheduled], [completed], [skipped] and [lost] are history
    variables: the batches queued, those reported as written, those of them that a task reported because the table was
    stopped, and those for which the pool threw. *)

From S2P Require Import Prelude SequenceInfo WalRecord Blocks Recovery Sequencing.

Local Open Scope Z_scope.

Section pipeline.
Context {V PartBlock : Type}.
Abbreviation Block := (list (column V)).
Abbreviation record := (WalRecord Block).

(** The setting [max_idempotent_ids], the split of a block into parts and
    whether a part block gives a part. *)
Context (max_idempotent_ids : nat).
(** Whether assertions are compiled in *)
Context (debug : bool).
Context (splitBlockIntoParts : Block -> list PartBlock) (created : PartBlock -> bool).

(** ** [commit]: a batch becomes one block *)

(** The loop over the records.  The window of keys is updated as it goes, also
    when a later record makes the loop throw. *)
Fixpoint commit_loop (st : dedup_state) (b : Block) (keys : list IdempotentKey) (records : list record)
    : option (dedup_state * result (Block * list IdempotentKey)) :=
  match records with
  | [] => Some (st, Ok (b, keys))
  | r :: records =>
      match op_code r with
      | ADD_DATA_BLOCK =>
          '(duplicate, st) ← dedupBlock max_idempotent_ids st r;
          if (duplicate : bool) then commit_loop st b keys records
          else
            match (if decide (b = []) then Ok (block r) else mergeBlocks b (block r)) with
            | Throw e => Some (st, Throw e)
            | Ok b =>
                let keys := if hasIdempotentKey r
                            then match idempotentKey r with Ok k => keys ++ [(sn r, k)] | Throw _ => keys end
                            else keys in
                commit_loop st b keys records
            end
      | ALTER_DATA_BLOCK => Some (st, Throw (DBException ErrorCodes.NOT_IMPLEMENTED))
      | _ => commit_loop st b keys records
      end
  end.

(** ** The pool's tasks and the consumer's pending actions *)

Record task : Type := mkTask {
  t_block : Block;
  t_seq : SequencePair;
  t_keys : list IdempotentKey;
  t_ranges : list SequenceRange;
  t_written : bool;
}.

(** The parts a task adds: the block written with its sequence info. *)
Definition task_write_block (debug : bool) (t : task) : option (list (PartBlock * option SequenceInfo)) :=
  write_block debug splitBlockIntoParts created
    (Some (block_info (t_seq t).1 (t_seq t).2 (Some (t_keys t)))) (t_ranges t) (t_block t).
Definition task_parts (t : task) : list (PartBlock * option SequenceInfo) := default [] (task_write_block false t).

(** What the consumer thread has left to do between two locked sections. *)
Inductive action : Type :=
| CommitSN
| FinalCommit
| CommitSNLocal (sn : Z)
| SetLocalSN (sn : Z)
| CommitSNRemote (sn : Z).

Record pipeline : Type := mkPipe {
  sns : sn_state;
  dedup : dedup_state;
  pool : list task;
  disk : list (PartBlock * option SequenceInfo);
  file_sn : Z;
  remote_sns : list Z;
  stopped : bool;
  pending : list action;
  scheduled : list (SequencePair * list (PartBlock * option SequenceInfo));
  completed : list SequencePair;
  skipped : list SequencePair;
  lost : list SequencePair;
}.

(** [commitSN]: the locked section, and what follows it. *)
Definition commitSN_lock (st : sn_state) : sn_state * list action :=
  if negb (last_sn st =? prev_sn st) then
    let commit_sn := last_sn st in
    (set_prev_sn st (last_sn st),
     if commit_sn <? 0 then []
     else (if last_sn st - local_sn st >=? 100 then [CommitSNLocal commit_sn] else [])
          ++ [CommitSNRemote commit_sn])
  else (st, []).

Definition finalCommit_lock (st : sn_state) : list action :=
  if negb (last_sn st =? local_sn st) && (last_sn st >=? 0) then [CommitSNLocal (last_sn st)] else [].

Definition periodicallyCommit_lock (st : sn_state) : sn_state * list action :=
  let commit_sn := if negb (last_sn st =? local_sn st) then last_sn st else -1 in
  let remote_commit_sn := if negb (prev_sn st =? last_sn st) then last_sn st else -1 in
  (if negb (prev_sn st =? last_sn st) then set_prev_sn st (last_sn st) else st,
   (if commit_sn >=? 0 then [CommitSNLocal commit_sn] else [])
   ++ (if remote_commit_sn >=? 0 then [CommitSNRemote remote_commit_sn] else [])).

(** [doCommit], up to the call of [commitSN]: queue the numbers; an empty block
    is complete at once, any other is scheduled, or the pool throws ([thrown]). *)
Definition doCommit (p : pipeline) (b : Block) (seq : SequencePair) (keys : list IdempotentKey)
    (ranges : list SequenceRange) (thrown : bool) : option pipeline :=
  st ← push_outstanding debug (sns p) seq;
  if decide (b = []) then
    st ← progressSequencesWithoutLock debug st seq;
    Some (mkPipe st (dedup p) (pool p) (disk p) (file_sn p) (remote_sns p) (stopped p) (pending p)
            (scheduled p ++ [(seq, [])]) (seq :: completed p) (skipped p) (lost p))
  else
    _ ← assert_ debug (length (local_committed_sns st) <=? length (outstanding_sns st))%nat;
    let t := mkTask b seq keys ranges false in
    Some (if thrown then
            mkPipe st (dedup p) (pool p) (disk p) (file_sn p) (remote_sns p) (stopped p)
              (pending p) (scheduled p ++ [(seq, task_parts t)]) (completed p) (skipped p) (seq :: lost p)
          else
            mkPipe st (dedup p) (pool p ++ [t]) (disk p) (file_sn p) (remote_sns p) (stopped p)
              (pending p ++ [CommitSN]) (scheduled p ++ [(seq, task_parts t)]) (completed p) (skipped p) (lost p)).

Definition set_dedup (p : pipeline) (d : dedup_state) : pipeline :=
  mkPipe (sns p) d (pool p) (disk p) (file_sn p) (remote_sns p) (stopped p) (pending p) (scheduled p) (completed p) (skipped p) (lost p).

(** [commit] with the catch of DistributedMergeTreeCallbackData::doCommit: when
    the batch or the pool throws, it is logged and dropped. *)
Definition commit (p : pipeline) (records : list record) (ranges : list SequenceRange) (thrown : bool) : option pipeline :=
  match records, last records with
  | first :: _, Some back =>
      '(d, res) ← commit_loop (dedup p) [] [] records;
      let p := set_dedup p d in
      match res with
      | Throw _ => Some p
      | Ok (b, keys) => doCommit p b (sn first, sn back) keys ranges thrown
      end
  | _, _ => Some p
  end.

(** ** Steps *)

Definition set_pending (p : pipeline) (st : sn_state) (acts : list action) : pipeline :=
  mkPipe st (dedup p) (pool p) (disk p) (file_sn p) (remote_sns p) (stopped p) acts (scheduled p) (completed p) (skipped p) (lost p).

(** The first pending action; [ok] tells whether the write of the checkpoint
    succeeds: [commitSNLocal] and [commitSNRemote] log an error and go on. *)
Definition run_action (p : pipeline) (ok : bool) : option pipeline :=
  match pending p with
  | [] => None
  | CommitSN :: acts => let '(st, more) := commitSN_lock (sns p) in Some (set_pending p st (more ++ acts))
  | FinalCommit :: acts => Some (set_pending p (sns p) (finalCommit_lock (sns p) ++ acts))
  | CommitSNLocal s :: acts =>
      if ok then
        Some (mkPipe (sns p) (dedup p) (pool p) (disk p) s (remote_sns p) (stopped p)
                (SetLocalSN s :: acts) (scheduled p) (completed p) (skipped p) (lost p))
      else Some (set_pending p (sns p) acts)
  | SetLocalSN s :: acts => Some (set_pending p (set_local_sn (sns p) s) acts)
  | CommitSNRemote s :: acts =>
      if ok then
        Some (mkPipe (sns p) (dedup p) (pool p) (disk p) (file_sn p) (remote_sns p ++ [s]) (stopped p)
                acts (scheduled p) (completed p) (skipped p) (lost p))
      else Some (set_pending p (sns p) acts)
  end.

Definition mark_written (t : task) : task := mkTask (t_block t) (t_seq t) (t_keys t) (t_ranges t) true.

(** A task writes its block: the parts are added to the table. *)
Definition task_write (p : pipeline) (i : nat) (t : task) : pipeline :=
  mkPipe (sns p) (dedup p) (<[i := mark_written t]> (pool p)) (disk p ++ task_parts t) (file_sn p)
    (remote_sns p) (stopped p) (pending p) (scheduled p) (completed p) (skipped p) (lost p).

(** An attempt that throws after adding [k] of the parts; the task tries again. *)
Definition task_fail (p : pipeline) (t : task) (k : nat) : pipeline :=
  mkPipe (sns p) (dedup p) (pool p) (disk p ++ take k (task_parts t)) (file_sn p)
    (remote_sns p) (stopped p) (pending p) (scheduled p) (completed p) (skipped p) (lost p).

(** The task leaves its loop and reports its numbers. *)
Definition task_finish (p : pipeline) (i : nat) (t : task) : option pipeline :=
  st ← progressSequencesWithoutLock debug (sns p) (t_seq t);
  Some (mkPipe st (dedup p) (delete i (pool p)) (disk p) (file_sn p) (remote_sns p) (stopped p)
          (pending p) (scheduled p) (t_seq t :: completed p)
          (if t_written t then skipped p else t_seq t :: skipped p) (lost p)).

Definition stop (p : pipeline) : pipeline :=
  mkPipe (sns p) (dedup p) (pool p) (disk p) (file_sn p) (remote_sns p) true (pending p) (scheduled p) (completed p) (skipped p) (lost p).

Context (init : Z).

(** The consumer reads the log in order. *)
Definition batch_ok (p : pipeline) (records : list record) : Prop :=
  match records, last records with
  | first :: _, Some back => end_of init (fst <$> scheduled p) < sn first /\ sn first <= sn back
  | _, _ => True
  end.

(** A task leaves its loop when its block is written, or when the table is
    stopped; it writes as long as no assertion stops the process. *)
Inductive step : pipeline -> pipeline -> Prop :=
| step_consume p records ranges thrown p' :
    pending p = [] -> batch_ok p records -> commit p records ranges thrown = Some p' -> step p p'
| step_periodic p :
    pending p = [] ->
    step p (set_pending p (periodicallyCommit_lock (sns p)).1 (periodicallyCommit_lock (sns p)).2)
| step_final p : pending p = [] -> step p (set_pending p (sns p) [CommitSN; FinalCommit])
| step_action p ok p' : run_action p ok = Some p' -> step p p'
| step_write p i t :
    pool p !! i = Some t -> t_written t = false -> stopped p = false -> is_Some (task_write_block debug t) ->
    step p (task_write p i t)
| step_fail p i t k :
    pool p !! i = Some t -> t_written t = false -> stopped p = false -> is_Some (task_write_block debug t) ->
    step p (task_fail p t k)
| step_finish p i t p' :
    pool p !! i = Some t -> (t_written t = true \/ stopped p = true) ->
    task_finish p i t = Some p' -> step p p'
| step_stop p : step p (stop p).

Definition initial (d : dedup_state) : pipeline :=
  mkPipe (mkSNs init (-1) init [] []) d [] [] init [] false [] [] [] [] [].

Inductive reachable (d : dedup_state) : pipeline -> Prop :=
| reachable_init : reachable d (initial d)
| reachable_step p p' : reachable d p -> step p p' -> reachable d p'.

(** ** The invariant *)

Definition action_bound (lim : Z) (a : action) : Prop :=
  match a with
  | CommitSN | FinalCommit => True
  | CommitSNLocal s | SetLocalSN s | CommitSNRemote s => s <= lim
  end.

Record pipe_inv (p : pipeline) : Prop := {
  pi_seqs : seqs_inv init (fst <$> scheduled p) (completed p) (sns p);
  pi_completed : forall q, q ∈ completed p -> q ∈ (fst <$> scheduled p);
  pi_lost : forall q, q ∈ lost p -> q ∈ (fst <$> scheduled p) /\ q ∉ completed p;
  pi_skipped : stopped p = false -> skipped p = [];
  pi_pool : forall q, q ∈ (t_seq <$> pool p) <-> q ∈ (fst <$> scheduled p) /\ q ∉ completed p /\ q ∉ lost p;
  pi_pool_nodup : NoDup (t_seq <$> pool p);
  pi_tasks : forall t, t ∈ pool p -> (t_seq t, task_parts t) ∈ scheduled p;
  pi_written : forall t, t ∈ pool p -> t_written t = true -> task_parts t ⊆ disk p;
  pi_disk : forall q ps, (q, ps) ∈ scheduled p -> q ∈ completed p -> q ∉ skipped p -> ps ⊆ disk p;
  pi_file : file_sn p <= last_sn (sns p);
  pi_prev : prev_sn (sns p) <= last_sn (sns p);
  pi_local : local_sn (sns p) <= last_sn (sns p);
  pi_remote : Forall (fun s => s <= last_sn (sns p)) (remote_sns p);
  pi_pending : Forall (action_bound (last_sn (sns p))) (pending p);
}.

Lemma action_bound_mono l1 l2 acts :
  l1 <= l2 -> Forall (action_bound l1) acts -> Forall (action_bound l2) acts.
Proof. intros Hle H. eapply Forall_impl; [exact H|]. intros []; simpl; lia. Qed.

Lemma remote_mono l1 l2 l : l1 <= l2 -> Forall (fun s => s <= l1) l -> Forall (fun s => s <= l2) l.
Proof. intros Hle H. eapply Forall_impl; [exact H|]. simpl. lia. Qed.

Lemma fst_unique {A B} (l : list (A * B)) a b1 b2 :
  NoDup (fst <$> l) -> (a, b1) ∈ l -> (a, b2) ∈ l -> b1 = b2.
Proof.
  induction l as [|[x y] l IH]; intros Hnd H1 H2; [set_solver|]. simpl in Hnd.
  apply NoDup_cons in Hnd as [Hx Hnd].
  assert (Hin : forall b, (a, b) ∈ l -> a ∈ (fst <$> l)) by (intros b Hb; apply list_elem_of_fmap; by exists (a, b)).
  apply elem_of_cons in H1 as [H1|H1], H2 as [H2|H2]; simplify_eq; [done| | |by apply IH];
    exfalso; eauto.
Qed.

Lemma increasing_from_NoDup lo (log : list SequencePair) : increasing_from lo log -> NoDup log.
Proof.
  intros H%increasing_from_sorted. induction H as [|q log Hs IH Hq]; constructor; [|done].
  intros Hin. rewrite Forall_forall in Hq. specialize (Hq q Hin). simpl in Hq.
  by rewrite (so_irrefl _ pair_lt_order) in Hq.
Qed.

Lemma pipe_inv_initial d : -1 <= init -> pipe_inv (initial d).
Proof.
  intros Hi. split; simpl; [by apply seqs_inv_init|set_solver|set_solver|done|set_solver|constructor|set_solver
    |set_solver|set_solver|lia..|constructor|constructor].
Qed.

Lemma pipe_inv_dedup p d : pipe_inv p -> pipe_inv (set_dedup p d).
Proof. by intros []; split. Qed.

Lemma pipe_inv_stop p : pipe_inv p -> pipe_inv (stop p).
Proof. by intros []; split. Qed.

(** The checkpoint fields may change as long as they stay below the last number. *)
Lemma pipe_inv_checkpoint p st file remote acts :
  pipe_inv p -> last_sn st = last_sn (sns p) -> outstanding_sns st = outstanding_sns (sns p) ->
  local_committed_sns st = local_committed_sns (sns p) ->
  prev_sn st <= last_sn st -> local_sn st <= last_sn st -> file <= last_sn st ->
  Forall (fun s => s <= last_sn st) remote -> Forall (action_bound (last_sn st)) acts ->
  pipe_inv (mkPipe st (dedup p) (pool p) (disk p) file remote (stopped p) acts (scheduled p) (completed p) (skipped p) (lost p)).
Proof.
  intros [Hs ? ? ? ? ? ? ? ? ? ? ? ? ?] H1 H2 H3 H4 H5 H6 H7 H8.
  split; simpl; [|done..]. destruct st as [l pr lo o lc]. simpl in *. subst.
  by apply (seqs_inv_other _ _ _ (sns p)).
Qed.

Ltac bounds :=
  simpl; repeat case_match; simpl;
  repeat first [done | apply Forall_nil; exact I | apply Forall_cons; split | apply Forall_app; split | simpl; lia].

Lemma run_action_inv p ok p' : pipe_inv p -> run_action p ok = Some p' -> pipe_inv p'.
Proof.
  intros Hinv. pose proof Hinv as [_ _ _ _ _ _ _ _ _ Hf Hp Hl Hr Ha]. unfold run_action.
  destruct (pending p) as [|a acts]; [done|]. apply Forall_cons in Ha as [Ha Hacts].
  destruct a as [| |s|s|s]; simpl in Ha.
  - unfold commitSN_lock. destruct (last_sn (sns p) =? prev_sn (sns p)); cbn [negb]; intros [= <-]; apply pipe_inv_checkpoint; bounds.
  - intros [= <-]. apply pipe_inv_checkpoint; unfold finalCommit_lock; bounds.
  - destruct ok; intros [= <-]; apply pipe_inv_checkpoint; bounds.
  - intros [= <-]. apply pipe_inv_checkpoint; bounds.
  - destruct ok; intros [= <-]; apply pipe_inv_checkpoint; bounds.
Qed.

Lemma periodic_inv p :
  pipe_inv p ->
  pipe_inv (set_pending p (periodicallyCommit_lock (sns p)).1 (periodicallyCommit_lock (sns p)).2).
Proof.
  intros Hinv. pose proof Hinv as [_ _ _ _ _ _ _ _ _ Hf Hp Hl Hr Ha].
  unfold periodicallyCommit_lock. apply pipe_inv_checkpoint; bounds.
Qed.

(** Writing parts only adds to the disk. *)
Lemma pipe_inv_more_disk p extra :
  pipe_inv p ->
  pipe_inv (mkPipe (sns p) (dedup p) (pool p) (disk p ++ extra) (file_sn p) (remote_sns p) (stopped p)
              (pending p) (scheduled p) (completed p) (skipped p) (lost p)).
Proof.
  intros [? ? ? ? ? ? ? Hw Hd ? ? ? ? ?]. split; simpl; try done.
  - intros t Ht Hwr. pose proof (Hw t Ht Hwr). set_solver.
  - intros q ps Hq Hc Hs. pose proof (Hd q ps Hq Hc Hs). set_solver.
Qed.

Lemma task_write_inv p i t : pipe_inv p -> pool p !! i = Some t -> pipe_inv (task_write p i t).
Proof.
  intros Hinv Hi. pose proof (pipe_inv_more_disk p (task_parts t) Hinv) as [H1 H2 Hl Hs H3 H4 H5 H6 H7 H8 H9 H10 H11 H12].
  simpl in *. unfold task_write.
  assert (Hseq : t_seq <$> <[i := mark_written t]> (pool p) = t_seq <$> pool p).
  { rewrite list_fmap_insert. apply list_insert_id. by rewrite list_lookup_fmap, Hi. }
  assert (Hin : forall t', t' ∈ <[i := mark_written t]> (pool p) -> t' = mark_written t \/ t' ∈ pool p).
  { intros t' [j Hj]%list_elem_of_lookup. destruct (decide (i = j)) as [<-|Hne].
    - rewrite list_lookup_insert_eq in Hj by (by eapply lookup_lt_Some). left. by injection Hj.
    - rewrite list_lookup_insert_ne in Hj by done. right. by eapply list_elem_of_lookup_2. }
  split; simpl; try done; rewrite ?Hseq; try done.
  - intros t' [->|Ht']%Hin; [|by apply H5]. apply (H5 t). by eapply list_elem_of_lookup_2.
  - intros t' [->|Ht']%Hin Hw; [|by apply H6]. change (task_parts (mark_written t)) with (task_parts t). set_solver.
Qed.

Lemma task_finish_inv p i t p' :
  pipe_inv p -> pool p !! i = Some t -> t_written t = true \/ stopped p = true -> task_finish p i t = Some p' ->
  pipe_inv p'.
Proof.
  intros [H1 H2 Hl Hs H3 H4 H5 H6 H7 H8 H9 H10 H11 H12] Hi Hw. unfold task_finish.
  assert (Ht : t ∈ pool p) by (by eapply list_elem_of_lookup_2).
  assert (Hseq : t_seq t ∈ (t_seq <$> pool p)) by (by apply list_elem_of_fmap_2).
  pose proof (proj1 (H3 _) Hseq) as (Hsched & Hnc & Hnl).
  destruct (progressSequencesWithoutLock debug _ _) as [st'|] eqn:Ep; [|done]. apply progress_debug in Ep.
  destruct (seqs_inv_progress false _ _ _ _ _ ltac:(done) H1 Hsched Hnc) as (st & Ep' & Hst & Hle & Hpr & Hlo).
  assert (st' = st) as -> by congruence. cbn [mbind option_bind]. intros [= <-].
  assert (Hperm : pool p ≡ₚ t :: delete i (pool p)) by (by apply delete_Permutation).
  assert (Hnd : NoDup (t_seq t :: (t_seq <$> delete i (pool p)))).
  { rewrite Hperm in H4. done. }
  apply NoDup_cons in Hnd as [Hnew Hnd].
  assert (Hsub : forall t', t' ∈ delete i (pool p) -> t' ∈ pool p) by (intros t' Ht'; rewrite Hperm; set_solver).
  split; simpl; try done.
  - intros q [->|Hq]%elem_of_cons; [done|by apply H2].
  - intros q Hq. destruct (Hl q Hq). split; [done|]. apply not_elem_of_cons. split; [|done]. by intros ->.
  - intros Hst'. destruct (t_written t); [by apply Hs|]. destruct Hw; congruence.
  - intros q. specialize (H3 q). rewrite Hperm, fmap_cons, elem_of_cons in H3. rewrite not_elem_of_cons.
    split; [|tauto]. intros Hq. assert (q <> t_seq t) by (by intros ->). tauto.
  - intros t' Ht'. by apply H5, Hsub.
  - intros t' Ht'. by apply H6, Hsub.
  - intros q ps Hq [->|Hc]%elem_of_cons Hns; [|apply (H7 q); [done..|destruct (t_written t); set_solver]].
    destruct (t_written t) eqn:Ew; [|set_solver]. destruct H1 as [Hlog _ _ _ _ _].
    rewrite (fst_unique (scheduled p) (t_seq t) ps (task_parts t)); [by apply H6| |done|by apply H5].
    by eapply increasing_from_NoDup.
  - lia.
  - lia.
  - lia.
  - by eapply remote_mono.
  - by eapply action_bound_mono.
Qed.

(** What is left of the invariant when a batch is queued. *)
Lemma pipe_inv_queue p seq ps st pool' pending' completed' lost' :
  pipe_inv p -> seq ∉ (fst <$> scheduled p) -> seqs_inv init ((fst <$> scheduled p) ++ [seq]) completed' st ->
  last_sn (sns p) <= last_sn st -> prev_sn st = prev_sn (sns p) -> local_sn st = local_sn (sns p) ->
  (completed' = completed p \/ completed' = seq :: completed p /\ ps = []) ->
  (lost' = lost p \/ lost' = seq :: lost p /\ completed' = completed p) ->
  (forall q, q ∈ (t_seq <$> pool') <-> q ∈ (fst <$> scheduled p) ++ [seq] /\ q ∉ completed' /\ q ∉ lost') ->
  NoDup (t_seq <$> pool') ->
  (forall t, t ∈ pool' -> t ∈ pool p \/ t_seq t = seq /\ task_parts t = ps /\ t_written t = false) ->
  Forall (action_bound (last_sn st)) pending' ->
  pipe_inv (mkPipe st (dedup p) pool' (disk p) (file_sn p) (remote_sns p) (stopped p) pending'
              (scheduled p ++ [(seq, ps)]) completed' (skipped p) lost').
Proof.
  intros [H1 H2 Hl Hs H3 H4 H5 H6 H7 H8 H9 H10 H11 H12] Hnew Hst Hle Hpr Hlo Hc Hlost Hpool Hnd Htask Hpend.
  assert (Hnc : seq ∉ completed p) by (intros Hin; by apply Hnew, H2).
  assert (Hns : forall ps, (seq, ps) ∉ scheduled p) by (intros ps' Hin; apply Hnew, list_elem_of_fmap; by exists (seq, ps')).
  assert (Hfst : fst <$> (scheduled p ++ [(seq, ps)]) = (fst <$> scheduled p) ++ [seq]) by (by rewrite fmap_app).
  split; cbn [sns completed lost scheduled pool disk stopped skipped file_sn remote_sns pending]; rewrite ?Hfst; try done; try lia.
  - intros q Hq. destruct Hc as [->|[-> _]]; [|apply elem_of_cons in Hq as [->|Hq]; [set_solver|]]; specialize (H2 q Hq); set_solver.
  - intros q Hq. destruct Hlost as [->|[-> ->]].
    + destruct (Hl q Hq) as [Hq1 Hq2]. split; [set_solver|]. destruct Hc as [->|[-> _]]; [done|]. apply not_elem_of_cons. split; [|done]. by intros ->.
    + apply elem_of_cons in Hq as [->|Hq]; [split; [set_solver|done]|]. destruct (Hl q Hq). split; [set_solver|done].
  - intros t Ht. destruct (Htask t Ht) as [Ht'|(<- & <- & _)]; [specialize (H5 t Ht')|]; set_solver.
  - intros t Ht Hw. destruct (Htask t Ht) as [Ht'|(_ & _ & Hf)]; [by apply H6|congruence].
  - intros q ps' [Hq|Hq%list_elem_of_singleton]%elem_of_app Hcq Hsk.
    + apply (H7 q); [done| |done]. destruct Hc as [->|[-> _]]; [done|]. apply elem_of_cons in Hcq as [->|]; [by apply Hns in Hq|done].
    + injection Hq as -> ->. destruct Hc as [->|[_ ->]]; [done|apply list_subseteq_nil].
  - by eapply remote_mono.
Qed.

Lemma doCommit_inv p b seq keys ranges thrown p' :
  pipe_inv p -> end_of init (fst <$> scheduled p) < seq.1 -> seq.1 <= seq.2 ->
  doCommit p b seq keys ranges thrown = Some p' -> pipe_inv p'.
Proof.
  intros Hinv Hlt Hle. pose proof Hinv as [H1 H2 Hl _ H3 H4 _ _ _ _ _ _ _ H12]. unfold doCommit.
  assert (Hnew : seq ∉ (fst <$> scheduled p)).
  { intros Hin. pose proof (increasing_from_end_ge _ _ _ (si_log _ _ _ _ H1) Hin). lia. }
  assert (Hnc : seq ∉ completed p) by (intros Hin; by apply Hnew, H2).
  assert (Hnl : seq ∉ lost p) by (intros Hin; by apply Hnew, Hl).
  destruct (seqs_inv_push debug _ _ _ _ _ H1 Hlt Hle Hnc) as (st & -> & Hpush & HL & HP & HO & _). cbn [mbind option_bind].
  case_decide as Hb.
  - destruct (progressSequencesWithoutLock debug _ _) as [st1|] eqn:Ep; [|done]. apply progress_debug in Ep. cbn [mbind option_bind]. intros [= <-].
    destruct (seqs_inv_progress false _ _ _ _ seq ltac:(done) Hpush) as (st2 & Ep' & Hst & Hle' & Hpr & Hlo); [set_solver|done|].
    assert (st1 = st2) as -> by congruence.
    apply pipe_inv_queue; [done|done|done|lia|congruence|congruence|by right|by left| |done|by left|eapply action_bound_mono; [|done]; lia].
    intros q. rewrite H3, not_elem_of_cons, elem_of_app, list_elem_of_singleton. naive_solver.
  - destruct (assert_ debug _) as [[]|]; [|done]. cbn [mbind option_bind]. intros [= <-]. destruct thrown.
    + apply pipe_inv_queue; [done|done|done|lia|congruence|congruence|by left|by right| |done|by left|eapply action_bound_mono; [|done]; lia].
      intros q. rewrite H3, not_elem_of_cons, elem_of_app, list_elem_of_singleton. naive_solver.
    + apply pipe_inv_queue; [done|done|done|lia|congruence|congruence|by left|by left| | | |].
      * intros q. rewrite fmap_app, !elem_of_app, H3. simpl. rewrite !list_elem_of_singleton. naive_solver.
      * rewrite fmap_app. apply NoDup_app. split_and!; [done| |apply NoDup_singleton]. intros q Hq ->%list_elem_of_singleton. by apply H3 in Hq as [? _].
      * intros t [Ht| ->%list_elem_of_singleton]%elem_of_app; [by left|by right].
      * apply Forall_app. split; [eapply action_bound_mono; [|done]; lia|by apply Forall_singleton].
Qed.

Lemma commit_inv p records ranges thrown p' :
  pipe_inv p -> batch_ok p records -> commit p records ranges thrown = Some p' -> pipe_inv p'.
Proof.
  intros Hinv Hok. unfold commit. unfold batch_ok in Hok.
  destruct records as [|first records']; [by intros [= <-]|].
  destruct (last (first :: records')) as [back|]; [|by intros [= <-]].
  destruct (commit_loop _ _ _ _) as [[d res]|]; [|done]. cbn [mbind option_bind].
  pose proof (pipe_inv_dedup p d Hinv) as Hinv'.
  destruct res as [[b keys]|e]; [|by intros [= <-]].
  intros H. destruct Hok as [Hlt Hle]. exact (doCommit_inv _ _ (sn first, sn back) _ _ _ _ Hinv' Hlt Hle H).
Qed.

Lemma step_inv p p' : pipe_inv p -> step p p' -> pipe_inv p'.
Proof.
  intros Hinv Hstep. destruct Hstep as [p records ranges thrown p' _ Hok Hc|p _|p _|p ok p' Ha|p i t Hi _ _ _
    |p i t k Hi _ _ _|p i t p' Hi Hw Hf|p].
  - by eapply commit_inv.
  - by apply periodic_inv.
  - pose proof Hinv as [_ _ _ _ _ _ _ _ _ ? ? ? ? ?]. apply pipe_inv_checkpoint; try done. by repeat constructor.
  - by eapply run_action_inv.
  - by apply task_write_inv.
  - by apply pipe_inv_more_disk.
  - by eapply task_finish_inv.
  - by apply pipe_inv_stop.
Qed.

Lemma reachable_inv d p : -1 <= init -> reachable d p -> pipe_inv p.
Proof.
  intros Hi. induction 1 as [|p p' _ IH Hstep]; [by apply pipe_inv_initial|by eapply step_inv].
Qed.

Lemma spec_last_sn_all lo (log done_ : list SequencePair) :
  (forall q, q ∈ log -> q ∈ done_) -> spec_last_sn lo log done_ = end_of lo log.
Proof.
  intros H. rewrite <- (app_nil_r log) at 1. apply spec_last_sn_prefix; [|done].
  by apply Forall_forall.
Qed.

(** C2: a checkpoint never runs ahead of the data as long as the table is not
    stopped.  However the pool's tasks, their failed attempts, batches for which the pool throws and the consumer interleave,
    when `committed_sn.txt` or the log's committed offset covers a scheduled block, all the parts of the
    block are in the table; the one exception are blocks that a task gave up because the table was stopped,
    and there are none before that.  A batch for which the pool threw is never covered. *)
Theorem checkpoint_safe (d : dedup_state) (p : pipeline)
    (q : SequencePair) (ps : list (PartBlock * option SequenceInfo)) :
  -1 <= init -> reachable d p -> (q, ps) ∈ scheduled p ->
  (q.2 <= file_sn p \/ exists s, s ∈ remote_sns p /\ q.2 <= s) ->
  (ps ⊆ disk p \/ q ∈ skipped p) /\ (stopped p = false -> ps ⊆ disk p) /\ q ∉ lost p.
Proof.
  intros Hi [H1 _ Hl Hs _ _ _ _ H7 H8 _ _ H11 _]%reachable_inv Hq Hcov; [|done].
  assert (Hc : q ∈ completed p).
  { eapply (seqs_inv_covered _ _ _ _ _ H1).
    - apply list_elem_of_fmap. by exists (q, ps).
    - destruct Hcov as [?|(s & Hs' & ?)]; [lia|]. rewrite Forall_forall in H11. specialize (H11 s Hs').
      simpl in H11. lia. }
  split; [|split].
  - destruct (decide (q ∈ skipped p)); [by right|]. left. by apply (H7 q).
  - intros Hst. apply (H7 q); [done..|]. rewrite (Hs Hst). apply not_elem_of_nil.
  - intros Hin. by apply Hl in Hin as [_ ?].
Qed.

(** C40: progress: when no task is left in the pool, what is outstanding begins
    with a batch for which the pool threw, and the number to commit is the end of the batch before it; when the pool never threw,
    it is the end of the last batch and nothing is outstanding. *)
Theorem drained_caught_up (d : dedup_state) (p : pipeline) :
  -1 <= init -> reachable d p -> pool p = [] ->
  (exists pre, fst <$> scheduled p = pre ++ outstanding_sns (sns p) /\ last_sn (sns p) = end_of init pre)
  /\ (forall q, head (outstanding_sns (sns p)) = Some q -> q ∈ lost p)
  /\ (lost p = [] -> last_sn (sns p) = end_of init (fst <$> scheduled p)
       /\ outstanding_sns (sns p) = [] /\ local_committed_sns (sns p) = []).
Proof.
  intros Hi Hr Hpool. destruct (reachable_inv d p Hi Hr) as [H1 _ _ _ H3 _ _ _ _ _ _ _ _ _].
  destruct H1 as [_ (pre & Hlog & Hlast & _) _ Hloc Hhead _].
  assert (Hlost : forall q, head (outstanding_sns (sns p)) = Some q -> q ∈ lost p).
  { intros q Hq. destruct (outstanding_sns (sns p)) as [|q' out]; [done|]. injection Hq as ->.
    destruct (decide (q ∈ lost p)) as [|Hn]; [done|]. assert (Hx : q ∈ (t_seq <$> pool p)) by (apply H3; rewrite Hlog; set_solver).
    rewrite Hpool in Hx. by apply not_elem_of_nil in Hx. }
  split; [by exists pre|]. split; [done|]. intros Hno.
  assert (Hout : outstanding_sns (sns p) = []).
  { destruct (outstanding_sns (sns p)) as [|q out]; [done|]. specialize (Hlost q eq_refl). rewrite Hno in Hlost. by apply not_elem_of_nil in Hlost. }
  rewrite Hout, app_nil_r in Hlog. rewrite Hlog. split; [done|]. split; [done|].
  apply elem_of_nil_inv. intros q Hq. apply Hloc in Hq as [Hq _]. rewrite Hout in Hq. by apply not_elem_of_nil in Hq.
Qed.

(** A batch for which the pool threw stays in the queue without a task: the
    number to commit stays below it whatever is written after it. *)
Lemma thrown_batch_blocks (d : dedup_state) (p : pipeline) (q : SequencePair) :
  -1 <= init -> reachable d p -> q ∈ lost p -> last_sn (sns p) < q.1.
Proof.
  intros Hi Hr Hq. destruct (reachable_inv d p Hi Hr) as [[Hlog (pre & Hpre & Hlast & Hdone) _ _ _ _] _ Hl _ _ _ _ _ _ _ _ _ _ _].
  destruct (Hl q Hq) as [Hin Hnc]. rewrite Hpre in Hin. apply elem_of_app in Hin as [Hin|Hin]; [by apply (proj1 (Forall_forall _ _) Hdone) in Hin|].
  rewrite Hpre in Hlog. apply increasing_from_app in Hlog as [_ Hlog]. destruct (increasing_from_elem _ _ _ Hlog Hin). lia.
Qed.
End pipeline.

(** ** A concrete table

    One part per block, a window of ten keys, and sequence number 4 committed. *)

Module Example_table.
Definition ex_block (v : nat) : list (column nat) := [mkColumn (lit "c") 0%nat [v]].
Definition ex_record (s : Z) : WalRecord (list (column nat)) :=
  mkRecord ADD_DATA_BLOCK ∅ (ex_block (Z.to_nat s)) [] 0 s.
Abbreviation ex_pipeline := (@pipeline nat (list (column nat))).
Definition split_one (b : list (column nat)) : list (list (column nat)) := [b].
Definition always (b : list (column nat)) : bool := true.

Abbreviation ex_reachable := (reachable 10 true split_one always 4 (buildIdempotentKeysIndex [])).

Definition ex_p0 : ex_pipeline := initial 4 (buildIdempotentKeysIndex []).
Definition ex_p1 : ex_pipeline := default ex_p0 (commit 10 true split_one always ex_p0 [ex_record 5; ex_record 6] [] false).
Definition ex_p2 : ex_pipeline := default ex_p0 (run_action ex_p1 true).
Definition ex_p3 : ex_pipeline := default ex_p0 (run_action ex_p2 true).
Definition ex_task : @task nat := mkTask [mkColumn (lit "c") 0%nat [5; 6]%nat] (5, 6) [] [] false.

Lemma ex_reach_3 : ex_reachable ex_p3.
Proof.
  assert (H0 : ex_reachable ex_p0) by constructor.
  assert (H1 : ex_reachable ex_p1).
  { apply (reachable_step _ _ _ _ _ _ _ _ H0).
    apply (step_consume _ _ _ _ _ _ [ex_record 5; ex_record 6] [] false); [done|by vm_compute|by vm_compute]. }
  assert (H2 : ex_reachable ex_p2).
  { apply (reachable_step _ _ _ _ _ _ _ _ H1). by apply (step_action _ _ _ _ _ _ true). }
  apply (reachable_step _ _ _ _ _ _ _ _ H2). by apply (step_action _ _ _ _ _ _ true).
Qed.

(** The block is written, reported and checkpointed. *)
Definition ex_w1 : ex_pipeline := task_write split_one always ex_p3 0 ex_task.
Definition ex_w2 : ex_pipeline := default ex_p0 (task_finish true ex_w1 0 (mark_written ex_task)).
Definition ex_w3 : ex_pipeline :=
  set_pending ex_w2 (periodicallyCommit_lock (sns ex_w2)).1 (periodicallyCommit_lock (sns ex_w2)).2.
Definition ex_w4 : ex_pipeline := default ex_p0 (run_action ex_w3 true).

Lemma ex_reach_w4 : ex_reachable ex_w4.
Proof.
  assert (H1 : ex_reachable ex_w1).
  { apply (reachable_step _ _ _ _ _ _ _ _ ex_reach_3). apply step_write; [done..|by eexists]. }
  assert (H2 : ex_reachable ex_w2).
  { apply (reachable_step _ _ _ _ _ _ _ _ H1).
    apply (step_finish _ _ _ _ _ _ 0 (mark_written ex_task)); [done|by left|by vm_compute]. }
  assert (H3 : ex_reachable ex_w3).
  { apply (reachable_step _ _ _ _ _ _ _ _ H2). by apply step_periodic. }
  apply (reachable_step _ _ _ _ _ _ _ _ H3). by apply (step_action _ _ _ _ _ _ true).
Qed.

(** The table is stopped before the block is written. *)
Definition ex_s1 : ex_pipeline := stop ex_p3.
Definition ex_s2 : ex_pipeline := default ex_p0 (task_finish true ex_s1 0 ex_task).
Definition ex_s3 : ex_pipeline := set_pending ex_s2 (sns ex_s2) [CommitSN; FinalCommit].
Definition ex_s4 : ex_pipeline := default ex_p0 (run_action ex_s3 true).
Definition ex_s5 : ex_pipeline := default ex_p0 (run_action ex_s4 true).
Definition ex_s6 : ex_pipeline := default ex_p0 (run_action ex_s5 true).
Definition ex_s7 : ex_pipeline := default ex_p0 (run_action ex_s6 true).

Lemma ex_reach_s7 : ex_reachable ex_s7.
Proof.
  assert (H1 : ex_reachable ex_s1).
  { apply (reachable_step _ _ _ _ _ _ _ _ ex_reach_3). apply step_stop. }
  assert (H2 : ex_reachable ex_s2).
  { apply (reachable_step _ _ _ _ _ _ _ _ H1).
    apply (step_finish _ _ _ _ _ _ 0 ex_task); [done|by right|by vm_compute]. }
  assert (H3 : ex_reachable ex_s3).
  { apply (reachable_step _ _ _ _ _ _ _ _ H2). by apply step_final. }
  assert (H4 : ex_reachable ex_s4).
  { apply (reachable_step _ _ _ _ _ _ _ _ H3). by apply (step_action _ _ _ _ _ _ true). }
  assert (H5 : ex_reachable ex_s5).
  { apply (reachable_step _ _ _ _ _ _ _ _ H4). by apply (step_action _ _ _ _ _ _ true). }
  assert (H6 : ex_reachable ex_s6).
  { apply (reachable_step _ _ _ _ _ _ _ _ H5). by apply (step_action _ _ _ _ _ _ true). }
  apply (reachable_step _ _ _ _ _ _ _ _ H6). by apply (step_action _ _ _ _ _ _ true).
Qed.

Definition ex_parts : list (list (column nat) * option SequenceInfo) := task_parts split_one always ex_task.
End Example_table.
Import Example_table.

Lemma checkpoint_safe_witness : file_sn ex_w4 = 6 /\ ex_parts ⊆ disk ex_w4.
Proof.
  split; [by vm_compute|].
  destruct (checkpoint_safe 10 true split_one always 4 (buildIdempotentKeysIndex []) ex_w4 (5, 6) ex_parts) as (_ & H & _).
  - lia.
  - apply ex_reach_w4.
  - apply list_elem_of_here.
  - left. vm_compute. done.
  - apply H. reflexivity.
Defined.

Lemma drained_caught_up_witness : last_sn (sns ex_w4) = 6.
Proof.
  exact (proj1 (proj2 (proj2 (drained_caught_up 10 true split_one always 4 (buildIdempotentKeysIndex []) ex_w4
    ltac:(lia) ex_reach_w4 eq_refl)) eq_refl)).
Defined.

(** Stopping the table can lose data.  A task that finds the table stopped
    leaves its loop without writing its block but still reports its numbers, and
    the final commit then checkpoints past a block that is not in the table. *)
Lemma shutdown_checkpoints_unwritten_block :
  exists p, reachable 10 true split_one always 4 (buildIdempotentKeysIndex []) p
  /\ ((5, 6), ex_parts) ∈ scheduled p /\ 6 <= file_sn p
  /\ ~ ex_parts ⊆ disk p.
Proof.
  exists ex_s7. split; [apply ex_reach_s7|]. split; [apply list_elem_of_here|].
  split; [by vm_compute|]. intros H. specialize (H _ ltac:(vm_compute; left)). vm_compute in H. inversion H.
Qed.

(** A write that fails half way is not undone: the next attempt adds all
    the parts again, and the table holds one of them twice. *)
Lemma retry_duplicates_parts :
  exists p, reachable 10 true split_one always 4 (buildIdempotentKeysIndex []) p /\ ~ NoDup (disk p).
Proof.
  exists (task_write split_one always (task_fail split_one always ex_p3 ex_task 1) 0 ex_task). split.
  - assert (H : ex_reachable (task_fail split_one always ex_p3 ex_task 1)).
    { apply (reachable_step _ _ _ _ _ _ _ _ ex_reach_3). apply (step_fail _ _ _ _ _ _ 0); [done..|by eexists]. }
    apply (reachable_step _ _ _ _ _ _ _ _ H). apply step_write; [done..|by eexists].
  - intros H. vm_compute in H. apply NoDup_cons in H as [H _]. apply H. apply list_elem_of_here.
Qed.
