(* ===== verification/KafkaConfig.v ===== *)
(** * KafkaConfig: settings of a Kafka cluster and contexts of its topics

    Models src/src/DistributedWriteAheadLog/KafkaWALSettings.h and
    KafkaWALContext.h, and the table of src/src/DistributedWriteAheadLog/KafkaWALPool.cpp
    through which [KafkaWALPool::init] fills the settings from the
    configuration. *)

From S2P Require Import Prelude TextFormat.

Local Open Scope Z_scope.

(** ** Settings

    The table of [init] writes the fields of [KafkaWALSettings] and three local
    variables through untyped pointers with a type tag.  A pointer is the name of
    a variable; the variables of each type are a store. *)

Inductive str_var : Type :=
| cluster_id | brokers | security_protocol | debug | compression_codec | group_id | auto_offset_reset.

Inductive int_var : Type :=
| message_max_bytes | topic_metadata_refresh_interval_ms | statistic_internal_ms
| queue_buffering_max_messages | queue_buffering_max_kbytes | queue_buffering_max_ms
| message_send_max_retries | retry_backoff_ms
| message_timeout_ms | message_delivery_async_poll_ms | message_delivery_sync_poll_ms
| session_timeout_ms | max_poll_interval_ms
| auto_commit_interval_ms | fetch_message_max_bytes | fetch_wait_max_ms
| queued_min_messages | queued_max_messages_kbytes
| shared_subscription_flush_threshold_count | shared_subscription_flush_threshold_bytes
| shared_subscription_flush_threshold_ms
(* local variables of [init] *)
| dedicated_subscription_wal_pool_size | shared_subscription_wal_pool_max_size.

Inductive bool_var : Type :=
| enable_idempotence | enable_auto_commit | check_crcs
(* local variable of [init] *)
| system_default.

#[export] Instance str_var_eq_dec : EqDecision str_var.
Proof. solve_decision. Defined.
#[export] Instance int_var_eq_dec : EqDecision int_var.
Proof. solve_decision. Defined.
#[export] Instance bool_var_eq_dec : EqDecision bool_var.
Proof. solve_decision. Defined.

Record KafkaWALSettings : Type := mkSettings {
  s_str : str_var -> str;
  s_int : int_var -> Z;
  s_bool : bool_var -> bool;
}.

Definition default_str (x : str_var) : str :=
  match x with
  | security_protocol => lit "plaintext"
  | compression_codec => lit "snappy"
  | auto_offset_reset => lit "earliest"
  | _ => []
  end.

Definition default_int (x : int_var) : Z :=
  match x with
  | message_max_bytes => 1000000
  | topic_metadata_refresh_interval_ms => 300000
  | statistic_internal_ms => 30000
  | queue_buffering_max_messages => 100000
  | queue_buffering_max_kbytes => 1048576
  | queue_buffering_max_ms => 50
  | message_send_max_retries => 2
  | retry_backoff_ms => 100
  | message_timeout_ms => 40000
  | message_delivery_async_poll_ms => 100
  | message_delivery_sync_poll_ms => 10
  | session_timeout_ms => 10000
  | max_poll_interval_ms => 30000
  | auto_commit_interval_ms => 5000
  | fetch_message_max_bytes => 1048576
  | fetch_wait_max_ms => 500
  | queued_min_messages => 1000000
  | queued_max_messages_kbytes => 65536
  | shared_subscription_flush_threshold_count => 10000
  | shared_subscription_flush_threshold_bytes => 10 * 1024 * 1024
  | shared_subscription_flush_threshold_ms => 1000
  | dedicated_subscription_wal_pool_size => 2
  | shared_subscription_wal_pool_max_size => 10
  end.

Definition default_bool (x : bool_var) : bool :=
  match x with
  | enable_idempotence | enable_auto_commit => true
  | check_crcs | system_default => false
  end.

Definition default_settings : KafkaWALSettings := mkSettings default_str default_int default_bool.

Definition set_str (x : str_var) (v : str) (s : KafkaWALSettings) : KafkaWALSettings :=
  mkSettings (fun y => if decide (x = y) then v else s_str s y) (s_int s) (s_bool s).
Definition set_int (x : int_var) (v : Z) (s : KafkaWALSettings) : KafkaWALSettings :=
  mkSettings (s_str s) (fun y => if decide (x = y) then v else s_int s y) (s_bool s).
Definition set_bool (x : bool_var) (v : bool) (s : KafkaWALSettings) : KafkaWALSettings :=
  mkSettings (s_str s) (s_int s) (fun y => if decide (x = y) then v else s_bool s y).

(** ** The configuration *)

(** Poco's [AbstractConfiguration]: [getInt] and [getBool] throw on a value that
    is not of their type. *)
Record Configuration : Type := mkConfig {
  conf_has : str -> bool;
  conf_getString : str -> str;
  conf_getInt : str -> result Z;
  conf_getBool : str -> result bool;
  conf_keys : str -> list str;
}.

Inductive pointer : Type :=
| PString (x : str_var)
| PInt32 (x : int_var)
| PBool (x : bool_var).

#[export] Instance pointer_eq_dec : EqDecision pointer.
Proof. solve_decision. Defined.

Definition settings_table : list (str * pointer) :=
  [(lit ".default", PBool system_default);
   (lit ".cluster_id", PString cluster_id);
   (lit ".security_protocol", PString security_protocol);
   (lit ".brokers", PString brokers);
   (lit ".topic_metadata_refresh_interval_ms", PInt32 topic_metadata_refresh_interval_ms);
   (lit ".message_max_bytes", PInt32 message_max_bytes);
   (lit ".statistic_internal_ms", PInt32 statistic_internal_ms);
   (lit ".debug", PString debug);
   (lit ".enable_idempotence", PBool enable_idempotence);
   (lit ".queue_buffering_max_messages", PInt32 queue_buffering_max_messages);
   (lit ".queue_buffering_max_kbytes", PInt32 queue_buffering_max_kbytes);
   (lit ".queue_buffering_max_ms", PInt32 queue_buffering_max_ms);
   (lit ".message_send_max_retries", PInt32 message_send_max_retries);
   (lit ".retry_backoff_ms", PInt32 retry_backoff_ms);
   (lit ".compression_codec", PString compression_codec);
   (lit ".message_timeout_ms", PInt32 message_timeout_ms);
   (lit ".message_delivery_async_poll_ms", PInt32 message_delivery_async_poll_ms);
   (lit ".message_delivery_sync_poll_ms", PInt32 message_delivery_sync_poll_ms);
   (lit ".group_id", PString group_id);
   (lit ".check_crcs", PBool check_crcs);
   (lit ".auto_commit_interval_ms", PInt32 auto_commit_interval_ms);
   (lit ".fetch_message_max_bytes", PInt32 fetch_message_max_bytes);
   (lit ".fetch_wait_max_ms", PInt32 fetch_wait_max_ms);
   (lit ".queued_min_messages", PInt32 queued_min_messages);
   (lit ".queued_max_messages_kbytes", PInt32 queued_max_messages_kbytes);
   (lit ".session_timeout_ms", PInt32 session_timeout_ms);
   (lit ".max_poll_interval_ms", PInt32 max_poll_interval_ms);
   (lit ".dedicated_subscription_pool_size", PInt32 dedicated_subscription_wal_pool_size);
   (lit ".shared_subscription_pool_max_size", PInt32 shared_subscription_wal_pool_max_size);
   (lit ".shared_subscription_flush_threshold_count", PInt32 shared_subscription_flush_threshold_count);
   (lit ".shared_subscription_flush_threshold_bytes", PInt32 shared_subscription_flush_threshold_bytes);
   (lit ".shared_subscription_flush_threshold_ms", PInt32 shared_subscription_flush_threshold_ms)].

Definition SYSTEM_WALS_KEY : str := lit "cluster_settings.streaming_storage".
Definition SYSTEM_WALS_KEY_PREFIX : str := lit "cluster_settings.streaming_storage.".

Definition read_setting (config : Configuration) (key : str) (t : str * pointer) (s : KafkaWALSettings)
    : result KafkaWALSettings :=
  let k := SYSTEM_WALS_KEY_PREFIX ++ key ++ t.1 in
  if negb (conf_has config k) then Ok s
  else match t.2 with
       | PString x => Ok (set_str x (conf_getString config k) s)
       | PInt32 x =>
           i ← conf_getInt config k;
           if i <=? 0 then Throw (DBException ErrorCodes.BAD_ARGUMENTS) else Ok (set_int x i s)
       | PBool x => b ← conf_getBool config k; Ok (set_bool x b s)
       end.

Fixpoint read_settings (config : Configuration) (key : str) (table : list (str * pointer))
    (s : KafkaWALSettings) : result KafkaWALSettings :=
  match table with
  | [] => Ok s
  | t :: table => s ← read_setting config key t s; read_settings config key table s
  end.

(** [KafkaWALSettings::string], logged when a pool is created. *)
Fixpoint join (sep : str) (l : list str) : str :=
  match l with
  | [] => []
  | [s] => s
  | s :: l => s ++ sep ++ join sep l
  end.

Definition bool_string (b : bool) : str := if b then lit "1" else lit "0".

Definition settings_string (s : KafkaWALSettings) : str :=
  let show_int name x := lit name ++ writeIntText (s_int s x) in
  let show_bool name x := lit name ++ bool_string (s_bool s x) in
  join (lit " ")
    [lit "cluster_id=" ++ s_str s cluster_id;
     show_int "message_max_bytes=" message_max_bytes;
     show_int "topic_metadata_refresh_interval_ms=" topic_metadata_refresh_interval_ms;
     show_bool "enable_idempotence=" enable_idempotence;
     show_int "queue_buffering_max_messages=" queue_buffering_max_messages;
     show_int "queue_buffering_max_kbytes=" queue_buffering_max_kbytes;
     show_int "queue_buffering_max_ms=" queue_buffering_max_ms;
     show_int "message_send_max_retries=" message_send_max_retries;
     show_int "retry_backoff_ms=" retry_backoff_ms;
     lit "compression_codec=" ++ s_str s compression_codec;
     show_int "message_timeout_ms=" message_timeout_ms;
     show_int "message_delivery_async_poll_ms=" message_delivery_async_poll_ms;
     show_int "message_delivery_sync_poll_ms=" message_delivery_sync_poll_ms;
     show_bool "enable_auto_commit=" enable_auto_commit;
     show_bool "check_crcs=" check_crcs;
     show_int "auto_commit_interval_ms=" auto_commit_interval_ms;
     show_int "queued_min_messages=" queued_min_messages;
     show_int "queued_max_messages_kbytes=" queued_max_messages_kbytes;
     show_int "shared_subscription_flush_threshold_count=" shared_subscription_flush_threshold_count;
     show_int "shared_subscription_flush_threshold_bytes=" shared_subscription_flush_threshold_bytes;
     show_int "shared_subscription_flush_threshold_ms=" shared_subscription_flush_threshold_ms].

(** ** Contexts

    The topic handle is librdkafka's: whether there is one is what matters. *)

Record KafkaWALContext : Type := mkContext {
  c_topic : str;
  c_partition : Z;
  c_offset : Z;
  c_partitions : Z;
  c_replication_factor : Z;
  c_compression_codec : str;
  c_client_side_compression : bool;
  c_retention_ms : Z;
  c_retention_bytes : Z;
  c_segment_bytes : Z;
  c_segment_ms : Z;
  c_flush_messages : Z;
  c_flush_ms : Z;
  c_cleanup_policy : str;
  c_request_required_acks : Z;
  c_request_timeout_ms : Z;
  c_auto_offset_reset : str;
  c_consume_callback_max_messages : Z;
  c_consume_callback_max_rows : Z;
  c_consume_callback_max_bytes : Z;
  c_consume_callback_timeout_ms : Z;
  c_message_max_bytes : Z;
  c_topic_handle : bool;
  c_topic_consuming_started : bool;
}.

Definition make_context (topic : str) (partition offset partitions replication_factor : Z)
    (cleanup_policy : str) : KafkaWALContext :=
  mkContext topic partition offset partitions replication_factor (lit "snappy") false
    (-1) (-1) (-1) (-1) (-1) (-1) cleanup_policy 1 30000 (lit "earliest")
    100000 1000000 33554432 1000 (-1) false false.

(** The three constructors. *)
Definition context_at (topic : str) (partition offset : Z) : KafkaWALContext :=
  make_context topic partition offset 1 1 (lit "delete").
Definition context_admin (topic : str) (partitions replication_factor : Z) (cleanup_policy : str) : KafkaWALContext :=
  make_context topic 0 (-1000) partitions replication_factor cleanup_policy.
Definition context_of (topic : str) : KafkaWALContext := make_context topic 0 (-1000) 1 1 (lit "delete").

Definition topicPartitonKey (topic : str) (partition : Z) : str := topic ++ lit "$" ++ writeIntText partition.

Definition context_key (ctx : KafkaWALContext) : str := topicPartitonKey (c_topic ctx) (c_partition ctx).

Definition context_string (c : KafkaWALContext) : str :=
  let show name z := lit name ++ writeIntText z in
  join (lit " ")
    [lit "topic=" ++ c_topic c;
     show "partition=" (c_partition c);
     show "offset=" (c_offset c);
     show "partitions=" (c_partitions c);
     show "replication_factor=" (c_replication_factor c);
     lit "compression_codec=" ++ c_compression_codec c;
     lit "client_side_compression=" ++ bool_string (c_client_side_compression c);
     show "retention_ms=" (c_retention_ms c);
     show "retention_bytes=" (c_retention_bytes c);
     show "segment_bytes=" (c_segment_bytes c);
     show "segment_ms=" (c_segment_ms c);
     show "flush_messages=" (c_flush_messages c);
     show "flush_ms=" (c_flush_ms c);
     lit "cleanup_policy=" ++ c_cleanup_policy c;
     show "request_required_acks=" (c_request_required_acks c);
     show "request_timeout_ms=" (c_request_timeout_ms c);
     lit "auto_offset_reset=" ++ c_auto_offset_reset c;
     show "consume_callback_max_messages=" (c_consume_callback_max_messages c);
     show "consume_callback_max_rows=" (c_consume_callback_max_rows c);
     show "consume_callback_max_bytes=" (c_consume_callback_max_bytes c);
     show "consume_callback_timeout_ms=" (c_consume_callback_timeout_ms c);
     show "message_max_bytes=" (c_message_max_bytes c)].

(** ** What the table gives *)

(** A configured variable has the configured value, which is positive for an
    integer; another one keeps its default. *)
Definition setting_ok (config : Configuration) (key : str) (s0 s : KafkaWALSettings) (t : str * pointer) : Prop :=
  let k := SYSTEM_WALS_KEY_PREFIX ++ key ++ t.1 in
  match t.2 with
  | PString x => s_str s x = (if conf_has config k then conf_getString config k else s_str s0 x)
  | PInt32 x =>
      if conf_has config k then conf_getInt config k = Ok (s_int s x) /\ 0 < s_int s x
      else s_int s x = s_int s0 x
  | PBool x => if conf_has config k then conf_getBool config k = Ok (s_bool s x) else s_bool s x = s_bool s0 x
  end.

Definition same_at (s s' : KafkaWALSettings) (p : pointer) : Prop :=
  match p with
  | PString x => s_str s x = s_str s' x
  | PInt32 x => s_int s x = s_int s' x
  | PBool x => s_bool s x = s_bool s' x
  end.

Lemma read_setting_spec config key t s s' :
  read_setting config key t s = Ok s' ->
  setting_ok config key s s' t /\ (forall p, p <> t.2 -> same_at s' s p).
Proof.
  unfold read_setting, setting_ok. destruct (conf_has config _); cbn [negb].
  2: { intros [= <-]. split; [by destruct t as [n []]|by intros []]. }
  destruct t as [n [x|x|x]]; cbn [fst snd].
  - intros [= <-]. simpl. split; [by rewrite decide_True by done|intros [y|y|y] Hy; simpl; try done].
    rewrite decide_False; congruence.
  - destruct (conf_getInt config _) as [i|]; cbn [mbind result_bind]; [|done].
    destruct (i <=? 0) eqn:Hi; [done|]. intros [= <-]. simpl. apply Z.leb_gt in Hi.
    split; [by rewrite decide_True by done|intros [y|y|y] Hy; simpl; try done].
    rewrite decide_False; congruence.
  - destruct (conf_getBool config _) as [b|]; cbn [mbind result_bind]; [|done].
    intros [= <-]. simpl. split; [by rewrite decide_True by done|intros [y|y|y] Hy; simpl; try done].
    rewrite decide_False; congruence.
Qed.

Lemma read_settings_other config key table s s' p :
  read_settings config key table s = Ok s' -> p ∉ table.*2 -> same_at s' s p.
Proof.
  revert s. induction table as [|t table IH]; intros s H Hp; simpl in H; [injection H as <-; by destruct p|].
  destruct (read_setting config key t s) as [s1|] eqn:Ht; cbn [mbind result_bind] in H; [|done].
  apply read_setting_spec in Ht as [_ Hsame]. rewrite fmap_cons, not_elem_of_cons in Hp. destruct Hp as [Hne Hp].
  specialize (IH _ H Hp). specialize (Hsame p Hne). destruct p; simpl in *; congruence.
Qed.

Lemma read_settings_ok config key table s s' :
  NoDup table.*2 -> read_settings config key table s = Ok s' ->
  Forall (setting_ok config key s s') table.
Proof.
  revert s. induction table as [|t table IH]; intros s Hnd H; [by constructor|].
  rewrite fmap_cons, NoDup_cons in Hnd. destruct Hnd as [Hnew Hnd]. simpl in H.
  destruct (read_setting config key t s) as [s1|] eqn:Ht; cbn [mbind result_bind] in H; [|done].
  apply read_setting_spec in Ht as [Hok Hsame]. constructor.
  - pose proof (read_settings_other _ _ _ _ _ _ H Hnew) as He. unfold setting_ok in *.
    destruct (t.2); simpl in He; rewrite He; done.
  - pose proof (IH _ Hnd H) as HF. rewrite Forall_forall in HF |- *. intros u Hu. specialize (HF u Hu).
    assert (Hne : u.2 <> t.2) by (intros E; apply Hnew; rewrite <- E; by apply list_elem_of_fmap_2).
    specialize (Hsame _ Hne). unfold setting_ok in *. destruct (u.2); simpl in Hsame; by rewrite Hsame in HF.
Qed.

Lemma settings_table_nodup : NoDup settings_table.*2 /\ NoDup settings_table.*1.
Proof. split; apply (bool_decide_unpack _); by vm_compute. Qed.

Lemma read_settings_positive config key s s' table x :
  read_settings config key table s = Ok s' -> 0 < s_int s x -> 0 < s_int s' x.
Proof.
  revert s. induction table as [|t table IH]; intros s H Hx; simpl in H; [by injection H as <-|].
  destruct (read_setting config key t s) as [s1|] eqn:Ht; cbn [mbind result_bind] in H; [|done].
  apply (IH _ H). apply read_setting_spec in Ht as [Hok Hsame].
  destruct (decide (PInt32 x = t.2)) as [He|Hne]; [|specialize (Hsame _ Hne); simpl in Hsame; lia].
  unfold setting_ok in Hok. rewrite <- He in Hok. destruct (conf_has config _); [tauto|]. by rewrite Hok.
Qed.

(** The settings read for a cluster are those of its configuration: each
    variable of the table has the configured value, or its default where the
    configuration has none; every integer is positive, and the two settings
    that are not in the table keep their defaults. *)
Lemma read_settings_spec (config : Configuration) (key : str) (s : KafkaWALSettings) :
  read_settings config key settings_table default_settings = Ok s ->
  Forall (setting_ok config key default_settings s) settings_table
  /\ (forall x, 0 < s_int s x)
  /\ s_str s auto_offset_reset = lit "earliest"
  /\ s_bool s enable_auto_commit = true.
Proof.
  intros H. split_and!.
  - apply read_settings_ok; [apply settings_table_nodup|done].
  - intros x. eapply read_settings_positive; [exact H|by destruct x].
  - apply (read_settings_other _ _ _ _ _ (PString auto_offset_reset) H), (bool_decide_unpack _); by vm_compute.
  - apply (read_settings_other _ _ _ _ _ (PBool enable_auto_commit) H), (bool_decide_unpack _); by vm_compute.
Qed.

(** A configuration with one segment. *)
Definition example_config : Configuration :=
  let k name := SYSTEM_WALS_KEY_PREFIX ++ lit "k1" ++ lit name in
  mkConfig (fun s => bool_decide (s ∈ [k ".brokers"; k ".default"; k ".cluster_id"; k ".message_max_bytes"]))
    (fun s => if decide (s = k ".brokers") then lit "localhost:9092" else lit "daisy")
    (fun _ => Ok 2000000) (fun _ => Ok true) (fun _ => [lit "k1"]).
