(* ===== verification/KafkaWal.v ===== *)
(** * KafkaWal: producing to the log and administering its topics

    Models src/src/DistributedWriteAheadLog/KafkaWAL.{h,cpp} and the handles of
    KafkaWALCommon.cpp.  librdkafka is a
    parameter: what a call returns is an argument of the definition that makes
    the call. *)

From S2P Require Import Prelude TextFormat WalRecord KafkaConfig.

Local Open Scope Z_scope.

(** ** Handles *)

Abbreviation KConfParams := (list (str * str)).

(** [initRdKafkaHandle] and [initRdKafkaTopicHandle]: [conf] and [handle] tell
    whether librdkafka made them, [set] its answer to each parameter. *)
Definition initRdKafkaHandle (conf : bool) (set : str * str -> bool) (handle : bool) (last_error : Z)
    (params : KConfParams) : result unit :=
  if negb conf then code ← mapErrorCode last_error false; Throw (DBException code)
  else if existsb (fun param => negb (set param)) params
  then Throw (DBException ErrorCodes.INVALID_CONFIG_PARAMETER)
  else if negb handle then code ← mapErrorCode last_error false; Throw (DBException code)
  else Ok tt.

Definition initRdKafkaTopicHandle (conf : bool) (set : str * str -> bool) (handle : bool) (last_error : Z)
    (params : KConfParams) : result unit :=
  if negb conf then code ← mapErrorCode last_error false; Throw (DBException code)
  else if existsb (fun param => negb (set param)) params
  then Throw (DBException ErrorCodes.INVALID_CONFIG_PARAMETER)
  else if negb handle then code ← mapErrorCode last_error false; Throw (DBException code)
  else Ok tt.

(** [initProducerHandle]: the parameters of the producer. *)
Definition producer_params (s : KafkaWALSettings) : KConfParams :=
  [(lit "bootstrap.servers", s_str s brokers);
   (lit "queue.buffering.max.messages", writeIntText (s_int s queue_buffering_max_messages));
   (lit "queue.buffering.max.kbytes", writeIntText (s_int s queue_buffering_max_kbytes));
   (lit "queue.buffering.max.ms", writeIntText (s_int s queue_buffering_max_ms));
   (lit "message.send.max.retries", writeIntText (s_int s message_send_max_retries));
   (lit "retry.backoff.ms", writeIntText (s_int s retry_backoff_ms));
   (lit "enable.idempotence", bool_string (s_bool s enable_idempotence));
   (lit "statistics.interval.ms", writeIntText (s_int s statistic_internal_ms));
   (lit "message.max.bytes", writeIntText (s_int s message_max_bytes));
   (lit "message.timeout.ms", writeIntText (s_int s message_timeout_ms));
   (lit "security.protocol", s_str s security_protocol);
   (lit "topic.metadata.refresh.interval.ms", writeIntText (s_int s topic_metadata_refresh_interval_ms));
   (lit "compression.codec", s_str s compression_codec)]
  ++ (if decide (s_str s debug = []) then [] else [(lit "debug", s_str s debug)]).

(** [initProducerTopicHandle]: the parameters of the producer's topic. *)
Definition producer_topic_params (s : KafkaWALSettings) (ctx : KafkaWALContext) : KConfParams :=
  [(lit "request.required.acks",
    if s_bool s enable_idempotence then lit "all" else writeIntText (c_request_required_acks ctx));
   (lit "partitioner", lit "consistent_random");
   (lit "compression.codec", if c_client_side_compression ctx then lit "none" else lit "snappy")].

(** ** Producing *)

Record AppendResult : Type := mkAppend { ar_err : Z; ar_sn : Z; ar_partition : Z }.

Record DeliveryReport : Type := mkReport {
  dr_partition : Z;
  dr_offset : Z;
  dr_err : Z;
  dr_callback : bool;
  dr_delete_self : bool;
}.

Definition new_report (callback delete_self : bool) : DeliveryReport := mkReport (-1) (-1) 0 callback delete_self.

(** What librdkafka reports of a message: its error, whether its status is
    persisted, its partition and offset. *)
Record report_message : Type := mkReportMessage {
  rm_err : Z;
  rm_persisted : bool;
  rm_partition : Z;
  rm_offset : Z;
}.

(** [deliveryReport] for a message with a report: the report, the result passed
    to the callback if there is one, and whether the message failed. *)
Definition delivery_failed (m : report_message) : bool :=
  negb (rm_err m =? RdKafka.NO_ERROR) && negb (rm_persisted m).

Definition deliveryReport (dr : DeliveryReport) (m : report_message)
    : result (DeliveryReport * option AppendResult) :=
  err ← (if delivery_failed m then mapErrorCode (rm_err m) false else Ok ErrorCodes.OK);
  let dr := mkReport (rm_partition m) (rm_offset m) err (dr_callback dr) (dr_delete_self dr) in
  Ok (dr, if dr_callback dr then Some (mkAppend err (rm_offset m) (rm_partition m)) else None).

Definition handleError (err : Z) : result AppendResult :=
  code ← mapErrorCode err false; Ok (mkAppend code (-1) (-1)).

(** The loop of the synchronous [append] over the polls of the producer: each
    may have delivered the report of this message.  [None] is still waiting. *)
Fixpoint append_loop (dr : DeliveryReport) (polls : list (option report_message))
    : option (result AppendResult) :=
  match polls with
  | [] => None
  | ev :: polls =>
      match (match ev with None => Ok dr | Some m => '(dr, _) ← deliveryReport dr m; Ok dr end) with
      | Throw e => Some (Throw e)
      | Ok dr =>
          if negb (dr_err dr =? RdKafka.NO_ERROR) then Some (handleError (dr_err dr))
          else if negb (dr_offset dr =? -1)
          then Some (Ok (mkAppend 0 (dr_offset dr) (dr_partition dr)))
          else append_loop dr polls
      end
  end.

(** [append] waiting for the report; [produce_err] is what [doAppend] returns. *)
Definition append_sync (produce_err : Z) (polls : list (option report_message))
    : option (result AppendResult) :=
  if negb (produce_err =? RdKafka.NO_ERROR) then Some (handleError produce_err)
  else append_loop (new_report false false) polls.

(** [append] with a callback: the error code, and whether the report is handed
    over to librdkafka.  A failure is also logged through [handleError]. *)
Definition append_async (produce_err : Z) : result (Z * bool) :=
  if produce_err =? RdKafka.NO_ERROR
  then err ← mapErrorCode produce_err false; Ok (err, true)
  else
    _ ← handleError produce_err;
    err ← mapErrorCode produce_err false;
    Ok (err, false).

Section produce.
Context {Block : Type} `{!BlockCodec Block}.

(** The message [doAppend] hands to [rd_kafka_producev].  [hs] are the headers
    in the order the hash map iterates over them. *)
Record produced : Type := mkProduced {
  p_value : str;
  p_key : option str;
  p_partition : Z;
  p_headers : option (list (str * str));
}.

Definition doAppend (record : WalRecord Block) (hs : list (str * str)) (ctx : KafkaWALContext) : produced :=
  mkProduced
    (record_write record (c_client_side_compression ctx))
    (foldl (fun key h => if decide (h.1 = IDEMPOTENT_KEY) then Some h.2 else key) None hs)
    (to_signed 32 (wrap 32 (partition_key record)))
    (if decide (hs = []) then None else Some hs).
End produce.

(** ** Topics *)

(** The answers of librdkafka that [doTopic] looks at, in the order it asks. *)
Record topic_answers : Type := mkAnswers {
  ta_request_timeout : Z;
  ta_operation_timeout : Z;
  ta_event : bool;
  ta_event_error : Z;
  ta_result : bool;
  ta_topics : nat * bool;
  ta_topic_error : Z;
}.

(** [doTopic] as [create] and [remove] call it: with a topics function and no
    further validation.  The result tells whether the request was sent. *)
Definition doTopic (a : topic_answers) : result (Z * bool) :=
  if negb (ta_request_timeout a =? RdKafka.NO_ERROR)
  then err ← mapErrorCode (ta_request_timeout a) false; Ok (err, false)
  else if negb (ta_operation_timeout a =? RdKafka.NO_ERROR)
  then err ← mapErrorCode (ta_operation_timeout a) false; Ok (err, false)
  else if negb (ta_event a) then Ok (ErrorCodes.TIMEOUT_EXCEEDED, true)
  else if negb (ta_event_error a =? RdKafka.NO_ERROR)
  then err ← mapErrorCode (ta_event_error a) false; Ok (err, true)
  else if negb (ta_result a) then Ok (ErrorCodes.UNKNOWN_EXCEPTION, true)
  else if negb ((ta_topics a).1 =? 1)%nat || negb (ta_topics a).2 then Ok (ErrorCodes.UNKNOWN_EXCEPTION, true)
  else if negb (ta_topic_error a =? RdKafka.NO_ERROR)
  then err ← mapErrorCode (ta_topic_error a) false; Ok (err, true)
  else Ok (ErrorCodes.OK, true).

Definition positive_param (name : str) (z : Z) : KConfParams :=
  if z >? 0 then [(name, writeIntText z)] else [].

(** The configuration of a new topic. *)
Definition create_params (s : KafkaWALSettings) (ctx : KafkaWALContext) : KConfParams :=
  [(lit "compression.type", if c_client_side_compression ctx then lit "none" else lit "snappy");
   (lit "cleanup.policy", c_cleanup_policy ctx)]
  ++ positive_param (lit "retention.ms") (c_retention_ms ctx)
  ++ positive_param (lit "segment.bytes") (c_segment_bytes ctx)
  ++ positive_param (lit "segment.ms") (c_segment_ms ctx)
  ++ (if c_message_max_bytes ctx >? 0
      then [(lit "max.message.bytes", writeIntText (c_message_max_bytes ctx))]
      else [(lit "max.message.bytes", writeIntText (s_int s message_max_bytes))])
  ++ positive_param (lit "flush.messages") (c_flush_messages ctx)
  ++ positive_param (lit "flush.ms") (c_flush_ms ctx).

(** Setting the parameters in turn; [set_config] is librdkafka's answer. *)
Fixpoint set_params (set_config : str * str -> Z) (params : KConfParams) : result Z :=
  match params with
  | [] => Ok ErrorCodes.OK
  | param :: params =>
      let err := set_config param in
      if negb (err =? RdKafka.NO_ERROR) then mapErrorCode err false else set_params set_config params
  end.

(** [create]: [errstr] tells whether [rd_kafka_NewTopic_new] reported an error. *)
Definition create_topic (s : KafkaWALSettings) (ctx : KafkaWALContext) (errstr : bool)
    (set_config : str * str -> Z) (a : topic_answers) : result Z :=
  if errstr then Ok ErrorCodes.UNKNOWN_EXCEPTION
  else
    err ← set_params set_config (create_params s ctx);
    if negb (err =? ErrorCodes.OK) then Ok err
    else '(err, _) ← doTopic a; Ok err.

Definition remove_topic (a : topic_answers) : result Z := '(err, _) ← doTopic a; Ok err.

(** [describe]: [topics] are the names and partition counts of the metadata. *)
Record DescribeResult : Type := mkDescribe { de_err : Z; de_partitions : option Z }.

Fixpoint describe_loop (name : str) (topics : list (str * Z)) : DescribeResult :=
  match topics with
  | [] => mkDescribe ErrorCodes.RESOURCE_NOT_FOUND None
  | (topic, partition_cnt) :: topics =>
      if decide (name = topic) then
        if partition_cnt >? 0 then mkDescribe ErrorCodes.OK (Some partition_cnt)
        else mkDescribe ErrorCodes.RESOURCE_NOT_FOUND None
      else describe_loop name topics
  end.

Definition describe (name : str) (handle : bool) (metadata_err : Z) (topics : list (str * Z))
    : result DescribeResult :=
  if negb handle then Ok (mkDescribe ErrorCodes.UNKNOWN_EXCEPTION None)
  else if negb (metadata_err =? RdKafka.NO_ERROR)
  then err ← mapErrorCode metadata_err false; Ok (mkDescribe err None)
  else Ok (describe_loop name topics).

(** [cluster]: the brokers of the metadata. *)
Record KafkaNode : Type := mkKNode { kn_id : Z; kn_port : Z; kn_host : str }.
Record KafkaWALCluster : Type := mkCluster { kc_id : str; kc_controller_id : Z; kc_nodes : list KafkaNode }.

Definition cluster (s : KafkaWALSettings) (metadata_err : Z) (controller_id : Z)
    (brokers : list (Z * Z * str)) : option KafkaWALCluster :=
  if negb (metadata_err =? RdKafka.NO_ERROR) then None
  else Some (mkCluster (s_str s cluster_id) controller_id
               (map (fun '(id, port, host) => mkKNode id port host) brokers)).

(** ** What is produced is consumed *)

Section wire.
Context {Block : Type} `{!BlockCodec Block}.

(** The message a broker gives back for what was produced, at an offset. *)
Definition delivered (topic : str) (p : produced) (partition offset : Z) : rd_kafka_message :=
  mkMessage (p_value p) offset partition topic (option_map (map Some) (p_headers p)).

Lemma emplace_headers (hs : list (str * str)) (h : gmap str str) :
  NoDup hs.*1 -> (forall k, k ∈ hs.*1 -> h !! k = None /\ "000"%char ∉ k) ->
  foldl emplace_header h (map Some hs) = list_to_map hs ∪ h.
Proof.
  revert h. induction hs as [|[k v] hs IH]; intros h Hnd Hfresh; simpl.
  { by rewrite (left_id_L ∅ (∪)). }
  rewrite fmap_cons, NoDup_cons in Hnd. destruct Hnd as [Hk Hnd]. destruct (Hfresh k) as [Hn Hnul]; [apply list_elem_of_here|].
  rewrite c_str_id, Hn by done. rewrite IH; [|done|].
  - rewrite <- insert_union_l. symmetry. apply insert_union_r. by apply not_elem_of_list_to_map_1.
  - intros k' Hk'. destruct (Hfresh k') as [Hn' Hnul']; [by apply list_elem_of_further|].
    rewrite lookup_insert_ne by (intros ->; done). done.
Qed.

(** C38: a record appended to the log is the record consumed: the operation,
    the headers with the idempotent key, and the block survive, in whatever
    order the headers are sent and with or without compression; the sequence
    number is the offset.  Header names have no NUL, as they become C strings. *)
Theorem wal_round_trip (r : WalRecord Block) (hs : list (str * str)) (ctx : KafkaWALContext)
    (topic : str) (part offset : Z) :
  op_code r <> MAX_OPS_CODE -> hs ≡ₚ map_to_list (headers r) ->
  (forall k, k ∈ hs.*1 -> "000"%char ∉ k) -> 0 <= part < 2 ^ 31 ->
  kafkaMsgToRecord (delivered topic (doAppend r hs ctx) part offset) true
  = Ok (mkRecord (op_code r) (headers r) (block r) topic part offset).
Proof.
  intros Hop Hhs Hnul Hpart. unfold kafkaMsgToRecord, delivered, doAppend. cbn [payload p_value].
  rewrite record_read_write_lemma by done. cbn [mbind result_bind].
  unfold new_record. cbn [op_code headers block topic_name partition WalRecord.offset msg_headers p_headers].
  unfold wrap. rewrite Z.mod_small by lia. do 2 f_equal.
  assert (Hnd : NoDup hs.*1) by (rewrite Hhs; apply NoDup_fst_map_to_list).
  assert (Hmap : list_to_map hs = headers r).
  { rewrite <- (list_to_map_to_list (headers r)). by apply list_to_map_proper. }
  case_decide as He; cbn [option_map].
  - subst hs. by rewrite <- Hmap.
  - rewrite emplace_headers, Hmap; [by rewrite (right_id_L ∅ (∪))|done|].
    intros k Hk. split; [apply lookup_empty|by apply Hnul].
Qed.
End wire.

Lemma wal_round_trip_witness :
  let r := setIdempotentKey (lit "batch-7") (new_record ADD_DATA_BLOCK (lit "rows")) in
  kafkaMsgToRecord
    (delivered (lit "t") (doAppend r [(IDEMPOTENT_KEY, lit "batch-7")] (context_of (lit "t"))) 3 12) true
  = Ok (mkRecord ADD_DATA_BLOCK (headers r) (lit "rows") (lit "t") 3 12).
Proof.
  apply (wal_round_trip
           (setIdempotentKey (lit "batch-7") (new_record ADD_DATA_BLOCK (lit "rows")))).
  - done.
  - by vm_compute.
  - intros k ->%list_elem_of_singleton. apply (bool_decide_unpack _). by vm_compute.
  - lia.
Defined.

(** ** The reports of a synchronous append *)

(** Every poll up to the report of the message finds nothing. *)
Lemma append_loop_skip dr n polls :
  dr_err dr = RdKafka.NO_ERROR -> dr_offset dr = -1 ->
  append_loop dr (replicate n None ++ polls) = append_loop dr polls.
Proof. intros He Ho. induction n as [|n IH]; simpl; [done|]. by rewrite He, Ho. Qed.

(** The synchronous append answers with the partition and offset of a
    message that the broker has persisted with an offset, however many polls
    it takes. *)
Lemma append_sync_delivered (n : nat) (m : report_message) (polls : list (option report_message)) :
  delivery_failed m = false -> rm_offset m <> -1 ->
  append_sync RdKafka.NO_ERROR (replicate n None ++ Some m :: polls)
  = Some (Ok (mkAppend ErrorCodes.OK (rm_offset m) (rm_partition m))).
Proof.
  intros Hf Ho. unfold append_sync. cbn [Z.eqb negb RdKafka.NO_ERROR].
  rewrite append_loop_skip by done. unfold append_loop, deliveryReport. rewrite Hf. simpl.
  by rewrite (proj2 (Z.eqb_neq _ _) Ho).
Qed.

(** A persisted message whose report has no offset, as a retried message of
    the idempotent producer may have, keeps the synchronous append waiting for
    ever. *)
Lemma append_sync_no_offset (n k : nat) (m : report_message) :
  delivery_failed m = false -> rm_offset m = -1 ->
  append_sync RdKafka.NO_ERROR (replicate n None ++ Some m :: replicate k None) = None.
Proof.
  intros Hf Ho. unfold append_sync. cbn [Z.eqb negb RdKafka.NO_ERROR].
  rewrite append_loop_skip by done. cbn [append_loop]. unfold deliveryReport. rewrite Hf, Ho. simpl.
  rewrite <- (app_nil_r (replicate k None)). by rewrite append_loop_skip.
Qed.

(** The codes [mapErrorCode] returns are no Kafka codes, [BAD_ARGUMENTS] apart,
    whose number is that of [TOPIC_ALREADY_EXISTS]. *)
Lemma mapErrorCode_twice err code :
  mapErrorCode err false = Ok code -> code <> ErrorCodes.OK ->
  mapErrorCode code false
  = Ok (if err =? RdKafka.INVALID_ARG then ErrorCodes.RESOURCE_ALREADY_EXISTS else ErrorCodes.UNKNOWN_EXCEPTION).
Proof.
  unfold mapErrorCode. destruct (err =? RdKafka.NO_ERROR); [by intros [= <-]|].
  destruct (err =? RdKafka.INVALID_ARG) eqn:Hi.
  - apply Z.eqb_eq in Hi as ->. by intros [= <-] _.
  - repeat (match goal with |- context [if ?b then _ else _] => destruct b; [by first [intros [= <-] _|discriminate]|] end).
    by intros [= <-] _.
Qed.

(** A synchronous append that fails in delivery reports its error mapped
    twice: whatever the broker said, the caller sees [UNKNOWN_EXCEPTION], or
    [RESOURCE_ALREADY_EXISTS] for an invalid argument.  The asynchronous append
    hands the code itself to its callback. *)
Lemma append_sync_double_mapping (m : report_message) (code : Z) (polls : list (option report_message)) :
  delivery_failed m = true -> mapErrorCode (rm_err m) false = Ok code -> code <> ErrorCodes.OK ->
  append_sync RdKafka.NO_ERROR (Some m :: polls)
  = Some (Ok (mkAppend (if rm_err m =? RdKafka.INVALID_ARG then ErrorCodes.RESOURCE_ALREADY_EXISTS
                        else ErrorCodes.UNKNOWN_EXCEPTION) (-1) (-1)))
  /\ exists dr, deliveryReport (new_report true true) m
                = Ok (dr, Some (mkAppend code (rm_offset m) (rm_partition m))).
Proof.
  intros Hf Hm Hc. unfold append_sync. cbn [Z.eqb negb RdKafka.NO_ERROR append_loop].
  unfold deliveryReport. rewrite Hf, Hm. cbn [mbind result_bind dr_err dr_callback dr_offset new_report].
  apply Z.eqb_neq in Hc as Hc'. unfold ErrorCodes.OK in Hc'. unfold RdKafka.NO_ERROR. rewrite Hc'. cbn [negb].
  unfold handleError. rewrite (mapErrorCode_twice _ _ Hm Hc). split; [done|]. by eexists.
Qed.

Lemma append_sync_double_mapping_witness :
  append_sync RdKafka.NO_ERROR [Some (mkReportMessage RdKafka.MSG_SIZE_TOO_LARGE false 0 (-1001))]
  = Some (Ok (mkAppend ErrorCodes.UNKNOWN_EXCEPTION (-1) (-1))).
Proof.
  by apply (append_sync_double_mapping (mkReportMessage RdKafka.MSG_SIZE_TOO_LARGE false 0 (-1001))
              ErrorCodes.MSG_SIZE_TOO_LARGE []).
Defined.
