(* ===== verification/KafkaConsumer.v ===== *)
(** * KafkaConsumer: the two consumers of the log

    Models src/src/DistributedWriteAheadLog/KafkaWALSimpleConsumer.cpp, the
    consumer of one partition that a table with a dedicated subscription polls,
    and KafkaWALConsumer.cpp, the group consumer behind shared subscriptions.
    What librdkafka answers is an argument; the callback of the client is a
    state transformer that may throw. *)

From S2P Require Import Prelude TextFormat WalRecord KafkaConfig KafkaWal.

Local Open Scope Z_scope.

(** ** Parameters *)

Definition simple_consumer_params (s : KafkaWALSettings) : KConfParams :=
  [(lit "bootstrap.servers", s_str s brokers);
   (lit "group.id", s_str s group_id);
   (lit "enable.auto.commit", lit "true");
   (lit "auto.commit.interval.ms", writeIntText (s_int s auto_commit_interval_ms));
   (lit "fetch.message.max.bytes", writeIntText (s_int s fetch_message_max_bytes));
   (lit "fetch.wait.max.ms", writeIntText (s_int s fetch_wait_max_ms));
   (lit "enable.auto.offset.store", lit "false");
   (lit "enable.partition.eof", lit "false");
   (lit "queued.min.messages", writeIntText (s_int s queued_min_messages));
   (lit "queued.max.messages.kbytes", writeIntText (s_int s queued_max_messages_kbytes))]
  ++ (if decide (s_str s debug = []) then [] else [(lit "debug", s_str s debug)]).

Definition simple_topic_params (s : KafkaWALSettings) (ctx : KafkaWALContext) : KConfParams :=
  [(lit "enable.auto.commit", lit "true");
   (lit "auto.commit.interval.ms", writeIntText (s_int s auto_commit_interval_ms));
   (lit "auto.offset.reset", c_auto_offset_reset ctx);
   (lit "consume.callback.max.messages", writeIntText (c_consume_callback_max_messages ctx))].

Definition consumer_params (s : KafkaWALSettings) : KConfParams :=
  [(lit "bootstrap.servers", s_str s brokers);
   (lit "group.id", s_str s group_id);
   (lit "enable.auto.commit", lit "true");
   (lit "auto.commit.interval.ms", writeIntText (s_int s auto_commit_interval_ms));
   (lit "fetch.message.max.bytes", writeIntText (s_int s fetch_message_max_bytes));
   (lit "fetch.wait.max.ms", writeIntText (s_int s fetch_wait_max_ms));
   (lit "enable.auto.offset.store", lit "false");
   (lit "enable.partition.eof", lit "false");
   (lit "queued.min.messages", writeIntText (s_int s queued_min_messages));
   (lit "queued.max.messages.kbytes", writeIntText (s_int s queued_max_messages_kbytes));
   (lit "partition.assignment.strategy", lit "cooperative-sticky");
   (lit "session.timeout.ms", writeIntText (s_int s session_timeout_ms));
   (lit "max.poll.interval.ms", writeIntText (s_int s max_poll_interval_ms));
   (lit "auto.offset.reset", s_str s auto_offset_reset);
   (lit "check.crcs", bool_string (s_bool s check_crcs));
   (lit "statistics.interval.ms", writeIntText (s_int s statistic_internal_ms));
   (lit "security.protocol", s_str s security_protocol)]
  ++ (if decide (s_str s debug = []) then [] else [(lit "debug", s_str s debug)]).

(** A message as a consumer gets it: an error, or a message. *)
Record consumed : Type := mkConsumed { cm_err : Z; cm_msg : rd_kafka_message }.

Section simple.
Context {Block : Type} `{!BlockCodec Block}.

(** ** The simple consumer *)

Definition start_consuming (ctx : KafkaWALContext) : KafkaWALContext :=
  mkContext (c_topic ctx) (c_partition ctx) (c_offset ctx) (c_partitions ctx) (c_replication_factor ctx)
    (c_compression_codec ctx) (c_client_side_compression ctx) (c_retention_ms ctx) (c_retention_bytes ctx)
    (c_segment_bytes ctx) (c_segment_ms ctx) (c_flush_messages ctx) (c_flush_ms ctx) (c_cleanup_policy ctx)
    (c_request_required_acks ctx) (c_request_timeout_ms ctx) (c_auto_offset_reset ctx)
    (c_consume_callback_max_messages ctx) (c_consume_callback_max_rows ctx) (c_consume_callback_max_bytes ctx)
    (c_consume_callback_timeout_ms ctx) (c_message_max_bytes ctx) (c_topic_handle ctx) true.

(** [start] is the error of [rd_kafka_consume_start], if it fails. *)
Definition startConsumingIfNotYet (ctx : KafkaWALContext) (start : option Z) : result (Z * KafkaWALContext) :=
  if c_topic_consuming_started ctx then Ok (ErrorCodes.OK, ctx)
  else match start with
       | Some last_error => err ← mapErrorCode last_error false; Ok (err, ctx)
       | None => Ok (ErrorCodes.OK, start_consuming ctx)
       end.

Record WrappedData : Type := mkWrapped {
  w_records : list (WalRecord Block);
  w_current_bytes : Z;
  w_current_rows : Z;
}.

Definition msg_len (m : rd_kafka_message) : Z := Z.of_nat (length (payload m)).

(** The thresholds of a batch.  The counters are 64-bit: no run accumulates
    [2 ^ 63] bytes. *)
Definition batch_full (ctx : KafkaWALContext) (bytes rows : Z) : bool :=
  (bytes >=? c_consume_callback_max_bytes ctx) || (rows >=? c_consume_callback_max_rows ctx).

Section callback.
Context {C : Type}.

Definition kcallback (ctx : KafkaWALContext) (callback : option (C -> list (WalRecord Block) -> result C))
    (m : consumed) (w : WrappedData) (c : C) : result (WrappedData * C) :=
  if cm_err m =? RdKafka.NO_ERROR then
    if offset (cm_msg m) <? c_offset ctx then Ok (w, c)
    else
      record ← kafkaMsgToRecord (cm_msg m) false;
      let w := mkWrapped (w_records w ++ [record]) (w_current_bytes w + msg_len (cm_msg m))
                 (w_current_rows w + Z.of_nat (block_rows (block record))) in
      if batch_full ctx (w_current_bytes w) (w_current_rows w) then
        match callback with
        | None => Ok (w, c)
        | Some f => c ← f c (w_records w); Ok (mkWrapped [] 0 0, c)
        end
      else Ok (w, c)
  else Ok (w, c).

Fixpoint consume_messages (ctx : KafkaWALContext) (callback : option (C -> list (WalRecord Block) -> result C))
    (ms : list consumed) (w : WrappedData) (c : C) : result (WrappedData * C) :=
  match ms with
  | [] => Ok (w, c)
  | m :: ms => '(w, c) ← kcallback ctx callback m w c; consume_messages ctx callback ms w c
  end.

(** [consume] with a callback: [failed] is the error of
    [rd_kafka_consume_callback], if it fails. *)
Definition consume_callback (ctx : KafkaWALContext) (start failed : option Z)
    (callback : option (C -> list (WalRecord Block) -> result C)) (ms : list consumed) (c : C)
    : result (Z * KafkaWALContext * C) :=
  '(err, ctx) ← startConsumingIfNotYet ctx start;
  if negb (err =? 0) then Ok (err, ctx, c)
  else
    '(w, c) ← consume_messages ctx callback ms (mkWrapped [] 0 0) c;
    match failed with
    | Some last_error => err ← mapErrorCode last_error false; Ok (err, ctx, c)
    | None =>
        if decide (w_records w = []) then Ok (ErrorCodes.OK, ctx, c)
        else match callback with
             | None => Ok (ErrorCodes.OK, ctx, c)
             | Some f => c ← f c (w_records w); Ok (ErrorCodes.OK, ctx, c)
             end
    end.
End callback.

(** [consume] of a batch: the records, and the messages that are destroyed. *)
Fixpoint consume_batch_loop (ctx : KafkaWALContext) (ms : list consumed)
    : result (list (WalRecord Block) * list consumed) :=
  match ms with
  | [] => Ok ([], [])
  | m :: ms =>
      if cm_err m =? RdKafka.NO_ERROR then
        if offset (cm_msg m) <? c_offset ctx then consume_batch_loop ctx ms
        else
          record ← kafkaMsgToRecord (cm_msg m) false;
          '(records, destroyed) ← consume_batch_loop ctx ms;
          Ok (record :: records, m :: destroyed)
      else
        '(records, destroyed) ← consume_batch_loop ctx ms;
        Ok (records, m :: destroyed)
  end.

Definition consume_batch (ctx : KafkaWALContext) (start : option Z) (last_error : Z)
    (res : option (list consumed)) : result (Z * KafkaWALContext * (list (WalRecord Block) * list consumed)) :=
  '(err, ctx) ← startConsumingIfNotYet ctx start;
  if negb (err =? 0) then err ← mapErrorCode last_error false; Ok (err, ctx, ([], []))
  else match res with
       | Some ms => r ← consume_batch_loop ctx ms; Ok (0, ctx, r)
       | None => err ← mapErrorCode last_error false; Ok (err, ctx, ([], []))
       end.
End simple.
Arguments WrappedData Block : clear implicits.

(** [stopConsume] and [commit]: [failed] is librdkafka's error. *)
Definition simple_stopConsume (ctx : KafkaWALContext) (failed : option Z) : result Z :=
  if negb (c_topic_handle ctx) then Ok ErrorCodes.RESOURCE_NOT_INITED
  else match failed with
       | Some last_error => mapErrorCode last_error false
       | None => Ok ErrorCodes.OK
       end.

(** [offset_store] is [rd_kafka_offset_store]: the error it returns. *)
Definition simple_commit (offset_store : Z -> Z -> Z) (offset : Z) (ctx : KafkaWALContext) : result Z :=
  if negb (c_topic_handle ctx) then Ok ErrorCodes.RESOURCE_NOT_INITED
  else
    let err := offset_store (c_partition ctx) offset in
    if negb (err =? RdKafka.NO_ERROR) then mapErrorCode err false else Ok ErrorCodes.OK.

(** ** The group consumer *)

Record TopicPartitionOffset : Type := mkTPO { tpo_topic : str; tpo_partition : Z; tpo_offset : Z }.

(** A librdkafka error: its code and whether it may be retried. *)
Definition map_kafka_error (err : option (Z * bool)) : result Z :=
  match err with
  | Some (code, retriable) => mapErrorCode code retriable
  | None => Ok ErrorCodes.OK
  end.

(** [assign] and [unassign] are [rd_kafka_incremental_assign] and
    [rd_kafka_incremental_unassign] on the list that is built; a name is passed
    as a C string, and what is unassigned has no offset. *)
Definition addSubscriptions (assign : list (str * Z * Z) -> option (Z * bool))
    (partitions : list TopicPartitionOffset) : result Z :=
  map_kafka_error (assign (map (fun p => (c_str (tpo_topic p), tpo_partition p, tpo_offset p)) partitions)).

Definition removeSubscriptions (unassign : list (str * Z) -> option (Z * bool))
    (partitions : list TopicPartitionOffset) : result Z :=
  map_kafka_error (unassign (map (fun p => (c_str (tpo_topic p), tpo_partition p)) partitions)).

(** [rd_kafka_offsets_store] stores the offset to resume at, hence the [+ 1]. *)
Definition group_commit (offsets_store : list (str * Z * Z) -> Z) (tpos : list TopicPartitionOffset) : result Z :=
  let err := offsets_store (map (fun p => (c_str (tpo_topic p), tpo_partition p, tpo_offset p + 1)) tpos) in
  if negb (err =? RdKafka.NO_ERROR) then mapErrorCode err false else Ok ErrorCodes.OK.

(** [stopConsume] closes the consumer once. *)
Definition group_stopConsume (consume_stopped : bool) (close_err : Z) : result (Z * bool) :=
  if consume_stopped then Ok (ErrorCodes.INVALID_OPERATION, true)
  else if negb (close_err =? RdKafka.NO_ERROR)
  then err ← mapErrorCode close_err false; Ok (err, true)
  else Ok (ErrorCodes.OK, true).

Section group.
Context {Block : Type} `{!BlockCodec Block}.

Record ConsumeResult : Type := mkConsume { cr_err : Z; cr_records : list (WalRecord Block) }.

(** The loop of [consume].  [polls] gives, for each call of
    [rd_kafka_consumer_poll], the message it returns, if any, and the time after
    it; a call that never returns is the end of [polls]. *)
Fixpoint group_consume_loop (count : nat) (abs_time : Z) (polls : list (option consumed * Z))
    (records : list (WalRecord Block)) : option (result ConsumeResult) :=
  match count, polls with
  | O, _ => Some (Ok (mkConsume 0 records))
  | S _, [] => None
  | S count, (msg, now) :: polls =>
      let continue records :=
        if now >=? abs_time then Some (Ok (mkConsume 0 records))
        else group_consume_loop count abs_time polls records in
      match msg with
      | None => continue records
      | Some m =>
          if cm_err m =? RdKafka.NO_ERROR then
            match kafkaMsgToRecord (cm_msg m) true with
            | Throw e => Some (Throw e)
            | Ok record => continue (records ++ [record])
            end
          else Some (err ← mapErrorCode (cm_err m) false; Ok (mkConsume err records))
      end
  end.

Definition group_consume (count : nat) (timeout_ms now : Z) (polls : list (option consumed * Z))
    : option (result ConsumeResult) :=
  group_consume_loop count (now + timeout_ms) polls [].
End group.
Arguments ConsumeResult Block : clear implicits.

(** ** What the simple consumer delivers *)

Section delivery.
Context {Block : Type} `{!BlockCodec Block}.
Implicit Types (ctx : KafkaWALContext) (ms pend : list consumed) (recs : list (WalRecord Block)).

(** The messages a context asks for. *)
Definition wanted ctx (m : consumed) : Prop := cm_err m = RdKafka.NO_ERROR /\ c_offset ctx <= offset (cm_msg m).

#[export] Instance wanted_dec ctx m : Decision (wanted ctx m).
Proof. unfold wanted. apply _. Defined.

Definition decodes (copy_topic : bool) (m : consumed) (r : WalRecord Block) : Prop :=
  kafkaMsgToRecord (cm_msg m) copy_topic = Ok r.

Definition bytes_of ms : Z := foldr (fun m z => msg_len (cm_msg m) + z) 0 ms.
Definition rows_of recs : Z := foldr (fun r z => Z.of_nat (block_rows (block r)) + z) 0 recs.

(** A batch decodes its messages and has not reached a threshold before its last
    message. *)
Definition batch_pending ctx ms recs : Prop :=
  Forall2 (decodes false) ms recs
  /\ forall ms' m recs' r, ms = ms' ++ [m] -> recs = recs' ++ [r] -> ms' <> [] ->
       batch_full ctx (bytes_of ms') (rows_of recs') = false.

(** A batch that is delivered before the last one has reached it. *)
Definition batch_due ctx ms recs : Prop :=
  batch_pending ctx ms recs /\ ms <> [] /\ batch_full ctx (bytes_of ms) (rows_of recs) = true.

Definition not_due ctx ms recs : Prop :=
  batch_pending ctx ms recs /\ (ms <> [] -> batch_full ctx (bytes_of ms) (rows_of recs) = false).

(** A client that collects the batches. *)
Definition collect (bs : list (list (WalRecord Block))) recs : result (list (list (WalRecord Block))) :=
  Ok (bs ++ [recs]).

Lemma bytes_of_snoc ms m : bytes_of (ms ++ [m]) = bytes_of ms + msg_len (cm_msg m).
Proof. induction ms as [|m' ms IH]; simpl; [lia|]. fold (bytes_of (ms ++ [m])) (bytes_of ms). lia. Qed.

Lemma rows_of_snoc recs r : rows_of (recs ++ [r]) = rows_of recs + Z.of_nat (block_rows (block r)).
Proof. induction recs as [|r' recs IH]; simpl; [lia|]. fold (rows_of (recs ++ [r])) (rows_of recs). lia. Qed.

Lemma not_due_nil ctx : not_due ctx [] [].
Proof. split; [split; [constructor|]|done]. by intros [] ? ? ?. Qed.

(** One more message makes a pending batch. *)
Lemma batch_pending_snoc ctx ms recs m r :
  not_due ctx ms recs -> decodes false m r -> batch_pending ctx (ms ++ [m]) (recs ++ [r]).
Proof.
  intros [[Hf _] Hn] Hd. split; [apply Forall2_app; [done|by constructor]|].
  intros ms' m' recs' r' [-> ->]%app_inj_tail [-> ->]%app_inj_tail Hne. by apply Hn.
Qed.

Definition wrapped_of ms recs : WrappedData Block := mkWrapped recs (bytes_of ms) (rows_of recs).

(** One call of the callback: the message is ignored, or joins the pending batch, which is
    delivered when it is due. *)
Lemma kcallback_collect ctx m pend recs bs :
  not_due ctx pend recs -> (wanted ctx m -> exists r, decodes false m r) ->
  exists del pend' recs',
    kcallback ctx (Some collect) m (wrapped_of pend recs) bs = Ok (wrapped_of pend' recs', bs ++ del.*2)
    /\ pend ++ (if decide (wanted ctx m) then [m] else []) = concat del.*1 ++ pend'
    /\ Forall (fun b => batch_due ctx b.1 b.2) del /\ not_due ctx pend' recs'.
Proof.
  intros Hn Hdec. unfold kcallback. case_decide as Hw.
  - destruct (Hdec Hw) as [r Hr]. destruct Hw as [-> Ho]. rewrite Z.eqb_refl.
    rewrite (proj2 (Z.ltb_ge _ _) Ho). unfold decodes in Hr. rewrite Hr. cbn [mbind result_bind].
    change (w_records (wrapped_of pend recs)) with recs.
    change (w_current_bytes (wrapped_of pend recs)) with (bytes_of pend).
    change (w_current_rows (wrapped_of pend recs)) with (rows_of recs). cbn [w_records w_current_bytes w_current_rows]. rewrite <- bytes_of_snoc, <- rows_of_snoc.
    pose proof (batch_pending_snoc _ _ _ _ _ Hn Hr) as Hp. destruct (batch_full ctx _ _) eqn:Hfull.
    + exists [(pend ++ [m], recs ++ [r])], [], []. cbn. rewrite !app_nil_r.
      split_and!; [done|done| |apply not_due_nil]. apply Forall_singleton. split; [done|]. by split; [destruct pend|].
    + exists [], (pend ++ [m]), (recs ++ [r]). rewrite !app_nil_r. by split_and!.
  - exists [], pend, recs. rewrite !app_nil_r. split_and!; try done.
    destruct (cm_err m =? RdKafka.NO_ERROR) eqn:He; [|done]. apply Z.eqb_eq in He.
    destruct (offset (cm_msg m) <? c_offset ctx) eqn:Ho; [done|]. apply Z.ltb_ge in Ho. by destruct Hw.
Qed.

Lemma consume_messages_collect ctx ms pend recs bs :
  not_due ctx pend recs -> Forall (fun m => wanted ctx m -> exists r, decodes false m r) ms ->
  exists del pend' recs',
    consume_messages ctx (Some collect) ms (wrapped_of pend recs) bs = Ok (wrapped_of pend' recs', bs ++ del.*2)
    /\ pend ++ filter (wanted ctx) ms = concat del.*1 ++ pend'
    /\ Forall (fun b => batch_due ctx b.1 b.2) del /\ not_due ctx pend' recs'.
Proof.
  revert pend recs bs. induction ms as [|m ms IH]; intros pend recs bs Hn Hdec.
  { exists [], pend, recs. rewrite !app_nil_r. by split_and!. }
  apply Forall_cons in Hdec as [Hm Hdec]. cbn [consume_messages].
  destruct (kcallback_collect ctx m pend recs bs Hn Hm) as (del1 & pend1 & recs1 & -> & Hp1 & Hd1 & Hn1).
  cbn [mbind result_bind].
  destruct (IH pend1 recs1 (bs ++ del1.*2) Hn1 Hdec) as (del2 & pend2 & recs2 & -> & Hp2 & Hd2 & Hn2).
  exists (del1 ++ del2), pend2, recs2. rewrite !fmap_app, concat_app, <- !(assoc_L (++)), <- Hp2.
  split_and!; [done| |by apply Forall_app|done].
  rewrite (assoc_L (++) _ pend1), <- Hp1, <- (assoc_L (++)). f_equal. rewrite filter_cons. by case_decide.
Qed.

(** A poll of the simple consumer hands its client every message of the
    partition at or after the offset the client asked for, exactly once and in
    order, and nothing else; every batch is the shortest that reaches the
    threshold of bytes or rows, the last one apart, which may be shorter. *)
Lemma consume_callback_delivers (ctx : KafkaWALContext) (ms : list consumed) :
  Forall (fun m => wanted ctx m -> exists r, decodes false m r) ms ->
  exists ctx' del lms lrecs,
    consume_callback ctx None None (Some collect) ms []
    = Ok (ErrorCodes.OK, ctx', del.*2 ++ (if decide (lrecs = []) then [] else [lrecs]))
    /\ concat del.*1 ++ lms = filter (wanted ctx) ms
    /\ Forall (fun b => batch_due ctx b.1 b.2) del /\ not_due ctx lms lrecs.
Proof.
  intros Hdec. unfold consume_callback, startConsumingIfNotYet.
  set (ctx' := if c_topic_consuming_started ctx then ctx else start_consuming ctx).
  replace (if c_topic_consuming_started ctx then Ok (ErrorCodes.OK, ctx) else Ok (ErrorCodes.OK, start_consuming ctx))
    with (Ok (ErrorCodes.OK, ctx')) by (unfold ctx'; by destruct (c_topic_consuming_started ctx)).
  cbn [mbind result_bind ErrorCodes.OK Z.eqb negb].
  destruct (consume_messages_collect ctx' ms [] [] []) as (del & pend & recs & Hc & Hp & Hd & Hn).
  { apply not_due_nil. }
  { eapply Forall_impl; [exact Hdec|]. intros m Hm Hw. apply Hm. revert Hw. unfold ctx'.
    by destruct (c_topic_consuming_started ctx). }
  change (mkWrapped [] 0 0) with (wrapped_of [] []). rewrite Hc. cbn [mbind result_bind wrapped_of w_records].
  exists ctx', del, pend, recs. revert Hp Hd Hn. unfold ctx'.
  destruct (c_topic_consuming_started ctx); intros Hp Hd Hn; case_decide; simpl; rewrite ?app_nil_r; done.
Qed.

(** A batch poll of the simple consumer returns the records of the messages
    asked for, in order, but destroys only the messages it does not ignore: a
    message below the offset is never given back to librdkafka. *)
Lemma consume_batch_loop_spec (ctx : KafkaWALContext) (ms : list consumed) (recs : list (WalRecord Block)) :
  Forall2 (decodes false) (filter (wanted ctx) ms) recs ->
  consume_batch_loop ctx ms
  = Ok (recs, filter (fun m => ~ (cm_err m = RdKafka.NO_ERROR /\ offset (cm_msg m) < c_offset ctx)) ms).
Proof.
  revert recs. induction ms as [|m ms IH]; intros recs Hr; [by inversion Hr|].
  cbn [consume_batch_loop]. rewrite filter_cons in Hr. rewrite filter_cons.
  destruct (Z.eqb_spec (cm_err m) RdKafka.NO_ERROR) as [He|He].
  - destruct (Z.ltb_spec (offset (cm_msg m)) (c_offset ctx)) as [Ho|Ho].
    + rewrite decide_False in Hr by (unfold wanted; lia). rewrite (decide_False (P := ~ _)) by tauto. by apply IH.
    + rewrite decide_True in Hr by done. rewrite (decide_True (P := ~ _)) by lia.
      inversion Hr as [|? r ? recs' Hm Hr']; subst. unfold decodes in Hm. rewrite Hm. cbn [mbind result_bind].
      by rewrite (IH _ Hr').
  - rewrite decide_False in Hr by (unfold wanted; tauto). rewrite (decide_True (P := ~ _)) by tauto.
    by rewrite (IH _ Hr).
Qed.

(** ** What the group consumer returns *)

(** The messages of some polls. *)
Definition polled (polls : list (option consumed * Z)) : list consumed := omap fst polls.

Definition good (m : consumed) : Prop := cm_err m = RdKafka.NO_ERROR.

#[export] Instance good_dec m : Decision (good m).
Proof. unfold good. apply _. Defined.

Lemma group_consume_loop_spec count abs_time polls recs0 :
  (count <= length polls)%nat ->
  Forall (fun m => if decide (good m) then exists r, decodes true m r else exists code, mapErrorCode (cm_err m) false = Ok code)
    (polled polls) ->
  exists k err recs, (k <= count)%nat
    /\ group_consume_loop count abs_time polls recs0 = Some (Ok (mkConsume err (recs0 ++ recs)))
    /\ exists ms, Forall2 (decodes true) ms recs
       /\ ((err = 0 /\ polled (take k polls) = ms)
           \/ (exists m, ~ good m /\ mapErrorCode (cm_err m) false = Ok err /\ polled (take k polls) = ms ++ [m])).
Proof.
  revert polls recs0. induction count as [|count IH]; intros polls recs0 Hlen Hdec.
  { exists 0%nat, 0, []. rewrite app_nil_r. split_and!; [done|by destruct polls|]. exists []. by split; [constructor|left]. }
  destruct polls as [|[[m|] now] polls]; simpl in Hlen; [lia| |].
  - change (polled ((Some m, now) :: polls)) with (m :: polled polls) in Hdec.
    apply Forall_cons in Hdec as [Hm Hdec]. cbn [group_consume_loop].
    destruct (Z.eqb_spec (cm_err m) RdKafka.NO_ERROR) as [He|He].
    + rewrite decide_True in Hm by done. destruct Hm as [r Hr]. pose proof Hr as Hr'. unfold decodes in Hr'.
      rewrite Hr'. destruct (now >=? abs_time).
      { exists 1%nat, 0, [r]. split_and!; [lia|done|]. exists [m]. split; [by repeat constructor|by left]. }
      destruct (IH polls (recs0 ++ [r])) as (k & err & recs & Hk & -> & ms & Hf & Hcase); [lia|done|].
      exists (S k), err, (r :: recs). split_and!; [lia|by rewrite <- (assoc_L (++))|].
      exists (m :: ms). split; [by constructor|]. destruct Hcase as [[-> <-]|(m' & ? & ? & Hp)]; [by left|right].
      exists m'. split_and!; [done|done|]. simpl. by rewrite <- Hp.
    + rewrite decide_False in Hm by done. destruct Hm as [code Hc]. rewrite Hc. cbn [mbind result_bind].
      exists 1%nat, code, []. rewrite app_nil_r. split_and!; [lia|done|]. exists []. split; [constructor|right].
      exists m. by split_and!.
  - cbn [group_consume_loop]. destruct (now >=? abs_time).
    { exists 1%nat, 0, []. rewrite app_nil_r. split_and!; [lia|done|]. exists []. split; [constructor|by left]. }
    destruct (IH polls recs0) as (k & err & recs & Hk & -> & ms & Hf & Hcase); [lia|done|].
    exists (S k), err, recs. split_and!; [lia|done|]. by exists ms.
Qed.

(** A poll of the group consumer ends after at most [count] calls and loses
    nothing it took from librdkafka: its records are the messages of those
    calls, in order, also when the last message is an error, which it returns
    with the records. *)
Lemma group_consume_no_loss (count : nat) (timeout_ms now : Z) (polls : list (option consumed * Z)) :
  (count <= length polls)%nat ->
  Forall (fun m => if decide (good m) then exists r, decodes true m r else exists code, mapErrorCode (cm_err m) false = Ok code)
    (polled polls) ->
  exists k err recs, (k <= count)%nat
    /\ group_consume count timeout_ms now polls = Some (Ok (mkConsume err recs))
    /\ exists ms, Forall2 (decodes true) ms recs
       /\ ((err = 0 /\ polled (take k polls) = ms)
           \/ (exists m, ~ good m /\ mapErrorCode (cm_err m) false = Ok err /\ polled (take k polls) = ms ++ [m])).
Proof. intros Hlen Hdec. by apply (group_consume_loop_spec count (now + timeout_ms) polls []). Qed.
End delivery.

(** A partition whose messages carry blocks of one byte per row. *)
Definition example_message (data : string) (o : Z) : consumed :=
  mkConsumed RdKafka.NO_ERROR
    (mkMessage (record_write (new_record ADD_DATA_BLOCK (lit data)) false) o 0 (lit "t") None).
Definition example_error : consumed := mkConsumed RdKafka.UNKNOWN_PARTITION (mkMessage [] 0 0 (lit "t") None).
Definition example_record (data : string) (topic : str) (o : Z) : WalRecord str :=
  mkRecord ADD_DATA_BLOCK ∅ (lit data) topic 0 o.

Lemma example_decodes data o :
  decodes false (example_message data o) (example_record data [] o)
  /\ decodes true (example_message data o) (example_record data (lit "t") o).
Proof.
  unfold decodes, kafkaMsgToRecord, example_message, cm_msg, payload.
  by rewrite record_read_write_lemma by done.
Qed.

Lemma consume_callback_delivers_witness :
  let ctx := context_at (lit "t") 0 5 in
  let ms := [example_message "a" 4; example_message "bb" 5; example_error; example_message "c" 6] in
  exists ctx' del lms lrecs,
    consume_callback (Block := str) ctx None None (Some collect) ms []
    = Ok (ErrorCodes.OK, ctx', del.*2 ++ (if decide (lrecs = []) then [] else [lrecs]))
    /\ concat del.*1 ++ lms = filter (wanted ctx) ms
    /\ Forall (fun b => batch_due ctx b.1 b.2) del /\ not_due ctx lms lrecs.
Proof.
  apply (consume_callback_delivers (Block := str) (context_at (lit "t") 0 5)
           [example_message "a" 4; example_message "bb" 5; example_error; example_message "c" 6]).
  repeat (apply Forall_cons; split); [..|by apply Forall_nil]; intros Hw;
    try (eexists; apply (proj1 (example_decodes _ _))).
  by destruct Hw.
Defined.

Lemma group_consume_no_loss_witness :
  let polls := [(Some (example_message "a" 4), 10); (None, 20); (Some example_error, 30)] in
  exists k err recs, (k <= 3)%nat
    /\ group_consume (Block := str) 3 1000 0 polls = Some (Ok (mkConsume err recs))
    /\ exists ms, Forall2 (decodes true) ms recs
       /\ ((err = 0 /\ polled (take k polls) = ms)
           \/ (exists m, ~ good m /\ mapErrorCode (cm_err m) false = Ok err /\ polled (take k polls) = ms ++ [m])).
Proof.
  apply (group_consume_no_loss (Block := str) 3 1000 0
           [(Some (example_message "a" 4), 10); (None, 20); (Some example_error, 30)]); [done|].
  apply Forall_cons; split; [|apply Forall_cons; split; [|by apply Forall_nil]].
  - rewrite decide_True by done. eexists. apply (proj2 (example_decodes _ _)).
  - by exists ErrorCodes.RESOURCE_NOT_FOUND.
Defined.
