(* ===== verification/Multiplexer.v ===== *)
(** * Multiplexer: shared subscriptions

    Models src/src/DistributedWriteAheadLog/KafkaWALConsumerMultiplexer.{h,cpp}:
    one group consumer whose records are routed to the callbacks of the topics.
    A [CallbackContext] is shared: the map of callbacks refers to it, and so does
    the poller while it calls it, without the lock.  Contexts are
    cells of a store, and the client's calls interleave with the poller's steps
    at the grain of the lock and of the poller's reads. *)

From S2P Require Import Prelude TextFormat WalRecord KafkaConfig KafkaWal KafkaConsumer.

Local Open Scope Z_scope.

(** ** State *)

(** A callback is a function pointer and [data] a pointer: addresses. *)
Record CallbackContext : Type := mkCtx {
  cc_callback : nat;
  cc_data : nat;
  cc_partitions : list Z;
  cc_last_call_ts : Z;
}.

Record mux_state : Type := mkMux {
  callbacks : gmap str nat;
  contexts : list CallbackContext;
}.

Definition init_mux : mux_state := mkMux ∅ [].

Definition context_at_topic (m : mux_state) (t : str) : option CallbackContext :=
  id ← callbacks m !! t; contexts m !! id.

(** ** Operations under the lock *)

(** [addSubscription]: the code, and the context of which the client gets a weak
    pointer. *)
Definition addSubscription (m : mux_state) (tpo : TopicPartitionOffset) (callback data : nat) (now : Z)
    (assign : list (str * Z * Z) -> option (Z * bool)) : result (mux_state * (Z * option nat)) :=
  let found := id ← callbacks m !! tpo_topic tpo; ctx ← contexts m !! id; Some (id, ctx) in
  if match found with Some (_, ctx) => bool_decide (tpo_partition tpo ∈ cc_partitions ctx) | None => false end
  then Ok (m, (ErrorCodes.INVALID_OPERATION, None))
  else
    res ← addSubscriptions assign [tpo];
    if negb (res =? ErrorCodes.OK) then Ok (m, (res, None))
    else match found with
         | None =>
             let id := length (contexts m) in
             Ok (mkMux (<[tpo_topic tpo := id]> (callbacks m))
                   (contexts m ++ [mkCtx callback data [tpo_partition tpo] now]), (ErrorCodes.OK, Some id))
         | Some (id, ctx) =>
             Ok (mkMux (callbacks m)
                   (<[id := mkCtx callback data (cc_partitions ctx ++ [tpo_partition tpo]) (cc_last_call_ts ctx)]>
                      (contexts m)), (ErrorCodes.OK, Some id))
         end.

(** [std::find] and [erase] of the first occurrence. *)
Fixpoint erase_first (p : Z) (l : list Z) : list Z :=
  match l with
  | [] => []
  | q :: l => if decide (q = p) then l else q :: erase_first p l
  end.

Definition removeSubscription (m : mux_state) (tpo : TopicPartitionOffset)
    (unassign : list (str * Z) -> option (Z * bool)) : result (mux_state * Z) :=
  match (id ← callbacks m !! tpo_topic tpo; ctx ← contexts m !! id; Some (id, ctx)) with
  | None => Ok (m, ErrorCodes.INVALID_OPERATION)
  | Some (id, ctx) =>
      if decide (tpo_partition tpo ∈ cc_partitions ctx) then
        res ← removeSubscriptions unassign [tpo];
        if negb (res =? ErrorCodes.OK) then Ok (m, res)
        else
          let partitions := erase_first (tpo_partition tpo) (cc_partitions ctx) in
          let contexts' := <[id := mkCtx (cc_callback ctx) (cc_data ctx) partitions (cc_last_call_ts ctx)]> (contexts m) in
          Ok (mkMux (if decide (partitions = []) then delete (tpo_topic tpo) (callbacks m) else callbacks m) contexts',
              ErrorCodes.OK)
      else Ok (m, ErrorCodes.INVALID_OPERATION)
  end.

Definition mux_commit (offsets_store : list (str * Z * Z) -> Z) (tpo : TopicPartitionOffset) : result Z :=
  group_commit offsets_store [tpo].

(** The contexts that [flush] calls; [now] is the clock when a topic is visited. *)
Definition due_callbacks (m : mux_state) (order : list (str * nat)) (threshold_ms : Z) (now : str -> Z) : list nat :=
  omap (fun '(t, id) =>
          ctx ← contexts m !! id;
          if now t - cc_last_call_ts ctx >=? threshold_ms then Some id else None) order.

Definition set_last_call (id : nat) (now : Z) (m : mux_state) : mux_state :=
  mkMux (callbacks m)
    (alter (fun ctx => mkCtx (cc_callback ctx) (cc_data ctx) (cc_partitions ctx) now) id (contexts m)).

Section routing.
Context {Block : Type}.
Notation record := (WalRecord Block).

(** [handleResult] groups the records by topic. *)
Definition push_record (groups : gmap str (list record)) (r : record) : gmap str (list record) :=
  <[topic r := default [] (groups !! topic r) ++ [r]]> groups.

Definition categorize (records : list record) : gmap str (list record) := foldl push_record ∅ records.

(** A call of a callback: the context, the function and data, and the records. *)
Record call : Type := mkCall { call_ctx : nat; call_callback : nat; call_data : nat; call_records : list record }.

(** [handleResult] when no client call interleaves: the groups in the order of
    the hash map, and the clock after each call. *)
Fixpoint handleResult (m : mux_state) (groups : list (str * list record)) (now : str -> Z) : mux_state * list call :=
  match groups with
  | [] => (m, [])
  | (t, rs) :: groups =>
      match (id ← callbacks m !! t; ctx ← contexts m !! id; Some (id, ctx)) with
      | Some (id, ctx) =>
          let '(m, calls) := handleResult (set_last_call id (now t) m) groups now in
          (m, mkCall id (cc_callback ctx) (cc_data ctx) rs :: calls)
      | None => handleResult m groups now
      end
  end.

(** ** The poller and its clients *)

(** Where the poller is: between polls; routing groups; holding a context
    it looked up, having read its function or not; calling the due
    contexts of a flush, all of which it holds till the end. *)
Inductive poller : Type :=
| Idle
| Handling (groups : list (str * list record))
| Holding (id : nat) (rs : list record) (groups : list (str * list record))
| Loaded (id : nat) (callback : nat) (rs : list record) (groups : list (str * list record))
| Flushing (held todo : list nat)
| Flush_loaded (held : list nat) (id : nat) (callback : nat) (todo : list nat).

(** Between polls the poller may route a result or flush at any time: the code
    flushes when ten seconds have passed.  [assigned] is what librdkafka has been told to consume and [calls] the calls
    made, both history variables. *)
Record system : Type := mkSystem {
  sys_mux : mux_state;
  sys_poller : poller;
  sys_assigned : list (str * Z);
  sys_calls : list call;
}.

Inductive mux_step (threshold_ms : Z) : system -> system -> Prop :=
| step_add m p a c tpo callback data now assign m' err ctx :
    addSubscription m tpo callback data now assign = Ok (m', (err, ctx)) ->
    mux_step threshold_ms (mkSystem m p a c)
      (mkSystem m' p (if decide (err = ErrorCodes.OK) then a ++ [(tpo_topic tpo, tpo_partition tpo)] else a) c)
| step_remove m p a c tpo unassign m' err :
    removeSubscription m tpo unassign = Ok (m', err) ->
    mux_step threshold_ms (mkSystem m p a c)
      (mkSystem m' p (if decide (err = ErrorCodes.OK)
                      then filter (fun tp => tp <> (tpo_topic tpo, tpo_partition tpo)) a else a) c)
| step_result m a c records groups :
    groups ≡ₚ map_to_list (categorize records) ->
    mux_step threshold_ms (mkSystem m Idle a c) (mkSystem m (Handling groups) a c)
| step_lookup m a c t rs groups id :
    callbacks m !! t = Some id ->
    mux_step threshold_ms (mkSystem m (Handling ((t, rs) :: groups)) a c) (mkSystem m (Holding id rs groups) a c)
| step_skip m a c t rs groups :
    callbacks m !! t = None ->
    mux_step threshold_ms (mkSystem m (Handling ((t, rs) :: groups)) a c) (mkSystem m (Handling groups) a c)
| step_load m a c id ctx rs groups :
    contexts m !! id = Some ctx ->
    mux_step threshold_ms (mkSystem m (Holding id rs groups) a c)
      (mkSystem m (Loaded id (cc_callback ctx) rs groups) a c)
| step_call m a c id callback ctx rs groups now :
    contexts m !! id = Some ctx ->
    mux_step threshold_ms (mkSystem m (Loaded id callback rs groups) a c)
      (mkSystem (set_last_call id now m) (Handling groups) a (c ++ [mkCall id callback (cc_data ctx) rs]))
| step_handled m a c :
    mux_step threshold_ms (mkSystem m (Handling []) a c) (mkSystem m Idle a c)
| step_flush m a c order now :
    order ≡ₚ map_to_list (callbacks m) ->
    mux_step threshold_ms (mkSystem m Idle a c)
      (let due := due_callbacks m order threshold_ms now in mkSystem m (Flushing due due) a c)
| step_flush_load m a c held id todo ctx :
    contexts m !! id = Some ctx ->
    mux_step threshold_ms (mkSystem m (Flushing held (id :: todo)) a c)
      (mkSystem m (Flush_loaded held id (cc_callback ctx) todo) a c)
| step_flush_call m a c held id callback todo ctx now :
    contexts m !! id = Some ctx ->
    mux_step threshold_ms (mkSystem m (Flush_loaded held id callback todo) a c)
      (mkSystem (set_last_call id now m) (Flushing held todo) a (c ++ [mkCall id callback (cc_data ctx) []]))
| step_flushed m a c held :
    mux_step threshold_ms (mkSystem m (Flushing held []) a c) (mkSystem m Idle a c).

Definition init_system : system := mkSystem init_mux Idle [] [].

Definition mux_reachable (threshold_ms : Z) (s : system) : Prop := rtc (mux_step threshold_ms) init_system s.

(** The contexts the poller refers to. *)
Definition held (p : poller) : list nat :=
  match p with
  | Idle | Handling _ => []
  | Holding id _ _ | Loaded id _ _ _ => [id]
  | Flushing held _ | Flush_loaded held _ _ _ => held
  end.

(** A weak pointer to a context has expired when neither the map nor the poller
    refers to the context. *)
Definition expired (s : system) (id : nat) : Prop :=
  (forall t, callbacks (sys_mux s) !! t <> Some id) /\ id ∉ held (sys_poller s).

Definition calls_of (id : nat) (s : system) : list call := filter (fun k => call_ctx k = id) (sys_calls s).

(** The partitions the clients are subscribed to. *)
Definition subscribed (m : mux_state) (t : str) (p : Z) : Prop :=
  exists ctx, context_at_topic m t = Some ctx /\ p ∈ cc_partitions ctx.
End routing.
Arguments poller Block : clear implicits.
Arguments system Block : clear implicits.
Arguments call Block : clear implicits.

(** ** Subscriptions *)

Definition mux_wf (m : mux_state) : Prop :=
  (forall t id, callbacks m !! t = Some id ->
     exists ctx, contexts m !! id = Some ctx /\ cc_partitions ctx <> [] /\ NoDup (cc_partitions ctx))
  /\ (forall t t' id, callbacks m !! t = Some id -> callbacks m !! t' = Some id -> t = t').

Lemma erase_first_elem p l q : NoDup l -> q ∈ erase_first p l <-> q ∈ l /\ q <> p.
Proof.
  induction l as [|x l IH]; intros Hnd; simpl; [rewrite elem_of_nil; tauto|].
  apply NoDup_cons in Hnd as [Hx Hnd]. case_decide as Hp; [subst x|]; rewrite ?elem_of_cons, ?IH by done.
  - split; [|tauto]. intros Hq. split; [by right|]. by intros ->.
  - split; [|tauto]. intros [->|]; tauto.
Qed.

Lemma erase_first_nodup p l : NoDup l -> NoDup (erase_first p l).
Proof.
  induction l as [|x l IH]; intros Hnd; simpl; [done|]. pose proof Hnd as Hnd'. apply NoDup_cons in Hnd' as [Hx Hl].
  case_decide; [done|]. apply NoDup_cons. split; [|by apply IH]. rewrite erase_first_elem by done. tauto.
Qed.

Definition partitions_ok (ctx : CallbackContext) : Prop := cc_partitions ctx <> [] /\ NoDup (cc_partitions ctx).

(** The three ways the state changes: a context is replaced, allocated for a new
    topic, or replaced and forgotten. *)
Lemma mux_set_wf m t id ctx :
  mux_wf m -> callbacks m !! t = Some id -> partitions_ok ctx ->
  mux_wf (mkMux (callbacks m) (<[id := ctx]> (contexts m)))
  /\ forall t', context_at_topic (mkMux (callbacks m) (<[id := ctx]> (contexts m))) t'
               = if decide (t' = t) then Some ctx else context_at_topic m t'.
Proof.
  intros [Hctx Hinj] Ht Hok. destruct (Hctx _ _ Ht) as (c & Hid & _). apply lookup_lt_Some in Hid.
  split; [split; [|exact Hinj]|]; cbn [callbacks contexts].
  - intros t' id' Ht'. destruct (decide (id' = id)) as [->|Hne].
    + rewrite list_lookup_insert_eq by done. by exists ctx.
    + rewrite list_lookup_insert_ne by done. by apply (Hctx t').
  - intros t'. unfold context_at_topic. cbn [callbacks contexts].
    case_decide as Heq; [subst t'; rewrite Ht; by apply list_lookup_insert_eq|].
    destruct (callbacks m !! t') as [id'|] eqn:Ht'; cbn [mbind option_bind]; [|done].
    apply list_lookup_insert_ne. intros ->. by apply Heq, (Hinj _ _ id').
Qed.

Lemma mux_new_wf m t ctx :
  mux_wf m -> partitions_ok ctx ->
  let m' := mkMux (<[t := length (contexts m)]> (callbacks m)) (contexts m ++ [ctx]) in
  mux_wf m' /\ forall t', context_at_topic m' t' = if decide (t' = t) then Some ctx else context_at_topic m t'.
Proof.
  intros [Hctx Hinj] Hok m'.
  assert (Hold : forall t' id, callbacks m !! t' = Some id -> contexts m' !! id = contexts m !! id /\ id <> length (contexts m)).
  { intros t' id Ht'. destruct (Hctx _ _ Ht') as (c & Hid & _). apply lookup_lt_Some in Hid.
    split; [by apply lookup_app_l|lia]. }
  split; [split|]; change (callbacks m') with (<[t := length (contexts m)]> (callbacks m)).
  - intros t' id. rewrite lookup_insert_Some. intros [[_ <-]|[_ Ht']].
    + exists ctx. split; [by apply list_lookup_middle|done].
    + rewrite (proj1 (Hold _ _ Ht')). by apply (Hctx t').
  - intros t1 t2 id [[E1 E2]|[_ H1]]%lookup_insert_Some [[E3 E4]|[_ H2]]%lookup_insert_Some.
    + congruence.
    + destruct (Hold _ _ H2). congruence.
    + destruct (Hold _ _ H1). congruence.
    + by apply (Hinj _ _ id).
  - intros t'. unfold context_at_topic. change (callbacks m') with (<[t := length (contexts m)]> (callbacks m)).
    case_decide as Heq.
    + subst t'. rewrite lookup_insert_eq. cbn [mbind option_bind]. by apply list_lookup_middle.
    + rewrite lookup_insert_ne by done. destruct (callbacks m !! t') as [id|] eqn:Ht'; [|done].
      cbn [mbind option_bind]. apply (Hold _ _ Ht').
Qed.

Lemma mux_forget_wf m t id ctx :
  mux_wf m -> callbacks m !! t = Some id ->
  let m' := mkMux (delete t (callbacks m)) (<[id := ctx]> (contexts m)) in
  mux_wf m' /\ forall t', context_at_topic m' t' = if decide (t' = t) then None else context_at_topic m t'.
Proof.
  intros [Hctx Hinj] Ht m'.
  assert (Hne : forall t' id', delete t (callbacks m) !! t' = Some id' -> callbacks m !! t' = Some id' /\ id' <> id).
  { intros t' id' [Hn Ht']%lookup_delete_Some. split; [done|]. intros ->. apply Hn, (Hinj _ _ id); done. }
  split; [split|]; change (callbacks m') with (delete t (callbacks m)).
  - intros t' id' [Ht' Hid]%Hne. unfold m'. cbn [contexts]. rewrite list_lookup_insert_ne by done. by apply (Hctx t').
  - intros t1 t2 id' [H1 _]%Hne [H2 _]%Hne. by apply (Hinj _ _ id').
  - intros t'. unfold context_at_topic. change (callbacks m') with (delete t (callbacks m)).
    case_decide as Heq.
    + subst t'. by rewrite lookup_delete_eq.
    + destruct (delete t (callbacks m) !! t') as [id'|] eqn:Hd.
      * apply Hne in Hd as [-> Hn]. cbn [mbind option_bind]. unfold m'. cbn [contexts]. by apply list_lookup_insert_ne.
      * rewrite lookup_delete_ne in Hd by done. by rewrite Hd.
Qed.

Lemma subscribed_update m m' t o :
  (forall t', context_at_topic m' t' = if decide (t' = t) then o else context_at_topic m t') ->
  forall t' p, subscribed m' t' p
               <-> (if decide (t' = t) then p ∈ from_option cc_partitions [] o else subscribed m t' p).
Proof.
  intros Hm t' p. unfold subscribed. rewrite Hm. case_decide; [|done]. destruct o as [ctx|]; simpl.
  - split; [by intros (? & [= <-] & ?)|by exists ctx].
  - rewrite elem_of_nil. split; [by intros (? & ? & _)|done].
Qed.

Lemma subscribed_at m t id ctx p :
  callbacks m !! t = Some id -> contexts m !! id = Some ctx -> subscribed m t p <-> p ∈ cc_partitions ctx.
Proof.
  intros Ht Hid. unfold subscribed, context_at_topic. rewrite Ht. cbn [mbind option_bind]. rewrite Hid.
  split; [by intros (? & [= <-] & ?)|by exists ctx].
Qed.

Lemma not_subscribed m t p : callbacks m !! t = None -> ~ subscribed m t p.
Proof. intros Ht (ctx & Hc & _). unfold context_at_topic in Hc. by rewrite Ht in Hc. Qed.

(** A successful [addSubscription] adds its partition, which was not there; one
    that fails changes nothing. *)
Lemma addSubscription_spec m tpo callback data now assign m' err ctx :
  mux_wf m -> addSubscription m tpo callback data now assign = Ok (m', (err, ctx)) ->
  mux_wf m'
  /\ if decide (err = ErrorCodes.OK)
     then ~ subscribed m (tpo_topic tpo) (tpo_partition tpo)
          /\ forall t p, subscribed m' t p <-> subscribed m t p \/ (t, p) = (tpo_topic tpo, tpo_partition tpo)
     else m' = m.
Proof.
  intros Hwf. unfold addSubscription.
  destruct (callbacks m !! tpo_topic tpo) as [id|] eqn:Ht; cbn [mbind option_bind].
  - destruct (proj1 Hwf _ _ Ht) as (c & Hid & Hne & Hnd). rewrite Hid. cbn [mbind option_bind]. cbv beta iota zeta.
    case_bool_decide as Hp; [intros [= <- <- _]; by split|].
    destruct (addSubscriptions _ _) as [res|]; cbn [mbind result_bind]; [|done].
    destruct (Z.eqb_spec res ErrorCodes.OK) as [->|Hr]; cbn [negb]; intros [= <- <- _];
      [|split; [done|by rewrite decide_False]]. rewrite decide_True by done.
    rewrite (subscribed_at _ _ _ _ _ Ht Hid).
    destruct (mux_set_wf m _ id (mkCtx callback data (cc_partitions c ++ [tpo_partition tpo]) (cc_last_call_ts c)) Hwf Ht)
      as [Hwf' Hctx'].
    { split; simpl; [by destruct (cc_partitions c)|]. apply NoDup_app. split_and!; [done| |apply NoDup_singleton].
      by intros q Hq ->%list_elem_of_singleton. }
    split_and!; [done|done|]. intros t p. rewrite (subscribed_update _ _ _ _ Hctx'). case_decide as Heq.
    + subst t. rewrite (subscribed_at _ _ _ _ _ Ht Hid). simpl. rewrite elem_of_app, list_elem_of_singleton.
      split; intros [?|Heq]; [by left|right; by rewrite Heq|by left|right; congruence].
    + split; [by left|]. intros [?|[= ? ?]]; [done|congruence].
  - destruct (addSubscriptions _ _) as [res|]; cbn [mbind result_bind]; [|done].
    destruct (Z.eqb_spec res ErrorCodes.OK) as [->|Hr]; cbn [negb]; intros [= <- <- _];
      [|split; [done|by rewrite decide_False]]. rewrite decide_True by done.
    destruct (mux_new_wf m (tpo_topic tpo) (mkCtx callback data [tpo_partition tpo] now) Hwf) as [Hwf' Hctx'].
    { split; simpl; [done|apply NoDup_singleton]. }
    split_and!; [done|by apply not_subscribed|]. intros t p. rewrite (subscribed_update _ _ _ _ Hctx').
    case_decide as Heq.
    + subst t. simpl. rewrite list_elem_of_singleton. split; [intros ->; by right|].
      intros [Hs|[= ->]]; [by apply not_subscribed in Hs|done].
    + split; [by left|]. intros [?|[= ? ?]]; [done|congruence].
Qed.

Lemma removeSubscription_spec m tpo unassign m' err :
  mux_wf m -> removeSubscription m tpo unassign = Ok (m', err) ->
  mux_wf m'
  /\ if decide (err = ErrorCodes.OK)
     then subscribed m (tpo_topic tpo) (tpo_partition tpo)
          /\ forall t p, subscribed m' t p <-> subscribed m t p /\ (t, p) <> (tpo_topic tpo, tpo_partition tpo)
     else m' = m.
Proof.
  intros Hwf. unfold removeSubscription.
  destruct (callbacks m !! tpo_topic tpo) as [id|] eqn:Ht; cbn [mbind option_bind];
    [|intros [= <- <-]; by split].
  destruct (proj1 Hwf _ _ Ht) as (c & Hid & Hne & Hnd). rewrite Hid. cbn [mbind option_bind]. cbv beta iota zeta.
  case_decide as Hp; [|intros [= <- <-]; by split].
  destruct (removeSubscriptions _ _) as [res|]; cbn [mbind result_bind]; [|done].
  destruct (Z.eqb_spec res ErrorCodes.OK) as [->|Hr]; cbn [negb]; intros [= <- <-];
    [|split; [done|by rewrite decide_False]]. rewrite (decide_True (P := ErrorCodes.OK = _)) by done.
  rewrite (subscribed_at _ _ _ _ _ Ht Hid).
  set (ps := erase_first (tpo_partition tpo) (cc_partitions c)) in *.
  set (ctx' := mkCtx (cc_callback c) (cc_data c) ps (cc_last_call_ts c)).
  set (m' := mkMux _ _).
  assert (H : mux_wf m' /\ forall t', context_at_topic m' t'
              = if decide (t' = tpo_topic tpo) then (if decide (ps = []) then None else Some ctx') else context_at_topic m t').
  { unfold m'. case_decide as Hps; [by apply mux_forget_wf|]. apply mux_set_wf; [done..|].
    split; [done|by apply erase_first_nodup]. }
  destruct H as [Hwf' Hctx']. split_and!; [done|done|]. intros t p. rewrite (subscribed_update _ _ _ _ Hctx').
  destruct (decide (t = tpo_topic tpo)) as [->|Heq].
  - rewrite (subscribed_at _ _ _ _ _ Ht Hid).
    replace (from_option cc_partitions [] (if decide (ps = []) then None else Some ctx')) with ps by (by case_decide).
    unfold ps. rewrite erase_first_elem by done. split; intros [? Hn]; (split; [done|]); congruence.
  - split; [intros ?; split; [done|congruence]|by intros [? _]].
Qed.

Lemma set_last_call_lookup id now m i :
  exists ts, contexts (set_last_call id now m) !! i
  = (fun ctx => mkCtx (cc_callback ctx) (cc_data ctx) (cc_partitions ctx) (ts ctx)) <$> contexts m !! i.
Proof.
  unfold set_last_call. cbn [contexts]. destruct (decide (i = id)) as [->|Hne].
  - exists (fun _ => now). by rewrite list_lookup_alter_eq.
  - exists cc_last_call_ts. rewrite list_lookup_alter_ne by done. by destruct (contexts m !! i) as [[]|].
Qed.

Lemma set_last_call_wf id now m : mux_wf m -> mux_wf (set_last_call id now m).
Proof.
  intros [Hctx Hinj]. split; [|exact Hinj]. intros t i Ht. destruct (Hctx t i Ht) as (ctx & Hi & Hok).
  destruct (set_last_call_lookup id now m i) as [ts ->]. rewrite Hi. by eexists.
Qed.

Lemma set_last_call_subscribed id now m t p : subscribed (set_last_call id now m) t p <-> subscribed m t p.
Proof.
  unfold subscribed, context_at_topic. change (callbacks (set_last_call id now m)) with (callbacks m).
  destruct (callbacks m !! t) as [i|]; cbn [mbind option_bind]; [|done].
  destruct (set_last_call_lookup id now m i) as [ts ->]. destruct (contexts m !! i) as [ctx|]; simpl.
  - split; intros (? & [= <-] & ?); by eexists.
  - by split; intros (? & ? & _).
Qed.

Section safety.
Context {Block : Type} (threshold_ms : Z).

(** The contexts a flush is still to call are among those it holds. *)
Definition poller_ok (p : poller Block) : Prop :=
  match p with
  | Flushing held todo => todo ⊆ held
  | Flush_loaded held id _ todo => id ∈ held /\ todo ⊆ held
  | _ => True
  end.

Definition mux_inv (s : system Block) : Prop :=
  mux_wf (sys_mux s) /\ poller_ok (sys_poller s) /\ NoDup (sys_assigned s)
  /\ forall t p, (t, p) ∈ sys_assigned s <-> subscribed (sys_mux s) t p.

Lemma mux_step_inv s s' : mux_step threshold_ms s s' -> mux_inv s -> mux_inv s'.
Proof.
  intros Hstep (Hwf & Hp & Hnd & Ha). unfold mux_inv.
  destruct Hstep; cbn [sys_mux sys_poller sys_assigned poller_ok] in *;
    try (split_and!; done || (by apply set_last_call_wf) || (intros t' p'; by rewrite set_last_call_subscribed)).
  - destruct (addSubscription_spec _ _ _ _ _ _ _ _ _ Hwf H) as [Hwf' Hcase]. destruct (decide (err = ErrorCodes.OK)); [|by subst m'].
    destruct Hcase as [Hnew Hsub]. split_and!; [done|done| |].
    + apply NoDup_app. split_and!; [done| |apply NoDup_singleton]. intros tp Htp ->%list_elem_of_singleton.
      by apply Hnew, Ha.
    + intros t q. rewrite elem_of_app, list_elem_of_singleton, Ha, Hsub. done.
  - destruct (removeSubscription_spec _ _ _ _ _ Hwf H) as [Hwf' Hcase]. destruct (decide (err = ErrorCodes.OK)); [|by subst m'].
    destruct Hcase as [Hold Hsub]. split_and!; [done|done|by apply NoDup_filter|].
    intros t q. rewrite list_elem_of_filter, Ha, Hsub. tauto.
  - split_and!; [done|apply Hp, list_elem_of_here| |done|done]. intros i Hi. by apply Hp, list_elem_of_further.
  - destruct Hp as [_ Hp]. split_and!; [by apply set_last_call_wf|done|done|]. intros t' p'. by rewrite set_last_call_subscribed.
Qed.

Lemma mux_reachable_inv s : mux_reachable threshold_ms s -> mux_inv s.
Proof.
  intros H. unfold mux_reachable in H.
  refine (rtc_ind_r mux_inv init_system _ _ s H); [|intros s1 s2 _ Hstep Hi; by apply (mux_step_inv s1)].
  assert (Hno : forall t id, callbacks init_mux !! t <> Some id) by (intros t id; apply lookup_empty_Some).
  split_and!; simpl; [split; [intros t id|intros t t' id]; by intros ?%Hno|done|constructor|].
  intros t p. rewrite elem_of_nil. split; [done|]. apply not_subscribed, lookup_empty.
Qed.

(** In every interleaving of clients and poller, the partitions the
    multiplexer has callbacks for are exactly those librdkafka has been told to
    consume, each assigned once; no topic stays registered without a partition. *)
Lemma mux_subscriptions_assigned (s : system Block) :
  mux_reachable threshold_ms s ->
  NoDup (sys_assigned s)
  /\ (forall t p, (t, p) ∈ sys_assigned s <-> subscribed (sys_mux s) t p)
  /\ (forall t id, callbacks (sys_mux s) !! t = Some id -> exists p, subscribed (sys_mux s) t p).
Proof.
  intros H. destruct (mux_reachable_inv s H) as (Hwf & _ & Hnd & Ha). split_and!; [done|done|].
  intros t id Ht. destruct (proj1 Hwf _ _ Ht) as (ctx & Hid & Hne & _).
  destruct (cc_partitions ctx) as [|p ps] eqn:Hps; [done|]. exists p. rewrite (subscribed_at _ _ _ _ _ Ht Hid), Hps.
  apply list_elem_of_here.
Qed.

(** ** A weak pointer that has expired *)

Lemma addSubscription_callbacks m tpo callback data now assign m' r t id :
  addSubscription m tpo callback data now assign = Ok (m', r) ->
  callbacks m' !! t = Some id -> callbacks m !! t = Some id \/ id = length (contexts m).
Proof.
  unfold addSubscription. destruct (callbacks m !! tpo_topic tpo ≫= _) as [[i ctx]|].
  - case_bool_decide; [intros [= <- _]; by left|].
    destruct (addSubscriptions _ _) as [res|]; cbn [mbind result_bind]; [|done].
    destruct (negb _); intros [= <- _]; by left.
  - destruct (addSubscriptions _ _) as [res|]; cbn [mbind result_bind]; [|done].
    destruct (negb _); intros [= <- _]; [by left|]. cbn [callbacks]. rewrite lookup_insert_Some. intros [[_ <-]|[_ ?]]; auto.
Qed.

Lemma removeSubscription_callbacks m tpo unassign m' r t id :
  removeSubscription m tpo unassign = Ok (m', r) ->
  callbacks m' !! t = Some id -> callbacks m !! t = Some id.
Proof.
  unfold removeSubscription. destruct (callbacks m !! tpo_topic tpo ≫= _) as [[i ctx]|]; [|by intros [= <- _]].
  case_decide; [|by intros [= <- _]].
  destruct (removeSubscriptions _ _) as [res|]; cbn [mbind result_bind]; [|done].
  destruct (negb _); intros [= <- _]; [done|]. cbn [callbacks]. case_decide; [|done].
  by intros [_ ?]%lookup_delete_Some.
Qed.

Lemma due_callbacks_registered m order now id :
  order ≡ₚ map_to_list (callbacks m) -> id ∈ due_callbacks m order threshold_ms now ->
  exists t, callbacks m !! t = Some id.
Proof.
  intros Ho Hid. unfold due_callbacks in Hid. apply list_elem_of_omap in Hid as ([t i] & Hti & Hi).
  rewrite Ho, elem_of_map_to_list in Hti. exists t.
  destruct (contexts m !! i) as [ctx|]; simpl in Hi; [|done]. case_match; [|done]. by injection Hi as <-.
Qed.

Lemma contexts_grow (s s' : system Block) :
  mux_step threshold_ms s s' -> (length (contexts (sys_mux s)) <= length (contexts (sys_mux s')))%nat.
Proof.
  destruct 1; cbn [sys_mux set_last_call contexts]; rewrite ?length_alter; try lia.
  - unfold addSubscription in H. destruct (callbacks m !! tpo_topic tpo ≫= _) as [[i c']|]; [case_bool_decide|];
      try (destruct (addSubscriptions _ _); cbn [mbind result_bind] in H; [destruct (negb _)|done]);
      injection H as <- _; cbn [contexts]; rewrite ?length_insert, ?length_app; lia.
  - unfold removeSubscription in H. destruct (callbacks m !! tpo_topic tpo ≫= _) as [[i c']|]; [case_decide|];
      try (destruct (removeSubscriptions _ _); cbn [mbind result_bind] in H; [destruct (negb _)|done]);
      injection H as <- _; cbn [contexts]; rewrite ?length_insert; lia.
Qed.

(** A step keeps an expired context expired and does not call it. *)
Lemma expired_step s s' id :
  mux_step threshold_ms s s' -> mux_inv s -> (id < length (contexts (sys_mux s)))%nat -> expired s id ->
  expired s' id /\ calls_of id s' = calls_of id s.
Proof.
  intros Hstep (_ & Hp & _) Hlt [Hreg Hheld]. unfold expired, calls_of.
  destruct Hstep; cbn [sys_mux sys_poller sys_calls held callbacks set_last_call poller_ok] in *;
    try (rewrite filter_app, filter_cons_False, app_nil_r by (simpl; intros ->; set_solver));
    try (split; [split|]; by first [done|apply not_elem_of_nil]).
  - split; [split|]; try done. intros t Ht.
    destruct (addSubscription_callbacks _ _ _ _ _ _ _ _ _ _ H Ht); [by eapply Hreg|lia].
  - split; [split|]; try done. intros t Ht. by eapply Hreg, removeSubscription_callbacks.
  - split; [split|]; try done. rewrite list_elem_of_singleton. intros ->. by eapply Hreg.
  - split; [split|]; try done. intros Hid. destruct (due_callbacks_registered _ _ _ _ H Hid) as [t Ht]. by eapply Hreg.
Qed.

(** C31: once the weak pointer that [addSubscription] gave out has expired, no
    later step calls the callback of that context, so the client may destroy
    the callback and its data, whatever the interleaving. *)
Theorem expired_never_called (s s' : system Block) (id : nat) :
  mux_reachable threshold_ms s -> (id < length (contexts (sys_mux s)))%nat -> expired s id ->
  rtc (mux_step threshold_ms) s s' -> expired s' id /\ calls_of id s' = calls_of id s.
Proof.
  intros Hr%mux_reachable_inv Hlt Hexp Hsteps.
  induction Hsteps as [s|s1 s2 s3 Hstep _ IH]; [done|].
  destruct (expired_step _ _ _ Hstep Hr Hlt Hexp) as [Hexp2 Hcalls].
  destruct IH as [Hexp3 Hcalls3]; [by eapply mux_step_inv|pose proof (contexts_grow _ _ Hstep); lia|done|].
  split; [done|]. by rewrite Hcalls3.
Qed.
End safety.

(** ** What a result delivers *)

Section delivery.
Context {Block : Type} (threshold_ms : Z).
Implicit Types (records : list (WalRecord Block)) (groups : list (str * list (WalRecord Block))).

Definition of_topic (t : str) records : list (WalRecord Block) := filter (fun r => topic r = t) records.

Lemma categorize_lookup records t :
  categorize records !! t = if decide (of_topic t records = []) then None else Some (of_topic t records).
Proof.
  unfold categorize. induction records as [|r records IH] using rev_ind; [apply lookup_empty|].
  rewrite foldl_app. cbn [foldl]. unfold push_record at 1. unfold of_topic. rewrite filter_app.
  fold (of_topic t records). destruct (decide (topic r = t)) as [Ht|Ht].
  - rewrite Ht, lookup_insert_eq, IH, filter_cons_True by done. rewrite (decide_False (P := _ ++ _ = [])) by (by intros [_ ?]%app_nil).
    f_equal. case_decide as He; [by rewrite He|done].
  - rewrite lookup_insert_ne, IH, filter_cons_False, app_nil_r by done. done.
Qed.

(** The call a group makes. *)
Definition route (m : mux_state) (g : str * list (WalRecord Block)) : option (call Block) :=
  id ← callbacks m !! g.1; ctx ← contexts m !! id; Some (mkCall id (cc_callback ctx) (cc_data ctx) g.2).

Lemma route_set_last_call id now m g : route (set_last_call id now m) g = route m g.
Proof.
  unfold route. change (callbacks (set_last_call id now m)) with (callbacks m).
  destruct (callbacks m !! g.1) as [i|]; cbn [mbind option_bind]; [|done].
  destruct (set_last_call_lookup id now m i) as [ts ->]. by destruct (contexts m !! i).
Qed.

Lemma route_all_set_last_call id now m groups : omap (route (set_last_call id now m)) groups = omap (route m) groups.
Proof.
  induction groups as [|g groups IH]; [done|]. cbn [omap list_omap]. by rewrite route_set_last_call, IH.
Qed.

Lemma handleResult_calls m groups now : (handleResult m groups now).2 = omap (route m) groups.
Proof.
  revert m. induction groups as [|[t rs] groups IH]; intros m; [done|].
  cbn [handleResult omap list_omap]. unfold route at 1. cbn [fst snd].
  destruct (callbacks m !! t) as [id|]; cbn [mbind option_bind]; [|apply IH].
  destruct (contexts m !! id) as [ctx|]; cbn [mbind option_bind]; [|apply IH].
  specialize (IH (set_last_call id (now t) m)). destruct (handleResult _ groups now) as [m' calls].
  cbn [snd] in *. f_equal. rewrite IH. apply route_all_set_last_call.
Qed.

(** The steps of the poller, when no client interferes, are [handleResult]. *)
Lemma handleResult_steps m groups now a c :
  mux_wf m ->
  rtc (mux_step threshold_ms) (mkSystem m (Handling groups) a c)
    (mkSystem (handleResult m groups now).1 (Handling []) a (c ++ (handleResult m groups now).2)).
Proof.
  revert m c. induction groups as [|[t rs] groups IH]; intros m c Hwf; [by rewrite app_nil_r|].
  cbn [handleResult]. destruct (callbacks m !! t) as [id|] eqn:Ht; cbn [mbind option_bind].
  - destruct (proj1 Hwf _ _ Ht) as (ctx & Hid & _). rewrite Hid. cbn [mbind option_bind].
    specialize (IH (set_last_call id (now t) m) (c ++ [mkCall id (cc_callback ctx) (cc_data ctx) rs])
                  (set_last_call_wf _ _ _ Hwf)).
    destruct (handleResult _ groups now) as [m' calls]. cbn [fst snd] in *. rewrite <- (assoc_L (++)) in IH.
    eapply rtc_l; [by apply step_lookup|]. eapply rtc_l; [by apply step_load|]. eapply rtc_l; [by apply step_call|].
    exact IH.
  - eapply rtc_l; [by apply step_skip|]. by apply IH.
Qed.

(** Only the group of a context's topic calls it. *)
Lemma omap_route_ctx m t id ctx groups :
  mux_wf m -> callbacks m !! t = Some id -> contexts m !! id = Some ctx -> NoDup groups.*1 ->
  filter (fun k => call_ctx k = id) (omap (route m) groups)
  = omap (fun g => if decide (g.1 = t) then Some (mkCall id (cc_callback ctx) (cc_data ctx) g.2) else None) groups.
Proof.
  intros Hwf Ht Hid. induction groups as [|[t' rs] groups IH]; intros Hnd; [done|].
  apply NoDup_cons in Hnd as [_ Hnd]. cbn [omap list_omap fst snd]. case_decide as Heq.
  - subst t'. unfold route at 1. cbn [fst snd]. rewrite Ht. cbn [mbind option_bind]. rewrite Hid. cbn [mbind option_bind].
    rewrite filter_cons_True by done. by rewrite IH.
  - destruct (route m (t', rs)) as [k|] eqn:Hk; [|by apply IH]. rewrite filter_cons_False; [by apply IH|].
    intros Hid'. unfold route in Hk. cbn [fst snd] in Hk.
    destruct (callbacks m !! t') as [i|] eqn:Ht'; cbn [mbind option_bind] in Hk; [|done].
    destruct (contexts m !! i); cbn [mbind option_bind] in Hk; [|done]. injection Hk as <-. simpl in Hid'. subst i.
    by apply Heq, (proj2 Hwf _ _ id).
Qed.

Lemma omap_key {A} (f : list (WalRecord Block) -> A) t groups :
  NoDup groups.*1 ->
  omap (fun g => if decide (g.1 = t) then Some (f g.2) else None) groups
  = match (list_to_map groups : gmap str _) !! t with Some rs => [f rs] | None => [] end.
Proof.
  induction groups as [|[t' rs] groups IH]; intros Hnd; [done|].
  rewrite fmap_cons, NoDup_cons in Hnd. destruct Hnd as [Hnew Hnd].
  cbn [omap list_omap list_to_map foldr fst snd]. case_decide as Heq.
  - subst t'. rewrite lookup_insert_eq, (IH Hnd). by rewrite not_elem_of_list_to_map_1.
  - rewrite lookup_insert_ne by done. by apply IH.
Qed.

(** When a poll's records are routed without interference, in whatever order the
    hash map visits the topics, the callback of every subscribed topic is
    called exactly once with exactly the records of that topic in the order
    they were consumed, or not at all if there are none; and the poller's steps
    make exactly these calls. *)
Lemma handleResult_delivers (m : mux_state) (records : list (WalRecord Block))
    (groups : list (str * list (WalRecord Block))) (now : str -> Z) (t : str) (id : nat) (ctx : CallbackContext) :
  mux_wf m -> groups ≡ₚ map_to_list (categorize records) ->
  callbacks m !! t = Some id -> contexts m !! id = Some ctx ->
  filter (fun k => call_ctx k = id) (handleResult m groups now).2
  = (if decide (of_topic t records = []) then []
     else [mkCall id (cc_callback ctx) (cc_data ctx) (of_topic t records)])
  /\ forall a c, rtc (mux_step threshold_ms) (mkSystem m Idle a c)
                  (mkSystem (handleResult m groups now).1 Idle a (c ++ (handleResult m groups now).2)).
Proof.
  intros Hwf Hg Ht Hid. split.
  - assert (Hnd : NoDup groups.*1) by (rewrite Hg; apply NoDup_fst_map_to_list).
    rewrite handleResult_calls, (omap_route_ctx _ _ _ _ _ Hwf Ht Hid Hnd).
    rewrite (omap_key (mkCall id (cc_callback ctx) (cc_data ctx))) by done.
    rewrite (list_to_map_proper _ _ Hnd Hg), list_to_map_to_list, categorize_lookup. by case_decide.
  - intros a c. eapply rtc_l; [by eapply step_result|].
    eapply rtc_r; [by apply (handleResult_steps m groups now a c)|apply step_handled].
Qed.
End delivery.

(** ** Examples *)

Definition tpo_t (p : Z) : TopicPartitionOffset := mkTPO (lit "t") p 0.
Definition accept {A} (_ : list A) : option (Z * bool) := None.
Definition mux_one : mux_state := mkMux {[lit "t" := 0%nat]} [mkCtx 1 1 [0] 5].
Definition mux_two : mux_state := mkMux {[lit "t" := 0%nat]} [mkCtx 2 2 [0; 1] 5].
Definition mux_gone : mux_state := mkMux ∅ [mkCtx 1 1 [] 5].
Definition record_t : WalRecord str := mkRecord ADD_DATA_BLOCK ∅ (lit "rows") (lit "t") 0 7.

Lemma example_add :
  addSubscription init_mux (tpo_t 0) 1 1 5 accept = Ok (mux_one, (ErrorCodes.OK, Some 0%nat))
  /\ addSubscription mux_one (tpo_t 1) 2 2 9 accept = Ok (mux_two, (ErrorCodes.OK, Some 0%nat))
  /\ removeSubscription mux_one (tpo_t 0) accept = Ok (mux_gone, ErrorCodes.OK).
Proof. by vm_compute. Qed.

Lemma example_reachable :
  mux_reachable 1000 (mkSystem (Block := str) mux_one Idle [(lit "t", 0)] [])
  /\ mux_reachable 1000 (mkSystem (Block := str) mux_gone Idle [] []).
Proof.
  assert (H1 : mux_reachable 1000 (mkSystem (Block := str) mux_one Idle [(lit "t", 0)] [])).
  { apply rtc_once. apply (step_add 1000 init_mux Idle [] [] (tpo_t 0) 1 1 5 accept mux_one ErrorCodes.OK (Some 0%nat)).
    apply example_add. }
  split; [done|]. eapply rtc_r; [exact H1|].
  by apply (step_remove 1000 mux_one Idle [(lit "t", 0)] [] (tpo_t 0) accept mux_gone ErrorCodes.OK), example_add.
Qed.

Lemma mux_subscriptions_assigned_witness :
  (lit "t", 0) ∈ sys_assigned (mkSystem (Block := str) mux_one Idle [(lit "t", 0)] [])
  <-> subscribed mux_one (lit "t") 0.
Proof. apply (mux_subscriptions_assigned 1000 _ (proj1 example_reachable)). Defined.

Lemma expired_never_called_witness :
  let s := mkSystem (Block := str) mux_gone Idle [] [] in expired s 0 /\ calls_of 0 s = [].
Proof.
  apply (expired_never_called 1000 (mkSystem (Block := str) mux_gone Idle [] [])).
  - apply example_reachable.
  - simpl. lia.
  - split; [intros t; apply lookup_empty_Some|apply not_elem_of_nil].
  - apply rtc_refl.
Defined.

Lemma mux_one_wf : mux_wf mux_one.
Proof. apply (mux_reachable_inv 1000 (mkSystem (Block := str) mux_one Idle [(lit "t", 0)] [])), example_reachable. Qed.

Lemma handleResult_delivers_witness :
  let groups := [(lit "t", [record_t]); (lit "u", [mkRecord ADD_DATA_BLOCK ∅ (lit "x") (lit "u") 0 3])] in
  filter (fun k => call_ctx k = 0%nat) (handleResult mux_one groups (fun _ => 10)).2 = [mkCall 0 1 1 [record_t]].
Proof.
  apply (handleResult_delivers 1000 mux_one
           [mkRecord ADD_DATA_BLOCK ∅ (lit "x") (lit "u") 0 3; record_t] _ (fun _ => 10) (lit "t") 0 (mkCtx 1 1 [0] 5)).
  - apply mux_one_wf.
  - vm_compute. by (reflexivity || apply perm_swap).
  - done.
  - done.
Defined.

(** The callback and its data are read without the lock, so a subscription
    to another partition of the topic, made while the poller is about to
    call, makes it call the function of one registration with the data of the other. *)
Lemma torn_callback :
  addSubscription init_mux (tpo_t 0) 1 1 5 accept = Ok (mux_one, (ErrorCodes.OK, Some 0%nat))
  /\ addSubscription mux_one (tpo_t 1) 2 2 9 accept = Ok (mux_two, (ErrorCodes.OK, Some 0%nat))
  /\ exists m a, mux_reachable 1000 (mkSystem m (Handling []) a [mkCall 0 1 2 [record_t]]).
Proof.
  split_and!; [apply example_add..|]. do 2 eexists. unfold mux_reachable. etrans; [apply (proj1 example_reachable)|].
  eapply rtc_l; [apply (step_result 1000 mux_one _ _ [record_t] [(lit "t", [record_t])]); by vm_compute|].
  eapply rtc_l; [by apply step_lookup|]. eapply rtc_l; [by apply step_load|].
  eapply rtc_l; [apply (step_add 1000 mux_one _ _ _ (tpo_t 1) 2 2 9 accept mux_two ErrorCodes.OK (Some 0%nat)); apply example_add|].
  eapply rtc_once. apply (step_call 1000 mux_two _ [] 0 1 (mkCtx 2 2 [0; 1] 5) [record_t] [] 10). done.
Qed.
