(* ===== verification/KafkaPool.v ===== *)
(** * KafkaPool: the clients of every Kafka cluster

    Models src/src/DistributedWriteAheadLog/KafkaWALPool.{h,cpp}: reading the
    configured clusters, the round robin over a cluster's dedicated clients, the
    choice of a multiplexer, and the startup of a client in KafkaWAL.cpp,
    KafkaWALSimpleConsumer.cpp and KafkaWALConsumerMultiplexer.cpp.  A client is
    its settings; its place in the pool tells it apart. *)

From S2P Require Import Prelude TextFormat WalRecord KafkaConfig KafkaWal KafkaConsumer.

Local Open Scope Z_scope.

Record pool : Type := mkPool {
  default_cluster : str;
  meta_wal : option KafkaWALSettings;
  wals : gmap str (list KafkaWALSettings);
  indexes : gmap str Z;
  cluster_kafka_settings : gmap str KafkaWALSettings;
  multiplexers : gmap str (Z * list KafkaWALSettings);
}.

Definition init_pool : pool := mkPool [] None ∅ ∅ ∅ ∅.

(** [std::unordered_map::emplace]. *)
Definition emplace {A} (k : str) (v : A) (m : gmap str A) : gmap str A :=
  match m !! k with Some _ => m | None => <[k := v]> m end.

Section pool.
(** librdkafka's answers to a list of parameters: whether it makes the
    configuration, sets each parameter and makes the handle, and the error. *)
Context (answers : KConfParams -> bool * (str * str -> bool) * bool * Z).

Definition init_handle (params : KConfParams) : result unit :=
  let '(conf, set, handle, last_error) := answers params in initRdKafkaHandle conf set handle last_error params.

(** [KafkaWAL::startup] of a new client: the producer, then the simple consumer. *)
Definition wal_startup (s : KafkaWALSettings) : result unit :=
  _ ← init_handle (producer_params s);
  init_handle (simple_consumer_params s).

(** [KafkaWALConsumerMultiplexer::startup] of a new multiplexer. *)
Definition multiplexer_startup (s : KafkaWALSettings) : result unit := init_handle (consumer_params s).

Definition with_group_suffix (suffix : str) (s : KafkaWALSettings) : KafkaWALSettings :=
  set_str group_id (s_str s group_id ++ suffix) s.

(** The dedicated clients of a cluster. *)
Fixpoint create_wals (n : nat) (s : KafkaWALSettings) (ws : gmap str (list KafkaWALSettings))
    : result (gmap str (list KafkaWALSettings)) :=
  match n with
  | O => Ok ws
  | S n =>
      let ksettings := with_group_suffix (lit "-dedicated") s in
      _ ← wal_startup ksettings;
      create_wals n s (<[s_str s cluster_id := default [] (ws !! s_str s cluster_id) ++ [ksettings]]> ws)
  end.

(** [KafkaWALPool::init] of one segment of the configuration. *)
Definition init (config : Configuration) (node_identity : str) (key : str) (p : pool) : result pool :=
  s ← read_settings config key settings_table default_settings;
  if decide (s_str s brokers = []) then Ok p
  else
    let s := if decide (s_str s group_id = []) then set_str group_id node_identity s else s in
    let cid := s_str s cluster_id in
    if decide (is_Some (wals p !! cid)) then Throw (DBException ErrorCodes.BAD_ARGUMENTS)
    else
      ws ← create_wals (Z.to_nat (s_int s dedicated_subscription_wal_pool_size)) s (wals p);
      let p := mkPool (default_cluster p) (meta_wal p) ws (<[cid := 0]> (indexes p))
                 (emplace cid s (cluster_kafka_settings p))
                 (emplace cid (s_int s shared_subscription_wal_pool_max_size, []) (multiplexers p)) in
      if s_bool s system_default then
        let ksettings := with_group_suffix (lit "-meta") s in
        _ ← wal_startup ksettings;
        Ok (mkPool cid (Some ksettings) (wals p) (indexes p) (cluster_kafka_settings p) (multiplexers p))
      else Ok p.

Fixpoint init_all (config : Configuration) (node_identity : str) (keys : list str) (p : pool) : result pool :=
  match keys with
  | [] => Ok p
  | key :: keys => p ← init config node_identity key p; init_all config node_identity keys p
  end.

(** [startup], the first time it is called. *)
Definition pool_startup (distributed : bool) (config : Configuration) (node_identity : str) (p : pool) : result pool :=
  if negb distributed then Ok p
  else
    p ← init_all config node_identity (conf_keys config SYSTEM_WALS_KEY) p;
    if negb (bool_decide (wals p = ∅)) && bool_decide (default_cluster p = [])
    then Throw (DBException ErrorCodes.BAD_ARGUMENTS)
    else Ok p.

(** [get]: the place of the client in its cluster's list.  [None] is the
    division by the size of an empty list. *)
Definition resolve (p : pool) (cid : str) : str :=
  if bool_decide (cid = []) && negb (bool_decide (default_cluster p = [])) then default_cluster p else cid.

Definition get (p : pool) (cid : str) : option (result (nat * pool)) :=
  let cid := resolve p cid in
  match wals p !! cid with
  | None => Some (Throw (DBException ErrorCodes.BAD_ARGUMENTS))
  | Some ws =>
      let i := default 0 (indexes p !! cid) in
      if (length ws =? 0)%nat then None
      else Some (Ok (Z.to_nat (i mod Z.of_nat (length ws)),
                     mkPool (default_cluster p) (meta_wal p) (wals p) (<[cid := wrap 64 (i + 1)]> (indexes p))
                       (cluster_kafka_settings p) (multiplexers p)))
  end.

(** The multiplexer with the fewest users: the first of them.  [use_count] is the
    number of users of each, as the loop reads it. *)
Fixpoint best_loop (use_count : list Z) (i best : nat) (best_count : Z) : nat * Z :=
  match use_count with
  | [] => (best, best_count)
  | c :: use_count =>
      if c <? best_count then best_loop use_count (S i) i c else best_loop use_count (S i) best best_count
  end.

(** [None] is the dereference of a null pointer, for a cluster without settings. *)
Definition create_multiplexer (p : pool) (cid : str) (max : Z) (ms : list KafkaWALSettings)
    : option (result (nat * pool)) :=
  base ← cluster_kafka_settings p !! cid;
  let s := with_group_suffix (lit "-shared") base in
  Some (
  _ ← multiplexer_startup s;
  Ok (length ms, mkPool (default_cluster p) (meta_wal p) (wals p) (indexes p) (cluster_kafka_settings p)
                   (<[cid := (max, ms ++ [s])]> (multiplexers p)))).

(** [getOrCreateConsumerMultiplexer]: the place of the multiplexer in its
    cluster's list. *)
Definition getOrCreateConsumerMultiplexer (p : pool) (cid : str) (use_count : list Z)
    : option (result (nat * pool)) :=
  let cid := resolve p cid in
  match multiplexers p !! cid with
  | None => Some (Throw (DBException ErrorCodes.BAD_ARGUMENTS))
  | Some (max, ms) =>
      match use_count with
      | [] => create_multiplexer p cid max ms
      | c :: use_count =>
          let '(best, best_count) := best_loop use_count 1 0 c in
          if (best_count >=? 20) && (Z.of_nat (length ms) <? max)
          then create_multiplexer p cid max ms
          else Some (Ok (best, p))
      end
  end.

(** [clusters]: what the last client of each cluster says of its brokers. *)
Definition clusters (p : pool) (order : list (str * list KafkaWALSettings))
    (ask : KafkaWALSettings -> option KafkaWALCluster) : list KafkaWALCluster :=
  omap (fun '(_, ws) => s ← last ws; ask s) order.

(** ** The pool's invariant *)

(** Every cluster has clients, a position in them, settings, and at most the
    allowed number of multiplexers; the default cluster is one of them. *)
Definition cluster_ok (p : pool) (cid : str) : Prop :=
  (exists ws, wals p !! cid = Some ws /\ ws <> [])
  /\ (exists i, indexes p !! cid = Some i /\ 0 <= i < 2 ^ 64)
  /\ is_Some (cluster_kafka_settings p !! cid)
  /\ exists max ms, multiplexers p !! cid = Some (max, ms) /\ 0 < max /\ Z.of_nat (length ms) <= max.

Definition cluster_absent (p : pool) (cid : str) : Prop :=
  wals p !! cid = None /\ indexes p !! cid = None
  /\ cluster_kafka_settings p !! cid = None /\ multiplexers p !! cid = None.

Definition pool_ok (p : pool) : Prop :=
  (forall cid, cluster_ok p cid \/ cluster_absent p cid)
  /\ (default_cluster p <> [] -> cluster_ok p (default_cluster p) /\ is_Some (meta_wal p)).

Lemma create_wals_spec n s ws ws' :
  create_wals n s ws = Ok ws' ->
  ws' !! s_str s cluster_id
  = (if decide (n = 0%nat) then ws !! s_str s cluster_id
     else Some (default [] (ws !! s_str s cluster_id) ++ replicate n (with_group_suffix (lit "-dedicated") s)))
  /\ forall cid, cid <> s_str s cluster_id -> ws' !! cid = ws !! cid.
Proof.
  revert ws. induction n as [|n IH]; intros ws H; [by injection H as <-|]. cbn [create_wals] in H.
  destruct (wal_startup _); cbn [mbind result_bind] in H; [|done]. apply IH in H as [Hc Ho].
  rewrite lookup_insert_eq in Hc. split.
  - rewrite Hc. simpl. case_decide as Hn; [by subst n|]. by rewrite <- (assoc_L (++)).
  - intros cid Hne. by rewrite Ho, lookup_insert_ne.
Qed.

Lemma emplace_new {A} k (v : A) m : m !! k = None -> emplace k v m = <[k := v]> m.
Proof. intros H. unfold emplace. by rewrite H. Qed.

Lemma add_cluster_ok p cid ws' s max dc mw :
  pool_ok p -> wals p !! cid = None ->
  (exists ws, ws' !! cid = Some ws /\ ws <> []) -> (forall c, c <> cid -> ws' !! c = wals p !! c) -> 0 < max ->
  (dc = default_cluster p /\ mw = meta_wal p) \/ (dc = cid /\ is_Some mw) ->
  pool_ok (mkPool dc mw ws' (<[cid := 0]> (indexes p)) (emplace cid s (cluster_kafka_settings p))
             (emplace cid (max, []) (multiplexers p))).
Proof.
  intros [Hall Hdef] Hnone Hnew Hold Hmax Hdc.
  destruct (Hall cid) as [[(? & Hw & _) _]|(_ & Hi & Hs & Hm)]; [congruence|].
  rewrite !emplace_new by done. set (p' := mkPool _ _ _ _ _ _).
  assert (Hcid : cluster_ok p' cid).
  { unfold cluster_ok, p'. cbn. rewrite !lookup_insert_eq. split_and!; [done|by exists 0|done|].
    exists max, []. by split_and!; [..|simpl; lia]. }
  assert (Hother : forall c, c <> cid -> (cluster_ok p c -> cluster_ok p' c) /\ (cluster_absent p c -> cluster_absent p' c)).
  { intros c Hc. unfold cluster_ok, cluster_absent, p'. cbn. by rewrite Hold, !lookup_insert_ne. }
  split.
  - intros c. destruct (decide (c = cid)) as [->|Hc]; [by left|]. destruct (Hother c Hc). destruct (Hall c); auto.
  - destruct Hdc as [[-> ->]|[-> Hmw]]; intros Hne; cbn in *; [|done]. destruct (Hdef Hne) as [Hok Hmw].
    split; [|done]. destruct (decide (default_cluster p = cid)) as [->|Hc]; [done|]. by apply Hother.
Qed.

Lemma init_ok config node key p p' : pool_ok p -> init config node key p = Ok p' -> pool_ok p'.
Proof.
  intros Hok. unfold init.
  destruct (read_settings config key settings_table default_settings) as [s0|] eqn:Hs; cbn [mbind result_bind]; [|done].
  assert (Hpos : forall x, 0 < s_int s0 x).
  { intros x. eapply read_settings_positive; [exact Hs|by destruct x]. }
  case_decide; [by intros [= <-]|].
  set (s := if decide (s_str s0 group_id = []) then set_str group_id node s0 else s0).
  assert (Hpos' : forall x, 0 < s_int s x) by (intros x; unfold s; case_decide; apply Hpos). clearbody s.
  cbv zeta. case_decide as Hfresh; [done|].
  destruct (create_wals _ s (wals p)) as [ws|] eqn:Hws; cbn [mbind result_bind]; [|done].
  apply create_wals_spec in Hws as [Hc Ho]. specialize (Hpos' dedicated_subscription_wal_pool_size) as Hn.
  rewrite decide_False in Hc by lia. apply eq_None_not_Some in Hfresh. rewrite Hfresh in Hc.
  assert (Hnew : exists ws0, ws !! s_str s cluster_id = Some ws0 /\ ws0 <> []).
  { eexists. split; [exact Hc|]. by destruct (Z.to_nat (s_int s dedicated_subscription_wal_pool_size)) eqn:?; [lia|]. }
  destruct (s_bool s system_default).
  - destruct (wal_startup _); cbn [mbind result_bind]; [|done]. intros [= <-]. cbn.
    apply add_cluster_ok; auto.
  - intros [= <-]. apply add_cluster_ok; auto.
Qed.

Lemma init_all_ok config node keys p p' : pool_ok p -> init_all config node keys p = Ok p' -> pool_ok p'.
Proof.
  revert p. induction keys as [|key keys IH]; intros p Hok H; cbn [init_all] in H; [by injection H as <-|].
  destruct (init config node key p) as [p1|] eqn:Hi; cbn [mbind result_bind] in H; [|done].
  apply (IH p1); [|done]. by eapply init_ok.
Qed.

Lemma pool_startup_inv config node p :
  pool_startup true config node init_pool = Ok p -> pool_ok p /\ (wals p <> ∅ -> default_cluster p <> []).
Proof.
  unfold pool_startup. cbn [negb].
  destruct (init_all config node _ init_pool) as [p1|] eqn:Hi; cbn [mbind result_bind]; [|done].
  assert (pool_ok p1).
  { eapply init_all_ok; [|exact Hi]. split; [|done]. intros cid. right. unfold cluster_absent. cbn.
    by rewrite !lookup_empty. }
  repeat case_bool_decide; cbn [negb andb]; intros [= <-]; (split; [done|]); done.
Qed.
End pool.

(** ** Choosing a client *)

Fixpoint gets (p : pool) (cid : str) (n : nat) : option (result (list nat * pool)) :=
  match n with
  | O => Some (Ok ([], p))
  | S n =>
      match get p cid with
      | None => None
      | Some (Throw e) => Some (Throw e)
      | Some (Ok (i, p)) =>
          match gets p cid n with
          | Some (Ok (l, p)) => Some (Ok (i :: l, p))
          | r => r
          end
      end
  end.

Lemma get_spec p cid ws i :
  wals p !! resolve p cid = Some ws -> ws <> [] -> indexes p !! resolve p cid = Some i ->
  exists p', get p cid = Some (Ok (Z.to_nat (i mod Z.of_nat (length ws)), p'))
    /\ wals p' = wals p /\ resolve p' cid = resolve p cid
    /\ indexes p' !! resolve p cid = Some (wrap 64 (i + 1)).
Proof.
  intros Hw Hne Hi. unfold get. rewrite Hw, Hi. destruct ws as [|w ws]; [done|]. cbn [length Nat.eqb default from_option].
  eexists. split; [done|]. cbn. split_and!; [done|done|]. apply lookup_insert_eq.
Qed.

Lemma gets_spec p cid ws i n :
  wals p !! resolve p cid = Some ws -> ws <> [] -> indexes p !! resolve p cid = Some i ->
  0 <= i -> i + Z.of_nat n <= 2 ^ 64 ->
  exists p', gets p cid n
    = Some (Ok ((fun k => Z.to_nat ((i + Z.of_nat k) mod Z.of_nat (length ws))) <$> seq 0 n, p')).
Proof.
  revert p i. induction n as [|n IH]; intros p i Hw Hne Hi Hpos Hle; [by eexists|].
  destruct (get_spec p cid ws i Hw Hne Hi) as (p1 & Hg & Hw1 & Hr1 & Hi1). cbn [gets]. rewrite Hg.
  destruct (decide (n = 0%nat)) as [->|Hn].
  { exists p1. cbn. by rewrite Z.add_0_r. }
  unfold wrap in Hi1. rewrite Z.mod_small in Hi1 by lia.
  destruct (IH p1 (i + 1)) as [p2 H2]; [by rewrite Hr1, Hw1|done|by rewrite Hr1|lia|lia|]. rewrite H2. exists p2.
  cbn [seq fmap list_fmap]. rewrite Z.add_0_r. do 4 f_equal. rewrite <- fmap_S_seq, <- list_fmap_compose.
  apply list_fmap_ext. intros _ k _. cbn. do 2 f_equal. lia.
Qed.

Lemma mod_window_inj i L a b :
  0 < L -> 0 <= a < L -> 0 <= b < L -> (i + a) mod L = (i + b) mod L -> a = b.
Proof.
  intros HL Ha Hb Heq. assert (Hd : (a - b) mod L = 0).
  { replace (a - b) with ((i + a) - (i + b)) by lia. by rewrite Zminus_mod, Heq, Z.sub_diag. }
  apply Z.mod_divide in Hd; [|lia]. destruct Hd as [q Hq].
  assert (q = 0); [|lia]. destruct (Z.lt_trichotomy q 0) as [|[|]]; [|done|]; exfalso; nia.
Qed.

(** Asked for a client of a cluster as often as the cluster has clients, the pool
    hands out each of them exactly once: the load is balanced. *)
Lemma get_round_robin (p : pool) (cid : str) (ws : list KafkaWALSettings) (i : Z) :
  wals p !! resolve p cid = Some ws -> ws <> [] -> indexes p !! resolve p cid = Some i ->
  0 <= i -> i + Z.of_nat (length ws) <= 2 ^ 64 ->
  exists l p', gets p cid (length ws) = Some (Ok (l, p')) /\ l ≡ₚ seq 0 (length ws).
Proof.
  intros Hw Hne Hi Hpos Hle. destruct (gets_spec p cid ws i _ Hw Hne Hi Hpos Hle) as [p' Hg].
  eexists _, p'. split; [exact Hg|]. assert (HL : 0 < Z.of_nat (length ws)) by (destruct ws; simpl; [done|lia]).
  apply submseteq_length_Permutation; [|by rewrite length_fmap].
  apply NoDup_submseteq.
  - apply NoDup_fmap_2_strong; [|apply NoDup_seq]. intros a b [_ Ha]%elem_of_seq [_ Hb]%elem_of_seq Heq.
    apply Z2Nat.inj in Heq; [|apply Z.mod_pos_bound; lia..].
    apply mod_window_inj in Heq; lia.
  - intros k (j & -> & _)%list_elem_of_fmap. apply elem_of_seq.
    pose proof (Z.mod_pos_bound (i + Z.of_nat j) _ HL). lia.
Qed.

(** A pool that starts with clusters has a default cluster with clients and a client for
    the metadata, so asking for a client without naming a cluster succeeds. *)
Lemma pool_default_client (answers : KConfParams -> bool * (str * str -> bool) * bool * Z)
    (config : Configuration) (node : str) (p : pool) :
  pool_startup answers true config node init_pool = Ok p -> wals p <> ∅ ->
  is_Some (meta_wal p)
  /\ exists i p' ws, get p [] = Some (Ok (i, p')) /\ wals p !! default_cluster p = Some ws /\ (i < length ws)%nat.
Proof.
  intros H Hne. apply pool_startup_inv in H as [[_ Hdef] Hd]. specialize (Hd Hne).
  destruct (Hdef Hd) as [((ws & Hw & Hws) & (j & Hj & _) & _) Hmeta]. split; [done|].
  assert (Hr : resolve p [] = default_cluster p) by (unfold resolve; by rewrite bool_decide_true, bool_decide_false).
  destruct (get_spec p [] ws j) as (p' & Hg & _); [by rewrite Hr|done|by rewrite Hr|].
  eexists _, p', ws. split; [exact Hg|]. split; [done|].
  assert (HL : 0 < Z.of_nat (length ws)) by (destruct ws; simpl; [done|lia]).
  pose proof (Z.mod_pos_bound j _ HL). lia.
Qed.

(** ** Choosing a multiplexer *)

Lemma best_loop_spec use_count i best best_count b c :
  best_loop use_count i best best_count = (b, c) ->
  c <= best_count /\ (forall x, x ∈ use_count -> c <= x)
  /\ ((b = best /\ c = best_count) \/ exists j, use_count !! j = Some c /\ b = (i + j)%nat).
Proof.
  revert i best best_count. induction use_count as [|x l IH]; intros i best best_count H; cbn [best_loop] in H.
  { injection H as <- <-. split_and!; [lia|by intros x ?%elem_of_nil|by left]. }
  destruct (Z.ltb_spec x best_count) as [Hlt|Hge]; apply IH in H as (Hc & Hall & Hcase).
  - split_and!; [lia|intros y [->|?]%elem_of_cons; [lia|by apply Hall]|]. right.
    destruct Hcase as [[-> ->]|(j & Hj & ->)]; [exists 0%nat|exists (S j)]; split; done || lia.
  - split_and!; [lia|intros y [->|?]%elem_of_cons; [lia|by apply Hall]|].
    destruct Hcase as [?|(j & Hj & ->)]; [by left|right; exists (S j); split; done || lia].
Qed.

Lemma create_multiplexer_spec answers p cid max ms :
  pool_ok p -> multiplexers p !! cid = Some (max, ms) -> Z.of_nat (length ms) < max ->
  exists r, create_multiplexer answers p cid max ms = Some r
    /\ forall k p', r = Ok (k, p') -> pool_ok p' /\ k = length ms
         /\ exists s, multiplexers p' !! cid = Some (max, ms ++ [s]).
Proof.
  intros [Hall Hdef] Hm Hlt. destruct (Hall cid) as [Hc|(_ & _ & _ & ?)]; [|congruence].
  pose proof Hc as (_ & _ & [s Hs] & _). unfold create_multiplexer. rewrite Hs. cbn [mbind option_bind].
  eexists. split; [done|]. intros k p' H. destruct (multiplexer_startup _ _); cbn [mbind result_bind] in H; [|done].
  injection H as <- <-. set (s' := with_group_suffix _ _). set (p' := mkPool _ _ _ _ _ _).
  assert (Hok : forall c, cluster_ok p c -> cluster_ok p' c).
  { intros c (Hw & Hi & Hst & max' & ms' & Hm' & Hmax & Hlen). unfold cluster_ok, p'. cbn. split_and!; [done..|].
    destruct (decide (c = cid)) as [->|Hne].
    - rewrite lookup_insert_eq. exists max, (ms ++ [s']). rewrite length_app. simpl. split_and!; [done|congruence || lia|lia].
    - rewrite lookup_insert_ne by done. by exists max', ms'. }
  split_and!; [split|done|exists s'; apply lookup_insert_eq].
  - intros c. destruct (Hall c) as [|(Hw & Hi & Hst & Hm')]; [left; by apply Hok|right].
    unfold cluster_absent, p'. cbn. rewrite lookup_insert_ne by congruence. done.
  - intros Hd. destruct (Hdef Hd) as [Hdc Hmeta]. split; [by apply Hok|done].
Qed.

(** The pool never exceeds a cluster's limit of multiplexers and keeps its
    invariant; it hands out a multiplexer with the fewest users, and starts a new one
    only when there is none, or when all have at least twenty users and the limit
    allows it. *)
Lemma getOrCreateConsumerMultiplexer_spec (answers : KConfParams -> bool * (str * str -> bool) * bool * Z)
    (p : pool) (cid : str) (use_count : list Z) (max : Z) (ms : list KafkaWALSettings) :
  pool_ok p -> multiplexers p !! resolve p cid = Some (max, ms) -> length use_count = length ms ->
  exists r, getOrCreateConsumerMultiplexer answers p cid use_count = Some r
    /\ forall k p', r = Ok (k, p') ->
       pool_ok p'
       /\ ((p' = p /\ exists c, use_count !! k = Some c /\ (forall x, x ∈ use_count -> c <= x)
                               /\ (c < 20 \/ Z.of_nat (length ms) = max))
           \/ (k = length ms /\ (exists s, multiplexers p' !! resolve p cid = Some (max, ms ++ [s]))
                /\ (forall x, x ∈ use_count -> 20 <= x) /\ Z.of_nat (length ms) < max)).
Proof.
  intros Hok Hm Hlen. unfold getOrCreateConsumerMultiplexer. rewrite Hm.
  assert (Hb : 0 < max /\ Z.of_nat (length ms) <= max).
  { destruct (proj1 Hok (resolve p cid)) as [(_ & _ & _ & max' & ms' & Hm' & ?)|(_ & _ & _ & ?)]; congruence || simplify_eq; done. }
  assert (Hnew : Z.of_nat (length ms) < max -> (forall x, x ∈ use_count -> 20 <= x) ->
    exists r, create_multiplexer answers p (resolve p cid) max ms = Some r /\ forall k p', r = Ok (k, p') -> pool_ok p'
       /\ ((p' = p /\ exists c, use_count !! k = Some c /\ (forall x, x ∈ use_count -> c <= x)
                               /\ (c < 20 \/ Z.of_nat (length ms) = max))
           \/ (k = length ms /\ (exists s, multiplexers p' !! resolve p cid = Some (max, ms ++ [s]))
                /\ (forall x, x ∈ use_count -> 20 <= x) /\ Z.of_nat (length ms) < max))).
  { intros Hlt H20. destruct (create_multiplexer_spec answers p _ max ms Hok Hm Hlt) as (r & -> & Hr).
    exists r. split; [done|]. intros k p' Hk. destruct (Hr k p' Hk) as (? & ? & ?). split; [done|by right]. }
  destruct use_count as [|c0 use_count].
  { destruct ms; [|done]. apply Hnew; [simpl; lia|by intros x ?%elem_of_nil]. }
  destruct (best_loop use_count 1 0 c0) as [b c] eqn:Hbest. apply best_loop_spec in Hbest as (Hc & Hall & Hcase).
  assert (Hmin : forall x, x ∈ c0 :: use_count -> c <= x) by (intros x [->|?]%elem_of_cons; auto).
  destruct (Z.geb_spec c 20) as [H20|H20], (Z.ltb_spec (Z.of_nat (length ms)) max) as [Hlt|Hge]; cbn [andb];
    try (apply Hnew; [done|]; intros x Hx; specialize (Hmin x Hx); lia);
    (eexists; split; [done|]; intros k p' [= <- <-]; split; [done|left]; split; [done|]; exists c; split_and!;
     [|done|lia]); destruct Hcase as [[-> ->]|(j & Hj & ->)]; done.
Qed.

(** ** Examples *)

Definition accepting (_ : KConfParams) : bool * (str * str -> bool) * bool * Z := (true, fun _ => true, true, 0).

(** The pool of the configuration with one cluster, which is the default. *)
Definition example_pool : pool :=
  match pool_startup accepting true example_config (lit "node-1") init_pool with Ok p => p | Throw _ => init_pool end.

Lemma example_pool_startup : pool_startup accepting true example_config (lit "node-1") init_pool = Ok example_pool.
Proof.
  assert (H : is_ok (pool_startup accepting true example_config (lit "node-1") init_pool) = true) by (by vm_compute).
  unfold example_pool. destruct (pool_startup accepting true example_config (lit "node-1") init_pool); [reflexivity|discriminate].
Qed.

(** What the pool of the example holds. *)
Lemma example_pool_content :
  match wals example_pool !! resolve example_pool [] with Some ws => length ws = 2%nat | None => False end
  /\ indexes example_pool !! resolve example_pool [] = Some 0
  /\ (fst <$> multiplexers example_pool !! resolve example_pool []) = Some 10
  /\ (length ∘ snd <$> multiplexers example_pool !! resolve example_pool []) = Some 0%nat.
Proof. vm_compute. repeat split. Qed.

Lemma example_pool_ok : pool_ok example_pool.
Proof. apply (pool_startup_inv _ _ _ _ example_pool_startup). Qed.

Lemma get_round_robin_witness :
  exists l p', gets example_pool [] 2 = Some (Ok (l, p')) /\ l ≡ₚ seq 0 2.
Proof.
  destruct example_pool_content as (Hw & Hi & _).
  destruct (wals example_pool !! resolve example_pool []) as [ws|] eqn:Hws; [|destruct Hw]. rewrite <- Hw.
  apply (get_round_robin example_pool [] ws 0); [exact Hws| |exact Hi|lia|rewrite Hw; lia].
  intros ->. discriminate Hw.
Defined.

Lemma getOrCreateConsumerMultiplexer_spec_witness :
  exists r, getOrCreateConsumerMultiplexer accepting example_pool [] [] = Some r
    /\ forall k p', r = Ok (k, p') -> pool_ok p'.
Proof.
  destruct example_pool_content as (_ & _ & Hmax & Hms).
  destruct (multiplexers example_pool !! resolve example_pool []) as [[max ms]|] eqn:Hm; [|discriminate Hms].
  destruct (getOrCreateConsumerMultiplexer_spec accepting example_pool [] [] max ms) as (r & Hr & Hk);
    [apply example_pool_ok|exact Hm|injection Hms as Hl; symmetry; exact Hl|].
  exists r. split; [exact Hr|]. intros k p' He. apply (Hk k p' He).
Defined.
