(* ===== verification/IngestingBlocks.v ===== *)
(** * IngestingBlocks: the progress of asynchronous ingestion

    Models src/src/Storages/DistributedMergeTree/IngestingBlocks.{h,cpp}: the
    blocks of a query that are on their way, the progress that clients poll and
    the expiry of old queries.  [blockIds] and [timedBlockIds] have locks of
    their own, and [add] takes them one after the other: its two
    halves, the turns of the expiry loop and the other operations interleave. *)

From S2P Require Import Prelude TextFormat.

Local Open Scope Z_scope.

(** ** State *)

Record BlockIdInfo : Type := mkInfo {
  total : Z;
  err : Z;
  ids : gset Z;
}.

Definition new_info : BlockIdInfo := mkInfo 0 0 ∅.

(** [adding] are the queries that [add] has entered into [blockIds] and not yet
    stamped. *)
Record ingesting : Type := mkIngesting {
  blockIds : gmap str BlockIdInfo;
  timedBlockIds : list (Z * str);
  adding : list str;
}.

Definition empty_ingesting : ingesting := mkIngesting ∅ [] [].

(** ** Operations *)

(** [add] under [rwlock]: whether the block is new, and whether the query was
    known. *)
Definition add_block (id : str) (block_id : Z) (s : gmap str BlockIdInfo) : gmap str BlockIdInfo * bool * bool :=
  let hasId := bool_decide (is_Some (s !! id)) in
  let info := default new_info (s !! id) in
  if decide (block_id ∈ ids info) then (<[id := info]> s, false, hasId)
  else (<[id := mkInfo (wrap 16 (total info + 1)) (err info) ({[block_id]} ∪ ids info)]> s, true, hasId).

(** [duration_cast] of the nanoseconds of the steady clock. *)
Definition elapsed_sec (now stamp : Z) : Z := Z.quot (now - stamp) 1000000000.

(** One turn of the loop of [removeExpiredBlockIds]: the front of the queue, when it is
    old enough, with the number of its blocks that are pending.  [None] is the iterator past the end. *)
Definition expire_front (now timeout_sec : Z) (s : ingesting) : option (ingesting * option (str * nat)) :=
  match timedBlockIds s with
  | [] => Some (s, None)
  | (stamp, id) :: queue =>
      if elapsed_sec now stamp >=? timeout_sec then
        info ← blockIds s !! id;
        Some (mkIngesting (delete id (blockIds s)) queue (adding s), Some (id, size (ids info)))
      else Some (s, None)
  end.

(** The whole loop, at one time, when nothing interleaves. *)
Fixpoint removeExpiredBlockIds (fuel : nat) (now timeout_sec : Z) (s : ingesting)
    : option (ingesting * list (str * nat)) :=
  match fuel with
  | O => Some (s, [])
  | S fuel =>
      '(s, e) ← expire_front now timeout_sec s;
      match e with
      | None => Some (s, [])
      | Some e => '(s, es) ← removeExpiredBlockIds fuel now timeout_sec s; Some (s, e :: es)
      end
  end.

(** [add] when nothing interleaves.  The loop ends when the queue is empty. *)
Definition add (id : str) (block_id : Z) (now timeout_sec : Z) (s : ingesting) : option (ingesting * bool) :=
  let '(m, added, hasId) := add_block id block_id (blockIds s) in
  let s := mkIngesting m (if hasId then timedBlockIds s else timedBlockIds s ++ [(now, id)]) (adding s) in
  '(s, _) ← removeExpiredBlockIds (length (timedBlockIds s)) now timeout_sec s;
  Some (s, added).

Definition remove (id : str) (block_id : Z) (s : gmap str BlockIdInfo) : gmap str BlockIdInfo * bool :=
  match s !! id with
  | Some info =>
      if decide (block_id ∈ ids info)
      then (<[id := mkInfo (total info) (err info) (ids info ∖ {[block_id]})]> s, true)
      else (s, false)
  | None => (s, false)
  end.

(** The progress: [total] is 16 bits wide and the rest of the expression a
    [size_t]; [None] is the division by zero. *)
Definition progress (info : BlockIdInfo) : option Z :=
  if total info =? 0 then None
  else Some (to_signed 32 (wrap 32
         (wrap 64 (wrap 64 (total info - Z.of_nat (size (ids info))) * 100) / total info))).

Definition status (id : str) (s : gmap str BlockIdInfo) : option (str * Z) :=
  match s !! id with
  | None => Some (lit "Unknown", -1)
  | Some info =>
      p ← progress info;
      if negb (err info =? 0) then Some (lit "Failed", p)
      else if p <? 100 then Some (lit "Processing", p)
      else Some (lit "Succeeded", p)
  end.

Fixpoint getStatuses (poll_ids : list str) (s : gmap str BlockIdInfo) (statuses : list (str * str * Z))
    : option (list (str * str * Z)) :=
  match poll_ids with
  | [] => Some statuses
  | id :: poll_ids =>
      match s !! id with
      | None => getStatuses poll_ids s (statuses ++ [(id, lit "Unknown", -1)])
      | Some info =>
          p ← progress info;
          let statuses := if negb (err info =? 0) then statuses ++ [(id, lit "Failed", p)] else statuses in
          getStatuses poll_ids s
            (statuses ++ [(id, if p <? 100 then lit "Processing" else lit "Succeeded", p)])
      end
  end.

Definition outstandingBlocks (s : gmap str BlockIdInfo) : nat :=
  map_fold (fun _ info n => size (ids info) + n)%nat 0%nat s.

Definition fail (id : str) (e : Z) (s : gmap str BlockIdInfo) : gmap str BlockIdInfo :=
  match s !! id with Some info => <[id := mkInfo (total info) e (ids info)]> s | None => s end.

(** ** Interleavings *)

Inductive ingest_step (timeout_sec : Z) : ingesting -> ingesting -> Prop :=
| step_add s q a id block_id m added hasId :
    add_block id block_id s = (m, added, hasId) ->
    ingest_step timeout_sec (mkIngesting s q a) (mkIngesting m q (if hasId then a else a ++ [id]))
| step_stamp s q a1 a2 id now :
    ingest_step timeout_sec (mkIngesting s q (a1 ++ id :: a2)) (mkIngesting s (q ++ [(now, id)]) (a1 ++ a2))
| step_expire s now s' e :
    expire_front now timeout_sec s = Some (s', Some e) -> ingest_step timeout_sec s s'
| step_remove s q a id block_id :
    ingest_step timeout_sec (mkIngesting s q a) (mkIngesting (remove id block_id s).1 q a)
| step_fail s q a id e :
    ingest_step timeout_sec (mkIngesting s q a) (mkIngesting (fail id e s) q a).

Definition ingest_reachable (timeout_sec : Z) (s : ingesting) : Prop :=
  rtc (ingest_step timeout_sec) empty_ingesting s.

(** ** Every query is in the queue once *)

Definition tracked (s : ingesting) : Prop :=
  NoDup ((timedBlockIds s).*2 ++ adding s)
  /\ forall id, id ∈ (timedBlockIds s).*2 ++ adding s <-> is_Some (blockIds s !! id).

Lemma add_block_dom id block_id s m added hasId :
  add_block id block_id s = (m, added, hasId) ->
  hasId = bool_decide (is_Some (s !! id)) /\ forall i, is_Some (m !! i) <-> is_Some (s !! i) \/ i = id.
Proof.
  unfold add_block. case_decide; intros [= <- <- <-]; (split; [done|]); intros i;
    (destruct (decide (i = id)) as [->|Hne]; [rewrite lookup_insert_eq|rewrite lookup_insert_ne by done]); naive_solver.
Qed.

Lemma remove_dom id block_id s i : is_Some ((remove id block_id s).1 !! i) <-> is_Some (s !! i).
Proof.
  unfold remove. destruct (s !! id) as [info|] eqn:Hid; [|done]. case_decide; [|done]. simpl.
  destruct (decide (i = id)) as [->|Hne]; [by rewrite lookup_insert_eq, Hid|by rewrite lookup_insert_ne].
Qed.

Lemma fail_dom id e s i : is_Some (fail id e s !! i) <-> is_Some (s !! i).
Proof.
  unfold fail. destruct (s !! id) as [info|] eqn:Hid; [|done].
  destruct (decide (i = id)) as [->|Hne]; [by rewrite lookup_insert_eq, Hid|by rewrite lookup_insert_ne].
Qed.

Lemma ingest_step_tracked timeout_sec s s' : ingest_step timeout_sec s s' -> tracked s -> tracked s'.
Proof.
  intros Hstep [Hnd Hdom]. unfold tracked.
  destruct Hstep as [s q a id b m added hasId Hadd|s q a1 a2 id now|s now s' e He|s q a id b|s q a id e];
    cbn [timedBlockIds adding blockIds] in *.
  - apply add_block_dom in Hadd as [-> Hm]. case_bool_decide as Hid.
    + split; [done|]. intros i. rewrite Hdom, Hm. naive_solver.
    + rewrite (assoc_L (++)). split.
      * apply NoDup_app. split_and!; [done| |apply NoDup_singleton].
        intros i Hi ->%list_elem_of_singleton. by apply Hid, Hdom.
      * intros i. rewrite elem_of_app, Hdom, Hm, list_elem_of_singleton. done.
  - assert (Hp : (q ++ [(now, id)]).*2 ++ a1 ++ a2 ≡ₚ q.*2 ++ a1 ++ id :: a2).
    { rewrite fmap_app. simpl. rewrite <- (assoc_L (++)). f_equiv. simpl. apply Permutation_middle. }
    rewrite Hp. split; [done|]. intros i. by rewrite <- Hdom, Hp.
  - unfold expire_front in He. destruct s as [m [|[stamp id] q] a]; cbn [timedBlockIds adding blockIds] in *; [done|].
    destruct (elapsed_sec now stamp >=? timeout_sec); [|done]. destruct (m !! id) as [info|]; simpl in He; [|done].
    injection He as <- <-. cbn [timedBlockIds adding blockIds]. rewrite fmap_cons in Hnd. cbn [app] in Hnd.
    apply NoDup_cons in Hnd as [Hnew Hnd]. split; [done|]. intros i. specialize (Hdom i). cbn [fmap list_fmap app snd] in Hdom.
    rewrite elem_of_cons in Hdom. destruct (decide (i = id)) as [->|Hne].
    + rewrite lookup_delete_eq. split; [done|]. by intros [].
    + rewrite lookup_delete_ne by done. tauto.
  - split; [done|]. intros i. by rewrite remove_dom.
  - split; [done|]. intros i. by rewrite fail_dom.
Qed.

(** In every interleaving of the two locks, each query with blocks is
    stamped, or about to be, exactly once, and nothing else is: so the expiry
    loop always finds the query at the front of its queue, and every query expires. *)
Lemma expiry_finds_query (timeout_sec now : Z) (s : ingesting) :
  ingest_reachable timeout_sec s -> tracked s /\ is_Some (expire_front now timeout_sec s).
Proof.
  intros H. assert (Ht : tracked s).
  { refine (rtc_ind_r tracked empty_ingesting _ _ s H).
    - split; [constructor|]. intros id. simpl. rewrite elem_of_nil. split; [done|]. by intros [? ?%lookup_empty_Some].
    - intros s1 s2 _ Hstep Hi. by eapply ingest_step_tracked. }
  split; [done|]. destruct Ht as [_ Hdom]. unfold expire_front.
  destruct s as [m [|[stamp id] q] a]; cbn [timedBlockIds adding blockIds] in *; [done|].
  destruct (elapsed_sec now stamp >=? timeout_sec); [|done].
  destruct (proj1 (Hdom id)) as [info ->]; [apply list_elem_of_here|]. done.
Qed.

Lemma expiry_finds_query_witness :
  tracked (mkIngesting {[lit "q" := mkInfo 1 0 {[7]}]} [(0, lit "q")] [])
  /\ is_Some (expire_front 200000000000 120 (mkIngesting {[lit "q" := mkInfo 1 0 {[7]}]} [(0, lit "q")] [])).
Proof.
  apply (expiry_finds_query 120 200000000000). unfold ingest_reachable.
  eapply rtc_l; [by apply (step_add 120 ∅ [] [] (lit "q") 7 {[lit "q" := mkInfo 1 0 {[7]}]} true false)|].
  eapply rtc_once. apply (step_stamp 120 _ [] [] [] (lit "q") 0).
Defined.

(** ** The progress of a query *)

Inductive query_op : Type := OpAdd (block_id : Z) | OpRemove (block_id : Z) | OpFail (e : Z).

(** The operations on one query, and the number of blocks they add. *)
Definition run_op (id : str) (st : gmap str BlockIdInfo * Z) (op : query_op) : gmap str BlockIdInfo * Z :=
  match op with
  | OpAdd b => let '(m, added, _) := add_block id b st.1 in (m, if added then st.2 + 1 else st.2)
  | OpRemove b => ((remove id b st.1).1, st.2)
  | OpFail e => (fail id e st.1, st.2)
  end.

Definition run_ops (id : str) (ops : list query_op) : gmap str BlockIdInfo * Z := foldl (run_op id) (∅, 0) ops.

(** [total] counts the blocks that were added, in 16 bits. *)
Definition counted (id : str) (st : gmap str BlockIdInfo * Z) : Prop :=
  0 <= st.2
  /\ match st.1 !! id with
     | Some info => total info = wrap 16 st.2 /\ Z.of_nat (size (ids info)) <= st.2
     | None => st.2 = 0
     end.

Lemma run_op_counted id st op : counted id st -> counted id (run_op id st op).
Proof.
  destruct st as [s n]. unfold counted. cbn [fst snd]. intros [Hn Hs]. destruct op as [b|b|e]; cbn [run_op fst snd].
  - unfold add_block. set (info := default new_info (s !! id)).
    assert (Hi : total info = wrap 16 n /\ Z.of_nat (size (ids info)) <= n).
    { unfold info. destruct (s !! id); [done|]. subst n. done. }
    clearbody info. destruct Hi as [Ht Hsz]. case_decide as Hb; cbn [fst snd]; rewrite lookup_insert_eq; cbn [total ids].
    + done.
    + split; [lia|]. rewrite Ht. unfold wrap. rewrite Zplus_mod_idemp_l. split; [done|].
      rewrite size_union by set_solver. rewrite size_singleton. lia.
  - unfold remove. destruct (s !! id) as [info|] eqn:Hid; cbn [fst]; [|by rewrite Hid].
    case_decide as Hb; cbn [fst]; [|by rewrite Hid]. rewrite lookup_insert_eq. cbn [total ids].
    split_and!; [done|tauto|]. pose proof (subseteq_size (ids info ∖ {[b]}) (ids info)). set_solver by lia.
  - unfold fail. destruct (s !! id) as [info|] eqn:Hid; [by rewrite lookup_insert_eq|by rewrite Hid].
Qed.

Lemma run_ops_counted id ops : counted id (run_ops id ops).
Proof.
  unfold run_ops. assert (H : counted id (∅, 0)) by (split; [done|by simpl; rewrite lookup_empty]).
  revert H. generalize (∅ : gmap str BlockIdInfo, 0). induction ops as [|op ops IH]; intros st H; [done|].
  apply IH. by apply run_op_counted.
Qed.

Lemma progress_small info n :
  total info = n -> 0 < n < 2 ^ 16 -> Z.of_nat (size (ids info)) <= n ->
  let p := (n - Z.of_nat (size (ids info))) * 100 / n in
  progress info = Some p /\ 0 <= p <= 100 /\ (p = 100 <-> ids info = ∅).
Proof.
  intros Ht Hn Hs p. unfold progress. rewrite Ht. rewrite (proj2 (Z.eqb_neq n 0)) by lia.
  set (k := Z.of_nat (size (ids info))) in *.
  assert (Hp : 0 <= p <= 100).
  { unfold p. split; [apply Z.div_pos; lia|]. apply Z.div_le_upper_bound; lia. }
  unfold wrap. rewrite (Z.mod_small (n - k)), (Z.mod_small ((n - k) * 100)) by lia. fold p.
  rewrite Z.mod_small by lia. unfold to_signed. rewrite (proj2 (Z.ltb_lt p _)) by lia.
  split_and!; [done|lia..|]. split; intros H.
  - assert (k = 0); [|apply leibniz_equiv, size_empty_inv; lia].
    destruct (decide (k = 0)); [done|]. exfalso. assert (p < 100); [|lia]. unfold p. apply Z.div_lt_upper_bound; lia.
  - unfold p, k. rewrite H, size_empty, Z.sub_0_r, Z.mul_comm. apply Z.div_mul. lia.
Qed.

(** As long as a query has added fewer than [2 ^ 16] blocks, the progress a
    client polls is the percentage of its blocks that are written, between 0 and
    100; it is reported as succeeded exactly when no block is pending, unless the
    query has failed. *)
Lemma status_spec (id : str) (ops : list query_op) :
  let '(s, n) := run_ops id ops in
  0 < n < 2 ^ 16 ->
  exists info, s !! id = Some info
    /\ (let p := (n - Z.of_nat (size (ids info))) * 100 / n in
        0 <= p <= 100
        /\ status id s = Some (if decide (err info = 0)
                               then if decide (ids info = ∅) then lit "Succeeded" else lit "Processing"
                               else lit "Failed", p)).
Proof.
  pose proof (run_ops_counted id ops) as Hc. destruct (run_ops id ops) as [s n]. intros Hn. destruct Hc as [_ Hc].
  cbn [fst snd] in Hc. destruct (s !! id) as [info|] eqn:Hid; [|lia]. destruct Hc as [Ht Hs]. exists info.
  unfold wrap in Ht. rewrite Z.mod_small in Ht by lia.
  destruct (progress_small info n Ht Hn Hs) as (Hp & Hb & H100). split; [done|]. cbv zeta. split; [done|].
  unfold status. rewrite Hid, Hp. cbn [mbind option_bind].
  destruct (Z.eqb_spec (err info) 0) as [He|He]; cbn [negb]; [rewrite decide_True by done|by rewrite decide_False].
  destruct (Z.ltb_spec ((n - Z.of_nat (size (ids info))) * 100 / n) 100) as [Hlt|Hge].
  - rewrite decide_False; [done|]. intros H%H100. lia.
  - rewrite decide_True; [done|]. apply H100. lia.
Qed.

Lemma status_spec_witness :
  exists info, (run_ops (lit "q") [OpAdd 1; OpAdd 2; OpRemove 1]).1 !! lit "q" = Some info
    /\ status (lit "q") (run_ops (lit "q") [OpAdd 1; OpAdd 2; OpRemove 1]).1
       = Some (if decide (err info = 0)
               then if decide (ids info = ∅) then lit "Succeeded" else lit "Processing"
               else lit "Failed", (2 - Z.of_nat (size (ids info))) * 100 / 2).
Proof.
  destruct (status_spec (lit "q") [OpAdd 1; OpAdd 2; OpRemove 1]) as (info & H1 & _ & H2); [done|].
  exists info. split; [exact H1|exact H2].
Defined.

(** A query that adds and writes [n] blocks one after the other. *)
Definition add_remove (n : nat) : list query_op := concat (replicate n [OpAdd 1; OpRemove 1]).

Lemma run_add_remove id n st :
  (forall info, st.1 !! id = Some info -> 1 ∉ ids info) ->
  let st' := foldl (run_op id) st (add_remove n) in
  st'.2 = st.2 + Z.of_nat n /\ (n <> 0%nat -> is_Some (st'.1 !! id)).
Proof.
  revert st. induction n as [|n IH]; intros [s k] Hids; [split; [simpl; lia|done]|].
  unfold add_remove. cbn [replicate concat foldl app]. fold (add_remove n).
  set (st1 := run_op id (run_op id (s, k) (OpAdd 1)) (OpRemove 1)).
  assert (H1 : st1.2 = k + 1 /\ exists info, st1.1 !! id = Some info /\ 1 ∉ ids info).
  { unfold st1. cbn [run_op fst snd]. unfold add_block. set (info := default new_info (s !! id)).
    assert (Hi : 1 ∉ ids info).
    { unfold info. cbn [fst] in Hids. destruct (s !! id) as [i|]; [by apply Hids|apply not_elem_of_empty]. }
    clearbody info. rewrite decide_False by done. cbn [fst snd]. split; [done|]. unfold remove. rewrite lookup_insert_eq.
    cbn [ids]. rewrite decide_True by set_solver. cbn [fst]. rewrite lookup_insert_eq. eexists. split; [done|].
    simpl. set_solver. }
  clearbody st1. destruct H1 as [Hk (info & Hid & Hni)].
  destruct (IH st1) as [Hk' Hs']; [by intros ? [= <-]%(eq_trans (eq_sym Hid))|].
  split; [simpl; lia|]. intros _. destruct n as [|n]; [by exists info|by apply Hs'].
Qed.

(** The counter of a query's blocks is 16 bits wide: a query that has
    ingested [2 ^ 16] blocks makes the poll of its status divide by zero. *)
Lemma status_overflow (id : str) (ops : list query_op) (n : Z) :
  (run_ops id ops).2 = n -> n <> 0 -> n mod 2 ^ 16 = 0 -> status id (run_ops id ops).1 = None.
Proof.
  intros Hn Hne Hmod. destruct (run_ops_counted id ops) as [_ Hc]. unfold status.
  destruct ((run_ops id ops).1 !! id) as [info|]; [|congruence]. destruct Hc as [Ht _]. unfold wrap in Ht.
  unfold progress. rewrite Ht, Hn, Hmod. done.
Qed.

Lemma status_overflow_witness : status (lit "q") (run_ops (lit "q") (add_remove (Z.to_nat 65536))).1 = None.
Proof.
  apply (status_overflow (lit "q") (add_remove (Z.to_nat 65536)) 65536); [|lia|done].
  unfold run_ops. destruct (run_add_remove (lit "q") (Z.to_nat 65536) (∅, 0)) as [H _]; [simpl; intros info Hi; by apply lookup_empty_Some in Hi|].
  rewrite H. cbn [snd]. lia.
Defined.

(** Polling several queries gives each its own status, except that a failed
    query is listed twice, the second time as processing or succeeded. *)
Lemma getStatuses_spec (poll_ids : list str) (s : gmap str BlockIdInfo) (acc : list (str * str * Z)) :
  (forall id info, s !! id = Some info -> total info <> 0) ->
  exists entries, getStatuses poll_ids s acc = Some (acc ++ concat entries)
    /\ Forall2 (fun id es => exists st p, status id s = Some (st, p)
                   /\ es = (id, st, p)
                           :: (if decide (st = lit "Failed")
                               then [(id, if p <? 100 then lit "Processing" else lit "Succeeded", p)] else []))
         poll_ids entries.
Proof.
  intros Htot. revert acc. induction poll_ids as [|id poll_ids IH]; intros acc.
  { exists []. rewrite app_nil_r. by split; [|constructor]. }
  assert (Hone : exists es, getStatuses (id :: poll_ids) s acc = getStatuses poll_ids s (acc ++ es)
    /\ exists st p, status id s = Some (st, p)
         /\ es = (id, st, p) :: (if decide (st = lit "Failed")
                                 then [(id, if p <? 100 then lit "Processing" else lit "Succeeded", p)] else [])).
  { cbn [getStatuses]. unfold status. destruct (s !! id) as [info|] eqn:Hid; [|by eexists; split; [|do 2 eexists]].
    unfold progress. rewrite (proj2 (Z.eqb_neq _ 0) (Htot _ _ Hid)). cbn [mbind option_bind].
    set (p := to_signed 32 _). destruct (err info =? 0); cbn [negb].
    - eexists. split; [done|]. exists (if p <? 100 then lit "Processing" else lit "Succeeded"), p.
      split; [by destruct (p <? 100)|]. by destruct (p <? 100).
    - eexists. rewrite <- (assoc_L (++)). split; [done|]. by exists (lit "Failed"), p. }
  destruct Hone as (es & -> & Hes). destruct (IH (acc ++ es)) as (entries & -> & HF).
  exists (es :: entries). cbn [concat]. rewrite (assoc_L (++)). by split; [|constructor].
Qed.
