(* ===== verification/IngestStream.v ===== *)
(** * IngestStream: sharding a block and appending it to the log

    Models src/src/Interpreters/createBlockSelector.cpp, the selector of
    src/src/Storages/DistributedMergeTree/StorageDistributedMergeTree.cpp, the
    scattering of a column in src/src/Columns/IColumnImpl.h and
    src/src/Storages/DistributedMergeTree/DistributedMergeTreeBlockOutputStream.{h,cpp}.
    What the log answers to an append, and when it reports a delivery, are
    arguments. *)

From S2P Require Import Prelude TextFormat WalRecord KafkaWal Blocks IngestingBlocks.

Local Open Scope Z_scope.

(** ** Selectors *)

(** The integer types of a sharding key. *)
Record int_type : Type := mkIntType { width : Z; is_signed : bool }.

Definition UInt8 := mkIntType 8 false.
Definition UInt16 := mkIntType 16 false.
Definition UInt32 := mkIntType 32 false.
Definition UInt64 := mkIntType 64 false.
Definition Int8 := mkIntType 8 true.
Definition Int16 := mkIntType 16 true.
Definition Int32 := mkIntType 32 true.
Definition Int64 := mkIntType 64 true.

Definition in_type (t : int_type) (z : Z) : Prop :=
  if is_signed t then - 2 ^ (width t - 1) <= z < 2 ^ (width t - 1) else 0 <= z < 2 ^ width t.

(** A column of keys: one value repeated, or a value per row. *)
Inductive key_column : Type :=
| KConst (data : Z) (num_rows : nat)
| KFull (data : list Z).

(** The slot of a key: a constant is converted to the unsigned type of its
    width, a row to 32 or 64 bits. *)
Definition const_slot (t : int_type) (total_weight : Z) (data : Z) : Z := wrap (width t) data mod total_weight.

Definition row_slot (t : int_type) (total_weight : Z) (data : Z) : Z :=
  let x := wrap (if width t <=? 32 then 32 else 64) data in
  x - (x / total_weight) * total_weight.

(** [None]: an index out of the bounds of [slots]. *)
Definition createBlockSelector (t : int_type) (column : key_column) (slots : list nat) : option (list nat) :=
  let total_weight := Z.of_nat (length slots) in
  match column with
  | KConst data num_rows =>
      shard_num ← slots !! Z.to_nat (const_slot t total_weight data);
      Some (replicate num_rows shard_num)
  | KFull data => mapM (fun x => slots !! Z.to_nat (row_slot t total_weight x)) data
  end.

(** The constructor: a slot per shard. *)
Definition slot_to_shard (shards : nat) : list nat := seq 0 shards.

(** [createSelector] of the result of the sharding expression: [None] is a type
    that is not an integer.  A column of low cardinality has been
    converted to a full one. *)
Definition createSelector (shards : nat) (type : option int_type) (column : key_column) : option (result (list nat)) :=
  match type with
  | None => Some (Throw (DBException ErrorCodes.TYPE_MISMATCH))
  | Some t => selector ← createBlockSelector t column (slot_to_shard shards); Some (Ok selector)
  end.

(** ** Sharding *)

Section sharding.
Context {V : Type}.
Notation Block := (list (column V)).

(** [scatterImpl]: the rows in turn.  [None] is a row for a column that is not
    there. *)
Fixpoint scatter_loop (data : list V) (selector : list nat) (columns : list (list V)) : option (list (list V)) :=
  match data, selector with
  | x :: data, s :: selector =>
      if decide (s < length columns)%nat
      then scatter_loop data selector (alter (fun c => c ++ [x]) s columns)
      else None
  | _, _ => Some columns
  end.

Definition scatter (num_columns : nat) (selector : list nat) (data : list V) : option (result (list (list V))) :=
  if decide (length data = length selector)
  then columns ← scatter_loop data selector (replicate num_columns []); Some (Ok columns)
  else Some (Throw (DBException ErrorCodes.SIZES_OF_COLUMNS_DOESNT_MATCH)).

Definition with_data (c : column V) (data : list V) : column V := mkColumn (col_name c) (col_default c) data.

Definition cloneEmpty (b : Block) : Block := map (fun c => with_data c []) b.

(** The loop over the columns: column [idx] of every shard's block is replaced. *)
Fixpoint shard_columns (shards : nat) (selector : list nat) (columns : Block) (idx : nat) (sharded : list Block)
    : option (result (list Block)) :=
  match columns with
  | [] => Some (Ok sharded)
  | c :: columns =>
      r ← scatter shards selector (col_data c);
      match r with
      | Throw e => Some (Throw e)
      | Ok datas =>
          shard_columns shards selector columns (S idx)
            (zip_with (fun b data => alter (fun c => with_data c data) idx b) sharded datas)
      end
  end.

Definition doShardBlock (shards : nat) (selector : list nat) (b : Block) : option (result (list (Block * nat))) :=
  r ← shard_columns shards selector b 0 (replicate shards (cloneEmpty b));
  match r with
  | Throw e => Some (Throw e)
  | Ok sharded =>
      Some (Ok (filter (fun bs => rows bs.1 <> 0%nat) (zip sharded (seq 0 (length sharded)))))
  end.

(** [shardBlock]: [random] is the index [getRandomShardIndex] draws. *)
Definition shardBlock (shards : nat) (sharding_key_expr : bool) (selector : list nat) (random : nat) (b : Block)
    : option (result (list (Block * nat))) :=
  if (1 <? shards)%nat then
    if sharding_key_expr then doShardBlock shards selector b
    else Some (Ok [(b, random)])
  else Some (Ok [(b, 0%nat)]).

(** ** The output stream *)

Record stream : Type := mkStream { outstanding : Z; committed : Z; errcode : Z }.

Definition new_stream : stream := mkStream 0 0 ErrorCodes.OK.

Definition getIngestMode (query_mode default_mode : str) : str :=
  if negb (bool_decide (query_mode = [])) then query_mode
  else if negb (bool_decide (default_mode = [])) then default_mode
  else lit "async".

(** Whom the log reports the delivery of a record to: the storage, for the block
    of a query; the stream; nobody; or the append itself waits for it. *)
Inductive report_to : Type :=
| To_storage (query_status_poll_id : str) (block_id : Z)
| To_stream
| To_nobody
| To_append.

(** What [write] leaves: the stream, the ingesting blocks, the appends made and
    the exception that ended it. *)
Record write_result : Type := mkWrite {
  wr_stream : stream;
  wr_ingesting : ingesting;
  wr_appends : list (WalRecord Block * report_to);
  wr_exception : option exn;
}.

(** The record of a sharded block. *)
Definition shard_record (idempotent_key : str) (bs : Block * nat) : WalRecord Block :=
  let r := mkRecord ADD_DATA_BLOCK ∅ bs.1 [] (Z.of_nat bs.2) (-1) in
  if negb (bool_decide (idempotent_key = [])) then setIdempotentKey idempotent_key r else r.

(** The loop over the sharded blocks.  [answers] are the codes the appends
    return; [None] is an append that does not return, or the iterator past the
    end in the expiry of old queries. *)
Fixpoint write_loop (mode poll_id idempotent_key : str) (now timeout_sec : Z)
    (blocks : list (Block * nat)) (answers : list Z) (st : stream) (ing : ingesting)
    (appends : list (WalRecord Block * report_to)) : option write_result :=
  match blocks with
  | [] => Some (mkWrite st ing appends None)
  | bs :: blocks =>
      let record := shard_record idempotent_key bs in
      let next to ing ret :=
        let appends := appends ++ [(record, to)] in
        if negb (ret =? ErrorCodes.OK) then Some (mkWrite st ing appends (Some (DBException ret)))
        else write_loop mode poll_id idempotent_key now timeout_sec blocks (tail answers)
               (mkStream (wrap 32 (outstanding st + 1)) (committed st) (errcode st)) ing appends in
      if decide (mode = lit "async") then
        let block_id := wrap 16 (outstanding st) in
        '(ing, _) ← IngestingBlocks.add poll_id block_id now timeout_sec ing;
        ret ← head answers; next (To_storage poll_id block_id) ing ret
      else if decide (mode = lit "sync") then ret ← head answers; next To_stream ing ret
      else if decide (mode = lit "fire_and_forget") then ret ← head answers; next To_nobody ing ret
      else if decide (mode = lit "ordered") then ret ← head answers; next To_append ing ret
      else Some (mkWrite st ing appends (Some (DBException ErrorCodes.UNSUPPORTED_PARAMETER)))
  end.

Definition write (query_mode default_mode poll_id idempotent_key : str) (now timeout_sec : Z)
    (shards : nat) (sharding_key_expr : bool) (selector : list nat) (random : nat)
    (b : Block) (answers : list Z) (st : stream) (ing : ingesting) : option write_result :=
  if (rows b =? 0)%nat then Some (mkWrite st ing [] None)
  else
    r ← shardBlock shards sharding_key_expr selector random b;
    match r with
    | Throw e => Some (mkWrite st ing [] (Some e))
    | Ok blocks =>
        write_loop (getIngestMode query_mode default_mode) poll_id idempotent_key now timeout_sec
          blocks answers st ing []
    end.

(** [writeCallback] of the stream. *)
Definition stream_callback (st : stream) (result : AppendResult) : stream :=
  mkStream (outstanding st) (wrap 32 (committed st + 1))
    (if negb (ar_err result =? ErrorCodes.OK) then ar_err result else errcode st).

(** [writeCallback] of the storage. *)
Definition storage_callback (result : AppendResult) (poll_id : str) (block_id : Z) (s : gmap str BlockIdInfo)
    : gmap str BlockIdInfo :=
  if negb (ar_err result =? 0) then fail poll_id (wrap 16 (ar_err result)) s else (remove poll_id block_id s).1.

(** [flush]: each poll of the log makes some reports.  [None] is still waiting. *)
Fixpoint flush_loop (st : stream) (polls : list (list AppendResult)) : option (result stream) :=
  if decide (committed st = outstanding st) then
    Some (if negb (errcode st =? ErrorCodes.OK) then Throw (DBException (errcode st)) else Ok st)
  else match polls with
       | [] => None
       | reports :: polls => flush_loop (foldl stream_callback st reports) polls
       end.

Definition flush (query_mode : str) (st : stream) (polls : list (list AppendResult)) : option (result stream) :=
  if decide (query_mode <> lit "sync") then Some (Ok st) else flush_loop st polls.

(** The destructor flushes; an exception that leaves a destructor ends the
    process. *)
Inductive destroyed : Type := Destroyed | Terminated.

Definition destroy (query_mode : str) (st : stream) (polls : list (list AppendResult)) : option destroyed :=
  r ← flush query_mode st polls; Some (match r with Ok _ => Destroyed | Throw _ => Terminated end).
End sharding.
Arguments write_result V : clear implicits.

(** ** Selectors of constants and of rows *)

(** The type of a key as ClickHouse has it. *)
Definition int_type_ok (t : int_type) : Prop := width t = 8 \/ width t = 16 \/ width t = 32 \/ width t = 64.

Lemma row_slot_mod t n z : 0 < n -> row_slot t n z = wrap (if width t <=? 32 then 32 else 64) z mod n.
Proof. intros Hn. unfold row_slot. rewrite Z.mod_eq by lia. lia. Qed.

Lemma mapM_replicate {A B} (f : A -> option B) x n :
  mapM f (replicate n x) = match n with O => Some [] | _ => y ← f x; Some (replicate n y) end.
Proof.
  induction n as [|n IH]; [done|]. cbn [replicate mapM]. rewrite IH. destruct (f x) as [y|] eqn:Hf; simpl; [|done].
  by destruct n; simpl; rewrite ?Hf.
Qed.

(** Both give a slot. *)
Lemma slot_bounds t n z : 0 < n -> 0 <= const_slot t n z < n /\ 0 <= row_slot t n z < n.
Proof. intros Hn. rewrite row_slot_mod by done. split; by apply Z.mod_pos_bound. Qed.

(** When the sharding key is unsigned or has at least 32 bits, a constant key
    selects the shard that rows with this key are sent to: a query that is
    pruned by its key reads the right shard. *)
Lemma selector_const_rows (t : int_type) (slots : list nat) (z : Z) (n : nat) :
  slots <> [] -> int_type_ok t -> in_type t z -> is_signed t = false \/ 32 <= width t ->
  createBlockSelector t (KConst z n) slots = createBlockSelector t (KFull (replicate n z)) slots
  /\ is_Some (createBlockSelector t (KConst z n) slots).
Proof.
  intros Hne Hok Hz Hw. unfold createBlockSelector. set (w := Z.of_nat (length slots)).
  assert (Hpos : 0 < w) by (destruct slots; simpl in w; [done|lia]).
  destruct (slot_bounds t w z Hpos) as [Hb _].
  assert (Heq : const_slot t w z = row_slot t w z).
  { rewrite row_slot_mod by done. unfold const_slot. f_equal. unfold wrap, in_type in *.
    destruct (is_signed t) eqn:Hs.
    - destruct Hw as [|Hw]; [done|]. destruct (Z.leb_spec (width t) 32); f_equal; f_equal; unfold int_type_ok in Hok; lia.
    - assert (2 ^ width t <= 2 ^ (if width t <=? 32 then 32 else 64)).
      { apply Z.pow_le_mono_r; [lia|]. destruct (Z.leb_spec (width t) 32); unfold int_type_ok in Hok; lia. }
      rewrite !Z.mod_small by lia. done. }
  rewrite mapM_replicate, <- Heq.
  destruct (lookup_lt_is_Some_2 slots (Z.to_nat (const_slot t w z))) as [s Hs]; [lia|]. rewrite Hs. simpl.
  split; [by destruct n|done].
Qed.

Lemma selector_const_rows_witness :
  createBlockSelector Int64 (KConst (-5) 2) (slot_to_shard 3) = createBlockSelector Int64 (KFull [-5; -5]) (slot_to_shard 3).
Proof.
  apply (selector_const_rows Int64 (slot_to_shard 3) (-5) 2);
    [done|by right; right; right|unfold in_type; simpl; lia|right; simpl; lia].
Defined.

(** For a negative key of 8 or 16 bits the two conversions differ: the
    constant selects the shard of its rows exactly when the number of shards
    divides [2 ^ 32 - 2 ^ width], so for example not with 7 shards and
    an [Int16], or 11 shards and an [Int8]. *)
Lemma selector_narrow_signed (t : int_type) (shards : nat) (z : Z) :
  (0 < shards)%nat -> is_signed t = true -> width t = 8 \/ width t = 16 -> in_type t z -> z < 0 ->
  createSelector shards (Some t) (KConst z 1) = createSelector shards (Some t) (KFull [z])
  <-> (2 ^ 32 - 2 ^ width t) mod Z.of_nat shards = 0.
Proof.
  intros Hsh Hs Hw Hz Hneg. unfold in_type in Hz. rewrite Hs in Hz.
  unfold createSelector, createBlockSelector, slot_to_shard. rewrite length_seq. set (n := Z.of_nat shards).
  assert (Hn : 0 < n) by lia. destruct (slot_bounds t n z Hn) as [Hc Hr]. cbn [mapM].
  rewrite !lookup_seq_lt by lia. simpl.
  assert (Hbound : - 2 ^ 16 <= z) by (destruct Hw as [E|E]; rewrite E in Hz; simpl in Hz; lia).
  assert (Hwc : wrap (width t) z = z + 2 ^ width t).
  { unfold wrap. symmetry. apply Z.mod_unique_pos with (q := -1); destruct Hw as [E|E]; rewrite E in *; simpl in *; lia. }
  assert (Hwr : wrap 32 z = z + 2 ^ 32).
  { unfold wrap. symmetry. apply Z.mod_unique_pos with (q := -1); lia. }
  assert (Hrow : row_slot t n z = (z + 2 ^ 32) mod n).
  { rewrite row_slot_mod by done. rewrite (proj2 (Z.leb_le (width t) 32)) by lia. by rewrite Hwr. }
  assert (Hcon : const_slot t n z = (z + 2 ^ width t) mod n) by (unfold const_slot; by rewrite Hwc).
  rewrite Hrow, Hcon in *. split.
  - intros [= Heq]. assert (He : (z + 2 ^ 32) mod n = (z + 2 ^ width t) mod n) by lia.
    replace (2 ^ 32 - 2 ^ width t) with ((z + 2 ^ 32) - (z + 2 ^ width t)) by lia.
    by rewrite Zminus_mod, He, Z.sub_diag, Z.mod_0_l by lia.
  - intros Hd. assert (He : (z + 2 ^ 32) mod n = (z + 2 ^ width t) mod n); [|by rewrite He].
    replace (z + 2 ^ 32) with ((z + 2 ^ width t) + (2 ^ 32 - 2 ^ width t)) by lia.
    by rewrite (Zplus_mod (z + 2 ^ width t)), Hd, Z.add_0_r, Z.mod_mod by lia.
Qed.

Lemma selector_narrow_signed_witness :
  createSelector 7 (Some Int16) (KConst (-1) 1) = createSelector 7 (Some Int16) (KFull [-1])
  <-> (2 ^ 32 - 2 ^ 16) mod 7 = 0.
Proof.
  apply (selector_narrow_signed Int16 7 (-1)); [lia|done|by right|unfold in_type; simpl; lia|lia].
Defined.

Example selector_narrow_signed_differs :
  createSelector 7 (Some Int16) (KConst (-1) 1) = Some (Ok [1%nat])
  /\ createSelector 7 (Some Int16) (KFull [-1]) = Some (Ok [3%nat]).
Proof. by vm_compute. Qed.

(** ** Sharding is a partition of the rows *)

Section partition.
Context {V : Type}.
Notation Block := (list (column V)).

(** The values of the rows of shard [s], in order. *)
Fixpoint rows_of_shard {A} (selector : list nat) (data : list A) (s : nat) : list A :=
  match selector, data with
  | k :: selector, x :: data =>
      if decide (k = s) then x :: rows_of_shard selector data s else rows_of_shard selector data s
  | _, _ => []
  end.

Definition shard_of (selector : list nat) (b : Block) (s : nat) : Block :=
  map (fun c => with_data c (rows_of_shard selector (col_data c) s)) b.

Lemma scatter_loop_spec (data : list V) selector columns :
  length data = length selector -> Forall (fun s => (s < length columns)%nat) selector ->
  scatter_loop data selector columns = Some (imap (fun s c => c ++ rows_of_shard selector data s) columns).
Proof.
  revert selector columns. induction data as [|x data IH]; intros [|k selector] columns Hlen Hb; try done.
  { cbn. f_equal. apply list_eq. intros i. rewrite list_lookup_imap. destruct (columns !! i); simpl; [|done].
    by rewrite app_nil_r. }
  apply Forall_cons in Hb as [Hk Hb]. cbn [scatter_loop]. rewrite decide_True by done.
  rewrite IH; [|simpl in Hlen; lia|by rewrite length_alter]. f_equal. apply list_eq. intros i.
  rewrite !list_lookup_imap. cbn [rows_of_shard]. destruct (decide (k = i)) as [->|Hne].
  - rewrite list_lookup_alter_eq. destruct (columns !! i); simpl; [|done]. by rewrite <- (assoc_L (++)).
  - by rewrite list_lookup_alter_ne.
Qed.

Lemma scatter_spec shards selector (data : list V) :
  length data = length selector -> Forall (fun s => (s < shards)%nat) selector ->
  scatter shards selector data = Some (Ok (map (rows_of_shard selector data) (seq 0 shards))).
Proof.
  intros Hlen Hb. unfold scatter. rewrite decide_True by done.
  rewrite scatter_loop_spec; [|done|by rewrite length_replicate]. simpl. do 2 f_equal.
  apply list_eq. intros i. rewrite list_lookup_imap, list_lookup_fmap.
  destruct (decide (i < shards)%nat) as [Hi|Hi].
  - by rewrite lookup_replicate_2, lookup_seq_lt.
  - rewrite !lookup_ge_None_2; [done|rewrite length_seq; lia|rewrite length_replicate; lia].
Qed.

Lemma shard_columns_spec shards selector (pre post : Block) :
  Forall (fun s => (s < shards)%nat) selector ->
  Forall (fun c => length (col_data c) = length selector) post ->
  shard_columns shards selector post (length pre)
    (map (fun s => shard_of selector pre s ++ cloneEmpty post) (seq 0 shards))
  = Some (Ok (map (shard_of selector (pre ++ post)) (seq 0 shards))).
Proof.
  intros Hb. revert pre. induction post as [|c post IH]; intros pre Hlen.
  { cbn. rewrite app_nil_r. do 2 f_equal. apply map_ext. intros s. apply app_nil_r. }
  apply Forall_cons in Hlen as [Hc Hlen]. cbn [shard_columns]. rewrite scatter_spec by done. cbn [mbind option_bind].
  replace (pre ++ c :: post) with ((pre ++ [c]) ++ post) by (by rewrite <- (assoc_L (++))).
  rewrite <- IH by done. rewrite length_app, Nat.add_1_r. f_equal.
  apply list_eq. intros i. rewrite lookup_zip_with, !list_lookup_fmap.
  destruct (seq 0 shards !! i) as [s|]; simpl; [|done]. f_equal.
  assert (Hl : length pre = (length (shard_of selector pre s) + 0)%nat) by (unfold shard_of; rewrite length_map; lia).
  rewrite Hl, alter_app_r.
  unfold shard_of, cloneEmpty. rewrite map_app, <- (assoc_L (++)). done.
Qed.

Lemma rows_of_shard_length {A} selector (data : list A) s :
  length data = length selector -> length (rows_of_shard selector data s) = length (filter (fun k => k = s) selector).
Proof.
  revert data. induction selector as [|k selector IH]; intros [|x data] Hlen; try done. cbn [rows_of_shard].
  rewrite filter_cons. simpl in Hlen. case_decide; simpl; by rewrite IH by lia.
Qed.

Lemma sum_add {A} (f g : A -> nat) l :
  sum_list (map (fun s => f s + g s)%nat l) = (sum_list (map f l) + sum_list (map g l))%nat.
Proof. induction l as [|x l IH]; simpl; [done|]. rewrite IH. lia. Qed.

Lemma sum_indicator k m n :
  sum_list (map (fun s => if decide (k = s) then 1 else 0)%nat (seq m n)) = if decide (m <= k < m + n)%nat then 1%nat else 0%nat.
Proof.
  revert m. induction n as [|n IH]; intros m; simpl; [rewrite decide_False by lia; done|]. rewrite IH.
  repeat case_decide; lia.
Qed.

Lemma sum_counts shards selector :
  Forall (fun s => (s < shards)%nat) selector ->
  sum_list (map (fun s => length (filter (fun k => k = s) selector)) (seq 0 shards)) = length selector.
Proof.
  intros Hb. induction selector as [|k selector IH].
  { simpl. induction (seq 0 shards); simpl; lia. }
  apply Forall_cons in Hb as [Hk Hb]. cbn [length]. rewrite <- (IH Hb).
  rewrite (map_ext _ (fun s => (if decide (k = s) then 1 else 0) + length (filter (fun k => k = s) selector))%nat).
  - rewrite sum_add, sum_indicator, decide_True by lia. done.
  - intros s. rewrite filter_cons. by case_decide.
Qed.

Lemma sum_nonzero {A} (f : A -> nat) l :
  sum_list (map f (filter (fun x => f x <> 0%nat) l)) = sum_list (map f l).
Proof. induction l as [|x l IH]; [done|]. rewrite filter_cons. case_decide; simpl; rewrite IH; lia. Qed.

Lemma zip_map_self {A B} (f : A -> B) l : zip (map f l) l = map (fun x => (f x, x)) l.
Proof. induction l as [|x l IH]; simpl; [done|]. by rewrite IH. Qed.

Lemma map_seq_replicate {A} (x : A) m n : map (fun _ => x) (seq m n) = replicate n x.
Proof. revert m. induction n as [|n IH]; intros m; simpl; [done|]. by rewrite IH. Qed.

(** Sharding a block is a partition of its rows: shard [s] gets, in the
    original order and with all their columns, exactly the rows whose key
    selects it; shards without rows get no block, and no row is lost. *)
Lemma doShardBlock_spec (shards : nat) (selector : list nat) (b : Block) :
  b <> [] -> Forall (fun c => length (col_data c) = length selector) b ->
  Forall (fun s => (s < shards)%nat) selector ->
  exists blocks, doShardBlock shards selector b = Some (Ok blocks)
    /\ blocks = filter (fun bs => rows bs.1 <> 0%nat) (map (fun s => (shard_of selector b s, s)) (seq 0 shards))
    /\ sum_list (map (fun bs => rows bs.1) blocks) = rows b.
Proof.
  intros Hne Hlen Hb. unfold doShardBlock.
  rewrite <- (map_seq_replicate (cloneEmpty b) 0 shards).
  pose proof (shard_columns_spec shards selector [] b Hb Hlen) as Hsh. cbn in Hsh. rewrite Hsh.
  cbn [mbind option_bind].
  eexists. split; [done|]. rewrite length_map, length_seq.
  rewrite zip_map_self. split; [done|]. rewrite (sum_nonzero (fun bs : Block * nat => rows bs.1)), map_map. cbn [fst].
  destruct b as [|c b]; [done|]. apply Forall_cons in Hlen as [Hc _]. cbn [rows]. rewrite Hc.
  rewrite <- (sum_counts shards selector Hb). f_equal. apply map_ext. intros s. simpl. by apply rows_of_shard_length.
Qed.
End partition.

Lemma doShardBlock_spec_witness :
  let b := [mkColumn (lit "k") 0 [5; 6; 7]; mkColumn (lit "v") 0 [50; 60; 70]] in
  exists blocks, doShardBlock 2 [1; 0; 1]%nat b = Some (Ok blocks)
    /\ blocks = filter (fun bs => rows bs.1 <> 0%nat) (map (fun s => (shard_of [1; 0; 1]%nat b s, s)) (seq 0 2))
    /\ sum_list (map (fun bs => rows bs.1) blocks) = rows b.
Proof.
  apply (doShardBlock_spec 2 [1; 0; 1]%nat [mkColumn (lit "k") 0 [5; 6; 7]; mkColumn (lit "v") 0 [50; 60; 70]]).
  - done.
  - by repeat constructor.
  - repeat (apply Forall_cons; split; [lia|]). by apply Forall_nil.
Defined.

(** ** Waiting for the deliveries *)

Definition reported (st : stream) (polls : list (list AppendResult)) : stream :=
  foldl stream_callback st (concat polls).

(** No delivery is counted twice and none is more than was appended. *)
Definition stream_ok (st : stream) : Prop := 0 <= committed st <= outstanding st /\ outstanding st < 2 ^ 32.

Lemma stream_callbacks st reports :
  stream_ok st -> Z.of_nat (length reports) <= outstanding st - committed st ->
  let st' := foldl stream_callback st reports in
  stream_ok st' /\ outstanding st' = outstanding st /\ committed st' = committed st + Z.of_nat (length reports).
Proof.
  revert st. induction reports as [|r reports IH]; intros st Hok Hle; [split_and!; simpl; try done; lia|].
  cbn [length] in Hle. rewrite Nat2Z.inj_succ in Hle. destruct Hok as [Hc Ho]. cbn [foldl].
  assert (Hw : committed (stream_callback st r) = committed st + 1).
  { unfold stream_callback, wrap. cbn [committed]. apply Z.mod_small. lia. }
  assert (Ho' : outstanding (stream_callback st r) = outstanding st) by done.
  destruct (IH (stream_callback st r)) as (Hok' & HO & HC); [split; rewrite ?Hw, ?Ho'; lia|rewrite Hw, Ho'; lia|].
  split_and!; [done|by rewrite HO|]. rewrite HC, Hw. cbn [length]. lia.
Qed.

Lemma stream_callbacks_err st reports :
  errcode st = ErrorCodes.OK ->
  errcode (foldl stream_callback st reports) = ErrorCodes.OK <-> Forall (fun r => ar_err r = ErrorCodes.OK) reports.
Proof.
  assert (Hstick : forall reports st, errcode st <> ErrorCodes.OK -> errcode (foldl stream_callback st reports) <> ErrorCodes.OK).
  { clear. intros reports. induction reports as [|r reports IH]; intros st H; [done|]. apply IH. simpl.
    by destruct (Z.eqb_spec (ar_err r) ErrorCodes.OK). }
  revert st. induction reports as [|r reports IH]; intros st H; [by split; [constructor|]|]. cbn [foldl].
  rewrite Forall_cons. destruct (Z.eqb_spec (ar_err r) ErrorCodes.OK) as [Hr|Hr].
  - rewrite IH; [tauto|]. simpl. rewrite Hr. done.
  - split; [|tauto]. intros He. exfalso. revert He. apply Hstick. simpl. by rewrite (proj2 (Z.eqb_neq _ _) Hr).
Qed.

Lemma flush_loop_spec st polls :
  stream_ok st -> Z.of_nat (length (concat polls)) <= outstanding st - committed st ->
  flush_loop st polls
  = if decide (committed st + Z.of_nat (length (concat polls)) = outstanding st)
    then Some (if negb (errcode (reported st polls) =? ErrorCodes.OK)
               then Throw (DBException (errcode (reported st polls))) else Ok (reported st polls))
    else None.
Proof.
  revert st. induction polls as [|reports polls IH]; intros st Hok Hle.
  { cbn. rewrite Z.add_0_r. done. }
  cbn [concat] in Hle. rewrite length_app, Nat2Z.inj_add in Hle.
  destruct (stream_callbacks st reports Hok) as (Hok' & Ho & Hc); [lia|].
  unfold reported. cbn [flush_loop concat]. rewrite foldl_app, length_app, Nat2Z.inj_add.
  destruct (decide (committed st = outstanding st)) as [Heq|Hne].
  - assert (reports = []) as -> by (apply nil_length_inv; lia).
    assert (concat polls = []) as -> by (apply nil_length_inv; lia). cbn. rewrite decide_True by lia. done.
  - rewrite IH by (done || rewrite Ho, Hc; lia). rewrite Ho, Hc. by rewrite <- Z.add_assoc.
Qed.

(** A flush of a query in sync mode ends exactly when the delivery of every
    appended block has been reported, and succeeds exactly when all of them
    succeeded. *)
Lemma flush_waits (st : stream) (polls : list (list AppendResult)) :
  stream_ok st -> errcode st = ErrorCodes.OK ->
  Z.of_nat (length (concat polls)) <= outstanding st - committed st ->
  (is_Some (flush (lit "sync") st polls) <-> committed st + Z.of_nat (length (concat polls)) = outstanding st)
  /\ ((exists st', flush (lit "sync") st polls = Some (Ok st'))
      <-> committed st + Z.of_nat (length (concat polls)) = outstanding st
          /\ Forall (fun r => ar_err r = ErrorCodes.OK) (concat polls)).
Proof.
  intros Hok He Hle. unfold flush. rewrite decide_False by (intros H; by apply H).
  rewrite flush_loop_spec by done. pose proof (stream_callbacks_err st (concat polls) He) as Herr.
  fold (reported st polls) in Herr. rewrite <- Herr. case_decide as Hc.
  - destruct (Z.eqb_spec (errcode (reported st polls)) ErrorCodes.OK) as [H0|H0]; cbn [negb].
    + split; [done|]. split; [done|]. by eexists.
    + split; [done|]. split; [by intros []|tauto].
  - split; [split; [by intros []|done]|]. split; [by intros []|tauto].
Qed.

Lemma flush_waits_witness :
  is_Some (flush (lit "sync") (mkStream 2 0 0) [[mkAppend 0 7 0]; []; [mkAppend 0 8 0]])
  <-> 0 + Z.of_nat (length (concat [[mkAppend 0 7 0]; []; [mkAppend 0 8 0]])) = 2.
Proof. apply (flush_waits (mkStream 2 0 0) [[mkAppend 0 7 0]; []; [mkAppend 0 8 0]]); done. Defined.

(** When a delivery of a sync query fails, the flush throws, and the
    destructor, which flushes again and finds the same error, throws out of a
    destructor and ends the process. *)
Lemma sync_failure_terminates (st : stream) (polls : list (list AppendResult)) :
  stream_ok st -> errcode st = ErrorCodes.OK ->
  committed st + Z.of_nat (length (concat polls)) = outstanding st ->
  ~ Forall (fun r => ar_err r = ErrorCodes.OK) (concat polls) ->
  flush (lit "sync") st polls = Some (Throw (DBException (errcode (reported st polls))))
  /\ destroy (lit "sync") (reported st polls) [] = Some Terminated.
Proof.
  intros Hok He Hc Hbad. pose proof (stream_callbacks_err st (concat polls) He) as Herr.
  fold (reported st polls) in Herr.
  assert (H0 : (errcode (reported st polls) =? ErrorCodes.OK) = false) by (apply Z.eqb_neq; by rewrite Herr).
  destruct (stream_callbacks st (concat polls) Hok) as (Hok' & Ho' & Hc'); [lia|].
  fold (reported st polls) in Hok', Ho', Hc'.
  assert (Hflush : flush (lit "sync") st polls = Some (Throw (DBException (errcode (reported st polls))))).
  { unfold flush. rewrite decide_False by (intros H; by apply H). rewrite flush_loop_spec by (done || lia).
    by rewrite decide_True, H0. }
  split; [done|]. unfold destroy, flush. rewrite decide_False by (intros H; by apply H). cbn [flush_loop].
  rewrite decide_True by (rewrite Ho', Hc'; done). by rewrite H0.
Qed.

Lemma sync_failure_terminates_witness :
  destroy (lit "sync") (reported (mkStream 1 0 0) [[mkAppend ErrorCodes.MSG_SIZE_TOO_LARGE (-1) 0]]) [] = Some Terminated.
Proof.
  apply (sync_failure_terminates (mkStream 1 0 0) [[mkAppend ErrorCodes.MSG_SIZE_TOO_LARGE (-1) 0]]); [done..|].
  intros H. cbn in H. apply Forall_cons in H as [H _]. discriminate H.
Defined.

(** ** A default mode that is not flushed *)

Lemma write_loop_sync {V} poll_id key now timeout blocks n st (ing : ingesting) (appends : list (WalRecord (list (column V)) * report_to)) :
  0 <= outstanding st -> outstanding st + Z.of_nat (length blocks) < 2 ^ 32 -> (length blocks <= n)%nat ->
  write_loop (lit "sync") poll_id key now timeout blocks (replicate n ErrorCodes.OK) st ing appends
  = Some (mkWrite (mkStream (outstanding st + Z.of_nat (length blocks)) (committed st) (errcode st)) ing
            (appends ++ map (fun bs => (shard_record key bs, To_stream)) blocks) None).
Proof.
  revert n st appends. induction blocks as [|bs blocks IH]; intros n st appends H0 Hlt Hn.
  { cbn. rewrite Z.add_0_r, app_nil_r. by destruct st. }
  destruct n as [|n]; [simpl in Hn; lia|]. cbn [write_loop length map] in *. rewrite Nat2Z.inj_succ in *.
  rewrite decide_False by done. rewrite decide_True by done. cbn [replicate head tail mbind option_bind].
  rewrite Z.eqb_refl. cbn [negb]. unfold wrap. rewrite Z.mod_small by lia.
  rewrite IH by (simpl; lia). cbn [outstanding committed errcode]. rewrite <- (assoc_L (++)).
  do 2 f_equal. f_equal. lia.
Qed.

(** When sync mode is the default of the table rather than a choice of the
    query, the blocks are appended with the stream as the receiver of their
    delivery reports, but flushing and destroying the stream wait for none of
    them: the insert is acknowledged before it is in the log, and the reports
    arrive at a stream that is gone. *)
Lemma default_sync_not_flushed {V} (b : list (column V)) (poll_id key : str) (now timeout : Z) (ing : ingesting) (n : nat) :
  rows b <> 0%nat -> (1 <= n)%nat ->
  write [] (lit "sync") poll_id key now timeout 1 false [] 0 b (replicate n ErrorCodes.OK) new_stream ing
  = Some (mkWrite (mkStream 1 0 ErrorCodes.OK) ing [(shard_record key (b, 0%nat), To_stream)] None)
  /\ flush [] (mkStream 1 0 ErrorCodes.OK) [] = Some (Ok (mkStream 1 0 ErrorCodes.OK))
  /\ destroy [] (mkStream 1 0 ErrorCodes.OK) [] = Some Destroyed
  /\ flush (lit "sync") (mkStream 1 0 ErrorCodes.OK) [] = None.
Proof.
  intros Hr Hn. split_and!; [|done..]. unfold write. rewrite (proj2 (Nat.eqb_neq _ _) Hr). cbn [shardBlock Nat.ltb Nat.leb mbind option_bind].
  change (getIngestMode [] (lit "sync")) with (lit "sync").
  rewrite (write_loop_sync poll_id key now timeout [(b, 0%nat)] n new_stream ing []); [done|done|done|done].
Qed.

Lemma default_sync_not_flushed_witness :
  flush [] (mkStream 1 0 ErrorCodes.OK) [] = Some (Ok (mkStream 1 0 ErrorCodes.OK)).
Proof.
  apply (default_sync_not_flushed [mkColumn (lit "k") 0 [5]] (lit "q") [] 0 120 empty_ingesting 1); [done|lia].
Defined.
