(* ===== verification/Catalog.v ===== *)
(** * Catalog: the tables of the cluster

    Models src/src/DistributedMetadata/CatalogService.{h,cpp} and Node.h: every
    node broadcasts the tables it holds through the log, and the catalog merges
    these snapshots into indexes by name, by node and by identifier.  A hash map
    that is iterated over is visited in the order of a list that is an argument. *)

From S2P Require Import Prelude TextFormat WalRecord.

Local Open Scope Z_scope.

(** ** Nodes *)

(** [std::stoi] and [std::stoll]: leading white space, a sign and digits; what
    follows is ignored. *)
Definition is_space (c : ascii) : bool :=
  bool_decide (c = " "%char) || ((9 <=? code c) && (code c <=? 13)).

Fixpoint skip_space (s : str) : str :=
  match s with c :: s' => if is_space c then skip_space s' else s | [] => [] end.

Definition sto (w : Z) (s : str) : result Z :=
  let '(negative, s) :=
    match skip_space s with
    | c :: s' => if decide (c = "-"%char) then (true, s') else if decide (c = "+"%char) then (false, s') else (false, c :: s')
    | [] => (false, [])
    end in
  let ds := take_digits s in
  if decide (ds = []) then Throw StdInvalidArgument
  else
    let z := if negative then - digits_value ds else digits_value ds in
    if in_signed w z then Ok z else Throw StdOutOfRange.

Definition stoi (s : str) : result Z := sto 32 s.
Definition stoll (s : str) : result Z := sto 64 s.

Record Node : Type := mkNode {
  n_identity : str;
  n_host : str;
  n_channel : str;
  n_roles : str;
  n_https_port : Z;
  n_http_port : Z;
  n_tcp_port_secure : Z;
  n_tcp_port : Z;
}.

(** A port is an [Int16]. *)
Definition int16 (z : Z) : Z := to_signed 16 (wrap 16 z).

Definition header_port (headers : gmap str str) (key : str) : result Z :=
  match headers !! key with
  | Some v => z ← stoi v; Ok (int16 z)
  | None => Ok (-1)
  end.

Definition header_string (headers : gmap str str) (key : str) : str := default [] (headers !! key).

Definition make_node (identity : str) (headers : gmap str str) : result Node :=
  https_port ← header_port headers (lit "_https_port");
  http_port ← header_port headers (lit "_http_port");
  tcp_port_secure ← header_port headers (lit "_tcp_port_secure");
  tcp_port ← header_port headers (lit "_tcp_port");
  Ok (mkNode identity (header_string headers (lit "_host")) (header_string headers (lit "_channel"))
        (header_string headers (lit "_node_roles")) https_port http_port tcp_port_secure tcp_port).

Definition node_isValid (n : Node) : bool :=
  negb (bool_decide (n_identity n = [])) && negb (bool_decide (n_host n = []))
  && (((n_http_port n >? 0) && (n_tcp_port n >? 0)) || ((n_https_port n >? 0) && (n_tcp_port_secure n >? 0))).

(** The ports a node announces, which it keeps as [Int16] too. *)
Record ports : Type := mkPorts { https_port : Z; http_port : Z; tcp_port_secure : Z; tcp_port : Z }.

Definition config_port (config : gmap str Z) (key : str) : Z := default (-1) (config !! key).

Definition initPorts (config : gmap str Z) : ports :=
  mkPorts (int16 (config_port config (lit "https_port"))) (int16 (config_port config (lit "http_port")))
    (int16 (config_port config (lit "tcp_port_secure"))) (int16 (config_port config (lit "tcp_port"))).

Definition setupRecordHeaders {Block} (p : ports) (node_roles this_host channel identity version : str)
    (record : WalRecord Block) : WalRecord Block :=
  let hs := <[lit "_https_port" := writeIntText (https_port p)]> (headers record) in
  let hs := <[lit "_http_port" := writeIntText (http_port p)]> hs in
  let hs := <[lit "_tcp_port" := writeIntText (tcp_port p)]> hs in
  let hs := <[lit "_tcp_port_secure" := writeIntText (tcp_port_secure p)]> hs in
  let hs := <[lit "_node_roles" := node_roles]> hs in
  let hs := <[lit "_host" := this_host]> hs in
  let hs := <[lit "_channel" := channel]> hs in
  let record := setIdempotentKey identity
    (mkRecord (op_code record) hs (block record) (topic record) (partition_key record) (sn record)) in
  mkRecord (op_code record) (<[lit "_version" := version]> (headers record)) (block record) (topic record)
    (partition_key record) (sn record).

(** [String::find] of a substring. *)
Fixpoint is_prefix (p s : str) : bool :=
  match p, s with
  | [], _ => true
  | a :: p, b :: s => bool_decide (a = b) && is_prefix p s
  | _ :: _, [] => false
  end.

Fixpoint contains (p s : str) : bool :=
  is_prefix p s || match s with [] => false | _ :: s => contains p s end.

(** ** Tables *)

Record Table : Type := mkTable {
  t_node_identity : str;
  t_host : str;
  t_database : str;
  t_name : str;
  t_uuid : N;
  t_engine : str;
  t_metadata_path : str;
  t_data_paths : str;
  t_dependencies_database : str;
  t_dependencies_table : str;
  t_create_table_query : str;
  t_engine_full : str;
  t_partition_key : str;
  t_sorting_key : str;
  t_primary_key : str;
  t_sampling_key : str;
  t_storage_policy : str;
  t_shard : Z;
}.

(** [operator==] compares all fields. *)
#[export] Instance Table_eq_dec : EqDecision Table.
Proof. solve_decision. Defined.

Abbreviation DatabaseTable := (str * str)%type.
Abbreviation NodeShard := (str * Z)%type.
Abbreviation DatabaseTableShard := (str * (str * Z))%type.

Definition Nil : N := 0%N.

Definition table_key (t : Table) : DatabaseTableShard := (t_database t, (t_name t, t_shard t)).
Definition db_table (t : Table) : DatabaseTable := (t_database t, t_name t).
Definition node_shard (t : Table) : NodeShard := (t_node_identity t, t_shard t).

(** A row of the broadcast block: the columns the catalog knows, by name, and
    the identifier.  The text of the dependencies has been serialized. *)
Record catalog_row : Type := mkRow { row_text : str -> option str; row_uuid : option N }.

(** The regular expressions of the service: characters, white space ([\s*]) and
    numbers ([\d+]), one of which is captured.  What follows a [\s*] or a [\d+] in
    them cannot be part of it, so that matching without going back is exact. *)
Inductive re_item : Type := re_chars (s : str) | re_spaces | re_digits (captured : bool).

Fixpoint strip_prefix (p s : str) : option str :=
  match p, s with
  | [], _ => Some s
  | a :: p, b :: s => if decide (a = b) then strip_prefix p s else None
  | _ :: _, [] => None
  end.

Fixpoint re_match (pattern : list re_item) (s capture : str) : option str :=
  match pattern with
  | [] => Some capture
  | re_chars p :: pattern => s ← strip_prefix p s; re_match pattern s capture
  | re_spaces :: pattern => re_match pattern (skip_space s) capture
  | re_digits captured :: pattern =>
      let ds := take_digits s in
      if decide (ds = []) then None
      else re_match pattern (drop (length ds) s) (if captured then ds else capture)
  end.

(** [std::regex_search]: the first position that matches. *)
Fixpoint regex_search (pattern : list re_item) (s : str) : option str :=
  match re_match pattern s [] with
  | Some capture => Some capture
  | None => match s with [] => None | _ :: s => regex_search pattern s end
  end.

Definition PARSE_SHARD_REGEX : list re_item :=
  [re_chars (lit "shard"); re_spaces; re_chars (lit "="); re_spaces; re_digits true].
Definition PARSE_SHARDS_REGEX : list re_item :=
  [re_chars (lit "DistributedMergeTree("); re_spaces; re_digits false; re_chars (lit ","); re_spaces; re_digits true;
   re_spaces; re_chars (lit ",")].
Definition PARSE_REPLICATION_REGEX : list re_item :=
  [re_chars (lit "DistributedMergeTree("); re_spaces; re_digits true; re_chars (lit ","); re_spaces; re_digits false;
   re_spaces; re_chars (lit ",")].

(** Without a match the captured text is empty. *)
Definition searchIntValueByRegex (pattern : list re_item) (s : str) : result Z :=
  stoi (default [] (regex_search pattern s)).

(** One row of [buildCatalog]. *)
Definition build_table (node : Node) (row : catalog_row) : result Table :=
  let get name := default [] (row_text row (lit name)) in
  let t shard :=
    mkTable (n_identity node) (n_host node) (get "database") (get "name") (default Nil (row_uuid row)) (get "engine")
      [] [] [] (get "dependencies_table") (get "create_table_query") (get "engine_full") (get "partition_key")
      (get "sorting_key") (get "primary_key") (get "sampling_key") (get "storage_policy") shard in
  if decide (get "engine" = lit "DistributedMergeTree")
  then shard ← searchIntValueByRegex PARSE_SHARD_REGEX (get "engine_full"); Ok (t shard)
  else Ok (t 0).

(** [emplace] keeps the first row of a key. *)
Fixpoint buildCatalog (node : Node) (rows : list catalog_row)
    (snapshot : gmap DatabaseTableShard Table) : result (gmap DatabaseTableShard Table) :=
  match rows with
  | [] => Ok snapshot
  | row :: rows =>
      t ← build_table node row;
      buildCatalog node rows
        (match snapshot !! table_key t with Some _ => snapshot | None => <[table_key t := t]> snapshot end)
  end.

(** ** The catalog *)

Record catalog : Type := mkCatalog {
  indexed_by_name : gmap DatabaseTable (gmap NodeShard Table);
  indexed_by_node : gmap str (gmap DatabaseTableShard Table);
  table_nodes : gmap str Node;
  indexed_by_id : gmap N Table;
  storages : gmap DatabaseTable nat;
}.

Definition empty_catalog : catalog := mkCatalog ∅ ∅ ∅ ∅ ∅.

Definition with_nodes (ns : gmap str Node) (c : catalog) : catalog :=
  mkCatalog (indexed_by_name c) (indexed_by_node c) ns (indexed_by_id c) (storages c).
Definition with_by_node (m : gmap str (gmap DatabaseTableShard Table)) (c : catalog) : catalog :=
  mkCatalog (indexed_by_name c) m (table_nodes c) (indexed_by_id c) (storages c).

Definition deleteTableStorageByName (dt : DatabaseTable) (c : catalog) : catalog :=
  mkCatalog (indexed_by_name c) (indexed_by_node c) (table_nodes c) (indexed_by_id c) (delete dt (storages c)).

(** A table that is gone: from the index of names, from which a name without
    tables disappears, from the storages and from the index of identifiers.
    [None] is the iterator past the end. *)
Definition remove_table (t : Table) (c : catalog) : option catalog :=
  m ← indexed_by_name c !! db_table t;
  let m : gmap NodeShard Table := delete (node_shard t) m in
  Some (mkCatalog
          (if decide (m = ∅) then delete (db_table t) (indexed_by_name c) else <[db_table t := m]> (indexed_by_name c))
          (indexed_by_node c) (table_nodes c)
          (delete (t_uuid t) (indexed_by_id c)) (delete (db_table t) (storages c))).

Fixpoint remove_tables (keep : DatabaseTableShard -> bool) (ts : list (DatabaseTableShard * Table)) (c : catalog)
    : option catalog :=
  match ts with
  | [] => Some c
  | (k, t) :: ts =>
      if keep k then remove_tables keep ts c
      else c ← remove_table t c; remove_tables keep ts c
  end.

(** [deleteCatalogForNode]: [order] is the order of the node's tables. *)
Definition deleteCatalogForNode (node : Node) (order : list (DatabaseTableShard * Table)) (c : catalog)
    : option catalog :=
  match indexed_by_node c !! n_identity node with
  | None => Some c
  | Some _ =>
      c ← remove_tables (fun _ => false) order c;
      Some (with_by_node (<[n_identity node := ∅]> (indexed_by_node c)) c)
  end.

(** A table of a new node. *)
Definition add_table (t : Table) (c : catalog) : catalog :=
  let m : gmap NodeShard Table := default ∅ (indexed_by_name c !! db_table t) in
  let m := match m !! node_shard t with Some _ => m | None => <[node_shard t := t]> m end in
  mkCatalog (<[db_table t := m]> (indexed_by_name c)) (indexed_by_node c) (table_nodes c)
    (<[t_uuid t := t]> (indexed_by_id c)) (storages c).

(** A table of a known node: new, or replacing its former definition. *)
Definition update_table (t : Table) (c : catalog) : catalog :=
  let '(by_name, uuid, c) :=
    match indexed_by_name c !! db_table t with
    | None => (<[db_table t := {[node_shard t := t]}]> (indexed_by_name c), Nil, c)
    | Some m =>
        let old := m !! node_shard t in
        let uuid := match old with Some o => if decide (t_uuid o <> t_uuid t) then t_uuid o else Nil | None => Nil end in
        let changed := match old with Some o => negb (bool_decide (o = t)) | None => false end in
        (<[db_table t := <[node_shard t := t]> m]> (indexed_by_name c), uuid,
         if changed then deleteTableStorageByName (db_table t) c else c)
    end in
  mkCatalog by_name (indexed_by_node c) (table_nodes c)
    (<[t_uuid t := t]> (if decide (uuid <> Nil) then delete uuid (indexed_by_id c) else indexed_by_id c)) (storages c).

(** [mergeCatalog]: [old_order] and [new_order] are the orders of the tables the
    node had and of its snapshot. *)
Definition mergeCatalog (node : Node) (snapshot : gmap DatabaseTableShard Table)
    (old_order new_order : list (DatabaseTableShard * Table)) (c : catalog) : option catalog :=
  if decide (snapshot = ∅) then deleteCatalogForNode node old_order c
  else match indexed_by_node c !! n_identity node with
       | None =>
           let c := foldl (fun c kt => add_table kt.2 c) c new_order in
           Some (with_nodes (table_nodes c ∪ {[n_identity node := node]})
                   (with_by_node (<[n_identity node := snapshot]> (indexed_by_node c)) c))
       | Some _ =>
           let c := with_nodes (<[n_identity node := node]> (table_nodes c)) c in
           c ← remove_tables (fun k => bool_decide (is_Some (snapshot !! k))) old_order c;
           let c := foldl (fun c kt => update_table kt.2 c) c new_order in
           Some (with_by_node (<[n_identity node := snapshot]> (indexed_by_node c)) c)
       end.

(** [processRecords] on one record; [None] is an iterator past the end. *)
Definition process_record (record : WalRecord (list catalog_row))
    (orders : gmap DatabaseTableShard Table -> list (DatabaseTableShard * Table)) (c : catalog)
    : option (result catalog) :=
  if negb (hasIdempotentKey record) then Some (Ok c)
  else if negb (bool_decide (headers record !! lit "_version" = Some (lit "1"))) then Some (Ok c)
  else
    match (identity ← idempotentKey record; make_node identity (headers record)) with
    | Throw e => Some (Throw e)
    | Ok node =>
        if negb (node_isValid node) then Some (Ok c)
        else match buildCatalog node (block record) ∅ with
             | Throw e => Some (Throw e)
             | Ok snapshot =>
                 c ← mergeCatalog node snapshot
                       (orders (default ∅ (indexed_by_node c !! n_identity node))) (orders snapshot) c;
                 Some (Ok c)
             end
    end.

(** [processRecords], each record with the orders in which its tables are
    visited; an exception leaves the records after it unprocessed. *)
Fixpoint processRecords
    (records : list (WalRecord (list catalog_row) * (gmap DatabaseTableShard Table -> list (DatabaseTableShard * Table))))
    (c : catalog) : option (result catalog) :=
  match records with
  | [] => Some (Ok c)
  | (record, orders) :: records =>
      r ← process_record record orders c;
      match r with
      | Ok c => processRecords records c
      | Throw e => Some (Throw e)
      end
  end.

(** ** Queries of the catalog

    They list tables and nodes in the order of [map_to_list], one of the orders a
    hash map can have; the theorems only say which elements are listed. *)

Definition databases (c : catalog) : list str := remove_dups (map (fun p => p.1.1) (map_to_list (indexed_by_name c))).

Definition tables (c : catalog) : list Table :=
  flat_map (fun p => (map_to_list p.2).*2) (map_to_list (indexed_by_name c)).

Definition findTableByNode (c : catalog) (node_identity : str) : list Table :=
  (map_to_list (default ∅ (indexed_by_node c !! node_identity))).*2.

Definition findTableByName (c : catalog) (database table : str) : list Table :=
  (map_to_list (default ∅ (indexed_by_name c !! (database, table)))).*2.

Definition findTableByDB (c : catalog) (database : str) : list Table :=
  flat_map (fun p => if decide (p.1.1 = database) then (map_to_list p.2).*2 else []) (map_to_list (indexed_by_name c)).

Definition tableExists (c : catalog) (database table : str) : bool :=
  bool_decide (is_Some (indexed_by_name c !! (database, table))).

Definition catalog_nodes (c : catalog) (role : str) : list Node :=
  filter (fun n => contains role (n_roles n) = true) (map_to_list (table_nodes c)).*2.

Definition nodeByIdentity (c : catalog) (identity : str) : option Node := table_nodes c !! identity.

Definition nodeByChannel (c : catalog) (channel : str) : option Node :=
  snd <$> list_find (fun n => n_channel n = channel) (map_to_list (table_nodes c)).*2.

Definition setTableStorageByName (database table : str) (storage : nat) (c : catalog) : catalog * bool :=
  match indexed_by_name c !! (database, table) with
  | None => (c, false)
  | Some m =>
      if decide (m = ∅) then (c, false)
      else (mkCatalog (indexed_by_name c) (indexed_by_node c) (table_nodes c) (indexed_by_id c)
              (<[(database, table) := storage]> (storages c)), true)
  end.

Definition findTableStorageById (c : catalog) (uuid : N) : option (Table * option nat) :=
  t ← indexed_by_id c !! uuid; Some (t, storages c !! db_table t).

Definition findTableStorageByName (c : catalog) (database table : str) : option (Table * option nat) :=
  t ← head (findTableByName c database table); Some (t, storages c !! (database, table)).

(** [tableCluster]: a cluster, its shards with the addresses of their replicas,
    is built once and kept in [table_clusters]; tables on unknown nodes are left
    out. *)
Definition tableCluster (database table : str) (c : catalog) (table_clusters : gmap DatabaseTable (list (list str)))
    : gmap DatabaseTable (list (list str)) * option (list (list str)) :=
  match table_clusters !! (database, table) with
  | Some cluster => (table_clusters, Some cluster)
  | None =>
      let remote_tables := findTableByName c database table in
      if decide (remote_tables = []) then (table_clusters, None)
      else
        let shards := remove_dups (map t_shard remote_tables) in
        let host_ports :=
          map (fun s => omap (fun t => n ← table_nodes c !! t_node_identity t;
                                       Some (n_host n ++ lit ":" ++ writeIntText (n_tcp_port n)))
                          (filter (fun t => t_shard t = s) remote_tables)) shards in
        (<[(database, table) := host_ports]> table_clusters, Some host_ports)
  end.

Definition shardAndReplicationFactor (c : catalog) (database table : str) : result (Z * Z) :=
  match findTableByName c database table with
  | [] => Ok (0, 0)
  | t :: _ =>
      replication ← searchIntValueByRegex PARSE_REPLICATION_REGEX (t_engine_full t);
      shards ← searchIntValueByRegex PARSE_SHARDS_REGEX (t_engine_full t);
      Ok (replication, shards)
  end.

(** [append]: the record that broadcasts the tables of the node. *)
Definition catalog_append (p : ports) (roles host channel identity : str) (rows : list catalog_row)
    : WalRecord (list catalog_row) :=
  setupRecordHeaders p roles host channel identity (lit "1") (mkRecord ADD_DATA_BLOCK ∅ rows [] 0 (-1)).

(** ** The index of names *)

(** What the two indexes say of a table of a node. *)
Definition named (c : catalog) (node : str) (k : DatabaseTableShard) : option Table :=
  m ← indexed_by_name c !! (k.1, k.2.1); m !! (node, k.2.2).
Definition entry (c : catalog) (node : str) (k : DatabaseTableShard) : option Table :=
  s ← indexed_by_node c !! node; s !! k.

Definition names_nonempty (c : catalog) : Prop := forall dt m, indexed_by_name c !! dt = Some m -> m <> ∅.

(** The tables of a list are those of one node, each under its key. *)
Definition tables_of (node : str) (ts : list (DatabaseTableShard * Table)) : Prop :=
  NoDup ts.*1 /\ Forall (fun kt => t_node_identity kt.2 = node /\ table_key kt.2 = kt.1) ts.

Lemma named_remove t c c' node k :
  remove_table t c = Some c' ->
  named c' node k = if decide ((node, k) = (t_node_identity t, table_key t)) then None else named c node k.
Proof.
  unfold remove_table, named. destruct (indexed_by_name c !! db_table t) as [m|] eqn:Hm; [|done].
  cbn [mbind option_bind]. intros [= <-]. cbn [indexed_by_name]. destruct k as [db [nm sh]]. cbn [fst snd].
  destruct (decide (db_table t = (db, nm))) as [Hdt|Hdt].
  - rewrite Hdt in Hm. rewrite Hdt, Hm. unfold db_table in Hdt. injection Hdt as Hdb Hnm.
    destruct (decide (node_shard t = (node, sh))) as [Hns|Hns].
    + injection Hns as Hn Hs. rewrite (decide_True (P := (node, _) = _)) by (unfold table_key; congruence).
      case_decide as He; [by rewrite lookup_delete_eq|]. rewrite lookup_insert_eq. cbn [mbind option_bind].
      unfold node_shard. rewrite Hn, Hs. apply lookup_delete_eq.
    + rewrite (decide_False (P := (node, _) = _)) by (unfold table_key, node_shard in *; congruence).
      case_decide as He.
      * rewrite lookup_delete_eq. cbn [mbind option_bind]. symmetry.
        destruct (m !! (node, sh)) as [o|] eqn:Ho; [|done]. exfalso.
        assert (Hl : delete (node_shard t) m !! (node, sh) = Some o) by (by rewrite lookup_delete_ne).
        by rewrite He, lookup_empty in Hl.
      * rewrite lookup_insert_eq. cbn [mbind option_bind]. by rewrite lookup_delete_ne.
  - rewrite (decide_False (P := (node, _) = _)) by (unfold table_key, db_table in *; congruence).
    case_decide; [by rewrite lookup_delete_ne|by rewrite lookup_insert_ne].
Qed.

Lemma remove_table_total t c :
  is_Some (named c (t_node_identity t) (table_key t)) -> is_Some (remove_table t c).
Proof.
  intros [o Ho]. unfold named in Ho. unfold remove_table.
  change ((table_key t).1, (table_key t).2.1) with (db_table t) in Ho.
  by destruct (indexed_by_name c !! db_table t).
Qed.

Lemma remove_table_rest t c c' :
  remove_table t c = Some c' ->
  (names_nonempty c -> names_nonempty c') /\ indexed_by_node c' = indexed_by_node c /\ table_nodes c' = table_nodes c
  /\ indexed_by_id c' = delete (t_uuid t) (indexed_by_id c).
Proof.
  unfold remove_table. destruct (indexed_by_name c !! db_table t) as [m|] eqn:Hm; [|done].
  cbn [mbind option_bind]. intros [= <-]. split_and!; [|done..]. intros Hne dt m'. cbn [indexed_by_name].
  case_decide as He.
  - intros [_ H]%lookup_delete_Some. by apply (Hne dt).
  - intros [[_ <-]|[_ H]]%lookup_insert_Some; [done|by apply (Hne dt)].
Qed.

Lemma tables_of_cons node k t ts :
  tables_of node ((k, t) :: ts) ->
  k ∉ ts.*1 /\ t_node_identity t = node /\ table_key t = k /\ tables_of node ts.
Proof.
  intros [Hnd HF]. rewrite fmap_cons, NoDup_cons in Hnd. apply Forall_cons in HF as [[? ?] HF].
  destruct Hnd. by split_and!.
Qed.

(** The tables that are not kept disappear, and only they. *)
Lemma remove_tables_spec keep node ts c :
  tables_of node ts -> names_nonempty c -> Forall (fun kt => keep kt.1 = false -> is_Some (named c node kt.1)) ts ->
  exists c', remove_tables keep ts c = Some c' /\ names_nonempty c'
    /\ indexed_by_node c' = indexed_by_node c /\ table_nodes c' = table_nodes c
    /\ (forall n k, named c' n k = if decide (n = node /\ k ∈ ts.*1 /\ keep k = false) then None else named c n k)
    /\ (forall u, indexed_by_id c' !! u
          = if decide (u ∈ (fun kt => t_uuid kt.2) <$> filter (fun kt => keep kt.1 = false) ts)
            then None else indexed_by_id c !! u).
Proof.
  revert c. induction ts as [|[k t] ts IH]; intros c Hts Hne Hall.
  { exists c. split_and!; try done. intros n k. rewrite decide_False; [done|]. by intros (_ & ?%elem_of_nil & _). }
  apply tables_of_cons in Hts as (Hk & Hn & Hkey & Hts). apply Forall_cons in Hall as [Hin Hall]. cbn [fst] in Hin.
  cbn [remove_tables]. destruct (keep k) eqn:Hkeep.
  - destruct (IH c Hts Hne Hall) as (c' & -> & Hne' & Hbn & Htn & Hnm & Hid). exists c'. split_and!; try done.
    + intros n k'. rewrite Hnm, fmap_cons. cbn [fst]. apply decide_ext. rewrite elem_of_cons. split; [tauto|].
      intros (? & [->|?] & ?); [congruence|tauto].
    + intros u. by rewrite Hid, filter_cons_False by (simpl; congruence).
  - destruct (remove_table_total t c) as [c1 Hc1]; [rewrite Hn, Hkey; by apply Hin|].
    destruct (remove_table_rest _ _ _ Hc1) as (Hne1 & Hbn1 & Htn1 & Hid1). rewrite Hc1. cbn [mbind option_bind].
    destruct (IH c1 Hts (Hne1 Hne)) as (c' & -> & Hne' & Hbn & Htn & Hnm & Hid).
    { rewrite Forall_forall in Hall |- *. intros kt Hkt Hf. rewrite (named_remove _ _ _ _ _ Hc1), decide_False; [by apply Hall|].
      intros [= _ He]. apply Hk. rewrite <- Hkey, <- He. by apply list_elem_of_fmap_2. }
    exists c'. split_and!; [done|done|congruence|congruence| |].
    + intros n k'. rewrite Hnm, (named_remove _ _ _ _ _ Hc1), Hn, Hkey, fmap_cons. cbn [fst].
      repeat case_decide; try done; exfalso; rewrite elem_of_cons in *; naive_solver.
    + intros u. rewrite Hid, Hid1, filter_cons_True, fmap_cons by done. cbn [snd]. repeat case_decide; try done; rewrite elem_of_cons in *;
        rewrite ?lookup_delete; repeat case_decide; naive_solver.
Qed.

(** Putting a table under its name. *)
Lemma named_insert (c : catalog) (t : Table) (m : gmap NodeShard Table) by_node ns ids st node k :
  (forall ns' : NodeShard, ns' <> node_shard t -> m !! ns' = default ∅ (indexed_by_name c !! db_table t) !! ns') ->
  named (mkCatalog (<[db_table t := m]> (indexed_by_name c)) by_node ns ids st) node k
  = if decide ((node, k) = (t_node_identity t, table_key t)) then m !! node_shard t else named c node k.
Proof.
  intros Hm. unfold named. cbn [indexed_by_name]. destruct k as [db [nm sh]]. cbn [fst snd].
  destruct (decide (db_table t = (db, nm))) as [Hdt|Hdt].
  - rewrite Hdt, lookup_insert_eq. cbn [mbind option_bind]. unfold db_table in Hdt. injection Hdt as Hdb Hnm.
    destruct (decide (node_shard t = (node, sh))) as [Hns|Hns].
    + rewrite decide_True; [by rewrite Hns|]. unfold node_shard in Hns. injection Hns as Hn Hs.
      unfold table_key. congruence.
    + rewrite decide_False by (unfold table_key, node_shard in *; congruence).
      rewrite Hm by done. unfold db_table. rewrite Hdb, Hnm. by destruct (indexed_by_name c !! (db, nm)).
  - rewrite decide_False by (unfold table_key, db_table in *; congruence). by rewrite lookup_insert_ne.
Qed.

(** The identifier that an update replaces. *)
Definition replaced_uuid (old : option Table) (t : Table) : option N :=
  o ← old; if decide (t_uuid o <> t_uuid t /\ t_uuid o <> Nil) then Some (t_uuid o) else None.

Lemma update_table_spec t c :
  let c' := update_table t c in
  let old := named c (t_node_identity t) (table_key t) in
  (forall n k, named c' n k = if decide ((n, k) = (t_node_identity t, table_key t)) then Some t else named c n k)
  /\ (names_nonempty c -> names_nonempty c') /\ indexed_by_node c' = indexed_by_node c /\ table_nodes c' = table_nodes c
  /\ indexed_by_id c'
     = <[t_uuid t := t]> (match replaced_uuid old t with Some u => delete u (indexed_by_id c) | None => indexed_by_id c end).
Proof.
  cbv zeta. unfold update_table, named at 3.
  change ((table_key t).1, (table_key t).2.1) with (db_table t).
  change (t_node_identity t, (table_key t).2.2) with (node_shard t).
  destruct (indexed_by_name c !! db_table t) as [m|] eqn:Hm; cbn [mbind option_bind].
  - set (changed := match m !! node_shard t with Some o => _ | None => _ end). clearbody changed.
    assert (Hc : indexed_by_node (if changed then deleteTableStorageByName (db_table t) c else c) = indexed_by_node c
      /\ table_nodes (if changed then deleteTableStorageByName (db_table t) c else c) = table_nodes c
      /\ indexed_by_id (if changed then deleteTableStorageByName (db_table t) c else c) = indexed_by_id c) by (by destruct changed).
    destruct Hc as (-> & -> & ->). split_and!; [| |done|done|].
    + intros n k. rewrite named_insert; [by rewrite lookup_insert_eq|].
      intros ns' Hns. rewrite lookup_insert_ne by done. by rewrite Hm.
    + intros Hne dt m'. cbn [indexed_by_name]. intros [[_ <-]|[_ H]]%lookup_insert_Some; [|by apply (Hne dt)].
      apply insert_non_empty.
    + cbn [indexed_by_id]. f_equal. destruct (m !! node_shard t) as [o|]; cbn [replaced_uuid mbind option_bind]; [|done].
      repeat case_decide; try done; tauto.
  - split_and!; [| |done|done|done].
    + intros n k. rewrite named_insert; [by rewrite lookup_singleton_eq|].
      intros ns' Hns. rewrite lookup_singleton_ne by done. rewrite Hm. symmetry. apply lookup_empty.
    + intros Hne dt m'. cbn [indexed_by_name]. intros [[_ <-]|[_ H]]%lookup_insert_Some; [|by apply (Hne dt)].
      apply map_non_empty_singleton.
Qed.

Lemma add_table_spec t c :
  named c (t_node_identity t) (table_key t) = None ->
  let c' := add_table t c in
  (forall n k, named c' n k = if decide ((n, k) = (t_node_identity t, table_key t)) then Some t else named c n k)
  /\ (names_nonempty c -> names_nonempty c') /\ indexed_by_node c' = indexed_by_node c /\ table_nodes c' = table_nodes c
  /\ indexed_by_id c' = <[t_uuid t := t]> (indexed_by_id c).
Proof.
  intros Hold. cbv zeta. unfold add_table. set (m := default ∅ (indexed_by_name c !! db_table t)).
  assert (Hm : m !! node_shard t = None).
  { unfold named in Hold. change ((table_key t).1, (table_key t).2.1) with (db_table t) in Hold. unfold m.
    destruct (indexed_by_name c !! db_table t); [exact Hold|apply lookup_empty]. }
  rewrite Hm. split_and!; [| |done|done|done].
  - intros n k. rewrite named_insert; [by rewrite lookup_insert_eq|]. intros ns' Hns. by rewrite lookup_insert_ne.
  - intros Hne dt m'. cbn [indexed_by_name]. intros [[_ <-]|[_ H]]%lookup_insert_Some; [|by apply (Hne dt)].
    apply insert_non_empty.
Qed.

(** Putting the tables of a node one after the other, by one of the two
    operations; [Q] is what the operation needs to know of the former table. *)
Definition puts (f : Table -> catalog -> catalog) (Q : option Table -> Prop) : Prop :=
  forall t c, Q (named c (t_node_identity t) (table_key t)) ->
  (forall n k, named (f t c) n k = if decide ((n, k) = (t_node_identity t, table_key t)) then Some t else named c n k)
  /\ (names_nonempty c -> names_nonempty (f t c))
  /\ indexed_by_node (f t c) = indexed_by_node c /\ table_nodes (f t c) = table_nodes c.

Lemma puts_update : puts update_table (fun _ => True).
Proof. intros t c _. destruct (update_table_spec t c) as (? & ? & ? & ? & _). by split_and!. Qed.

Lemma puts_add : puts add_table (fun o => o = None).
Proof. intros t c Ho. destruct (add_table_spec t c Ho) as (? & ? & ? & ? & _). by split_and!. Qed.

Lemma named_put_other f Q node k t c k' :
  puts f Q -> Q (named c node k) -> t_node_identity t = node -> table_key t = k -> k' <> k ->
  named (f t c) node k' = named c node k'.
Proof.
  intros Hf HQ Hn Hk Hne. destruct (Hf t c) as (Hnm & _); [by rewrite Hn, Hk|].
  rewrite Hnm, decide_False; [done|]. congruence.
Qed.

Lemma put_tables_spec f Q node ts c :
  puts f Q -> tables_of node ts -> Forall (fun kt => Q (named c node kt.1)) ts ->
  let c' := foldl (fun c kt => f kt.2 c) c ts in
  (forall n k, named c' n k
     = if decide (n = node)
       then match (list_to_map ts : gmap DatabaseTableShard Table) !! k with Some t => Some t | None => named c n k end
       else named c n k)
  /\ (names_nonempty c -> names_nonempty c')
  /\ indexed_by_node c' = indexed_by_node c /\ table_nodes c' = table_nodes c.
Proof.
  intros Hf. revert c. induction ts as [|[k t] ts IH]; intros c Hts HQ.
  { cbn. split_and!; try done. intros n k'. rewrite lookup_empty. by case_decide. }
  apply tables_of_cons in Hts as (Hk & Hn & Hkey & Hts). apply Forall_cons in HQ as [HQ1 HQ]. cbn [foldl snd fst] in *.
  destruct (Hf t c) as (Hnm1 & Hne1 & Hbn1 & Htn1); [by rewrite Hn, Hkey|].
  destruct (IH (f t c) Hts) as (Hnm & Hne & Hbn & Htn).
  { rewrite Forall_forall in HQ |- *. intros kt Hkt. rewrite (named_put_other f Q node k t) by
      (done || (intros E; apply Hk; rewrite <- E; by apply list_elem_of_fmap_2)). by apply HQ. }
  split_and!; [|tauto|congruence|congruence]. intros n k'. rewrite Hnm. rewrite !Hnm1, Hn, Hkey. cbn [list_to_map foldr fst snd].
  destruct (decide (n = node)) as [->|Hnn]; [|rewrite decide_False; [done|congruence]].
  destruct (decide (k' = k)) as [->|Hkk].
  - rewrite lookup_insert_eq, decide_True by done. by rewrite not_elem_of_list_to_map_1.
  - rewrite lookup_insert_ne by done. rewrite decide_False by congruence. done.
Qed.

(** ** The catalog agrees with the snapshots *)

Definition snapshot_ok (node : str) (s : gmap DatabaseTableShard Table) : Prop :=
  forall k t, s !! k = Some t -> t_node_identity t = node /\ table_key t = k.

Definition names_ok (c : catalog) : Prop :=
  names_nonempty c
  /\ (forall n k, named c n k = entry c n k)
  /\ (forall n s, indexed_by_node c !! n = Some s -> snapshot_ok n s /\ is_Some (table_nodes c !! n)).

Lemma snapshot_tables_of node s ts : snapshot_ok node s -> ts ≡ₚ map_to_list s -> tables_of node ts.
Proof.
  intros Hs Hp. split; [rewrite Hp; apply NoDup_fst_map_to_list|]. rewrite Hp. apply Forall_forall.
  intros [k t] Hkt%elem_of_map_to_list. by apply Hs.
Qed.

Lemma order_lookup (s : gmap DatabaseTableShard Table) ts :
  ts ≡ₚ map_to_list s -> list_to_map ts = s.
Proof.
  intros Hp. assert (NoDup ts.*1) by (rewrite Hp; apply NoDup_fst_map_to_list).
  by rewrite (list_to_map_proper _ _ H Hp), list_to_map_to_list.
Qed.

Lemma order_keys (s : gmap DatabaseTableShard Table) ts k : ts ≡ₚ map_to_list s -> k ∈ ts.*1 <-> is_Some (s !! k).
Proof.
  intros Hp. rewrite Hp, list_elem_of_fmap. split.
  - intros ([k' t] & -> & H%elem_of_map_to_list). by exists t.
  - intros [t H]. exists (k, t). by rewrite elem_of_map_to_list.
Qed.


Lemma named_with_by_node m c n k : named (with_by_node m c) n k = named c n k.
Proof. done. Qed.

Lemma names_ok_known c n : names_ok c -> indexed_by_node c !! n = None -> forall k, named c n k = None.
Proof. intros (_ & He & _) Hn k. rewrite He. unfold entry. by rewrite Hn. Qed.

Lemma names_ok_tables c n s ts :
  names_ok c -> indexed_by_node c !! n = Some s -> ts ≡ₚ map_to_list s ->
  tables_of n ts /\ (forall keep : DatabaseTableShard -> bool, Forall (fun kt => keep kt.1 = false -> is_Some (named c n kt.1)) ts).
Proof.
  intros (_ & He & Hok) Hn Hp. destruct (Hok _ _ Hn) as [Hs _]. split; [by eapply snapshot_tables_of|].
  intros keep. rewrite Hp. apply Forall_forall. intros [k t] Hkt%elem_of_map_to_list _. cbn [fst].
  rewrite He. unfold entry. rewrite Hn. by exists t.
Qed.

(** Establishing the invariant after the snapshot of a node has been stored. *)
Lemma names_ok_store c c' node s :
  names_ok c -> names_nonempty c' -> snapshot_ok node s ->
  indexed_by_node c' = <[node := s]> (indexed_by_node c) ->
  (forall n, is_Some (table_nodes c !! n) \/ n = node -> is_Some (table_nodes c' !! n)) ->
  (forall n k, named c' n k = if decide (n = node) then s !! k else named c n k) ->
  names_ok c' /\ (forall n k, entry c' n k = if decide (n = node) then s !! k else entry c n k).
Proof.
  intros (Hne & He & Hok) Hne' Hs Hbn Htn Hnm.
  assert (He' : forall n k, entry c' n k = if decide (n = node) then s !! k else entry c n k).
  { intros n k. unfold entry. rewrite Hbn. case_decide as Hn; [subst n; by rewrite lookup_insert_eq|by rewrite lookup_insert_ne]. }
  split; [|done]. split_and!; [done| |].
  - intros n k. rewrite Hnm, He', He. done.
  - intros n s'. rewrite Hbn. intros [[<- <-]|[Hn H]]%lookup_insert_Some; [split; [done|apply Htn; by right]|].
    destruct (Hok _ _ H). split; [done|]. apply Htn. by left.
Qed.

Lemma merge_delete c node order :
  names_ok c -> order ≡ₚ map_to_list (default ∅ (indexed_by_node c !! n_identity node)) ->
  exists c', deleteCatalogForNode node order c = Some c' /\ names_ok c'
    /\ (forall n k, entry c' n k = if decide (n = n_identity node) then (∅ : gmap DatabaseTableShard Table) !! k else entry c n k).
Proof.
  intros Hok Hp. unfold deleteCatalogForNode. destruct (indexed_by_node c !! n_identity node) as [s|] eqn:Hn; cbn in Hp.
  - destruct (names_ok_tables c _ s order Hok Hn Hp) as [Hts Hall].
    destruct (remove_tables_spec (fun _ => false) _ _ c Hts (proj1 Hok) (Hall _)) as (c1 & -> & Hne & Hbn & Htn & Hnm & _).
    cbn [mbind option_bind]. eexists. split; [done|]. apply (names_ok_store c _ _ ∅); try done.
    + cbn [with_by_node indexed_by_node]. by rewrite Hbn.
    + cbn [with_by_node table_nodes]. rewrite Htn. intros n [?| ->]; [done|]. by eapply Hok.
    + intros n k. rewrite named_with_by_node, Hnm. destruct (decide (n = n_identity node)) as [->|Hne'].
      * rewrite lookup_empty. match goal with |- context [decide ?P] => destruct (decide P) as [|Hd] end; [done|]. rewrite (proj1 (proj2 Hok)). unfold entry. rewrite Hn. cbn [mbind option_bind].
        destruct (s !! k) eqn:Hk; [|done]. exfalso. apply Hd. split_and!; try done. apply (order_keys s order); eauto.
      * rewrite decide_False; [done|naive_solver].
  - exists c. split_and!; try done. intros n k. case_decide as Hnn; [|done]. subst n. unfold entry. by rewrite Hn, lookup_empty.
Qed.

Lemma merge_new c node s order :
  names_ok c -> indexed_by_node c !! n_identity node = None -> snapshot_ok (n_identity node) s -> order ≡ₚ map_to_list s ->
  let c1 := foldl (fun c kt => add_table kt.2 c) c order in
  let c' := with_nodes (table_nodes c1 ∪ {[n_identity node := node]})
              (with_by_node (<[n_identity node := s]> (indexed_by_node c1)) c1) in
  names_ok c' /\ (forall n k, entry c' n k = if decide (n = n_identity node) then s !! k else entry c n k).
Proof.
  intros Hok Hn Hs Hp. pose proof (names_ok_known _ _ Hok Hn) as Hnone.
  destruct (put_tables_spec add_table _ (n_identity node) order c puts_add) as (Hnm & Hne & Hbn & Htn).
  { by eapply snapshot_tables_of. } { apply Forall_forall. intros kt _. apply Hnone. }
  cbv zeta. rewrite Hbn, Htn. apply (names_ok_store c); try done.
  - apply Hne, Hok.
  - cbn [with_nodes table_nodes]. intros n. rewrite lookup_union_is_Some. intros [?| ->]; [by left|right].
    rewrite lookup_singleton_eq. by eexists.
  - intros n k. etrans; [exact (Hnm n k)|]. rewrite (order_lookup s) by done. case_decide as Hd; [|done]. subst n. rewrite Hnone. by destruct (s !! k).
Qed.

Lemma names_ok_with_nodes c ns :
  names_ok c -> (forall n, is_Some (table_nodes c !! n) -> is_Some (ns !! n)) -> names_ok (with_nodes ns c).
Proof. intros (? & ? & Hok) Hns. split_and!; try done. intros n s Hn. destruct (Hok n s Hn). split; [done|]. by apply Hns. Qed.

Lemma merge_known c node s0 s oorder norder :
  names_ok c -> indexed_by_node c !! n_identity node = Some s0 -> snapshot_ok (n_identity node) s ->
  oorder ≡ₚ map_to_list s0 -> norder ≡ₚ map_to_list s ->
  exists c1, remove_tables (fun k => bool_decide (is_Some (s !! k))) oorder
               (with_nodes (<[n_identity node := node]> (table_nodes c)) c) = Some c1
    /\ let c2 := foldl (fun c kt => update_table kt.2 c) c1 norder in
       let c' := with_by_node (<[n_identity node := s]> (indexed_by_node c2)) c2 in
       names_ok c' /\ (forall n k, entry c' n k = if decide (n = n_identity node) then s !! k else entry c n k).
Proof.
  intros Hok Hn Hs Hpo Hpn. set (c0 := with_nodes _ c).
  assert (Hok0 : names_ok c0).
  { apply names_ok_with_nodes; [done|]. intros n ?. rewrite lookup_insert. case_decide; [by eexists|done]. }
  destruct (names_ok_tables c0 _ s0 oorder Hok0 Hn Hpo) as [Hts Hall].
  destruct (remove_tables_spec (fun k => bool_decide (is_Some (s !! k))) _ _ c0 Hts (proj1 Hok0) (Hall _))
    as (c1 & -> & Hne1 & Hbn1 & Htn1 & Hnm1 & _).
  exists c1. split; [done|]. destruct (put_tables_spec update_table _ (n_identity node) norder c1 puts_update) as (Hnm & Hne & Hbn & Htn).
  { by eapply snapshot_tables_of. } { by apply Forall_true. }
  cbv zeta. apply (names_ok_store c); try done.
  - by apply Hne.
  - cbn [with_by_node indexed_by_node]. by rewrite Hbn, Hbn1.
  - cbn [with_by_node table_nodes]. rewrite Htn, Htn1. intros n. cbn [c0 with_nodes table_nodes]. rewrite lookup_insert.
    intros [?| ->]; [case_decide; [by eexists|done]|]. rewrite decide_True by done. by eexists.
  - intros n k. rewrite named_with_by_node, Hnm, (order_lookup s), Hnm1 by done.
    destruct (decide (n = n_identity node)) as [->|]; [|rewrite decide_False; [done|tauto]].
    destruct (s !! k) eqn:Hk; [done|]. match goal with |- context [decide ?P] => destruct (decide P) as [|Hd] end; [done|].
    change (named c0 (n_identity node) k) with (named c (n_identity node) k).
    rewrite (proj1 (proj2 Hok)). unfold entry. rewrite Hn. cbn [mbind option_bind]. destruct (s0 !! k) eqn:Hk0; [|done].
    exfalso. apply Hd. split_and!; [done|apply (order_keys s0 oorder); eauto|apply bool_decide_eq_false; by intros [? ?]].
Qed.

Lemma mergeCatalog_names c node s oorder norder :
  names_ok c -> snapshot_ok (n_identity node) s ->
  oorder ≡ₚ map_to_list (default ∅ (indexed_by_node c !! n_identity node)) -> norder ≡ₚ map_to_list s ->
  exists c', mergeCatalog node s oorder norder c = Some c' /\ names_ok c'
    /\ (forall n k, entry c' n k = if decide (n = n_identity node) then s !! k else entry c n k).
Proof.
  intros Hok Hs Hpo Hpn. unfold mergeCatalog. case_decide as He.
  { subst s. by apply merge_delete. }
  destruct (indexed_by_node c !! n_identity node) as [s0|] eqn:Hn; cbn [default] in Hpo.
  - destruct (merge_known c node s0 s oorder norder Hok Hn Hs Hpo Hpn) as (c1 & -> & H). cbn [mbind option_bind]. eexists. by split.
  - eexists. split; [done|]. by apply merge_new.
Qed.

Lemma build_table_identity node row t :
  build_table node row = Ok t -> t_node_identity t = n_identity node.
Proof.
  unfold build_table. case_decide; [destruct (searchIntValueByRegex _ _); cbn; [|done]|]; by intros [= <-].
Qed.

Lemma buildCatalog_ok node rows s s' :
  snapshot_ok (n_identity node) s -> buildCatalog node rows s = Ok s' -> snapshot_ok (n_identity node) s'.
Proof.
  revert s. induction rows as [|row rows IH]; intros s Hs; cbn [buildCatalog]; [by intros [= <-]|].
  destruct (build_table node row) as [t|] eqn:Ht; cbn [mbind result_bind]; [|done]. apply IH.
  destruct (s !! table_key t); [done|]. intros k t' [[<- <-]|[_ H]]%lookup_insert_Some; [|by apply Hs].
  split; [by eapply build_table_identity|done].
Qed.

(** ** Announced nodes *)

Lemma is_digit_plain c : is_digit c = true -> is_space c = false /\ c <> "-"%char /\ c <> "+"%char.
Proof.
  intros H. split_and!; [|intros ->; by vm_compute in H..].
  unfold is_space. rewrite bool_decide_eq_false_2 by (intros ->; by vm_compute in H).
  unfold is_digit in H. cbn [orb]. lia.
Qed.

Lemma stoi_writeIntText z : in_signed 32 z = true -> stoi (writeIntText z) = Ok z.
Proof.
  intros Hw. unfold writeIntText, stoi, sto.
  pose proof (dec_digits_nonempty (Z.to_nat (Z.log2 (Z.abs z))) (Z.abs z)) as Hne.
  pose proof (dec_digits_digits (S (Z.to_nat (Z.log2 (Z.abs z)))) (Z.abs z) (Z.abs_nonneg z)) as Hds.
  pose proof (dec_digits_value _ _ (dec_fuel_enough (Z.abs z) (Z.abs_nonneg z))) as Hv.
  destruct (z <? 0) eqn:E; boolify.
  - rewrite Z.abs_neq in * by lia. cbn [skip_space]. change (is_space ch_minus) with false. cbn iota.
    rewrite decide_True by done. rewrite take_digits_all by done. rewrite decide_False by done.
    by rewrite Hv, Z.opp_involutive, Hw.
  - rewrite Z.abs_eq in * by lia. destruct (dec_digits _ _) as [|c ds] eqn:Ed; [done|].
    destruct (is_digit_plain c) as (Hsp & Hm & Hp); [by inversion Hds|]. cbn [skip_space]. rewrite Hsp. cbn iota.
    rewrite !decide_False by done. rewrite take_digits_all by done. rewrite decide_False by done. by rewrite Hv, Hw.
Qed.

Lemma int16_range z : - 2 ^ 15 <= int16 z < 2 ^ 15.
Proof. unfold int16, to_signed, wrap. pose proof (Z.mod_pos_bound z (2 ^ 16) ltac:(lia)). case_match; lia. Qed.

Lemma int16_id z : - 2 ^ 15 <= z < 2 ^ 15 -> int16 z = z.
Proof.
  intros Hz. unfold int16, to_signed, wrap. destruct (decide (z < 0)).
  - rewrite <- (Z.mod_unique z (2 ^ 16) (-1) (z + 2 ^ 16)) by lia. case_match; lia.
  - rewrite Z.mod_small by lia. case_match; lia.
Qed.

Lemma int16_high z : 2 ^ 15 <= z < 2 ^ 16 -> int16 z = z - 2 ^ 16.
Proof. intros Hz. unfold int16, to_signed, wrap. rewrite Z.mod_small by lia. case_match; lia. Qed.

Lemma header_port_written hs key z :
  hs !! key = Some (writeIntText (int16 z)) -> header_port hs key = Ok (int16 z).
Proof.
  intros H. unfold header_port. pose proof (int16_range z). rewrite H, stoi_writeIntText; cbn [mbind result_bind].
  - by rewrite int16_id.
  - unfold in_signed. lia.
Qed.

Ltac lookup_headers :=
  try match goal with |- ?h !! _ = _ => is_var h; unfold h end;
  repeat (rewrite lookup_insert_ne; [|done]); apply lookup_insert_eq.

(** What the nodes read of an announcement. *)
Lemma announced_node {Block} config roles host channel identity version (record : WalRecord Block) :
  let r := setupRecordHeaders (initPorts config) roles host channel identity version record in
  headers r !! IDEMPOTENT_KEY = Some identity /\ headers r !! lit "_version" = Some version
  /\ make_node identity (headers r)
     = Ok (mkNode identity host channel roles (int16 (config_port config (lit "https_port")))
             (int16 (config_port config (lit "http_port"))) (int16 (config_port config (lit "tcp_port_secure")))
             (int16 (config_port config (lit "tcp_port")))).
Proof.
  unfold setupRecordHeaders. cbv zeta. cbn [headers setIdempotentKey]. set (hs := <[lit "_version" := version]> _).
  unfold make_node, header_string.
  rewrite (header_port_written hs (lit "_https_port") (config_port config (lit "https_port"))) by lookup_headers.
  rewrite (header_port_written hs (lit "_http_port") (config_port config (lit "http_port"))) by lookup_headers.
  rewrite (header_port_written hs (lit "_tcp_port_secure") (config_port config (lit "tcp_port_secure"))) by lookup_headers.
  rewrite (header_port_written hs (lit "_tcp_port") (config_port config (lit "tcp_port"))) by lookup_headers.
  cbn [mbind result_bind]. split_and!; [lookup_headers..|].
  assert (hs !! lit "_host" = Some host) as -> by lookup_headers. assert (hs !! lit "_channel" = Some channel) as -> by lookup_headers.
  by assert (hs !! lit "_node_roles" = Some roles) as -> by lookup_headers.
Qed.

(** ** What the records say *)

(** The node and the tables a valid record reports. *)
Definition report (record : WalRecord (list catalog_row))
    : option (str * gmap DatabaseTableShard Table) :=
  if hasIdempotentKey record && bool_decide (headers record !! lit "_version" = Some (lit "1"))
  then match (identity ← idempotentKey record; make_node identity (headers record)) with
       | Ok node => if node_isValid node
                    then match buildCatalog node (block record) ∅ with
                         | Ok snapshot => Some (n_identity node, snapshot)
                         | Throw _ => None
                         end
                    else None
       | Throw _ => None
       end
  else None.

(** The tables a node reported last. *)
Definition last_report (records : list (WalRecord (list catalog_row))) (node : str)
    : gmap DatabaseTableShard Table :=
  foldl (fun s record => match report record with
                         | Some (n, s') => if decide (n = node) then s' else s
                         | None => s
                         end) ∅ records.

Definition visits_all (orders : gmap DatabaseTableShard Table -> list (DatabaseTableShard * Table)) : Prop :=
  forall s, orders s ≡ₚ map_to_list s.

Lemma process_record_names record orders c :
  names_ok c -> visits_all orders ->
  (exists e, process_record record orders c = Some (Throw e))
  \/ (exists c', process_record record orders c = Some (Ok c') /\ names_ok c'
      /\ forall n k, entry c' n k = match report record with
                                    | Some (m, s) => if decide (m = n) then s !! k else entry c n k
                                    | None => entry c n k
                                    end).
Proof.
  intros Hok Ho. unfold process_record, report.
  destruct (hasIdempotentKey record); cbn [negb andb]; [|right; by exists c].
  destruct (bool_decide _); cbn [negb]; [|right; by exists c].
  destruct (idempotentKey record ≫= _) as [node|e]; [|left; by exists e].
  destruct (node_isValid node); cbn [negb]; [|right; by exists c].
  destruct (buildCatalog node (block record) ∅) as [s|e] eqn:Hb; [right|left; by exists e].
  destruct (mergeCatalog_names c node s (orders (default ∅ (indexed_by_node c !! n_identity node))) (orders s))
    as (c' & -> & Hok' & Hent); [done|eapply buildCatalog_ok; [|done]; by intros ??|apply Ho|apply Ho|].
  exists c'. split_and!; [done..|]. intros n k. rewrite Hent. by apply decide_ext.
Qed.

Lemma processRecords_names records c :
  names_ok c -> Forall (fun p => visits_all p.2) records ->
  (exists e, processRecords records c = Some (Throw e))
  \/ (exists c', processRecords records c = Some (Ok c') /\ names_ok c'
      /\ forall n k (s : gmap DatabaseTableShard Table), s !! k = entry c n k ->
           entry c' n k = foldl (fun s record => match report record with
                                                 | Some (m, s') => if decide (m = n) then s' else s
                                                 | None => s
                                                 end) s records.*1 !! k).
Proof.
  revert c. induction records as [|[record orders] records IH]; intros c Hok HF; cbn [processRecords].
  { right. exists c. by split_and!. }
  apply Forall_cons in HF as [Ho HF]. cbn [snd] in Ho.
  destruct (process_record_names record orders c Hok Ho) as [(e & ->)|(c1 & -> & Hok1 & Hent)];
    cbn [mbind option_bind]; [left; by exists e|].
  destruct (IH c1 Hok1 HF) as [?|(c' & -> & Hok' & He)]; [by left|right]. exists c'. split_and!; try done.
  intros n k s Hs. cbn [fmap list_fmap foldl fst]. apply He. rewrite Hent.
  destruct (report record) as [[m s']|]; [destruct (decide (m = n)); done|done].
Qed.

Lemma elem_of_findTableByName c database table t :
  t ∈ findTableByName c database table <-> exists n sh, named c n (database, (table, sh)) = Some t.
Proof.
  unfold findTableByName, named. cbn [fst snd]. rewrite list_elem_of_fmap. split.
  - intros ([[n sh] t'] & -> & H%elem_of_map_to_list). exists n, sh. by destruct (indexed_by_name c !! (database, table)).
  - intros (n & sh & H). exists ((n, sh), t). split; [done|]. apply elem_of_map_to_list.
    by destruct (indexed_by_name c !! (database, table)).
Qed.

Lemma tableExists_spec c database table :
  names_nonempty c -> tableExists c database table = true <-> exists n sh t, named c n (database, (table, sh)) = Some t.
Proof.
  intros Hne. unfold tableExists, named. cbn [fst snd]. rewrite bool_decide_eq_true. split.
  - intros [m Hm]. destruct (map_choose m (Hne _ _ Hm)) as ([n sh] & t & Ht). exists n, sh, t. by rewrite Hm.
  - intros (n & sh & t & H). by destruct (indexed_by_name c !! (database, table)).
Qed.

Lemma elem_of_findTableByNode c n t : t ∈ findTableByNode c n <-> exists k, entry c n k = Some t.
Proof.
  unfold findTableByNode, entry. rewrite list_elem_of_fmap. split.
  - intros ([k t'] & -> & H%elem_of_map_to_list). exists k. by destruct (indexed_by_node c !! n).
  - intros (k & H). exists (k, t). split; [done|]. apply elem_of_map_to_list. by destruct (indexed_by_node c !! n).
Qed.

Lemma empty_names_ok : names_ok empty_catalog.
Proof. split_and!; [intros dt m H|done|intros n s H]; cbn in H; by rewrite lookup_empty in H. Qed.

(** ** The index of identifiers *)

(** What an operation does to this index: the identifier [repl] names goes away. *)
Definition puts_ids (f : Table -> catalog -> catalog) (Q : option Table -> Prop) (repl : option Table -> Table -> option N)
    : Prop :=
  forall t c, Q (named c (t_node_identity t) (table_key t)) ->
  indexed_by_id (f t c)
  = <[t_uuid t := t]> (match repl (named c (t_node_identity t) (table_key t)) t with
                       | Some u => delete u (indexed_by_id c)
                       | None => indexed_by_id c
                       end).

Lemma puts_ids_update : puts_ids update_table (fun _ => True) replaced_uuid.
Proof. intros t c _. by destruct (update_table_spec t c) as (_ & _ & _ & _ & ?). Qed.

Lemma puts_ids_add : puts_ids add_table (fun o => o = None) (fun _ _ => None).
Proof. intros t c Ho. by destruct (add_table_spec t c Ho) as (_ & _ & _ & _ & ?). Qed.

Lemma put_keeps f Q node k t ts c :
  puts f Q -> t_node_identity t = node -> table_key t = k -> k ∉ ts.*1 -> Q (named c node k) ->
  forall kt : DatabaseTableShard * Table, kt ∈ ts -> named (f t c) node kt.1 = named c node kt.1.
Proof.
  intros Hf Hn Hk Hni HQ kt Hkt. apply (named_put_other f Q node k t); try done.
  intros E. apply Hni. rewrite <- E. by apply list_elem_of_fmap_2.
Qed.

(** When no table takes the identifier that another one of the list leaves. *)
Lemma put_tables_ids f Q repl node ts c :
  puts f Q -> puts_ids f Q repl -> tables_of node ts -> Forall (fun kt => Q (named c node kt.1)) ts ->
  NoDup ((fun kt : DatabaseTableShard * Table => t_uuid kt.2) <$> ts) ->
  (forall kt kt', kt ∈ ts -> kt' ∈ ts -> repl (named c node kt.1) kt.2 <> Some (t_uuid kt'.2)) ->
  let ids := indexed_by_id (foldl (fun c kt => f kt.2 c) c ts) in
  (forall kt, kt ∈ ts -> ids !! t_uuid kt.2 = Some kt.2)
  /\ (forall u, (forall kt, kt ∈ ts -> t_uuid kt.2 <> u) ->
        ids !! u = if decide (Some u ∈ (fun kt => repl (named c node kt.1) kt.2) <$> ts) then None else indexed_by_id c !! u).
Proof.
  intros Hf Hfi. revert c. induction ts as [|[k t] ts IH]; intros c Hts HQ Hnd Hex; cbv zeta.
  { split; [by intros kt ?%elem_of_nil|]. intros u _. by rewrite decide_False by apply not_elem_of_nil. }
  apply tables_of_cons in Hts as (Hk & Hn & Hkey & Hts). apply Forall_cons in HQ as [HQ1 HQ]. cbn [foldl snd fst] in *.
  rewrite fmap_cons, NoDup_cons in Hnd. destruct Hnd as [Hu Hnd]. cbn [snd] in Hu.
  pose proof (put_keeps f Q node k t ts c Hf Hn Hkey Hk HQ1) as Hsame.
  assert (Hids := Hfi t c ltac:(by rewrite Hn, Hkey)). rewrite Hn, Hkey in Hids.
  destruct (IH (f t c) Hts) as [Hin Hout]; [|done| |].
  { rewrite Forall_forall in HQ |- *. intros kt Hkt. rewrite Hsame by done. by apply HQ. }
  { intros kt kt' Hkt Hkt'. rewrite Hsame by done. apply Hex; by apply list_elem_of_further. }
  assert (Hmap : (fun kt => repl (named (f t c) node kt.1) kt.2) <$> ts = (fun kt => repl (named c node kt.1) kt.2) <$> ts).
  { apply list_fmap_ext. intros i kt Hkt%list_elem_of_lookup_2. by rewrite Hsame. }
  rewrite Hmap in Hout. split.
  - intros kt [-> |Hkt]%elem_of_cons; [|by apply Hin]. cbn [snd]. rewrite Hout.
    + rewrite decide_False, Hids, lookup_insert_eq; [done|]. intros (kt' & E & Hkt')%list_elem_of_fmap.
      apply (Hex kt' (k, t)); [by apply list_elem_of_further|by apply list_elem_of_here|done].
    + intros kt' Hkt' E. apply Hu. rewrite <- E. by apply (list_elem_of_fmap_2 (fun kt => t_uuid kt.2)).
  - intros u Hne. rewrite Hout by (intros kt Hkt; apply Hne; by apply list_elem_of_further). rewrite fmap_cons, Hids. cbn [fst snd].
    rewrite lookup_insert_ne by (apply (Hne (k, t)), list_elem_of_here).
    destruct (decide (Some u ∈ _)) as [Hd|Hd]; [rewrite decide_True; [done|by apply list_elem_of_further]|].
    destruct (repl (named c node k) t) as [v|]; [destruct (decide (v = u)) as [-> |Hv]|].
    + rewrite lookup_delete_eq, decide_True; [done|apply list_elem_of_here].
    + rewrite lookup_delete_ne, decide_False; [done| |done]. rewrite elem_of_cons. naive_solver.
    + rewrite decide_False; [done|]. rewrite elem_of_cons. naive_solver.
Qed.

Definition ids_ok (c : catalog) : Prop :=
  (forall u t, indexed_by_id c !! u = Some t <-> t_uuid t = u /\ exists n k, entry c n k = Some t)
  /\ (forall n k t, entry c n k = Some t -> t_uuid t <> Nil).

(** What the index needs of a snapshot: its identifiers are its own, and no table
    whose identifier changes leaves the old one to another table of the snapshot. *)
Definition uuid_safe (node : str) (s : gmap DatabaseTableShard Table) (c : catalog) : Prop :=
  (forall k k' t t', s !! k = Some t -> s !! k' = Some t' -> t_uuid t = t_uuid t' -> k = k')
  /\ (forall k t, s !! k = Some t -> t_uuid t <> Nil)
  /\ (forall n k' t' k t, n <> node -> entry c n k' = Some t' -> s !! k = Some t -> t_uuid t <> t_uuid t')
  /\ (forall k t0 t k' t', entry c node k = Some t0 -> s !! k = Some t -> t_uuid t0 <> t_uuid t -> s !! k' = Some t' ->
        t_uuid t' <> t_uuid t0).

Definition had_uuid (c : catalog) (node : str) (u : N) : Prop := exists k t, entry c node k = Some t /\ t_uuid t = u.

(** What a merge leaves in the index. *)
Definition ids_merged (c c' : catalog) (node : str) (s : gmap DatabaseTableShard Table) : Prop :=
  (forall k t, s !! k = Some t -> indexed_by_id c' !! t_uuid t = Some t)
  /\ (forall u, (forall k t, s !! k = Some t -> t_uuid t <> u) ->
        (had_uuid c node u -> indexed_by_id c' !! u = None)
        /\ (~ had_uuid c node u -> indexed_by_id c' !! u = indexed_by_id c !! u)).

Lemma snapshot_uuid_dec (s : gmap DatabaseTableShard Table) (u : N) :
  (exists k t, s !! k = Some t /\ t_uuid t = u) \/ (forall k t, s !! k = Some t -> t_uuid t <> u).
Proof.
  destruct (decide (Exists (fun kt => t_uuid kt.2 = u) (map_to_list s))) as [H|H].
  - apply Exists_exists in H as ([k t] & Hkt%elem_of_map_to_list & Hu). left. by exists k, t.
  - right. intros k t Hk Hu. apply H, Exists_exists. exists (k, t). by rewrite elem_of_map_to_list.
Qed.

Lemma entry_identity c n k t : names_ok c -> entry c n k = Some t -> t_node_identity t = n /\ table_key t = k.
Proof.
  intros (_ & _ & Hok). unfold entry. destruct (indexed_by_node c !! n) as [s|] eqn:Hs; [|done]. cbn [mbind option_bind].
  intros Hk. by apply (Hok n s Hs).
Qed.

Lemma had_uuid_dec c node u : had_uuid c node u \/ ~ had_uuid c node u.
Proof.
  unfold had_uuid, entry. destruct (indexed_by_node c !! node) as [s|]; cbn [mbind option_bind]; [|right; by intros (? & ? & ? & ?)].
  destruct (snapshot_uuid_dec s u) as [?|H]; [by left|right]. intros (k & t & Hk & Hu). by apply (H k t).
Qed.

Lemma ids_ok_merged c c' node s :
  names_ok c -> ids_ok c -> uuid_safe node s c -> ids_merged c c' node s ->
  (forall n k, entry c' n k = if decide (n = node) then s !! k else entry c n k) -> ids_ok c'.
Proof.
  intros Hnames (Hids & Hnil) (Hinj & Hnz & Hother & _) (Hin & Hout) Hent. split.
  2:{ intros n k t. rewrite Hent. case_decide; [apply Hnz|apply Hnil]. }
  intros u t. split.
  - intros Hu. destruct (snapshot_uuid_dec s u) as [(k & t1 & Hk & <-)|Hno].
    { rewrite (Hin k t1 Hk) in Hu. injection Hu as ->. split; [done|]. exists node, k. by rewrite Hent, decide_True. }
    destruct (Hout u Hno) as [Hold Hkeep]. destruct (had_uuid_dec c node u) as [Hh|Hh]; [by rewrite Hold in Hu|].
    rewrite Hkeep in Hu by done. apply Hids in Hu as (<- & n & k & Hk). split; [done|]. exists n, k. rewrite Hent, decide_False; [done|].
    intros ->. apply Hh. by exists k, t.
  - intros (<- & n & k & Hk). rewrite Hent in Hk. case_decide as Hn; [by apply (Hin k)|].
    destruct (Hout (t_uuid t)) as [_ Hkeep]; [intros k' t' Hk'; by eapply Hother|].
    rewrite Hkeep; [apply Hids; eauto|]. intros (k0 & t0 & Hk0 & Hu).
    assert (t0 = t) as ->.
    { assert (H1 : indexed_by_id c !! t_uuid t = Some t0) by (apply Hids; eauto).
      assert (H2 : indexed_by_id c !! t_uuid t = Some t) by (apply Hids; eauto). congruence. }
    apply (entry_identity c _ _ _ Hnames) in Hk0 as [? _]. apply (entry_identity c _ _ _ Hnames) in Hk as [? _]. congruence.
Qed.

Lemma snapshot_uuids_nodup s ts :
  (forall k k' t t', s !! k = Some t -> s !! k' = Some t' -> t_uuid t = t_uuid t' -> k = k') ->
  ts ≡ₚ map_to_list s -> NoDup ((fun kt : DatabaseTableShard * Table => t_uuid kt.2) <$> ts).
Proof.
  intros Hinj Hp. rewrite Hp. apply NoDup_fmap_2_strong; [|apply NoDup_map_to_list].
  intros [k t] [k' t'] Hk%elem_of_map_to_list Hk'%elem_of_map_to_list Hu. cbn [snd] in Hu.
  assert (k = k') as -> by (by eapply Hinj). congruence.
Qed.

Lemma elem_of_order (s : gmap DatabaseTableShard Table) ts k t : ts ≡ₚ map_to_list s -> (k, t) ∈ ts <-> s !! k = Some t.
Proof. intros ->. apply elem_of_map_to_list. Qed.

Lemma had_uuid_known c node s u :
  indexed_by_node c !! node = Some s -> had_uuid c node u <-> exists k t, s !! k = Some t /\ t_uuid t = u.
Proof. intros Hn. unfold had_uuid, entry. by rewrite Hn. Qed.

Lemma delete_ids c c' node order :
  names_ok c -> order ≡ₚ map_to_list (default ∅ (indexed_by_node c !! n_identity node)) ->
  deleteCatalogForNode node order c = Some c' -> ids_merged c c' (n_identity node) ∅.
Proof.
  intros Hok Hp. unfold deleteCatalogForNode. destruct (indexed_by_node c !! n_identity node) as [s|] eqn:Hn; cbn in Hp.
  - destruct (names_ok_tables c _ s order Hok Hn Hp) as [Hts Hall].
    destruct (remove_tables_spec (fun _ => false) _ _ c Hts (proj1 Hok) (Hall _)) as (c1 & -> & _ & _ & _ & _ & Hid).
    cbn [mbind option_bind]. intros [= <-]. split; [intros k t Hk; by rewrite lookup_empty in Hk|]. intros u _.
    cbn [with_by_node indexed_by_id]. rewrite Hid. split; intros Hh; rewrite (had_uuid_known c _ s u Hn) in Hh.
    + rewrite decide_True; [done|]. destruct Hh as (k & t & Hk & <-). apply list_elem_of_fmap. exists (k, t). split; [done|].
      apply list_elem_of_filter. split; [done|]. by apply (elem_of_order s).
    + rewrite decide_False; [done|]. intros ([k t] & -> & Hkt)%list_elem_of_fmap. apply list_elem_of_filter in Hkt as [_ Hkt].
      apply Hh. exists k, t. split; [by apply (elem_of_order s order)|done].
  - intros [= <-]. split; [intros k t Hk; by rewrite lookup_empty in Hk|]. intros u _. split; [|done].
    unfold had_uuid, entry. rewrite Hn. by intros (? & ? & ? & ?).
Qed.

Lemma new_ids c node s order :
  names_ok c -> indexed_by_node c !! node = None -> snapshot_ok node s -> uuid_safe node s c -> order ≡ₚ map_to_list s ->
  ids_merged c (foldl (fun c kt => add_table kt.2 c) c order) node s.
Proof.
  intros Hok Hn Hs (Hinj & _) Hp. pose proof (names_ok_known _ _ Hok Hn) as Hnone.
  destruct (put_tables_ids add_table _ _ node order c puts_add puts_ids_add) as [Hin Hout]; [| | |done|].
  { by eapply snapshot_tables_of. } { apply Forall_forall. intros kt _. apply Hnone. } { by eapply snapshot_uuids_nodup. }
  split.
  - intros k t Hk. apply (Hin (k, t)). by apply (elem_of_order s).
  - intros u Hu. split; [unfold had_uuid, entry; rewrite Hn; by intros (? & ? & ? & ?)|]. intros _. rewrite Hout.
    + rewrite decide_False; [done|]. by intros (? & ? & ?)%list_elem_of_fmap.
    + intros [k t] Hkt. apply (Hu k). by apply (elem_of_order s order).
Qed.

(** The identifiers the updates of a known node replace. *)
Lemma replaced_spec (c c1 : catalog) (node : str) (s0 s : gmap DatabaseTableShard Table) (kt : DatabaseTableShard * Table) (u : N) :
  names_ok c -> (forall n k t, entry c n k = Some t -> t_uuid t <> Nil) -> indexed_by_node c !! node = Some s0 ->
  (forall k, is_Some (s !! k) -> named c1 node k = named c node k) -> s !! kt.1 = Some kt.2 ->
  replaced_uuid (named c1 node kt.1) kt.2 = Some u <-> exists t0, s0 !! kt.1 = Some t0 /\ t_uuid t0 = u /\ u <> t_uuid kt.2.
Proof.
  intros (_ & He & _) Hnil Hn Hsame Hk. rewrite Hsame, He by (by exists kt.2).
  assert (Hent : entry c node kt.1 = s0 !! kt.1) by (unfold entry; by rewrite Hn). rewrite Hent.
  unfold replaced_uuid. destruct (s0 !! kt.1) as [t0|] eqn:Hk0; cbn [mbind option_bind]; [|split; [done|by intros (? & ? & _)]].
  pose proof (Hnil node kt.1 t0 Hent) as Hz.
  case_decide as Hd; split; [intros [= <-]; exists t0; tauto|intros (? & [= <-] & <- & _); done|done|].
  intros (? & [= <-] & <- & ?). by destruct Hd.
Qed.

Lemma known_ids (c c1 : catalog) (node : str) (n : Node) (s0 s : gmap DatabaseTableShard Table) oorder norder :
  names_ok c -> ids_ok c -> indexed_by_node c !! node = Some s0 -> snapshot_ok node s -> uuid_safe node s c ->
  oorder ≡ₚ map_to_list s0 -> norder ≡ₚ map_to_list s ->
  remove_tables (fun k => bool_decide (is_Some (s !! k))) oorder (with_nodes (<[node := n]> (table_nodes c)) c) = Some c1 ->
  ids_merged c (foldl (fun c kt => update_table kt.2 c) c1 norder) node s.
Proof.
  intros Hok (_ & Hnil) Hn Hs (Hinj & Hnz & _ & Hmove) Hpo Hpn. set (c0 := with_nodes _ c).
  assert (Hok0 : names_ok c0).
  { apply names_ok_with_nodes; [done|]. intros n' ?. rewrite lookup_insert. case_decide; [by eexists|done]. }
  destruct (names_ok_tables c0 _ s0 oorder Hok0 Hn Hpo) as [Hts Hall].
  destruct (remove_tables_spec (fun k => bool_decide (is_Some (s !! k))) _ _ c0 Hts (proj1 Hok0) (Hall _))
    as (c1' & -> & _ & _ & _ & Hnm & Hid). intros [= ->].
  assert (Hsame : forall k, is_Some (s !! k) -> named c1 node k = named c node k).
  { intros k Hk. rewrite Hnm, decide_False; [done|]. intros (_ & _ & Hf). by rewrite bool_decide_eq_true_2 in Hf. }
  pose proof (fun kt u => replaced_spec c c1 node s0 s kt u Hok Hnil Hn Hsame) as Hrepl.
  destruct (put_tables_ids update_table _ _ node norder c1 puts_update puts_ids_update) as [Hin Hout].
  { by eapply snapshot_tables_of. } { by apply Forall_true. } { by eapply snapshot_uuids_nodup. }
  { intros [k t] [k' t'] Hkt%(elem_of_order s) Hkt'%(elem_of_order s) Hr; [|done..]. apply (Hrepl (k, t)) in Hr as (t0 & Hk0 & Hu & Hne); [|done].
    cbn [fst snd] in *. apply (Hmove k t0 t k' t'); [unfold entry; by rewrite Hn|done|congruence|done|done]. }
  split; [intros k t Hk; apply (Hin (k, t)); by apply (elem_of_order s)|].
  intros u Hu. rewrite Hout by (intros [k t] Hkt; apply (Hu k); by apply (elem_of_order s norder)).
  rewrite (had_uuid_known c node s0 u Hn), Hid. split.
  - intros (k & t0 & Hk0 & Hu0). case_decide as Hd; [done|]. rewrite decide_True; [done|]. apply list_elem_of_fmap. exists (k, t0). split; [done|].
    apply list_elem_of_filter. split; [|by apply (elem_of_order s0)]. cbn [fst]. apply bool_decide_eq_false. intros [t Hk].
    apply Hd, list_elem_of_fmap. exists (k, t). split; [|by apply (elem_of_order s)]. symmetry.
    apply (Hrepl (k, t)); [done|]. exists t0. split_and!; [done..|]. intros E. by apply (Hu k t).
  - intros Hh. rewrite !decide_False; [done| |].
    + intros ([k t0] & -> & Hkt)%list_elem_of_fmap. apply list_elem_of_filter in Hkt as [_ Hkt%(elem_of_order s0)]; [|done].
      apply Hh. by exists k, t0.
    + intros ([k t] & Hr & Hkt%(elem_of_order s))%list_elem_of_fmap; [|done]. symmetry in Hr.
      apply (Hrepl (k, t)) in Hr as (t0 & Hk0 & Hu0 & _); [|done]. apply Hh. by exists k, t0.
Qed.

Lemma mergeCatalog_ids c c' node s oorder norder :
  names_ok c -> ids_ok c -> snapshot_ok (n_identity node) s -> uuid_safe (n_identity node) s c ->
  oorder ≡ₚ map_to_list (default ∅ (indexed_by_node c !! n_identity node)) -> norder ≡ₚ map_to_list s ->
  mergeCatalog node s oorder norder c = Some c' -> names_ok c' /\ ids_ok c'.
Proof.
  intros Hok Hids Hs Hsafe Hpo Hpn Hm.
  destruct (mergeCatalog_names c node s oorder norder Hok Hs Hpo Hpn) as (c'' & Hm' & Hok' & Hent).
  rewrite Hm in Hm'. injection Hm' as <-. split; [done|]. apply (ids_ok_merged c c' (n_identity node) s); try done.
  unfold mergeCatalog in Hm. case_decide as He; [subst s; by eapply delete_ids|].
  destruct (indexed_by_node c !! n_identity node) as [s0|] eqn:Hn; cbn [default] in Hpo.
  - destruct (remove_tables _ _ _) as [c1|] eqn:Hr; [|done]. cbn [mbind option_bind] in Hm. injection Hm as <-.
    by apply (known_ids c c1 _ node s0 s oorder norder).
  - injection Hm as <-. by apply (new_ids c).
Qed.

(** C32: the catalog built from any list of broadcast records, whatever the order in
    which the hash maps are visited, never follows an iterator past the end, and
    when no record throws it says exactly what the nodes reported last: a lookup
    by name gives the tables of that name in the last reports of all nodes, a
    name exists when some node reported it last, and a lookup by node gives the
    last report of that node. *)
Theorem catalog_refines_reports records :
  Forall (fun p => visits_all p.2) records ->
  exists r, processRecords records empty_catalog = Some r /\
  forall c, r = Ok c ->
  let last := last_report records.*1 in
  (forall database table t,
     t ∈ findTableByName c database table <-> exists n sh, last n !! (database, (table, sh)) = Some t)
  /\ (forall database table,
     tableExists c database table = true <-> exists n sh, is_Some (last n !! (database, (table, sh))))
  /\ (forall n t, t ∈ findTableByNode c n <-> exists k, last n !! k = Some t).
Proof.
  intros HF. destruct (processRecords_names records empty_catalog empty_names_ok HF)
    as [(e & ->)|(c' & -> & (Hne & Heq & _) & He)]; eexists; (split; [done|]); [done|].
  intros c [= <-]. cbv zeta.
  assert (Hl : forall n k, entry c' n k = last_report records.*1 n !! k) by (intros n k; by apply He).
  split_and!.
  - intros database table t. rewrite elem_of_findTableByName. setoid_rewrite Heq. by setoid_rewrite Hl.
  - intros database table. rewrite tableExists_spec by done. setoid_rewrite Heq. by setoid_rewrite Hl.
  - intros n t. rewrite elem_of_findTableByNode. by setoid_rewrite Hl.
Qed.

(** A node that announces its plain HTTP and TCP ports, both legal port
    numbers, is accepted with exactly these ports when they are below 32768;
    when one of them is 32768 or above, every catalog ignores the node and all
    its tables, because ports are kept in 16-bit signed integers. *)
Lemma announced_ports orders c config roles host channel identity record hp tp :
  identity <> [] -> host <> [] ->
  config !! lit "https_port" = None -> config !! lit "tcp_port_secure" = None ->
  config !! lit "http_port" = Some hp -> config !! lit "tcp_port" = Some tp ->
  0 < hp < 2 ^ 16 -> 0 < tp < 2 ^ 16 ->
  let r := setupRecordHeaders (initPorts config) roles host channel identity (lit "1") record in
  (hp < 2 ^ 15 -> tp < 2 ^ 15 ->
   report r = match buildCatalog (mkNode identity host channel roles (-1) hp (-1) tp) (block record) ∅ with
                           | Ok snapshot => Some (identity, snapshot)
                           | Throw _ => None
                           end)
  /\ (2 ^ 15 <= hp \/ 2 ^ 15 <= tp -> process_record r orders c = Some (Ok c)).
Proof.
  intros Hi Hh Hs1 Hs2 Hhp Htp Hhr Htr r.
  destruct (announced_node config roles host channel identity (lit "1") record) as (Hkey & Hver & Hnode).
  change (setupRecordHeaders _ _ _ _ _ _ _) with r in Hkey, Hver, Hnode.
  unfold config_port in Hnode. rewrite Hs1, Hs2, Hhp, Htp in Hnode. cbn [from_option id] in Hnode.
  assert (Hid : hasIdempotentKey r = true) by (unfold hasIdempotentKey; rewrite Hkey; by rewrite bool_decide_eq_false_2).
  assert (Hk : idempotentKey r = Ok identity) by (unfold idempotentKey; by rewrite Hkey).
  unfold report, process_record. rewrite Hid, Hk, Hver, bool_decide_eq_true_2 by done. cbn [negb andb mbind result_bind].
  rewrite Hnode. unfold node_isValid. cbn [n_identity n_host n_http_port n_tcp_port n_https_port n_tcp_port_secure].
  rewrite !bool_decide_eq_false_2 by done. change (int16 (-1)) with (-1). cbn [negb andb]. split.
  - intros Hlo1 Hlo2. rewrite (int16_id hp), (int16_id tp) by lia. destruct (hp >? 0) eqn:E1, (tp >? 0) eqn:E2; try lia. done.
  - intros Hhi. assert ((int16 hp >? 0) && (int16 tp >? 0) = false) as ->; [|done].
    destruct Hhi; [rewrite (int16_high hp) by lia|rewrite (int16_high tp) by lia]; lia.
Qed.

Definition example_row (database name : string) (uuid : N) : catalog_row :=
  mkRow (fun col => if decide (col = lit "database") then Some (lit database)
                    else if decide (col = lit "name") then Some (lit name)
                    else if decide (col = lit "engine") then Some (lit "MergeTree") else None) (Some uuid).

Definition ports_config (http : Z) : gmap str Z := <[lit "http_port" := http]> {[lit "tcp_port" := 9000]}.

Definition example_announcement (http : Z) (identity : string) (rows : list catalog_row) : WalRecord (list catalog_row) :=
  catalog_append (initPorts (ports_config http)) [] (lit "host") (lit "channel") (lit identity) rows.

Lemma announced_ports_witness :
  process_record (example_announcement 40000 "n" [example_row "d" "t" 7]) map_to_list empty_catalog
  = Some (Ok empty_catalog).
Proof.
  apply (announced_ports map_to_list empty_catalog (ports_config 40000) [] (lit "host") (lit "channel") (lit "n")
           (mkRecord ADD_DATA_BLOCK ∅ [example_row "d" "t" 7] [] 0 (-1)) 40000 9000);
    [done|done|vm_compute; reflexivity..|split; by vm_compute|split; by vm_compute|left; by vm_compute].
Defined.

Definition example_records : list (WalRecord (list catalog_row) * (gmap DatabaseTableShard Table -> list (DatabaseTableShard * Table))) :=
  [(example_announcement 8123 "a" [example_row "d" "t" 1; example_row "d" "u" 2], map_to_list);
   (example_announcement 8123 "b" [example_row "d" "t" 3], map_to_list);
   (example_announcement 8123 "a" [example_row "d" "u" 2], map_to_list)].

Lemma catalog_refines_reports_witness :
  exists c, processRecords example_records empty_catalog = Some (Ok c)
    /\ tableExists c (lit "d") (lit "t") = true /\ tableExists c (lit "d") (lit "u") = true.
Proof.
  destruct (catalog_refines_reports example_records) as (r & Hr & H).
  { do 3 (constructor; [by intros s|]). constructor. }
  assert (Hok : match processRecords example_records empty_catalog with Some (Ok _) => true | _ => false end = true)
    by (vm_compute; reflexivity).
  rewrite Hr in Hok. destruct r as [c|e]; [|done]. exists c. destruct (H c eq_refl) as (_ & He & _).
  split_and!; [done|apply He; exists (lit "b"), 0|apply He; exists (lit "a"), 0]; vm_compute; eexists; reflexivity.
Defined.

(** ** Identifiers over a run of merges *)

Inductive merged : catalog -> Prop :=
| merged_empty : merged empty_catalog
| merged_step c node s oorder norder c' :
    merged c -> snapshot_ok (n_identity node) s -> uuid_safe (n_identity node) s c ->
    oorder ≡ₚ map_to_list (default ∅ (indexed_by_node c !! n_identity node)) -> norder ≡ₚ map_to_list s ->
    mergeCatalog node s oorder norder c = Some c' -> merged c'.

Lemma empty_ids_ok : ids_ok empty_catalog.
Proof.
  split; [|intros n k t H; by cbn in H]. intros u t. cbn. rewrite lookup_empty. split; [done|]. by intros (_ & n & k & H).
Qed.

Lemma merged_ok c : merged c -> names_ok c /\ ids_ok c.
Proof.
  induction 1 as [|c node s oorder norder c' _ [Hok Hids] Hs Hsafe Hpo Hpn Hm].
  - split; [apply empty_names_ok|apply empty_ids_ok].
  - by eapply mergeCatalog_ids.
Qed.

(** After any run of merges of snapshots whose identifiers are unique, tables
    created, dropped, renamed or recreated with new identifiers included, a
    lookup by identifier finds a table exactly when some node reported it last
    under that identifier, with the storage of the table's name. *)
Lemma catalog_ids c :
  merged c ->
  forall u t st, findTableStorageById c u = Some (t, st)
    <-> t_uuid t = u /\ st = storages c !! db_table t /\ exists n, t ∈ findTableByNode c n.
Proof.
  intros [_ [Hids _]]%merged_ok u t st. unfold findTableStorageById. setoid_rewrite elem_of_findTableByNode.
  destruct (indexed_by_id c !! u) as [t'|] eqn:Hu; cbn [mbind option_bind].
  - pose proof (proj1 (Hids u t') Hu) as [Hu' Hex']. split.
    + intros [= -> <-]. tauto.
    + intros (<- & -> & Hex). assert (indexed_by_id c !! t_uuid t = Some t) as E by (apply Hids; tauto).
      rewrite E in Hu. by injection Hu as ->.
  - split; [done|]. intros (<- & _ & Hex). exfalso. assert (indexed_by_id c !! t_uuid t = Some t) as E by (apply Hids; tauto). congruence.
Qed.

Lemma updates_keep_absent u ts c :
  indexed_by_id c !! u = None -> Forall (fun kt : DatabaseTableShard * Table => t_uuid kt.2 <> u) ts ->
  indexed_by_id (foldl (fun c kt => update_table kt.2 c) c ts) !! u = None.
Proof.
  revert c. induction ts as [|[k t] ts IH]; intros c Hc HF; [done|]. apply Forall_cons in HF as [Hu HF]. cbn [foldl snd] in *.
  apply IH; [|done]. rewrite (puts_ids_update t c I), lookup_insert_ne by done.
  destruct (replaced_uuid _ t) as [v|]; [|done]. rewrite lookup_delete_None. by right.
Qed.

(** The identifier a table leaves is lost when an earlier table has taken it. *)
Lemma updates_lose_id node l1 k t l2 c o kt' :
  tables_of node (l1 ++ (k, t) :: l2) -> NoDup ((fun kt : DatabaseTableShard * Table => t_uuid kt.2) <$> (l1 ++ (k, t) :: l2)) ->
  named c node k = Some o -> t_uuid o <> t_uuid t -> t_uuid o <> Nil -> kt' ∈ l1 -> t_uuid kt'.2 = t_uuid o ->
  indexed_by_id (foldl (fun c kt => update_table kt.2 c) c (l1 ++ (k, t) :: l2)) !! t_uuid o = None.
Proof.
  intros [Hnd HF] Hu Ho Hne Hnil Hin Ho'. rewrite foldl_app. cbn [foldl snd].
  rewrite fmap_app in Hnd. rewrite fmap_app in Hu. apply NoDup_app in Hnd as (Hnd1 & Hdis & _). apply Forall_app in HF as [HF1 HF2].
  destruct (put_tables_spec update_table _ node l1 c puts_update) as (Hnm & _); [by split|by apply Forall_true|].
  apply Forall_cons in HF2 as [[Hn Hk] _]. cbn [fst snd] in *. set (c1 := foldl _ c l1) in *.
  assert (Hold : named c1 node k = Some o).
  { rewrite Hnm, decide_True, not_elem_of_list_to_map_1; [done| |done]. intros H. apply (Hdis _ H), list_elem_of_here. }
  apply updates_keep_absent.
  - rewrite (puts_ids_update t c1 I), lookup_insert_ne by done. rewrite Hn, Hk, Hold. cbn [replaced_uuid mbind option_bind].
    rewrite decide_True by done. apply lookup_delete_eq.
  - apply Forall_forall. intros kt Hkt E. apply NoDup_app in Hu as (_ & Hu & _). apply (Hu (t_uuid kt'.2)).
    + by apply (list_elem_of_fmap_2 (fun kt => t_uuid kt.2)).
    + rewrite fmap_cons. apply list_elem_of_further. rewrite Ho', <- E. by apply (list_elem_of_fmap_2 (fun kt => t_uuid kt.2)).
Qed.

Lemma updates_exchange node ts c k1 k2 a b a' b' :
  tables_of node ts -> NoDup ((fun kt : DatabaseTableShard * Table => t_uuid kt.2) <$> ts) -> (k1, a') ∈ ts -> (k2, b') ∈ ts ->
  named c node k1 = Some a -> named c node k2 = Some b -> t_uuid a' = t_uuid b -> t_uuid b' = t_uuid a ->
  t_uuid a <> t_uuid b -> t_uuid a <> Nil -> t_uuid b <> Nil ->
  let ids := indexed_by_id (foldl (fun c kt => update_table kt.2 c) c ts) in
  ids !! t_uuid a = None \/ ids !! t_uuid b = None.
Proof.
  intros Hts Hu H1 H2 Ha Hb Hab Hba Hne Hna Hnb. cbv zeta.
  apply list_elem_of_split in H1 as (l1 & l2 & ->). apply elem_of_app in H2 as [H2|[E|H2]%elem_of_cons].
  - left. by apply (updates_lose_id node _ k1 a' _ _ _ (k2, b')); try congruence.
  - injection E as -> ->. congruence.
  - apply list_elem_of_split in H2 as (m1 & m2 & ->). right.
    rewrite (app_comm_cons m1 ((k2, b') :: m2)), app_assoc in Hts, Hu |- *.
    apply (updates_lose_id node _ k2 b' _ _ _ (k1, a')); try done; [congruence|].
    apply elem_of_app. right. apply list_elem_of_here.
Qed.

(** The tables of a known node that its snapshot keeps stay under their names. *)
Lemma known_kept (c c1 : catalog) (node : str) (n : Node) (s0 s : gmap DatabaseTableShard Table) oorder k :
  names_ok c -> indexed_by_node c !! node = Some s0 -> oorder ≡ₚ map_to_list s0 ->
  remove_tables (fun k => bool_decide (is_Some (s !! k))) oorder (with_nodes (<[node := n]> (table_nodes c)) c) = Some c1 ->
  is_Some (s !! k) -> named c1 node k = s0 !! k.
Proof.
  intros Hok Hn Hpo. set (c0 := with_nodes _ c).
  assert (Hok0 : names_ok c0).
  { apply names_ok_with_nodes; [done|]. intros n' ?. rewrite lookup_insert. case_decide; [by eexists|done]. }
  destruct (names_ok_tables c0 _ s0 oorder Hok0 Hn Hpo) as [Hts Hall].
  destruct (remove_tables_spec (fun k => bool_decide (is_Some (s !! k))) _ _ c0 Hts (proj1 Hok0) (Hall _))
    as (c1' & -> & _ & _ & _ & Hnm & _). intros [= ->] Hk. rewrite Hnm, decide_False.
  - rewrite (proj1 (proj2 Hok0)). unfold entry, c0. cbn [with_nodes indexed_by_node]. by rewrite Hn.
  - intros (_ & _ & Hf). by rewrite bool_decide_eq_true_2 in Hf.
Qed.

(** When a node reports that two of its tables have exchanged their
    identifiers, as exchanging two tables does, the merge drops one of the two
    identifiers from the index, although both tables are reported and the
    catalog lists them: the erasure of an old identifier does not check that
    the entry still belongs to the table that leaves it. *)
Lemma exchange_loses_id (c : catalog) (node : Node) (s0 s : gmap DatabaseTableShard Table) oorder norder k1 k2 a b a' b' :
  merged c -> indexed_by_node c !! n_identity node = Some s0 -> snapshot_ok (n_identity node) s ->
  (forall k k' t t', s !! k = Some t -> s !! k' = Some t' -> t_uuid t = t_uuid t' -> k = k') ->
  oorder ≡ₚ map_to_list s0 -> norder ≡ₚ map_to_list s ->
  s0 !! k1 = Some a -> s0 !! k2 = Some b -> s !! k1 = Some a' -> s !! k2 = Some b' ->
  t_uuid a' = t_uuid b -> t_uuid b' = t_uuid a -> t_uuid a <> t_uuid b ->
  exists c', mergeCatalog node s oorder norder c = Some c'
    /\ a' ∈ findTableByNode c' (n_identity node) /\ b' ∈ findTableByNode c' (n_identity node)
    /\ (findTableStorageById c' (t_uuid a) = None \/ findTableStorageById c' (t_uuid b) = None).
Proof.
  intros [Hok [_ Hnil]]%merged_ok Hn Hs Hinj Hpo Hpn Ha Hb Ha' Hb' Hab Hba Hne.
  destruct (mergeCatalog_names c node s oorder norder) as (c' & Hm & _ & Hent); [done|done|by rewrite Hn|done|].
  exists c'. split; [done|]. rewrite !elem_of_findTableByNode. split_and!.
  { exists k1. by rewrite Hent, decide_True. } { exists k2. by rewrite Hent, decide_True. }
  unfold mergeCatalog in Hm. rewrite decide_False in Hm by (intros ->; by rewrite lookup_empty in Ha'). rewrite Hn in Hm.
  destruct (remove_tables _ _ _) as [c1|] eqn:Hr; [|done]. cbn [mbind option_bind] in Hm. injection Hm as <-.
  assert (Hold : forall k o, s0 !! k = Some o -> entry c (n_identity node) k = Some o) by (intros k o H; unfold entry; by rewrite Hn).
  destruct (updates_exchange (n_identity node) norder c1 k1 k2 a b a' b') as [H|H]; try done;
    [by eapply snapshot_tables_of|by eapply snapshot_uuids_nodup|by apply (elem_of_order s)|by apply (elem_of_order s)| | | | | | ].
  - rewrite <- Ha. by apply (known_kept c c1 _ node s0 s oorder).
  - rewrite <- Hb. by apply (known_kept c c1 _ node s0 s oorder).
  - by apply (Hnil (n_identity node) k1), Hold.
  - by apply (Hnil (n_identity node) k2), Hold.
  - left. unfold findTableStorageById. cbn [with_by_node indexed_by_id]. by rewrite H.
  - right. unfold findTableStorageById. cbn [with_by_node indexed_by_id]. by rewrite H.
Qed.

(** ** Examples *)

Definition example_table (name : string) (uuid : N) : Table :=
  mkTable (lit "a") (lit "host") (lit "d") (lit name) uuid (lit "MergeTree") [] [] [] [] [] [] [] [] [] [] [] 0.
Definition example_node : Node := mkNode (lit "a") (lit "host") [] [] (-1) 8123 (-1) 9000.
Definition example_snapshot (uuid1 uuid2 : N) : gmap DatabaseTableShard Table :=
  <[table_key (example_table "t" uuid1) := example_table "t" uuid1]>
    {[table_key (example_table "u" uuid2) := example_table "u" uuid2]}.

Definition merge_example (s : gmap DatabaseTableShard Table) (c : catalog) : catalog :=
  default c (mergeCatalog example_node s (map_to_list (default ∅ (indexed_by_node c !! lit "a"))) (map_to_list s) c).

Lemma example_snapshot_cases uuid1 uuid2 k t :
  example_snapshot uuid1 uuid2 !! k = Some t ->
  (k = (lit "d", (lit "t", 0)) /\ t = example_table "t" uuid1) \/ (k = (lit "d", (lit "u", 0)) /\ t = example_table "u" uuid2).
Proof.
  unfold example_snapshot. intros [[<- <-]|[_ H]]%lookup_insert_Some; [by left|].
  apply lookup_singleton_Some in H as [<- <-]. by right.
Qed.

Lemma example_snapshot_ok uuid1 uuid2 : snapshot_ok (n_identity example_node) (example_snapshot uuid1 uuid2).
Proof. intros k t [[-> ->]|[-> ->]]%example_snapshot_cases; done. Qed.

Lemma example_snapshot_unique uuid1 uuid2 k k' t t' :
  uuid1 <> uuid2 -> example_snapshot uuid1 uuid2 !! k = Some t -> example_snapshot uuid1 uuid2 !! k' = Some t' ->
  t_uuid t = t_uuid t' -> k = k'.
Proof. intros Hu [[-> ->]|[-> ->]]%example_snapshot_cases [[-> ->]|[-> ->]]%example_snapshot_cases; cbn; congruence. Qed.

Definition example_catalog : catalog := merge_example (example_snapshot 1 2) empty_catalog.

Lemma example_merged : merged example_catalog.
Proof.
  eapply (merged_step empty_catalog example_node (example_snapshot 1 2)); [constructor|apply example_snapshot_ok| |reflexivity|reflexivity|].
  - split_and!; try done.
    + intros k k' t t'. by apply example_snapshot_unique.
    + intros k t [[-> ->]|[-> ->]]%example_snapshot_cases; done.
  - unfold example_catalog, merge_example. vm_compute. reflexivity.
Qed.

Lemma catalog_ids_witness :
  findTableStorageById example_catalog 2 = Some (example_table "u" 2, None).
Proof.
  apply (catalog_ids example_catalog example_merged). split; [reflexivity|]. split; [vm_compute; reflexivity|].
  exists (lit "a"). vm_compute. do 2 constructor.
Defined.

Lemma exchange_loses_id_witness :
  exists c', mergeCatalog example_node (example_snapshot 2 1) (map_to_list (example_snapshot 1 2))
               (map_to_list (example_snapshot 2 1)) example_catalog = Some c'
    /\ example_table "t" 2 ∈ findTableByNode c' (lit "a") /\ example_table "u" 1 ∈ findTableByNode c' (lit "a")
    /\ (findTableStorageById c' 1 = None \/ findTableStorageById c' 2 = None).
Proof.
  apply (exchange_loses_id example_catalog example_node (example_snapshot 1 2) (example_snapshot 2 1) _ _
           (lit "d", (lit "t", 0)) (lit "d", (lit "u", 0)) (example_table "t" 1) (example_table "u" 2)
           (example_table "t" 2) (example_table "u" 1)); try reflexivity; [apply example_merged|apply example_snapshot_ok| |done].
  intros k k' t t'. by apply example_snapshot_unique.
Defined.
