(* ===== verification/Placement.v ===== *)
(** * Placement: choosing the nodes of a new table

    Models src/src/DistributedMetadata/PlacementService.cpp and
    PlacementStrategy.{h,cpp}: nodes broadcast their free disk space and the
    number of their tables; the service merges these metrics, marks the nodes it
    has not heard from as stale and picks the nodes of the replicas of a table. *)

From S2P Require Import Prelude TextFormat WalRecord Catalog.

Local Open Scope Z_scope.

Record NodeMetrics : Type := mkMetrics {
  node : Node;
  disk_space : gmap str Z;
  last_heart_beat : Z;
  last_update_time : Z;
  num_of_tables : Z;
  staled : bool;
}.

Definition header_int64 (headers : gmap str str) (key : str) : result Z :=
  match headers !! key with Some v => stoll v | None => Ok (-1) end.

(** The constructor; [now] is the monotonic clock. *)
Definition make_metrics (now : Z) (identity : str) (headers : gmap str str) : result NodeMetrics :=
  node ← make_node identity headers;
  last_heart_beat ← header_int64 headers (lit "_broadcast_time");
  num_of_tables ← header_int64 headers (lit "_tables");
  Ok (mkMetrics node ∅ last_heart_beat now num_of_tables false).

Definition metrics_isValid (m : NodeMetrics) : bool :=
  (last_heart_beat m >? 0) && (num_of_tables m >=? 0) && node_isValid (node m).

(** [emplace] keeps the first row of a policy. *)
Definition read_disk_space (rows : list (str * Z)) : gmap str Z :=
  foldl (fun (m : gmap str Z) row => match m !! row.1 with Some _ => m | None => <[row.1 := row.2]> m end) ∅ rows.

Definition mergeMetrics (now : Z) (identity : str) (record : WalRecord (list (str * Z)))
    (nodes_metrics : gmap str NodeMetrics) : result (gmap str NodeMetrics) :=
  m ← make_metrics now identity (headers record);
  if negb (metrics_isValid m) || bool_decide (n_channel (node m) = []) then Ok nodes_metrics
  else
    let m := mkMetrics (node m) (read_disk_space (block record)) (last_heart_beat m) (last_update_time m)
               (num_of_tables m) (staled m) in
    Ok (<[identity := m]> nodes_metrics).

(** [processRecords]; [headers["_version"]] of a record without version is empty.
    Each record comes with the time at which it is merged. *)
Fixpoint placement_processRecords (records : list (Z * WalRecord (list (str * Z))))
    (nodes_metrics : gmap str NodeMetrics) : result (gmap str NodeMetrics) :=
  match records with
  | [] => Ok nodes_metrics
  | (now, record) :: records =>
      if negb (hasIdempotentKey record) then placement_processRecords records nodes_metrics
      else if decide (default [] (headers record !! lit "_version") = lit "1")
      then identity ← idempotentKey record;
           nodes_metrics ← mergeMetrics now identity record nodes_metrics;
           placement_processRecords records nodes_metrics
      else placement_processRecords records nodes_metrics
  end.

(** ** The strategy *)

Record PlacementRequest : Type := mkRequest { requested_nodes : Z; storage_policy : str }.

(** The nodes that can hold a replica: neither search nor ingest nodes, heard from
    recently, with free space in the policy. *)
Definition qualified (policy : str) (m : NodeMetrics) : bool :=
  if contains (lit "search") (n_roles (node m)) || contains (lit "ingest") (n_roles (node m)) then false
  else negb (staled m) && match disk_space m !! policy with Some space => space >? 0 | None => false end.

(** The comparison of the sort: more space first, then fewer tables. *)
Definition better (policy : str) (lhs rhs : NodeMetrics) : bool :=
  let l_disk_size := default 0 (disk_space lhs !! policy) in
  let r_disk_size := default 0 (disk_space rhs !! policy) in
  if l_disk_size =? r_disk_size then num_of_tables lhs <? num_of_tables rhs else l_disk_size >? r_disk_size.

(** [DiskStrategy::qualifiedNodes]: [order] lists the metrics in the order of the
    hash map and [shuffle] is [std::shuffle] with its engine. *)
Definition qualifiedNodes `{!StdSort} (shuffle : list NodeMetrics -> list NodeMetrics) (order : list NodeMetrics)
    (request : PlacementRequest) : list NodeMetrics :=
  if requested_nodes request <=? 0 then []
  else
    let qualified_nodes := filter (fun m => qualified (storage_policy request) m = true) order in
    if Z.of_nat (length qualified_nodes) <? requested_nodes request then []
    else take (Z.to_nat (requested_nodes request))
           (std_sort (better (storage_policy request)) (shuffle qualified_nodes)).

(** ** The service *)

Definition STALENESS_THRESHOLD_MS : Z := 10000.

(** [clock] gives the time at which each node is looked at. *)
Definition mark_staled (clock : str -> Z) (identity : str) (m : NodeMetrics) : NodeMetrics :=
  if clock identity - last_update_time m >? STALENESS_THRESHOLD_MS
  then mkMetrics (node m) (disk_space m) (last_heart_beat m) (last_update_time m) (num_of_tables m) true
  else m.

(** [place]: the marks stay in the metrics.  [None] is the overflow of the
    product, which is undefined; a negative product becomes a huge [size_t]. *)
Definition place `{!StdSort} (clock : str -> Z) (orders : gmap str NodeMetrics -> list NodeMetrics)
    (shuffle : list NodeMetrics -> list NodeMetrics) (shards replication_factor : Z) (policy : str)
    (nodes_metrics : gmap str NodeMetrics) : option (gmap str NodeMetrics * list NodeMetrics) :=
  if in_signed 32 (shards * replication_factor) then
    let total_replicas := wrap 64 (shards * replication_factor) in
    let nodes_metrics := map_imap (fun identity m => Some (mark_staled clock identity m)) nodes_metrics in
    Some (nodes_metrics, qualifiedNodes shuffle (orders nodes_metrics) (mkRequest total_replicas policy))
  else None.

Definition placed (c : catalog) (nodes_metrics : gmap str NodeMetrics) (database table : str) : list str :=
  omap (fun t => m ← nodes_metrics !! t_node_identity t;
                 Some (n_host (node m) ++ lit ":" ++ writeIntText (n_http_port (node m))))
    (findTableByName c database table).

(** [nodes]: the metrics in the order of the hash map. *)
Definition placement_nodes (orders : gmap str NodeMetrics -> list NodeMetrics) (nodes_metrics : gmap str NodeMetrics)
    : list NodeMetrics := orders nodes_metrics.

(** [doBroadcast], up to the append: a row per policy with its space in GiB. *)
Definition metrics_record (p : ports) (roles host channel identity : str) (policies : list (str * Z)) (tables utc : Z)
    : WalRecord (list (str * Z)) :=
  let rows := map (fun pol => (pol.1, pol.2 / (1024 * 1024 * 1024))) policies in
  let record := setupRecordHeaders p roles host channel identity (lit "1") (mkRecord ADD_DATA_BLOCK ∅ rows [] 0 (-1)) in
  mkRecord (op_code record)
    (<[lit "_broadcast_time" := writeIntText utc]> (<[lit "_tables" := writeIntText tables]> (headers record)))
    (block record) (topic record) (partition_key record) (sn record).

(** ** Candidates *)

(** Every metrics is under the identity of its node. *)
Definition metrics_ok (nodes_metrics : gmap str NodeMetrics) : Prop :=
  forall k m, nodes_metrics !! k = Some m -> n_identity (node m) = k.

(** A node that can be chosen: heard from within the threshold, and qualified. *)
Definition candidate (clock : str -> Z) (policy : str) (identity : str) (m : NodeMetrics) : bool :=
  (clock identity - last_update_time m <=? STALENESS_THRESHOLD_MS) && qualified policy m.

Definition candidates (clock : str -> Z) (policy : str) (nodes_metrics : gmap str NodeMetrics) : gmap str NodeMetrics :=
  filter (fun p => candidate clock policy p.1 p.2 = true) nodes_metrics.

Definition identities (l : list NodeMetrics) : list str := map (fun m => n_identity (node m)) l.

Inductive placement_reach : gmap str NodeMetrics -> Prop :=
| reach_start : placement_reach ∅
| reach_records m records m' :
    placement_reach m -> placement_processRecords records m = Ok m' -> placement_reach m'
| reach_place (S : StdSort) clock orders shuffle shards rf policy m m' chosen :
    placement_reach m -> place clock orders shuffle shards rf policy m = Some (m', chosen) -> placement_reach m'.

Lemma make_metrics_identity now identity hs m : make_metrics now identity hs = Ok m -> n_identity (node m) = identity.
Proof.
  unfold make_metrics. destruct (make_node identity hs) as [n|] eqn:Hn; cbn [mbind result_bind]; [|done].
  destruct (header_int64 hs (lit "_broadcast_time")); cbn [mbind result_bind]; [|done].
  destruct (header_int64 hs (lit "_tables")); cbn [mbind result_bind]; [|done].
  intros [= <-]. cbn [node]. unfold make_node in Hn.
  destruct (header_port hs (lit "_https_port")); cbn [mbind result_bind] in Hn; [|done].
  destruct (header_port hs (lit "_http_port")); cbn [mbind result_bind] in Hn; [|done].
  destruct (header_port hs (lit "_tcp_port_secure")); cbn [mbind result_bind] in Hn; [|done].
  destruct (header_port hs (lit "_tcp_port")); cbn [mbind result_bind] in Hn; [|done].
  by injection Hn as <-.
Qed.

Lemma mergeMetrics_ok now identity record m m' :
  metrics_ok m -> mergeMetrics now identity record m = Ok m' -> metrics_ok m'.
Proof.
  intros Hm. unfold mergeMetrics. destruct (make_metrics _ _ _) as [x|] eqn:Hx; cbn [mbind result_bind]; [|done].
  destruct (_ || _); intros [= <-]; [done|]. intros k y [[<- <-]|[_ H]]%lookup_insert_Some; [|by apply Hm].
  exact (make_metrics_identity _ _ _ _ Hx).
Qed.

Lemma placement_processRecords_ok records m m' :
  metrics_ok m -> placement_processRecords records m = Ok m' -> metrics_ok m'.
Proof.
  revert m. induction records as [|[now record] records IH]; intros m Hm; cbn [placement_processRecords]; [by intros [= <-]|].
  destruct (negb _); [by apply IH|]. case_decide; [|by apply IH].
  destruct (idempotentKey record) as [identity|]; cbn [mbind result_bind]; [|done].
  destruct (mergeMetrics now identity record m) as [m1|] eqn:H1; cbn [mbind result_bind]; [|done].
  by apply IH, (mergeMetrics_ok now identity record m).
Qed.

Definition marked (clock : str -> Z) (m : gmap str NodeMetrics) : gmap str NodeMetrics :=
  map_imap (fun identity x => Some (mark_staled clock identity x)) m.

Lemma lookup_marked clock m k : marked clock m !! k = mark_staled clock k <$> m !! k.
Proof. unfold marked. rewrite map_lookup_imap. by destruct (m !! k). Qed.

Lemma marked_ok clock m : metrics_ok m -> metrics_ok (marked clock m).
Proof.
  intros Hm k x. rewrite lookup_marked. intros (y & Hy & ->)%fmap_Some. rewrite <- (Hm k y Hy). unfold mark_staled. by case_match.
Qed.

Lemma placement_reach_ok m : placement_reach m -> metrics_ok m.
Proof.
  induction 1 as [|m records m' _ IH Hp|S clock orders shuffle shards rf policy m m' chosen _ IH Hp].
  - intros k x Hk. by rewrite lookup_empty in Hk.
  - by eapply placement_processRecords_ok.
  - unfold place in Hp. destruct (in_signed _ _); [|done]. injection Hp as <- _. by apply marked_ok.
Qed.

Lemma qualified_marked clock policy k x :
  qualified policy (mark_staled clock k x) = candidate clock policy k x
  /\ (candidate clock policy k x = true -> mark_staled clock k x = x).
Proof.
  unfold candidate, mark_staled. destruct (_ >? _) eqn:E; destruct (_ <=? _) eqn:E'; try lia; [|done].
  split; [|done]. unfold qualified. cbn [staled]. by destruct (_ || _).
Qed.

Lemma identities_values m : metrics_ok m -> identities (map_to_list m).*2 = (map_to_list m).*1.
Proof.
  intros Hm. unfold identities. rewrite map_map. apply map_ext_in. intros [k x] Hkx. cbn [fst snd].
  apply Hm. by apply elem_of_map_to_list, list_elem_of_In.
Qed.

Lemma identities_nodup l : NoDup (identities l) -> NoDup l.
Proof. apply NoDup_fmap_1. Qed.

Lemma values_nodup m : metrics_ok m -> NoDup (identities (map_to_list m).*2) /\ NoDup (map_to_list m).*2.
Proof.
  intros Hm. assert (NoDup (identities (map_to_list m).*2)) by (rewrite identities_values by done; apply NoDup_fst_map_to_list).
  split; [done|by apply identities_nodup].
Qed.

(** The qualified nodes after the marking are the candidates. *)
Lemma qualified_candidates clock policy m order :
  metrics_ok m -> order ≡ₚ (map_to_list (marked clock m)).*2 ->
  filter (fun x => qualified policy x = true) order ≡ₚ (map_to_list (candidates clock policy m)).*2.
Proof.
  intros Hm Hp. rewrite Hp. apply NoDup_Permutation.
  - apply NoDup_filter, values_nodup. by apply marked_ok.
  - apply values_nodup. intros k x [Hk _]%map_lookup_filter_Some. by apply Hm.
  - intros x. rewrite list_elem_of_filter, !list_elem_of_fmap. split.
    + intros (Hq & [k y] & -> & Hk%elem_of_map_to_list). rewrite lookup_marked in Hk. cbn [snd] in *.
      apply fmap_Some in Hk as (z & Hz & ->). destruct (qualified_marked clock policy k z) as [Hqm Hid].
      rewrite Hqm in Hq. exists (k, z). split; [by rewrite Hid|]. apply elem_of_map_to_list, map_lookup_filter_Some. done.
    + intros ([k y] & -> & [Hk Hc]%elem_of_map_to_list%map_lookup_filter_Some). cbn [fst snd] in *.
      destruct (qualified_marked clock policy k y) as [Hqm Hid]. rewrite <- (Hid Hc) at 1. split; [by rewrite Hqm|].
      exists (k, y). split; [done|]. apply elem_of_map_to_list. rewrite lookup_marked, Hk. cbn. by rewrite Hid.
Qed.

Lemma better_swo policy : strict_weak_order (better policy).
Proof.
  split; unfold better; intros; repeat case_match; boolify; lia.
Qed.

Lemma strongly_sorted_split {A} (R : A -> A -> Prop) l1 l2 x y :
  StronglySorted R (l1 ++ l2) -> x ∈ l1 -> y ∈ l2 -> R x y.
Proof.
  intros HS Hx Hy. induction l1 as [|z l1 IH]; [by apply elem_of_nil in Hx|]. inversion HS as [|? ? HS' HF]; subst.
  apply elem_of_cons in Hx as [-> |Hx]; [|by apply IH]. rewrite Forall_forall in HF. apply HF, elem_of_app. by right.
Qed.

Section placing.
Context `{!StdSort} (clock : str -> Z) (orders : gmap str NodeMetrics -> list NodeMetrics)
  (shuffle : list NodeMetrics -> list NodeMetrics).
Hypothesis orders_all : forall m, orders m ≡ₚ (map_to_list m).*2.
Hypothesis shuffle_all : forall l, shuffle l ≡ₚ l.

Lemma sorted_candidates policy m :
  metrics_ok m ->
  std_sort (better policy) (shuffle (filter (fun x => qualified policy x = true) (orders (marked clock m))))
  ≡ₚ (map_to_list (candidates clock policy m)).*2.
Proof. intros Hm. rewrite std_sort_perm, shuffle_all. by apply qualified_candidates. Qed.

Lemma candidates_ok policy m : metrics_ok m -> metrics_ok (candidates clock policy m).
Proof. intros Hm k x [Hk _]%map_lookup_filter_Some. by apply Hm. Qed.

Lemma elem_of_values (m : gmap str NodeMetrics) x : x ∈ (map_to_list m).*2 <-> exists k, m !! k = Some x.
Proof.
  rewrite list_elem_of_fmap. split; [intros ([k y] & -> & ?%elem_of_map_to_list); by exists k|].
  intros [k Hk]. exists (k, x). by rewrite elem_of_map_to_list.
Qed.

(** For any number of shards and replicas whose product an [Int32] holds, whatever
    the order of the hash map and the shuffle, placing a table gives as many
    distinct nodes as there are replicas, all heard from within ten seconds, with
    free space in the storage policy and neither search nor ingest nodes, and no
    such node that is left out has more space, or as much space and fewer
    tables, than a chosen one; when there are fewer such nodes than replicas,
    or no replica is asked for, no node is given. *)
Lemma placement_spec shards replication_factor policy m :
  placement_reach m -> 0 <= shards * replication_factor < 2 ^ 31 ->
  exists m' chosen, place clock orders shuffle shards replication_factor policy m = Some (m', chosen) /\
  let available := candidates clock policy m in
  if decide (0 < shards * replication_factor <= Z.of_nat (size available))
  then Z.of_nat (length chosen) = shards * replication_factor
       /\ NoDup (identities chosen)
       /\ (forall x, x ∈ chosen -> available !! n_identity (node x) = Some x)
       /\ (forall x k y, x ∈ chosen -> available !! k = Some y -> k ∉ identities chosen -> better policy y x = false)
  else chosen = [].
Proof.
  intros Hm%placement_reach_ok Hn. unfold place. assert (in_signed 32 (shards * replication_factor) = true) as -> by (unfold in_signed; lia).
  eexists _, _. split; [done|]. cbv zeta. unfold qualifiedNodes. cbn [requested_nodes storage_policy].
  unfold wrap. rewrite Z.mod_small by lia. set (n := shards * replication_factor) in *.
  change (map_imap _ m) with (marked clock m). pose proof (sorted_candidates policy m Hm) as HL. set (L := std_sort _ _) in *.
  assert (HQ : length (filter (fun x => qualified policy x = true) (orders (marked clock m))) = size (candidates clock policy m)).
  { rewrite (qualified_candidates clock policy m) by done. by rewrite length_fmap, length_map_to_list. }
  assert (HLlen : length L = size (candidates clock policy m)) by (rewrite HL; by rewrite length_fmap, length_map_to_list).
  rewrite HQ. destruct (n <=? 0) eqn:E0; [rewrite decide_False by lia; done|].
  destruct (_ <? n) eqn:E1; [rewrite decide_False by lia; done|]. rewrite decide_True by lia.
  pose proof (candidates_ok policy m Hm) as Hc. destruct (values_nodup _ Hc) as [Hnd _].
  assert (HndL : NoDup (identities L)) by (unfold identities in *; by rewrite HL).
  rewrite <- (take_drop (Z.to_nat n) L) in HndL. unfold identities in HndL. rewrite map_app in HndL. apply NoDup_app in HndL as (Hnd1 & _ & _).
  assert (HinL : forall x, x ∈ L <-> candidates clock policy m !! n_identity (node x) = Some x).
  { intros x. rewrite HL, elem_of_values. split; [|eauto]. intros [k Hk]. by rewrite (Hc k x Hk). }
  split_and!; [rewrite length_take; lia|done|intros x Hx; apply HinL; by eapply subseteq_take|].
  intros x k y Hx Hy Hk. apply (strongly_sorted_split (fun x y => better policy y x = false) (take (Z.to_nat n) L) (drop (Z.to_nat n) L)); try done.
  - rewrite take_drop. apply std_sort_strongly, better_swo.
  - pose proof (Hc k y Hy) as <-. apply HinL in Hy. rewrite <- (take_drop (Z.to_nat n) L) in Hy.
    apply elem_of_app in Hy as [Hy|]; [|done]. exfalso. apply Hk. by apply (list_elem_of_fmap_2 (fun m => n_identity (node m))).
Qed.
End placing.

Definition example_metrics_records : list (Z * WalRecord (list (str * Z))) :=
  map (fun p => (100, metrics_record (initPorts (ports_config 8123)) (lit p.1.2) (lit "host") (lit "channel") (lit p.1.1)
                        [(lit "default", p.2)] 3 1600000000000))
    [("a", "", 50 * 2 ^ 30); ("b", "", 70 * 2 ^ 30); ("c", "search", 90 * 2 ^ 30); ("d", "", 60 * 2 ^ 30)]%string.

Definition example_metrics : gmap str NodeMetrics :=
  match placement_processRecords example_metrics_records ∅ with Ok m => m | Throw _ => ∅ end.

Lemma example_metrics_reach : placement_reach example_metrics.
Proof. eapply (reach_records ∅ example_metrics_records); [constructor|]. vm_compute. reflexivity. Qed.

Lemma placement_spec_witness :
  exists m' chosen, place (fun _ => 5000) (fun m => (map_to_list m).*2) id 2 1 (lit "default") example_metrics = Some (m', chosen)
    /\ Z.of_nat (length chosen) = 2.
Proof.
  destruct (placement_spec (fun _ => 5000) (fun m => (map_to_list m).*2) id ltac:(done) ltac:(done) 2 1 (lit "default")
              example_metrics example_metrics_reach ltac:(lia)) as (m' & chosen & Hp & H).
  exists m', chosen. split; [exact Hp|]. cbv zeta in H.
  rewrite decide_True in H by (vm_compute; split; [reflexivity|discriminate]). apply H.
Defined.
