(* ===== verification/Wire.v ===== *)
(** * Wire: reading and writing binary values

    Models the binary primitives of src/src/IO (ReadBuffer.h, ReadHelpers.h,
    WriteHelpers.h, VarInt.h) and of src/src/Common/ZooKeeper/ZooKeeperIO.{h,cpp}
    that the coordination service uses: a buffer is the list of its remaining
    bytes, a reader consumes a prefix of it or throws. *)

From S2P Require Import Prelude TextFormat WalRecord.

Local Open Scope Z_scope.

(** ** Readers *)

Definition reader (A : Type) : Type := str -> result (A * str).

#[export] Instance reader_ret : MRet reader := fun A a buf => Ok (a, buf).
#[export] Instance reader_bind : MBind reader :=
  fun A B k r buf => match r buf with Ok (a, rest) => k a rest | Throw e => Throw e end.

Definition rthrow {A} (e : exn) : reader A := fun _ => Throw e.

(** [ReadBuffer::readStrict] *)
Definition readStrict (n : nat) : reader str := fun buf =>
  if decide (n <= length buf)%nat then Ok (take n buf, drop n buf)
  else Throw (DBException ErrorCodes.CANNOT_READ_ALL_DATA).

(** [ReadBuffer::read] into a string of [n] zero bytes: what is missing stays zero. *)
Definition read_resized (n : nat) : reader str := fun buf =>
  Ok (take n buf ++ replicate (n - length buf) "000"%char, drop n buf).

(** ** Little endian integers ([writeBinary], [readBinary] of [n] bytes) *)

Definition write_le (n : nat) (z : Z) : str := le_bytes n z.
Definition read_unsigned (n : nat) : reader Z := s ← readStrict n; mret (le_value s).
Definition read_signed (n : nat) : reader Z := s ← readStrict n; mret (to_signed (8 * Z.of_nat n) (le_value s)).

Definition write_bool (b : bool) : str := write_le 1 (if b then 1 else 0).
Definition read_bool : reader bool := z ← read_unsigned 1; mret (negb (z =? 0)).

(** ** Numbers of variable length and strings *)

Fixpoint writeVarUInt_loop (n : nat) (x : Z) : str :=
  match n with
  | O => []
  | S n =>
      let byte := Z.land x 127 in
      let byte := if x >? 127 then Z.lor byte 128 else byte in
      let x := Z.shiftr x 7 in
      chr byte :: (if x =? 0 then [] else writeVarUInt_loop n x)
  end.
Definition writeVarUInt (x : Z) : str := writeVarUInt_loop 9 x.

(** [x] is what the bytes before have given, [i] how many they were. *)
Fixpoint readVarUInt_loop (n : nat) (i x : Z) : reader Z := fun buf =>
  match n with
  | O => Ok (x, buf)
  | S n =>
      match buf with
      | [] => Throw (DBException ErrorCodes.ATTEMPT_TO_READ_AFTER_EOF)
      | c :: buf =>
          let x := Z.lor x (Z.shiftl (Z.land (code c) 127) (7 * i)) in
          if Z.land (code c) 128 =? 0 then Ok (x, buf) else readVarUInt_loop n (i + 1) x buf
      end
  end.
Definition readVarUInt : reader Z := readVarUInt_loop 9 0 0.

Definition DEFAULT_MAX_STRING_SIZE : Z := 2 ^ 30.

Definition writeStringBinary (s : str) : str := writeVarUInt (Z.of_nat (length s)) ++ s.
Definition readStringBinary : reader str :=
  size ← readVarUInt;
  if size >? DEFAULT_MAX_STRING_SIZE then rthrow PocoException else readStrict (Z.to_nat size).

(** ** The format of ZooKeeper: big endian integers, strings and arrays with a length *)

Definition bswap (s : str) : str := rev s.

Definition zk_write_int (n : nat) (z : Z) : str := bswap (le_bytes n z).
Definition zk_read_int (n : nat) : reader Z :=
  s ← readStrict n; mret (to_signed (8 * Z.of_nat n) (le_value (bswap s))).

Definition zk_write_int32 : Z -> str := zk_write_int 4.
Definition zk_write_int64 : Z -> str := zk_write_int 8.
Definition zk_read_int32 : reader Z := zk_read_int 4.
Definition zk_read_int64 : reader Z := zk_read_int 8.

Definition ZMARSHALLINGERROR : Z := -5.
Definition MAX_STRING_OR_ARRAY_SIZE : Z := 2 ^ 28.

Definition zk_write_string (s : str) : str := zk_write_int32 (Z.of_nat (length s)) ++ s.
Definition zk_read_string : reader str :=
  size ← zk_read_int32;
  if size =? -1 then mret []
  else if size <? 0 then rthrow (KeeperException ZMARSHALLINGERROR)
  else if size >? MAX_STRING_OR_ARRAY_SIZE then rthrow (KeeperException ZMARSHALLINGERROR)
  else read_resized (Z.to_nat size).

Fixpoint read_times {A} (n : nat) (r : reader A) : reader (list A) :=
  match n with
  | O => mret []
  | S n => x ← r; l ← read_times n r; mret (x :: l)
  end.

Definition zk_write_vector {A} (w : A -> str) (l : list A) : str :=
  zk_write_int32 (Z.of_nat (length l)) ++ concat (map w l).
Definition zk_read_vector {A} (r : reader A) : reader (list A) :=
  size ← zk_read_int32;
  if size <? 0 then rthrow (KeeperException ZMARSHALLINGERROR)
  else if size >? MAX_STRING_OR_ARRAY_SIZE then rthrow (KeeperException ZMARSHALLINGERROR)
  else read_times (Z.to_nat size) r.

(** ** Reading back

    [reads r w a]: the reader takes exactly the bytes [w] from the front of any
    buffer and gives [a]. *)

Definition reads {A} (r : reader A) (w : str) (a : A) : Prop := forall rest, r (w ++ rest) = Ok (a, rest).

Create HintDb wire discriminated.

Lemma reads_ret {A} (a : A) : reads (mret a) [] a.
Proof. by intros rest. Qed.

Lemma reads_bind {A B} (r : reader A) (k : A -> reader B) w w' a b :
  reads r w a -> reads (k a) w' b -> reads (r ≫= k) (w ++ w') b.
Proof. intros Hr Hk rest. unfold mbind, reader_bind. rewrite <- app_assoc, Hr. apply Hk. Qed.

(** The last reader of a sequence. *)
Lemma reads_bind_ret {A B} (r : reader A) (f : A -> B) w a :
  reads r w a -> reads (r ≫= fun x => mret (f x)) w (f a).
Proof. intros Hr. rewrite <- (app_nil_r w). eapply reads_bind; [done|apply reads_ret]. Qed.

Lemma reads_eq {A} (r : reader A) w a a' : reads r w a -> a = a' -> reads r w a'.
Proof. by intros ? <-. Qed.

Lemma reads_strict s n : length s = n -> reads (readStrict n) s s.
Proof.
  intros <- rest. unfold readStrict. rewrite decide_True by (rewrite length_app; lia).
  by rewrite take_app_length, drop_app_length.
Qed.

Lemma reads_resized s n : length s = n -> reads (read_resized n) s s.
Proof.
  intros <- rest. unfold read_resized. rewrite take_app_length, drop_app_length, length_app.
  replace (length s - (length s + length rest))%nat with O by lia. by rewrite app_nil_r.
Qed.

Lemma le_value_bytes_mod n z : le_value (le_bytes n z) = z mod 256 ^ Z.of_nat n.
Proof.
  revert z. induction n as [|n IH]; intros z; [by rewrite Z.mod_1_r|]. cbn [le_bytes le_value].
  rewrite code_chr by (apply Z.mod_pos_bound; lia). rewrite IH, Nat2Z.inj_succ, Z.pow_succ_r by lia.
  by rewrite Z.rem_mul_r by lia.
Qed.

Lemma pow_256 n : 256 ^ Z.of_nat n = 2 ^ (8 * Z.of_nat n).
Proof. by rewrite Z.pow_mul_r by lia. Qed.

(** A signed number of [w] bits has the bits of its wrapped value. *)
Lemma to_signed_wrap w z : 0 < w -> in_signed w z = true -> to_signed w (z mod 2 ^ w) = z.
Proof.
  intros Hw Hz. unfold in_signed in Hz. assert (E : 2 ^ w = 2 * 2 ^ (w - 1)) by (rewrite <- Z.pow_succ_r by lia; f_equal; lia).
  assert (0 < 2 ^ (w - 1)) by lia. unfold to_signed. boolify. destruct (decide (z < 0)).
  - rewrite <- (Z.mod_unique z (2 ^ w) (-1) (z + 2 ^ w)) by lia. case_match; boolify; lia.
  - rewrite Z.mod_small by lia. case_match; boolify; lia.
Qed.

Lemma reads_unsigned n z : 0 <= z < 256 ^ Z.of_nat n -> reads (read_unsigned n) (write_le n z) z.
Proof.
  intros Hz. eapply reads_eq; [apply reads_bind_ret, reads_strict, le_bytes_length|]. cbn beta. by apply le_value_bytes.
Qed.

Lemma reads_signed n z : (0 < n)%nat -> in_signed (8 * Z.of_nat n) z = true -> reads (read_signed n) (write_le n z) z.
Proof.
  intros Hn Hz. eapply reads_eq; [apply (reads_bind_ret _ (fun s => to_signed _ (le_value s))), reads_strict, le_bytes_length|].
  cbn beta. rewrite le_value_bytes_mod, pow_256. apply to_signed_wrap; [lia|done].
Qed.

Lemma reads_bool b : reads read_bool (write_bool b) b.
Proof.
  eapply reads_eq; [apply (reads_bind_ret _ (fun z => negb (z =? 0))), reads_unsigned; destruct b; lia|]. by destruct b.
Qed.

Lemma reads_int n z : (0 < n)%nat -> in_signed (8 * Z.of_nat n) z = true -> reads (zk_read_int n) (zk_write_int n z) z.
Proof.
  intros Hn Hz. eapply reads_eq.
  - apply (reads_bind_ret _ (fun s => to_signed _ (le_value (bswap s)))), reads_strict. unfold zk_write_int, bswap.
    by rewrite length_rev, le_bytes_length.
  - cbn beta. unfold zk_write_int, bswap. rewrite rev_involutive, le_value_bytes_mod, pow_256. apply to_signed_wrap; [lia|done].
Qed.

Lemma reads_int32 z : in_signed 32 z = true -> reads zk_read_int32 (zk_write_int32 z) z.
Proof. apply (reads_int 4). lia. Qed.

Lemma reads_int64 z : in_signed 64 z = true -> reads zk_read_int64 (zk_write_int64 z) z.
Proof. apply (reads_int 8). lia. Qed.

Lemma reads_string s : Z.of_nat (length s) <= MAX_STRING_OR_ARRAY_SIZE -> reads zk_read_string (zk_write_string s) s.
Proof.
  intros Hs. unfold MAX_STRING_OR_ARRAY_SIZE in *. eapply reads_bind; [apply reads_int32; unfold in_signed; lia|].
  destruct (Z.of_nat (length s) =? -1) eqn:E1; [lia|]. destruct (_ <? 0) eqn:E2; [lia|].
  destruct (_ >? _) eqn:E3; [unfold MAX_STRING_OR_ARRAY_SIZE in *; lia|]. apply reads_resized. lia.
Qed.

Lemma reads_times {A} (r : reader A) (w : A -> str) l :
  Forall (fun a => reads r (w a) a) l -> reads (read_times (length l) r) (concat (map w l)) l.
Proof.
  induction 1 as [|a l Ha _ IH]; [apply reads_ret|]. cbn [length read_times map concat].
  eapply reads_bind; [done|]. by apply (reads_bind_ret _ (fun l => a :: l)).
Qed.

Lemma reads_vector {A} (r : reader A) (w : A -> str) l :
  Z.of_nat (length l) <= MAX_STRING_OR_ARRAY_SIZE -> Forall (fun a => reads r (w a) a) l ->
  reads (zk_read_vector r) (zk_write_vector w l) l.
Proof.
  intros Hl HF. eapply reads_bind; [apply reads_int32; unfold in_signed, MAX_STRING_OR_ARRAY_SIZE in *; lia|].
  destruct (_ <? 0) eqn:E2; [lia|]. destruct (_ >? _) eqn:E3; [lia|]. rewrite Nat2Z.id. by apply reads_times.
Qed.

(** ** Numbers of variable length read back *)

Lemma lor_shiftl a b k : 0 <= k -> 0 <= a < 2 ^ k -> Z.lor a (Z.shiftl b k) = a + b * 2 ^ k.
Proof.
  intros Hk Ha. rewrite <- Z.shiftl_mul_pow2 by done. assert (Hl : Z.land a (Z.shiftl b k) = 0).
  { apply Z.bits_inj'. intros m Hm. rewrite Z.land_spec, Z.bits_0, Z.shiftl_spec by done.
    destruct (decide (m < k)); [rewrite (Z.testbit_neg_r b) by lia; apply andb_false_r|].
    rewrite <- (Z.mod_small a (2 ^ k)), Z.mod_pow2_bits_high by lia. done. }
  by rewrite Z.add_nocarry_lxor, Z.lxor_lor by done.
Qed.

Definition group_bits (b : Z) : bool :=
  (Z.land b 127 =? b) && (Z.land b 128 =? 0) && (Z.land (Z.lor b 128) 127 =? b) && (Z.land (Z.lor b 128) 128 =? 128)
  && (Z.lor b 128 <? 256) && (0 <=? Z.lor b 128).

Lemma group_bits_all b :
  0 <= b < 128 ->
  Z.land b 127 = b /\ Z.land b 128 = 0 /\ Z.land (Z.lor b 128) 127 = b /\ Z.land (Z.lor b 128) 128 = 128
  /\ 0 <= Z.lor b 128 < 256.
Proof.
  cut (0 <= b < 128 -> group_bits b = true); [intros H Hb; specialize (H Hb); unfold group_bits in H; boolify; lia|].
  intros Hb. assert (H : forallb (fun n => group_bits (Z.of_nat n)) (seq 0 128) = true) by (by vm_compute).
  rewrite forallb_forall in H. specialize (H (Z.to_nat b)). rewrite Z2Nat.id in H by lia. apply H, in_seq. lia.
Qed.

Lemma readVarUInt_loop_write n x i acc rest :
  (0 < n)%nat -> 0 <= i -> 0 <= x < 2 ^ (7 * Z.of_nat n) -> 0 <= acc < 2 ^ (7 * i) ->
  readVarUInt_loop n i acc (writeVarUInt_loop n x ++ rest) = Ok (acc + x * 2 ^ (7 * i), rest).
Proof.
  revert x i acc. induction n as [|n IH]; intros x i acc Hn Hi Hx Hacc; [lia|]. cbn [writeVarUInt_loop readVarUInt_loop app].
  rewrite Nat2Z.inj_succ in Hx. replace (7 * Z.succ (Z.of_nat n)) with (7 * Z.of_nat n + 7) in Hx by lia.
  rewrite Z.pow_add_r in Hx by lia. change (2 ^ 7) with 128 in Hx.
  assert (Hlow : Z.land x 127 = x mod 128) by (apply (Z.land_ones x 7); lia). rewrite Hlow.
  rewrite Z.shiftr_div_pow2 by lia. change (2 ^ 7) with 128.
  pose proof (Z.mod_pos_bound x 128 ltac:(lia)) as Hb. destruct (group_bits_all _ Hb) as (Hl & Hz & Hl' & Hz' & Hr).
  pose proof (Z.div_mod x 128 ltac:(lia)) as Hdm.
  destruct (x >? 127) eqn:E.
  - rewrite code_chr by lia. rewrite Hl', Hz'. rewrite lor_shiftl by lia. destruct (x / 128 =? 0) eqn:E0; [lia|].
    cbn [Z.eqb]. destruct n as [|n]; [change (2 ^ (7 * Z.of_nat 0)) with 1 in Hx; lia|].
    rewrite IH; [|lia|lia| |]; [f_equal; f_equal| |].
    + replace (7 * (i + 1)) with (7 * i + 7) by lia. rewrite Z.pow_add_r by lia. lia.
    + split; [apply Z.div_pos; lia|apply Z.div_lt_upper_bound; lia].
    + replace (7 * (i + 1)) with (7 * i + 7) by lia. rewrite Z.pow_add_r by lia. change (2 ^ 7) with 128. nia.
  - rewrite (Z.mod_small x) in * by lia. rewrite code_chr by lia. rewrite Hl, Hz, lor_shiftl by lia. rewrite Z.div_small by lia. done.
Qed.

Lemma reads_varuint x : 0 <= x < 2 ^ 63 -> reads readVarUInt (writeVarUInt x) x.
Proof.
  intros Hx rest. unfold readVarUInt, writeVarUInt. rewrite readVarUInt_loop_write by lia. by rewrite Z.mul_1_r.
Qed.

Lemma reads_string_binary s : Z.of_nat (length s) <= DEFAULT_MAX_STRING_SIZE -> reads readStringBinary (writeStringBinary s) s.
Proof.
  intros Hs. eapply reads_bind; [apply reads_varuint; unfold DEFAULT_MAX_STRING_SIZE in Hs; lia|].
  destruct (_ >? _) eqn:E; [lia|]. apply reads_strict. lia.
Qed.
