(* ===== verification/ZooKeeper.v ===== *)
(** * ZooKeeper: the protocol of the coordination service

    Models src/src/Common/ZooKeeper/ZooKeeperConstants.{h,cpp}, IKeeper.h,
    ZooKeeperIO.cpp and ZooKeeperCommon.{h,cpp}: operations, errors, requests and
    responses with their binary formats; and the format in which the server
    puts a request into its log (getZooKeeperLogEntry of
    Coordination/KeeperServer.cpp, parseRequest of KeeperStateMachine.cpp). *)

From S2P Require Import Prelude TextFormat WalRecord Wire.

Local Open Scope Z_scope.

(** ** Errors *)

Module Err.
Definition ZOK : Z := 0.
Definition ZRUNTIMEINCONSISTENCY : Z := -2.
Definition ZCONNECTIONLOSS : Z := -4.
Definition ZMARSHALLINGERROR : Z := -5.
Definition ZUNIMPLEMENTED : Z := -6.
Definition ZOPERATIONTIMEOUT : Z := -7.
Definition ZBADARGUMENTS : Z := -8.
Definition ZNONODE : Z := -101.
Definition ZBADVERSION : Z := -103.
Definition ZNOCHILDRENFOREPHEMERALS : Z := -108.
Definition ZNODEEXISTS : Z := -110.
Definition ZNOTEMPTY : Z := -111.
Definition ZSESSIONEXPIRED : Z := -112.
End Err.

(** ** Operations *)

Inductive OpNum : Type :=
| OpClose | OpError | OpCreate | OpRemove | OpExists | OpGet | OpSet | OpSimpleList | OpSync | OpHeartbeat
| OpList | OpCheck | OpMulti | OpAuth | OpSessionID.

#[export] Instance OpNum_eq_dec : EqDecision OpNum.
Proof. solve_decision. Defined.

Definition opnum_value (op : OpNum) : Z :=
  match op with
  | OpClose => -11 | OpError => -1 | OpCreate => 1 | OpRemove => 2 | OpExists => 3 | OpGet => 4 | OpSet => 5
  | OpSimpleList => 8 | OpSync => 9 | OpHeartbeat => 11 | OpList => 12 | OpCheck => 13 | OpMulti => 14
  | OpAuth => 100 | OpSessionID => 997
  end.

Definition VALID_OPERATIONS : list OpNum :=
  [OpClose; OpError; OpCreate; OpRemove; OpExists; OpGet; OpSet; OpSimpleList; OpSync; OpHeartbeat; OpList; OpCheck;
   OpMulti; OpAuth; OpSessionID].

Definition getOpNum (raw : Z) : result OpNum :=
  match list_find (fun op => opnum_value op = raw) VALID_OPERATIONS with
  | Some (_, op) => Ok op
  | None => Throw (KeeperException Err.ZUNIMPLEMENTED)
  end.

Definition write_opnum (op : OpNum) : str := zk_write_int32 (opnum_value op).
Definition read_opnum : reader OpNum :=
  raw ← zk_read_int32;
  match getOpNum raw with Ok op => mret op | Throw e => rthrow e end.

(** ** Access lists and statistics of nodes *)

Record ACL : Type := mkACL { permissions : Z; scheme : str; acl_id : str }.

Record Stat : Type := mkStat {
  czxid : Z; mzxid : Z; ctime : Z; mtime : Z;
  st_version : Z; cversion : Z; aversion : Z;
  ephemeralOwner : Z; dataLength : Z; numChildren : Z; pzxid : Z;
}.

#[export] Instance ACL_eq_dec : EqDecision ACL.
Proof. solve_decision. Defined.
#[export] Instance Stat_eq_dec : EqDecision Stat.
Proof. solve_decision. Defined.

Definition zero_stat : Stat := mkStat 0 0 0 0 0 0 0 0 0 0 0.

Definition write_acl (a : ACL) : str :=
  zk_write_int32 (permissions a) ++ zk_write_string (scheme a) ++ zk_write_string (acl_id a).
Definition read_acl : reader ACL :=
  permissions ← zk_read_int32; scheme ← zk_read_string; id ← zk_read_string; mret (mkACL permissions scheme id).

Definition write_stat (s : Stat) : str :=
  zk_write_int64 (czxid s) ++ zk_write_int64 (mzxid s) ++ zk_write_int64 (ctime s) ++ zk_write_int64 (mtime s)
  ++ zk_write_int32 (st_version s) ++ zk_write_int32 (cversion s) ++ zk_write_int32 (aversion s)
  ++ zk_write_int64 (ephemeralOwner s) ++ zk_write_int32 (dataLength s) ++ zk_write_int32 (numChildren s)
  ++ zk_write_int64 (pzxid s).
Definition read_stat : reader Stat :=
  czxid ← zk_read_int64; mzxid ← zk_read_int64; ctime ← zk_read_int64; mtime ← zk_read_int64;
  version ← zk_read_int32; cversion ← zk_read_int32; aversion ← zk_read_int32;
  owner ← zk_read_int64; len ← zk_read_int32; children ← zk_read_int32; pzxid ← zk_read_int64;
  mret (mkStat czxid mzxid ctime mtime version cversion aversion owner len children pzxid).

(** ** Requests *)

Inductive zk_request : Type :=
| HeartbeatRequest
| SyncRequest (path : str)
| AuthRequest (type : Z) (scheme data : str)
| CloseRequest
| CreateRequest (path data : str) (is_ephemeral is_sequential : bool) (acls : list ACL)
| RemoveRequest (path : str) (version : Z)
| ExistsRequest (path : str) (has_watch : bool)
| GetRequest (path : str) (has_watch : bool)
| SetRequest (path data : str) (version : Z)
| ListRequest (simple : bool) (path : str) (has_watch : bool)
| CheckRequest (path : str) (version : Z)
| MultiRequest (requests : list zk_request)
| SessionIDRequest (internal_id session_timeout_ms server_id : Z).

Definition request_opnum (r : zk_request) : OpNum :=
  match r with
  | HeartbeatRequest => OpHeartbeat | SyncRequest _ => OpSync | AuthRequest _ _ _ => OpAuth | CloseRequest => OpClose
  | CreateRequest _ _ _ _ _ => OpCreate | RemoveRequest _ _ => OpRemove | ExistsRequest _ _ => OpExists
  | GetRequest _ _ => OpGet | SetRequest _ _ _ => OpSet
  | ListRequest simple _ _ => if simple then OpSimpleList else OpList
  | CheckRequest _ _ => OpCheck | MultiRequest _ => OpMulti | SessionIDRequest _ _ _ => OpSessionID
  end.

Definition getPath (r : zk_request) : str :=
  match r with
  | SyncRequest p | CreateRequest p _ _ _ _ | RemoveRequest p _ | ExistsRequest p _ | GetRequest p _ | SetRequest p _ _
  | ListRequest _ p _ | CheckRequest p _ => p
  | _ => []
  end.

Definition has_watch (r : zk_request) : bool :=
  match r with ExistsRequest _ w | GetRequest _ w | ListRequest _ _ w => w | _ => false end.

Definition isReadRequest (r : zk_request) : bool :=
  match r with
  | ExistsRequest _ _ | GetRequest _ _ | ListRequest _ _ _ | CheckRequest _ _ => negb (has_watch r)
  | _ => false
  end.

(** The header of an element of a multi request. *)
Definition write_multi_header (op : OpNum) (done : bool) (error : Z) : str :=
  write_opnum op ++ write_bool done ++ zk_write_int32 error.
Definition read_multi_header : reader (OpNum * bool * Z) :=
  op ← read_opnum; done ← read_bool; error ← zk_read_int32; mret (op, done, error).

(** [writeImpl] *)
Fixpoint write_request (r : zk_request) : str :=
  match r with
  | HeartbeatRequest | CloseRequest => []
  | SyncRequest path => zk_write_string path
  | AuthRequest type scheme data => zk_write_int32 type ++ zk_write_string scheme ++ zk_write_string data
  | CreateRequest path data is_ephemeral is_sequential acls =>
      zk_write_string path ++ zk_write_string data ++ zk_write_vector write_acl acls
      ++ zk_write_int32 (Z.lor (if is_ephemeral then 1 else 0) (if is_sequential then 2 else 0))
  | RemoveRequest path version | CheckRequest path version => zk_write_string path ++ zk_write_int32 version
  | ExistsRequest path w | GetRequest path w | ListRequest _ path w => zk_write_string path ++ write_bool w
  | SetRequest path data version => zk_write_string path ++ zk_write_string data ++ zk_write_int32 version
  | MultiRequest requests =>
      concat (map (fun r => write_multi_header (request_opnum r) false (-1) ++ write_request r) requests)
      ++ write_multi_header OpError true (-1)
  | SessionIDRequest internal timeout server =>
      zk_write_int64 internal ++ zk_write_int64 timeout ++ zk_write_int32 server
  end.

(** [ZooKeeperRequestFactory::get] and [readImpl] of every request that has no others
    inside. *)
Definition read_plain (op : OpNum) : reader zk_request :=
  match op with
  | OpHeartbeat => mret HeartbeatRequest
  | OpClose => mret CloseRequest
  | OpSync => path ← zk_read_string; mret (SyncRequest path)
  | OpAuth => type ← zk_read_int32; scheme ← zk_read_string; data ← zk_read_string; mret (AuthRequest type scheme data)
  | OpCreate =>
      path ← zk_read_string; data ← zk_read_string; acls ← zk_read_vector read_acl; flags ← zk_read_int32;
      mret (CreateRequest path data (negb (Z.land flags 1 =? 0)) (negb (Z.land flags 2 =? 0)) acls)
  | OpRemove => path ← zk_read_string; version ← zk_read_int32; mret (RemoveRequest path version)
  | OpExists => path ← zk_read_string; w ← read_bool; mret (ExistsRequest path w)
  | OpGet => path ← zk_read_string; w ← read_bool; mret (GetRequest path w)
  | OpSet => path ← zk_read_string; data ← zk_read_string; version ← zk_read_int32; mret (SetRequest path data version)
  | OpSimpleList => path ← zk_read_string; w ← read_bool; mret (ListRequest true path w)
  | OpList => path ← zk_read_string; w ← read_bool; mret (ListRequest false path w)
  | OpCheck => path ← zk_read_string; version ← zk_read_int32; mret (CheckRequest path version)
  | OpSessionID =>
      internal ← zk_read_int64; timeout ← zk_read_int64; server ← zk_read_int32;
      mret (SessionIDRequest internal timeout server)
  | OpError | OpMulti => rthrow (KeeperException Err.ZBADARGUMENTS)
  end.

(** [ZooKeeperMultiRequest::readImpl], the loop of which is not bounded by the code;
    [None] is running out of fuel. *)
Fixpoint read_multi (fuel : nat) (buf : str) : option (result (list zk_request * str)) :=
  match fuel with
  | O => None
  | S fuel =>
      match read_multi_header buf with
      | Throw e => Some (Throw e)
      | Ok (op, done, error, buf) =>
          if (done : bool) then
            if decide (op <> OpError) then Some (Throw (KeeperException Err.ZMARSHALLINGERROR))
            else if decide (error <> -1) then Some (Throw (KeeperException Err.ZMARSHALLINGERROR))
            else Some (Ok ([], buf))
          else
            body ← (if decide (op = OpMulti)
                    then r ← read_multi fuel buf;
                         Some (match r with Ok (l, buf) => Ok (MultiRequest l, buf) | Throw e => Throw e end)
                    else Some (read_plain op buf));
            match body with
            | Throw e => Some (Throw e)
            | Ok (request, buf) =>
                if decide (buf = []) then Some (Throw (KeeperException Err.ZMARSHALLINGERROR))
                else r ← read_multi fuel buf;
                     Some (match r with Ok (l, buf) => Ok (request :: l, buf) | Throw e => Throw e end)
            end
      end
  end.

(** Every element takes bytes, so the length of the buffer is enough. *)
Definition read_request (op : OpNum) (buf : str) : option (result (zk_request * str)) :=
  if decide (op = OpMulti)
  then r ← read_multi (S (length buf)) buf;
       Some (match r with Ok (l, buf) => Ok (MultiRequest l, buf) | Throw e => Throw e end)
  else Some (read_plain op buf).

(** A request as it is sent: its length, its number, its operation and the rest. *)
Record zk_message : Type := mkMessage { xid : Z; body : zk_request }.

Definition write_message (m : zk_message) : str :=
  zk_write_string (zk_write_int32 (xid m) ++ write_opnum (request_opnum (body m)) ++ write_request (body m)).

(** [ZooKeeperRequest::read], without the length. *)
Definition read_message (buf : str) : option (result (zk_message * str)) :=
  match (x ← zk_read_int32; op ← read_opnum; mret (x, op)) buf with
  | Throw e => Some (Throw e)
  | Ok (x, op, buf) =>
      r ← read_request op buf;
      Some (match r with Ok (b, buf) => Ok (mkMessage x b, buf) | Throw e => Throw e end)
  end.

(** The entry of the log for a request, and what a replica makes of an entry. *)
Definition getZooKeeperLogEntry (session_id : Z) (m : zk_message) : str :=
  write_le 8 session_id ++ write_message m.

Definition parseRequest (data : str) : option (result (Z * zk_message)) :=
  match (s ← read_signed 8; length ← zk_read_int32; mret (s : Z)) data with
  | Throw e => Some (Throw e)
  | Ok (s, buf) =>
      r ← read_message buf;
      Some (match r with Ok (m, _) => Ok (s, m) | Throw e => Throw e end)
  end.

(** ** Responses *)

Inductive zk_response_body : Type :=
| HeartbeatResponse
| SyncResponse (path : str)
| WatchResponse (type state : Z) (path : str)
| AuthResponse
| CloseResponse
| CreateResponse (path_created : str)
| RemoveResponse
| ExistsResponse (stat : Stat)
| GetResponse (data : str) (stat : Stat)
| SetResponse (stat : Stat)
| ListResponse (names : list str) (stat : Stat)
| CheckResponse
| ErrorResponse
| MultiResponse (responses : list (Z * zk_response_body))
| SessionIDResponse (internal_id session_id server_id : Z).

Record zk_response : Type := mkResponse { r_xid : Z; r_zxid : Z; r_error : Z; r_body : zk_response_body }.

Definition response_opnum (b : zk_response_body) : result OpNum :=
  match b with
  | HeartbeatResponse => Ok OpHeartbeat | SyncResponse _ => Ok OpSync
  | WatchResponse _ _ _ => Throw (KeeperException Err.ZRUNTIMEINCONSISTENCY)
  | AuthResponse => Ok OpAuth | CloseResponse => Ok OpClose | CreateResponse _ => Ok OpCreate | RemoveResponse => Ok OpRemove
  | ExistsResponse _ => Ok OpExists | GetResponse _ _ => Ok OpGet | SetResponse _ => Ok OpSet | ListResponse _ _ => Ok OpList
  | CheckResponse => Ok OpCheck | ErrorResponse => Ok OpError | MultiResponse _ => Ok OpMulti
  | SessionIDResponse _ _ _ => Ok OpSessionID
  end.

(** [makeResponse]: the fields are those of a fresh object. *)
Fixpoint makeResponse (r : zk_request) : zk_response_body :=
  match r with
  | HeartbeatRequest => HeartbeatResponse
  | SyncRequest _ => SyncResponse []
  | AuthRequest _ _ _ => AuthResponse
  | CloseRequest => CloseResponse
  | CreateRequest _ _ _ _ _ => CreateResponse []
  | RemoveRequest _ _ => RemoveResponse
  | ExistsRequest _ _ => ExistsResponse zero_stat
  | GetRequest _ _ => GetResponse [] zero_stat
  | SetRequest _ _ _ => SetResponse zero_stat
  | ListRequest _ _ _ => ListResponse [] zero_stat
  | CheckRequest _ _ => CheckResponse
  | MultiRequest requests => MultiResponse (map (fun r => (Err.ZOK, makeResponse r)) requests)
  | SessionIDRequest _ _ _ => SessionIDResponse 0 0 0
  end.

(** The elements of a multi response, written and read by the functions of one element. *)
Section elements.
Context (write_one : Z -> zk_response_body -> result str) (read_one : Z -> zk_response_body -> str -> result (Z * zk_response_body * str)).

Fixpoint write_elements (l : list (Z * zk_response_body)) : result str :=
  match l with
  | [] => Ok []
  | (op_error, b) :: l =>
      op ← response_opnum b;
      w ← (if decide (op_error = Err.ZOK) then write_one op_error b
           else if decide (op = OpError) then write_one op_error b else Ok []);
      rest ← write_elements l;
      Ok (write_multi_header op false op_error ++ w ++ rest)
  end.

Fixpoint read_elements (error : Z) (l : list (Z * zk_response_body)) (buf : str)
    : result (Z * list (Z * zk_response_body) * str) :=
  match l with
  | [] => Ok (error, [], buf)
  | (own_error, template) :: l =>
      '(op, done, op_error, buf) ← read_multi_header buf;
      if (done : bool) then Throw (KeeperException Err.ZMARSHALLINGERROR)
      else
        let failed := bool_decide (op_error <> Err.ZOK) in
        let own_error := if failed then op_error else if decide (op = OpError) then Err.ZOK else own_error in
        let error := if failed && bool_decide (error = Err.ZOK) && bool_decide (op_error <> Err.ZRUNTIMEINCONSISTENCY)
                     then op_error else error in
        '(own_error, b, buf) ←
          (if decide (op = OpError)
           then match zk_read_int32 buf with
                | Ok (read_error, buf) =>
                    if decide (read_error = own_error) then Ok (own_error, ErrorResponse, buf)
                    else Throw (KeeperException Err.ZMARSHALLINGERROR)
                | Throw e => Throw e
                end
           else if decide (op_error = Err.ZOK) then read_one own_error template buf
           else Ok (own_error, template, buf));
        '(error, rest, buf) ← read_elements error l buf;
        Ok (error, (own_error, b) :: rest, buf)
  end.
End elements.

(** [writeImpl]; [error] is the error of the response.  A watch response inside a multi
    response has no operation number, which throws. *)
Fixpoint write_body (error : Z) (b : zk_response_body) : result str :=
  match b with
  | HeartbeatResponse | AuthResponse | CloseResponse | RemoveResponse | CheckResponse => Ok []
  | SyncResponse path => Ok (zk_write_string path)
  | WatchResponse type state path => Ok (zk_write_int32 type ++ zk_write_int32 state ++ zk_write_string path)
  | CreateResponse path_created => Ok (zk_write_string path_created)
  | ExistsResponse stat | SetResponse stat => Ok (write_stat stat)
  | GetResponse data stat => Ok (zk_write_string data ++ write_stat stat)
  | ListResponse names stat => Ok (zk_write_vector zk_write_string names ++ write_stat stat)
  | ErrorResponse => Ok (zk_write_int32 error)
  | MultiResponse responses =>
      parts ← write_elements write_body responses;
      Ok (parts ++ write_multi_header OpError true (-1))
  | SessionIDResponse internal session server =>
      Ok (zk_write_int64 internal ++ zk_write_int64 session ++ zk_write_int32 server)
  end.

(** [ZooKeeperResponse::write]; a bad watch response is not sent. *)
Definition write_response (r : zk_response) : result str :=
  let whole :=
    w ← (if decide (r_error r = Err.ZOK) then write_body (r_error r) (r_body r) else Ok []);
    Ok (zk_write_string (zk_write_int32 (r_xid r) ++ zk_write_int64 (r_zxid r) ++ zk_write_int32 (r_error r) ++ w)) in
  match r_body r with
  | WatchResponse _ _ _ => if decide (r_error r = Err.ZOK) then whole else Ok []
  | _ => whole
  end.

(** [readImpl] of the response a client expects, [template]: the error of a multi response
    is that of its first operation that failed. *)
Fixpoint read_body (error : Z) (template : zk_response_body) (buf : str) : result (Z * zk_response_body * str) :=
  let plain (r : reader zk_response_body) := match r buf with Ok (b, buf) => Ok (error, b, buf) | Throw e => Throw e end in
  match template with
  | HeartbeatResponse | AuthResponse | RemoveResponse | CheckResponse => Ok (error, template, buf)
  | CloseResponse => Throw (KeeperException Err.ZRUNTIMEINCONSISTENCY)
  | SyncResponse _ => plain (path ← zk_read_string; mret (SyncResponse path))
  | WatchResponse _ _ _ =>
      plain (type ← zk_read_int32; state ← zk_read_int32; path ← zk_read_string; mret (WatchResponse type state path))
  | CreateResponse _ => plain (path ← zk_read_string; mret (CreateResponse path))
  | ExistsResponse _ => plain (stat ← read_stat; mret (ExistsResponse stat))
  | SetResponse _ => plain (stat ← read_stat; mret (SetResponse stat))
  | GetResponse _ _ => plain (data ← zk_read_string; stat ← read_stat; mret (GetResponse data stat))
  | ListResponse _ _ => plain (names ← zk_read_vector zk_read_string; stat ← read_stat; mret (ListResponse names stat))
  | ErrorResponse =>
      plain (read_error ← zk_read_int32;
             if decide (read_error = error) then mret ErrorResponse else rthrow (KeeperException Err.ZMARSHALLINGERROR))
  | MultiResponse templates =>
      '(error, responses, buf) ← read_elements read_body error templates buf;
      '(op, done, error_read, buf) ← read_multi_header buf;
      if negb done then Throw (KeeperException Err.ZMARSHALLINGERROR)
      else if decide (op <> OpError) then Throw (KeeperException Err.ZMARSHALLINGERROR)
      else if decide (error_read <> -1) then Throw (KeeperException Err.ZMARSHALLINGERROR)
      else Ok (error, MultiResponse responses, buf)
  | SessionIDResponse _ _ _ =>
      plain (internal ← zk_read_int64; session ← zk_read_int64; server ← zk_read_int32;
             mret (SessionIDResponse internal session server))
  end.

(** ** Reading ends *)

(** A reader takes bytes from the front and never gives any back. *)
Definition shrinks {A} (r : reader A) : Prop := forall buf a rest, r buf = Ok (a, rest) -> (length rest <= length buf)%nat.

Create HintDb shrinks discriminated.

Lemma shrinks_ret {A} (a : A) : shrinks (mret a).
Proof. by intros buf a' rest [= _ <-]. Qed.

Lemma shrinks_throw {A} e : shrinks (rthrow (A := A) e).
Proof. done. Qed.

Lemma shrinks_bind {A B} (r : reader A) (k : A -> reader B) : shrinks r -> (forall a, shrinks (k a)) -> shrinks (r ≫= k).
Proof.
  intros Hr Hk buf b rest. unfold mbind, reader_bind. destruct (r buf) as [[a buf']|] eqn:E; [|done]. intros H.
  apply Hr in E. apply Hk in H. lia.
Qed.

Lemma shrinks_strict n : shrinks (readStrict n).
Proof. intros buf a rest. unfold readStrict. case_decide; [|done]. intros [= _ <-]. rewrite length_drop. lia. Qed.

Lemma shrinks_resized n : shrinks (read_resized n).
Proof. intros buf a rest [= _ <-]. rewrite length_drop. lia. Qed.

#[export] Hint Resolve shrinks_ret shrinks_throw shrinks_bind shrinks_strict shrinks_resized : shrinks.

Ltac shrink :=
  repeat match goal with
  | |- shrinks (_ ≫= _) => apply shrinks_bind; [|intros ?]
  | |- shrinks (if ?b then _ else _) => destruct b
  | |- shrinks (match ?x with _ => _ end) => destruct x
  | |- shrinks _ => solve [auto with shrinks]
  end.

Lemma shrinks_int n : shrinks (zk_read_int n).
Proof. unfold zk_read_int. shrink. Qed.
Lemma shrinks_int32 : shrinks zk_read_int32.
Proof. apply shrinks_int. Qed.
Lemma shrinks_int64 : shrinks zk_read_int64.
Proof. apply shrinks_int. Qed.
Lemma shrinks_read_bool : shrinks read_bool.
Proof. unfold read_bool, read_unsigned. shrink. Qed.
#[export] Hint Resolve shrinks_int32 shrinks_int64 shrinks_read_bool : shrinks.

Lemma shrinks_read_string : shrinks zk_read_string.
Proof. unfold zk_read_string. shrink. Qed.
#[export] Hint Resolve shrinks_read_string : shrinks.

Lemma shrinks_times {A} n (r : reader A) : shrinks r -> shrinks (read_times n r).
Proof. intros Hr. induction n as [|n IH]; cbn [read_times]; shrink. Qed.

Lemma shrinks_vector {A} (r : reader A) : shrinks r -> shrinks (zk_read_vector r).
Proof. intros Hr. unfold zk_read_vector. shrink. by apply shrinks_times. Qed.

Lemma shrinks_acl : shrinks read_acl.
Proof. unfold read_acl. shrink. Qed.
#[export] Hint Resolve shrinks_acl shrinks_vector : shrinks.

Lemma shrinks_opnum : shrinks read_opnum.
Proof. unfold read_opnum. shrink. Qed.
#[export] Hint Resolve shrinks_opnum : shrinks.

Lemma shrinks_plain op : shrinks (read_plain op).
Proof. destruct op; cbn [read_plain]; shrink. Qed.

Lemma strict_shorter n buf s rest : readStrict n buf = Ok (s, rest) -> (length rest + n = length buf)%nat.
Proof. unfold readStrict. case_decide; [|done]. intros [= _ <-]. rewrite length_drop. lia. Qed.

Lemma bind_ok {A B} (r : reader A) (k : A -> reader B) buf b rest :
  (r ≫= k) buf = Ok (b, rest) -> exists a buf', r buf = Ok (a, buf') /\ k a buf' = Ok (b, rest).
Proof. unfold mbind, reader_bind. destruct (r buf) as [[a buf']|]; [|done]. eauto. Qed.

(** The header of an element takes bytes. *)
Lemma multi_header_shorter buf h rest : read_multi_header buf = Ok (h, rest) -> (length rest < length buf)%nat.
Proof.
  intros (op & b1 & H1 & (d & b2 & H2 & (e & b3 & H3 & [= _ ->])%bind_ok)%bind_ok)%bind_ok.
  apply shrinks_read_bool in H2. apply shrinks_int32 in H3.
  apply bind_ok in H1 as (raw & b0 & (s & b0' & Hs & [= _ <-])%bind_ok & Hop).
  apply strict_shorter in Hs. destruct (getOpNum raw); [injection Hop as _ ->|done]. lia.
Qed.

Lemma read_multi_total fuel buf :
  (length buf < fuel)%nat ->
  exists r, read_multi fuel buf = Some r /\ forall l rest, r = Ok (l, rest) -> (length rest <= length buf)%nat.
Proof.
  revert buf. induction fuel as [|fuel IH]; intros buf Hf; [lia|]. cbn [read_multi].
  destruct (read_multi_header buf) as [[[[op fin] error] b1]|e] eqn:Hh; [|by eexists].
  apply multi_header_shorter in Hh. destruct fin.
  { repeat case_decide; eexists; (split; [done|]); try done. intros l rest [= _ <-]. lia. }
  assert (Hbody : exists r, (if decide (op = OpMulti) then r ← read_multi fuel b1;
      Some (match r with Ok (l, buf) => Ok (MultiRequest l, buf) | Throw e => Throw e end) else Some (read_plain op b1)) = Some r
      /\ forall q rest, r = Ok (q, rest) -> (length rest <= length b1)%nat).
  { case_decide as Hop; [|eexists; split; [done|]; intros q rest Hp; by apply (shrinks_plain op) in Hp].
    destruct (IH b1) as (r & -> & Hr); [lia|]. cbn [mbind option_bind]. eexists. split; [done|]. intros q rest.
    destruct r as [[l b]|]; [|done]. intros [= _ <-]. by eapply Hr. }
  destruct Hbody as (r & -> & Hr). cbn [mbind option_bind]. destruct r as [[q b2]|e]; [|by eexists].
  specialize (Hr q b2 eq_refl). case_decide; [by eexists|]. destruct (IH b2) as (r & -> & Hr2); [lia|]. cbn [mbind option_bind].
  eexists. split; [done|]. intros l rest. destruct r as [[l' b]|]; [|done]. intros [= _ <-]. specialize (Hr2 l' b eq_refl). lia.
Qed.

(** More fuel changes nothing. *)
Lemma read_multi_more fuel buf r : read_multi fuel buf = Some r -> read_multi (S fuel) buf = Some r.
Proof.
  revert buf r. induction fuel as [|fuel IH]; intros buf r; [done|]. intros H. cbn [read_multi] in H.
  change (read_multi (S (S fuel)) buf) with
    (match read_multi_header buf with
     | Throw e => Some (Throw e)
     | Ok (op, done, error, buf) =>
          if (done : bool) then
            if decide (op <> OpError) then Some (Throw (KeeperException Err.ZMARSHALLINGERROR))
            else if decide (error <> -1) then Some (Throw (KeeperException Err.ZMARSHALLINGERROR))
            else Some (Ok ([], buf))
          else
            body ← (if decide (op = OpMulti)
                    then r ← read_multi (S fuel) buf;
                         Some (match r with Ok (l, buf) => Ok (MultiRequest l, buf) | Throw e => Throw e end)
                    else Some (read_plain op buf));
            match body with
            | Throw e => Some (Throw e)
            | Ok (request, buf) =>
                if decide (buf = []) then Some (Throw (KeeperException Err.ZMARSHALLINGERROR))
                else r ← read_multi (S fuel) buf;
                     Some (match r with Ok (l, buf) => Ok (request :: l, buf) | Throw e => Throw e end)
            end
     end).
  destruct (read_multi_header buf) as [[[[op fin] error] b1]|e]; [|done]. destruct fin; [done|].
  assert (Hm : forall b x, read_multi fuel b = Some x -> read_multi (S fuel) b = Some x) by (intros; by apply IH).
  case_decide as Hop.
  - destruct (read_multi fuel b1) as [x|] eqn:E1; [|done]. rewrite (Hm _ _ E1). cbn [mbind option_bind] in *.
    destruct x as [[l b2]|e]; [|done]. case_decide; [done|].
    destruct (read_multi fuel b2) as [y|] eqn:E2; [|done]. by rewrite (Hm _ _ E2).
  - cbn [mbind option_bind] in *. destruct (read_plain op b1) as [[q b2]|e]; [|done]. case_decide; [done|].
    destruct (read_multi fuel b2) as [y|] eqn:E2; [|done]. by rewrite (Hm _ _ E2).
Qed.

Lemma read_multi_fuel fuel buf : (length buf < fuel)%nat -> read_multi fuel buf = read_multi (S (length buf)) buf.
Proof.
  intros Hf. destruct (read_multi_total (S (length buf)) buf) as (r & Hr & _); [lia|]. rewrite Hr.
  induction Hf as [|fuel _ IH]; [done|]. by apply read_multi_more.
Qed.

(** ** Requests read back *)

(** An induction principle that goes into multi requests. *)
Lemma zk_request_deep_ind (P : zk_request -> Prop) :
  (forall l, Forall P l -> P (MultiRequest l)) ->
  (forall r, (forall l, r <> MultiRequest l) -> P r) -> forall r, P r.
Proof.
  intros Hm Hp. fix IH 1. intros r. destruct r; try (apply Hp; discriminate). apply Hm.
  induction requests as [|r l IHl]; constructor; [apply IH|apply IHl].
Qed.

Definition valid_string (s : str) : Prop := Z.of_nat (length s) <= MAX_STRING_OR_ARRAY_SIZE.
Definition valid_acl (a : ACL) : Prop :=
  in_signed 32 (permissions a) = true /\ valid_string (scheme a) /\ valid_string (acl_id a).

(** What the fields of a request object can hold, and the limit on sizes. *)
Fixpoint valid_request (r : zk_request) : Prop :=
  match r with
  | HeartbeatRequest | CloseRequest => True
  | SyncRequest p | ExistsRequest p _ | GetRequest p _ | ListRequest _ p _ => valid_string p
  | AuthRequest t s d => in_signed 32 t = true /\ valid_string s /\ valid_string d
  | CreateRequest p d _ _ acls =>
      valid_string p /\ valid_string d /\ Z.of_nat (length acls) <= MAX_STRING_OR_ARRAY_SIZE /\ Forall valid_acl acls
  | RemoveRequest p v | CheckRequest p v => valid_string p /\ in_signed 32 v = true
  | SetRequest p d v => valid_string p /\ valid_string d /\ in_signed 32 v = true
  | MultiRequest l => fold_right (fun r P => valid_request r /\ P) True l
  | SessionIDRequest i t s => in_signed 64 i = true /\ in_signed 64 t = true /\ in_signed 32 s = true
  end.

Lemma reads_valid_string s : valid_string s -> reads zk_read_string (zk_write_string s) s.
Proof. apply reads_string. Qed.

#[export] Hint Resolve reads_ret reads_bool reads_int32 reads_int64 reads_valid_string : wire.

(** Read the parts of a sequence one after the other. *)
Ltac read_parts :=
  repeat (eapply reads_bind; [solve [eauto with wire]|]);
  match goal with
  | |- reads (_ ≫= fun x => mret (@?f x)) _ _ => eapply (reads_bind_ret _ f); solve [eauto with wire]
  | |- _ => idtac
  end.

Lemma reads_acl a : valid_acl a -> reads read_acl (write_acl a) a.
Proof.
  intros (Hp & Hs & Hi). destruct a as [p s i]. unfold read_acl, write_acl. cbn [permissions scheme acl_id].
  read_parts.
Qed.

Lemma reads_opnum op : reads read_opnum (write_opnum op) op.
Proof.
  intros rest. unfold read_opnum, write_opnum, mbind, reader_bind.
  rewrite reads_int32 by (by destruct op). by destruct op.
Qed.
#[export] Hint Resolve reads_acl reads_opnum : wire.

Lemma reads_multi_header op fin error :
  in_signed 32 error = true -> reads read_multi_header (write_multi_header op fin error) (op, fin, error).
Proof.
  intros He. unfold read_multi_header, write_multi_header. read_parts.
Qed.

Lemma reads_plain r :
  (forall l, r <> MultiRequest l) -> valid_request r -> reads (read_plain (request_opnum r)) (write_request r) r.
Proof.
  intros Hm Hv. destruct r as [| | | |p d e s acls| | | | |simple p w| |l|]; cbn [read_plain request_opnum write_request valid_request] in *;
    try destruct Hv as (Hv1 & Hv2); try destruct Hv2 as (Hv2 & Hv3); try destruct Hv3 as (Hv3 & Hv4).
  all: try (by destruct (Hm l)).
  all: try (destruct simple; cbn [read_plain]).
  all: try solve [eapply reads_ret].
  all: try solve [read_parts].
  - eapply reads_bind; [eauto with wire|]. eapply reads_bind; [eauto with wire|].
    eapply reads_bind. { apply reads_vector; [done|]. eapply Forall_impl; [done|]. intros a Ha. by apply reads_acl. }
    eapply reads_eq; [eapply (reads_bind_ret _ (fun flags => CreateRequest p d (negb (Z.land flags 1 =? 0)) (negb (Z.land flags 2 =? 0)) acls)), reads_int32; by destruct e, s|].
    by destruct e, s.
Qed.

(** One element of a multi request, with the fuel that is left. *)
Definition read_element (fuel : nat) (op : OpNum) (buf : str) : option (result (zk_request * str)) :=
  if decide (op = OpMulti)
  then r ← read_multi fuel buf; Some (match r with Ok (l, buf) => Ok (MultiRequest l, buf) | Throw e => Throw e end)
  else Some (read_plain op buf).

Definition reads_deep (r : zk_request) : Prop :=
  forall fuel rest, (length (write_request r ++ rest) < fuel)%nat ->
  read_element fuel (request_opnum r) (write_request r ++ rest) = Some (Ok (r, rest)).

Lemma write_multi_header_length op fin error : length (write_multi_header op fin error) = 9%nat.
Proof.
  unfold write_multi_header, write_opnum, write_bool, write_le, zk_write_int32, zk_write_int, bswap.
  by rewrite !length_app, !length_rev, !le_bytes_length.
Qed.

Lemma read_multi_footer fuel rest :
  read_multi (S fuel) (write_multi_header OpError true (-1) ++ rest) = Some (Ok ([], rest)).
Proof. cbn [read_multi]. by rewrite reads_multi_header by done. Qed.

Lemma read_multi_element fuel r rest l rest' :
  request_opnum r <> OpError -> reads_deep r -> (length (write_request r ++ rest) < fuel)%nat -> rest <> [] ->
  read_multi fuel rest = Some (Ok (l, rest')) ->
  read_multi (S fuel) (write_multi_header (request_opnum r) false (-1) ++ write_request r ++ rest) = Some (Ok (r :: l, rest')).
Proof.
  intros Hop Hr Hf Hne Hl. cbn [read_multi]. rewrite reads_multi_header by done.
  change (if decide (request_opnum r = OpMulti) then _ else _) with (read_element fuel (request_opnum r) (write_request r ++ rest)).
  rewrite Hr by done. cbn [mbind option_bind]. rewrite decide_False by done. by rewrite Hl.
Qed.

Lemma read_multi_list l fuel rest :
  Forall reads_deep l ->
  let w := concat (map (fun r => write_multi_header (request_opnum r) false (-1) ++ write_request r) l) in
  (length (w ++ write_multi_header OpError true (-1) ++ rest) < fuel)%nat ->
  read_multi fuel (w ++ write_multi_header OpError true (-1) ++ rest) = Some (Ok (l, rest)).
Proof.
  intros HF. revert fuel. induction HF as [|r l Hr HF IH]; intros fuel; cbn [map concat]; intros Hf.
  { destruct fuel as [|fuel]; [lia|]. apply read_multi_footer. }
  rewrite <- !app_assoc in *. rewrite !length_app, !write_multi_header_length in Hf. destruct fuel as [|fuel]; [lia|].
  apply read_multi_element; [destruct r as [| | | | | | | | |[]| | |]; done|done| |intros E|].
  - rewrite !length_app, write_multi_header_length. lia.
  - apply (f_equal length) in E. rewrite !length_app, write_multi_header_length in E. cbn in E. lia.
  - apply IH. rewrite !length_app, write_multi_header_length. lia.
Qed.

Lemma valid_multi l : valid_request (MultiRequest l) <-> Forall valid_request l.
Proof.
  cbn [valid_request]. induction l as [|r l IH]; cbn [fold_right]; [by split|]. by rewrite Forall_cons, IH.
Qed.

Lemma request_reads_deep r : valid_request r -> reads_deep r.
Proof.
  induction r as [l IH|r Hm] using zk_request_deep_ind; intros Hv fuel rest Hf; unfold read_element.
  - rewrite valid_multi in Hv. rewrite decide_True by done. cbn [write_request] in *. rewrite <- app_assoc in *.
    rewrite read_multi_list; [done| |done]. rewrite Forall_forall in IH, Hv |- *. auto.
  - rewrite decide_False by (destruct r as [| | | | | | | | |[]| |l|]; try done; by destruct (Hm l)). by rewrite reads_plain.
Qed.

Lemma read_message_write m rest :
  in_signed 32 (xid m) = true -> valid_request (body m) ->
  read_message (zk_write_int32 (xid m) ++ write_opnum (request_opnum (body m)) ++ write_request (body m) ++ rest)
  = Some (Ok (m, rest)).
Proof.
  intros Hx Hv. destruct m as [x r]. cbn [xid body] in *. unfold read_message.
  assert (Hh : reads (x ← zk_read_int32; op ← read_opnum; mret (x, op)) (zk_write_int32 x ++ write_opnum (request_opnum r)) (x, request_opnum r)).
  { eapply reads_bind; [eauto with wire|]. eapply (reads_bind_ret _ (fun op => (x, op))). eauto with wire. }
  rewrite app_assoc, Hh. unfold read_request.
  change (if decide (request_opnum r = OpMulti) then _ else _) with (read_element (S (length (write_request r ++ rest))) (request_opnum r) (write_request r ++ rest)).
  rewrite request_reads_deep by (done || lia). done.
Qed.

Lemma reads_int32_any z : exists v, reads zk_read_int32 (zk_write_int32 z) v.
Proof.
  eexists. eapply (reads_bind_ret _ (fun s => to_signed _ (le_value (bswap s)))), reads_strict.
  unfold zk_write_int32, zk_write_int, bswap. by rewrite length_rev, le_bytes_length.
Qed.

Lemma parse_log_entry (session_id : Z) (m : zk_message) :
  in_signed 64 session_id = true -> in_signed 32 (xid m) = true -> valid_request (body m) ->
  parseRequest (getZooKeeperLogEntry session_id m) = Some (Ok (session_id, m)).
Proof.
  intros Hs Hx Hv. unfold parseRequest, getZooKeeperLogEntry, write_message, zk_write_string.
  set (w := zk_write_int32 (xid m) ++ _). destruct (reads_int32_any (Z.of_nat (length w))) as [v Hlen].
  assert (Hh : reads (s ← read_signed 8; length ← zk_read_int32; mret (s : Z)) (write_le 8 session_id ++ zk_write_int32 (Z.of_nat (length w))) session_id).
  { eapply reads_bind; [apply reads_signed; [lia|done]|]. by eapply (reads_bind_ret _ (fun _ => session_id)). }
  rewrite app_assoc, Hh. unfold w. rewrite <- (app_nil_r (write_request (body m))), read_message_write by done. done.
Qed.

(** A replica reads back from an entry of the log the session and the request that
    the server wrote into it, for every request, also a multi request with
    other multi requests inside. *)
Lemma log_entry_round_trip (session_id : Z) (m : zk_message) :
  in_signed 64 session_id = true -> in_signed 32 (xid m) = true -> valid_request (body m) ->
  parseRequest (getZooKeeperLogEntry session_id m) = Some (Ok (session_id, m)).
Proof. apply parse_log_entry. Qed.

Definition example_create (path : string) : zk_request :=
  CreateRequest (lit path) (lit "data") true false [mkACL 31 (lit "world") (lit "anyone")].

Definition example_multi : zk_request :=
  MultiRequest [example_create "/a"; MultiRequest [CheckRequest (lit "/a") 0]; SetRequest (lit "/b") (lit "x") (-1)].

Lemma log_entry_round_trip_witness :
  parseRequest (getZooKeeperLogEntry 5 (mkMessage 7 example_multi)) = Some (Ok (5, mkMessage 7 example_multi)).
Proof.
  apply (log_entry_round_trip 5 (mkMessage 7 example_multi)); [reflexivity..|].
  cbn -[MAX_STRING_OR_ARRAY_SIZE]. unfold valid_string, valid_acl, MAX_STRING_OR_ARRAY_SIZE. repeat split; try (cbn; lia).
  constructor; [|constructor]. unfold valid_acl, valid_string, MAX_STRING_OR_ARRAY_SIZE. repeat split; cbn; lia.
Defined.

(** Reading a request ends on every sequence of bytes, with a request or an
    exception, although the loop over a multi request is bounded by what
    is read only: the length of the buffer is enough fuel, and more gives the same. *)
Lemma parse_terminates (data : str) :
  (exists r, parseRequest data = Some r)
  /\ forall fuel, (length data < fuel)%nat -> read_multi fuel data = read_multi (S (length data)) data.
Proof.
  split; [|intros fuel; apply read_multi_fuel]. unfold parseRequest.
  destruct ((s ← read_signed 8; length ← zk_read_int32; mret (s : Z)) data) as [[s buf]|e]; [|by eexists].
  unfold read_message. destruct ((x ← zk_read_int32; op ← read_opnum; mret (x, op)) buf) as [[[x op] b]|e]; [|by eexists].
  unfold read_request. case_decide; [|by eexists]. destruct (read_multi_total (S (length b)) b) as (r & -> & _); [lia|]. by eexists.
Qed.

(** ** Responses read back *)

Definition valid_stat (s : Stat) : Prop :=
  in_signed 64 (czxid s) = true /\ in_signed 64 (mzxid s) = true /\ in_signed 64 (ctime s) = true
  /\ in_signed 64 (mtime s) = true /\ in_signed 32 (st_version s) = true /\ in_signed 32 (cversion s) = true
  /\ in_signed 32 (aversion s) = true /\ in_signed 64 (ephemeralOwner s) = true /\ in_signed 32 (dataLength s) = true
  /\ in_signed 32 (numChildren s) = true /\ in_signed 64 (pzxid s) = true.

Lemma reads_stat s : valid_stat s -> reads read_stat (write_stat s) s.
Proof.
  intros (H1 & H2 & H3 & H4 & H5 & H6 & H7 & H8 & H9 & H10 & H11). destruct s as [a b c d e f g h i j k].
  unfold read_stat, write_stat. cbn [czxid mzxid ctime mtime st_version cversion aversion ephemeralOwner dataLength numChildren pzxid] in *.
  read_parts.
Qed.

Lemma reads_strings l :
  Z.of_nat (length l) <= MAX_STRING_OR_ARRAY_SIZE -> Forall valid_string l ->
  reads (zk_read_vector zk_read_string) (zk_write_vector zk_write_string l) l.
Proof. intros Hl HF. apply reads_vector; [done|]. eapply Forall_impl; [done|]. intros s Hs. by apply reads_string. Qed.
#[export] Hint Resolve reads_stat reads_strings : wire.

(** The response of an operation inside a multi request that fits what the client
    expects. *)
Definition fits (template b : zk_response_body) : Prop :=
  match template, b with
  | HeartbeatResponse, HeartbeatResponse | AuthResponse, AuthResponse | RemoveResponse, RemoveResponse
  | CheckResponse, CheckResponse => True
  | SyncResponse _, SyncResponse p | CreateResponse _, CreateResponse p => valid_string p
  | ExistsResponse _, ExistsResponse s | SetResponse _, SetResponse s => valid_stat s
  | GetResponse _ _, GetResponse d s => valid_string d /\ valid_stat s
  | ListResponse _ _, ListResponse names s =>
      Z.of_nat (length names) <= MAX_STRING_OR_ARRAY_SIZE /\ Forall valid_string names /\ valid_stat s
  | _, _ => False
  end.

Lemma fits_op t b : fits t b -> exists op, response_opnum b = Ok op /\ op <> OpError.
Proof. intros H. destruct b; try (by eexists); by destruct t. Qed.

Lemma read_body_fits error t b :
  fits t b -> exists w, write_body error b = Ok w /\ forall rest, read_body error t (w ++ rest) = Ok (error, b, rest).
Proof.
  intros H. destruct t, b; try done; cbn [fits] in H;
    repeat match goal with H : _ /\ _ |- _ => destruct H end;
    (eexists; split; [reflexivity|]); intros rest; cbn [read_body]; try done.
  all: match goal with |- context [?r (?w ++ ?x)] =>
    match type of r with reader zk_response_body =>
      let b := match goal with |- _ = Ok (_, ?b, _) => b end in
      assert (Hr : reads r w b) by (read_parts); rewrite Hr; done end end.
Qed.

(** The error a client sees of a multi response. *)
Fixpoint first_error (l : list (Z * zk_response_body)) : Z :=
  match l with
  | [] => Err.ZOK
  | (e, _) :: l => if decide (e <> Err.ZOK /\ e <> Err.ZRUNTIMEINCONSISTENCY) then e else first_error l
  end.

(** What the server sends for an operation: its response, or its error. *)
Definition answers (template : Z * zk_response_body) (answer : Z * zk_response_body) : Prop :=
  template.1 = Err.ZOK
  /\ ((answer.1 = Err.ZOK /\ fits template.2 answer.2) \/ (in_signed 32 answer.1 = true /\ answer.2 = ErrorResponse)).

Lemma read_elements_write ts rs error :
  Forall2 answers ts rs ->
  exists w, write_elements write_body rs = Ok w /\ forall rest,
    read_elements read_body error ts (w ++ rest) = Ok (if decide (error = Err.ZOK) then first_error rs else error, rs, rest).
Proof.
  intros HF. revert error. induction HF as [|[te t] [e b] ts rs [Ht Ha] HF IH]; intros error.
  { exists []. split; [done|]. intros rest. cbn. case_decide as H; [by rewrite H|done]. }
  destruct (IH (if decide (e <> Err.ZOK /\ error = Err.ZOK /\ e <> Err.ZRUNTIMEINCONSISTENCY) then e else error)) as (w' & Hw' & Hr').
  cbn [fst snd] in *. subst te. cbn [write_elements read_elements]. rewrite Hw'. destruct Ha as [[-> Hf]|[He ->]].
  - destruct (fits_op t b Hf) as (op & Hop & Hne). destruct (read_body_fits Err.ZOK t b Hf) as (w & Hw & Hr).
    rewrite Hop. cbn [mbind result_bind]. rewrite decide_True by done. rewrite Hw. cbn [mbind result_bind]. eexists. split; [done|].
    intros rest. rewrite <- !app_assoc, reads_multi_header by done. cbn [mbind result_bind].
    rewrite (bool_decide_eq_false_2 (Err.ZOK <> Err.ZOK)) by (intros H; by apply H). cbn [andb].
    rewrite !(decide_False (P := op = OpError)) by done. rewrite decide_True by done. rewrite Hr. cbn [mbind result_bind].
    rewrite decide_False in Hr' by naive_solver. rewrite Hr'. cbn [mbind result_bind first_error].
    rewrite (decide_False (P := Err.ZOK <> Err.ZOK /\ _)) by naive_solver. done.
  - cbn [response_opnum mbind result_bind]. exists (write_multi_header OpError false e ++ zk_write_int32 e ++ w'). split.
    { destruct (decide (e = Err.ZOK)); [|rewrite (decide_True (P := OpError = OpError)) by done]; done. }
    intros rest. rewrite <- !app_assoc, reads_multi_header by done. cbn [mbind result_bind]. rewrite (decide_True (P := OpError = OpError)) by done.
    rewrite reads_int32 by done. set (own := if bool_decide (e <> Err.ZOK) then e else _).
    assert (own = e) as -> by (unfold own; case_bool_decide as H; [done|]; destruct (decide (e = Err.ZOK)); [by symmetry|tauto]).
    rewrite decide_True by done. cbn [mbind result_bind].
    assert (Hb : (if bool_decide (e <> Err.ZOK) && bool_decide (error = Err.ZOK) && bool_decide (e <> Err.ZRUNTIMEINCONSISTENCY) then e else error)
      = (if decide (e <> Err.ZOK /\ error = Err.ZOK /\ e <> Err.ZRUNTIMEINCONSISTENCY) then e else error)).
    { repeat case_bool_decide; case_decide; cbn [andb]; tauto. }
    rewrite Hb, Hr'. cbn [mbind result_bind first_error]. repeat case_decide; naive_solver.
Qed.

(** For every multi request the client reads back from what the server sends exactly
    the responses and errors of the operations, and as the error of the whole the
    error of the first operation that failed. *)
Lemma multi_response_round_trip (requests : list zk_request) (rs : list (Z * zk_response_body)) :
  Forall2 answers (map (fun r => (Err.ZOK, makeResponse r)) requests) rs ->
  exists w, write_body Err.ZOK (MultiResponse rs) = Ok w /\ forall rest,
    read_body Err.ZOK (makeResponse (MultiRequest requests)) (w ++ rest) = Ok (first_error rs, MultiResponse rs, rest).
Proof.
  intros HF. destruct (read_elements_write _ rs Err.ZOK HF) as (w & Hw & Hr). cbn [write_body]. rewrite Hw. cbn [mbind result_bind].
  eexists. split; [done|]. intros rest. rewrite <- app_assoc. cbn [makeResponse read_body]. rewrite Hr. cbn [mbind result_bind].
  rewrite reads_multi_header by done. done.
Qed.

Definition example_answers : list (Z * zk_response_body) :=
  [(Err.ZOK, CreateResponse (lit "/a")); (Err.ZBADVERSION, ErrorResponse); (Err.ZRUNTIMEINCONSISTENCY, ErrorResponse)].

Lemma multi_response_round_trip_witness :
  exists w, write_body Err.ZOK (MultiResponse example_answers) = Ok w /\ forall rest,
    read_body Err.ZOK (makeResponse (MultiRequest [CreateRequest (lit "/a") [] false false []; CheckRequest (lit "/b") 3; RemoveRequest (lit "/c") (-1)]))
      (w ++ rest) = Ok (Err.ZBADVERSION, MultiResponse example_answers, rest).
Proof.
  apply (multi_response_round_trip [CreateRequest (lit "/a") [] false false []; CheckRequest (lit "/b") 3; RemoveRequest (lit "/c") (-1)] example_answers).
  unfold example_answers. cbn [map makeResponse]. repeat (apply Forall2_cons; split); [..|constructor]; (split; [done|]).
  - left. split; [done|]. unfold fits, valid_string, MAX_STRING_OR_ARRAY_SIZE. cbn. lia.
  - by right.
  - by right.
Defined.
