(* ===== verification/SessionQueue.v ===== *)
(** * SessionQueue: when sessions of the coordination service expire

    Models SessionExpiryQueue of src/src/Coordination/SessionExpiryQueue.{h,cpp}: the
    buckets of sessions by the tick at which they expire.  The clock is
    the argument [now] of an operation.  Signed overflow and a division by zero are
    undefined: an operation that meets one is [None].

    The reference is a map from a session to its deadline, and a tick that reports
    the sessions whose deadline has passed. *)

From S2P Require Import Prelude.

Local Open Scope Z_scope.

Module SessionExpiryQueue.

Record t : Type := mk {
  session_to_timeout : gmap Z Z;
  expiry_to_sessions : gmap Z (gset Z);
  expiration_interval : Z;
  next_expiration_time : Z
}.

(** Arithmetic on [int64_t]. *)
Definition int64 (z : Z) : option Z := if in_signed 64 z then Some z else None.

Definition roundToNextInterval (interval time : Z) : option Z :=
  if decide (interval = 0) then None
  else
    q ← int64 (Z.quot time interval);
    q1 ← int64 (q + 1);
    int64 (q1 * interval).

Definition create (interval now : Z) : option t :=
  next ← roundToNextInterval interval now;
  Some (mk ∅ ∅ interval next).

Definition remove (q : t) (session_id : Z) : t * bool :=
  match session_to_timeout q !! session_id with
  | Some expiry =>
      (mk (session_to_timeout q) (alter (fun set => set ∖ {[session_id]}) expiry (expiry_to_sessions q))
         (expiration_interval q) (next_expiration_time q), true)
  | None => (q, false)
  end.

(** [find], [emplace] of an empty set when there is none, and [insert]. *)
Definition add_to (buckets : gmap Z (gset Z)) (expiry session_id : Z) : gmap Z (gset Z) :=
  <[expiry := default ∅ (buckets !! expiry) ∪ {[session_id]}]> buckets.

Definition update (q : t) (session_id timeout_ms now : Z) : option (t * bool) :=
  deadline ← int64 (now + timeout_ms);
  new_expiry_time ← roundToNextInterval (expiration_interval q) deadline;
  match session_to_timeout q !! session_id with
  | Some prev_expiry_time =>
      if decide (new_expiry_time = prev_expiry_time) then Some (q, false)
      else
        let buckets := add_to (expiry_to_sessions q) new_expiry_time session_id in
        let buckets := alter (fun set => set ∖ {[session_id]}) prev_expiry_time buckets in
        Some (mk (<[session_id := new_expiry_time]> (session_to_timeout q)) buckets
                (expiration_interval q) (next_expiration_time q), true)
  | None =>
      Some (mk (<[session_id := new_expiry_time]> (session_to_timeout q))
              (add_to (expiry_to_sessions q) new_expiry_time session_id)
              (expiration_interval q) (next_expiration_time q), false)
  end.

Definition getExpiredSessions (q : t) (now : Z) : option (t * gset Z) :=
  if now <? next_expiration_time q then Some (q, ∅)
  else
    new_expiration_time ← int64 (next_expiration_time q + expiration_interval q);
    match expiry_to_sessions q !! next_expiration_time q with
    | Some sessions =>
        Some (mk (session_to_timeout q) (delete (next_expiration_time q) (expiry_to_sessions q))
                (expiration_interval q) new_expiration_time, sessions)
    | None =>
        Some (mk (session_to_timeout q) (expiry_to_sessions q) (expiration_interval q) new_expiration_time, ∅)
    end.

Definition clear (q : t) : t := mk ∅ ∅ (expiration_interval q) (next_expiration_time q).

End SessionExpiryQueue.

Import SessionExpiryQueue.

(** ** Runs *)

Inductive queue_event : Type :=
| QUpdate (session_id timeout_ms now : Z)
| QRemove (session_id : Z)
| QExpire (now : Z).

(** The sessions each event reports. *)
Fixpoint queue_run (q : t) (es : list queue_event) : option (t * list (gset Z)) :=
  match es with
  | [] => Some (q, [])
  | e :: es =>
      '(q, out) ← match e with
                  | QUpdate s timeout now => '(q, _) ← update q s timeout now; Some (q, ∅)
                  | QRemove s => Some ((remove q s).1, ∅)
                  | QExpire now => getExpiredSessions q now
                  end;
      '(q, outs) ← queue_run q es;
      Some (q, out :: outs)
  end.

(** The reference: [m] has the deadline of each session, [tick] is the next time of a report. *)
Fixpoint deadline_run (interval : Z) (m : gmap Z Z) (tick : Z) (es : list queue_event) : list (gset Z) :=
  match es with
  | [] => []
  | QUpdate s timeout now :: es => ∅ :: deadline_run interval (<[s := now + timeout]> m) tick es
  | QRemove s :: es => ∅ :: deadline_run interval (delete s m) tick es
  | QExpire now :: es =>
      if now <? tick then ∅ :: deadline_run interval m tick es
      else dom (filter (fun sd => sd.2 < tick) m)
           :: deadline_run interval (filter (fun sd => tick <= sd.2) m) (tick + interval) es
  end.

(** The clock does not go back and stays below [horizon], timeouts are not negative, and a
    session that was removed is not updated again. *)
Fixpoint sane (horizon clock : Z) (removed : gset Z) (es : list queue_event) : Prop :=
  match es with
  | [] => True
  | QUpdate s timeout now :: es =>
      clock <= now /\ 0 <= timeout /\ now + timeout <= horizon /\ s ∉ removed /\ sane horizon now removed es
  | QRemove s :: es => sane horizon clock ({[s]} ∪ removed) es
  | QExpire now :: es => clock <= now /\ now <= horizon /\ sane horizon now removed es
  end.

(** The tick after a time. *)
Definition tick_after (interval time : Z) : Z := (time / interval + 1) * interval.

(** ** The buckets implement the reference *)

Section refinement.
Context (interval horizon : Z) (Hint : 0 < interval) (Hhor : horizon + interval < 2 ^ 63).

Lemma tick_after_bounds time : time < tick_after interval time <= time + interval.
Proof. unfold tick_after. pose proof (Z.div_mod time interval). pose proof (Z.mod_pos_bound time interval). nia. Qed.

Lemma tick_after_mono a b : a <= b -> tick_after interval a <= tick_after interval b.
Proof. intros. unfold tick_after. pose proof (Z.div_le_mono a b interval). nia. Qed.

Lemma tick_after_iff time T :
  (interval | T) -> T <= tick_after interval time -> tick_after interval time = T <-> time < T.
Proof.
  intros [k ->] Hle. pose proof (tick_after_bounds time). split; [lia|]. unfold tick_after in *. intros Hlt.
  assert (time / interval < k) by (apply Z.div_lt_upper_bound; lia). nia.
Qed.

Lemma round_tick time : 0 <= time <= horizon -> roundToNextInterval interval time = Some (tick_after interval time).
Proof.
  intros H. unfold roundToNextInterval. rewrite decide_False, Z.quot_div_nonneg by lia.
  pose proof (tick_after_bounds time) as Hb. unfold tick_after in *. pose proof (Z.div_pos time interval).
  pose proof (Z.div_le_upper_bound time interval time).
  assert (Hs : forall z, - 2 ^ 63 <= z < 2 ^ 63 -> int64 z = Some z).
  { intros z Hz. unfold int64, in_signed. change (64 - 1) with 63. rewrite (proj2 (Z.leb_le _ _)), (proj2 (Z.ltb_lt _ _)) by lia. done. }
  rewrite Hs by nia. cbn [mbind option_bind]. rewrite Hs by nia. cbn [mbind option_bind]. apply Hs. nia.
Qed.

Definition bucket (q : t) (e : Z) : gset Z := default ∅ (expiry_to_sessions q !! e).

(** The queue holds the deadlines [m] at time [clock]. *)
Record holds (clock : Z) (removed : gset Z) (q : t) (m : gmap Z Z) : Prop := {
  h_interval : expiration_interval q = interval;
  h_pos : 0 <= next_expiration_time q;
  h_tick : (interval | next_expiration_time q);
  h_next : next_expiration_time q <= tick_after interval clock;
  h_in : forall s d, m !! s = Some d -> 0 <= d /\ next_expiration_time q <= tick_after interval d
         /\ session_to_timeout q !! s = Some (tick_after interval d) /\ s ∈ bucket q (tick_after interval d);
  h_out : forall e s, s ∈ bucket q e -> exists d, m !! s = Some d /\ e = tick_after interval d;
  h_old : forall s e, session_to_timeout q !! s = Some e -> m !! s = None -> s ∉ removed -> e <= clock
}.

Lemma holds_later clock clock' removed q m : clock <= clock' -> holds clock removed q m -> holds clock' removed q m.
Proof.
  intros Hc [Hi Hpos Ht Hn Hin Hout Hold]. pose proof (tick_after_mono _ _ Hc). split; [done|done|done|lia|done|done|].
  intros s e H1 H2 H3. specialize (Hold s e H1 H2 H3). lia.
Qed.

Lemma bucket_add q e s e' :
  default ∅ (add_to (expiry_to_sessions q) e s !! e') = bucket q e' ∪ (if decide (e' = e) then {[s]} else ∅).
Proof.
  unfold add_to, bucket. case_decide as He.
  - subst. by rewrite lookup_insert_eq.
  - rewrite lookup_insert_ne by done. set_solver.
Qed.

Lemma bucket_alter (bs : gmap Z (gset Z)) e s e' :
  default ∅ (alter (fun set => set ∖ {[s]}) e bs !! e') = default ∅ (bs !! e') ∖ (if decide (e' = e) then {[s]} else ∅).
Proof.
  case_decide as He.
  - subst. rewrite lookup_alter_eq. destruct (bs !! e); cbn; set_solver.
  - rewrite lookup_alter_ne by done. set_solver.
Qed.

Lemma int64_small z : - 2 ^ 63 <= z < 2 ^ 63 -> int64 z = Some z.
Proof.
  intros Hz. unfold int64, in_signed. change (64 - 1) with 63. rewrite (proj2 (Z.leb_le _ _)), (proj2 (Z.ltb_lt _ _)) by lia. done.
Qed.

(** A queue in which [s] was moved to the bucket of its new deadline. *)
Lemma holds_moved clock removed q q' m s d :
  holds clock removed q m -> 0 <= d -> clock <= d ->
  expiration_interval q' = interval -> next_expiration_time q' = next_expiration_time q ->
  session_to_timeout q' = <[s := tick_after interval d]> (session_to_timeout q) ->
  (forall e s', s' ∈ bucket q' e <-> (s' <> s /\ s' ∈ bucket q e) \/ (s' = s /\ e = tick_after interval d)) ->
  holds clock removed q' (<[s := d]> m).
Proof.
  intros [Hi Hpos Htick Hn Hin Hout Hold] Hd Hcd Hi' Hn' Hst Hb. pose proof (tick_after_mono _ _ Hcd).
  split; [done|by rewrite Hn'|by rewrite Hn'|by rewrite Hn'| | |].
  - intros s' d' Hl. rewrite Hb, Hst, Hn'. destruct (decide (s' = s)) as [->|Hx].
    + rewrite lookup_insert_eq in Hl |- *. injection Hl as <-. repeat split; [done|lia|]. by right.
    + rewrite lookup_insert_ne in Hl |- * by done. destruct (Hin s' d' Hl) as (?&?&?&?). repeat split; try done. by left.
  - intros e s'. rewrite Hb. intros [[Hx Hbk]|[-> ->]].
    + rewrite lookup_insert_ne by done. by apply Hout.
    + rewrite lookup_insert_eq. eauto.
  - intros s' e. rewrite Hst. destruct (decide (s' = s)) as [->|Hx]; [by rewrite !lookup_insert_eq|].
    rewrite !lookup_insert_ne by done. apply Hold.
Qed.

Lemma update_holds clock removed q m s timeout :
  0 <= clock -> 0 <= timeout -> clock + timeout <= horizon -> s ∉ removed -> holds clock removed q m ->
  exists q' b, update q s timeout clock = Some (q', b) /\ holds clock removed q' (<[s := clock + timeout]> m)
    /\ next_expiration_time q' = next_expiration_time q.
Proof.
  intros Hc Ht Hh Hs HH. pose proof HH as [Hi Hpos Htick Hn Hin Hout Hold]. unfold update.
  rewrite int64_small by lia. cbn [mbind option_bind]. rewrite Hi, round_tick by lia. cbn [mbind option_bind].
  pose proof (tick_after_bounds clock) as Hcb. pose proof (tick_after_mono clock (clock + timeout) ltac:(lia)) as Hce.
  set (e := tick_after interval (clock + timeout)) in *.
  destruct (session_to_timeout q !! s) as [prev|] eqn:Hprev; [destruct (decide (e = prev)) as [<-|Hne]|].
  - (* the tick is the same: the session is in its bucket already *)
    exists q, false. split; [done|]. split; [|done].
    destruct (m !! s) as [d|] eqn:Hm; [|specialize (Hold s e Hprev Hm Hs); lia].
    destruct (Hin s d Hm) as (Hd0 & Hnd & Hst & Hbk). rewrite Hprev in Hst. injection Hst as Hst.
    apply (holds_moved clock removed q); [done|lia|lia|done|done|by rewrite insert_id|].
    intros e' s'. fold e. split.
    + intros Hb. destruct (decide (s' = s)) as [->|]; [|by left]. right. split; [done|].
      destruct (Hout e' s Hb) as (d' & Hl & ->). congruence.
    + intros [[_ ?]|[-> ->]]; [done|]. by rewrite Hst.
  - eexists _, true. split; [done|]. split; [|done].
    apply (holds_moved clock removed q); [done|lia|lia|done|done|done|].
    intros e' s'. unfold bucket at 1. cbn [expiry_to_sessions]. rewrite bucket_alter, bucket_add. fold e.
    assert (Hprev' : forall e', s ∈ bucket q e' -> e' = prev).
    { intros e1 Hb. destruct (Hout _ _ Hb) as (d' & Hl & ->). destruct (Hin _ _ Hl) as (_&_&Hst&_). congruence. }
    destruct (decide (e' = prev)), (decide (e' = e)); subst; [done|..]; set_solver.
  - eexists _, false. split; [done|]. split; [|done].
    apply (holds_moved clock removed q); [done|lia|lia|done|done|done|].
    intros e' s'. unfold bucket at 1. cbn [expiry_to_sessions]. rewrite bucket_add. fold e.
    assert (Hno : forall e', s ∉ bucket q e').
    { intros e1 Hb. destruct (Hout _ _ Hb) as (d' & Hl & ->). destruct (Hin _ _ Hl) as (_&_&Hst&_). congruence. }
    destruct (decide (e' = e)); subst; set_solver.
Qed.

Lemma remove_holds clock removed q m s :
  holds clock removed q m ->
  holds clock ({[s]} ∪ removed) (remove q s).1 (delete s m) /\ next_expiration_time (remove q s).1 = next_expiration_time q.
Proof.
  intros HH. pose proof HH as [Hi Hpos Htick Hn Hin Hout Hold]. unfold remove.
  destruct (session_to_timeout q !! s) as [prev|] eqn:Hprev; cbn [fst]; (split; [|done]).
  - assert (Hb : forall e s', s' ∈ bucket (mk (session_to_timeout q) (alter (fun set => set ∖ {[s]}) prev (expiry_to_sessions q))
      (expiration_interval q) (next_expiration_time q)) e <-> s' ∈ bucket q e /\ s' <> s).
    { intros e s'. unfold bucket at 1. cbn [expiry_to_sessions]. rewrite bucket_alter. fold (bucket q e).
      assert (s ∈ bucket q e -> e = prev).
      { intros Hb. destruct (Hout _ _ Hb) as (d' & Hl & ->). destruct (Hin _ _ Hl) as (_&_&Hst&_). congruence. }
      destruct (decide (e = prev)); set_solver. }
    split; [done|done|done|done| | |].
    + intros s' d. rewrite lookup_delete_Some, Hb. intros [Hx Hl]. destruct (Hin _ _ Hl) as (?&?&?&?). done.
    + intros e s'. rewrite Hb. intros [Hbk Hx]. rewrite lookup_delete_ne by done. eauto.
    + intros s' e Hl. cbn in Hl. rewrite lookup_delete_None. intros [->|Hm] Hr; [set_solver|]. apply (Hold s' e); set_solver.
  - assert (Hm : m !! s = None).
    { destruct (m !! s) as [d|] eqn:Hm; [|done]. destruct (Hin _ _ Hm) as (_&_&?&_). congruence. }
    rewrite delete_id by done. split; try done. intros s' e H1 H2 H3. apply (Hold s' e); set_solver.
Qed.

Lemma tick_next time T : (interval | T) -> T <= time -> T + interval <= tick_after interval time.
Proof.
  intros [k ->] Hle. unfold tick_after. assert (k <= time / interval) by (apply Z.div_le_lower_bound; lia). nia.
Qed.

(** The queue after a tick, whose bucket is gone. *)
Lemma holds_ticked clock removed q q' m :
  holds clock removed q m -> next_expiration_time q <= clock ->
  expiration_interval q' = interval -> next_expiration_time q' = next_expiration_time q + interval ->
  session_to_timeout q' = session_to_timeout q ->
  (forall e, bucket q' e = if decide (e = next_expiration_time q) then ∅ else bucket q e) ->
  holds clock removed q' (filter (fun sd => next_expiration_time q <= sd.2) m).
Proof.
  intros [Hi Hpos Htick Hn Hin Hout Hold] Hle Hi' Hn' Hst Hb. split; rewrite ?Hn', ?Hst.
  - done.
  - lia.
  - apply Z.divide_add_r; [done|reflexivity].
  - by apply tick_next.
  - intros s d. rewrite map_lookup_filter_Some. cbn. intros [Hl Hd]. destruct (Hin s d Hl) as (H0 & H1 & H2 & H3).
    pose proof (tick_next d _ Htick Hd). rewrite Hb, decide_False by lia. done.
  - intros e s. rewrite Hb. case_decide as He; [set_solver|]. intros Hbk. destruct (Hout e s Hbk) as (d & Hl & ->).
    exists d. split; [|done]. apply map_lookup_filter_Some. split; [done|]. cbn.
    destruct (Hin s d Hl) as (_ & H1 & _). pose proof (tick_after_iff d _ Htick H1). destruct (Z.le_gt_cases (next_expiration_time q) d); [done|tauto].
  - intros s e Hl Hm Hr. destruct (m !! s) as [d|] eqn:Hms; [|by apply (Hold s)].
    destruct (Hin s d Hms) as (_ & H1 & H2 & _). rewrite Hl in H2. injection H2 as ->.
    apply map_lookup_filter_None in Hm. destruct Hm as [Hm|Hm]; [congruence|]. specialize (Hm d Hms). cbn in Hm.
    rewrite (proj2 (tick_after_iff d _ Htick H1)); lia.
Qed.

(** The bucket of a tick has exactly the sessions whose deadline has passed. *)
Lemma bucket_due clock removed q m :
  holds clock removed q m -> bucket q (next_expiration_time q) = dom (filter (fun sd => sd.2 < next_expiration_time q) m).
Proof.
  intros [Hi Hpos Htick Hn Hin Hout Hold]. apply set_eq. intros s. rewrite elem_of_dom. split.
  - intros Hb. destruct (Hout _ _ Hb) as (d & Hl & He). exists d. apply map_lookup_filter_Some. split; [done|]. cbn.
    apply (tick_after_iff d _ Htick); [lia|done].
  - intros [d Hd]. apply map_lookup_filter_Some in Hd as [Hl Hd]. cbn in Hd. destruct (Hin s d Hl) as (_ & H1 & _ & H3).
    by rewrite (proj2 (tick_after_iff d _ Htick H1) Hd) in H3.
Qed.

Lemma expire_holds clock removed q m :
  0 <= clock <= horizon -> holds clock removed q m -> next_expiration_time q <= clock ->
  exists q', getExpiredSessions q clock = Some (q', dom (filter (fun sd => sd.2 < next_expiration_time q) m))
    /\ holds clock removed q' (filter (fun sd => next_expiration_time q <= sd.2) m)
    /\ next_expiration_time q' = next_expiration_time q + interval.
Proof.
  intros Hc HH Hlt. rewrite <- (bucket_due _ _ _ _ HH). pose proof HH as [Hi Hpos Htick Hn Hin Hout Hold].
  unfold getExpiredSessions. rewrite (proj2 (Z.ltb_ge _ _)) by lia. rewrite Hi, int64_small by lia. cbn [mbind option_bind].
  destruct (expiry_to_sessions q !! next_expiration_time q) as [b|] eqn:Hb.
  - eexists. split; [unfold bucket; by rewrite Hb|]. split; [|done].
    apply (holds_ticked _ _ q); [done..|]. intros e. unfold bucket. cbn. case_decide as He.
    + subst. by rewrite lookup_delete_eq.
    + by rewrite lookup_delete_ne.
  - eexists. split; [unfold bucket; by rewrite Hb|]. split; [|done].
    apply (holds_ticked _ _ q); [done..|]. intros e. unfold bucket. cbn. case_decide as He; [|done].
    subst. by rewrite Hb.
Qed.

Lemma run_holds es clock removed q m :
  0 <= clock <= horizon -> holds clock removed q m -> sane horizon clock removed es ->
  exists q', queue_run q es = Some (q', deadline_run interval m (next_expiration_time q) es).
Proof.
  revert clock removed q m. induction es as [|[s timeout now|s|now] es IH]; intros clock removed q m Hc HH Hs; cbn [queue_run deadline_run sane] in *.
  - by exists q.
  - destruct Hs as (H1 & H2 & H3 & H4 & H5).
    destruct (update_holds now removed q m s timeout) as (q' & b & Hu & HH' & Hn); [lia|lia|lia|done|by apply (holds_later clock)|].
    rewrite Hu. cbn [mbind option_bind]. destruct (IH now removed q' _ ltac:(lia) HH' H5) as (q'' & Hr). rewrite Hr, Hn. by exists q''.
  - destruct (remove_holds clock removed q m s HH) as (HH' & Hn). cbn [mbind option_bind].
    destruct (IH clock _ _ _ Hc HH' Hs) as (q'' & Hr). rewrite Hr, Hn. by exists q''.
  - destruct Hs as (H1 & H2 & H3). apply (holds_later clock now) in HH; [|done].
    destruct (now <? next_expiration_time q) eqn:Hlt.
    + destruct (IH now removed q m ltac:(lia) HH H3) as (q'' & Hr). unfold getExpiredSessions. rewrite Hlt. cbn [mbind option_bind].
      rewrite Hr. by exists q''.
    + apply Z.ltb_ge in Hlt. destruct (expire_holds now removed q m ltac:(lia) HH Hlt) as (q' & He & HH' & Hn).
      rewrite He. cbn [mbind option_bind]. destruct (IH now removed q' _ ltac:(lia) HH' H3) as (q'' & Hr). rewrite Hr, Hn. by exists q''.
Qed.
End refinement.

(** An update is defined while times are far from their limit. *)
Lemma update_defined q s timeout now :
  0 < expiration_interval q -> 0 <= now + timeout -> now + timeout + expiration_interval q < 2 ^ 63 ->
  exists q' b, update q s timeout now = Some (q', b) /\ expiration_interval q' = expiration_interval q.
Proof.
  intros Hi H0 H1. unfold update. rewrite int64_small by lia. cbn [mbind option_bind].
  rewrite (round_tick (expiration_interval q) (now + timeout)) by lia. cbn [mbind option_bind].
  destruct (session_to_timeout q !! s); [case_decide|]; eauto.
Qed.

(** With a clock that does not go back, the queue of sessions never overflows and
    reports, at every tick, exactly the sessions whose deadline (the time of the last
    request plus the timeout) has passed and which were neither removed nor reported since:
    none early, none lost. *)
Lemma expired_sessions_exact (interval horizon start : Z) (es : list queue_event) :
  0 < interval -> 0 <= start <= horizon -> horizon + interval < 2 ^ 63 -> sane horizon start ∅ es ->
  exists q q', create interval start = Some q
    /\ queue_run q es = Some (q', deadline_run interval ∅ (tick_after interval start) es).
Proof.
  intros Hi Hs Hh Hes. unfold create. rewrite (round_tick interval horizon) by done. cbn [mbind option_bind].
  pose proof (tick_after_bounds interval Hi start) as Hb.
  destruct (run_holds interval horizon Hi Hh es start ∅ (mk ∅ ∅ interval (tick_after interval start)) ∅) as (q' & Hr); [done| |done|by eauto].
  split; cbn [expiration_interval next_expiration_time]; [done|lia|by apply Z.divide_factor_r|done|..].
  - by intros s d ?%lookup_empty_Some.
  - intros e s He. unfold bucket in He. cbn in He. rewrite lookup_empty in He. cbn in He. set_solver.
  - intros s e He. cbn in He. by rewrite lookup_empty in He.
Qed.

Lemma expired_sessions_exact_witness :
  exists q q', create 500 1000 = Some q
    /\ queue_run q [QUpdate 1 100 1000; QUpdate 2 700 1100; QExpire 1500; QUpdate 3 10 1600; QRemove 2; QExpire 2000]
       = Some (q', deadline_run 500 ∅ 1500 [QUpdate 1 100 1000; QUpdate 2 700 1100; QExpire 1500; QUpdate 3 10 1600; QRemove 2; QExpire 2000]).
Proof.
  apply (expired_sessions_exact 500 3000 1000 [QUpdate 1 100 1000; QUpdate 2 700 1100; QExpire 1500; QUpdate 3 10 1600; QRemove 2; QExpire 2000]);
    cbn; [lia..|]. repeat split; try lia; set_solver.
Defined.

(** A session that was removed and is heard of again within the same tick is not in the
    queue: the entry [remove] leaves behind makes [update] return early. *)
Lemma removed_session_not_queued :
  exists q1 q2 b, create 500 1000 = Some q1 /\ update q1 7 100 1000 = Some (q2, b)
    /\ let q3 := (remove q2 7).1 in
       update q3 7 0 1010 = Some (q3, false) /\ bucket q3 1500 = ∅.
Proof. eexists _, _, _. split; [vm_compute; reflexivity|]. split; [vm_compute; reflexivity|]. split; vm_compute; reflexivity. Qed.
