(* ===== verification/SnapshotTable.v ===== *)
(** * SnapshotTable: the table of nodes that can be read while it changes

    Models SnapshotableHashTable of src/src/Coordination/SnapshotableHashTable.h: a list of
    nodes and an index from a key to its node in the list.  An iterator of
    [std::list] stays valid while the list changes, so it is modelled as a number the
    node gets when it is put into the list ([next] is the first one not used).  The
    value at an iterator that is not in the list is undefined ([None]).

    The reference is the finite map of the keys that are active. *)

From S2P Require Import Prelude.

Module Table.
Section table.
Context {V : Type}.

Record ListNode : Type := mkNode { key : str; value : V; active_in_map : bool }.

Record t : Type := mk {
  tlist : list (nat * ListNode);
  tmap : gmap str nat;
  snapshot_mode : bool;
  next : nat
}.

Definition empty : t := mk [] ∅ false 0.

(** ** The list behind the iterators *)

Definition deref (l : list (nat * ListNode)) (it : nat) : option ListNode :=
  snd ∘ snd <$> list_find (fun e => e.1 = it) l.

Definition update_at (it : nat) (f : ListNode -> ListNode) (l : list (nat * ListNode)) : list (nat * ListNode) :=
  map (fun e => if decide (e.1 = it) then (e.1, f e.2) else e) l.

Definition erase_at (it : nat) (l : list (nat * ListNode)) : list (nat * ListNode) := filter (fun e => e.1 <> it) l.

Definition deactivate (n : ListNode) : ListNode := mkNode (key n) (value n) false.
Definition set_value (f : V -> V) (n : ListNode) : ListNode := mkNode (key n) (f (value n)) (active_in_map n).

(** [list.insert(list.end(), elem)] and [map.emplace]. *)
Definition push (tb : t) (l : list (nat * ListNode)) (m : gmap str nat) (k : str) (v : V) : t :=
  mk (l ++ [(next tb, mkNode k v true)]) (<[k := next tb]> m) (snapshot_mode tb) (S (next tb)).

(** ** Operations *)

Definition insert (tb : t) (k : str) (v : V) : t * bool :=
  match tmap tb !! k with
  | None => (push tb (tlist tb) (tmap tb) k v, true)
  | Some _ => (tb, false)
  end.

Definition insertOrReplace (tb : t) (k : str) (v : V) : t :=
  match tmap tb !! k with
  | None => push tb (tlist tb) (tmap tb) k v
  | Some it =>
      if snapshot_mode tb
      then push tb (update_at it deactivate (tlist tb)) (delete k (tmap tb)) k v
      else mk (update_at it (set_value (fun _ => v)) (tlist tb)) (tmap tb) (snapshot_mode tb) (next tb)
  end.

Definition erase (tb : t) (k : str) : t * bool :=
  match tmap tb !! k with
  | None => (tb, false)
  | Some it =>
      if snapshot_mode tb
      then (mk (update_at it deactivate (tlist tb)) (delete k (tmap tb)) (snapshot_mode tb) (next tb), true)
      else (mk (erase_at it (tlist tb)) (delete k (tmap tb)) (snapshot_mode tb) (next tb), true)
  end.

Definition contains (tb : t) (k : str) : bool := bool_decide (is_Some (tmap tb !! k)).

(** The iterator of the new element is the result; [assert(it != map.end())]. *)
Definition updateValue (tb : t) (k : str) (updater : V -> V) : option (t * nat) :=
  it ← tmap tb !! k;
  if snapshot_mode tb then
    elem ← deref (tlist tb) it;
    let elem_copy := set_value updater elem in
    let l := update_at it deactivate (tlist tb) in
    Some (mk (l ++ [(next tb, elem_copy)]) (<[key elem_copy := next tb]> (delete k (tmap tb))) (snapshot_mode tb) (S (next tb)), next tb)
  else Some (mk (update_at it (set_value updater) (tlist tb)) (tmap tb) (snapshot_mode tb) (next tb), it).

(** [find]; [None] is [end()]. *)
Definition find (tb : t) (k : str) : option ListNode := tmap tb !! k ≫= deref (tlist tb).

Definition getValue (tb : t) (k : str) : option V := value <$> find tb k.

Definition clearOutdatedNodes (tb : t) : t :=
  mk (filter (fun e => active_in_map e.2 = true) (tlist tb)) (tmap tb) (snapshot_mode tb) (next tb).

Definition clear (tb : t) : t := mk [] ∅ (snapshot_mode tb) (next tb).

Definition enableSnapshotMode (tb : t) : t := mk (tlist tb) (tmap tb) true (next tb).
Definition disableSnapshotMode (tb : t) : t := mk (tlist tb) (tmap tb) false (next tb).

Definition size (tb : t) : nat := base.size (tmap tb).
Definition snapshotSize (tb : t) : nat := length (tlist tb).

(** What an iteration over the first [n] elements sees. *)
Definition iterate (tb : t) (n : nat) : list (str * V) := map (fun e => (key e.2, value e.2)) (take n (tlist tb)).

(** ** The reference *)

(** The table holds the map [m]. *)
Record represents (tb : t) (m : gmap str V) : Prop := {
  r_ids : NoDup (tlist tb).*1;
  r_fresh : forall it n, (it, n) ∈ tlist tb -> (it < next tb)%nat;
  r_index : forall k it, tmap tb !! k = Some it -> exists v, (it, mkNode k v true) ∈ tlist tb /\ m !! k = Some v;
  r_active : forall it n, (it, n) ∈ tlist tb -> active_in_map n = true -> tmap tb !! key n = Some it;
  r_dom : forall k, is_Some (m !! k) -> is_Some (tmap tb !! k)
}.

(** Every node is reachable from the index. *)
Definition clean (tb : t) : Prop := Forall (fun e => active_in_map e.2 = true) (tlist tb).

Inductive op : Type :=
| OInsert (k : str) (v : V)
| OInsertOrReplace (k : str) (v : V)
| OErase (k : str)
| OUpdate (k : str) (updater : V -> V).

Definition run_op (tb : t) (o : op) : option t :=
  match o with
  | OInsert k v => Some (insert tb k v).1
  | OInsertOrReplace k v => Some (insertOrReplace tb k v)
  | OErase k => Some (erase tb k).1
  | OUpdate k updater => fst <$> updateValue tb k updater
  end.

Definition map_op (m : gmap str V) (o : op) : option (gmap str V) :=
  match o with
  | OInsert k v => Some (if decide (is_Some (m !! k)) then m else <[k := v]> m)
  | OInsertOrReplace k v => Some (<[k := v]> m)
  | OErase k => Some (delete k m)
  | OUpdate k updater => v ← m !! k; Some (<[k := updater v]> m)
  end.

Fixpoint run_ops {S} (step : S -> op -> option S) (s : S) (os : list op) : option S :=
  match os with
  | [] => Some s
  | o :: os => s ← step s o; run_ops step s os
  end.

(** ** Lemmas on the list *)

Lemma elem_update_at it f l i n :
  (i, n) ∈ update_at it f l <-> exists n0, (i, n0) ∈ l /\ n = if decide (i = it) then f n0 else n0.
Proof.
  unfold update_at. rewrite list_elem_of_fmap. split.
  - intros ([i0 n0] & He & Hl). cbn in He. exists n0. case_decide; injection He as -> ->; (split; [done|]); by case_decide.
  - intros (n0 & Hl & ->). exists (i, n0). cbn. case_decide; auto.
Qed.

Lemma update_at_ids it f l : (update_at it f l).*1 = l.*1.
Proof. unfold update_at. rewrite <- list_fmap_compose. apply list_fmap_ext. intros i [i0 n] _. cbn. by case_decide. Qed.

Lemma elem_erase_at it l i n : (i, n) ∈ erase_at it l <-> i <> it /\ (i, n) ∈ l.
Proof. unfold erase_at. by rewrite list_elem_of_filter. Qed.

Lemma filter_ids (P : nat * ListNode -> Prop) `{!forall e, Decision (P e)} l : NoDup l.*1 -> NoDup (filter P l).*1.
Proof.
  induction l as [|e l IH]; [done|]. rewrite fmap_cons, NoDup_cons. intros [Hn Hl]. rewrite filter_cons.
  case_decide; [|by apply IH]. rewrite fmap_cons. apply NoDup_cons. split; [|by apply IH].
  rewrite list_elem_of_fmap. intros (e' & He & Hf). apply list_elem_of_filter in Hf as [_ Hf]. apply Hn.
  rewrite He. by apply list_elem_of_fmap_2.
Qed.

Lemma ids_inj (l : list (nat * ListNode)) i n n' : NoDup l.*1 -> (i, n) ∈ l -> (i, n') ∈ l -> n = n'.
Proof.
  induction l as [|e l IH]; cbn; [by intros _ ?%not_elem_of_nil|]. rewrite NoDup_cons. intros [Hn Hl].
  rewrite !elem_of_cons. intros [<-|H1] [H2|H2].
  - by injection H2.
  - destruct Hn. by apply (list_elem_of_fmap_2 fst) in H2.
  - subst e. destruct Hn. by apply (list_elem_of_fmap_2 fst) in H1.
  - by apply IH.
Qed.

Lemma deref_elem l it n : NoDup l.*1 -> deref l it = Some n <-> (it, n) ∈ l.
Proof.
  intros Hd. unfold deref. rewrite fmap_Some. split.
  - intros ([i [it' n']] & Hf & ->). apply list_find_Some in Hf as (Hl & He & _). cbn in *. subst. by eapply list_elem_of_lookup_2.
  - intros Hl. destruct (list_find_elem_of (fun e => e.1 = it) l (it, n)) as [[i [it' n']] Hf]; [done|done|].
    exists (i, (it', n')). split; [done|]. apply list_find_Some in Hf as (Hl' & He & _). cbn in *. subst.
    apply (ids_inj l it); [done|done|]. by eapply list_elem_of_lookup_2.
Qed.

(** ** The operations implement those of the map *)

Lemma find_spec tb m k : represents tb m -> getValue tb k = m !! k /\ contains tb k = bool_decide (is_Some (m !! k)).
Proof.
  intros [Hi Hf Hx Ha Hd]. unfold getValue, find, contains. destruct (tmap tb !! k) as [it|] eqn:Hk; cbn.
  - destruct (Hx k it Hk) as (v & Hl & Hm). rewrite (proj2 (deref_elem _ _ _ Hi) Hl), Hm. done.
  - destruct (m !! k) as [v|] eqn:Hm; [|done]. destruct (Hd k) as [it Hit]; [by eexists|]. congruence.
Qed.

Lemma push_represents tb m k v :
  represents tb m -> tmap tb !! k = None -> represents (push tb (tlist tb) (tmap tb) k v) (<[k := v]> m).
Proof.
  intros [Hi Hf Hx Ha Hd] Hk. split; cbn [push tlist tmap next].
  - rewrite fmap_app. apply NoDup_app. repeat split; [done| |by apply NoDup_singleton].
    intros it (e & He1 & He)%list_elem_of_fmap H1%list_elem_of_singleton. destruct e as [it' n]. specialize (Hf it' n He). cbn in *. lia.
  - intros it n [H|[=-> ->]%list_elem_of_singleton]%elem_of_app; [specialize (Hf it n H)|]; lia.
  - intros k' it. destruct (decide (k' = k)) as [->|Hne].
    + rewrite !lookup_insert_eq. intros [= <-]. exists v. split; [|done]. apply elem_of_app. right. by apply list_elem_of_singleton.
    + rewrite !lookup_insert_ne by done. intros Hl. destruct (Hx k' it Hl) as (v' & ? & ?). exists v'. split; [|done]. apply elem_of_app. by left.
  - intros it n [H|[=-> ->]%list_elem_of_singleton]%elem_of_app Hact.
    + specialize (Ha it n H Hact). rewrite lookup_insert_ne by congruence. done.
    + cbn. by rewrite lookup_insert_eq.
  - intros k'. destruct (decide (k' = k)) as [->|Hne]; [by rewrite !lookup_insert_eq|]. rewrite !lookup_insert_ne by done. apply Hd.
Qed.

(** Taking the node of [k] out of the index, and out of the list or not. *)
Lemma drop_represents tb m k it l :
  represents tb m -> tmap tb !! k = Some it -> NoDup l.*1 ->
  (forall i n, (i, n) ∈ l -> (exists n0, (i, n0) ∈ tlist tb /\ (n = n0 \/ n = deactivate n0)) /\ (i = it -> active_in_map n = false)) ->
  (forall i n, (i, n) ∈ tlist tb -> i <> it -> (i, n) ∈ l) ->
  represents (mk l (delete k (tmap tb)) (snapshot_mode tb) (next tb)) (delete k m).
Proof.
  intros [Hi Hf Hx Ha Hd] Hk Hid Hold Hkeep. destruct (Hx k it Hk) as (v & Hl & Hm). split; cbn [tlist tmap next].
  - done.
  - intros i n H. destruct (Hold i n H) as [(n0 & H0 & _) _]. by apply (Hf i n0).
  - intros k' i [Hne Hl']%lookup_delete_Some. destruct (Hx k' i Hl') as (v' & He & Hv').
    exists v'. rewrite lookup_delete_ne by done. split; [|done]. apply Hkeep; [done|]. intros ->.
    pose proof (ids_inj _ _ _ _ Hi Hl He) as H. injection H as H _. done.
  - intros i n H Hact. destruct (Hold i n H) as [(n0 & H0 & Hn) Hne].
    destruct Hn as [->| ->]; [|done]. specialize (Ha i n0 H0 Hact). rewrite lookup_delete_Some. split; [|done].
    intros Hk0. rewrite <- Hk0, Hk in Ha. injection Ha as ->. by rewrite Hne in Hact.
  - intros k'. destruct (decide (k' = k)) as [->|Hne]; [rewrite lookup_delete_eq; by intros [? ?]|].
    rewrite !lookup_delete_ne by done. apply Hd.
Qed.

Lemma deactivate_represents tb m k it :
  represents tb m -> tmap tb !! k = Some it ->
  represents (mk (update_at it deactivate (tlist tb)) (delete k (tmap tb)) (snapshot_mode tb) (next tb)) (delete k m).
Proof.
  intros HR Hk. apply (drop_represents _ _ _ it); [done|done|rewrite update_at_ids; by apply (r_ids _ _ HR)| |].
  - intros i n (n0 & Hl & ->)%elem_update_at. split; [exists n0; split; [done|]; case_decide; auto|]. intros ->. by rewrite decide_True.
  - intros i n Hl Hne. apply elem_update_at. exists n. by rewrite decide_False.
Qed.

Lemma move_represents tb m k it v :
  represents tb m -> tmap tb !! k = Some it ->
  represents (push tb (update_at it deactivate (tlist tb)) (delete k (tmap tb)) k v) (<[k := v]> m).
Proof.
  intros HR Hk. pose proof (push_represents _ _ k v (deactivate_represents tb m k it HR Hk)) as HP.
  rewrite insert_delete_eq in HP. apply HP. apply lookup_delete_eq.
Qed.

Lemma erase_at_represents tb m k it :
  represents tb m -> tmap tb !! k = Some it ->
  represents (mk (erase_at it (tlist tb)) (delete k (tmap tb)) (snapshot_mode tb) (next tb)) (delete k m).
Proof.
  intros HR Hk. apply (drop_represents _ _ _ it); [done|done|apply filter_ids; by apply (r_ids _ _ HR)| |].
  - intros i n [Hne Hl]%elem_erase_at. split; [by eauto|done].
  - intros i n Hl Hne. by apply elem_erase_at.
Qed.

Lemma set_value_represents tb m k it f v :
  represents tb m -> tmap tb !! k = Some it -> m !! k = Some v ->
  represents (mk (update_at it (set_value f) (tlist tb)) (tmap tb) (snapshot_mode tb) (next tb)) (<[k := f v]> m).
Proof.
  intros [Hi Hf Hx Ha Hd] Hk Hv. destruct (Hx k it Hk) as (v1 & Hl & Hm). rewrite Hv in Hm. injection Hm as <-.
  split; cbn [tlist tmap next].
  - by rewrite update_at_ids.
  - intros i n (n0 & H0 & _)%elem_update_at. by apply (Hf i n0).
  - intros k' i Hk'. destruct (decide (k' = k)) as [->|Hne].
    + rewrite Hk in Hk'. injection Hk' as <-. exists (f v). rewrite lookup_insert_eq. split; [|done].
      apply elem_update_at. exists (mkNode k v true). by rewrite decide_True.
    + destruct (Hx k' i Hk') as (v' & He & Hv'). exists v'. rewrite lookup_insert_ne by done. split; [|done].
      apply elem_update_at. exists (mkNode k' v' true). split; [done|]. rewrite decide_False; [done|]. intros ->.
      pose proof (ids_inj _ _ _ _ Hi Hl He) as H. injection H as H _. done.
  - intros i n (n0 & H0 & ->)%elem_update_at Hact. case_decide as Hit; [|by apply Ha]. cbn in *. by apply Ha.
  - intros k'. destruct (decide (k' = k)) as [->|Hne]; [intros _; by eexists|]. rewrite lookup_insert_ne by done. apply Hd.
Qed.

Lemma run_op_represents tb m o :
  represents tb m ->
  match run_op tb o with
  | Some tb' => exists m', map_op m o = Some m' /\ represents tb' m'
  | None => map_op m o = None
  end.
Proof.
  intros HR. pose proof HR as [Hi Hf Hx Ha Hd]. destruct o as [k v|k v|k|k f]; cbn [run_op map_op].
  - eexists. split; [done|]. unfold insert. destruct (tmap tb !! k) as [it|] eqn:Hk; cbn [fst].
    + destruct (Hx k it Hk) as (v' & _ & Hm). rewrite Hm, decide_True; [done|by eexists].
    + rewrite decide_False by (intros [it ?]%Hd; congruence). by apply push_represents.
  - eexists. split; [done|]. unfold insertOrReplace. destruct (tmap tb !! k) as [it|] eqn:Hk; [|by apply push_represents].
    destruct (Hx k it Hk) as (v' & _ & Hm). destruct (snapshot_mode tb) eqn:Hs.
    + by apply move_represents.
    + rewrite <- Hs. by apply (set_value_represents _ _ _ _ (fun _ => v) v').
  - eexists. split; [done|]. unfold erase. destruct (tmap tb !! k) as [it|] eqn:Hk; cbn [fst].
    + destruct (snapshot_mode tb) eqn:Hs; rewrite <- Hs; [by apply deactivate_represents|by apply erase_at_represents].
    + rewrite delete_id; [done|]. destruct (m !! k) as [v|] eqn:Hm; [|done]. destruct (Hd k) as [it ?]; [by eexists|congruence].
  - unfold updateValue. destruct (tmap tb !! k) as [it|] eqn:Hk; cbn [mbind option_bind fmap option_fmap option_map].
    + destruct (Hx k it Hk) as (v & Hl & Hm). rewrite Hm. cbn [mbind option_bind]. destruct (snapshot_mode tb) eqn:Hs.
      * rewrite (proj2 (deref_elem _ _ _ Hi) Hl). cbn. eexists. split; [done|].
        pose proof (move_represents tb m k it (f v) HR Hk) as HP. unfold push in HP. by rewrite Hs in HP.
      * cbn. eexists. split; [done|]. rewrite <- Hs. by apply (set_value_represents _ _ _ _ f v).
    + destruct (m !! k) as [v|] eqn:Hm; [|done]. destruct (Hd k) as [it ?]; [by eexists|congruence].
Qed.

(** ** A snapshot is not changed by what runs beside it *)

Lemma map_take_update it (f : ListNode -> ListNode) n l :
  (forall x, key (f x) = key x /\ value (f x) = value x) ->
  map (fun e => (key e.2, value e.2)) (take n (update_at it f l)) = map (fun e => (key e.2, value e.2)) (take n l).
Proof.
  intros Hf. unfold update_at. rewrite <- fmap_take. rewrite <- list_fmap_compose. apply list_fmap_ext. intros i [i0 x] _. cbn.
  case_decide; [|done]. cbn. destruct (Hf x) as [-> ->]. done.
Qed.

Lemma update_at_length it f l : length (update_at it f l) = length l.
Proof. apply length_map. Qed.

Lemma iterate_keeps tb it l e m b i n :
  (n <= snapshotSize tb)%nat -> l = update_at it deactivate (tlist tb) \/ l = tlist tb ->
  iterate (mk (l ++ e) m b i) n = iterate tb n /\ (snapshotSize tb <= snapshotSize (mk (l ++ e) m b i))%nat.
Proof.
  unfold iterate, snapshotSize. cbn [tlist]. intros Hn Hl.
  assert (length l = length (tlist tb)) as Hlen by (destruct Hl as [->| ->]; [apply update_at_length|done]).
  rewrite take_app_le, length_app by lia. split; [|lia]. destruct Hl as [->| ->]; [|done]. by apply map_take_update.
Qed.

Lemma run_op_iterate tb o tb' n :
  snapshot_mode tb = true -> (n <= snapshotSize tb)%nat -> run_op tb o = Some tb' ->
  snapshot_mode tb' = true /\ iterate tb' n = iterate tb n /\ (n <= snapshotSize tb')%nat.
Proof.
  intros Hs Hn. destruct o as [k v|k v|k|k f]; cbn [run_op]; unfold insert, insertOrReplace, erase, updateValue; rewrite ?Hs;
    destruct (tmap tb !! k) as [it|]; cbn [mbind option_bind fmap option_fmap option_map fst]; try (intros [= <-]); try done.
  - destruct (iterate_keeps tb 0 (tlist tb) [(next tb, mkNode k v true)] (<[k := next tb]> (tmap tb)) (snapshot_mode tb) (S (next tb)) n Hn) as [H1 H2]; [by right|].
    repeat split; [done|done|exact (Nat.le_trans _ _ _ Hn H2)].
  - edestruct (iterate_keeps tb it) as [H1 H2]; [exact Hn|by left|]. repeat split; [done|exact H1|exact (Nat.le_trans _ _ _ Hn H2)].
  - edestruct (iterate_keeps tb 0) as [H1 H2]; [exact Hn|by right|]. repeat split; [done|exact H1|exact (Nat.le_trans _ _ _ Hn H2)].
  - destruct (iterate_keeps tb it (update_at it deactivate (tlist tb)) [] (delete k (tmap tb)) true (next tb) n Hn) as [H1 H2]; [by left|].
    rewrite app_nil_r in H1. rewrite app_nil_r in H2. repeat split; [exact H1|exact (Nat.le_trans _ _ _ Hn H2)].
  - destruct (deref (tlist tb) it) as [elem|]; cbn; [|done]. intros [= <-].
    edestruct (iterate_keeps tb it) as [H1 H2]; [exact Hn|by left|]. repeat split; [exact H1|exact (Nat.le_trans _ _ _ Hn H2)].
Qed.

Lemma run_ops_represents os tb m :
  represents tb m ->
  match run_ops run_op tb os with
  | Some tb' => exists m', run_ops map_op m os = Some m' /\ represents tb' m'
  | None => run_ops map_op m os = None
  end.
Proof.
  revert tb m. induction os as [|o os IH]; intros tb m HR; cbn [run_ops]; [by exists m|].
  pose proof (run_op_represents tb m o HR) as Ho. destruct (run_op tb o) as [tb'|]; cbn [mbind option_bind]; [|by rewrite Ho].
  destruct Ho as (m' & -> & HR'). cbn [mbind option_bind]. by apply IH.
Qed.

Lemma run_ops_iterate os tb tb' n :
  snapshot_mode tb = true -> (n <= snapshotSize tb)%nat -> run_ops run_op tb os = Some tb' ->
  iterate tb' n = iterate tb n /\ (n <= snapshotSize tb')%nat.
Proof.
  revert tb. induction os as [|o os IH]; intros tb Hs Hn; cbn [run_ops]; [by intros [= <-]|].
  destruct (run_op tb o) as [tb1|] eqn:Ho; [|done]. cbn [mbind option_bind]. intros Hr.
  destruct (run_op_iterate tb o tb1 n Hs Hn Ho) as (Hs1 & <- & Hn1). by apply IH.
Qed.

(** A clean table lists exactly the map it holds. *)
Lemma clean_iterate tb m :
  represents tb m -> clean tb -> NoDup (iterate tb (snapshotSize tb)).*1 /\ list_to_map (iterate tb (snapshotSize tb)) = m.
Proof.
  intros [Hi Hf Hx Ha Hd] Hc. unfold clean in Hc. rewrite Forall_forall in Hc. unfold iterate, snapshotSize. rewrite take_ge by done.
  assert (Hnd : NoDup (map (fun e => (key e.2, value e.2)) (tlist tb)).*1).
  { rewrite <- list_fmap_compose. cbn. assert (Hsub : forall e, e ∈ tlist tb -> tmap tb !! key e.2 = Some e.1).
    { intros [i n] He. apply Ha; [done|]. by apply (Hc _ He). }
    clear -Hi Hsub. induction (tlist tb) as [|e l IH]; [constructor|]. cbn in *. apply NoDup_cons in Hi as [Hn Hi]. constructor.
    - intros (e' & Hk & He')%list_elem_of_fmap. apply Hn. cbn in Hk.
      pose proof (Hsub e (list_elem_of_here _ _)) as H1. rewrite Hk, (Hsub e') in H1 by (by apply list_elem_of_further). injection H1 as <-. by apply list_elem_of_fmap_2.
    - apply IH; [done|]. intros e' He'. apply Hsub. by apply list_elem_of_further. }
  split; [done|]. apply map_eq. intros k. apply option_eq. intros v. rewrite <- elem_of_list_to_map by done.
  rewrite list_elem_of_fmap. split.
  - intros ([it n] & [= -> ->] & He). cbn. specialize (Ha it n He (Hc _ He)). destruct (Hx _ _ Ha) as (v & Hl & Hm).
    by rewrite (ids_inj _ _ _ _ Hi He Hl) at 2.
  - intros Hm. destruct (Hd k) as [it Hit]; [by eexists|]. destruct (Hx k it Hit) as (v' & Hl & Hm'). rewrite Hm in Hm'. injection Hm' as <-.
    by exists (it, mkNode k v true).
Qed.

Lemma clear_represents tb m : represents tb m -> represents (clearOutdatedNodes tb) m /\ clean (clearOutdatedNodes tb).
Proof.
  intros [Hi Hf Hx Ha Hd]. split; [split; cbn [clearOutdatedNodes tlist tmap next]|].
  - by apply filter_ids.
  - intros it n [_ H]%list_elem_of_filter. by apply (Hf it n).
  - intros k it Hk. destruct (Hx k it Hk) as (v & Hl & Hm). exists v. split; [|done]. by apply list_elem_of_filter.
  - intros it n [_ H]%list_elem_of_filter. by apply Ha.
  - done.
  - apply Forall_forall. intros e [He _]%list_elem_of_filter. done.
Qed.

Lemma mode_represents tb m b : represents tb m -> represents (mk (tlist tb) (tmap tb) b (next tb)) m.
Proof. by intros []. Qed.

End table.
Arguments ListNode : clear implicits.
Arguments t : clear implicits.
End Table.

Import Table.

(** A snapshot of the table is isolated: when snapshot mode is turned on for a table without
    outdated nodes, then whatever operations run, the first nodes of the list, as many as
    there were, keep listing exactly the map of that moment, each key once; the table
    itself behaves as the map with the operations, and after the garbage is cleared it
    has no outdated nodes again. *)
Lemma snapshot_isolation {V} (tb : t V) (m : gmap str V) (os : list op) :
  represents tb m -> clean tb ->
  match run_ops run_op (enableSnapshotMode tb) os with
  | Some tb' =>
      (iterate tb' (snapshotSize tb)) = iterate tb (snapshotSize tb)
      /\ NoDup (iterate tb' (snapshotSize tb)).*1 /\ list_to_map (iterate tb' (snapshotSize tb)) = m
      /\ exists m', run_ops map_op m os = Some m' /\ represents tb' m'
         /\ represents (clearOutdatedNodes (disableSnapshotMode tb')) m' /\ clean (clearOutdatedNodes (disableSnapshotMode tb'))
  | None => run_ops map_op m os = None
  end.
Proof.
  intros HR Hc. pose proof (run_ops_represents os _ _ (mode_represents tb m true HR)) as Ho.
  change (mk (tlist tb) (tmap tb) true (next tb)) with (enableSnapshotMode tb) in Ho.
  destruct (run_ops run_op (enableSnapshotMode tb) os) as [tb'|] eqn:Hr; [|done]. destruct Ho as (m' & Hm & HR').
  destruct (run_ops_iterate os (enableSnapshotMode tb) tb' (snapshotSize tb)) as [Hit _]; [done|done|done|].
  change (iterate (enableSnapshotMode tb) _) with (iterate tb (snapshotSize tb)) in Hit. rewrite Hit.
  destruct (clean_iterate tb m HR Hc) as [Hnd Hl]. split; [done|]. split; [done|]. split; [done|].
  exists m'. split; [done|]. split; [done|]. apply clear_represents. by apply (mode_represents _ _ false).
Qed.

Definition example_table : t nat := (insert (insert empty (lit "/") 1).1 (lit "/a") 2).1.

Lemma snapshot_isolation_witness :
  match run_ops run_op (enableSnapshotMode example_table) [OErase (lit "/a"); OUpdate (lit "/") S; OInsert (lit "/b") 7] with
  | Some tb' => list_to_map (iterate tb' 2) = ({[lit "/" := 1; lit "/a" := 2]} : gmap str nat) /\ getValue tb' (lit "/") = Some 2
  | None => False
  end.
Proof.
  assert (HR : represents example_table {[lit "/" := 1; lit "/a" := 2]}).
  { pose proof (run_ops_represents [OInsert (lit "/") 1; OInsert (lit "/a") 2] empty ∅) as H.
    destruct H as (m' & Hm & HR); [split; cbn; [constructor|by intros ? ? ?%not_elem_of_nil|done|by intros ? ? ?%not_elem_of_nil|by intros k [? ?]]|].
    vm_compute in Hm. injection Hm as <-. exact HR. }
  assert (Hc : clean example_table) by (repeat constructor).
  pose proof (snapshot_isolation example_table _ [OErase (lit "/a"); OUpdate (lit "/") S; OInsert (lit "/b") 7] HR Hc) as H.
  destruct (run_ops run_op (enableSnapshotMode example_table) _) as [tb'|] eqn:Hr; [|by vm_compute in Hr].
  destruct H as (_ & _ & H & _). split; [exact H|]. vm_compute in Hr. injection Hr as <-. reflexivity.
Defined.

(** The mode is one flag: when a second snapshot turns it off, the next change is
    made in place and seen by the first. *)
Lemma second_snapshot_ends_isolation :
  let tb := enableSnapshotMode example_table in
  iterate tb 2 = [(lit "/", 1); (lit "/a", 2)]
  /\ exists tb', run_op (disableSnapshotMode tb) (OUpdate (lit "/") S) = Some tb' /\ iterate tb' 2 = [(lit "/", 2); (lit "/a", 2)].
Proof. split; [reflexivity|]. eexists. split; vm_compute; reflexivity. Qed.

(** Without clearing, a node erased during a snapshot is listed by the next one. *)
Lemma outdated_node_listed :
  exists tb', run_op (enableSnapshotMode example_table) (OErase (lit "/a")) = Some tb'
    /\ contains (disableSnapshotMode tb') (lit "/a") = false
    /\ iterate (disableSnapshotMode tb') (snapshotSize (disableSnapshotMode tb')) = [(lit "/", 1); (lit "/a", 2)].
Proof. eexists. split; [reflexivity|]. split; vm_compute; reflexivity. Qed.
