(* ===== verification/KeeperStorage.v ===== *)
(** * KeeperStorage: the tree of nodes of the coordination service

    Models src/src/Coordination/KeeperStorage.{h,cpp}: the nodes, the ephemeral nodes and
    watches of sessions, the handlers of the requests with their undo actions, and
    processRequest, which runs a request that was committed.

    The container is the map it represents (see [SnapshotTable]) with its mode.  An undo action,
    a closure over the container and the ephemerals, is the data it captures.  Signed
    overflow, an iterator to nothing and a failed [assert] are [None].  The clocks a
    request reads and the order in which an unordered set is walked are arguments,
    the [environment] of a request. *)

From S2P Require Import Prelude TextFormat WalRecord Wire ZooKeeper SessionQueue.

Local Open Scope Z_scope.

Module Storage.

Record Node : Type := mkNode {
  data : str; acls : list ACL; is_sequental : bool; stat : Stat; seq_num : Z; children : gset str
}.

Abbreviation Container := (gmap str Node).
Abbreviation Ephemerals := (gmap Z (gset str)).
Abbreviation Watches := (gmap str (list Z)).

Record environment : Type := mkEnv {
  now_ms : Z;
  op_now_ms : nat -> Z;
  set_order : gset str -> list str
}.

Definition new_node : Node := mkNode [] [] false zero_stat 0 ∅.

(** ** Paths *)

Fixpoint rfind (c : ascii) (s : str) : option nat :=
  match s with
  | [] => None
  | x :: s => match rfind c s with Some i => Some (S i) | None => if decide (x = c) then Some 0%nat else None end
  end.

Definition slash : ascii := "/"%char.
Definition root : str := [slash].

(** [npos] is greater than 0, and [substr(0, npos)] is the whole string. *)
Definition parentPath (path : str) : str :=
  match rfind slash path with
  | Some O => root
  | Some pos => take pos path
  | None => path
  end.

(** [npos + 1] is 0. *)
Definition getBaseName (path : str) : str :=
  match rfind slash path with
  | Some pos => drop (S pos) path
  | None => path
  end.

(** [std::setw(10) << std::setfill('0')] *)
Definition seq_suffix (seq_num : Z) : str :=
  let text := writeIntText seq_num in replicate (10 - length text) "0"%char ++ text.

(** ** The container *)

Definition int32 (z : Z) : option Z := if in_signed 32 z then Some z else None.

Definition updateValue (c : Container) (path : str) (updater : Node -> option Node) : option Container :=
  n ← c !! path; n' ← updater n; Some (<[path := n']> c).

(** [container.insert] does nothing when the key is there. *)
Definition container_insert (c : Container) (path : str) (n : Node) : Container :=
  if decide (is_Some (c !! path)) then c else <[path := n]> c.

Definition with_counts (s : Stat) (cv num : Z) : Stat :=
  mkStat (czxid s) (mzxid s) (ctime s) (mtime s) (st_version s) cv (aversion s) (ephemeralOwner s) (dataLength s) num (pzxid s).

(** The changes to a parent: [seq_num], [cversion], [numChildren] and the names of the children. *)
Definition adjust (dseq dcversion dnum : Z) (f : gset str -> gset str) (parent : Node) : option Node :=
  seq ← int32 (seq_num parent + dseq);
  cv ← int32 (cversion (stat parent) + dcversion);
  num ← int32 (numChildren (stat parent) + dnum);
  Some (mkNode (data parent) (acls parent) (is_sequental parent) (with_counts (stat parent) cv num) seq (f (children parent))).

Definition add_name (name : str) (s : gset str) : gset str := s ∪ {[name]}.
Definition erase_name (name : str) (s : gset str) : gset str := s ∖ {[name]}.

(** ** Ephemerals *)

(** [ephemerals[session].emplace(path)] and [ephemerals[session].erase(path)] *)
Definition eph_emplace (e : Ephemerals) (session : Z) (path : str) : Ephemerals :=
  <[session := default ∅ (e !! session) ∪ {[path]}]> e.
Definition eph_erase (e : Ephemerals) (session : Z) (path : str) : Ephemerals :=
  <[session := default ∅ (e !! session) ∖ {[path]}]> e.

(** [find], [erase], and [erase] of the entry when it is empty. *)
Definition eph_remove (e : Ephemerals) (session : Z) (path : str) : option Ephemerals :=
  match e !! session with
  | None => None
  | Some paths =>
      let paths : gset str := paths ∖ {[path]} in
      Some (if decide (paths = ∅) then delete session e else <[session := paths]> e)
  end.

(** ** Undo actions *)

Inductive Undo : Type :=
| UndoCreate (path_created : str) (session_id : Z) (is_ephemeral : bool) (parent_path child_path : str)
| UndoRemove (path : str) (prev_node : Node) (child_basename : str)
| UndoSet (path : str) (prev_node : Node).

Definition run_undo (u : Undo) (c : Container) (e : Ephemerals) : option (Container * Ephemerals) :=
  match u with
  | UndoCreate path_created session_id is_ephemeral parent_path child_path =>
      let c := delete path_created c in
      let e := if is_ephemeral then eph_erase e session_id path_created else e in
      c ← updateValue c parent_path (adjust (-1) (-1) (-1) (erase_name child_path));
      Some (c, e)
  | UndoRemove path prev_node child_basename =>
      let owner := ephemeralOwner (stat prev_node) in
      let e := if decide (owner <> 0) then eph_emplace e owner path else e in
      let c := container_insert c path prev_node in
      c ← updateValue c (parentPath path) (adjust 0 (-1) 1 (add_name child_basename));
      Some (c, e)
  | UndoSet path prev_node =>
      c ← updateValue c path (fun _ => Some prev_node);
      c ← updateValue c (parentPath path) (adjust 0 (-1) 0 id);
      Some (c, e)
  end.

(** ** Handlers of the requests that write *)

Definition answer : Type := Z * zk_response_body.
Definition outcome : Type := Container * Ephemerals * answer * option Undo.

Definition process_create (path d : str) (is_ephemeral is_sequential : bool) (zxid session_id now : Z)
    (c : Container) (e : Ephemerals) : option outcome :=
  if decide (is_Some (c !! path)) then Some (c, e, (Err.ZNODEEXISTS, CreateResponse []), None)
  else
    let parent_path := parentPath path in
    match c !! parent_path with
    | None => Some (c, e, (Err.ZNONODE, CreateResponse []), None)
    | Some parent =>
        if decide (ephemeralOwner (stat parent) <> 0)
        then Some (c, e, (Err.ZNOCHILDRENFOREPHEMERALS, CreateResponse []), None)
        else
          let owner := if is_ephemeral then session_id else 0 in
          let length := to_signed 32 (wrap 32 (Z.of_nat (length d))) in
          let created_node := mkNode d [] is_sequential (mkStat zxid zxid now now 0 0 0 owner length 0 0) 0 ∅ in
          let path_created := if is_sequential then path ++ seq_suffix (seq_num parent) else path in
          let child_path := getBaseName path_created in
          c ← updateValue c parent_path (adjust 1 1 1 (add_name child_path));
          let c := container_insert c path_created created_node in
          let e := if is_ephemeral then eph_emplace e session_id path_created else e in
          Some (c, e, (Err.ZOK, CreateResponse path_created),
                Some (UndoCreate path_created session_id is_ephemeral parent_path child_path))
    end.

Definition process_remove (path : str) (version : Z) (c : Container) (e : Ephemerals) : option outcome :=
  match c !! path with
  | None => Some (c, e, (Err.ZNONODE, RemoveResponse), None)
  | Some prev_node =>
      if decide (version <> -1 /\ version <> st_version (stat prev_node))
      then Some (c, e, (Err.ZBADVERSION, RemoveResponse), None)
      else if decide (numChildren (stat prev_node) <> 0)
      then Some (c, e, (Err.ZNOTEMPTY, RemoveResponse), None)
      else
        let owner := ephemeralOwner (stat prev_node) in
        e ← (if decide (owner <> 0) then eph_remove e owner path else Some e);
        let child_basename := getBaseName path in
        c ← updateValue c (parentPath path) (adjust 0 1 (-1) (erase_name child_basename));
        Some (delete path c, e, (Err.ZOK, RemoveResponse), Some (UndoRemove path prev_node child_basename))
  end.

Definition set_data (d : str) (zxid now : Z) (n : Node) : option Node :=
  let s := stat n in
  version ← int32 (st_version s + 1);
  Some (mkNode d (acls n) (is_sequental n)
          (mkStat (czxid s) zxid (ctime s) now version (cversion s) (aversion s) (ephemeralOwner s)
             (to_signed 32 (wrap 32 (Z.of_nat (length d)))) (numChildren s) (pzxid s))
          (seq_num n) (children n)).

(** [itr] stays at the node of the first update: in snapshot mode the second makes a copy. *)
Definition process_set (snapshot_mode : bool) (path d : str) (version zxid now : Z) (c : Container) (e : Ephemerals)
    : option outcome :=
  match c !! path with
  | None => Some (c, e, (Err.ZNONODE, SetResponse zero_stat), None)
  | Some prev_node =>
      if decide (version = -1 \/ version = st_version (stat prev_node))
      then
        c1 ← updateValue c path (set_data d zxid now);
        c2 ← updateValue c1 (parentPath path) (adjust 0 1 0 id);
        n ← (if snapshot_mode then c1 else c2) !! path;
        Some (c2, e, (Err.ZOK, SetResponse (stat n)), Some (UndoSet path prev_node))
      else Some (c, e, (Err.ZBADVERSION, SetResponse zero_stat), None)
  end.

Definition process_check (path : str) (version : Z) (c : Container) : answer :=
  match c !! path with
  | None => (Err.ZNONODE, CheckResponse)
  | Some n =>
      if decide (version <> -1 /\ version <> st_version (stat n)) then (Err.ZBADVERSION, CheckResponse)
      else (Err.ZOK, CheckResponse)
  end.

(** The requests a multi request may contain. *)
Inductive StorageRequest : Type :=
| SCreate (path data : str) (is_ephemeral is_sequential : bool)
| SRemove (path : str) (version : Z)
| SSet (path data : str) (version : Z)
| SCheck (path : str) (version : Z).

(** The constructor of KeeperStorageMultiRequest. *)
Definition concrete_request (r : zk_request) : result StorageRequest :=
  match r with
  | CreateRequest path d is_ephemeral is_sequential _ => Ok (SCreate path d is_ephemeral is_sequential)
  | RemoveRequest path version => Ok (SRemove path version)
  | SetRequest path d version => Ok (SSet path d version)
  | CheckRequest path version => Ok (SCheck path version)
  | _ => Throw (DBException ErrorCodes.BAD_ARGUMENTS)
  end.

Fixpoint concrete_requests (rs : list zk_request) : result (list StorageRequest) :=
  match rs with
  | [] => Ok []
  | r :: rs => q ← concrete_request r; qs ← concrete_requests rs; Ok (q :: qs)
  end.

Definition process (snapshot_mode : bool) (q : StorageRequest) (zxid session_id now : Z) (c : Container) (e : Ephemerals)
    : option outcome :=
  match q with
  | SCreate path d is_ephemeral is_sequential => process_create path d is_ephemeral is_sequential zxid session_id now c e
  | SRemove path version => process_remove path version c e
  | SSet path d version => process_set snapshot_mode path d version zxid now c e
  | SCheck path version => Some (c, e, process_check path version c, None)
  end.

(** [undo_actions] from the last to the first. *)
Fixpoint run_undos (us : list (option Undo)) (c : Container) (e : Ephemerals) : option (Container * Ephemerals) :=
  match us with
  | [] => Some (c, e)
  | None :: us => run_undos us c e
  | Some u :: us => '(c, e) ← run_undo u c e; run_undos us c e
  end.

(** The responses of a multi request whose last processed operation failed. *)
Definition failed_responses (processed : list answer) (left : nat) : list answer :=
  map (fun a => (a.1, ErrorResponse)) processed ++ replicate left (Err.ZRUNTIMEINCONSISTENCY, ErrorResponse).

(** The loop: [processed] are the responses so far, [undo_actions] the last first.  The error of
    the response of the multi request is the one of a fresh response. *)
Fixpoint process_multi (snapshot_mode : bool) (zxid session_id : Z) (clock : nat -> Z) (qs : list StorageRequest)
    (processed : list answer) (undo_actions : list (option Undo)) (c : Container) (e : Ephemerals)
    : option (Container * Ephemerals * answer) :=
  match qs with
  | [] => Some (c, e, (Err.ZOK, MultiResponse processed))
  | q :: qs =>
      '(c, e, cur_response, undo) ← process snapshot_mode q zxid session_id (clock (length processed)) c e;
      if decide (cur_response.1 <> Err.ZOK)
      then
        '(c, e) ← run_undos undo_actions c e;
        Some (c, e, (Err.ZOK, MultiResponse (failed_responses (processed ++ [cur_response]) (length qs))))
      else process_multi snapshot_mode zxid session_id clock qs (processed ++ [cur_response]) (undo :: undo_actions) c e
  end.

(** ** Handlers of the requests that read *)

Definition process_get (path : str) (c : Container) : answer :=
  match c !! path with
  | None => (Err.ZNONODE, GetResponse [] zero_stat)
  | Some n => (Err.ZOK, GetResponse (data n) (stat n))
  end.

Definition process_exists (path : str) (c : Container) : answer :=
  match c !! path with
  | None => (Err.ZNONODE, ExistsResponse zero_stat)
  | Some n => (Err.ZOK, ExistsResponse (stat n))
  end.

Definition process_list (order : gset str -> list str) (path : str) (c : Container) : result answer :=
  match c !! path with
  | None => Ok (Err.ZNONODE, ListResponse [] zero_stat)
  | Some n =>
      if decide (path = []) then Throw (DBException ErrorCodes.LOGICAL_ERROR)
      else Ok (Err.ZOK, ListResponse (order (children n)) (stat n))
  end.

(** ** Watches *)

Definition CREATED : Z := 1.
Definition DELETED : Z := 2.
Definition CHANGED : Z := 3.
Definition CHILD : Z := 4.
Definition CONNECTED : Z := 3.
Definition WATCH_XID : Z := -1.

Definition ResponseForSession : Type := Z * zk_response.

(** The sessions that watch [path] are told once. *)
Definition fire (path : str) (event : Z) (w : Watches) : list ResponseForSession * Watches :=
  match w !! path with
  | Some sessions => (map (fun s => (s, mkResponse WATCH_XID (-1) Err.ZOK (WatchResponse event CONNECTED path))) sessions, delete path w)
  | None => ([], w)
  end.

Definition processWatchesImpl (path : str) (event : Z) (w lw : Watches) : list ResponseForSession * Watches * Watches :=
  let '(r1, w) := fire path event w in
  let '(r2, lw) := fire (parentPath path) CHILD lw in
  (r1 ++ r2, w, lw).

Definition processWatches (q : StorageRequest) (w lw : Watches) : list ResponseForSession * Watches * Watches :=
  match q with
  | SCreate path _ _ _ => processWatchesImpl path CREATED w lw
  | SRemove path _ => processWatchesImpl path DELETED w lw
  | SSet path _ _ => processWatchesImpl path CHANGED w lw
  | SCheck _ _ => ([], w, lw)
  end.

Fixpoint processWatches_multi (qs : list StorageRequest) (w lw : Watches) : list ResponseForSession * Watches * Watches :=
  match qs with
  | [] => ([], w, lw)
  | q :: qs =>
      let '(r1, w, lw) := processWatches q w lw in
      let '(r2, w, lw) := processWatches_multi qs w lw in
      (r1 ++ r2, w, lw)
  end.

Definition add_watch (w : Watches) (path : str) (session_id : Z) : Watches :=
  <[path := default [] (w !! path) ++ [session_id]]> w.

Definition erase_watcher (session_id : Z) (w : Watches) (path : str) : Watches :=
  match w !! path with
  | Some sessions =>
      let sessions := filter (fun s => s <> session_id) sessions in
      if decide (sessions = []) then delete path w else <[path := sessions]> w
  | None => w
  end.

(** ** The storage *)

Record storage : Type := mkStorage {
  session_id_counter : Z;
  container : Container;
  snapshot_mode : bool;
  ephemerals : Ephemerals;
  sessions_and_watchers : gmap Z (gset str);
  session_expiry_queue : SessionExpiryQueue.t;
  session_and_timeout : gmap Z Z;
  zxid : Z;
  finalized : bool;
  watches : Watches;
  list_watches : Watches
}.

Definition create_storage (tick_time_ms now : Z) : option storage :=
  queue ← SessionExpiryQueue.create tick_time_ms now;
  Some (mkStorage 1 {[root := new_node]} false ∅ ∅ queue ∅ 0 false ∅ ∅).

Definition with_tree (s : storage) (c : Container) (e : Ephemerals) : storage :=
  mkStorage (session_id_counter s) c (snapshot_mode s) e (sessions_and_watchers s) (session_expiry_queue s)
    (session_and_timeout s) (zxid s) (finalized s) (watches s) (list_watches s).

Definition with_watches (s : storage) (w lw : Watches) (sw : gmap Z (gset str)) : storage :=
  mkStorage (session_id_counter s) (container s) (snapshot_mode s) (ephemerals s) sw (session_expiry_queue s)
    (session_and_timeout s) (zxid s) (finalized s) w lw.

Definition with_sessions (s : storage) (counter : Z) (queue : SessionExpiryQueue.t) (timeouts : gmap Z Z) : storage :=
  mkStorage counter (container s) (snapshot_mode s) (ephemerals s) (sessions_and_watchers s) queue
    timeouts (zxid s) (finalized s) (watches s) (list_watches s).

Definition with_zxid (s : storage) (z : Z) : storage :=
  mkStorage (session_id_counter s) (container s) (snapshot_mode s) (ephemerals s) (sessions_and_watchers s)
    (session_expiry_queue s) (session_and_timeout s) z (finalized s) (watches s) (list_watches s).

(** [emplace] keeps the timeout of a session that is there. *)
Definition addSessionID (s : storage) (session_id timeout_ms now : Z) : option storage :=
  '(queue, _) ← SessionExpiryQueue.update (session_expiry_queue s) session_id timeout_ms now;
  Some (with_sessions s (session_id_counter s) queue
          (if decide (is_Some (session_and_timeout s !! session_id)) then session_and_timeout s
           else <[session_id := timeout_ms]> (session_and_timeout s))).

Definition getSessionID (s : storage) (timeout_ms now : Z) : option (storage * Z) :=
  let result := session_id_counter s in
  counter ← SessionExpiryQueue.int64 (session_id_counter s + 1);
  s ← addSessionID (with_sessions s counter (session_expiry_queue s) (session_and_timeout s)) result timeout_ms now;
  Some (s, result).

Definition getDeadSessions (s : storage) (now : Z) : option (storage * gset Z) :=
  '(queue, dead) ← SessionExpiryQueue.getExpiredSessions (session_expiry_queue s) now;
  Some (with_sessions s (session_id_counter s) queue (session_and_timeout s), dead).

Definition clearDeadWatches (s : storage) (session_id : Z) : storage :=
  match sessions_and_watchers s !! session_id with
  | None => s
  | Some paths =>
      with_watches s (foldl (erase_watcher session_id) (watches s) (elements paths))
        (foldl (erase_watcher session_id) (list_watches s) (elements paths))
        (delete session_id (sessions_and_watchers s))
  end.

(** The loop over the ephemeral nodes of a session that is closed. *)
Fixpoint close_ephemerals (paths : list str) (c : Container) (w lw : Watches)
    : option (Container * Watches * Watches * list ResponseForSession) :=
  match paths with
  | [] => Some (c, w, lw, [])
  | path :: paths =>
      c ← updateValue (delete path c) (parentPath path) (adjust 0 1 (-1) (erase_name (getBaseName path)));
      let '(responses, w, lw) := processWatchesImpl path DELETED w lw in
      '(c, w, lw, rest) ← close_ephemerals paths c w lw;
      Some (c, w, lw, responses ++ rest)
  end.

Definition close_nodes (s : storage) (session_id : Z) (env : environment) : option (storage * list ResponseForSession) :=
  match ephemerals s !! session_id with
  | Some paths =>
      '(c, w, lw, results) ← close_ephemerals (set_order env paths) (container s) (watches s) (list_watches s);
      Some (with_watches (with_tree s c (delete session_id (ephemerals s))) w lw (sessions_and_watchers s), results)
  | None => Some (s, [])
  end.

Definition process_close (s : storage) (session_id xid : Z) (env : environment) : option (storage * list ResponseForSession) :=
  '(s, results) ← close_nodes s session_id env;
  let s := clearDeadWatches s session_id in
  let queue := (SessionExpiryQueue.remove (session_expiry_queue s) session_id).1 in
  let s := with_sessions s (session_id_counter s) queue (delete session_id (session_and_timeout s)) in
  Some (s, results ++ [(session_id, mkResponse xid (zxid s) Err.ZOK CloseResponse)]).

(** The handler a request gets from the factory. *)
Definition run_request (s : storage) (r : zk_request) (session_id : Z) (env : environment)
    : option (result (Container * Ephemerals * answer)) :=
  let c := container s in
  let e := ephemerals s in
  match r with
  | HeartbeatRequest => Some (Ok (c, e, (Err.ZOK, HeartbeatResponse)))
  | SyncRequest path => Some (Ok (c, e, (Err.ZOK, SyncResponse path)))
  | AuthRequest _ _ _ => Some (Ok (c, e, (Err.ZOK, AuthResponse)))
  | CloseRequest | SessionIDRequest _ _ _ => Some (Throw (DBException ErrorCodes.LOGICAL_ERROR))
  | ExistsRequest path _ => Some (Ok (c, e, process_exists path c))
  | GetRequest path _ => Some (Ok (c, e, process_get path c))
  | ListRequest _ path _ =>
      Some (match process_list (set_order env) path c with Ok a => Ok (c, e, a) | Throw x => Throw x end)
  | MultiRequest rs =>
      match concrete_requests rs with
      | Throw x => Some (Throw x)
      | Ok qs => Ok <$> process_multi (snapshot_mode s) (zxid s) session_id (op_now_ms env) qs [] [] c e
      end
  | CreateRequest _ _ _ _ _ | RemoveRequest _ _ | SetRequest _ _ _ | CheckRequest _ _ =>
      match concrete_request r with
      | Throw x => Some (Throw x)
      | Ok q =>
          '(c, e, a, _) ← process (snapshot_mode s) q (zxid s) session_id (op_now_ms env 0%nat) c e;
          Some (Ok (c, e, a))
      end
  end.

(** [storage_request->processWatches] *)
Definition request_watches (r : zk_request) (w lw : Watches) : list ResponseForSession * Watches * Watches :=
  match r with
  | MultiRequest rs => match concrete_requests rs with Ok qs => processWatches_multi qs w lw | Throw _ => ([], w, lw) end
  | _ => match concrete_request r with Ok q => processWatches q w lw | Throw _ => ([], w, lw) end
  end.

Definition register_watch (s : storage) (r : zk_request) (session_id error : Z) : storage :=
  let path := getPath r in
  let sw := <[session_id := default ∅ (sessions_and_watchers s !! session_id) ∪ {[path]}]> (sessions_and_watchers s) in
  if has_watch r then
    if decide (error = Err.ZOK) then
      match r with
      | ListRequest _ _ _ => with_watches s (watches s) (add_watch (list_watches s) path session_id) sw
      | _ => with_watches s (add_watch (watches s) path session_id) (list_watches s) sw
      end
    else if decide (error = Err.ZNONODE /\ request_opnum r = OpExists)
    then with_watches s (add_watch (watches s) path session_id) (list_watches s) sw
    else s
  else s.

(** The last branch of [processRequest]. *)
Definition process_other (s : storage) (m : zk_message) (session_id : Z) (env : environment)
    : option (storage * result (list ResponseForSession)) :=
  let r := body m in
  outcome ← run_request s r session_id env;
  match outcome with
  | Throw x => Some (s, Throw x)
  | Ok (c, e, (error, b)) =>
      let s := register_watch (with_tree s c e) r session_id error in
      let '(fired, w, lw) := if decide (error = Err.ZOK) then request_watches r (watches s) (list_watches s)
                             else ([], watches s, list_watches s) in
      let s := with_watches s w lw (sessions_and_watchers s) in
      Some (s, Ok (fired ++ [(session_id, mkResponse (xid m) (zxid s) error b)]))
  end.

Definition processRequest (s : storage) (m : zk_message) (session_id : Z) (new_last_zxid : option Z) (env : environment)
    : option (storage * result (list ResponseForSession)) :=
  if match new_last_zxid with Some z => bool_decide (zxid s >= z) | None => false end
  then Some (s, Throw (DBException ErrorCodes.LOGICAL_ERROR))
  else
    let s := match new_last_zxid with Some z => with_zxid s z | None => s end in
    let timeout := default 0 (session_and_timeout s !! session_id) in
    '(queue, _) ← SessionExpiryQueue.update (session_expiry_queue s) session_id timeout (now_ms env);
    let s := with_sessions s (session_id_counter s) queue (<[session_id := timeout]> (session_and_timeout s)) in
    match body m with
    | CloseRequest => '(s, results) ← process_close s session_id (xid m) env; Some (s, Ok results)
    | HeartbeatRequest => Some (s, Ok [(session_id, mkResponse (xid m) (zxid s) Err.ZOK HeartbeatResponse)])
    | _ => process_other s m session_id env
    end.

Definition finalize (s : storage) : storage * result unit :=
  if finalized s then (s, Throw (DBException ErrorCodes.LOGICAL_ERROR))
  else
    let paths := flat_map (fun se => elements se.2) (map_to_list (ephemerals s)) in
    (mkStorage (session_id_counter s) (foldl (fun c path => delete path c) (container s) paths) (snapshot_mode s) ∅ ∅
       (SessionExpiryQueue.clear (session_expiry_queue s)) (session_and_timeout s) (zxid s) true ∅ ∅, Ok tt).

End Storage.
