(* ===== verification/KeeperTree.v ===== *)
(** * KeeperTree: what the storage of the coordination service promises

    The reference is a tree of nodes: a map from paths to what clients wrote, in which
    the children of a node, their number and the ephemeral nodes of a session are not
    stored, and a multi request that fails has no effect by definition.  The
    handlers of [KeeperStorage] keep the stored copies right and implement it, undo
    actions included.

    What the code does not check is a hypothesis ([good]): the root is not removed
    or set, a path does not start with two slashes, the name of a sequential node is
    not taken, a counter is not at its limit.  The last part shows what happens
    otherwise. *)

From S2P Require Import Prelude TextFormat WalRecord Wire ZooKeeper SessionQueue KeeperStorage.
Import Storage.

Local Open Scope Z_scope.

(** ** The reference *)

Record tnode : Type := mkT {
  t_data : str; t_acls : list ACL; t_sequental : bool; t_czxid : Z; t_mzxid : Z; t_ctime : Z; t_mtime : Z;
  t_version : Z; t_cversion : Z; t_aversion : Z; t_owner : Z; t_pzxid : Z; t_seq : Z
}.

Abbreviation tree := (gmap str tnode).

(** The names of the nodes below [p]. *)
Definition children_of {A} (m : gmap str A) (p : str) : gset str :=
  set_map getBaseName (filter (fun q => q <> root /\ parentPath q = p) (dom m)).

Definition narrow (n : nat) : Z := to_signed 32 (wrap 32 (Z.of_nat n)).

(** The statistics a client sees. *)
Definition stat_of (T : tree) (p : str) (a : tnode) : Stat :=
  mkStat (t_czxid a) (t_mzxid a) (t_ctime a) (t_mtime a) (t_version a) (t_cversion a) (t_aversion a) (t_owner a)
    (narrow (length (t_data a))) (Z.of_nat (size (children_of T p))) (t_pzxid a).

(** A change below a node. *)
Definition touched (dseq : Z) (a : tnode) : tnode :=
  mkT (t_data a) (t_acls a) (t_sequental a) (t_czxid a) (t_mzxid a) (t_ctime a) (t_mtime a)
    (t_version a) (t_cversion a + 1) (t_aversion a) (t_owner a) (t_pzxid a) (t_seq a + dseq).

Definition written (d : str) (zxid now : Z) (a : tnode) : tnode :=
  mkT d (t_acls a) (t_sequental a) (t_czxid a) zxid (t_ctime a) now
    (t_version a + 1) (t_cversion a) (t_aversion a) (t_owner a) (t_pzxid a) (t_seq a).

Definition created_path (path : str) (is_sequential : bool) (parent : tnode) : str :=
  if is_sequential then path ++ seq_suffix (t_seq parent) else path.

Definition version_ok (version : Z) (a : tnode) : bool :=
  bool_decide (version = -1) || bool_decide (version = t_version a).

Definition tree_step (T : tree) (q : StorageRequest) (zxid session now : Z) : tree * answer :=
  match q with
  | SCreate path d is_ephemeral is_sequential =>
      match T !! path, T !! parentPath path with
      | Some _, _ => (T, (Err.ZNODEEXISTS, CreateResponse []))
      | None, None => (T, (Err.ZNONODE, CreateResponse []))
      | None, Some parent =>
          if decide (t_owner parent <> 0) then (T, (Err.ZNOCHILDRENFOREPHEMERALS, CreateResponse []))
          else
            let p := created_path path is_sequential parent in
            (<[p := mkT d [] is_sequential zxid zxid now now 0 0 0 (if is_ephemeral then session else 0) 0 0]>
               (<[parentPath path := touched 1 parent]> T), (Err.ZOK, CreateResponse p))
      end
  | SRemove path version =>
      match T !! path with
      | None => (T, (Err.ZNONODE, RemoveResponse))
      | Some a =>
          if negb (version_ok version a) then (T, (Err.ZBADVERSION, RemoveResponse))
          else if decide (children_of T path <> ∅) then (T, (Err.ZNOTEMPTY, RemoveResponse))
          else (delete path (alter (touched 0) (parentPath path) T), (Err.ZOK, RemoveResponse))
      end
  | SSet path d version =>
      match T !! path with
      | None => (T, (Err.ZNONODE, SetResponse zero_stat))
      | Some a =>
          if version_ok version a
          then (alter (touched 0) (parentPath path) (<[path := written d zxid now a]> T),
                (Err.ZOK, SetResponse (stat_of T path (written d zxid now a))))
          else (T, (Err.ZBADVERSION, SetResponse zero_stat))
      end
  | SCheck path version =>
      match T !! path with
      | None => (T, (Err.ZNONODE, CheckResponse))
      | Some a => (T, (if version_ok version a then Err.ZOK else Err.ZBADVERSION, CheckResponse))
      end
  end.

(** All or nothing. *)
Fixpoint tree_steps (T : tree) (qs : list StorageRequest) (zxid session : Z) (clock : nat -> Z) (processed : list answer)
    : option tree * list answer :=
  match qs with
  | [] => (Some T, processed)
  | q :: qs =>
      let '(T, a) := tree_step T q zxid session (clock (length processed)) in
      if decide (a.1 <> Err.ZOK) then (None, failed_responses (processed ++ [a]) (length qs))
      else tree_steps T qs zxid session clock (processed ++ [a])
  end.

Definition tree_multi (T : tree) (qs : list StorageRequest) (zxid session : Z) (clock : nat -> Z) : tree * answer :=
  let '(T', responses) := tree_steps T qs zxid session clock [] in (default T T', (Err.ZOK, MultiResponse responses)).

(** ** What is asked of the requests *)

Definition join (parent name : str) : str := if decide (parent = root) then root ++ name else parent ++ root ++ name.

Definition valid_path (p : str) : Prop := p <> root /\ join (parentPath p) (getBaseName p) = p.

Definition counter_room (z : Z) : Prop := - 2 ^ 31 <= z /\ z + 1 < 2 ^ 31.
Definition room (T : tree) : Prop :=
  forall p a, T !! p = Some a -> counter_room (t_seq a) /\ counter_room (t_version a) /\ counter_room (t_cversion a)
    /\ Z.of_nat (size (children_of T p)) + 1 < 2 ^ 31.

Definition good (T : tree) (session : Z) (q : StorageRequest) : Prop :=
  room T /\
  match q with
  | SCreate path _ is_ephemeral is_sequential =>
      (is_ephemeral = true -> session <> 0)
      /\ match T !! parentPath path with
         | Some parent => valid_path (created_path path is_sequential parent)
                          /\ (is_sequential = true -> T !! created_path path is_sequential parent = None)
         | None => True
         end
  | SRemove path _ | SSet path _ _ => path <> root
  | SCheck _ _ => True
  end.

(** Every request is good when its turn comes. *)
Fixpoint good_all (T : tree) (qs : list StorageRequest) (zxid session : Z) (clock : nat -> Z) (i : nat) : Prop :=
  match qs with
  | [] => True
  | q :: qs =>
      good T session q
      /\ let '(T, a) := tree_step T q zxid session (clock i) in
         a.1 = Err.ZOK -> good_all T qs zxid session clock (S i)
  end.

(** ** The copies the storage keeps *)

Definition strip (n : Node) : tnode :=
  let s := stat n in
  mkT (data n) (acls n) (is_sequental n) (czxid s) (mzxid s) (ctime s) (mtime s) (st_version s) (cversion s) (aversion s)
    (ephemeralOwner s) (pzxid s) (seq_num n).

Definition paths_of (e : Ephemerals) (session : Z) : gset str := default ∅ (e !! session).

(** Ephemerals are compared by the paths of each session: an entry without paths is none. *)
#[export] Instance eph_equiv : Equiv Ephemerals := fun e1 e2 => forall session, paths_of e1 session = paths_of e2 session.

#[export] Instance eph_equivalence : Equivalence (equiv (A := Ephemerals)).
Proof. split; [by intros e s|by intros e1 e2 H s|intros e1 e2 e3 H1 H2 s; by rewrite H1]. Qed.

#[export] Instance paths_of_proper : Proper (equiv ==> eq ==> eq) paths_of.
Proof. intros e1 e2 He s ? <-. apply He. Qed.

Record node_ok (c : Container) (p : str) (n : Node) : Prop := {
  n_children : children n = children_of c p;
  n_num : numChildren (stat n) = Z.of_nat (size (children n));
  n_length : dataLength (stat n) = narrow (length (data n));
  n_leaf : ephemeralOwner (stat n) <> 0 -> children n = ∅
}.

Record consistent (c : Container) (e : Ephemerals) : Prop := {
  ok_root : exists n, c !! root = Some n /\ ephemeralOwner (stat n) = 0;
  ok_path : forall p, is_Some (c !! p) -> p <> root -> valid_path p /\ is_Some (c !! parentPath p);
  ok_node : forall p n, c !! p = Some n -> node_ok c p n;
  ok_eph : forall session p, p ∈ paths_of e session <-> session <> 0 /\ exists n, c !! p = Some n /\ ephemeralOwner (stat n) = session
}.

(** ** Paths *)

Lemma rfind_app_none c s d : c ∉ d -> rfind c (s ++ d) = rfind c s.
Proof.
  intros Hd. induction s as [|x s IH]; cbn [rfind app].
  - induction d as [|y d IHd]; [done|]. cbn. rewrite IHd by set_solver. rewrite decide_False; set_solver.
  - by rewrite IH.
Qed.

Lemma rfind_lt c s i : rfind c s = Some i -> (i < length s)%nat.
Proof.
  revert i. induction s as [|x s IH]; intros i; cbn; [done|]. destruct (rfind c s) as [j|].
  - intros [= <-]. specialize (IH j eq_refl). lia.
  - case_decide; [|done]. intros [= <-]. lia.
Qed.

Lemma parent_suffix p d : slash ∉ d -> is_Some (rfind slash p) -> parentPath (p ++ d) = parentPath p.
Proof.
  intros Hd [i Hi]. unfold parentPath. rewrite rfind_app_none, Hi by done. destruct i; [done|].
  apply rfind_lt in Hi. by rewrite take_app_le by lia.
Qed.

Lemma suffix_no_slash z : slash ∉ seq_suffix z.
Proof.
  unfold seq_suffix. rewrite elem_of_app. intros [[H _]%elem_of_replicate|H]; [done|by apply writeIntText_no in H].
Qed.

Lemma parent_ne p : valid_path p -> parentPath p <> p.
Proof.
  intros [Hr Hj] He. unfold join in Hj. rewrite He in Hj. rewrite decide_False in Hj by done.
  apply (f_equal length) in Hj. rewrite !length_app in Hj. cbn in Hj. lia.
Qed.

Lemma valid_inj p q : valid_path p -> valid_path q -> parentPath p = parentPath q -> getBaseName p = getBaseName q -> p = q.
Proof. intros [_ Hp] [_ Hq] H1 H2. rewrite <- Hp, <- Hq. by rewrite H1, H2. Qed.

(** ** Children *)

Section children.
Context {A : Type}.
Implicit Types (m : gmap str A) (p q b : str).

Lemma elem_of_children m p b :
  b ∈ children_of m p <-> exists q, is_Some (m !! q) /\ q <> root /\ parentPath q = p /\ getBaseName q = b.
Proof.
  unfold children_of. rewrite elem_of_map. split.
  - intros (q & -> & [[H1 H2] H3%elem_of_dom]%elem_of_filter). eauto 10.
  - intros (q & H1 & H2 & H3 & <-). exists q. split; [done|]. apply elem_of_filter. by rewrite elem_of_dom.
Qed.

Lemma children_of_dom {B} m (m' : gmap str B) p : dom m = dom m' -> children_of m p = children_of m' p.
Proof. unfold children_of. by intros ->. Qed.

Lemma children_insert m p q x :
  m !! q = None -> q <> root ->
  children_of (<[q := x]> m) p = if decide (parentPath q = p) then add_name (getBaseName q) (children_of m p) else children_of m p.
Proof.
  intros Hm Hq. unfold children_of. rewrite dom_insert_L. apply set_eq. intros b. unfold add_name. case_decide as Hp; set_solver.
Qed.

Lemma children_delete m p q :
  q <> root -> (forall q', is_Some (m !! q') -> q' <> root -> valid_path q') -> is_Some (m !! q) ->
  children_of (delete q m) p = if decide (parentPath q = p) then erase_name (getBaseName q) (children_of m p) else children_of m p.
Proof.
  intros Hq Hv Hm. apply set_eq. intros b. rewrite elem_of_children.
  assert (Hd : forall q', is_Some (delete q m !! q') <-> q' <> q /\ is_Some (m !! q')).
  { intros q'. destruct (decide (q' = q)) as [->|Hne].
    - rewrite lookup_delete_eq. split; [by intros [? ?]|tauto].
    - rewrite lookup_delete_ne by done. tauto. }
  case_decide as Hp; unfold erase_name; [rewrite elem_of_difference, elem_of_singleton|]; rewrite elem_of_children; setoid_rewrite Hd.
  - split.
    + intros (q' & [H1 H2] & H3 & H4 & H5). split; [by eauto 10|]. intros ->. apply H1. apply valid_inj; auto; congruence.
    + intros [(q' & H1 & H2 & H3 & H4) H5]. exists q'. repeat split; try done. intros ->. by destruct H5.
  - split; [intros (q' & [H1 H2] & H3 & H4 & H5); by eauto 10|].
    intros (q' & H1 & H2 & H3 & H4). exists q'. repeat split; try done. by intros ->.
Qed.
End children.

(** ** Adjusting a parent *)

Lemma int32_in z : - 2 ^ 31 <= z < 2 ^ 31 -> int32 z = Some z.
Proof.
  intros Hz. unfold int32, in_signed. change (32 - 1) with 31. rewrite (proj2 (Z.leb_le _ _)), (proj2 (Z.ltb_lt _ _)) by lia. done.
Qed.

Definition adjusted (dseq dcv dnum : Z) (f : gset str -> gset str) (n : Node) : Node :=
  mkNode (data n) (acls n) (is_sequental n) (with_counts (stat n) (cversion (stat n) + dcv) (numChildren (stat n) + dnum))
    (seq_num n + dseq) (f (children n)).

Definition in_range (n : Node) (dseq dcv dnum : Z) : Prop :=
  - 2 ^ 31 <= seq_num n + dseq < 2 ^ 31 /\ - 2 ^ 31 <= cversion (stat n) + dcv < 2 ^ 31
  /\ - 2 ^ 31 <= numChildren (stat n) + dnum < 2 ^ 31.

Lemma adjust_in dseq dcv dnum f n : in_range n dseq dcv dnum -> adjust dseq dcv dnum f n = Some (adjusted dseq dcv dnum f n).
Proof. intros (H1 & H2 & H3). unfold adjust. by rewrite !int32_in by done. Qed.

(** An adjustment is taken back by the opposite one. *)
Lemma adjust_back dseq dcv dnum f g n :
  in_range n 0 0 0 -> g (f (children n)) = children n ->
  adjust (- dseq) (- dcv) (- dnum) g (adjusted dseq dcv dnum f n) = Some n.
Proof.
  intros (H1 & H2 & H3) Hg. rewrite adjust_in.
  - unfold adjusted. destruct n as [d a q s sq ch]. destruct s. cbn in *. rewrite Hg. do 2 f_equal; [|lia]. unfold with_counts. cbn. f_equal; lia.
  - unfold in_range, adjusted, with_counts. cbn. lia.
Qed.

Lemma updateValue_insert c p n f n' : f n = Some n' -> updateValue (<[p := n]> c) p f = Some (<[p := n']> c).
Proof. intros H. unfold updateValue. rewrite lookup_insert_eq. cbn [mbind option_bind]. rewrite H. cbn. by rewrite insert_insert_eq. Qed.

Lemma updateValue_some c p n f n' : c !! p = Some n -> f n = Some n' -> updateValue c p f = Some (<[p := n']> c).
Proof. intros H1 H2. unfold updateValue. rewrite H1. cbn [mbind option_bind]. by rewrite H2. Qed.

(** ** Ephemerals *)

Lemma paths_of_emplace e s p s' : paths_of (eph_emplace e s p) s' = if decide (s' = s) then paths_of e s' ∪ {[p]} else paths_of e s'.
Proof. unfold paths_of, eph_emplace. case_decide as Hs; [subst; by rewrite lookup_insert_eq|by rewrite lookup_insert_ne]. Qed.

Lemma paths_of_erase e s p s' : paths_of (eph_erase e s p) s' = if decide (s' = s) then paths_of e s' ∖ {[p]} else paths_of e s'.
Proof. unfold paths_of, eph_erase. case_decide as Hs; [subst; by rewrite lookup_insert_eq|by rewrite lookup_insert_ne]. Qed.

Lemma eph_remove_spec e s p :
  p ∈ paths_of e s -> exists e', eph_remove e s p = Some e'
    /\ forall s', paths_of e' s' = if decide (s' = s) then paths_of e s' ∖ {[p]} else paths_of e s'.
Proof.
  intros Hp. unfold eph_remove, paths_of in *. destruct (e !! s) as [ps|] eqn:He; [|set_solver].
  eexists. split; [done|]. intros s'. destruct (decide (s' = s)) as [->|Hs].
  - rewrite He. case_decide as H0; [rewrite lookup_delete_eq; by rewrite <- H0|by rewrite lookup_insert_eq].
  - case_decide; [by rewrite lookup_delete_ne|by rewrite lookup_insert_ne].
Qed.

(** ** The invariant is kept by each change *)

#[export] Instance consistent_proper : Proper (eq ==> equiv ==> iff) consistent.
Proof.
  assert (Hi : forall c e1 e2, e1 ≡ e2 -> consistent c e1 -> consistent c e2).
  { intros c e1 e2 He [H1 H2 H3 H4]. split; [done..|]. intros s p. by rewrite <- He. }
  intros c ? <- e1 e2 He. split; apply Hi; done.
Qed.

Lemma no_children_below (c : Container) e p : consistent c e -> c !! p = None -> children_of c p = ∅.
Proof.
  intros HC Hp. apply set_eq. intros b. rewrite elem_of_children. split; [|set_solver].
  intros (q & H1 & H2 & <- & _). destruct (ok_path _ _ HC q H1 H2) as [_ [n Hn]]. congruence.
Qed.

Lemma base_in_children (c : Container) e p : consistent c e -> is_Some (c !! p) -> p <> root -> getBaseName p ∈ children_of c (parentPath p).
Proof. intros HC Hp Hr. apply elem_of_children. eauto 10. Qed.

Lemma base_fresh (c : Container) e p : consistent c e -> valid_path p -> c !! p = None -> getBaseName p ∉ children_of c (parentPath p).
Proof.
  intros HC Hv Hp (q & H1 & H2 & H3 & H4)%elem_of_children. destruct (ok_path _ _ HC q H1 H2) as [Hq _].
  rewrite (valid_inj p q) in Hp by done. destruct H1. congruence.
Qed.

Lemma consistent_create c e e' path par n :
  consistent c e -> c !! path = None -> valid_path path -> c !! parentPath path = Some par -> ephemeralOwner (stat par) = 0 ->
  children n = ∅ -> numChildren (stat n) = 0 -> dataLength (stat n) = narrow (length (data n)) ->
  (forall s p, p ∈ paths_of e' s <-> p ∈ paths_of e s \/ (p = path /\ s = ephemeralOwner (stat n) /\ s <> 0)) ->
  consistent (<[path := n]> (<[parentPath path := adjusted 1 1 1 (add_name (getBaseName path)) par]> c)) e'.
Proof.
  intros HC Hno Hv Hpar Hown Hch Hnum Hlen He. pose proof (parent_ne path Hv) as Hpp. pose proof Hv as [Hroot _].
  pose proof (base_fresh c e path HC Hv Hno) as Hfresh.
  set (par' := adjusted _ _ _ _ par). set (c' := <[path := n]> _).
  assert (Hl : forall p, c' !! p = if decide (p = path) then Some n else if decide (p = parentPath path) then Some par' else c !! p).
  { intros p. unfold c'. repeat case_decide; subst; [by rewrite lookup_insert_eq|rewrite lookup_insert_ne by done..]; [by rewrite lookup_insert_eq|by rewrite lookup_insert_ne]. }
  assert (Hk : forall p, children_of c' p = if decide (parentPath path = p) then add_name (getBaseName path) (children_of c p) else children_of c p).
  { intros p. unfold c'. rewrite children_insert; [|by rewrite lookup_insert_ne|done].
    rewrite (children_of_dom (<[parentPath path := par']> c) c); [done|]. by apply dom_insert_lookup_L. }
  assert (Hmono : forall p, is_Some (c !! p) -> is_Some (c' !! p)) by (intros p ?; rewrite Hl; repeat case_decide; [by eexists..|done]).
  split.
  - destruct (ok_root _ _ HC) as (r & Hr & Hro). rewrite Hl, decide_False by done. case_decide as H; [|by eauto].
    exists par'. split; [done|exact Hown].
  - intros p Hp Hpr. destruct (decide (p = path)) as [->|Hne].
    + split; [done|]. apply Hmono. by eexists.
    + assert (Hc : is_Some (c !! p)) by (rewrite Hl, decide_False in Hp by done; case_decide; [by subst; eexists|done]).
      destruct (ok_path _ _ HC p Hc Hpr). auto.
  - intros p np. rewrite Hl. case_decide as H1; [|case_decide as H2].
    + intros [= <-]. subst p. split; [|by rewrite Hch|done|done]. rewrite Hk, decide_False by done.
      rewrite (no_children_below c e) by done. done.
    + intros [= <-]. subst p. pose proof (ok_node _ _ HC _ _ Hpar) as [K1 K2 K3 K4]. split; cbn.
      * by rewrite Hk, decide_True, K1.
      * unfold add_name. rewrite size_union, size_singleton by (rewrite K1; set_solver). lia.
      * done.
      * by rewrite Hown.
    + intros Hc. pose proof (ok_node _ _ HC _ _ Hc) as [K1 K2 K3 K4]. split; [|done..]. by rewrite Hk, decide_False.
  - intros s p. rewrite He, (ok_eph _ _ HC). split.
    + intros [(Hs & m & Hm & Ho)|(-> & -> & Hs)]; (split; [done|]).
      * rewrite Hl, decide_False by congruence. case_decide as H2; [|by eauto]. subst p. exists par'. split; [done|]. by replace m with par in Ho by congruence.
      * exists n. by rewrite Hl, decide_True.
    + intros (Hs & m & Hm & Ho). rewrite Hl in Hm. case_decide as H1; [injection Hm as <-; auto|]. left. split; [done|].
      case_decide as H2; [|by eauto]. injection Hm as <-. subst p. by exists par.
Qed.

Lemma consistent_remove c e e' path par n :
  consistent c e -> c !! path = Some n -> path <> root -> children_of c path = ∅ -> c !! parentPath path = Some par ->
  (forall s p, p ∈ paths_of e' s <-> p ∈ paths_of e s /\ p <> path) ->
  consistent (delete path (<[parentPath path := adjusted 0 1 (-1) (erase_name (getBaseName path)) par]> c)) e'.
Proof.
  intros HC Hn Hroot Hleaf Hpar He. destruct (ok_path _ _ HC path) as [Hv _]; [by eexists|done|].
  pose proof (parent_ne path Hv) as Hpp. pose proof (base_in_children c e path HC ltac:(by eexists) Hroot) as Hbase.
  set (par' := adjusted _ _ _ _ par). set (c' := delete path _).
  assert (Hl : forall p, c' !! p = if decide (p = path) then None else if decide (p = parentPath path) then Some par' else c !! p).
  { intros p. unfold c'. repeat case_decide; subst; [by rewrite lookup_delete_eq|rewrite lookup_delete_ne by done..]; [by rewrite lookup_insert_eq|by rewrite lookup_insert_ne]. }
  assert (Hdom : dom (<[parentPath path := par']> c) = dom c) by (by apply dom_insert_lookup_L).
  assert (Hk : forall p, children_of c' p = if decide (parentPath path = p) then erase_name (getBaseName path) (children_of c p) else children_of c p).
  { intros p. unfold c'. rewrite children_delete; [|done| |rewrite lookup_insert_ne by done; by eexists].
    - by rewrite (children_of_dom (<[parentPath path := par']> c) c).
    - intros q' Hq'. apply elem_of_dom in Hq'. rewrite Hdom in Hq'. apply elem_of_dom in Hq'. intros. by apply (ok_path _ _ HC). }
  split.
  - destruct (ok_root _ _ HC) as (r & Hr & Hro). rewrite Hl, decide_False by done. case_decide as H; [|by eauto].
    exists par'. split; [done|]. rewrite H, Hpar in Hr. injection Hr as <-. exact Hro.
  - intros p Hp Hpr. rewrite Hl in Hp. case_decide as H1; [by destruct Hp|].
    assert (Hc : is_Some (c !! p)) by (case_decide; [by subst; eexists|done]). destruct (ok_path _ _ HC p Hc Hpr) as [Hvp Hpp'].
    split; [done|]. rewrite Hl, decide_False; [destruct (decide (parentPath p = parentPath path)); [by eexists|done]|]. intros Hx.
    pose proof (base_in_children c e p HC Hc Hpr) as Hb. rewrite Hx, Hleaf in Hb. set_solver.
  - intros p np. rewrite Hl. case_decide as H1; [done|]. case_decide as H2.
    + intros [= <-]. subst p. pose proof (ok_node _ _ HC _ _ Hpar) as [K1 K2 K3 K4]. split; cbn.
      * by rewrite Hk, decide_True, K1.
      * unfold erase_name. rewrite size_difference, size_singleton by (rewrite K1; set_solver).
        assert (Hs : (size ({[getBaseName path]} : gset str) <= size (children par))%nat) by (apply subseteq_size; rewrite K1; set_solver).
        rewrite size_singleton in Hs. lia.
      * done.
      * intros Ho. rewrite (K4 Ho). set_solver.
    + intros Hc. pose proof (ok_node _ _ HC _ _ Hc) as [K1 K2 K3 K4]. split; [|done..]. by rewrite Hk, decide_False.
  - intros s p. rewrite He, (ok_eph _ _ HC). split.
    + intros [(Hs & m & Hm & Ho) Hne]. split; [done|]. rewrite Hl, decide_False by done. case_decide as H2; [|by eauto].
      subst p. exists par'. split; [done|]. by rewrite Hm in Hpar; injection Hpar as <-.
    + intros (Hs & m & Hm & Ho). rewrite Hl in Hm. case_decide as H1; [done|]. split; [|done]. split; [done|].
      case_decide as H2; [|by eauto]. injection Hm as <-. subst p. by exists par.
Qed.

(** A change that keeps children, their number and the owner of every node. *)
Lemma consistent_same (c c' : Container) e :
  consistent c e -> dom c' = dom c ->
  (forall p n n', c !! p = Some n -> c' !! p = Some n' ->
     children n' = children n /\ numChildren (stat n') = numChildren (stat n) /\ ephemeralOwner (stat n') = ephemeralOwner (stat n)
     /\ dataLength (stat n') = narrow (length (data n'))) ->
  consistent c' e.
Proof.
  intros HC Hdom Hsame.
  assert (Hs : forall p, is_Some (c' !! p) <-> is_Some (c !! p)) by (intros p; by rewrite <- !elem_of_dom, Hdom).
  assert (Hn : forall p n', c' !! p = Some n' -> exists n, c !! p = Some n).
  { intros p n' H. destruct (proj1 (Hs p)) as [n ?]; [by eexists|by eexists]. }
  split.
  - destruct (ok_root _ _ HC) as (r & Hr & Ho). destruct (proj2 (Hs root)) as [r' Hr']; [by eexists|].
    exists r'. split; [done|]. by destruct (Hsame _ _ _ Hr Hr') as (_ & _ & -> & _).
  - intros p Hp Hr. rewrite Hs in Hp |- *. by apply (ok_path _ _ HC).
  - intros p n' Hn'. destruct (Hn p n' Hn') as [n Hc]. pose proof (ok_node _ _ HC _ _ Hc) as [K1 K2 K3 K4].
    destruct (Hsame p n n' Hc Hn') as (E1 & E2 & E3 & E4). split; rewrite ?E1, ?E2, ?E3; try done. by rewrite K1, (children_of_dom c' c).
  - intros s p. rewrite (ok_eph _ _ HC). split; intros (Hne & n & Hc & Ho); (split; [done|]).
    + destruct (proj2 (Hs p)) as [n' Hn']; [by eexists|]. exists n'. split; [done|]. by destruct (Hsame _ _ _ Hc Hn') as (_ & _ & -> & _).
    + destruct (Hn p n Hc) as [n0 Hn0]. exists n0. split; [done|]. by destruct (Hsame _ _ _ Hn0 Hc) as (_ & _ & <- & _).
Qed.

(** ** The handlers implement the reference *)

Lemma node_range c e p n ds dc dn :
  consistent c e -> room (strip <$> c) -> c !! p = Some n -> 0 <= ds <= 1 -> 0 <= dc <= 1 -> -1 <= dn <= 1 -> in_range n ds dc dn.
Proof.
  intros HC HR Hn H1 H2 H3. destruct (HR p (strip n)) as (R1 & R2 & R3 & R4); [by rewrite lookup_fmap, Hn|].
  rewrite (children_of_dom _ c) in R4 by (by rewrite dom_fmap_L). destruct (ok_node _ _ HC _ _ Hn) as [K1 K2 _ _].
  rewrite <- K1 in R4. unfold counter_room, in_range in *. cbn in *. lia.
Qed.

Lemma alter_some {A} (f : A -> A) (k : str) (m : gmap str A) x : m !! k = Some x -> alter f k m = <[k := f x]> m.
Proof. intros H. rewrite <- (insert_id m k x H) at 1. by rewrite alter_insert_eq. Qed.

(** What it means for a handler to implement a step, with an undo action that takes it back. *)
Definition implements (c : Container) (e : Ephemerals) (r : option outcome) (step : tree * answer) : Prop :=
  exists c' e' a u, r = Some (c', e', a, u) /\ step = (strip <$> c', a) /\ consistent c' e'
    /\ (a.1 <> Err.ZOK -> c' = c /\ e' = e)
    /\ forall e1, e1 ≡ e' -> exists e0, run_undos [u] c' e1 = Some (c, e0) /\ e0 ≡ e.

Lemma implements_stay c e a : consistent c e -> implements c e (Some (c, e, a, None)) (strip <$> c, a).
Proof. intros HC. exists c, e, a, None. split; [done|]. split; [done|]. split; [done|]. split; [done|]. intros e1 He. by exists e1. Qed.

Lemma strip_adjusted dseq dnum f n : strip (adjusted dseq 1 dnum f n) = touched dseq (strip n).
Proof. done. Qed.

Lemma undo_create c e n par path (is_ephemeral : bool) session :
  c !! path = None -> c !! parentPath path = Some par -> parentPath path <> path -> in_range par 0 0 0 ->
  getBaseName path ∉ children par -> path ∉ paths_of e session -> forall e1,
  e1 ≡ (if is_ephemeral then eph_emplace e session path else e) ->
  exists e0, run_undo (UndoCreate path session is_ephemeral (parentPath path) (getBaseName path))
    (<[path := n]> (<[parentPath path := adjusted 1 1 1 (add_name (getBaseName path)) par]> c)) e1 = Some (c, e0) /\ e0 ≡ e.
Proof.
  intros Hno Hpar Hne Hr Hb Hp e1 He. unfold run_undo. rewrite delete_insert_id by (by rewrite lookup_insert_ne).
  rewrite (updateValue_insert _ _ _ _ par).
  - cbn [mbind option_bind]. rewrite insert_id by done. eexists. split; [done|]. destruct is_ephemeral; [|done].
    intros s. rewrite paths_of_erase, He, paths_of_emplace. case_decide; set_solver.
  - apply (adjust_back 1 1 1); [done|]. unfold add_name, erase_name. set_solver.
Qed.

Lemma create_refines mode path d is_ephemeral is_sequential zxid session now c e :
  let q := SCreate path d is_ephemeral is_sequential in
  consistent c e -> good (strip <$> c) session q ->
  implements c e (process mode q zxid session now c e) (tree_step (strip <$> c) q zxid session now).
Proof.
  intros q HC [HR [Hse Hg]]. cbn [q process tree_step]. unfold process_create. rewrite !lookup_fmap. rewrite lookup_fmap in Hg.
  destruct (c !! path) as [n|] eqn:Hno; cbn [fmap option_fmap option_map].
  { rewrite decide_True by (by eexists). by apply implements_stay. }
  rewrite decide_False by (by intros [? ?]). destruct (c !! parentPath path) as [par|] eqn:Hpar; cbn [fmap option_fmap option_map]; [|by apply implements_stay].
  change (t_owner (strip par)) with (ephemeralOwner (stat par)).
  destruct (decide (ephemeralOwner (stat par) <> 0)) as [Ho|Ho]; [by apply implements_stay|]. apply dec_stable in Ho.
  destruct Hg as [Hv Hfr]. rewrite lookup_fmap in Hfr.
  change (if is_sequential then path ++ seq_suffix (seq_num par) else path) with (created_path path is_sequential (strip par)).
  set (p := created_path path is_sequential (strip par)) in *.
  assert (Hp : parentPath p = parentPath path).
  { unfold p, created_path. destruct is_sequential; [|done]. apply parent_suffix; [apply suffix_no_slash|].
    destruct (rfind slash path) eqn:Hf; [by eexists|]. unfold parentPath in Hpar. rewrite Hf in Hpar. congruence. }
  assert (Hcp : c !! p = None).
  { destruct is_sequential; [|done]. destruct (c !! p); [|done]. by specialize (Hfr eq_refl). }
  rewrite <- Hp in *. pose proof (parent_ne p Hv) as Hne.
  rewrite (updateValue_some c _ par _ _ Hpar (adjust_in _ _ _ _ _ (node_range c e _ _ 1 1 1 HC HR Hpar ltac:(lia) ltac:(lia) ltac:(lia)))).
  cbn [mbind option_bind]. unfold container_insert. rewrite decide_False by (rewrite lookup_insert_ne by done; rewrite Hcp; by intros [? ?]).
  eexists _, _, _, _. split; [done|]. split; [by rewrite !fmap_insert|]. split; [|split; [done|]].
  - apply (consistent_create c e); try done.
    intros s p'. destruct is_ephemeral; cbn; [rewrite paths_of_emplace; case_decide; set_solver|]. split; [by left|]. intros [?|(_ & -> & ?)]; done.
  - intros e1 He. cbn [run_undos].
    destruct (undo_create c e (mkNode d [] is_sequential (mkStat zxid zxid now now 0 0 0 (if is_ephemeral then session else 0)
      (to_signed 32 (wrap 32 (Z.of_nat (length d)))) 0 0) 0 ∅) par p is_ephemeral session Hcp Hpar Hne) with (e1 := e1) as (e0 & Hu & He0).
    + by apply (node_range c e _ _ 0 0 0 HC HR Hpar).
    + destruct (ok_node _ _ HC _ _ Hpar) as [-> _ _ _]. by apply (base_fresh c e).
    + rewrite (ok_eph _ _ HC). intros (_ & m & Hm & _). congruence.
    + done.
    + exists e0. rewrite Hu. done.
Qed.

Lemma version_bad version n :
  (version <> -1 /\ version <> st_version (stat n)) <-> version_ok version (strip n) = false.
Proof. unfold version_ok. rewrite orb_false_iff, !bool_decide_eq_false. done. Qed.

Lemma children_strip (c : Container) p : children_of (strip <$> c) p = children_of c p.
Proof. apply children_of_dom. by rewrite dom_fmap_L. Qed.

Lemma undo_remove c e n par path :
  c !! path = Some n -> c !! parentPath path = Some par -> parentPath path <> path -> in_range par 0 0 0 ->
  getBaseName path ∈ children par -> (ephemeralOwner (stat n) <> 0 -> path ∈ paths_of e (ephemeralOwner (stat n))) -> forall e1,
  (forall s, paths_of e1 s = if decide (ephemeralOwner (stat n) <> 0 /\ s = ephemeralOwner (stat n)) then paths_of e s ∖ {[path]} else paths_of e s) ->
  exists e0, run_undo (UndoRemove path n (getBaseName path))
    (delete path (<[parentPath path := adjusted 0 1 (-1) (erase_name (getBaseName path)) par]> c)) e1 = Some (c, e0) /\ e0 ≡ e.
Proof.
  intros Hn Hpar Hne Hr Hb Hp e1 He. unfold run_undo, container_insert.
  rewrite (decide_False (P := is_Some _)) by (rewrite lookup_delete_eq; by intros [? ?]). rewrite insert_delete_eq, insert_insert_ne by done.
  rewrite (updateValue_insert _ _ _ _ par).
  - cbn [mbind option_bind]. rewrite (insert_id c path) by done. rewrite insert_id by done. eexists. split; [done|].
    intros s. destruct (decide (ephemeralOwner (stat n) <> 0)) as [Ho|Ho].
    + rewrite paths_of_emplace, He. specialize (Hp Ho). destruct (decide (s = ephemeralOwner (stat n))) as [->|Hs].
      * rewrite decide_True by done. apply set_eq. intros x. destruct (decide (x = path)); set_solver.
      * rewrite decide_False by tauto. done.
    + rewrite He, decide_False by tauto. done.
  - apply (adjust_back 0 1 (-1)); [done|]. unfold add_name, erase_name. apply set_eq. intros x. destruct (decide (x = getBaseName path)); set_solver.
Qed.

Lemma remove_refines mode path version zxid session now c e :
  let q := SRemove path version in
  consistent c e -> good (strip <$> c) session q ->
  implements c e (process mode q zxid session now c e) (tree_step (strip <$> c) q zxid session now).
Proof.
  intros q HC [HR Hroot]. cbn [q process tree_step]. unfold process_remove. rewrite lookup_fmap.
  destruct (c !! path) as [n|] eqn:Hn; cbn [fmap option_fmap option_map]; [|by apply implements_stay].
  destruct (decide (version <> -1 /\ version <> st_version (stat n))) as [Hver|Hver]; rewrite version_bad in Hver.
  { rewrite Hver. by apply implements_stay. }
  apply not_false_is_true in Hver. rewrite Hver. cbn [negb]. rewrite children_strip.
  destruct (ok_node _ _ HC _ _ Hn) as [K1 K2 _ _].
  destruct (decide (numChildren (stat n) <> 0)) as [Hnum|Hnum].
  { rewrite decide_True; [by apply implements_stay|]. intros H0. rewrite K1, H0, size_empty in K2. done. }
  apply dec_stable in Hnum. assert (Hleaf : children_of c path = ∅) by (rewrite <- K1; apply leibniz_equiv, size_empty_inv; lia).
  rewrite (decide_False (P := children_of c path <> ∅)) by (intros H; by apply H). destruct (ok_path _ _ HC path) as [Hv [par Hpar]]; [by eexists|done|].
  pose proof (parent_ne path Hv) as Hne.
  assert (Hmem : ephemeralOwner (stat n) <> 0 -> path ∈ paths_of e (ephemeralOwner (stat n))) by (intros Ho; apply (ok_eph _ _ HC); eauto).
  assert (exists e', (if decide (ephemeralOwner (stat n) <> 0) then eph_remove e (ephemeralOwner (stat n)) path else Some e) = Some e'
    /\ forall s, paths_of e' s = if decide (ephemeralOwner (stat n) <> 0 /\ s = ephemeralOwner (stat n)) then paths_of e s ∖ {[path]} else paths_of e s) as (e' & -> & He').
  { destruct (decide (ephemeralOwner (stat n) <> 0)) as [Ho|Ho].
    - destruct (eph_remove_spec e _ _ (Hmem Ho)) as (e' & -> & He'). exists e'. split; [done|]. intros s. rewrite He'. repeat case_decide; tauto.
    - exists e. split; [done|]. intros s. rewrite decide_False by tauto. done. }
  cbn [mbind option_bind].
  rewrite (updateValue_some c _ par _ _ Hpar (adjust_in _ _ _ _ _ (node_range c e _ _ 0 1 (-1) HC HR Hpar ltac:(lia) ltac:(lia) ltac:(lia)))).
  cbn [mbind option_bind]. eexists _, _, _, _. split; [done|]. split.
  { rewrite (alter_some _ _ _ (strip par)) by (by rewrite lookup_fmap, Hpar). by rewrite fmap_delete, fmap_insert. }
  split; [|split; [done|]].
  - apply (consistent_remove c e e' path par n); try done. intros s p. rewrite He'.
    destruct (decide (ephemeralOwner (stat n) <> 0 /\ s = ephemeralOwner (stat n))) as [Ho|Ho]; [by rewrite elem_of_difference, not_elem_of_singleton|].
    split; [|by intros [? ?]]. intros Hps. split; [done|]. intros ->. apply (ok_eph _ _ HC) in Hps as (Hs & m & Hm & Hmo). naive_solver.
  - intros e1 He1. cbn [run_undos].
    destruct (undo_remove c e n par path Hn Hpar Hne) with (e1 := e1) as (e0 & Hu & He0).
    + by apply (node_range c e _ _ 0 0 0 HC HR Hpar).
    + destruct (ok_node _ _ HC _ _ Hpar) as [-> _ _ _]. apply (base_in_children c e); [done|by eexists|done].
    + done.
    + intros s. by rewrite He1.
    + exists e0. by rewrite Hu.
Qed.

Lemma set_refines mode path d version zxid session now c e :
  let q := SSet path d version in
  consistent c e -> good (strip <$> c) session q ->
  implements c e (process mode q zxid session now c e) (tree_step (strip <$> c) q zxid session now).
Proof.
  intros q HC [HR Hroot]. cbn [q process tree_step]. unfold process_set. rewrite lookup_fmap.
  destruct (c !! path) as [n|] eqn:Hn; cbn [fmap option_fmap option_map]; [|by apply implements_stay].
  destruct (decide (version = -1 \/ version = st_version (stat n))) as [Hver|Hver].
  2:{ assert (version_ok version (strip n) = false) as -> by (apply version_bad; tauto). by apply implements_stay. }
  assert (version_ok version (strip n) = true) as ->.
  { apply not_false_is_true. intros [? ?]%version_bad. tauto. }
  destruct (ok_path _ _ HC path) as [Hv [par Hpar]]; [by eexists|done|]. pose proof (parent_ne path Hv) as Hne.
  destruct (ok_node _ _ HC _ _ Hn) as [K1 K2 K3 K4].
  destruct (HR path (strip n)) as (_ & R2 & _ & _); [by rewrite lookup_fmap, Hn|]. unfold counter_room in R2. cbn in R2.
  assert (Hset : exists n', set_data d zxid now n = Some n' /\ strip n' = written d zxid now (strip n) /\ children n' = children n
    /\ stat n' = stat_of (strip <$> c) path (written d zxid now (strip n))).
  { unfold set_data. rewrite int32_in by lia. eexists. split; [done|]. split; [done|]. split; [done|]. cbn. unfold stat_of. cbn.
    by rewrite children_strip, K2, K1. }
  destruct Hset as (n' & Hset & Hstrip & Hch & Hstat).
  rewrite (updateValue_some c path n _ n' Hn Hset). cbn [mbind option_bind].
  assert (Hpar' : <[path := n']> c !! parentPath path = Some par) by (by rewrite lookup_insert_ne).
  rewrite (updateValue_some _ _ par _ _ Hpar' (adjust_in _ _ _ _ _ (node_range c e _ _ 0 1 0 HC HR Hpar ltac:(lia) ltac:(lia) ltac:(lia)))).
  cbn [mbind option_bind]. set (c2 := <[parentPath path := _]> _).
  assert ((if mode then <[path := n']> c else c2) !! path = Some n') as ->.
  { destruct mode; [by rewrite lookup_insert_eq|]. unfold c2. rewrite lookup_insert_ne by done. by rewrite lookup_insert_eq. }
  cbn [mbind option_bind]. eexists _, _, _, _. split; [done|]. split; [|split; [|split; [done|]]].
  - rewrite (alter_some _ _ _ (strip par)) by (rewrite lookup_insert_ne by done; by rewrite lookup_fmap, Hpar).
    unfold c2. by rewrite Hstat, !fmap_insert, Hstrip.
  - apply (consistent_same c); [done|unfold c2; rewrite !dom_insert_L; apply set_eq; intros x; rewrite !elem_of_union, !elem_of_singleton, elem_of_dom; naive_solver|].
    intros p m m' Hm Hm'. unfold c2 in Hm'. destruct (decide (p = parentPath path)) as [->|H1].
    + rewrite lookup_insert_eq in Hm'. injection Hm' as <-. rewrite Hpar in Hm. injection Hm as <-. cbn. repeat split; [lia|apply (ok_node _ _ HC _ _ Hpar)].
    + rewrite lookup_insert_ne in Hm' by done. destruct (decide (p = path)) as [->|H2].
      * rewrite lookup_insert_eq in Hm'. injection Hm' as <-. rewrite Hn in Hm. injection Hm as <-. rewrite Hch, Hstat. cbn.
        rewrite children_strip, K2, K1. apply (f_equal t_data) in Hstrip. cbn in Hstrip. by rewrite Hstrip.
      * rewrite lookup_insert_ne, Hm in Hm' by done. injection Hm' as <-. repeat split; by apply (ok_node _ _ HC _ _ Hm).
  - intros e1 He1. exists e1. split; [|done]. cbn [run_undos run_undo].
    unfold c2. rewrite insert_insert_ne by done. rewrite (updateValue_insert _ _ _ _ n) by done. cbn [mbind option_bind].
    rewrite insert_insert_ne by done. rewrite (updateValue_insert _ _ _ _ par).
    + cbn [mbind option_bind]. rewrite (insert_id c path) by done. by rewrite insert_id.
    + apply (adjust_back 0 1 0); [|done]. by apply (node_range c e _ _ 0 0 0 HC HR Hpar).
Qed.

Lemma process_refines mode q zxid session now c e :
  consistent c e -> good (strip <$> c) session q ->
  implements c e (process mode q zxid session now c e) (tree_step (strip <$> c) q zxid session now).
Proof.
  intros HC HG. destruct q as [path d is_ephemeral is_sequential|path version|path d version|path version].
  - by apply create_refines.
  - by apply remove_refines.
  - by apply set_refines.
  - cbn [process tree_step]. unfold process_check. rewrite lookup_fmap. destruct (c !! path) as [n|]; cbn [fmap option_fmap option_map];
      [|by apply implements_stay]. case_decide as Hv; rewrite version_bad in Hv; [rewrite Hv|apply not_false_is_true in Hv; rewrite Hv]; by apply implements_stay.
Qed.

Lemma run_undos_cons u us c e : run_undos (u :: us) c e = '(c, e) ← run_undos [u] c e; run_undos us c e.
Proof. destruct u as [u|]; cbn; [|done]. destruct (run_undo u c e) as [[? ?]|]; done. Qed.

Lemma multi_loop mode zxid session clock qs processed us c0 e0 c e :
  consistent c0 e0 -> consistent c e -> good_all (strip <$> c) qs zxid session clock (length processed) ->
  (forall e1, e1 ≡ e -> exists e', run_undos us c e1 = Some (c0, e') /\ e' ≡ e0) ->
  exists c' e', process_multi mode zxid session clock qs processed us c e
      = Some (c', e', (Err.ZOK, MultiResponse (tree_steps (strip <$> c) qs zxid session clock processed).2))
    /\ consistent c' e'
    /\ match (tree_steps (strip <$> c) qs zxid session clock processed).1 with
       | Some T => T = strip <$> c'
       | None => c' = c0 /\ e' ≡ e0
       end.
Proof.
  intros HC0. revert processed us c e. induction qs as [|q qs IH]; intros processed us c e HC HG Hus.
  { exists c, e. done. }
  cbn [process_multi tree_steps good_all] in *. destruct HG as [Hq HG].
  destruct (process_refines mode q zxid session (clock (length processed)) c e HC Hq) as (c' & e' & a & u & Hp & Ht & HC' & Hs & Hu).
  rewrite Hp, Ht. rewrite Ht in HG. cbn [mbind option_bind]. destruct (decide (a.1 <> Err.ZOK)) as [Ha|Ha].
  - destruct (Hs Ha) as [-> ->]. destruct (Hus e) as (e1 & Hr & He1); [done|]. rewrite Hr. cbn [mbind option_bind].
    exists c0, e1. split; [done|]. split; [by rewrite He1|done].
  - apply dec_stable in Ha. specialize (HG Ha). apply IH; [done| |].
    + by rewrite length_app, Nat.add_1_r.
    + intros e1 He1. rewrite run_undos_cons. destruct (Hu e1 He1) as (e2 & -> & He2). cbn [mbind option_bind]. by apply Hus.
Qed.

(** C14: on a consistent tree (children, their numbers and the ephemeral nodes of sessions recorded
    as they are), every create, remove, set or check answers what the reference
    answers, changes the tree as the reference does, and keeps it consistent; a
    request that fails changes nothing.  The requests are ones the storage is made for ([good]):
    none sets or removes the root, the path created is that of its parent and its name (no doubled or final slash), the name of a sequential node is not taken, an ephemeral
    node has a session, and the counters of the nodes have room. *)
Theorem request_refines_tree (mode : bool) (q : StorageRequest) (zxid session now : Z) (c : Container) (e : Ephemerals) :
  consistent c e -> good (strip <$> c) session q ->
  exists c' e' a u, process mode q zxid session now c e = Some (c', e', a, u)
    /\ tree_step (strip <$> c) q zxid session now = (strip <$> c', a)
    /\ consistent c' e' /\ (a.1 <> Err.ZOK -> c' = c /\ e' = e).
Proof.
  intros HC HG. destruct (process_refines mode q zxid session now c e HC HG) as (c' & e' & a & u & H1 & H2 & H3 & H4 & _).
  by exists c', e', a, u.
Qed.

Lemma multi_implements (mode : bool) (qs : list StorageRequest) (zxid session : Z) (clock : nat -> Z)
    (c : Container) (e : Ephemerals) :
  consistent c e -> good_all (strip <$> c) qs zxid session clock 0 ->
  exists c' e' a, process_multi mode zxid session clock qs [] [] c e = Some (c', e', a)
    /\ tree_multi (strip <$> c) qs zxid session clock = (strip <$> c', a)
    /\ consistent c' e'
    /\ ((tree_steps (strip <$> c) qs zxid session clock []).1 = None -> c' = c /\ e' ≡ e).
Proof.
  intros HC HG. destruct (multi_loop mode zxid session clock qs [] [] c e c e) as (c' & e' & Hp & HC' & Hm); [done..| |].
  { intros e1 He1. by exists e1. }
  eexists c', e', _. split; [exact Hp|]. unfold tree_multi. destruct (tree_steps (strip <$> c) qs zxid session clock []) as [[T|] responses]; cbn [fst snd default from_option id] in *.
  - subst T. split; [done|]. split; [done|]. done.
  - destruct Hm as [-> He]. done.
Qed.

(** C6: a multi request is atomic.  The requests are ones the storage is made for ([good_all], each in the tree the earlier ones leave):
    none sets or removes the root, the path created is that of its parent and its name (no doubled or final slash), the name of a sequential node is not taken, an ephemeral
    node has a session, and the counters of the nodes have room.  It answers and changes the tree as the reference, in which a
    request that fails makes the whole have no effect; after one that fails the undo
    actions have restored every node, and the ephemeral nodes of every session. *)
Theorem multi_refines_tree (mode : bool) (qs : list StorageRequest) (zxid session : Z) (clock : nat -> Z)
    (c : Container) (e : Ephemerals) :
  consistent c e -> good_all (strip <$> c) qs zxid session clock 0 ->
  exists c' e' a, process_multi mode zxid session clock qs [] [] c e = Some (c', e', a)
    /\ tree_multi (strip <$> c) qs zxid session clock = (strip <$> c', a)
    /\ consistent c' e'
    /\ ((tree_steps (strip <$> c) qs zxid session clock []).1 = None -> c' = c /\ e' ≡ e).
Proof. apply multi_implements. Qed.

(** A new storage is consistent. *)
Lemma consistent_initial : consistent {[root := new_node]} ∅.
Proof.
  split.
  - exists new_node. by rewrite lookup_singleton_eq.
  - intros p [n [<- _]%lookup_singleton_Some] Hp. done.
  - intros p n [<- <-]%lookup_singleton_Some. split; done.
  - intros s p. unfold paths_of. rewrite lookup_empty. cbn. split; [set_solver|]. intros (Hs & n & [_ <-]%lookup_singleton_Some & Ho). by rewrite <- Ho in Hs.
Qed.

#[export] Instance counter_room_dec z : Decision (counter_room z).
Proof. unfold counter_room. apply _. Defined.
#[export] Instance room_dec T : Decision (room T).
Proof.
  refine (map_Forall_dec (fun p a => counter_room (t_seq a) /\ counter_room (t_version a) /\ counter_room (t_cversion a)
    /\ Z.of_nat (size (children_of T p)) + 1 < 2 ^ 31) T).
Defined.

#[export] Instance good_request_dec T session q : Decision (good T session q).
Proof.
  unfold good, valid_path. destruct q as [path ? ? is_sequential| | |]; try apply _. destruct (T !! parentPath path); [|apply _]. destruct is_sequential.
  - apply _.
  - apply and_dec; [apply _|]. apply and_dec; [apply _|]. apply and_dec; [apply _|]. left. done.
Defined.
#[export] Instance good_all_dec T qs zxid session clock i : Decision (good_all T qs zxid session clock i).
Proof.
  revert T i. induction qs as [|q qs IH]; intros T i; cbn [good_all]; [left; done|]. apply and_dec; [apply _|].
  destruct (tree_step T q zxid session (clock i)) as [T' a]. destruct (decide (a.1 = Err.ZOK)); [|left; done].
  destruct (IH T' (S i)); [left; done|right; tauto].
Defined.

Definition clock0 : nat -> Z := fun _ => 1000.

Lemma request_refines_tree_witness :
  exists c' e' a u, process false (SCreate (lit "/q-") (lit "x") true true) 5 7 1000 {[root := new_node]} ∅ = Some (c', e', a, u)
    /\ tree_step (strip <$> {[root := new_node]}) (SCreate (lit "/q-") (lit "x") true true) 5 7 1000 = (strip <$> c', a)
    /\ consistent c' e' /\ (a.1 <> Err.ZOK -> c' = {[root := new_node]} /\ e' = ∅).
Proof.
  apply (request_refines_tree false (SCreate (lit "/q-") (lit "x") true true) 5 7 1000 {[root := new_node]} ∅ consistent_initial).
  apply (bool_decide_unpack _). vm_compute. exact I.
Defined.

Definition example_requests : list StorageRequest :=
  [SCreate (lit "/a") [] false false; SCreate (lit "/a/b-") (lit "x") true true; SSet (lit "/a") (lit "y") 0; SCheck (lit "/c") 3].

(** The check fails: everything is as before. *)
Lemma multi_refines_tree_witness :
  exists c' e' a, process_multi false 5 7 clock0 example_requests [] [] {[root := new_node]} ∅ = Some (c', e', a)
    /\ c' = {[root := new_node]} /\ e' ≡ ∅.
Proof.
  destruct (multi_refines_tree false example_requests 5 7 clock0 {[root := new_node]} ∅ consistent_initial) as (c' & e' & a & Hp & _ & _ & Hf).
  - apply (bool_decide_unpack _). vm_compute. exact I.
  - exists c', e', a. split; [exact Hp|]. apply Hf. vm_compute. reflexivity.
Defined.
