(* ===== verification/KeeperSession.v ===== *)
(** * KeeperSession: the invariant of the storage over requests, sessions and watches

    processRequest of [KeeperStorage] keeps the tree consistent ([KeeperTree]) and the
    watches of a session listed with the session, for every kind of request; closing a
    session leaves none of its nodes and watches behind.  The last part shows by
    examples what the code does with the requests this excludes, and which
    watches a multi request fires when it fails. *)

From S2P Require Import Prelude TextFormat WalRecord Wire ZooKeeper SessionQueue KeeperStorage KeeperTree.
Import Storage.

Local Open Scope Z_scope.

(** ** Watches *)

Definition sessions_at (w : Watches) (path : str) : list Z := default [] (w !! path).

(** The watches a session has are among the paths listed for it. *)
Definition watches_ok (w lw : Watches) (sw : gmap Z (gset str)) : Prop :=
  forall path s, s ∈ sessions_at w path \/ s ∈ sessions_at lw path -> path ∈ default ∅ (sw !! s).

Record storage_ok (s : storage) : Prop := {
  so_tree : consistent (container s) (ephemerals s);
  so_watches : watches_ok (watches s) (list_watches s) (sessions_and_watchers s)
}.

Definition fewer (w w' : Watches) : Prop := forall path s, s ∈ sessions_at w' path -> s ∈ sessions_at w path.

#[export] Instance fewer_preorder : PreOrder fewer.
Proof. split; [by intros w path s|]. intros w1 w2 w3 H1 H2 path s H. by apply H1, H2. Qed.

Lemma fire_fewer path event w : fewer w (fire path event w).2.
Proof.
  unfold fire. destruct (w !! path) as [l|] eqn:Hw; [|done]. intros p s. unfold sessions_at. cbn.
  destruct (decide (p = path)) as [->|Hne]; [rewrite lookup_delete_eq; by intros ?%not_elem_of_nil|by rewrite lookup_delete_ne].
Qed.

Lemma impl_fewer path event w lw r w' lw' : processWatchesImpl path event w lw = (r, w', lw') -> fewer w w' /\ fewer lw lw'.
Proof.
  unfold processWatchesImpl. pose proof (fire_fewer path event w) as H1. pose proof (fire_fewer (parentPath path) CHILD lw) as H2.
  destruct (fire path event w) as [r1 w1], (fire (parentPath path) CHILD lw) as [r2 lw1]. by intros [= _ <- <-].
Qed.

Lemma watches_fewer q w lw r w' lw' : processWatches q w lw = (r, w', lw') -> fewer w w' /\ fewer lw lw'.
Proof. destruct q; cbn [processWatches]; [by apply impl_fewer..|]. by intros [= _ <- <-]. Qed.

Lemma watches_multi_fewer qs w lw r w' lw' : processWatches_multi qs w lw = (r, w', lw') -> fewer w w' /\ fewer lw lw'.
Proof.
  revert w lw r. induction qs as [|q qs IH]; intros w lw r; cbn [processWatches_multi]; [by intros [= _ <- <-]|].
  destruct (processWatches q w lw) as [[r1 w1] lw1] eqn:H1. destruct (processWatches_multi qs w1 lw1) as [[r2 w2] lw2] eqn:H2.
  intros [= _ <- <-]. apply watches_fewer in H1 as [? ?]. apply IH in H2 as [? ?]. split; by etrans.
Qed.

Lemma request_fewer r w lw rs w' lw' : request_watches r w lw = (rs, w', lw') -> fewer w w' /\ fewer lw lw'.
Proof.
  assert (Hs : forall x : result StorageRequest, match x with Ok q => processWatches q w lw | Throw _ => ([], w, lw) end = (rs, w', lw') -> fewer w w' /\ fewer lw lw').
  { intros [q|e]; [by apply watches_fewer|]. by intros [= _ <- <-]. }
  destruct r as [| | | | | | | | | | |l|]; cbn [request_watches]; try apply Hs.
  destruct (concrete_requests l) as [qs|e]; [by apply watches_multi_fewer|]. by intros [= _ <- <-].
Qed.

Lemma watches_ok_fewer w lw sw w' lw' : fewer w w' -> fewer lw lw' -> watches_ok w lw sw -> watches_ok w' lw' sw.
Proof. intros H1 H2 Hok path s [H|H]; apply Hok; [left; by apply H1|right; by apply H2]. Qed.

Lemma sessions_at_add w path s p s' : s' ∈ sessions_at (add_watch w path s) p <-> s' ∈ sessions_at w p \/ (p = path /\ s' = s).
Proof.
  unfold sessions_at, add_watch. destruct (decide (p = path)) as [->|Hne].
  - rewrite lookup_insert_eq. cbn. rewrite elem_of_app, list_elem_of_singleton. naive_solver.
  - rewrite lookup_insert_ne by done. naive_solver.
Qed.

Lemma sessions_at_erase s w path p s' : s' ∈ sessions_at (erase_watcher s w path) p <-> s' ∈ sessions_at w p /\ ~ (p = path /\ s' = s).
Proof.
  unfold sessions_at, erase_watcher. destruct (w !! path) as [l|] eqn:Hw.
  - destruct (decide (p = path)) as [->|Hne].
    + rewrite Hw. case_decide as Hl.
      * rewrite lookup_delete_eq. cbn. assert (Hf : s' ∉ filter (fun x => x <> s) l) by (rewrite Hl; by apply not_elem_of_nil).
        rewrite list_elem_of_filter in Hf. split; [by intros ?%not_elem_of_nil|]. intros [H1 H2]. destruct Hf. split; [|done]. intros ->. by apply H2.
      * rewrite lookup_insert_eq. cbn. rewrite list_elem_of_filter. naive_solver.
    + case_decide; [rewrite lookup_delete_ne by done|rewrite lookup_insert_ne by done]; naive_solver.
  - destruct (decide (p = path)) as [->|Hne]; [|naive_solver]. rewrite Hw. cbn. split; [by intros ?%not_elem_of_nil|]. by intros [?%not_elem_of_nil _].
Qed.

Lemma erase_all s w paths p s' :
  s' ∈ sessions_at (foldl (erase_watcher s) w paths) p <-> s' ∈ sessions_at w p /\ ~ (p ∈ paths /\ s' = s).
Proof.
  revert w. induction paths as [|x l IH]; intros w; cbn [foldl].
  - split; [|tauto]. intros H. split; [done|]. by intros [?%not_elem_of_nil _].
  - rewrite IH, sessions_at_erase, elem_of_cons. naive_solver.
Qed.

(** After the watches of a session are cleared it has none, and others keep theirs. *)
Lemma clearDeadWatches_ok s session :
  watches_ok (watches s) (list_watches s) (sessions_and_watchers s) ->
  let s' := clearDeadWatches s session in
  watches_ok (watches s') (list_watches s') (sessions_and_watchers s')
  /\ (forall path, session ∉ sessions_at (watches s') path /\ session ∉ sessions_at (list_watches s') path)
  /\ (forall path s1, s1 <> session -> s1 ∈ sessions_at (watches s') path <-> s1 ∈ sessions_at (watches s) path).
Proof.
  intros Hok. unfold clearDeadWatches. destruct (sessions_and_watchers s !! session) as [paths|] eqn:Hs; cbn.
  - repeat setoid_rewrite erase_all. repeat setoid_rewrite elem_of_elements. split; [|split].
    + intros path s1. rewrite !erase_all, !elem_of_elements. intros H.
      assert (Hp : path ∈ default ∅ (sessions_and_watchers s !! s1)) by (apply Hok; tauto).
      destruct (decide (s1 = session)) as [->|Hne]; [rewrite Hs in Hp; cbn in Hp; tauto|]. by rewrite lookup_delete_ne.
    + intros path. assert (Hin : session ∈ sessions_at (watches s) path \/ session ∈ sessions_at (list_watches s) path -> path ∈ paths).
      { intros H. specialize (Hok path session H). by rewrite Hs in Hok. }
      tauto.
    + tauto.
  - split; [done|]. split; [|done]. intros path.
    split; intros H; [specialize (Hok path session (or_introl H))|specialize (Hok path session (or_intror H))]; rewrite Hs in Hok; cbn in Hok; set_solver.
Qed.

(** ** Closing a session *)

(** Counters have room for [k] changes below each node. *)
Definition close_room (k : nat) (c : Container) : Prop :=
  forall p n, c !! p = Some n -> - 2 ^ 31 <= seq_num n < 2 ^ 31 /\ - 2 ^ 31 <= cversion (stat n)
    /\ cversion (stat n) + Z.of_nat k < 2 ^ 31 /\ numChildren (stat n) < 2 ^ 31.

(** [c'] is [c] without the nodes of [session]; what is left keeps its data. *)
Definition pruned (session : Z) (c c' : Container) : Prop :=
  (forall p n', c' !! p = Some n' -> exists n, c !! p = Some n /\ ephemeralOwner (stat n) <> session
     /\ data n' = data n /\ st_version (stat n') = st_version (stat n) /\ ephemeralOwner (stat n') = ephemeralOwner (stat n))
  /\ (forall p n, c !! p = Some n -> ephemeralOwner (stat n) <> session -> is_Some (c' !! p)).

Lemma close_ephemerals_ok paths c e w lw session :
  consistent c e -> session <> 0 -> NoDup paths -> (forall p, p ∈ paths <-> p ∈ paths_of e session) -> close_room (length paths) c ->
  exists c' w' lw' responses, close_ephemerals paths c w lw = Some (c', w', lw', responses)
    /\ consistent c' (delete session e) /\ pruned session c c' /\ fewer w w' /\ fewer lw lw'.
Proof.
  intros HC Hs. revert c e w lw HC. induction paths as [|path paths IH]; intros c e w lw HC Hnd Hps Hroom; cbn [close_ephemerals].
  { assert (He : delete session e ≡ e).
    { intros s. unfold paths_of. destruct (decide (s = session)) as [->|Hne]; [|by rewrite lookup_delete_ne].
      rewrite lookup_delete_eq. cbn. apply set_eq. intros p. fold (paths_of e session). rewrite <- Hps. set_solver. }
    exists c, w, lw, []. split; [done|]. split; [by rewrite He|]. split; [|done]. split.
    - intros p n Hn. exists n. split; [done|]. split; [|done]. intros Ho.
      assert (p ∈ paths_of e session) as Hp by (apply (ok_eph _ _ HC); eauto). apply Hps in Hp. by apply not_elem_of_nil in Hp.
    - intros p n Hn _. by eexists. }
  apply NoDup_cons in Hnd as [Hnot Hnd]. assert (Hin : path ∈ paths_of e session) by (apply Hps; left).
  apply (ok_eph _ _ HC) in Hin as (_ & n & Hn & Ho).
  assert (Hroot : path <> root) by (intros ->; destruct (ok_root _ _ HC) as (r & Hr & Hro); congruence).
  destruct (ok_path _ _ HC path) as [Hv [par Hpar]]; [by eexists|done|]. pose proof (parent_ne path Hv) as Hne.
  destruct (ok_node _ _ HC _ _ Hn) as [K1 _ _ K4]. destruct (ok_node _ _ HC _ _ Hpar) as [P1 P2 _ _].
  assert (Hadj : adjust 0 1 (-1) (erase_name (getBaseName path)) par = Some (adjusted 0 1 (-1) (erase_name (getBaseName path)) par)).
  { apply adjust_in. destruct (Hroom _ _ Hpar) as (R1 & R2 & R3 & R4). cbn [length] in R3. unfold in_range. lia. }
  rewrite (updateValue_some _ _ par _ _ (eq_trans (lookup_delete_ne _ _ _ (not_eq_sym Hne)) Hpar) Hadj). cbn [mbind option_bind].
  rewrite <- delete_insert_ne by done.
  set (e1 := <[session := paths_of e session ∖ {[path]}]> e).
  assert (He1 : forall s p, p ∈ paths_of e1 s <-> p ∈ paths_of e s /\ p <> path).
  { intros s p. unfold e1, paths_of at 1. destruct (decide (s = session)) as [->|Hx].
    - rewrite lookup_insert_eq. cbn. by rewrite elem_of_difference, not_elem_of_singleton.
    - rewrite lookup_insert_ne by done. fold (paths_of e s). split; [|by intros [? _]]. intros Hp. split; [done|]. intros ->.
      apply (ok_eph _ _ HC) in Hp as (_ & m & Hm & Hmo). congruence. }
  pose proof (consistent_remove c e e1 path par n HC Hn Hroot ltac:(rewrite <- K1; apply K4; congruence) Hpar He1) as HC1.
  destruct (processWatchesImpl path DELETED w lw) as [[r1 w1] lw1] eqn:Hw. apply impl_fewer in Hw as [Hw Hlw].
  set (c1 := delete path _) in *.
  assert (Hc1 : forall p, c1 !! p = if decide (p = path) then None else if decide (p = parentPath path) then Some (adjusted 0 1 (-1) (erase_name (getBaseName path)) par) else c !! p).
  { intros p. unfold c1. repeat case_decide; subst; [by rewrite lookup_delete_eq|rewrite lookup_delete_ne by done..]; [by rewrite lookup_insert_eq|by rewrite lookup_insert_ne]. }
  destruct (IH c1 e1 w1 lw1 HC1 Hnd) as (c' & w' & lw' & rs & Hr & HC' & [Hp1 Hp2] & Hw' & Hlw').
  - intros p. rewrite He1, <- Hps, elem_of_cons. split; [|naive_solver]. intros H. split; [by right|]. by intros ->.
  - intros p m. rewrite Hc1. case_decide; [done|]. case_decide.
    + intros [= <-]. destruct (Hroom _ _ Hpar) as (R1 & R2 & R3 & R4). cbn [length] in R3. cbn. lia.
    + intros Hm. destruct (Hroom _ _ Hm) as (R1 & R2 & R3 & R4). cbn [length] in R3. lia.
  - rewrite Hr. cbn [mbind option_bind]. eexists c', w', lw', _. split; [done|]. split; [|split; [split|split; by etrans]].
    + unfold e1 in HC'. by rewrite delete_insert_eq in HC'.
    + intros p n' Hn'. destruct (Hp1 p n' Hn') as (m & Hm & Hrest). rewrite Hc1 in Hm. case_decide; [done|]. case_decide; [|by eauto].
      injection Hm as <-. subst p. exists par. done.
    + intros p m Hm Hmo. apply (Hp2 p (if decide (p = parentPath path) then adjusted 0 1 (-1) (erase_name (getBaseName path)) par else m)).
      * rewrite Hc1, decide_False by congruence. by case_decide.
      * case_decide; [|done]. subst p. cbn. congruence.
Qed.

Definition order_ok (env : environment) : Prop := forall names, set_order env names ≡ₚ elements names.

Lemma close_nodes_ok s session env :
  storage_ok s -> session <> 0 -> order_ok env -> close_room (size (paths_of (ephemerals s) session)) (container s) ->
  exists s' fired, close_nodes s session env = Some (s', fired) /\ storage_ok s' /\ pruned session (container s) (container s')
    /\ ephemerals s' !! session = None /\ zxid s' = zxid s.
Proof.
  intros [HC HW] Hs Ho Hroom. unfold order_ok in Ho. unfold close_nodes. destruct (ephemerals s !! session) as [paths|] eqn:Hl.
  - assert (Hpo : paths_of (ephemerals s) session = paths) by (unfold paths_of; by rewrite Hl). rewrite Hpo in Hroom.
    destruct (close_ephemerals_ok (set_order env paths) (container s) (ephemerals s) (watches s) (list_watches s) session HC Hs)
      as (c' & w' & lw' & rs & Hr & HC' & Hp & Hw & Hlw).
    + rewrite (Ho paths). apply NoDup_elements.
    + intros p. rewrite (Ho paths), elem_of_elements. by rewrite Hpo.
    + by rewrite (Ho paths).
    + rewrite Hr. cbn [mbind option_bind]. eexists _, _. split; [done|]. split; [split; [done|by apply (watches_ok_fewer (watches s) (list_watches s))]|].
      split; [done|]. split; [by apply lookup_delete_eq|done].
  - eexists _, _. split; [done|]. split; [done|]. split; [|done]. split.
    + intros p n Hn. exists n. split; [done|]. split; [|done]. intros Hn'.
      assert (p ∈ paths_of (ephemerals s) session) as Hp by (apply (ok_eph _ _ HC); eauto). unfold paths_of in Hp. rewrite Hl in Hp. set_solver.
    + intros p n Hn _. by eexists.
Qed.

Lemma process_close_ok s session xid env :
  storage_ok s -> session <> 0 -> order_ok env -> close_room (size (paths_of (ephemerals s) session)) (container s) ->
  exists s' fired, process_close s session xid env = Some (s', fired ++ [(session, mkResponse xid (zxid s) Err.ZOK CloseResponse)])
    /\ storage_ok s' /\ pruned session (container s) (container s')
    /\ (forall path, session ∉ sessions_at (watches s') path /\ session ∉ sessions_at (list_watches s') path)
    /\ ephemerals s' !! session = None /\ session_and_timeout s' !! session = None.
Proof.
  intros HS Hs Ho Hroom. unfold process_close.
  destruct (close_nodes_ok s session env HS Hs Ho Hroom) as (s1 & fired & -> & [HC1 HW1] & Hp & He & Hz).
  cbn [mbind option_bind]. destruct (clearDeadWatches_ok s1 session HW1) as (HW2 & Hno & _).
  assert (Hsame : container (clearDeadWatches s1 session) = container s1 /\ ephemerals (clearDeadWatches s1 session) = ephemerals s1
    /\ zxid (clearDeadWatches s1 session) = zxid s1) by (unfold clearDeadWatches; by destruct (sessions_and_watchers s1 !! session)).
  destruct Hsame as (E1 & E2 & E3). eexists _, fired. split; [cbn; by rewrite E3, Hz|]. cbn. rewrite E1, E2.
  split; [split; cbn; [by rewrite E1, E2|done]|]. split; [done|]. split; [done|]. split; [done|]. apply lookup_delete_eq.
Qed.

Definition good_message (s : storage) (zx session : Z) (env : environment) (r : zk_request) : Prop :=
  match r with
  | CloseRequest => close_room (size (paths_of (ephemerals s) session)) (container s)
  | MultiRequest rs =>
      match concrete_requests rs with
      | Ok qs => good_all (strip <$> container s) qs zx session (op_now_ms env) 0
      | Throw _ => True
      end
  | _ => match concrete_request r with Ok q => good (strip <$> container s) session q | Throw _ => True end
  end.

(** A handler is defined and keeps the tree consistent. *)
Lemma single_ok s q session now :
  consistent (container s) (ephemerals s) -> good (strip <$> container s) session q ->
  exists x, ('(c, e, a, _) ← process (snapshot_mode s) q (zxid s) session now (container s) (ephemerals s); Some (Ok (c, e, a))) = Some x
    /\ forall c e (a : answer), x = Ok (c, e, a) -> consistent c e.
Proof.
  intros HC HG. destruct (process_refines (snapshot_mode s) q (zxid s) session now _ _ HC HG) as (c & e & a & u & -> & _ & HC' & _).
  cbn [mbind option_bind]. eexists. split; [done|]. by intros ? ? ? [= <- <- <-].
Qed.

Lemma run_request_ok s r session env :
  consistent (container s) (ephemerals s) -> good_message s (zxid s) session env r ->
  exists x, run_request s r session env = Some x /\ forall c e a, x = Ok (c, e, a) -> consistent c e.
Proof.
  intros HC HG. destruct r as [|path|? ? ?| |path d eph sq acls|path v|path hw|path hw|path d v|simple path hw|path v|rs|? ? ?];
    cbn [run_request good_message concrete_request] in *; try (eexists; split; [done|]; by intros ? ? ? [= <- <- <-]); try (eexists; split; [done|]; done).
  - by apply (single_ok s _ session).
  - by apply (single_ok s _ session).
  - by apply (single_ok s _ session).
  - eexists. split; [done|]. intros c e a. destruct (process_list (set_order env) path (container s)); [|done]. by intros [= <- <- <-].
  - destruct (concrete_requests rs) as [qs|x]; [|by eexists].
    destruct (multi_loop (snapshot_mode s) (zxid s) session (op_now_ms env) qs [] [] (container s) (ephemerals s) (container s) (ephemerals s))
      as (c & e & -> & HC' & _); [done|done|done|intros e1 He1; by exists e1|]. cbn. eexists. split; [done|]. by intros ? ? ? [= <- <- <-].
Qed.

Lemma register_watch_ok s r session error : storage_ok s -> storage_ok (register_watch s r session error).
Proof.
  intros [HC HW]. unfold register_watch.
  assert (Hadd : forall w lw p, (w, lw) = (add_watch (watches s) p session, list_watches s) \/ (w, lw) = (watches s, add_watch (list_watches s) p session) ->
    watches_ok w lw (<[session := default ∅ (sessions_and_watchers s !! session) ∪ {[p]}]> (sessions_and_watchers s))).
  { intros w lw p Hw path s'. intros Hin.
    assert (Hor : (s' ∈ sessions_at (watches s) path \/ s' ∈ sessions_at (list_watches s) path) \/ (path = p /\ s' = session)).
    { destruct Hw as [[= -> ->]|[= -> ->]]; rewrite sessions_at_add in Hin; tauto. }
    destruct (decide (s' = session)) as [->|Hne].
    - rewrite lookup_insert_eq. cbn. destruct Hor as [Hor|[-> _]]; [apply HW in Hor|]; set_solver.
    - rewrite lookup_insert_ne by done. apply HW. tauto. }
  destruct (has_watch r); [|done]. case_decide; [|case_decide; [|done]].
  - destruct r; (split; [exact HC|]); (apply Hadd; first [by left|by right]).
  - split; [exact HC|]. apply Hadd. by left.
Qed.

(** The requests that are neither a heartbeat nor the end of a session. *)
Lemma process_other_ok s m session env :
  storage_ok s -> good_message s (zxid s) session env (body m) ->
  exists s' r, process_other s m session env = Some (s', r) /\ storage_ok s'.
Proof.
  intros HS HG. unfold process_other. destruct (run_request_ok s (body m) session env (so_tree _ HS) HG) as (x & -> & HC).
  cbn [mbind option_bind]. destruct x as [[[c e] [error b]]|x]; [|by eauto]. cbv zeta.
  set (s1 := register_watch (with_tree s c e) (body m) session error).
  assert (HS1 : storage_ok s1) by (apply register_watch_ok; split; [by eapply HC|apply HS]). destruct HS1 as [HC1 HW1].
  destruct (if decide (error = Err.ZOK) then _ else _) as [[fired w] lw] eqn:Hf. eexists _, _. split; [done|].
  split; cbn; [done|]. apply (watches_ok_fewer (watches s1) (list_watches s1)); [..|done].
  - destruct (decide (error = Err.ZOK)); [by apply request_fewer in Hf as [? _]|by injection Hf as _ <- _].
  - destruct (decide (error = Err.ZOK)); [by apply request_fewer in Hf as [_ ?]|by injection Hf as _ _ <-].
Qed.

Definition next_zxid (s : storage) (new_last_zxid : option Z) : Z := default (zxid s) new_last_zxid.

(** C18: processing a committed request of any kind, which the storage is made for, is defined and keeps the invariant of
    the storage.  Made for ([good_message]): no set or removal of the root, a path created is that of its parent and its name, the name of a
    sequential node is not taken, counters have room, also for the nodes that a close removes; a session other than 0; and an expiry time of the session in range.  The invariant: the tree with its stored copies of children and ephemeral nodes is
    consistent, and every watch of a session is listed with the session. *)
Theorem processRequest_invariant (s : storage) (m : zk_message) (session : Z) (new_last_zxid : option Z) (env : environment) :
  storage_ok s -> session <> 0 -> order_ok env ->
  good_message s (next_zxid s new_last_zxid) session env (body m) ->
  is_Some (SessionExpiryQueue.update (session_expiry_queue s) session (default 0 (session_and_timeout s !! session)) (now_ms env)) ->
  exists s' r, processRequest s m session new_last_zxid env = Some (s', r) /\ storage_ok s'.
Proof.
  intros HS Hs Ho HG Hq. unfold processRequest. destruct (match new_last_zxid with Some z => bool_decide (zxid s >= z) | None => false end); [by eauto|].
  set (s0 := match new_last_zxid with Some z => with_zxid s z | None => s end).
  assert (E : container s0 = container s /\ ephemerals s0 = ephemerals s /\ zxid s0 = next_zxid s new_last_zxid
    /\ session_expiry_queue s0 = session_expiry_queue s /\ session_and_timeout s0 = session_and_timeout s /\ storage_ok s0).
  { unfold s0. destruct new_last_zxid; do 5 (split; [done|]); [|done]. destruct HS; by split. }
  destruct E as (E1 & E2 & E3 & E4 & E5 & HS0). rewrite E4, E5. destruct Hq as [[queue b] ->]. cbn [mbind option_bind].
  set (s1 := with_sessions s0 _ _ _). assert (HS1 : storage_ok s1) by (destruct HS0; by split).
  assert (HG1 : good_message s1 (zxid s1) session env (body m)).
  { unfold good_message in *. cbn. rewrite E1, E2, E3. done. }
  pose proof (process_other_ok s1 m session env HS1 HG1) as Hother. destruct (body m); try exact Hother; [by eauto|].
  destruct (process_close_ok s1 session (xid m) env HS1 Hs Ho HG1) as (s' & fired & -> & HS' & _). cbn [mbind option_bind]. eauto.
Qed.

Lemma create_storage_ok tick now s : create_storage tick now = Some s -> storage_ok s.
Proof.
  unfold create_storage. destruct (SessionExpiryQueue.create tick now); [|done]. cbn. intros [= <-]. split; [apply consistent_initial|].
  intros path x [H|H]; unfold sessions_at in H; cbn in H; rewrite lookup_empty in H; by apply not_elem_of_nil in H.
Qed.

Definition env0 : environment := mkEnv 1000 clock0 (fun names => elements names).

(** A storage with the nodes and sessions that requests of session 1 make. *)
Definition queue0 : SessionExpiryQueue.t := SessionExpiryQueue.mk {[1 := 1500]} {[1500 := {[1]}]} 500 1500.
Definition storage0 : storage := mkStorage 2 {[root := new_node]} false ∅ ∅ queue0 {[1 := 300]} 4 false ∅ ∅.

Lemma storage0_ok : storage_ok storage0.
Proof.
  split; [apply consistent_initial|]. intros path x [H|H]; unfold sessions_at in H; cbn in H; rewrite lookup_empty in H; by apply not_elem_of_nil in H.
Qed.

Lemma processRequest_invariant_witness :
  exists s' r, processRequest storage0 (mkMessage 1 (CreateRequest (lit "/e-") (lit "x") true true [])) 1 (Some 5) env0 = Some (s', r)
    /\ storage_ok s'.
Proof.
  apply (processRequest_invariant storage0 (mkMessage 1 (CreateRequest (lit "/e-") (lit "x") true true [])) 1 (Some 5) env0 storage0_ok).
  - done.
  - by intros names.
  - apply (bool_decide_unpack (good _ _ _)). vm_compute. exact I.
  - vm_compute. by eexists.
Defined.

(** Closing a session, by its client or when it has expired, removes exactly the ephemeral
    nodes of the session from the tree, whatever order they are walked in, and every
    watch of the session; the client gets its answer last. *)
Lemma close_leaves_nothing (s : storage) (xid session z : Z) (env : environment) :
  storage_ok s -> session <> 0 -> order_ok env -> zxid s < z ->
  close_room (size (paths_of (ephemerals s) session)) (container s) ->
  is_Some (SessionExpiryQueue.update (session_expiry_queue s) session (default 0 (session_and_timeout s !! session)) (now_ms env)) ->
  exists s' fired, processRequest s (mkMessage xid CloseRequest) session (Some z) env
      = Some (s', Ok (fired ++ [(session, mkResponse xid z Err.ZOK CloseResponse)]))
    /\ storage_ok s' /\ pruned session (container s) (container s')
    /\ (forall path, session ∉ sessions_at (watches s') path /\ session ∉ sessions_at (list_watches s') path)
    /\ ephemerals s' !! session = None /\ session_and_timeout s' !! session = None.
Proof.
  intros HS Hs Ho Hz Hroom [[queue b] Hq]. unfold processRequest. rewrite bool_decide_eq_false_2 by lia. cbn [session_expiry_queue session_and_timeout with_zxid].
  rewrite Hq. cbn [mbind option_bind body].
  destruct (process_close_ok (with_sessions (with_zxid s z) (session_id_counter s) queue (<[session := default 0 (session_and_timeout s !! session)]> (session_and_timeout s))) session xid env)
    as (s' & fired & Hc & Hrest); [destruct HS; by split|done|done|done|].
  exists s', fired. cbn in *. rewrite Hc. done.
Qed.

(** A storage with an ephemeral node of session 1. *)
Definition create_e : zk_message := mkMessage 1 (CreateRequest (lit "/e-") (lit "x") true true []).
Definition storage1 : storage := match process_other storage0 create_e 1 env0 with Some (s, _) => s | None => storage0 end.

Lemma storage1_ok : storage_ok storage1.
Proof.
  unfold storage1. destruct (process_other_ok storage0 create_e 1 env0 storage0_ok) as (s & r & -> & HS); [|done].
  apply (bool_decide_unpack (good _ _ _)). vm_compute. exact I.
Qed.

#[export] Instance close_room_dec k c : Decision (close_room k c).
Proof.
  refine (map_Forall_dec (fun p n => - 2 ^ 31 <= seq_num n < 2 ^ 31 /\ - 2 ^ 31 <= cversion (stat n)
    /\ cversion (stat n) + Z.of_nat k < 2 ^ 31 /\ numChildren (stat n) < 2 ^ 31) c).
Defined.

Lemma close_leaves_nothing_witness :
  exists s' fired, processRequest storage1 (mkMessage 2 CloseRequest) 1 (Some 6) env0
      = Some (s', Ok (fired ++ [(1, mkResponse 2 6 Err.ZOK CloseResponse)]))
    /\ storage_ok s' /\ pruned 1 (container storage1) (container s')
    /\ (forall path, 1 ∉ sessions_at (watches s') path /\ 1 ∉ sessions_at (list_watches s') path)
    /\ ephemerals s' !! 1 = None /\ session_and_timeout s' !! 1 = None.
Proof.
  apply (close_leaves_nothing storage1 2 1 6 env0 storage1_ok); [done|by intros names|vm_compute; done| |vm_compute; by eexists].
  apply (bool_decide_unpack _). vm_compute. exact I.
Defined.

(** ** What happens outside the invariant, and with watches of a multi request that fails *)

(** A multi request that fails changes no node, and yet the watches of all its operations
    fire, those that were undone and those that were never tried: the error of its
    response stays ZOK, which is what processRequest looks at. *)
Lemma failed_multi_fires_watches (s : storage) (x session : Z) (rs : list zk_request) (qs : list StorageRequest) (env : environment) :
  storage_ok s -> concrete_requests rs = Ok qs ->
  good_all (strip <$> container s) qs (zxid s) session (op_now_ms env) 0 ->
  (tree_steps (strip <$> container s) qs (zxid s) session (op_now_ms env) []).1 = None ->
  exists s' response, process_other s (mkMessage x (MultiRequest rs)) session env
      = Some (s', Ok ((processWatches_multi qs (watches s) (list_watches s)).1.1 ++ [(session, response)]))
    /\ container s' = container s /\ r_error response = Err.ZOK.
Proof.
  intros [HC _] Hqs HG Hf. unfold process_other. cbn [body run_request]. rewrite Hqs.
  destruct (multi_loop (snapshot_mode s) (zxid s) session (op_now_ms env) qs [] [] (container s) (ephemerals s) (container s) (ephemerals s))
    as (c & e & -> & _ & Hm); [done|done|done|intros e1 He1; by exists e1|]. rewrite Hf in Hm. destruct Hm as [-> _].
  cbn [fmap option_fmap option_map mbind option_bind]. cbv zeta. rewrite (decide_True (P := Err.ZOK = Err.ZOK)) by done. cbn [request_watches register_watch has_watch].
  rewrite Hqs. cbn [watches list_watches with_tree]. destruct (processWatches_multi qs (watches s) (list_watches s)) as [[fired w] lw].
  eexists _, _. split; [done|]. done.
Qed.

(** Session 2 watches a node that is not there; session 1 tries to create it together with a check that fails. *)
Definition storage2 : storage := with_watches storage0 {[lit "/a" := [2]]} ∅ {[2 := {[lit "/a"]}]}.

Lemma failed_multi_fires_watches_witness :
  exists s' response, process_other storage2 (mkMessage 9 (MultiRequest [CreateRequest (lit "/a") [] false false []; CheckRequest (lit "/b") 1])) 1 env0
      = Some (s', Ok ([(2, mkResponse WATCH_XID (-1) Err.ZOK (WatchResponse CREATED CONNECTED (lit "/a")))] ++ [(1, response)]))
    /\ container s' = container storage2 /\ r_error response = Err.ZOK.
Proof.
  apply (failed_multi_fires_watches storage2 9 1 _ [SCreate (lit "/a") [] false false; SCheck (lit "/b") 1] env0).
  - split; [apply consistent_initial|]. intros path x. unfold sessions_at, storage2. cbn [watches list_watches sessions_and_watchers with_watches].
    rewrite lookup_empty. intros [H|H]; [|by apply not_elem_of_nil in H].
    destruct (decide (path = lit "/a")) as [->|Hne]; [|rewrite lookup_singleton_ne in H by done; by apply not_elem_of_nil in H].
    rewrite lookup_singleton_eq in H. apply list_elem_of_singleton in H as ->. rewrite lookup_singleton_eq. cbn. set_solver.
  - reflexivity.
  - apply (bool_decide_unpack _). vm_compute. exact I.
  - vm_compute. reflexivity.
Defined.

(** The requests of [qs] one after the other. *)
Fixpoint run_all (qs : list StorageRequest) (c : Container) (e : Ephemerals) : option (Container * Ephemerals * list answer) :=
  match qs with
  | [] => Some (c, e, [])
  | q :: qs =>
      '(c, e, a, _) ← process false q 5 7 1000 c e;
      '(c, e, answers) ← run_all qs c e;
      Some (c, e, a :: answers)
  end.

(** The answers, and what [f] sees in the tree afterwards. *)
Definition observe {A} (f : Container -> A) (qs : list StorageRequest) : option (list answer * A) :=
  (fun '(c, _, answers) => (answers, f c)) <$> run_all qs {[root := new_node]} ∅.

(** A sequential node whose name is taken: the client is told that the node was created, the
    node that was there keeps its data, and the parent can never be removed. *)
Lemma sequential_name_taken :
  observe (fun c => children <$> c !! lit "/a")
    [SCreate (lit "/a") [] false false; SCreate (lit "/a/q-0000000001") (lit "old") false false;
     SCreate (lit "/a/q-") (lit "new") false true; SRemove (lit "/a/q-0000000001") (-1); SRemove (lit "/a") (-1)]
  = Some ([(Err.ZOK, CreateResponse (lit "/a")); (Err.ZOK, CreateResponse (lit "/a/q-0000000001"));
           (Err.ZOK, CreateResponse (lit "/a/q-0000000001")); (Err.ZOK, RemoveResponse); (Err.ZNOTEMPTY, RemoveResponse)], Some ∅).
Proof. vm_compute. reflexivity. Qed.

(** The root can be removed when it is empty, and no node can be created afterwards. *)
Lemma root_removed :
  observe (fun c => bool_decide (c = ∅)) [SRemove root (-1); SCreate (lit "/a") [] false false]
  = Some ([(Err.ZOK, RemoveResponse); (Err.ZNONODE, CreateResponse [])], true).
Proof. vm_compute. reflexivity. Qed.

(** A multi request that sets the root and fails leaves the version of its children one lower. *)
Lemma undo_set_root :
  ('(c, _, _) ← process_multi false 5 7 clock0 [SSet root (lit "x") (-1); SCheck (lit "/a") 1] [] [] {[root := new_node]} ∅;
   cversion ∘ stat <$> c !! root) = Some (-1).
Proof. vm_compute. reflexivity. Qed.

(** Two paths with one entry among the children of the root: removing one hides the other. *)
Lemma double_slash_hides :
  observe (fun c => (children <$> c !! root, bool_decide (is_Some (c !! lit "//b"))))
    [SCreate (lit "/b") [] false false; SCreate (lit "//b") [] false false; SRemove (lit "/b") (-1)]
  = Some ([(Err.ZOK, CreateResponse (lit "/b")); (Err.ZOK, CreateResponse (lit "//b")); (Err.ZOK, RemoveResponse)], (Some ∅, true)).
Proof. vm_compute. reflexivity. Qed.
