(* ===== verification/KeeperSnapshot.v ===== *)
(** * KeeperSnapshot: snapshots of the storage

    Models writeNode, readNode, KeeperStorageSnapshot::serialize and ::deserialize of
    src/src/Coordination/KeeperSnapshotManager.cpp.  The metadata of a snapshot is an object of the Raft library: what
    it writes and reads back is the class [SnapshotMetadata].

    A snapshot written from a consistent storage, while requests go on changing it, is
    restored to the storage of the moment it was taken. *)

From S2P Require Import Prelude TextFormat WalRecord Wire ZooKeeper SessionQueue SnapshotTable KeeperStorage KeeperTree.
Import Storage.

Local Open Scope Z_scope.

(** [nuraft::snapshot] *)
Class SnapshotMetadata (M : Type) : Type := {
  meta_serialize : M -> str;
  meta_deserialize : str -> result M;
  get_last_log_idx : M -> Z;
  meta_read_write : forall m, meta_deserialize (meta_serialize m) = Ok m;
}.

Section snapshot.
Context {M : Type} `{!SnapshotMetadata M}.

(** ** Nodes *)

Definition write_snapshot_acl (a : ACL) : str :=
  write_le 4 (permissions a) ++ writeStringBinary (scheme a) ++ writeStringBinary (acl_id a).
Definition read_snapshot_acl : reader ACL :=
  p ← read_signed 4; s ← readStringBinary; i ← readStringBinary; mret (mkACL p s i).

Definition writeNode (n : Node) : str :=
  let s := stat n in
  writeStringBinary (data n)
  ++ write_le 8 (Z.of_nat (length (acls n))) ++ concat (map write_snapshot_acl (acls n))
  ++ write_bool (is_sequental n)
  ++ write_le 8 (czxid s) ++ write_le 8 (mzxid s) ++ write_le 8 (ctime s) ++ write_le 8 (mtime s)
  ++ write_le 4 (st_version s) ++ write_le 4 (cversion s) ++ write_le 4 (aversion s) ++ write_le 8 (ephemeralOwner s)
  ++ write_le 4 (dataLength s) ++ write_le 4 (numChildren s) ++ write_le 8 (pzxid s)
  ++ write_le 4 (seq_num n).

(** The children are not written: a node is read without any. *)
Definition readNode : reader Node :=
  d ← readStringBinary;
  acls_size ← read_unsigned 8;
  a ← read_times (Z.to_nat acls_size) read_snapshot_acl;
  q ← read_bool;
  czxid ← read_signed 8; mzxid ← read_signed 8; ctime ← read_signed 8; mtime ← read_signed 8;
  version ← read_signed 4; cversion ← read_signed 4; aversion ← read_signed 4; owner ← read_signed 8;
  len ← read_signed 4; num ← read_signed 4; pzxid ← read_signed 8;
  seq ← read_signed 4;
  mret (mkNode d a q (mkStat czxid mzxid ctime mtime version cversion aversion owner len num pzxid) seq ∅).

(** ** Metadata *)

Definition serializeSnapshotMetadata (m : M) : str :=
  let buffer := meta_serialize m in writeVarUInt (Z.of_nat (length buffer)) ++ buffer.

Definition deserializeSnapshotMetadata : reader M :=
  data_size ← readVarUInt;
  buffer ← readStrict (Z.to_nat data_size);
  match meta_deserialize buffer with Ok m => mret m | Throw e => rthrow e end.

(** ** Snapshots *)

Definition SNAPSHOT_V0 : Z := 0.

(** What a KeeperStorageSnapshot holds: the elements of the list up to the size at its
    construction, and the sessions in the order they are walked. *)
Record KeeperStorageSnapshot : Type := mkSnapshot {
  version : Z;
  snapshot_meta : M;
  session_id : Z;
  snapshot_nodes : list (str * Node);
  snapshot_sessions : list (Z * Z)
}.

Definition write_session (st : Z * Z) : str := write_le 8 st.1 ++ write_le 8 st.2.

(** The nodes, or the exception of the first one written after the snapshot. *)
Fixpoint serialize_nodes (last_log_idx : Z) (nodes : list (str * Node)) : result str :=
  match nodes with
  | [] => Ok []
  | (path, n) :: nodes =>
      if last_log_idx <? wrap 64 (mzxid (stat n)) then Throw (DBException ErrorCodes.LOGICAL_ERROR)
      else rest ← serialize_nodes last_log_idx nodes; Ok (writeStringBinary path ++ writeNode n ++ rest)
  end.

Definition serialize (s : KeeperStorageSnapshot) : result str :=
  nodes ← serialize_nodes (get_last_log_idx (snapshot_meta s)) (snapshot_nodes s);
  Ok (write_le 1 (version s) ++ serializeSnapshotMetadata (snapshot_meta s) ++ write_le 8 (session_id s)
      ++ write_le 8 (Z.of_nat (length (snapshot_nodes s))) ++ nodes
      ++ write_le 8 (Z.of_nat (length (snapshot_sessions s))) ++ concat (map write_session (snapshot_sessions s))).

(** One node of a snapshot put into the storage. *)
Definition restore_node (ce : Container * Ephemerals) (pn : str * Node) : Container * Ephemerals :=
  let '(c, e) := ce in
  let '(path, n) := pn in
  (<[path := n]> c, if decide (ephemeralOwner (stat n) <> 0) then eph_emplace e (ephemeralOwner (stat n)) path else e).

Definition add_child (name : str) (n : Node) : option Node :=
  Some (mkNode (data n) (acls n) (is_sequental n) (stat n) (seq_num n) (add_name name (children n))).

(** The names of children, put back from the paths. *)
Fixpoint restore_children (paths : list str) (c : Container) : option Container :=
  match paths with
  | [] => Some c
  | path :: paths =>
      c ← (if decide (path = root) then Some c else updateValue c (parentPath path) (add_child (getBaseName path)));
      restore_children paths c
  end.

Fixpoint restore_sessions (n : nat) (now : Z) (s : storage) (buf : str) : option (result (storage * str)) :=
  match n with
  | O => Some (Ok (s, buf))
  | S n =>
      match (id ← read_signed 8; timeout ← read_signed 8; mret (id, timeout)) buf with
      | Throw e => Some (Throw e)
      | Ok ((id, timeout), buf) => s ← addSessionID s id timeout now; restore_sessions n now s buf
      end
  end.

Definition read_snapshot_head : reader (M * Z * list (str * Node)) :=
  v ← read_unsigned 1;
  if v >? SNAPSHOT_V0 then rthrow (DBException ErrorCodes.UNKNOWN_FORMAT_VERSION)
  else
    m ← deserializeSnapshotMetadata;
    id ← read_signed 8;
    size ← read_unsigned 8;
    nodes ← read_times (Z.to_nat size) (path ← readStringBinary; n ← readNode; mret (path, n));
    mret (m, id, nodes).

(** The paths of the container are walked in some order. *)
Definition deserialize (s : storage) (now : Z) (buf : str) : option (result (M * storage * str)) :=
  match read_snapshot_head buf with
  | Throw e => Some (Throw e)
  | Ok ((m, id, nodes), buf) =>
      let '(c, e) := foldl restore_node (container s, ephemerals s) nodes in
      c ← restore_children (map_to_list c).*1 c;
      let s := mkStorage id c (snapshot_mode s) e (sessions_and_watchers s) (session_expiry_queue s)
                 (session_and_timeout s) (get_last_log_idx m) (finalized s) (watches s) (list_watches s) in
      match read_unsigned 8 buf with
      | Throw e => Some (Throw e)
      | Ok (size, buf) =>
          outcome ← restore_sessions (Z.to_nat size) now s buf;
          Some (match outcome with Ok (s, buf) => Ok (m, s, buf) | Throw e => Throw e end)
      end
  end.

End snapshot.
Arguments KeeperStorageSnapshot : clear implicits.

(** ** What is written is read back *)

Lemma reads_s4 z : in_signed 32 z = true -> reads (read_signed 4) (write_le 4 z) z.
Proof. intros H. apply reads_signed; [lia|exact H]. Qed.
Lemma reads_s8 z : in_signed 64 z = true -> reads (read_signed 8) (write_le 8 z) z.
Proof. intros H. apply reads_signed; [lia|exact H]. Qed.
Lemma reads_u8 z : 0 <= z < 2 ^ 64 -> reads (read_unsigned 8) (write_le 8 z) z.
Proof. intros H. apply reads_unsigned. exact H. Qed.

Definition short (s : str) : Prop := Z.of_nat (length s) <= DEFAULT_MAX_STRING_SIZE.
Lemma reads_short s : short s -> reads readStringBinary (writeStringBinary s) s.
Proof. apply reads_string_binary. Qed.

#[export] Hint Resolve reads_s4 reads_s8 reads_u8 reads_short : wire.

Definition snapshot_acl_ok (a : ACL) : Prop := in_signed 32 (permissions a) = true /\ short (scheme a) /\ short (acl_id a).

Record snapshot_node_ok (n : Node) : Prop := {
  sn_data : short (data n);
  sn_acls : Z.of_nat (length (acls n)) < 2 ^ 64;
  sn_acl : Forall snapshot_acl_ok (acls n);
  sn_stat : valid_stat (stat n);
  sn_seq : in_signed 32 (seq_num n) = true
}.

Definition no_children (n : Node) : Node := mkNode (data n) (acls n) (is_sequental n) (stat n) (seq_num n) ∅.

Lemma reads_snapshot_acl a : snapshot_acl_ok a -> reads read_snapshot_acl (write_snapshot_acl a) a.
Proof.
  intros (Hp & Hs & Hi). destruct a as [p s i]. unfold read_snapshot_acl, write_snapshot_acl. cbn [permissions scheme acl_id] in *. read_parts.
Qed.

Lemma reads_node n : snapshot_node_ok n -> reads readNode (writeNode n) (no_children n).
Proof.
  intros [Hd Ha HF Hs Hq]. destruct n as [d a q s sq ch]. destruct s as [f1 f2 f3 f4 f5 f6 f7 f8 f9 f10 f11].
  unfold valid_stat in Hs. cbn [data acls stat seq_num czxid mzxid ctime mtime st_version cversion aversion ephemeralOwner dataLength numChildren pzxid] in *.
  repeat match goal with H : _ /\ _ |- _ => destruct H end.
  unfold readNode, writeNode, no_children. cbn [data acls is_sequental stat seq_num czxid mzxid ctime mtime st_version cversion aversion ephemeralOwner dataLength numChildren pzxid].
  eapply reads_bind; [by apply reads_short|]. eapply reads_bind; [apply reads_u8; lia|]. rewrite Nat2Z.id.
  eapply reads_bind; [apply reads_times; apply (Forall_impl _ _ _ HF); apply reads_snapshot_acl|]. read_parts.
Qed.

Section roundtrip.
Context {M : Type} `{!SnapshotMetadata M}.
Implicit Types (m : M).

Lemma reads_metadata m :
  Z.of_nat (length (meta_serialize m)) < 2 ^ 63 -> reads deserializeSnapshotMetadata (serializeSnapshotMetadata m) m.
Proof.
  intros H. unfold deserializeSnapshotMetadata, serializeSnapshotMetadata. eapply reads_bind; [apply reads_varuint; lia|].
  rewrite Nat2Z.id. rewrite <- (app_nil_r (meta_serialize m)) at 2. eapply reads_bind; [by apply reads_strict|]. rewrite meta_read_write. apply reads_ret.
Qed.

Definition written_before (idx : Z) (pn : str * Node) : Prop := wrap 64 (mzxid (stat pn.2)) <= idx.

Lemma serialize_nodes_ok idx nodes :
  Forall (written_before idx) nodes -> serialize_nodes idx nodes = Ok (concat (map (fun pn => writeStringBinary pn.1 ++ writeNode pn.2) nodes)).
Proof.
  induction 1 as [|[path n] nodes Hn _ IH]; [done|]. cbn [serialize_nodes map concat fst snd]. unfold written_before in Hn. cbn [snd] in Hn.
  destruct (idx <? wrap 64 (mzxid (stat n))) eqn:E; [apply Z.ltb_lt in E; lia|]. rewrite IH. cbn [mbind result_bind]. by rewrite <- app_assoc.
Qed.

Lemma reads_nodes nodes :
  Forall (fun pn => short pn.1 /\ snapshot_node_ok pn.2) nodes ->
  reads (read_times (length nodes) (path ← readStringBinary; n ← readNode; mret (path, n)))
    (concat (map (fun pn => writeStringBinary pn.1 ++ writeNode pn.2) nodes)) (map (fun pn => (pn.1, no_children pn.2)) nodes).
Proof.
  induction 1 as [|[path n] nodes [Hp Hn] _ IH]; [apply reads_ret|]. cbn [length read_times map concat fst snd].
  eapply reads_bind; [|by apply (reads_bind_ret _ (fun l => (path, no_children n) :: l))].
  eapply reads_bind; [by apply reads_short|]. apply (reads_bind_ret _ (fun n => (path, n))). by apply reads_node.
Qed.

Lemma reads_head (s : KeeperStorageSnapshot M) :
  version s = SNAPSHOT_V0 -> Z.of_nat (length (meta_serialize (snapshot_meta s))) < 2 ^ 63 -> in_signed 64 (session_id s) = true ->
  Z.of_nat (length (snapshot_nodes s)) < 2 ^ 64 -> Forall (fun pn => short pn.1 /\ snapshot_node_ok pn.2) (snapshot_nodes s) ->
  reads (read_snapshot_head (M := M))
    (write_le 1 (version s) ++ serializeSnapshotMetadata (snapshot_meta s) ++ write_le 8 (session_id s)
     ++ write_le 8 (Z.of_nat (length (snapshot_nodes s))) ++ concat (map (fun pn => writeStringBinary pn.1 ++ writeNode pn.2) (snapshot_nodes s)))
    (snapshot_meta s, session_id s, map (fun pn => (pn.1, no_children pn.2)) (snapshot_nodes s)).
Proof.
  intros Hv Hm Hi Hl HF. unfold read_snapshot_head. rewrite Hv. eapply reads_bind; [by apply reads_unsigned|].
  destruct (SNAPSHOT_V0 >? SNAPSHOT_V0) eqn:E; [done|].
  eapply reads_bind; [by apply reads_metadata|]. eapply reads_bind; [by apply reads_s8|]. eapply reads_bind; [apply reads_u8; lia|].
  rewrite Nat2Z.id. apply (reads_bind_ret _ (fun nodes => (snapshot_meta s, session_id s, nodes))). by apply reads_nodes.
Qed.
End roundtrip.

(** ** Restoring *)

Lemma restore_nodes_spec (nodes : list (str * Node)) (c : Container) (e : Ephemerals) :
  NoDup nodes.*1 ->
  let '(c', e') := foldl restore_node (c, e) nodes in
  (forall p, c' !! p = match (list_to_map nodes : Container) !! p with Some n => Some n | None => c !! p end)
  /\ (forall s p, p ∈ paths_of e' s <-> p ∈ paths_of e s \/ (s <> 0 /\ exists n, (p, n) ∈ nodes /\ ephemeralOwner (stat n) = s)).
Proof.
  revert c e. induction nodes as [|[path n] nodes IH]; intros c e; cbn [foldl].
  { intros _. split; [done|]. intros s p. split; [by left|]. intros [?|(_ & n & Hn & _)]; [done|]. by apply not_elem_of_nil in Hn. }
  rewrite fmap_cons, NoDup_cons. cbn [fst]. intros [Hnot Hnd]. unfold restore_node at 2.
  specialize (IH (<[path := n]> c) (if decide (ephemeralOwner (stat n) <> 0) then eph_emplace e (ephemeralOwner (stat n)) path else e) Hnd).
  destruct (foldl restore_node _ nodes) as [c' e']. destruct IH as [IH1 IH2]. split.
  - intros p. rewrite IH1. cbn [list_to_map foldr]. destruct (decide (p = path)) as [->|Hne].
    + rewrite (not_elem_of_list_to_map_1 nodes path) by done. cbn. by rewrite !lookup_insert_eq.
    + cbn. rewrite !lookup_insert_ne by done. done.
  - intros s p. rewrite IH2. setoid_rewrite elem_of_cons.
    assert (Hp : p ∈ paths_of (if decide (ephemeralOwner (stat n) <> 0) then eph_emplace e (ephemeralOwner (stat n)) path else e) s
      <-> p ∈ paths_of e s \/ (s <> 0 /\ p = path /\ ephemeralOwner (stat n) = s)).
    { destruct (decide (ephemeralOwner (stat n) <> 0)); [rewrite paths_of_emplace; case_decide; subst; set_solver|]. split; [by left|]. intros [?|(H1 & _ & H2)]; [done|]. subst s. tauto. }
    rewrite Hp. split.
    + intros [[?|(H1 & -> & H2)]|(H1 & m & H2 & H3)]; [by left|right; split; [done|]; exists n; by auto|right; split; [done|]; exists m; by auto].
    + intros [?|(H1 & m & [[= -> ->]|H2] & H3)]; [by left; left|left; right; done|right; split; [done|]; by exists m].
Qed.

(** The names [restore_children] finds below [p] among [paths]. *)
Definition names_below (paths : list str) (p : str) : gset str :=
  list_to_set (map getBaseName (filter (fun q => q <> root /\ parentPath q = p) paths)).

Definition with_names (f : gset str) (n : Node) : Node :=
  mkNode (data n) (acls n) (is_sequental n) (stat n) (seq_num n) (children n ∪ f).

Lemma restore_children_spec (paths : list str) (c : Container) :
  (forall q, q ∈ paths -> q <> root -> is_Some (c !! parentPath q)) ->
  exists c', restore_children paths c = Some c' /\ forall p, c' !! p = with_names (names_below paths p) <$> c !! p.
Proof.
  revert c. induction paths as [|q paths IH]; intros c Hpar; cbn [restore_children].
  { exists c. split; [done|]. intros p. destruct (c !! p) as [n|]; cbn; [|done]. unfold with_names, names_below. cbn. destruct n. cbn. by rewrite union_empty_r_L. }
  destruct (decide (q = root)) as [->|Hq].
  { cbn [mbind option_bind]. destruct (IH c) as (c' & Hc' & Hl); [intros; apply Hpar; [by right|done]|]. exists c'. split; [done|]. intros p. rewrite Hl.
    unfold names_below. rewrite filter_cons, decide_False by tauto. done. }
  destruct (Hpar q) as [par Hp]; [by left|done|]. unfold updateValue. rewrite Hp. cbn [mbind option_bind add_child].
  set (c1 := <[parentPath q := _]> c).
  assert (Hc1 : forall p, c1 !! p = with_names (if decide (parentPath q = p) then {[getBaseName q]} else ∅) <$> c !! p).
  { intros p. unfold c1. case_decide as H; [subst p; rewrite lookup_insert_eq, Hp; done|]. rewrite lookup_insert_ne by done.
    destruct (c !! p) as [[]|]; cbn; [|done]. unfold with_names. cbn. by rewrite union_empty_r_L. }
  destruct (IH c1) as (c' & Hc' & Hl).
  { intros q' Hin Hq'. rewrite Hc1, fmap_is_Some. apply Hpar; [by right|done]. }
  exists c'. split; [done|]. intros p. rewrite Hl, Hc1. destruct (c !! p) as [n|]; cbn [fmap option_fmap option_map]; [|done]. f_equal.
  unfold with_names. cbn [data acls is_sequental stat seq_num children]. f_equal.
  unfold names_below. rewrite filter_cons. destruct (decide (parentPath q = p)) as [H|H].
  - rewrite (decide_True (P := q <> root /\ parentPath q = p)) by done. cbn [map list_to_set]. by rewrite <- union_assoc_L.
  - rewrite (decide_False (P := q <> root /\ parentPath q = p)) by tauto. by rewrite union_empty_r_L.
Qed.

Lemma names_below_children {A : Type} (c : Container) (m : gmap str A) (p : str) : dom m = dom c -> names_below (map_to_list m).*1 p = children_of c p.
Proof.
  intros Hd. apply set_eq. intros b. rewrite elem_of_children. unfold names_below. rewrite elem_of_list_to_set, list_elem_of_fmap.
  setoid_rewrite list_elem_of_filter. setoid_rewrite list_elem_of_fmap.
  assert (Hin : forall q, (exists y, q = y.1 /\ y ∈ map_to_list m) <-> is_Some (c !! q)).
  { intros q. rewrite <- elem_of_dom, <- Hd, elem_of_dom. split.
    - intros ([q' x] & -> & H%elem_of_map_to_list). by eexists.
    - intros [x Hx]. exists (q, x). split; [done|]. by apply elem_of_map_to_list. }
  split.
  - intros (q & -> & (H1 & H2) & H3). exists q. rewrite <- Hin. done.
  - intros (q & H1 & H2 & H3 & <-). exists q. split; [done|]. split; [done|]. by apply Hin.
Qed.

Definition session_in_time (tick now : Z) (st : Z * Z) : Prop :=
  in_signed 64 st.1 = true /\ in_signed 64 st.2 = true /\ 0 <= now + st.2 /\ now + st.2 + tick < 2 ^ 63.

Lemma restore_sessions_spec tick now (sessions : list (Z * Z)) (s : storage) (rest : str) :
  0 < tick -> SessionExpiryQueue.expiration_interval (session_expiry_queue s) = tick ->
  Forall (session_in_time tick now) sessions -> NoDup sessions.*1 ->
  exists queue, restore_sessions (length sessions) now s (concat (map write_session sessions) ++ rest)
    = Some (Ok (with_sessions s (session_id_counter s) queue (session_and_timeout s ∪ list_to_map sessions), rest))
    /\ SessionExpiryQueue.expiration_interval queue = tick.
Proof.
  intros Ht. revert s. induction sessions as [|[id timeout] sessions IH]; intros s Hi; cbn [length restore_sessions map concat app].
  { intros _ _. exists (session_expiry_queue s). split; [|done]. cbn [list_to_map foldr]. rewrite (right_id_L ∅ (∪)). by destruct s. }
  intros [(H1 & H2 & H3 & H4) HF]%Forall_cons. rewrite fmap_cons, NoDup_cons. intros [Hnot Hnd]. cbn [fst snd] in *.
  assert (Hr : reads (id ← read_signed 8; timeout ← read_signed 8; mret (id, timeout)) (write_session (id, timeout)) (id, timeout)).
  { unfold write_session. cbn [fst snd]. eapply reads_bind; [by apply reads_s8|]. apply (reads_bind_ret _ (fun t => (id, t))). by apply reads_s8. }
  rewrite <- app_assoc, (Hr _). unfold addSessionID.
  destruct (update_defined (session_expiry_queue s) id timeout now) as (q & b & -> & Hq); [lia..|]. cbn [mbind option_bind].
  set (m := if decide _ then _ else _). set (s1 := with_sessions _ _ _ m).
  destruct (IH s1) as (queue & -> & Hqi); [cbn; congruence|done|done|]. exists queue. split; [|done]. do 3 f_equal. unfold with_sessions, s1. cbn. f_equal.
  unfold m. apply map_eq. intros k. rewrite !lookup_union. cbn [list_to_map foldr]. case_decide as Hs.
  - destruct (decide (k = id)) as [->|Hne]; [|by rewrite lookup_insert_ne]. rewrite lookup_insert_eq. destruct Hs as [x Hx].
    rewrite (not_elem_of_list_to_map_1 sessions id) by done. by rewrite Hx.
  - apply eq_None_not_Some in Hs. destruct (decide (k = id)) as [->|Hne].
    + rewrite !lookup_insert_eq, Hs, (not_elem_of_list_to_map_1 sessions id) by done. done.
    + by rewrite !lookup_insert_ne.
Qed.

(** The storage a snapshot is restored into: the root, and the clock of now. *)
Lemma restore_tree (c : Container) (e : Ephemerals) (nodes : list (str * Node)) :
  consistent c e -> NoDup nodes.*1 -> list_to_map nodes = c ->
  exists c1 e' c', foldl restore_node ({[root := new_node]}, ∅) (map (fun pn => (pn.1, no_children pn.2)) nodes) = (c1, e')
    /\ restore_children (map_to_list c1).*1 c1 = Some c' /\ c' = c /\ e' ≡ e.
Proof.
  intros HC Hnd Hc. pose proof (restore_nodes_spec (map (fun pn => (pn.1, no_children pn.2)) nodes) {[root := new_node]} ∅) as Hr.
  assert (Hk : (map (fun pn : str * Node => (pn.1, no_children pn.2)) nodes).*1 = nodes.*1) by (rewrite <- list_fmap_compose; by apply list_fmap_ext).
  rewrite Hk in Hr. specialize (Hr Hnd). destruct (foldl restore_node _ _) as [c1 e']. destruct Hr as [Hl He].
  assert (Hm : (list_to_map (map (fun pn : str * Node => (pn.1, no_children pn.2)) nodes) : Container) = no_children <$> c).
  { rewrite <- Hc. symmetry. rewrite <- list_to_map_fmap. done. }
  assert (Hc1 : c1 = no_children <$> c).
  { apply map_eq. intros p. rewrite Hl, Hm, lookup_fmap. destruct (c !! p) as [n|] eqn:Hp; cbn [fmap option_fmap option_map]; [done|].
    apply lookup_singleton_ne. intros <-. destruct (ok_root _ _ HC) as (r & Hroot & _). congruence. }
  destruct (restore_children_spec (map_to_list c1).*1 c1) as (c' & Hc' & Hl').
  { intros q Hin Hq. rewrite Hc1, lookup_fmap, fmap_is_Some. apply (ok_path _ _ HC); [|done].
    apply list_elem_of_fmap in Hin as ([q' x] & -> & Hx%elem_of_map_to_list). rewrite Hc1, lookup_fmap in Hx. apply fmap_Some in Hx as (y & Hy & _). by eexists. }
  exists c1, e', c'. split; [done|]. split; [done|]. split.
  - apply map_eq. intros p. rewrite Hl', (names_below_children c) by (by rewrite Hc1, dom_fmap_L). rewrite Hc1, lookup_fmap.
    destruct (c !! p) as [n|] eqn:Hp; cbn; [|done]. destruct (ok_node _ _ HC _ _ Hp) as [K _ _ _]. unfold with_names. cbn.
    rewrite union_empty_l_L, <- K. by destruct n.
  - intros s. apply set_eq. intros p. rewrite He, (ok_eph _ _ HC). unfold paths_of. rewrite lookup_empty. cbn. split.
    + intros [?|(Hs & n' & Hin & Ho)]; [set_solver|]. split; [done|]. apply list_elem_of_fmap in Hin as ([p' n] & [= -> ->] & Hin).
      exists n. split; [|done]. rewrite <- Hc. by apply elem_of_list_to_map.
    + intros (Hs & n & Hn & Ho). right. split; [done|]. exists (no_children n). split; [|done]. apply list_elem_of_fmap.
      exists (p, n). split; [done|]. rewrite <- Hc in Hn. by apply elem_of_list_to_map.
Qed.

Section restored.
Context {M : Type} `{!SnapshotMetadata M}.

(** The values fit the widths they are written with, and no node is newer than the snapshot. *)
Record writable (s : storage) (m : M) (tick now : Z) : Prop := {
  wr_nodes : forall p n, container s !! p = Some n -> short p /\ snapshot_node_ok n /\ wrap 64 (mzxid (stat n)) <= get_last_log_idx m;
  wr_meta : Z.of_nat (length (meta_serialize m)) < 2 ^ 63;
  wr_counter : in_signed 64 (session_id_counter s) = true;
  wr_size : Z.of_nat (size (container s)) < 2 ^ 64;
  wr_sessions : forall id timeout, session_and_timeout s !! id = Some timeout -> session_in_time tick now (id, timeout);
  wr_session_size : Z.of_nat (size (session_and_timeout s)) < 2 ^ 64
}.

Lemma deserialize_serialize (s : storage) (m : M) (nodes : list (str * Node)) (sessions : list (Z * Z)) (tick now : Z) (s0 : storage) (rest : str) :
  consistent (container s) (ephemerals s) -> writable s m tick now -> 0 < tick ->
  NoDup nodes.*1 -> list_to_map nodes = container s ->
  NoDup sessions.*1 -> list_to_map sessions = session_and_timeout s -> create_storage tick now = Some s0 ->
  exists w s', serialize (mkSnapshot SNAPSHOT_V0 m (session_id_counter s) nodes sessions) = Ok w
    /\ deserialize s0 now (w ++ rest) = Some (Ok (m, s', rest))
    /\ container s' = container s /\ ephemerals s' ≡ ephemerals s /\ session_and_timeout s' = session_and_timeout s
    /\ session_id_counter s' = session_id_counter s /\ zxid s' = get_last_log_idx m
    /\ watches s' = ∅ /\ list_watches s' = ∅ /\ SessionExpiryQueue.expiration_interval (session_expiry_queue s') = tick.
Proof.
  intros HC [W1 W2 W3 W4 W5 W6] Ht Hn1 Hn2 Hs1 Hs2 Hcr.
  assert (HF : Forall (fun pn => short pn.1 /\ snapshot_node_ok pn.2 /\ wrap 64 (mzxid (stat pn.2)) <= get_last_log_idx m) nodes).
  { apply Forall_forall. intros [p n] Hin. apply W1. rewrite <- Hn2. by apply elem_of_list_to_map. }
  assert (Hsize : Z.of_nat (length nodes) < 2 ^ 64) by (rewrite <- Hn2, map_size_list_to_map in W4 by done; exact W4).
  assert (Hssize : Z.of_nat (length sessions) < 2 ^ 64) by (rewrite <- Hs2, map_size_list_to_map in W6 by done; exact W6).
  assert (HFs : Forall (session_in_time tick now) sessions).
  { apply Forall_forall. intros [id t] Hin. apply W5. rewrite <- Hs2. by apply elem_of_list_to_map. }
  unfold serialize. cbn [snapshot_meta snapshot_nodes snapshot_sessions version session_id].
  rewrite serialize_nodes_ok by (eapply Forall_impl; [exact HF|]; cbn; tauto). cbn [mbind result_bind].
  eexists. pose proof (reads_head (mkSnapshot SNAPSHOT_V0 m (session_id_counter s) nodes sessions)) as Hh.
  cbn [snapshot_meta snapshot_nodes snapshot_sessions version session_id] in Hh.
  specialize (Hh eq_refl W2 W3 Hsize ltac:(eapply Forall_impl; [exact HF|]; cbn; tauto)).
  unfold create_storage in Hcr. destruct (SessionExpiryQueue.create tick now) as [q|] eqn:Hq; [|done]. cbn [mbind option_bind] in Hcr. injection Hcr as <-.
  destruct (restore_tree (container s) (ephemerals s) nodes HC Hn1 Hn2) as (c1 & e' & c' & Hf & Hrc & -> & He).
  assert (Hi : SessionExpiryQueue.expiration_interval q = tick).
  { unfold SessionExpiryQueue.create in Hq. destruct (SessionExpiryQueue.roundToNextInterval tick now); [|done]. cbn in Hq. by injection Hq as <-. }
  destruct (restore_sessions_spec tick now sessions (mkStorage (session_id_counter s) (container s) false e' ∅ q ∅ (get_last_log_idx m) false ∅ ∅) rest) as (queue & Hrs & Hqi);
    [done|done|done|done|].
  eexists. split; [done|]. unfold deserialize. rewrite <- !app_assoc in *. unfold reads in Hh.
  rewrite !app_assoc in Hh. rewrite !app_assoc. rewrite <- (app_assoc _ _ rest), <- (app_assoc _ _ (_ ++ rest)), Hh.
  cbn [container ephemerals]. rewrite Hf. cbn [mbind option_bind]. rewrite Hrc. cbn [mbind option_bind].
  rewrite reads_u8 by lia. rewrite Nat2Z.id.
  cbn [snapshot_mode sessions_and_watchers session_expiry_queue session_and_timeout finalized watches list_watches]. rewrite Hrs. cbn [mbind option_bind].
  split; [done|]. cbn. by rewrite Hs2, (left_id_L ∅ (∪)).
Qed.

End restored.

(** Metadata that is the bytes of the index. *)
Definition index_metadata : SnapshotMetadata str :=
  {| meta_serialize := id; meta_deserialize := Ok; get_last_log_idx := le_value; meta_read_write := fun m => eq_refl |}.

Definition snapshot_storage : storage :=
  mkStorage 2 {[root := new_node]} false ∅ ∅ (SessionExpiryQueue.mk ∅ ∅ 500 1500) {[1 := 300]} 7 false ∅ ∅.
Definition snapshot_table : Table.t Node := (Table.insert Table.empty root new_node).1.

(** The root is changed and a node is added while the snapshot is written. *)
Definition snapshot_changes : list Table.op :=
  [Table.OUpdate root (fun n => with_names {[lit "x"]} n); Table.OInsert (lit "/x") new_node].

