(* ===== verification/SipHash.v ===== *)
(** * SipHash: the hash of the records of the log

    Models the class SipHash of src/src/Common/SipHash.h: the state of four words, the bytes of
    a word that is not complete, and update, which may be given the data in parts.  A byte
    is a character, a 64-bit word a [Z] with its arithmetic modulo 2^64.

    The reference takes the whole message: its words, and a last one with the rest and
    the length. *)

From S2P Require Import Prelude TextFormat WalRecord.

Local Open Scope Z_scope.

Module SipHash.

(** ** Rounds *)

Record words : Type := mkV { v0 : Z; v1 : Z; v2 : Z; v3 : Z }.

Definition ROTL (x b : Z) : Z := Z.lor (wrap 64 (Z.shiftl x b)) (Z.shiftr x (64 - b)).

Definition SIPROUND (v : words) : words :=
  let '(mkV v0 v1 v2 v3) := v in
  let v0 := wrap 64 (v0 + v1) in let v1 := ROTL v1 13 in let v1 := Z.lxor v1 v0 in let v0 := ROTL v0 32 in
  let v2 := wrap 64 (v2 + v3) in let v3 := ROTL v3 16 in let v3 := Z.lxor v3 v2 in
  let v0 := wrap 64 (v0 + v3) in let v3 := ROTL v3 21 in let v3 := Z.lxor v3 v0 in
  let v2 := wrap 64 (v2 + v1) in let v1 := ROTL v1 17 in let v1 := Z.lxor v1 v2 in let v2 := ROTL v2 32 in
  mkV v0 v1 v2 v3.

(** The steps for a complete word. *)
Definition absorb_word (w : Z) (v : words) : words :=
  let v := mkV (v0 v) (v1 v) (v2 v) (Z.lxor (v3 v) w) in
  let v := SIPROUND (SIPROUND v) in
  mkV (Z.lxor (v0 v) w) (v1 v) (v2 v) (v3 v).

(** ** The object *)

Record t : Type := mk { v : words; cnt : Z; current_bytes : str }.

Definition zero_byte : ascii := "000"%char.
Definition current_word (h : t) : Z := le_value (current_bytes h).

Definition create (k0 k1 : Z) : t :=
  mk (mkV (Z.lxor 0x736f6d6570736575 k0) (Z.lxor 0x646f72616e646f6d k1) (Z.lxor 0x6c7967656e657261 k0) (Z.lxor 0x7465646279746573 k1))
    0 (replicate 8 zero_byte).

(** [cnt & 7] *)
Definition filled (h : t) : nat := Z.to_nat (Z.land (cnt h) 7).

(** The loop that completes the word of the previous update. *)
Fixpoint fill (h : t) (data : str) : t * str :=
  match data with
  | [] => (h, [])
  | c :: data' =>
      if decide (filled h = 0%nat) then (h, data)
      else fill (mk (v h) (wrap 64 (cnt h + 1)) (<[filled h := c]> (current_bytes h))) data'
  end.

(** The loop over the complete words of [data]; [n] is at least their number. *)
Fixpoint absorb_words (n : nat) (h : t) (data : str) : t * str :=
  match n with
  | O => (h, data)
  | S n =>
      if (8 <=? length data)%nat
      then absorb_words n (mk (absorb_word (le_value (take 8 data)) (v h)) (cnt h) (take 8 data)) (drop 8 data)
      else (h, data)
  end.

Definition pad (data : str) : str := data ++ replicate (8 - length data) zero_byte.

(** The part of [update] after the first branch. *)
Definition update_words (h : t) (data : str) : t :=
  let h := mk (v h) (wrap 64 (cnt h + Z.of_nat (length data))) (current_bytes h) in
  let '(h, data) := absorb_words (length data) h data in
  mk (v h) (cnt h) (pad data).

Definition update (h : t) (data : str) : t :=
  if decide (filled h <> 0%nat) then
    let '(h, data) := fill h data in
    if decide (filled h <> 0%nat) then h
    else update_words (mk (absorb_word (current_word h) (v h)) (cnt h) (current_bytes h)) data
  else update_words h data.

Definition finalize (h : t) : words :=
  let w := le_value (<[7%nat := chr (wrap 8 (cnt h))]> (current_bytes h)) in
  let v := absorb_word w (v h) in
  let v := mkV (v0 v) (v1 v) (Z.lxor (v2 v) 255) (v3 v) in
  SIPROUND (SIPROUND (SIPROUND (SIPROUND v))).

Definition get64 (h : t) : Z :=
  let v := finalize h in Z.lxor (Z.lxor (Z.lxor (v0 v) (v1 v)) (v2 v)) (v3 v).

Definition get128 (h : t) : Z * Z := let v := finalize h in (Z.lxor (v0 v) (v1 v), Z.lxor (v2 v) (v3 v)).

Definition sipHash64 (data : str) : Z := get64 (update (create 0 0) data).

End SipHash.
Import SipHash.

(** ** The reference *)

(** The first [n] words of a message. *)
Fixpoint absorb_n (n : nat) (v : words) (msg : str) : words :=
  match n with
  | O => v
  | S n => absorb_n n (absorb_word (le_value (take 8 msg)) v) (drop 8 msg)
  end.

(** The message after its complete words. *)
Definition rest_of (msg : str) : str := drop (8 * (length msg / 8)) msg.

(** SipHash-2-4 of a message: the words, then one with the rest and the length modulo 256. *)
Definition siphash_ref (k0 k1 : Z) (msg : str) : Z :=
  let v := absorb_n (length msg / 8) (SipHash.v (create k0 k1)) msg in
  let w := le_value (<[7%nat := chr (wrap 8 (Z.of_nat (length msg)))]> (pad (rest_of msg))) in
  let v := absorb_word w v in
  let v := SIPROUND (SIPROUND (SIPROUND (SIPROUND (mkV (v0 v) (v1 v) (Z.lxor (v2 v) 255) (v3 v))))) in
  Z.lxor (Z.lxor (Z.lxor (v0 v) (v1 v)) (v2 v)) (v3 v).

(** The published test vector: the key 00..0f and the message 00..0e. *)
Example siphash_vector :
  siphash_ref 0x0706050403020100 0x0f0e0d0c0b0a0908 (map (fun n => chr (Z.of_nat n)) (seq 0 15)) = 0xa129ca6149be45e5.
Proof. vm_compute. reflexivity. Qed.

(** ** Parts and whole *)

Lemma absorb_n_app n v a b : (8 * n <= length a)%nat -> absorb_n n v (a ++ b) = absorb_n n v a.
Proof.
  revert v a. induction n as [|n IH]; intros v a H; [done|]. cbn [absorb_n]. rewrite take_app_le, drop_app_le by lia. apply IH. rewrite length_drop. lia.
Qed.

Lemma absorb_n_add n k v msg : absorb_n (n + k) v msg = absorb_n k (absorb_n n v msg) (drop (8 * n) msg).
Proof.
  revert v msg. induction n as [|n IH]; intros v msg; [by rewrite drop_0|]. cbn [Nat.add absorb_n]. rewrite IH, drop_drop. do 2 f_equal. lia.
Qed.

Lemma absorb_words_spec n h data :
  (length data / 8 <= n)%nat ->
  let r := absorb_words n h data in
  v r.1 = absorb_n (length data / 8) (v h) data /\ cnt r.1 = cnt h /\ r.2 = rest_of data.
Proof.
  revert h data. induction n as [|n IH]; intros h data Hn; cbn [absorb_words].
  - assert (length data / 8 = 0)%nat as -> by lia. unfold rest_of. assert (length data / 8 = 0)%nat as -> by lia. done.
  - destruct (8 <=? length data)%nat eqn:E.
    + apply Nat.leb_le in E. assert (Hs : (length data / 8 = S (length (drop 8 data) / 8))%nat).
      { rewrite length_drop. replace (length data) with (1 * 8 + (length data - 8))%nat at 1 by lia. rewrite Nat.div_add_l by lia. lia. }
      destruct (IH (mk (absorb_word (le_value (take 8 data)) (v h)) (cnt h) (take 8 data)) (drop 8 data)) as (H1 & H2 & H3); [lia|].
      rewrite H1, H2, H3, Hs. split; [done|]. split; [done|]. unfold rest_of. rewrite Hs, drop_drop. f_equal. lia.
    + apply Nat.leb_gt in E. rewrite Nat.div_small by lia. unfold rest_of. rewrite Nat.div_small by lia. done.
Qed.

(** The object [h] has been given [msg]. *)
Record given (h0 : words) (h : t) (msg : str) : Prop := {
  g_v : v h = absorb_n (length msg / 8) h0 msg;
  g_cnt : cnt h = wrap 64 (Z.of_nat (length msg));
  g_rest : current_bytes h = pad (rest_of msg)
}.

Lemma given_filled h0 h msg : given h0 h msg -> filled h = (length msg mod 8)%nat.
Proof.
  intros [_ Hc _]. unfold filled. rewrite Hc. unfold wrap. change 7 with (Z.ones 3). rewrite Z.land_ones by lia.
  change (2 ^ 64) with (2 ^ 3 * 2 ^ 61). rewrite Z.rem_mul_r by lia. change (2 ^ 3) with 8.
  rewrite Z.mul_comm, Z.mod_add, Z.mod_mod by lia. rewrite <- (Nat2Z.id (length msg mod 8)). f_equal. by rewrite Nat2Z.inj_mod.
Qed.

Lemma cnt_add c d : wrap 64 (wrap 64 (Z.of_nat c) + Z.of_nat d) = wrap 64 (Z.of_nat (c + d)).
Proof. unfold wrap. rewrite Zplus_mod_idemp_l. f_equal. lia. Qed.

Lemma rest_length msg : length (rest_of msg) = (length msg mod 8)%nat.
Proof. unfold rest_of. rewrite length_drop. pose proof (Nat.div_mod_eq (length msg) 8). lia. Qed.

Lemma rest_app msg data : (length msg mod 8 + length data < 8)%nat -> (length (msg ++ data) / 8 = length msg / 8)%nat /\ rest_of (msg ++ data) = rest_of msg ++ data.
Proof.
  intros H. assert (Hd : (length (msg ++ data) / 8 = length msg / 8)%nat).
  { rewrite length_app. pose proof (Nat.div_mod_eq (length msg) 8). symmetry. apply (Nat.div_unique _ 8 _ (length msg mod 8 + length data)); lia. }
  split; [done|]. unfold rest_of. rewrite Hd, drop_app_le; [done|]. pose proof (Nat.div_mod_eq (length msg) 8). lia.
Qed.

(** Complete words are taken together. *)
Lemma given_words h0 h msg data :
  (length msg mod 8 = 0)%nat -> v h = absorb_n (length msg / 8) h0 msg -> cnt h = wrap 64 (Z.of_nat (length msg)) ->
  given h0 (update_words h data) (msg ++ data).
Proof.
  intros H8 Hv Hc. unfold update_words. set (h1 := mk _ _ _).
  destruct (absorb_words_spec (length data) h1 data) as (H1 & H2 & H3); [apply Nat.Div0.div_le_upper_bound; lia|].
  destruct (absorb_words (length data) h1 data) as [h2 d2]. cbn [fst snd] in *.
  assert (Hd : (length (msg ++ data) / 8 = length msg / 8 + length data / 8)%nat).
  { rewrite length_app. pose proof (Nat.div_mod_eq (length msg) 8). replace (length msg) with (length msg / 8 * 8)%nat at 1 by lia. by rewrite Nat.div_add_l by lia. }
  assert (Hdrop : drop (8 * (length msg / 8)) (msg ++ data) = data).
  { pose proof (Nat.div_mod_eq (length msg) 8). rewrite drop_app_ge by lia. replace (8 * (length msg / 8) - length msg)%nat with 0%nat by lia. done. }
  split; cbn [v cnt current_bytes].
  - rewrite H1, Hd, absorb_n_add, Hdrop. change (v h1) with (v h). rewrite Hv, absorb_n_app; [done|]. pose proof (Nat.div_mod_eq (length msg) 8). lia.
  - rewrite H2. unfold h1. cbn [cnt]. by rewrite Hc, cnt_add, length_app.
  - rewrite H3. unfold rest_of at 2. rewrite Hd, Nat.mul_add_distr_l, <- drop_drop, Hdrop. done.
Qed.

Lemma pad_snoc p c : (length p < 8)%nat -> <[length p := c]> (pad p) = pad (p ++ [c]).
Proof.
  intros H. unfold pad. rewrite length_app. cbn [length]. replace (8 - length p)%nat with (S (8 - (length p + 1))) by lia.
  cbn [replicate]. rewrite insert_app_r_alt by lia. rewrite Nat.sub_diag. cbn. by rewrite <- app_assoc.
Qed.

(** A word of [msg] that is being completed with the bytes [p]. *)
Record filling (h0 : words) (h : t) (msg p : str) : Prop := {
  f_v : v h = absorb_n (length msg / 8) h0 msg;
  f_cnt : cnt h = wrap 64 (Z.of_nat (length msg + length p));
  f_bytes : current_bytes h = pad (rest_of msg ++ p)
}.

Lemma filling_filled h0 h msg p : filling h0 h msg p -> filled h = ((length msg + length p) mod 8)%nat.
Proof.
  intros [_ Hc _]. unfold filled. rewrite Hc. unfold wrap. change 7 with (Z.ones 3). rewrite Z.land_ones by lia.
  change (2 ^ 64) with (2 ^ 3 * 2 ^ 61). rewrite Z.rem_mul_r by lia. change (2 ^ 3) with 8.
  rewrite Z.mul_comm, Z.mod_add, Z.mod_mod by lia. rewrite <- (Nat2Z.id ((length msg + length p) mod 8)). f_equal. by rewrite Nat2Z.inj_mod.
Qed.

Lemma mod_add_small a b : (a mod 8 + b < 8 -> (a + b) mod 8 = a mod 8 + b)%nat.
Proof. intros H. rewrite <- Nat.Div0.add_mod_idemp_l. by apply Nat.mod_small. Qed.

Lemma fill_spec h0 h msg p data :
  filling h0 h msg p -> (0 < length msg mod 8 + length p <= 8)%nat ->
  let r := fill h data in
  let k := Nat.min (8 - (length msg mod 8 + length p)) (length data) in
  filling h0 r.1 msg (p ++ take k data) /\ r.2 = drop k data.
Proof.
  revert h p. induction data as [|c data IH]; intros h p HF Hp; cbn [fill length].
  { rewrite Nat.min_0_r. cbn. by rewrite app_nil_r. }
  rewrite (filling_filled _ _ _ _ HF). destruct (decide (length msg mod 8 + length p = 8)%nat) as [H8|H8].
  - rewrite <- Nat.Div0.add_mod_idemp_l, H8. rewrite decide_True by done. replace (8 - 8)%nat with 0%nat by done. cbn. by rewrite app_nil_r.
  - rewrite mod_add_small by lia. rewrite decide_False by lia. destruct HF as [F1 F2 F3].
    match goal with |- context [fill ?h' data] => destruct (IH h' (p ++ [c])) as [G1 G2] end.
    + split; cbn [v cnt current_bytes]; [done|..].
      * rewrite F2, (cnt_add _ 1). f_equal. f_equal. rewrite length_app. cbn [length]. lia.
      * rewrite F3, app_assoc, <- pad_snoc; rewrite length_app, rest_length; [done|lia].
    + rewrite length_app. cbn [length]. lia.
    + cbv zeta. rewrite G2. rewrite length_app in *. cbn [length] in *.
      replace (Nat.min (8 - (length msg mod 8 + length p)) (S (length data)))
        with (S (Nat.min (8 - (length msg mod 8 + (length p + 1))) (length data))) by lia.
      cbn [take drop]. split; [|done]. by rewrite <- app_assoc in G1.
Qed.

Lemma given_filling h0 h msg : given h0 h msg -> filling h0 h msg [].
Proof. intros [H1 H2 H3]. split; [done|by rewrite Nat.add_0_r|by rewrite app_nil_r]. Qed.

Lemma pad_full s : length s = 8%nat -> pad s = s.
Proof. intros H. unfold pad. rewrite H. apply app_nil_r. Qed.

Lemma given_update h0 h msg data : given h0 h msg -> given h0 (update h data) (msg ++ data).
Proof.
  intros HG. unfold update. rewrite (given_filled _ _ _ HG). destruct (decide (length msg mod 8 <> 0)%nat) as [Hr|Hr].
  2:{ apply dec_stable in Hr. destruct HG as [H1 H2 H3]. by apply given_words. }
  pose proof (Nat.mod_upper_bound (length msg) 8) as Hub.
  destruct (fill_spec h0 h msg [] data (given_filling _ _ _ HG)) as [HF Hrest]; [cbn [length]; lia|]. cbn [length] in HF, Hrest.
  destruct (fill h data) as [h1 d1]. cbn [fst snd app] in *. rewrite Nat.add_0_r in *.
  pose proof (filling_filled _ _ _ _ HF) as Hfd. rewrite Hfd. set (k := Nat.min (8 - length msg mod 8) (length data)) in *.
  assert (Hlen : length (take k data) = k) by (rewrite length_take; lia). rewrite Hlen.
  pose proof (Nat.div_mod_eq (length msg) 8) as Hdm. destruct (decide (length msg mod 8 + length data < 8)%nat) as [Hlt|Hge].
  - assert (Hk : k = length data) by lia. rewrite Hk in *. rewrite (take_ge data (length data)) in HF by done. rewrite mod_add_small by lia.
    rewrite decide_True by lia. destruct HF as [F1 F2 F3]. destruct (rest_app msg data Hlt) as [R1 R2].
    split; [by rewrite R1, absorb_n_app by lia|by rewrite length_app|by rewrite R2].
  - assert (Hk : (length msg mod 8 + k = 8)%nat) by lia.
    assert (Hm : ((length msg + k) mod 8 = 0)%nat) by (by rewrite <- Nat.Div0.add_mod_idemp_l, Hk).
    rewrite Hm, decide_False by tauto. subst d1. rewrite <- (take_drop k data) at 2. rewrite app_assoc.
    destruct HF as [F1 F2 F3]. rewrite Hlen in F2.
    assert (Hdiv : (length (msg ++ take k data) / 8 = length msg / 8 + 1)%nat).
    { rewrite length_app, Hlen. symmetry. apply (Nat.div_unique _ 8 _ 0); lia. }
    apply given_words; cbn [v cnt].
    + by rewrite length_app, Hlen.
    + rewrite Hdiv, absorb_n_add. rewrite absorb_n_app by lia. rewrite <- F1. cbn [absorb_n]. unfold current_word. rewrite F3. do 2 f_equal.
      assert (Hl8 : length (rest_of msg ++ take k data) = 8%nat) by (rewrite length_app, rest_length; lia).
      rewrite pad_full by done. rewrite drop_app_le by lia. fold (rest_of msg). by rewrite (take_ge (rest_of msg ++ take k data)) by lia.
    + by rewrite F2, length_app, Hlen.
Qed.

(** ** The result is a 64-bit word *)

Definition u64 (z : Z) : Prop := 0 <= z < 2 ^ 64.
Definition u64_words (v : words) : Prop := u64 (v0 v) /\ u64 (v1 v) /\ u64 (v2 v) /\ u64 (v3 v).

Lemma u64_wrap z : u64 (wrap 64 z).
Proof. apply Z.mod_pos_bound. lia. Qed.

Lemma u64_bits z : 0 <= z -> (forall n, 64 <= n -> Z.testbit z n = false) -> u64 z.
Proof.
  intros H0 Hb. split; [done|]. destruct (Z.lt_ge_cases z (2 ^ 64)) as [|Hge]; [done|].
  assert (Hl : 64 <= Z.log2 z) by (apply Z.log2_le_pow2; lia). specialize (Hb (Z.log2 z) Hl). rewrite Z.bit_log2 in Hb; [done|lia].
Qed.

Lemma u64_high z n : u64 z -> 64 <= n -> Z.testbit z n = false.
Proof. intros [H0 H1] Hn. apply Z.bits_above_log2; [done|]. destruct (decide (z = 0)) as [->|]; [cbn; lia|]. apply (Z.lt_le_trans _ 64); [|done]. apply Z.log2_lt_pow2; lia. Qed.

Lemma u64_lxor a b : u64 a -> u64 b -> u64 (Z.lxor a b).
Proof.
  intros Ha Hb. apply u64_bits; [apply Z.lxor_nonneg; unfold u64 in *; lia|]. intros n Hn. by rewrite Z.lxor_spec, !u64_high.
Qed.

Lemma u64_lor a b : u64 a -> u64 b -> u64 (Z.lor a b).
Proof.
  intros Ha Hb. apply u64_bits; [apply Z.lor_nonneg; unfold u64 in *; lia|]. intros n Hn. by rewrite Z.lor_spec, !u64_high.
Qed.

Lemma u64_rotl x b : u64 x -> 0 <= b <= 64 -> u64 (ROTL x b).
Proof.
  intros [H0 H1] Hb. apply u64_lor; [apply u64_wrap|]. split; [by apply Z.shiftr_nonneg|]. rewrite Z.shiftr_div_pow2 by lia.
  apply (Z.le_lt_trans _ x); [|done]. apply Z.div_le_upper_bound; [lia|]. assert (1 <= 2 ^ (64 - b)) by (pose proof (Z.pow_pos_nonneg 2 (64 - b)); lia). nia.
Qed.

Ltac u64_solve :=
  lazymatch goal with
  | |- _ /\ _ => split; u64_solve
  | |- u64 (wrap 64 _) => apply u64_wrap
  | |- u64 (Z.lxor _ _) => apply u64_lxor; u64_solve
  | |- u64 (ROTL _ _) => apply u64_rotl; [u64_solve|lia]
  | |- u64 _ => assumption
  end.

Lemma u64_round w : u64_words w -> u64_words (SIPROUND w).
Proof.
  intros (H0 & H1 & H2 & H3). destruct w as [a b c d]. cbn [v0 v1 v2 v3] in *.
  unfold SIPROUND, u64_words. cbn [v0 v1 v2 v3]. u64_solve.
Qed.

Lemma u64_absorb w v : u64 w -> u64_words v -> u64_words (absorb_word w v).
Proof.
  intros Hw (H0 & H1 & H2 & H3). unfold absorb_word. cbv zeta.
  pose proof (u64_round _ (u64_round (mkV (v0 v) (v1 v) (v2 v) (Z.lxor (v3 v) w)) (conj H0 (conj H1 (conj H2 (u64_lxor _ _ H3 Hw)))))) as HG.
  generalize dependent (SIPROUND (SIPROUND (mkV (v0 v) (v1 v) (v2 v) (Z.lxor (v3 v) w)))). intros y (G0 & G1 & G2 & G3).
  unfold u64_words. cbn [v0 v1 v2 v3]. u64_solve.
Qed.

Lemma le_value_u64 s : (length s <= 8)%nat -> u64 (le_value s).
Proof.
  intros H. assert (Hb : 0 <= le_value s < 256 ^ Z.of_nat (length s)).
  { clear H. induction s as [|c s IH]; [done|]. cbn [le_value length]. rewrite Nat2Z.inj_succ, Z.pow_succ_r by lia.
    assert (0 <= code c < 256) by (unfold code; pose proof (N_ascii_bounded c); lia). lia. }
  split; [lia|]. apply (Z.lt_le_trans _ _ _ (proj2 Hb)). change (2 ^ 64) with (256 ^ 8). apply Z.pow_le_mono_r; lia.
Qed.

Lemma u64_absorb_n n v msg : u64_words v -> u64_words (absorb_n n v msg).
Proof. revert v msg. induction n as [|n IH]; intros v msg Hv; [done|]. cbn [absorb_n]. apply IH, u64_absorb; [|done]. apply le_value_u64. rewrite length_take. lia. Qed.

Lemma given_parts k0 k1 (parts : list str) : given (SipHash.v (create k0 k1)) (foldl update (create k0 k1) parts) (concat parts).
Proof.
  assert (HG : forall h msg, given (SipHash.v (create k0 k1)) h msg -> given (SipHash.v (create k0 k1)) (foldl update h parts) (msg ++ concat parts)).
  { induction parts as [|d parts IH]; intros h msg H; cbn [foldl concat]; [by rewrite app_nil_r|]. rewrite app_assoc. by apply IH, given_update. }
  apply (HG (create k0 k1) []). by split.
Qed.

Lemma get64_u64 (parts : list str) : u64 (get64 (foldl update (create 0 0) parts)).
Proof.
  destruct (given_parts 0 0 parts) as [H1 _ H3]. unfold get64, finalize.
  assert (Hv : u64_words (SipHash.v (foldl update (create 0 0) parts))) by (rewrite H1; apply u64_absorb_n; repeat split; vm_compute; done).
  set (w := le_value _). assert (Hw : u64 w).
  { apply le_value_u64. rewrite length_insert, H3. unfold pad. rewrite length_app, length_replicate, rest_length.
    pose proof (Nat.mod_upper_bound (length (concat parts)) 8). lia. }
  pose proof (u64_absorb w _ Hw Hv) as HG. generalize dependent (absorb_word w (SipHash.v (foldl update (create 0 0) parts))). intros x (G0 & G1 & G2 & G3).
  assert (H255 : u64 255) by (unfold u64; lia).
  assert (Hx : u64_words (mkV (v0 x) (v1 x) (Z.lxor (v2 x) 255) (v3 x))) by (unfold u64_words; cbn [v0 v1 v2 v3]; u64_solve).
  apply u64_round, u64_round, u64_round, u64_round in Hx. cbv zeta.
  generalize dependent (SIPROUND (SIPROUND (SIPROUND (SIPROUND (mkV (v0 x) (v1 x) (Z.lxor (v2 x) 255) (v3 x)))))). intros y (K0 & K1 & K2 & K3).
  u64_solve.
Qed.

(** The hash may be computed in parts: however the data is cut, updating part by part and
    taking the result gives SipHash-2-4 of the whole. *)
Lemma siphash_streaming (k0 k1 : Z) (parts : list str) :
  get64 (foldl update (create k0 k1) parts) = siphash_ref k0 k1 (concat parts).
Proof.
  destruct (given_parts k0 k1 parts) as [H1 H2 H3].
  assert (Hw : forall z, wrap 8 (wrap 64 z) = wrap 8 z).
  { intros z. unfold wrap. change (2 ^ 64) with (2 ^ 8 * 2 ^ 56). rewrite Z.rem_mul_r by lia. rewrite Z.mul_comm, Z.mod_add, Z.mod_mod by lia. done. }
  unfold get64, finalize, siphash_ref. by rewrite H1, H2, H3, Hw.
Qed.
