(* ===== verification/Changelog.v ===== *)
(** * Changelog: the log of the coordination service on disk

    Models src/src/Coordination/Changelog.{h,cpp}: records with a checksum, the files
    changelog_from_to.bin and the writer of the last one, the entries kept in memory, and
    the recovery of all of them at start.  The calls of KeeperLogStore.cpp go to
    these operations under a lock.

    A file is named by its first and last index; [existing_changelogs], ordered by the first, is a
    list.  A write buffer counts the bytes it was given since it was opened, which is
    not the position in a file that was opened to append.  What is in the file includes
    what is in the buffer: a crash keeps a prefix.  An entry without a buffer is one with an
    empty buffer.  The size of [nuraft::log_val_type], a type of the Raft library, is a
    parameter.  An iterator to nothing is [None]. *)

From S2P Require Import Prelude TextFormat WalRecord Wire SipHash.

Local Open Scope Z_scope.

Module Changelog.

Record log_entry : Type := mkEntry { term : Z; val_type : Z; buf : str }.

#[export] Instance log_entry_eq_dec : EqDecision log_entry.
Proof. solve_decision. Defined.

Record ChangelogRecord : Type := mkRecord {
  version : Z; index : Z; header_term : Z; value_type : Z; blob_size : Z; blob : str
}.

Definition file : Type := Z * Z.

Record ChangelogWriter : Type := mkWriter {
  w_file : file; w_count : Z; entries_written : Z; w_start_index : Z
}.

Record ChangelogReadResult : Type := mkResult {
  entries_read : Z; first_read_index : Z; last_position : Z; error : bool
}.

Record t : Type := mk {
  rotate_interval : Z;
  existing_changelogs : list file;
  disk : gmap file str;
  current_writer : option ChangelogWriter;
  index_to_start_pos : gmap Z Z;
  logs : gmap Z log_entry;
  start_index : Z
}.

Section changelog.
Context (vt_size : nat).

(** ** Records *)

Definition buildRecord (i : Z) (e : log_entry) : ChangelogRecord :=
  mkRecord 0 i (term e) (val_type e) (Z.of_nat (length (buf e))) (buf e).

Definition computeRecordChecksum (r : ChangelogRecord) : Z :=
  let hash := foldl SipHash.update (SipHash.create 0 0)
    [write_le 1 (version r); write_le 8 (index r); write_le 8 (header_term r); write_le vt_size (value_type r); write_le 8 (blob_size r)] in
  SipHash.get64 (if decide (blob_size r <> 0) then SipHash.update hash (blob r) else hash).

Definition record_bytes (r : ChangelogRecord) : str :=
  write_le 8 (computeRecordChecksum r)
  ++ write_le 1 (version r) ++ write_le 8 (index r) ++ write_le 8 (header_term r)
  ++ write_le vt_size (value_type r) ++ write_le 8 (blob_size r) ++ (if decide (blob_size r <> 0) then blob r else []).

(** The checksum and the record; the version is looked at before the blob is read. *)
Definition read_record : reader (Z * ChangelogRecord) :=
  checksum ← read_unsigned 8;
  v ← read_unsigned 1; i ← read_unsigned 8; t ← read_unsigned 8; vt ← read_unsigned vt_size; size ← read_unsigned 8;
  if v >? 0 then rthrow (DBException ErrorCodes.UNKNOWN_FORMAT_VERSION)
  else
    b ← (if decide (size <> 0) then readStrict (Z.to_nat size) else mret []);
    mret (checksum, mkRecord v i t vt size b).

(** ** Reading a file *)

(** The loop of [readChangelog]; [pos] is [read_buf.count()]. *)
Fixpoint read_loop (fuel : nat) (data : str) (pos previous_index start_log_index : Z)
    (ls : gmap Z log_entry) (offsets : gmap Z Z) (res : ChangelogReadResult)
    : option (result (gmap Z log_entry * gmap Z Z * ChangelogReadResult)) :=
  match fuel with
  | O => None
  | S fuel =>
      if decide (data = []) then Some (Ok (ls, offsets, res))
      else
        let broken := mkResult (entries_read res) (first_read_index res) pos true in
        match read_record data with
        | Throw (DBException code) =>
            if decide (code = ErrorCodes.UNKNOWN_FORMAT_VERSION) then Some (Throw (DBException code))
            else Some (Ok (ls, offsets, broken))
        | Throw _ => Some (Ok (ls, offsets, broken))
        | Ok ((checksum, r), rest) =>
            if decide (previous_index <> 0 /\ wrap 64 (previous_index + 1) <> index r) then Some (Ok (ls, offsets, broken))
            else if decide (computeRecordChecksum r <> checksum) then Some (Ok (ls, offsets, broken))
            else if decide (is_Some (ls !! index r)) then Some (Ok (ls, offsets, broken))
            else
              let read := entries_read res + 1 in
              let next := pos + (Z.of_nat (length data) - Z.of_nat (length rest)) in
              if index r <? start_log_index
              then read_loop fuel rest next (index r) start_log_index ls offsets (mkResult read (first_read_index res) pos (error res))
              else
                let first := if decide (first_read_index res = 0) then index r else first_read_index res in
                read_loop fuel rest next (index r) start_log_index (<[index r := mkEntry (header_term r) (value_type r) (blob r)]> ls)
                  (<[index r := pos]> offsets) (mkResult read first pos (error res))
        end
  end.

Definition readChangelog (data : str) (start_log_index : Z) (ls : gmap Z log_entry) (offsets : gmap Z Z)
    : option (result (gmap Z log_entry * gmap Z Z * ChangelogReadResult)) :=
  read_loop (S (length data)) data 0 0 start_log_index ls offsets (mkResult 0 0 0 false).

(** ** Writing *)

(** A file is extended with zeros when it is truncated to more than its length. *)
Definition truncate_to (n : nat) (data : str) : str := take n data ++ replicate (n - length data) "000"%char.

Definition truncateToLength (c : t) (w : ChangelogWriter) (n : Z) : t :=
  mk (rotate_interval c) (existing_changelogs c) (alter (truncate_to (Z.to_nat n)) (w_file w) (disk c)) (Some w)
    (index_to_start_pos c) (logs c) (start_index c).

Definition appendRecord (c : t) (w : ChangelogWriter) (r : ChangelogRecord) : t * Z :=
  let bytes := record_bytes r in
  let w' := mkWriter (w_file w) (w_count w + Z.of_nat (length bytes)) (wrap 64 (entries_written w + 1)) (w_start_index w) in
  (mk (rotate_interval c) (existing_changelogs c) (alter (fun data => data ++ bytes) (w_file w) (disk c)) (Some w')
     (index_to_start_pos c) (logs c) (start_index c), w_count w).

(** [existing_changelogs[from] = description] *)
Fixpoint put_file (f : file) (l : list file) : list file :=
  match l with
  | [] => [f]
  | g :: l => if f.1 <? g.1 then f :: g :: l else if f.1 =? g.1 then f :: l else g :: put_file f l
  end.

Definition rotate (c : t) (new_start_log_index : Z) : t :=
  let f := (new_start_log_index, wrap 64 (new_start_log_index + rotate_interval c - 1)) in
  mk (rotate_interval c) (put_file f (existing_changelogs c)) (<[f := []]> (disk c)) (Some (mkWriter f 0 0 new_start_log_index))
    (index_to_start_pos c) (logs c) (start_index c).

Definition appendEntry (c : t) (i : Z) (e : log_entry) : t * result unit :=
  match current_writer c with
  | None => (c, Throw (DBException ErrorCodes.LOGICAL_ERROR))
  | Some w =>
      let c := mk (rotate_interval c) (existing_changelogs c) (disk c) (current_writer c) (index_to_start_pos c) (logs c)
                 (if decide (logs c = ∅) then i else start_index c) in
      let c := if decide (entries_written w = rotate_interval c) then rotate c i else c in
      let '(c, offset) := appendRecord c (default w (current_writer c)) (buildRecord i e) in
      if decide (is_Some (index_to_start_pos c !! i)) then (c, Throw (DBException ErrorCodes.LOGICAL_ERROR))
      else (mk (rotate_interval c) (existing_changelogs c) (disk c) (current_writer c) (<[i := offset]> (index_to_start_pos c))
              (<[i := e]> (logs c)) (start_index c), Ok tt)
  end.

(** The loop that removes the entries from [i] on; [n] is at least their number. *)
Fixpoint erase_from (n : nat) (i : Z) (ls : gmap Z log_entry) (offsets : gmap Z Z) (written : Z) : gmap Z log_entry * gmap Z Z * Z :=
  match n with
  | O => (ls, offsets, written)
  | S n =>
      match ls !! i with
      | None => (ls, offsets, written)
      | Some _ => erase_from n (i + 1) (delete i ls) (delete i offsets) (wrap 64 (written - 1))
      end
  end.

(** [lower_bound] and the element before it. *)
Definition lower_bound (i : Z) (l : list file) : option file := head (filter (fun f => i <= f.1) l).
Definition before_lower_bound (i : Z) (l : list file) : option file := last (filter (fun f => f.1 < i) l).

(** The writer a file that is not the last one gets: its start index is the one of [lower_bound]. *)
Definition previous_writer (c : t) (i : Z) : option ChangelogWriter :=
  index_changelog ← lower_bound i (existing_changelogs c);
  description ← (if decide (index_changelog.1 = i) then Some index_changelog else before_lower_bound i (existing_changelogs c));
  Some (mkWriter description 0 (wrap 64 (description.2 - description.1 + 1)) index_changelog.1).

Definition remove_files (fs : list file) (d : gmap file str) : gmap file str := foldl (fun d f => delete f d) d fs.

Definition writeAt (c : t) (i : Z) (e : log_entry) : option (t * result unit) :=
  match index_to_start_pos c !! i with
  | None => Some (c, Throw (DBException ErrorCodes.LOGICAL_ERROR))
  | Some offset =>
      w0 ← current_writer c;
      let go_to_previous_file := i <? w_start_index w0 in
      w ← (if go_to_previous_file then previous_writer c i else Some w0);
      let written := entries_written w in
      let c := truncateToLength c w offset in
      let c := if go_to_previous_file
               then let removed := filter (fun f => i < f.1) (existing_changelogs c) in
                    mk (rotate_interval c) (filter (fun f => f.1 <= i) (existing_changelogs c)) (remove_files removed (disk c)) (current_writer c)
                      (index_to_start_pos c) (logs c) (start_index c)
               else c in
      let '(ls, offsets, written) := erase_from (size (logs c)) i (logs c) (index_to_start_pos c) written in
      let w := mkWriter (w_file w) (w_count w) written (w_start_index w) in
      Some (appendEntry (mk (rotate_interval c) (existing_changelogs c) (disk c) (Some w) offsets ls (start_index c)) i e)
  end.

(** The files whose last index is not above [up_to], from the first on. *)
Fixpoint compact_files (up_to : Z) (c : t) (fs : list file) : t :=
  match fs with
  | [] => c
  | f :: fs =>
      if f.2 <=? up_to
      then compact_files up_to
             (mk (rotate_interval c) (tail (existing_changelogs c)) (delete f (disk c)) (current_writer c)
                (filter (fun io => f.2 < io.1) (index_to_start_pos c)) (logs c) (start_index c)) fs
      else c
  end.

Definition compact (c : t) (up_to_log_index : Z) : t :=
  let c := compact_files up_to_log_index c (existing_changelogs c) in
  mk (rotate_interval c) (existing_changelogs c) (disk c) (current_writer c) (index_to_start_pos c)
    (filter (fun ie => up_to_log_index < ie.1) (logs c)) (wrap 64 (up_to_log_index + 1)).

(** ** Looking at entries *)

Definition getNextEntryIndex (c : t) : Z := wrap 64 (start_index c + Z.of_nat (size (logs c))).

Definition fake_entry : log_entry := mkEntry 0 1 (replicate 8 "000"%char).

Definition getLastEntry (c : t) : log_entry := default fake_entry (logs c !! wrap 64 (getNextEntryIndex c - 1)).

Definition entryAt (c : t) (i : Z) : option log_entry := logs c !! i.

Definition getLogEntriesBetween (c : t) (start end_ : Z) : list (option log_entry) :=
  map (fun k => entryAt c (start + Z.of_nat k)) (seq 0 (Z.to_nat (end_ - start))).

(** ** Start *)

(** What the loop over the files has found. *)
Record scan : Type := mkScan {
  total_read : Z; incomplete_log_index : Z; scan_result : ChangelogReadResult; scan_first : Z; started : bool;
  scan_logs : gmap Z log_entry; scan_offsets : gmap Z Z
}.

Definition contents (c : t) (f : file) : str := default [] (disk c !! f).

Fixpoint scan_files (c : t) (last_commited start_to_read_from : Z) (fs : list file) (s : scan) : option (result scan) :=
  match fs with
  | [] => Some (Ok s)
  | f :: fs =>
      let entries_in_last := wrap 64 (f.2 - f.1 + 1) in
      if f.2 >=? start_to_read_from then
        if negb (started s) && (f.1 >? last_commited) && (f.1 - last_commited >? 1)
        then Some (Ok (mkScan (total_read s) f.1 (scan_result s) (scan_first s) (started s) (scan_logs s) (scan_offsets s)))
        else
          r ← readChangelog (contents c f) start_to_read_from (scan_logs s) (scan_offsets s);
          match r with
          | Throw x => Some (Throw x)
          | Ok (ls, offsets, res) =>
              let first := if decide (scan_first s = 0) then first_read_index res else scan_first s in
              let total := total_read s + entries_read res in
              if entries_read res <? entries_in_last
              then Some (Ok (mkScan total f.1 res first true ls offsets))
              else scan_files c last_commited start_to_read_from fs (mkScan total (incomplete_log_index s) res first true ls offsets)
          end
      else scan_files c last_commited start_to_read_from fs s
  end.

Definition readChangelogAndInitWriter (c : t) (last_commited_log_index logs_to_keep : Z) : option (t * result unit) :=
  let start_to_read_from := if last_commited_log_index >? logs_to_keep then last_commited_log_index - logs_to_keep else 1 in
  r ← scan_files c last_commited_log_index start_to_read_from (existing_changelogs c)
        (mkScan 0 0 (mkResult 0 0 0 false) 0 false (logs c) (index_to_start_pos c));
  match r with
  | Throw x => Some (c, Throw x)
  | Ok s =>
      let start := if decide (scan_first s <> 0) then scan_first s else last_commited_log_index in
      let c := mk (rotate_interval c) (existing_changelogs c) (disk c) (current_writer c) (scan_offsets s) (scan_logs s) start in
      let c :=
        if decide (incomplete_log_index s <> 0) then
          let kept := if started s then filter (fun f : file => f.1 <= incomplete_log_index s) (existing_changelogs c) else [] in
          let removed := if started s then filter (fun f : file => incomplete_log_index s < f.1) (existing_changelogs c) else existing_changelogs c in
          let c := mk (rotate_interval c) kept (remove_files removed (disk c)) (current_writer c) (index_to_start_pos c) (logs c) (start_index c) in
          match last kept with
          | None => c
          | Some description =>
              let w := mkWriter description 0 (entries_read (scan_result s)) description.1 in
              if error (scan_result s) then truncateToLength c w (last_position (scan_result s))
              else mk (rotate_interval c) (existing_changelogs c) (disk c) (Some w) (index_to_start_pos c) (logs c) (start_index c)
          end
        else c in
      Some (if decide (current_writer c = None) then rotate c (wrap 64 (start + total_read s)) else c, Ok tt)
  end.

End changelog.

(** A process that starts with the files [d], in the order of their first index. *)
Definition open_files (interval : Z) (fs : list file) (d : gmap file str) : t := mk interval fs d None ∅ ∅ 0.

End Changelog.
Import Changelog.

(** ** Records that are cut short *)

(** The reader fails on every proper prefix of [w], and not with an unknown version. *)
Definition starves {A} (r : reader A) (w : str) : Prop :=
  forall m, (m < length w)%nat -> exists x, r (take m w) = Throw x /\ x <> DBException ErrorCodes.UNKNOWN_FORMAT_VERSION.

Lemma starves_bind {A B} (r : reader A) (k : A -> reader B) w w' a :
  reads r w a -> starves r w -> starves (k a) w' -> starves (r ≫= k) (w ++ w').
Proof.
  intros Hr Hw Hk m Hm. rewrite length_app in Hm. unfold mbind, reader_bind. destruct (decide (m < length w)%nat) as [H|H].
  - rewrite take_app_le by lia. destruct (Hw m H) as (x & -> & Hx). by exists x.
  - rewrite take_app_ge by lia. rewrite Hr. apply Hk. lia.
Qed.

Lemma starves_strict s n : length s = n -> starves (readStrict n) s.
Proof. intros H m Hm. unfold readStrict. rewrite decide_False by (rewrite length_take; lia). by eexists. Qed.

Lemma starves_ret {A} (a : A) : starves (mret a) [].
Proof. intros m Hm. cbn in Hm. lia. Qed.

Lemma starves_unsigned n z : starves (read_unsigned n) (write_le n z).
Proof.
  intros m Hm. unfold write_le in *. rewrite le_bytes_length in Hm. unfold read_unsigned, mbind, reader_bind.
  destruct (starves_strict (le_bytes n z) n (le_bytes_length n z) m) as (x & -> & Hx); [by rewrite le_bytes_length|]. by exists x.
Qed.

Section changelog.
Context (vt_size : nat).

Definition valid_entry (e : log_entry) : Prop :=
  0 <= term e < 2 ^ 64 /\ 0 <= val_type e < 256 ^ Z.of_nat vt_size /\ Z.of_nat (length (buf e)) < 2 ^ 64.

#[export] Instance valid_entry_dec e : Decision (valid_entry e).
Proof. unfold valid_entry. apply _. Defined.

Lemma checksum_range r : 0 <= computeRecordChecksum vt_size r < 2 ^ 64.
Proof.
  unfold computeRecordChecksum. cbv zeta.
  match goal with |- 0 <= ?z < 2 ^ 64 => change (u64 z) end.
  destruct (decide (blob_size r <> 0)); [rewrite <- (foldl_snoc SipHash.update)|]; apply get64_u64.
Qed.

(** The bytes of a record after some checksum. *)
Lemma record_with_checksum ck i e :
  0 <= ck < 2 ^ 64 -> 0 <= i < 2 ^ 64 -> valid_entry e ->
  let r := buildRecord i e in
  let w := write_le 8 ck ++ write_le 1 (version r) ++ write_le 8 (index r) ++ write_le 8 (header_term r)
             ++ write_le vt_size (value_type r) ++ write_le 8 (blob_size r) ++ (if decide (blob_size r <> 0) then blob r else []) in
  reads (read_record vt_size) w (ck, r) /\ starves (read_record vt_size) w.
Proof.
  intros Hc Hi (Ht & Hv & Hl). cbv zeta. cbn [buildRecord version index header_term value_type blob_size blob].
  assert (H1 : 0 <= 0 < 256 ^ Z.of_nat 1) by (cbn; lia).
  assert (Hs : 0 <= Z.of_nat (length (buf e)) < 256 ^ Z.of_nat 8) by (change (256 ^ Z.of_nat 8) with (2 ^ 64); lia).
  assert (Hb : let k := (b ← (if decide (Z.of_nat (length (buf e)) <> 0) then readStrict (Z.to_nat (Z.of_nat (length (buf e)))) else mret []);
        mret (ck, mkRecord 0 i (term e) (val_type e) (Z.of_nat (length (buf e))) b)) : reader (Z * ChangelogRecord) in
      let w := (if decide (Z.of_nat (length (buf e)) <> 0) then buf e else []) in
      reads k w (ck, buildRecord i e) /\ starves k w).
  { cbv zeta. rewrite Nat2Z.id. case_decide as H0.
    - split.
      + apply (reads_bind_ret _ (fun b => (ck, mkRecord 0 i (term e) (val_type e) (Z.of_nat (length (buf e))) b))). by apply reads_strict.
      + intros m Hm. destruct (starves_strict (buf e) (length (buf e)) eq_refl m Hm) as (x & Hx & Hne). exists x. split; [|done].
        unfold mbind, reader_bind. by rewrite Hx.
    - assert (Hnil : buf e = []) by (destruct (buf e); [done|cbn in H0; lia]). split; [|intros m Hm; cbn in Hm; lia].
      intros rest. unfold buildRecord. rewrite Hnil. done. }
  destruct Hb as [Hb1 Hb2]. unfold read_record. split.
  - do 5 (eapply reads_bind; [apply reads_unsigned; assumption|]). eapply reads_bind; [apply reads_unsigned; assumption|]. exact Hb1.
  - do 5 (eapply starves_bind; [apply reads_unsigned; assumption|apply starves_unsigned|]).
    eapply starves_bind; [apply reads_unsigned; assumption|apply starves_unsigned|]. exact Hb2.
Qed.

(** A record is read back, and nothing can be read of a part of it. *)
Lemma record_framed i e :
  0 <= i < 2 ^ 64 -> valid_entry e ->
  reads (read_record vt_size) (record_bytes vt_size (buildRecord i e)) (computeRecordChecksum vt_size (buildRecord i e), buildRecord i e)
  /\ starves (read_record vt_size) (record_bytes vt_size (buildRecord i e)).
Proof. intros Hi He. apply (record_with_checksum _ i e (checksum_range _) Hi He). Qed.

(** ** Reading a file that was cut *)

#[local] Opaque computeRecordChecksum.

(** The bytes of consecutive entries from index [i] on. *)
Fixpoint bytes_of (i : Z) (es : list log_entry) : str :=
  match es with
  | [] => []
  | e :: es => record_bytes vt_size (buildRecord i e) ++ bytes_of (i + 1) es
  end.

Fixpoint entries_map (i : Z) (es : list log_entry) : gmap Z log_entry :=
  match es with
  | [] => ∅
  | e :: es => <[i := e]> (entries_map (i + 1) es)
  end.

(** How many entries are complete in the first [n] bytes. *)
Fixpoint complete (n : nat) (i : Z) (es : list log_entry) : nat :=
  match es with
  | [] => 0
  | e :: es =>
      let len := length (record_bytes vt_size (buildRecord i e)) in
      if (len <=? n)%nat then S (complete (n - len) (i + 1) es) else 0
  end.

Lemma complete_le n i es : (complete n i es <= length es)%nat.
Proof. revert n i. induction es as [|e es IH]; intros n i; cbn [complete length]; [done|]. destruct (_ <=? n)%nat; [|lia]. specialize (IH (n - length (record_bytes vt_size (buildRecord i e)))%nat (i + 1)). lia. Qed.

Lemma bytes_of_app i a b : bytes_of i (a ++ b) = bytes_of i a ++ bytes_of (i + Z.of_nat (length a)) b.
Proof.
  revert i. induction a as [|e a IH]; intros i; cbn [bytes_of app length]; [by rewrite Z.add_0_r|]. rewrite IH, <- app_assoc. do 3 f_equal. lia.
Qed.

Lemma entries_map_lookup i es j : entries_map i es !! j = if decide (i <= j) then es !! Z.to_nat (j - i) else None.
Proof.
  revert i. induction es as [|e es IH]; intros i; cbn [entries_map].
  { rewrite lookup_empty, lookup_nil. by case_decide. }
  destruct (decide (j = i)) as [->|Hne].
  - rewrite lookup_insert_eq, decide_True, Z.sub_diag by lia. done.
  - rewrite lookup_insert_ne, IH by done. case_decide as H1.
    + rewrite decide_True by lia. replace (Z.to_nat (j - i)) with (S (Z.to_nat (j - (i + 1)))) by lia. done.
    + rewrite decide_False by lia. done.
Qed.

Lemma record_bytes_length i e : (0 < length (record_bytes vt_size (buildRecord i e)))%nat.
Proof. unfold record_bytes, write_le. rewrite length_app, le_bytes_length. lia. Qed.

(** What is left of a file that was cut after [n] bytes is its complete records and a rest. *)
Lemma complete_bytes n i es :
  take (length (bytes_of i (take (complete n i es) es))) (take n (bytes_of i es)) = bytes_of i (take (complete n i es) es)
  /\ (length (bytes_of i (take (complete n i es) es)) <= length (take n (bytes_of i es)))%nat.
Proof.
  revert n i. induction es as [|e es IH]; intros n i; cbn [complete bytes_of take]; [by rewrite take_nil|].
  destruct (length (record_bytes vt_size (buildRecord i e)) <=? n)%nat eqn:E; [|cbn; split; [done|lia]].
  apply Nat.leb_le in E. cbn [take bytes_of]. destruct (IH (n - length (record_bytes vt_size (buildRecord i e)))%nat (i + 1)) as [H1 H2].
  rewrite take_app_ge, !length_app by lia. split; [|lia]. rewrite take_app_add, H1. done.
Qed.

(** The result of reading the first [n] bytes. *)
Definition read_ok (n : nat) (pos i : Z) (es : list log_entry) (res res' : ChangelogReadResult) : Prop :=
  let k := complete n i es in
  let clean := bool_decide (length (take n (bytes_of i es)) = length (bytes_of i (take k es))) in
  entries_read res' = entries_read res + Z.of_nat k
  /\ first_read_index res' = (if decide (first_read_index res = 0 /\ k <> 0%nat) then i else first_read_index res)
  /\ (if clean then error res' = error res
      else error res' = true /\ last_position res' = pos + Z.of_nat (length (bytes_of i (take k es)))).

Lemma read_loop_prefix es i n fuel pos prev start ls offs res :
  0 < i -> i + Z.of_nat (length es) <= 2 ^ 64 -> Forall valid_entry es -> start <= i -> prev = 0 \/ prev = i - 1 ->
  (forall j, i <= j -> ls !! j = None) -> (length (take n (bytes_of i es)) < fuel)%nat ->
  let k := complete n i es in
  exists offs' res', read_loop vt_size fuel (take n (bytes_of i es)) pos prev start ls offs res
      = Some (Ok (entries_map i (take k es) ∪ ls, offs', res'))
    /\ dom offs' = dom (entries_map i (take k es)) ∪ dom offs /\ read_ok n pos i es res res'.
Proof.
  revert i n fuel pos prev ls offs res. induction es as [|e es IH]; intros i n fuel pos prev ls offs res Hi Hmax HF Hst Hprev Hls Hfuel;
    (destruct fuel as [|fuel]; [lia|]); cbn [read_loop bytes_of complete].
  { rewrite take_nil. cbn. exists offs, res. rewrite (left_id_L ∅ (∪)). split; [done|]. split; [set_solver|]. unfold read_ok. cbn. rewrite take_nil. cbn.
    split; [lia|]. split; [|done]. by rewrite decide_False by tauto. }
  apply Forall_cons in HF as [He HF]. cbn [length] in Hmax. destruct (record_framed i e ltac:(lia) He) as [Hr Hs].
  pose proof (record_bytes_length i e) as Hpos. cbn [bytes_of] in Hfuel. unfold read_ok. cbn [complete].
  set (R := record_bytes vt_size (buildRecord i e)) in *. destruct (length R <=? n)%nat eqn:E.
  - apply Nat.leb_le in E. rewrite take_app_ge in * by lia. rewrite length_app in Hfuel.
    rewrite (decide_False (P := R ++ _ = [])) by (intros H; apply (f_equal length) in H; rewrite length_app in H; cbn in H; lia).
    rewrite Hr. cbn [buildRecord index].
    assert (Hw : wrap 64 (i - 1 + 1) = i) by (unfold wrap; rewrite Z.sub_add; apply Z.mod_small; lia).
    rewrite (decide_False (P := prev <> 0 /\ _)) by (destruct Hprev as [->| ->]; [tauto|rewrite Hw; tauto]).
    rewrite (decide_False (P := _ <> _)) by (intros H; by apply H). rewrite (decide_False (P := is_Some _)) by (rewrite Hls by lia; by intros [? ?]).
    rewrite (proj2 (Z.ltb_ge _ _)) by lia.
    destruct (IH (i + 1) (n - length R)%nat fuel (pos + (Z.of_nat (length (R ++ take (n - length R) (bytes_of (i + 1) es))) - Z.of_nat (length (take (n - length R) (bytes_of (i + 1) es)))))
      i (<[i := mkEntry (header_term (buildRecord i e)) (value_type (buildRecord i e)) (blob (buildRecord i e))]> ls) (<[i := pos]> offs)
      (mkResult (entries_read res + 1) (if decide (first_read_index res = 0) then i else first_read_index res) pos (error res)))
      as (offs' & res' & Hl & Hd & Hres); [lia|lia|done|lia|right; lia|intros j Hj; rewrite lookup_insert_ne by lia; apply Hls; lia|lia|].
    exists offs', res'. split; [|split].
    + etrans; [exact Hl|]. do 4 f_equal. cbn [take entries_map].
      rewrite <- insert_union_r by (rewrite entries_map_lookup, decide_False by lia; done). rewrite insert_union_l. by destruct e.
    + rewrite Hd. cbn [take entries_map]. rewrite !dom_insert_L. set_solver.
    + destruct Hres as (G1 & G2 & G3). cbn [entries_read first_read_index error] in *. cbn [take bytes_of]. fold R.
      set (k := complete (n - length R) (i + 1) es) in *. rewrite !length_app.
      split; [lia|]. split.
      * rewrite G2. repeat case_decide; try tauto; try lia.
      * rewrite (take_app_ge R) by lia. rewrite length_app. rewrite (bool_decide_ext _ (length (take (n - length R) (bytes_of (i + 1) es)) = length (bytes_of (i + 1) (take k es)))) by lia.
        rewrite length_app in G3. case_bool_decide; [done|]. destruct G3 as [G3 G4]. split; [done|]. rewrite G4. lia.
  - apply Nat.leb_gt in E. rewrite take_app_le in * by lia. cbn [take bytes_of entries_map length].
    assert (Hnil : forall offs res', Some (Ok (ls, offs, res')) = Some (Ok (∅ ∪ ls, offs, res')) :> option (result (gmap Z log_entry * gmap Z Z * ChangelogReadResult))).
    { intros. by rewrite (left_id_L ∅ (∪)). }
    destruct (decide (n = 0%nat)) as [->|Hn].
    + rewrite take_0. cbn. exists offs, res. split; [apply Hnil|]. split; [set_solver|]. split; [lia|]. split; [|done]. by rewrite decide_False by tauto.
    + assert (Hlen : length (take n R) = n) by (rewrite length_take; lia).
      rewrite (decide_False (P := take n R = [])) by (intros H; rewrite H in Hlen; cbn in Hlen; lia).
      destruct (Hs n E) as (x & Hx & Hne). rewrite Hx. eexists offs, (mkResult (entries_read res) (first_read_index res) pos true). split.
      * destruct x as [code|code| | |]; try apply Hnil. rewrite (decide_False (P := code = _)) by congruence. apply Hnil.
      * split; [set_solver|]. cbn [entries_read first_read_index error last_position]. split; [lia|]. split; [by rewrite decide_False by tauto|].
        rewrite (take_app_le R), Hlen by lia. rewrite bool_decide_eq_false_2 by lia. split; [done|lia].
Qed.

(** Reading a file of the log that a crash cut anywhere finds exactly the records that are
    complete, as they were appended; the rest is reported as an error, and
    truncating the file to the reported position leaves exactly those records. *)
Lemma cut_file_read (i : Z) (es : list log_entry) (n : nat) :
  0 < i -> i + Z.of_nat (length es) <= 2 ^ 64 -> Forall valid_entry es ->
  let k := complete n i es in
  let data := take n (bytes_of i es) in
  exists offs res, readChangelog vt_size data 1 ∅ ∅ = Some (Ok (entries_map i (take k es), offs, res))
    /\ entries_read res = Z.of_nat k
    /\ (if error res then take (Z.to_nat (last_position res)) data else data) = bytes_of i (take k es).
Proof.
  intros Hi Hmax HF. destruct (read_loop_prefix es i n (S (length (take n (bytes_of i es)))) 0 0 1 ∅ ∅ (mkResult 0 0 0 false))
    as (offs & res & Hl & _ & G1 & _ & G3); [done|done|done|lia|by left|done|lia|].
  destruct (complete_bytes n i es) as [B1 B2]. exists offs, res. cbv zeta. unfold readChangelog. rewrite Hl, (right_id_L ∅ (∪)). split; [done|].
  split; [cbn in G1; lia|]. case_bool_decide as Hc.
  - rewrite G3. cbn [error]. etrans; [|exact B1]. by rewrite (take_ge (take n (bytes_of i es))) by lia.
  - destruct G3 as [-> ->]. etrans; [|exact B1]. f_equal. lia.
Qed.
End changelog.

Lemma cut_file_read_witness :
  let es := [mkEntry 1 1 (lit "put a"); mkEntry 1 1 (lit "put b")] in
  complete 4 64 1 es = 1%nat
  /\ exists offs res, readChangelog 4 (take 64 (bytes_of 4 1 es)) 1 ∅ ∅ = Some (Ok (entries_map 1 (take 1 es), offs, res)) /\ entries_read res = 1.
Proof.
  cbv zeta. assert (Hk : complete 4 64 1 [mkEntry 1 1 (lit "put a"); mkEntry 1 1 (lit "put b")] = 1%nat) by (vm_compute; reflexivity). split; [exact Hk|].
  assert (HF : Forall (valid_entry 4) [mkEntry 1 1 (lit "put a"); mkEntry 1 1 (lit "put b")]) by (apply (bool_decide_unpack _); vm_compute; exact I).
  destruct (cut_file_read 4 1 [mkEntry 1 1 (lit "put a"); mkEntry 1 1 (lit "put b")] 64 ltac:(lia) ltac:(cbn; lia) HF) as (offs & res & H1 & H2 & _).
  rewrite Hk in H1, H2. exists offs, res. by split.
Defined.
