(* ===== verification/ChangelogLife.v ===== *)
(** * ChangelogLife: the log over appends, crashes and starts

    A run of the log of [Changelog] appends entries, is stopped by crashes that cut the last
    file anywhere, and starts again from the files.  The reference is the list of
    entries in full files and the list in the last one.  The last part shows what
    overwriting entries does to the files. *)

From S2P Require Import Prelude TextFormat WalRecord Wire SipHash Changelog.
Import Changelog.

Local Open Scope Z_scope.

#[local] Opaque computeRecordChecksum.

Section changelog.
Context (vt_size : nat).
Local Abbreviation valid_entry := (valid_entry vt_size).
Local Abbreviation bytes_of := (bytes_of vt_size).
Local Abbreviation complete := (complete vt_size).

(** ** The log over appends and crashes *)

Lemma complete_all i es : complete (length (bytes_of i es)) i es = length es.
Proof.
  revert i. induction es as [|e es IH]; intros i; cbn [bytes_of complete length]; [done|]. rewrite length_app.
  rewrite (proj2 (Nat.leb_le _ _)) by lia. rewrite <- (IH (i + 1)). do 2 f_equal. lia.
Qed.

Lemma entries_map_app i a b : entries_map i (a ++ b) = entries_map i a ∪ entries_map (i + Z.of_nat (length a)) b.
Proof.
  revert i. induction a as [|e a IH]; intros i; cbn [entries_map app length].
  - by rewrite (left_id_L ∅ (∪)), Z.add_0_r.
  - rewrite IH, insert_union_l. do 2 f_equal. lia.
Qed.

Lemma entries_map_disjoint i a b : entries_map (i + Z.of_nat (length a)) b ∪ entries_map i a = entries_map i a ∪ entries_map (i + Z.of_nat (length a)) b.
Proof.
  apply map_union_comm. apply map_disjoint_spec. intros j x y. rewrite !entries_map_lookup. repeat case_decide; try done.
  intros _ Hy%lookup_lt_Some. lia.
Qed.

Lemma entries_map_size i es : size (entries_map i es) = length es.
Proof.
  revert i. induction es as [|e es IH]; intros i; cbn [entries_map length]; [apply map_size_empty|].
  rewrite map_size_insert_None, IH; [done|]. rewrite entries_map_lookup, decide_False by lia. done.
Qed.

Section life.
Context (interval : nat) (i0 : Z) (Hint : (0 < interval)%nat) (Hi0 : 0 < i0).

Inductive log_event : Type :=
| LAppend (e : log_entry)
| LCrash (n : nat) (last_commited logs_to_keep : Z).

(** The reference: the entries in the files that are full, and those in the last file. *)
Definition log_step (s : list log_entry * list log_entry) (ev : log_event) : list log_entry * list log_entry :=
  let '(sealed, tail) := s in
  match ev with
  | LAppend e => if decide (length tail = interval) then (sealed ++ tail, [e]) else (sealed, tail ++ [e])
  | LCrash n _ _ =>
      let tail := take (complete n (i0 + Z.of_nat (length sealed)) tail) tail in
      if decide (length tail = interval) then (sealed ++ tail, []) else (sealed, tail)
  end.

(** The [j]-th file. *)
Definition from_of (j : nat) : Z := i0 + Z.of_nat (j * interval).
Definition file_of (j : nat) : file := (from_of j, from_of j + Z.of_nat interval - 1).
Definition chunk (j : nat) (log : list log_entry) : list log_entry := take interval (drop (j * interval) log).

(** A crash cuts the last file; the process starts again with the files. *)
Definition restart (c : t) (n : nat) (last_commited logs_to_keep : Z) : option (t * result unit) :=
  let d := match last (existing_changelogs c) with Some f => alter (take n) f (disk c) | None => disk c end in
  readChangelogAndInitWriter vt_size (open_files (rotate_interval c) (existing_changelogs c) d) last_commited logs_to_keep.

(** KeeperLogStore::append gives an entry the next index. *)
Definition changelog_step (c : t) (ev : log_event) : option (t * result unit) :=
  match ev with
  | LAppend e => Some (appendEntry vt_size c (getNextEntryIndex c) e)
  | LCrash n last_commited logs_to_keep => restart c n last_commited logs_to_keep
  end.

Definition read_from (last_commited logs_to_keep : Z) : Z :=
  if last_commited >? logs_to_keep then last_commited - logs_to_keep else 1.

(** Entries fit their widths; a start reads the log from its first entry on. *)
Definition event_ok (s : list log_entry * list log_entry) (ev : log_event) : Prop :=
  i0 + Z.of_nat (length (s.1 ++ s.2)) + 2 * Z.of_nat interval < 2 ^ 64 /\
  match ev with
  | LAppend e => valid_entry e
  | LCrash n last_commited logs_to_keep =>
      read_from last_commited logs_to_keep <= i0 <= last_commited + 1
      /\ ((log_step s ev).1 ++ (log_step s ev).2 = [] -> last_commited = i0)
  end.

Fixpoint run_events (c : t) (s : list log_entry * list log_entry) (evs : list log_event) : option (t * (list log_entry * list log_entry)) :=
  match evs with
  | [] => Some (c, s)
  | ev :: evs =>
      '(c, r) ← changelog_step c ev;
      if is_ok r then run_events c (log_step s ev) evs else None
  end.

Fixpoint events_ok (s : list log_entry * list log_entry) (evs : list log_event) : Prop :=
  match evs with
  | [] => True
  | ev :: evs => event_ok s ev /\ events_ok (log_step s ev) evs
  end.

Record log_holds (c : t) (s : list log_entry * list log_entry) : Prop := {
  l_interval : rotate_interval c = Z.of_nat interval;
  l_valid : Forall valid_entry (s.1 ++ s.2);
  l_tail : (length s.2 <= interval)%nat;
  l_files : exists m cnt, length s.1 = (m * interval)%nat
    /\ existing_changelogs c = map file_of (seq 0 (S m))
    /\ (forall j, (j <= m)%nat -> disk c !! file_of j = Some (bytes_of (from_of j) (chunk j (s.1 ++ s.2))))
    /\ current_writer c = Some (mkWriter (file_of m) cnt (Z.of_nat (length s.2)) (from_of m));
  l_logs : logs c = entries_map i0 (s.1 ++ s.2);
  l_offsets : dom (index_to_start_pos c) = dom (logs c);
  l_start : start_index c = i0
}.

(** ** Files *)

Lemma from_of_lt j k : (j < k)%nat -> from_of j + Z.of_nat interval <= from_of k.
Proof. intros H. unfold from_of. nia. Qed.

Lemma file_of_inj j k : file_of j = file_of k -> j = k.
Proof. intros [= H _]. destruct (Nat.lt_trichotomy j k) as [H1|[->|H1]]; [|done|]; apply from_of_lt in H1; lia. Qed.

Lemma put_file_last f l : Forall (fun g : file => g.1 < f.1) l -> put_file f l = l ++ [f].
Proof.
  induction 1 as [|g l Hg _ IH]; [done|]. cbn [put_file app]. rewrite (proj2 (Z.ltb_ge _ _)), (proj2 (Z.eqb_neq _ _)) by lia. by rewrite IH.
Qed.

Lemma files_below m : Forall (fun g : file => g.1 < from_of (S m)) (map file_of (seq 0 (S m))).
Proof.
  apply Forall_forall. intros g (j & -> & Hj%elem_of_seq)%list_elem_of_fmap. cbn [file_of fst].
  destruct (decide (j = S m)) as [->|]; [lia|]. pose proof (from_of_lt j (S m)). lia.
Qed.

Lemma rotate_files c m :
  existing_changelogs c = map file_of (seq 0 (S m)) -> rotate_interval c = Z.of_nat interval -> from_of (S m) + Z.of_nat interval - 1 < 2 ^ 64 ->
  rotate c (from_of (S m)) = mk (rotate_interval c) (map file_of (seq 0 (S (S m)))) (<[file_of (S m) := []]> (disk c))
    (Some (mkWriter (file_of (S m)) 0 0 (from_of (S m)))) (index_to_start_pos c) (logs c) (start_index c).
Proof.
  intros He Hr Hb. unfold rotate. rewrite Hr, He.
  assert (Hf : (from_of (S m), wrap 64 (from_of (S m) + Z.of_nat interval - 1)) = file_of (S m)).
  { unfold file_of, wrap. rewrite Z.mod_small; [done|]. unfold from_of in *. lia. }
  rewrite Hf, put_file_last by apply files_below. rewrite (seq_S (S m)), map_app. done.
Qed.

Lemma chunk_before j m log log' : (j < m)%nat -> length log = (m * interval)%nat -> chunk j (log ++ log') = chunk j log.
Proof.
  intros Hj Hl. unfold chunk. rewrite drop_app_le by nia. rewrite take_app_le; [done|]. rewrite length_drop. nia.
Qed.

Lemma chunk_last m log tail : length log = (m * interval)%nat -> (length tail <= interval)%nat -> chunk m (log ++ tail) = tail.
Proof. intros Hl Ht. unfold chunk. rewrite drop_app_ge by lia. rewrite Hl, Nat.sub_diag, drop_0. by apply take_ge. Qed.

Lemma entries_snoc log e : <[i0 + Z.of_nat (length log) := e]> (entries_map i0 log) = entries_map i0 (log ++ [e]).
Proof.
  rewrite entries_map_app, <- entries_map_disjoint. cbn [entries_map]. rewrite <- insert_union_l, (left_id_L ∅ (∪)). done.
Qed.

(** ** Appending *)

Lemma append_record_holds (c : t) sealed tail m cnt e offs i :
  rotate_interval c = Z.of_nat interval -> Forall valid_entry (sealed ++ tail) -> valid_entry e -> (length tail < interval)%nat ->
  length sealed = (m * interval)%nat -> existing_changelogs c = map file_of (seq 0 (S m)) ->
  (forall j, (j <= m)%nat -> disk c !! file_of j = Some (bytes_of (from_of j) (chunk j (sealed ++ tail)))) ->
  logs c = entries_map i0 (sealed ++ tail) ->
  i = i0 + Z.of_nat (length (sealed ++ tail)) -> dom offs = dom (<[i := e]> (logs c)) ->
  log_holds (mk (rotate_interval c) (existing_changelogs c)
      (alter (fun data => data ++ record_bytes vt_size (buildRecord i e)) (file_of m) (disk c))
      (Some (mkWriter (file_of m) cnt (Z.of_nat (length (tail ++ [e]))) (from_of m))) offs (<[i := e]> (logs c)) i0) (sealed, tail ++ [e]).
Proof.
  intros Hr HF He Hlt Hs Hex Hd Hl Hi Ho. split; cbn [fst snd rotate_interval existing_changelogs disk current_writer index_to_start_pos logs start_index].
  - done.
  - rewrite app_assoc. apply Forall_app. split; [done|]. by constructor.
  - rewrite length_app. cbn [length]. lia.
  - exists m, cnt. split; [done|]. split; [done|]. split; [|done].
    intros j Hj. destruct (decide (j = m)) as [->|Hne].
    + rewrite lookup_alter_eq, Hd by done. cbn [fmap option_fmap option_map]. rewrite !chunk_last by (rewrite ?length_app; cbn [length]; lia).
      rewrite bytes_of_app. cbn [Changelog.bytes_of]. rewrite app_nil_r. do 4 f_equal. rewrite Hi. unfold from_of. rewrite length_app. lia.
    + rewrite lookup_alter_ne by (intros ?%file_of_inj; lia). rewrite Hd by done. by rewrite !(chunk_before j m) by (done || lia).
  - rewrite Hl, Hi, app_assoc. apply entries_snoc.
  - done.
  - done.
Qed.

Lemma append_holds c s e :
  log_holds c s -> event_ok s (LAppend e) ->
  exists c', appendEntry vt_size c (getNextEntryIndex c) e = (c', Ok tt) /\ log_holds c' (log_step s (LAppend e)).
Proof.
  intros [Hr HF Ht (m & cnt & Hs & Hex & Hd & Hw) Hl Ho Hst] [Hb He]. destruct s as [sealed tail]. cbn [fst snd] in *.
  assert (Hlen : length (sealed ++ tail) = (m * interval + length tail)%nat) by (rewrite length_app; lia).
  assert (Hn : getNextEntryIndex c = i0 + Z.of_nat (length (sealed ++ tail))).
  { unfold getNextEntryIndex. rewrite Hl, Hst, entries_map_size. unfold wrap. apply Z.mod_small. lia. }
  rewrite Hn. remember (i0 + Z.of_nat (length (sealed ++ tail))) as i eqn:Hi0'. unfold appendEntry. rewrite Hw.
  assert (Hst' : (if decide (logs c = ∅) then i else start_index c) = i0).
  { case_decide as H0; [|done]. assert (length (sealed ++ tail) = 0%nat) as Hz by (rewrite <- (entries_map_size i0), <- Hl, H0; apply map_size_empty).
    lia. }
  assert (Hnone : index_to_start_pos c !! i = None).
  { apply not_elem_of_dom. rewrite Ho, Hl, not_elem_of_dom, entries_map_lookup, decide_True by lia. apply lookup_ge_None. lia. }
  cbn [entries_written]. rewrite Hst'. cbn [log_step rotate_interval]. rewrite Hr. destruct (decide (length tail = interval)) as [Hfull|Hfull].
  - rewrite decide_True by lia. assert (Hi : i = from_of (S m)) by (unfold from_of; lia).
    assert (Hrot : forall c0, existing_changelogs c0 = map file_of (seq 0 (S m)) -> rotate_interval c0 = Z.of_nat interval ->
      rotate c0 i = mk (rotate_interval c0) (map file_of (seq 0 (S (S m)))) (<[file_of (S m) := []]> (disk c0))
        (Some (mkWriter (file_of (S m)) 0 0 (from_of (S m)))) (index_to_start_pos c0) (logs c0) (start_index c0)).
    { intros c0 H1 H2. rewrite Hi. apply rotate_files; [done|done|]. rewrite <- Hi. nia. }
    rewrite Hrot by done.
    cbn [current_writer default from_option id rotate_interval existing_changelogs disk index_to_start_pos logs start_index appendRecord w_file w_count entries_written w_start_index].
    rewrite (decide_False (P := is_Some _)) by (rewrite Hnone; by intros [? ?]). eexists. split; [done|].
    change (wrap 64 (0 + 1)) with (Z.of_nat (length ([] ++ [e]))).
    pose proof (append_record_holds (mk (Z.of_nat interval) (map file_of (seq 0 (S (S m)))) (<[file_of (S m) := []]> (disk c)) None ∅ (logs c) i0) (sealed ++ tail) [] (S m)
      (0 + Z.of_nat (length (record_bytes vt_size (buildRecord i e)))) e (<[i := 0]> (index_to_start_pos c)) i) as HA.
    cbn [rotate_interval existing_changelogs disk logs length app] in HA |- *. rewrite app_nil_r in HA.
    apply HA; try done; [lia| |rewrite !dom_insert_L; by rewrite Ho].
    intros j Hj. destruct (decide (j = S m)) as [->|Hne].
    + rewrite lookup_insert_eq. unfold chunk. rewrite drop_ge by lia. rewrite take_nil. done.
    + rewrite lookup_insert_ne by (intros ?%file_of_inj; lia). apply Hd. lia.
  - rewrite decide_False by lia.
    cbn [current_writer default from_option id rotate_interval existing_changelogs disk index_to_start_pos logs start_index appendRecord w_file w_count entries_written w_start_index].
    rewrite (decide_False (P := is_Some _)) by (rewrite Hnone; by intros [? ?]). eexists. split; [done|].
    assert (Hwr : wrap 64 (Z.of_nat (length tail) + 1) = Z.of_nat (length (tail ++ [e]))).
    { rewrite length_app. cbn [length]. unfold wrap. rewrite Z.mod_small; lia. }
    rewrite Hwr, <- Hr. apply append_record_holds; try done; [lia|]. rewrite !dom_insert_L. by rewrite Ho.
Qed.

(** ** Starting again *)

(** What the loop over the files has found after the first [j] files of [log]. *)
Record scanned (log : list log_entry) (j : nat) (s : scan) : Prop := {
  sc_total : total_read s = Z.of_nat (j * interval);
  sc_incomplete : incomplete_log_index s = 0;
  sc_first : scan_first s = if decide (j = 0%nat) then 0 else i0;
  sc_started : started s = negb (bool_decide (j = 0%nat));
  sc_logs : scan_logs s = entries_map i0 (take (j * interval) log);
  sc_offsets : dom (scan_offsets s) = dom (scan_logs s)
}.

Lemma take_chunk j log : take (S j * interval) log = take (j * interval) log ++ chunk j log.
Proof. unfold chunk. rewrite (take_take_drop log (j * interval) interval). f_equal. lia. Qed.

(** Reading the first [n] bytes of the [j]-th file. *)
Lemma read_file_ok j log tail n start s :
  scanned log j s -> length (take (j * interval) log) = (j * interval)%nat -> Forall valid_entry tail -> (length tail <= interval)%nat ->
  from_of j + Z.of_nat interval <= 2 ^ 64 -> start <= i0 ->
  let k := complete n (from_of j) tail in
  exists offs res, readChangelog vt_size (take n (bytes_of (from_of j) tail)) start (scan_logs s) (scan_offsets s)
      = Some (Ok (entries_map i0 (take (j * interval) log ++ take k tail), offs, res))
    /\ dom offs = dom (entries_map i0 (take (j * interval) log ++ take k tail))
    /\ entries_read res = Z.of_nat k
    /\ (if decide (scan_first s = 0) then first_read_index res else scan_first s) = (if decide (j = 0%nat /\ k = 0%nat) then 0 else i0)
    /\ (if error res then take (Z.to_nat (last_position res)) (take n (bytes_of (from_of j) tail)) else take n (bytes_of (from_of j) tail)) = bytes_of (from_of j) (take k tail)
    /\ (if error res then 0 <= last_position res <= Z.of_nat (length (take n (bytes_of (from_of j) tail))) else True).
Proof.
  intros [S1 S2 S3 S4 S5 S6] Hlen HF Ht Hb Hst. cbv zeta. set (k := complete n (from_of j) tail).
  assert (Hfrom : from_of j = i0 + Z.of_nat (length (take (j * interval) log))) by (by rewrite Hlen).
  assert (Hge : i0 <= from_of j) by (unfold from_of; lia).
  destruct (read_loop_prefix vt_size tail (from_of j) n (S (length (take n (bytes_of (from_of j) tail)))) 0 0 start (scan_logs s) (scan_offsets s) (mkResult 0 0 0 false))
    as (offs & res & Hl & Hd & G1 & G2 & G3); [lia|lia|done|lia|by left| |lia|].
  { intros i Hi. rewrite S5, entries_map_lookup. rewrite decide_True by lia. apply lookup_ge_None. lia. }
  fold k in Hl, Hd, G1, G2, G3. cbn [entries_read first_read_index error] in G1, G2, G3.
  assert (Hm : entries_map (from_of j) (take k tail) ∪ scan_logs s = entries_map i0 (take (j * interval) log ++ take k tail)).
  { rewrite S5, entries_map_app, Hfrom. apply entries_map_disjoint. }
  exists offs, res. unfold readChangelog. rewrite Hl, Hm. split; [done|]. split; [rewrite Hd, S6, <- dom_union_L; by rewrite Hm|]. split; [lia|].
  destruct (complete_bytes vt_size n (from_of j) tail) as [B1 B2]. fold k in B1, B2. split; [|split].
  - rewrite G2, S3. destruct (decide (j = 0%nat)) as [->|Hj].
    + rewrite decide_True by done. replace (from_of 0) with i0 by (unfold from_of; lia). repeat case_decide; tauto.
    + rewrite decide_False by lia. by rewrite decide_False by tauto.
  - case_bool_decide as Hc.
    + rewrite G3. etrans; [|exact B1]. by rewrite (take_ge (take n (bytes_of (from_of j) tail))) by lia.
    + destruct G3 as [-> ->]. etrans; [|exact B1]. f_equal. lia.
  - case_bool_decide as Hc; [by rewrite G3|]. destruct G3 as [-> ->]. lia.
Qed.

Lemma file_size j : from_of j + Z.of_nat interval < 2 ^ 64 -> wrap 64 ((file_of j).2 - (file_of j).1 + 1) = Z.of_nat interval.
Proof. intros H. cbn [file_of fst snd]. unfold wrap, from_of in *. rewrite Z.mod_small; lia. Qed.

Lemma not_lost j last s log :
  scanned log j s -> i0 <= last + 1 -> negb (started s) && ((file_of j).1 >? last) && ((file_of j).1 - last >? 1) = false.
Proof.
  intros [_ _ _ S4 _ _] Hl. rewrite S4. destruct (decide (j = 0%nat)) as [->|Hj].
  - rewrite bool_decide_eq_true_2 by done. cbn [negb file_of fst andb]. unfold from_of. destruct (_ >? last); [|done]. cbn [andb]. rewrite Z.gtb_ltb. apply Z.ltb_ge. lia.
  - by rewrite bool_decide_eq_false_2.
Qed.

(** The full files are read to their end. *)
Lemma scan_sealed c last start log m d j s :
  (j + d = m)%nat -> scanned log j s -> (m * interval <= length log)%nat -> Forall valid_entry log -> start <= i0 <= last + 1 ->
  from_of m + Z.of_nat interval < 2 ^ 64 ->
  (forall j', (j' < m)%nat -> contents c (file_of j') = bytes_of (from_of j') (chunk j' log)) ->
  exists s', scan_files vt_size c last start (map file_of (seq j (S d))) s = scan_files vt_size c last start [file_of m] s' /\ scanned log m s'.
Proof.
  revert j s. induction d as [|d IH]; intros j s Hj Hs Hlen HF Hst Hb Hc.
  { exists s. replace j with m in * by lia. done. }
  change (seq j (S (S d))) with (j :: seq (S j) (S d)). cbn [map]. remember (map file_of (seq (S j) (S d))) as rest eqn:Hrest. cbn [scan_files].
  assert (Hbj : from_of j + Z.of_nat interval < 2 ^ 64) by (pose proof (from_of_lt j m); lia).
  assert (Hch : length (chunk j log) = interval) by (unfold chunk; rewrite length_take, length_drop; nia).
  rewrite (proj2 (Z.geb_le _ _)) by (cbn [file_of snd]; unfold from_of; lia).
  rewrite (not_lost j last s log Hs) by lia. rewrite Hc by lia.
  destruct (read_file_ok j log (chunk j log) (length (bytes_of (from_of j) (chunk j log))) start s) as (offs & res & Hr & Hd & He & Hf & _);
    [done|rewrite length_take; nia|by apply Forall_take, Forall_drop|lia|lia|lia|].
  rewrite complete_all, !firstn_all in Hr. rewrite complete_all, firstn_all in Hd. rewrite complete_all in He. rewrite complete_all in Hf.
  rewrite Hr. cbn [mbind option_bind]. rewrite He, file_size, Hch by lia. rewrite Z.ltb_irrefl. subst rest. apply IH; [lia| |done|done|done|done|done].
  destruct Hs as [S1 S2 S3 S4 S5 S6]. split; cbn [total_read incomplete_log_index scan_first started scan_logs scan_offsets].
  - lia.
  - done.
  - rewrite Hf, (decide_False (P := S j = 0%nat)) by lia. rewrite decide_False by lia. done.
  - by rewrite bool_decide_eq_false_2.
  - by rewrite take_chunk.
  - exact Hd.
Qed.

(** The last file is read up to the last complete record. *)
Lemma scan_last c last start sealed tail m n s :
  length sealed = (m * interval)%nat -> (length tail <= interval)%nat -> Forall valid_entry (sealed ++ tail) ->
  scanned (sealed ++ tail) m s -> start <= i0 <= last + 1 -> from_of m + Z.of_nat interval < 2 ^ 64 ->
  contents c (file_of m) = take n (bytes_of (from_of m) tail) ->
  let k := complete n (from_of m) tail in
  exists offs res, scan_files vt_size c last start [file_of m] s
      = Some (Ok (mkScan (Z.of_nat (m * interval + k)) (if decide (k = interval) then 0 else from_of m) res (if decide (m = 0%nat /\ k = 0%nat) then 0 else i0) true
          (entries_map i0 (sealed ++ take k tail)) offs))
    /\ dom offs = dom (entries_map i0 (sealed ++ take k tail))
    /\ entries_read res = Z.of_nat k
    /\ (if error res then truncate_to (Z.to_nat (last_position res)) (take n (bytes_of (from_of m) tail)) else take n (bytes_of (from_of m) tail))
        = bytes_of (from_of m) (take k tail).
Proof.
  intros Hs Ht HF Hsc Hst Hb Hc. cbv zeta. remember (complete n (from_of m) tail) as k eqn:Hk.
  assert (Hsl : take (m * interval) (sealed ++ tail) = sealed) by (rewrite <- Hs; apply take_app_length).
  pose proof (complete_le vt_size n (from_of m) tail) as Hkl. rewrite <- Hk in Hkl.
  destruct (read_file_ok m (sealed ++ tail) tail n start s) as (offs & res & Hr & Hd & He & Hf & Hcut & Hpos);
    [done|by rewrite Hsl|by apply Forall_app in HF as [_ HF]|done|lia|lia|].
  rewrite <- Hk in Hr, Hd, He, Hf, Hcut. rewrite Hsl in Hr, Hd. exists offs, res. cbn [scan_files].
  rewrite (proj2 (Z.geb_le _ _)) by (cbn [file_of snd]; unfold from_of; lia). rewrite (not_lost m last s _ Hsc) by lia. rewrite Hc, Hr. cbn [mbind option_bind].
  rewrite He, file_size, Hf by lia. destruct Hsc as [S1 S2 _ _ _ _]. rewrite S1, S2.
  replace (Z.of_nat (m * interval) + Z.of_nat k) with (Z.of_nat (m * interval + k)) by lia.
  split; [|split; [done|split; [done|]]].
  - destruct (decide (k = interval)) as [->|Hne]; [by rewrite Z.ltb_irrefl|]. rewrite (proj2 (Z.ltb_lt _ _)) by lia. done.
  - destruct (error res); [|done]. unfold truncate_to. rewrite Hcut. replace (_ - _)%nat with 0%nat by lia. apply app_nil_r.
Qed.

Lemma all_kept m : filter (fun f : file => f.1 <= from_of m) (map file_of (seq 0 (S m))) = map file_of (seq 0 (S m))
  /\ filter (fun f : file => from_of m < f.1) (map file_of (seq 0 (S m))) = [].
Proof.
  assert (H : Forall (fun f : file => f.1 <= from_of m) (map file_of (seq 0 (S m)))).
  { apply Forall_forall. intros g (j & -> & Hj%elem_of_seq)%list_elem_of_fmap. cbn [file_of fst]. unfold from_of. nia. }
  induction H as [|f l Hf _ [IH1 IH2]]; [done|]. rewrite filter_cons_True, IH1 by done. rewrite filter_cons_False by lia. done.
Qed.

Lemma last_file m : last (map file_of (seq 0 (S m))) = Some (file_of m).
Proof. rewrite seq_S, map_app. apply last_snoc. Qed.

Lemma alter_chunk (d : gmap file str) sealed tail tail' m g :
  length sealed = (m * interval)%nat -> (length tail <= interval)%nat -> (length tail' <= interval)%nat ->
  (forall j, (j <= m)%nat -> d !! file_of j = Some (bytes_of (from_of j) (chunk j (sealed ++ tail)))) ->
  g (bytes_of (from_of m) tail) = bytes_of (from_of m) tail' ->
  forall j, (j <= m)%nat -> alter g (file_of m) d !! file_of j = Some (bytes_of (from_of j) (chunk j (sealed ++ tail'))).
Proof.
  intros Hs Ht Ht' Hd Hg j Hj. destruct (decide (j = m)) as [->|Hne].
  - rewrite lookup_alter_eq, Hd by done. cbn [fmap option_fmap option_map]. by rewrite !chunk_last, Hg by done.
  - rewrite lookup_alter_ne by (intros ?%file_of_inj; lia). rewrite Hd by done. by rewrite !(chunk_before j m) by (done || lia).
Qed.

Lemma complete_uncut n i es : complete n i es = length es -> take n (bytes_of i es) = bytes_of i es.
Proof.
  intros H. destruct (complete_bytes vt_size n i es) as [_ B]. rewrite H, firstn_all, length_take in B. apply take_ge. lia.
Qed.

(** Reading all the files after the crash. *)
Lemma scan_cut d last_commited start sealed tail m n :
  length sealed = (m * interval)%nat -> (length tail <= interval)%nat -> Forall valid_entry (sealed ++ tail) ->
  start <= i0 <= last_commited + 1 -> from_of m + Z.of_nat interval < 2 ^ 64 ->
  (forall j, (j <= m)%nat -> d !! file_of j = Some (bytes_of (from_of j) (chunk j (sealed ++ tail)))) ->
  let k := complete n (from_of m) tail in
  exists offs res, scan_files vt_size (open_files (Z.of_nat interval) (map file_of (seq 0 (S m))) (alter (take n) (file_of m) d)) last_commited start
        (map file_of (seq 0 (S m))) (mkScan 0 0 (mkResult 0 0 0 false) 0 false ∅ ∅)
      = Some (Ok (mkScan (Z.of_nat (m * interval + k)) (if decide (k = interval) then 0 else from_of m) res (if decide (m = 0%nat /\ k = 0%nat) then 0 else i0) true
          (entries_map i0 (sealed ++ take k tail)) offs))
    /\ dom offs = dom (entries_map i0 (sealed ++ take k tail)) /\ entries_read res = Z.of_nat k
    /\ (if error res then truncate_to (Z.to_nat (last_position res)) (take n (bytes_of (from_of m) tail)) else take n (bytes_of (from_of m) tail))
        = bytes_of (from_of m) (take k tail).
Proof.
  intros Hs Ht HF Hread Hbm Hd. cbv zeta. remember (alter (take n) (file_of m) d) as d' eqn:Hd'.
  remember (open_files (Z.of_nat interval) (map file_of (seq 0 (S m))) d') as c0 eqn:Hc0.
  assert (Hc : forall j, (j < m)%nat -> contents c0 (file_of j) = bytes_of (from_of j) (chunk j (sealed ++ tail))).
  { intros j Hj. unfold contents. rewrite Hc0. cbn [open_files disk]. rewrite Hd', lookup_alter_ne, Hd by (lia || intros ?%file_of_inj; lia). done. }
  assert (Hcm : contents c0 (file_of m) = take n (bytes_of (from_of m) tail)).
  { unfold contents. rewrite Hc0. cbn [open_files disk]. rewrite Hd', lookup_alter_eq, Hd by done. by rewrite chunk_last. }
  destruct (scan_sealed c0 last_commited start (sealed ++ tail) m m 0 (mkScan 0 0 (mkResult 0 0 0 false) 0 false ∅ ∅))
    as (s' & Hscan & Hsc); [done|by split|rewrite length_app; lia|done|done|done|done|].
  rewrite Hscan. by apply (scan_last c0 last_commited start sealed tail m n s').
Qed.

Lemma restart_holds c s n last_commited logs_to_keep :
  log_holds c s -> event_ok s (LCrash n last_commited logs_to_keep) ->
  exists c', restart c n last_commited logs_to_keep = Some (c', Ok tt) /\ log_holds c' (log_step s (LCrash n last_commited logs_to_keep)).
Proof.
  intros [Hr HF Ht (m & cnt & Hs & Hex & Hd & Hw) Hl Ho Hst] [Hb [Hread Hempty]]. destruct s as [sealed tail]. cbn [fst snd log_step] in *.
  rewrite length_app in Hb. assert (Hfm : i0 + Z.of_nat (length sealed) = from_of m) by (unfold from_of; lia). rewrite Hfm in *.
  destruct (scan_cut (disk c) last_commited (read_from last_commited logs_to_keep) sealed tail m n) as (offs & res & Hscan & Hdom & Hn & Hcut); try done; [lia|].
  unfold restart. rewrite Hex, last_file, Hr. unfold readChangelogAndInitWriter.
  change (if last_commited >? logs_to_keep then last_commited - logs_to_keep else 1) with (read_from last_commited logs_to_keep).
  cbn [open_files existing_changelogs logs index_to_start_pos] in Hscan |- *. rewrite Hscan. clear Hscan. cbn [mbind option_bind].
  remember (complete n (from_of m) tail) as k eqn:Hk. pose proof (complete_le vt_size n (from_of m) tail) as Hkl. rewrite <- Hk in Hkl.
  assert (Hlk : length (take k tail) = k) by (rewrite length_take; lia). rewrite Hlk in *.
  cbn [scan_first incomplete_log_index scan_logs scan_offsets started total_read scan_result rotate_interval existing_changelogs disk current_writer index_to_start_pos logs start_index].
  assert (Hstart : (if decide ((if decide (m = 0%nat /\ k = 0%nat) then 0 else i0) <> 0) then (if decide (m = 0%nat /\ k = 0%nat) then 0 else i0) else last_commited) = i0).
  { destruct (decide (m = 0%nat /\ k = 0%nat)) as [[-> ->]|]; [|by rewrite decide_True by lia]. rewrite decide_False by lia. apply Hempty.
    rewrite decide_False by lia. destruct sealed; [done|cbn [length] in Hs; lia]. }
  rewrite Hstart. clear Hstart Hempty. assert (HF' : Forall valid_entry (sealed ++ take k tail)).
  { apply Forall_app in HF as [? ?]. apply Forall_app. split; [done|]. by apply Forall_take. }
  destruct (decide (k = interval)) as [Hki|Hki].
  - rewrite !(decide_False (P := 0 <> 0)) by lia. cbn [current_writer]. rewrite decide_True by done.
    assert (Hsm : wrap 64 (i0 + Z.of_nat (m * interval + k)) = from_of (S m)) by (unfold wrap, from_of in *; rewrite Z.mod_small; lia).
    rewrite Hsm, (rotate_files _ m); [|done|done|unfold from_of in *; lia]. eexists. split; [done|].
    rewrite (take_ge tail) in * by lia. split; cbn [rotate_interval existing_changelogs disk current_writer index_to_start_pos logs start_index fst snd]; rewrite ?app_nil_r; try done.
    + cbn. lia.
    + exists (S m), 0. rewrite length_app. split; [lia|]. split; [done|]. split; [|done]. intros j Hj. destruct (decide (j = S m)) as [->|Hne].
      * rewrite lookup_insert_eq. unfold chunk. rewrite drop_ge by (rewrite length_app; lia). by rewrite take_nil.
      * rewrite lookup_insert_ne by (intros ?%file_of_inj; lia). apply (alter_chunk _ sealed tail tail m); try done; [|lia]. apply complete_uncut. lia.
  - rewrite !(decide_True (P := from_of m <> 0)) by (unfold from_of; lia). destruct (all_kept m) as [-> ->]. cbn [remove_files foldl]. rewrite last_file.
    destruct (error res); unfold truncateToLength, open_files; cbn [rotate_interval existing_changelogs disk current_writer index_to_start_pos logs start_index w_file];
      rewrite decide_False by done; (eexists; split; [done|]);
      (split; cbn [rotate_interval existing_changelogs disk current_writer index_to_start_pos logs start_index fst snd]; [done|done|lia| |done|done|done]);
      exists m, 0; (split; [done|]); (split; [done|]); (split; [|by rewrite Hn, Hlk]); intros j Hj; rewrite ?alter_alter_eq;
      (apply (alter_chunk (disk c) sealed tail (take k tail) m); [done|done|lia|done|done|done]).
Qed.

(** ** Runs *)

Lemma step_holds c s ev :
  log_holds c s -> event_ok s ev -> exists c', changelog_step c ev = Some (c', Ok tt) /\ log_holds c' (log_step s ev).
Proof.
  intros Hc Hev. destruct ev as [e|n last_commited logs_to_keep]; [|by apply restart_holds].
  destruct (append_holds c s e Hc Hev) as (c' & E & Hc'). exists c'. cbn [changelog_step]. by rewrite E.
Qed.

(** The first start: no files, and the state machine at [i0]. *)
Definition start_log : option (t * result unit) := readChangelogAndInitWriter vt_size (open_files (Z.of_nat interval) [] ∅) i0 0.

Lemma start_holds : i0 + Z.of_nat interval < 2 ^ 64 -> exists c, start_log = Some (c, Ok tt) /\ log_holds c ([], []).
Proof.
  intros Hb. unfold start_log, readChangelogAndInitWriter, open_files. cbn. rewrite !(decide_False (P := 0 <> 0)) by lia. cbn [current_writer].
  rewrite decide_True by done. rewrite Z.add_0_r. assert (Hw : wrap 64 i0 = i0) by (unfold wrap; apply Z.mod_small; lia). rewrite Hw.
  assert (Hf : (i0, wrap 64 (i0 + Z.of_nat interval - 1)) = file_of 0).
  { unfold file_of, from_of, wrap. cbn [Nat.mul]. rewrite Z.add_0_r, Z.mod_small by lia. done. }
  assert (Hfrom : from_of 0 = i0) by (unfold from_of; lia).
  eexists. split; [done|]. unfold rotate. cbn [rotate_interval existing_changelogs disk index_to_start_pos logs start_index]. rewrite Hf.
  split; cbn [rotate_interval existing_changelogs disk current_writer index_to_start_pos logs start_index fst snd app]; try done.
  - cbn. lia.
  - exists 0%nat, 0. split; [done|]. split; [done|]. split; [|by rewrite Hfrom].
    intros j Hj. assert (j = 0%nat) as -> by lia. rewrite lookup_insert_eq. unfold chunk. by rewrite drop_nil, take_nil.
Qed.

Lemma events_hold evs c s :
  log_holds c s -> events_ok s evs ->
  exists c', run_events c s evs = Some (c', foldl log_step s evs) /\ log_holds c' (foldl log_step s evs).
Proof.
  revert c s. induction evs as [|ev evs IH]; intros c s Hc Hevs; cbn [run_events foldl]; [by exists c|]. destruct Hevs as [Hev Hevs].
  destruct (step_holds c s ev Hc Hev) as (c' & -> & Hc'). cbn [mbind option_bind is_ok]. by apply IH.
Qed.

(** C8: Durability of a coordination log that is only appended to.  Start with no files, append any
    entries, and crash any number of times, each crash cutting the last file at any byte, each start being one that
    reads the log from its first entry on (no more than the reserved entries are committed, and the log is not compacted):
    every start succeeds, and the log then holds, from the first index on, exactly
    the entries of the full files followed by the entries of the last file whose
    records the cut left complete; the next index follows them. *)
Theorem changelog_survives evs :
  i0 + Z.of_nat interval < 2 ^ 64 -> events_ok ([], []) evs ->
  exists c0 c, start_log = Some (c0, Ok tt)
    /\ let '(sealed, tail) := foldl log_step ([], []) evs in
       run_events c0 ([], []) evs = Some (c, (sealed, tail))
       /\ logs c = entries_map i0 (sealed ++ tail)
       /\ (i0 + Z.of_nat (length (sealed ++ tail)) < 2 ^ 64 -> getNextEntryIndex c = i0 + Z.of_nat (length (sealed ++ tail))).
Proof.
  intros Hb Hevs. destruct (start_holds Hb) as (c0 & E & Hc0). destruct (events_hold evs c0 _ Hc0 Hevs) as (c & Hr & Hc).
  exists c0, c. split; [done|]. destruct (foldl log_step ([], []) evs) as [sealed tail]. split; [done|]. destruct Hc as [_ _ _ _ Hl _ Hst]. cbn [fst snd] in Hl.
  split; [done|]. intros Hlen. unfold getNextEntryIndex. rewrite Hl, Hst, entries_map_size. unfold wrap. apply Z.mod_small. lia.
Qed.

#[export] Instance event_ok_dec s ev : Decision (event_ok s ev).
Proof. unfold event_ok. destruct ev; apply _. Defined.

#[export] Instance events_ok_dec s evs : Decision (events_ok s evs).
Proof. revert s. induction evs as [|ev evs IH]; intros s; cbn [events_ok]; [apply _|]. specialize (IH (log_step s ev)). apply _. Defined.
End life.
End changelog.

Definition put (n : Z) : log_entry := mkEntry 1 1 (le_bytes 2 n).

Lemma changelog_survives_witness :
  let evs := [LAppend (put 1); LAppend (put 2); LAppend (put 3); LAppend (put 4); LCrash 60 3 10; LAppend (put 5)] in
  foldl (log_step 4 2 1) ([], []) evs = ([put 1; put 2], [put 3; put 5])
  /\ exists c0 c, start_log 4 2 1 = Some (c0, Ok tt)
    /\ run_events 4 2 1 c0 ([], []) evs = Some (c, ([put 1; put 2], [put 3; put 5]))
    /\ logs c = entries_map 1 [put 1; put 2; put 3; put 5].
Proof.
  cbv zeta.
  assert (Hf : foldl (log_step 4 2 1) ([], []) [LAppend (put 1); LAppend (put 2); LAppend (put 3); LAppend (put 4); LCrash 60 3 10; LAppend (put 5)]
    = ([put 1; put 2], [put 3; put 5])) by (vm_compute; reflexivity).
  split; [exact Hf|].
  assert (Hok : events_ok 4 2 1 ([], []) [LAppend (put 1); LAppend (put 2); LAppend (put 3); LAppend (put 4); LCrash 60 3 10; LAppend (put 5)])
    by (apply (bool_decide_unpack _); vm_compute; exact I).
  destruct (changelog_survives 4 2 1 ltac:(lia) ltac:(lia) _ ltac:(cbn; lia) Hok) as (c0 & c & H0 & H1). rewrite Hf in H1. destruct H1 as (H1 & H2 & _).
  by exists c0, c.
Defined.

(** ** Overwriting *)

(** NuRaft overwrites from an index on when a follower's entries disagree with the leader's. *)
Inductive log_call : Type :=
| CAppend (n : Z)
| CWriteAt (i n : Z)
| CCompact (up_to : Z)
| CRestart (last_commited logs_to_keep : Z).

Definition call (c : t) (o : log_call) : option (t * result unit) :=
  match o with
  | CAppend n => Some (appendEntry 4 c (getNextEntryIndex c) (put n))
  | CWriteAt i n => writeAt 4 c i (put n)
  | CCompact up_to => Some (compact c up_to, Ok tt)
  | CRestart last_commited logs_to_keep =>
      readChangelogAndInitWriter 4 (open_files (rotate_interval c) (existing_changelogs c) (disk c)) last_commited logs_to_keep
  end.

Fixpoint calls (c : t) (os : list log_call) : option t :=
  match os with
  | [] => Some c
  | o :: os => '(c, r) ← call c o; if is_ok r then calls c os else None
  end.

(** The entries from index 1 on after the calls, starting with no files. *)
Definition entries_after (interval last_commited : Z) (os : list log_call) : option (list (option Z)) :=
  '(c, _) ← readChangelogAndInitWriter 4 (open_files interval [] ∅) last_commited 0;
  c ← calls c os;
  Some (map (fun i => e ← entryAt c i; Some (le_value (buf e))) [1; 2; 3; 4; 5; 6; 7; 8; 9; 10; 11; 12]).

(** Overwriting after a start loses entries that were durable.  The position a record
    gets is the number of bytes written since the file was opened, not its
    position in the file: after a start with the entries 1, 2, 3, two appends and an
    overwrite of entry 5, memory holds 1, 2, 3, 4 and the new entry 5, but the file was
    truncated into its second record, and the next start finds entry 1 alone. *)
Lemma overwrite_after_restart_loses :
  let before := [CAppend 1; CAppend 2; CAppend 3; CRestart 3 100; CAppend 4; CAppend 5; CWriteAt 5 50] in
  take 6 <$> entries_after 100 1 before = Some [Some 1; Some 2; Some 3; Some 4; Some 50; None]
  /\ take 6 <$> entries_after 100 1 (before ++ [CRestart 4 100]) = Some [Some 1; None; None; None; None; None].
Proof. vm_compute. split; reflexivity. Qed.

(** A second overwrite is not durable: truncating to the position of the first one
    extends the file with zeros, and the next start finds the first overwrite. *)
Lemma second_overwrite_lost :
  let before := [CAppend 1; CAppend 2; CAppend 3; CWriteAt 3 30; CWriteAt 3 31; CAppend 4] in
  take 4 <$> entries_after 100 1 before = Some [Some 1; Some 2; Some 31; Some 4]
  /\ take 4 <$> entries_after 100 1 (before ++ [CRestart 4 100]) = Some [Some 1; Some 2; Some 30; None].
Proof. vm_compute. split; reflexivity. Qed.

Definition appends (n : nat) : list log_call := map (fun i => CAppend (Z.of_nat i)) (seq 1 n).

(** A start that skips old entries still counts them: the new file is named after the index
    13 when the next one is 11, and overwriting entry 11 truncates the file before it. *)
Lemma skipped_entries_counted :
  let before := appends 10 ++ [CRestart 10 7; CAppend 11; CAppend 12; CWriteAt 11 111] in
  entries_after 5 1 (before ++ [CRestart 11 100])
  = Some [Some 1; Some 2; Some 3; Some 4; Some 5; None; None; None; None; None; Some 111; None].
Proof. vm_compute. reflexivity. Qed.

(** Overwriting into a file before the last one counts the entries of the later files as
    this file's: it is filled beyond its last index, and compaction up to
    that index removes entries above it. *)
Lemma compaction_after_overwrite_loses :
  let before := appends 6 ++ [CWriteAt 4 40; CAppend 5; CAppend 6; CAppend 7; CCompact 5] in
  take 7 <$> entries_after 5 1 before = Some [None; None; None; None; None; Some 6; Some 7]
  /\ take 7 <$> entries_after 5 1 (before ++ [CRestart 6 100]) = Some [None; None; None; None; None; None; Some 7].
Proof. vm_compute. split; reflexivity. Qed.
