(* ===== verification/KeeperSnapshotFiles.v ===== *)
(** * KeeperSnapshotFiles: the snapshots on disk

    Models the class KeeperSnapshotManager of
    src/src/Coordination/KeeperSnapshotManager.{h,cpp}: the names of the files, which snapshots
    exist, writing one through a temporary file, and keeping the newest.  The directory is a
    map from file names to contents; the order in which it is walked is an argument.
    Going through a missing element is [None].

    Snapshots survive crashes at any point of their writing. *)

From S2P Require Import Prelude TextFormat CommittedSN WalRecord Wire ZooKeeper SessionQueue KeeperStorage.

Local Open Scope Z_scope.

Module Manager.

(** ** Names *)

Definition underscore : ascii := "_"%char.
Definition dot : ascii := "."%char.

(** [splitInto<'_'>]: an empty part at the end is not there. *)
Fixpoint split_loop (cur : str) (s : str) : list str :=
  match s with
  | [] => if decide (cur = []) then [] else [cur]
  | c :: s => if decide (c = underscore) then cur :: split_loop [] s else split_loop (cur ++ [c]) s
  end.
Definition split_name (s : str) : list str := split_loop [] s.

(** [path::stem] of a file name. *)
Definition stem (name : str) : str :=
  match Storage.rfind dot name with
  | Some (S pos) => take (S pos) name
  | _ => name
  end.

(** [readIntTextImpl<UInt64>]: a text without digits is zero. *)
Fixpoint read_uint_loop (buf : str) (res : Z) : result (Z * str) :=
  match buf with
  | [] => Ok (res, [])
  | c :: rest =>
      if decide (c = "+"%char) then read_uint_loop rest res
      else if decide (c = ch_minus) then Throw (DBException ErrorCodes.CANNOT_PARSE_NUMBER)
      else if is_digit c then read_uint_loop rest (wrap 64 (wrap 64 (res * 10) + (code c - 48)))
      else Ok (res, buf)
  end.

Definition parse_uint64 (s : str) : result Z :=
  match s with
  | [] => Throw (DBException ErrorCodes.ATTEMPT_TO_READ_AFTER_EOF)
  | _ => match read_uint_loop s 0 with Ok (z, _) => Ok z | Throw e => Throw e end
  end.

Definition getSnapshotPathUpToLogIdx (name : str) : option (result Z) :=
  part ← split_name (stem name) !! 1%nat; Some (parse_uint64 part).

Definition getSnapshotFileName (up_to_log_idx : Z) : str := lit "snapshot_" ++ writeIntText up_to_log_idx ++ lit ".bin".

Definition tmp_name (name : str) : str := lit "tmp_" ++ name.

(** [path / name] *)
Definition join_path (path name : str) : str :=
  if decide (path = []) then name
  else if decide (last path = Some Storage.slash) then path ++ name
  else path ++ [Storage.slash] ++ name.

Definition startsWith (s prefix : str) : bool := bool_decide (take (length prefix) s = prefix).

(** ** The manager *)

Abbreviation directory := (gmap str str).

Record t : Type := mk {
  snapshots_path : str;
  snapshots_to_keep : Z;
  existing_snapshots : gmap Z str;
  storage_tick_time : Z;
  dir : directory
}.

Definition with_files (m : t) (existing : gmap Z str) (d : directory) : t :=
  mk (snapshots_path m) (snapshots_to_keep m) existing (storage_tick_time m) d.

(** The first and the last index. *)
Definition indices (m : t) : list Z := merge_sort Z.le (elements (dom (existing_snapshots m))).
Definition first_index (m : t) : option Z := head (indices m).
Definition last_index (m : t) : option Z := last (indices m).

Definition totalSnapshots (m : t) : nat := size (existing_snapshots m).
Definition getLatestSnapshotIndex (m : t) : Z := default 0 (last_index m).

Definition removeSnapshot (m : t) (log_idx : Z) : result t :=
  match existing_snapshots m !! log_idx with
  | None => Throw (DBException ErrorCodes.UNKNOWN_SNAPSHOT)
  | Some name => Ok (with_files m (delete log_idx (existing_snapshots m)) (delete name (dir m)))
  end.

(** The loop removes at most all snapshots; [begin()] is there as long as one exists. *)
Fixpoint remove_outdated (fuel : nat) (m : t) : option (result t) :=
  if Z.of_nat (totalSnapshots m) >? snapshots_to_keep m
  then
    match fuel with
    | O => None
    | S fuel =>
        first ← first_index m;
        match removeSnapshot m first with
        | Ok m => remove_outdated fuel m
        | Throw e => Some (Throw e)
        end
    end
  else Some (Ok m).

Definition removeOutdatedSnapshotsIfNeeded (m : t) : option (result t) := remove_outdated (totalSnapshots m) m.

(** The loop of the constructor. *)
Fixpoint scan_directory (m : t) (names : list str) : option (result t) :=
  match names with
  | [] => Some (Ok m)
  | name :: names =>
      if startsWith (join_path (snapshots_path m) name) (lit "tmp_")
      then scan_directory (with_files m (existing_snapshots m) (delete name (dir m))) names
      else
        idx ← getSnapshotPathUpToLogIdx name;
        match idx with
        | Throw e => Some (Throw e)
        | Ok idx => scan_directory (with_files m (<[idx := name]> (existing_snapshots m)) (dir m)) names
        end
  end.

Definition create (path : str) (to_keep tick : Z) (d : directory) (names : list str) : option (result t) :=
  r ← scan_directory (mk path to_keep ∅ tick d) names;
  match r with
  | Throw e => Some (Throw e)
  | Ok m => removeOutdatedSnapshotsIfNeeded m
  end.

(** ** Writing and reading a snapshot *)

Inductive file_op : Type :=
| FWrite (name data : str)
| FRename (from to : str)
| FRemove (name : str).

Definition run_file_op (d : directory) (o : file_op) : directory :=
  match o with
  | FWrite name data => <[name := data]> d
  | FRename from to => match d !! from with Some data => <[to := data]> (delete from d) | None => d end
  | FRemove name => delete name d
  end.

Definition write_ops (buffer : str) (up_to_log_idx : Z) : list file_op :=
  let name := getSnapshotFileName up_to_log_idx in
  [FWrite (tmp_name name) buffer; FRename (tmp_name name) name].

(** The file written and renamed, and [emplace]. *)
Definition add_snapshot (m : t) (buffer : str) (up_to_log_idx : Z) : t :=
  let existing := if decide (is_Some (existing_snapshots m !! up_to_log_idx)) then existing_snapshots m
                  else <[up_to_log_idx := getSnapshotFileName up_to_log_idx]> (existing_snapshots m) in
  with_files m existing (foldl run_file_op (dir m) (write_ops buffer up_to_log_idx)).

Definition serializeSnapshotBufferToDisk (m : t) (buffer : str) (up_to_log_idx : Z) : option (result t) :=
  removeOutdatedSnapshotsIfNeeded (add_snapshot m buffer up_to_log_idx).

(** [at] throws [std::out_of_range]; a missing file cannot be opened. *)
Definition deserializeSnapshotBufferFromDisk (m : t) (up_to_log_idx : Z) : result str :=
  match existing_snapshots m !! up_to_log_idx with
  | None => Throw StdOutOfRange
  | Some name =>
      match dir m !! name with
      | Some data => Ok data
      | None => Throw (DBException ErrorCodes.FILE_DOESNT_EXIST)
      end
  end.

Fixpoint latest_loop (fuel : nat) (m : t) : option (t * option str) :=
  match last_index m with
  | None => Some (m, None)
  | Some idx =>
      match deserializeSnapshotBufferFromDisk m idx with
      | Ok buffer => Some (m, Some buffer)
      | Throw _ =>
          match fuel, existing_snapshots m !! idx with
          | S fuel, Some name => latest_loop fuel (with_files m (delete idx (existing_snapshots m)) (delete name (dir m)))
          | _, _ => None
          end
      end
  end.

Definition deserializeLatestSnapshotBufferFromDisk (m : t) : option (t * option str) := latest_loop (totalSnapshots m) m.

End Manager.
Import Manager.

(** ** Names and indices *)

Lemma read_uint_int ds acc :
  Forall (fun c => is_digit c = true) ds -> read_uint_loop ds acc = Ok ((read_int_loop ds acc false).1.1, []).
Proof.
  intros Hds. revert acc. induction Hds as [|c ds Hc _ IH]; intros acc; [done|]. destruct (digit_not_sign c Hc) as [Hp Hm].
  cbn [read_uint_loop read_int_loop]. rewrite !decide_False, Hc by done. apply IH.
Qed.

Lemma parse_writeIntText i : 0 <= i < 2 ^ 64 -> parse_uint64 (writeIntText i) = Ok i.
Proof.
  intros Hi. pose proof (dec_digits_digits (S (Z.to_nat (Z.log2 i))) i ltac:(lia)) as Hds.
  pose proof (dec_digits_value _ _ (dec_fuel_enough i ltac:(lia))) as Hv. unfold digits_value in Hv.
  pose proof (writeIntText_nonempty i) as Hne. unfold parse_uint64. destruct (writeIntText i) as [|c s] eqn:E; [done|]. rewrite <- E.
  unfold writeIntText. rewrite (proj2 (Z.ltb_ge _ _)) by lia. rewrite read_uint_int, read_int_loop_digits by (done || lia). cbn [fst]. by rewrite Hv.
Qed.

Lemma split_loop_no cur s : underscore ∉ s -> split_loop cur s = if decide (cur ++ s = []) then [] else [cur ++ s].
Proof.
  revert cur. induction s as [|c s IH]; intros cur Hs; cbn [split_loop]; [by rewrite app_nil_r|].
  rewrite decide_False by set_solver. rewrite IH by set_solver. by rewrite <- app_assoc.
Qed.

Lemma split_loop_app cur a s : underscore ∉ a -> split_loop cur (a ++ underscore :: s) = (cur ++ a) :: split_loop [] s.
Proof.
  revert cur. induction a as [|c a IH]; intros cur Ha; cbn [split_loop app].
  - by rewrite decide_True, app_nil_r.
  - rewrite decide_False by set_solver. rewrite IH by set_solver. by rewrite <- app_assoc.
Qed.

Lemma stem_bin a : a <> [] -> stem (a ++ lit ".bin") = a.
Proof.
  intros Ha. unfold stem. assert (Hr : Storage.rfind dot (a ++ lit ".bin") = Some (length a)).
  { clear Ha. induction a as [|c a IH]; [done|]. cbn [Storage.rfind app length]. by rewrite IH. }
  rewrite Hr. destruct a as [|c a]; [done|]. exact (take_app_length (c :: a) (lit ".bin")).
Qed.

Lemma digits_no_underscore i : underscore ∉ writeIntText i.
Proof. by apply writeIntText_no. Qed.

Lemma name_index i : 0 <= i < 2 ^ 64 -> getSnapshotPathUpToLogIdx (getSnapshotFileName i) = Some (Ok i).
Proof.
  intros Hi. unfold getSnapshotPathUpToLogIdx, getSnapshotFileName. rewrite app_assoc, stem_bin by done. unfold split_name.
  change (lit "snapshot_" ++ writeIntText i) with (lit "snapshot" ++ underscore :: writeIntText i).
  rewrite split_loop_app by (apply (bool_decide_unpack _); vm_compute; exact I). rewrite split_loop_no by apply digits_no_underscore.
  cbn [app]. rewrite decide_False by apply writeIntText_nonempty. cbn. by rewrite parse_writeIntText.
Qed.

(** The name of a temporary file is taken for that of a snapshot with index 0. *)
Lemma tmp_index i : getSnapshotPathUpToLogIdx (tmp_name (getSnapshotFileName i)) = Some (Ok 0).
Proof.
  unfold getSnapshotPathUpToLogIdx, getSnapshotFileName, tmp_name. rewrite !app_assoc, stem_bin by done. unfold split_name.
  change ((lit "tmp_" ++ lit "snapshot_") ++ writeIntText i) with (lit "tmp" ++ underscore :: (lit "snapshot" ++ underscore :: writeIntText i)).
  rewrite !split_loop_app by (apply (bool_decide_unpack _); vm_compute; exact I). vm_compute. reflexivity.
Qed.

Lemma name_inj i j : 0 <= i < 2 ^ 64 -> 0 <= j < 2 ^ 64 -> getSnapshotFileName i = getSnapshotFileName j -> i = j.
Proof. intros Hi Hj H. pose proof (name_index i Hi) as H1. rewrite H, name_index in H1 by done. congruence. Qed.

Lemma tmp_ne i j : tmp_name (getSnapshotFileName i) <> getSnapshotFileName j.
Proof. discriminate. Qed.

(** ** The first and the last index *)

Lemma indices_elem m i : i ∈ indices m <-> is_Some (existing_snapshots m !! i).
Proof. unfold indices. rewrite merge_sort_Permutation, elem_of_elements. apply elem_of_dom. Qed.

Lemma indices_sorted m : StronglySorted Z.le (indices m).
Proof. apply StronglySorted_merge_sort; apply _. Qed.

Lemma first_index_spec m i : first_index m = Some i -> is_Some (existing_snapshots m !! i) /\ forall j, is_Some (existing_snapshots m !! j) -> i <= j.
Proof.
  unfold first_index. intros H. setoid_rewrite <- indices_elem. pose proof (indices_sorted m) as Hs. destruct (indices m) as [|x l]; [done|].
  injection H as <-. split; [left|]. apply StronglySorted_inv in Hs as [_ Hx]. rewrite Forall_forall in Hx. intros j [->|Hj]%elem_of_cons; [lia|]. by apply Hx.
Qed.

Lemma first_index_some m : existing_snapshots m <> ∅ -> is_Some (first_index m).
Proof.
  intros Hne. apply map_choose in Hne as (i & x & Hi). assert (i ∈ indices m) as Hin by (apply indices_elem; by eexists).
  unfold first_index. destruct (indices m); [by apply not_elem_of_nil in Hin|by eexists].
Qed.

Lemma last_index_spec m i : last_index m = Some i -> is_Some (existing_snapshots m !! i) /\ forall j, is_Some (existing_snapshots m !! j) -> j <= i.
Proof.
  unfold last_index. intros H. setoid_rewrite <- indices_elem. pose proof (indices_sorted m) as Hs.
  apply last_Some in H as [l' Hl]. rewrite Hl in Hs |- *. split; [set_solver|]. apply StronglySorted_app in Hs as (Hs & _ & _).
  intros j [Hj| ->%list_elem_of_singleton]%elem_of_app; [|lia]. apply Hs; set_solver.
Qed.

Lemma last_index_some m : existing_snapshots m <> ∅ -> is_Some (last_index m).
Proof.
  intros Hne. apply map_choose in Hne as (i & x & Hi). assert (i ∈ indices m) as Hin by (apply indices_elem; by eexists).
  unfold last_index. apply last_is_Some. intros H0. rewrite H0 in Hin. by apply not_elem_of_nil in Hin.
Qed.

(** ** The reference *)

(** The [k] snapshots with the largest indices. *)
Definition newer (R : gmap Z str) (i : Z) : gset Z := filter (fun j => i < j) (dom R).
Definition newest (k : Z) (R : gmap Z str) : gmap Z str := filter (fun ib => Z.of_nat (size (newer R ib.1)) < k) R.

Lemma newer_size (R : gmap Z str) i : is_Some (R !! i) -> (size (newer R i) < size R)%nat.
Proof.
  intros Hi. rewrite <- (size_dom R). apply subset_size. unfold newer. apply elem_of_dom in Hi. split; [set_solver|].
  intros H. apply H in Hi. apply elem_of_filter in Hi. lia.
Qed.

Lemma newest_all k R : Z.of_nat (size R) <= k -> newest k R = R.
Proof. intros Hk. unfold newest. apply map_filter_id. intros i b Hi. cbn. pose proof (newer_size R i ltac:(by eexists)). lia. Qed.

Lemma newest_delete_min k R i :
  is_Some (R !! i) -> (forall j, is_Some (R !! j) -> i <= j) -> k < Z.of_nat (size R) -> newest k (delete i R) = newest k R.
Proof.
  intros Hi Hmin Hk. assert (Hn : forall j, i <= j -> newer (delete i R) j = newer R j).
  { intros j Hj. unfold newer. rewrite dom_delete_L. apply set_eq. intros x. rewrite !elem_of_filter, elem_of_difference, elem_of_singleton.
    split; [naive_solver|]. intros [H1 H2]. repeat split; [done|done|lia]. }
  assert (Hall : newer R i = dom R ∖ {[i]}).
  { unfold newer. apply set_eq. intros x. rewrite elem_of_filter, elem_of_difference, elem_of_singleton, elem_of_dom. split.
    - intros [H1 H2]. split; [done|lia].
    - intros [H1 H2]. split; [|done]. specialize (Hmin x H1). lia. }
  apply map_eq. intros j. unfold newest. rewrite !map_lookup_filter. destruct (decide (j = i)) as [->|Hne].
  - rewrite lookup_delete_eq. destruct (R !! i) as [b|] eqn:E; [|done]. cbn. rewrite option_guard_False; [done|].
    cbn. rewrite Hall, size_difference by (apply singleton_subseteq_l, elem_of_dom; by rewrite E). rewrite size_dom, size_singleton.
    assert (0 < size R)%nat by (pose proof (newer_size R i ltac:(by rewrite E)); lia). lia.
  - rewrite lookup_delete_ne by done. destruct (R !! j) as [b|] eqn:E; [|done]. cbn. rewrite Hn; [done|]. apply Hmin. by eexists.
Qed.

(** The files and the entries of the snapshots [R]; a temporary file may stand under index 0. *)
Record stored (m : t) (R : gmap Z str) : Prop := {
  st_range : forall i, is_Some (R !! i) -> 0 < i < 2 ^ 64;
  st_index : forall i, i <> 0 -> existing_snapshots m !! i = (fun _ => getSnapshotFileName i) <$> R !! i;
  st_zero : forall nm, existing_snapshots m !! 0 = Some nm -> exists j, nm = tmp_name (getSnapshotFileName j);
  st_files : forall i b, R !! i = Some b -> dir m !! getSnapshotFileName i = Some b;
  st_others : forall nm, is_Some (dir m !! nm) ->
    (exists i, is_Some (R !! i) /\ nm = getSnapshotFileName i) \/ exists j, nm = tmp_name (getSnapshotFileName j)
}.

Lemma stored_dom m R : stored m R -> dom R = dom (existing_snapshots m) ∖ {[0]}.
Proof.
  intros [H1 H2 _ _ _]. apply set_eq. intros i. rewrite elem_of_difference, elem_of_singleton, !elem_of_dom. split.
  - intros Hi. specialize (H1 i Hi). rewrite H2 by lia. rewrite fmap_is_Some. split; [done|lia].
  - intros [Hi Hne]. rewrite H2 in Hi by done. by rewrite fmap_is_Some in Hi.
Qed.

Lemma stored_size m R : stored m R -> (size R <= totalSnapshots m)%nat /\ (existing_snapshots m !! 0 = None -> size R = totalSnapshots m).
Proof.
  intros HS. unfold totalSnapshots. rewrite <- !(size_dom (D := gset Z)). rewrite (stored_dom _ _ HS). split.
  - apply subseteq_size. set_solver.
  - intros H0. f_equal. apply not_elem_of_dom in H0. set_solver.
Qed.

(** ** Removing outdated snapshots *)

Lemma remove_step m R :
  stored m R -> 0 <= snapshots_to_keep m < Z.of_nat (totalSnapshots m) ->
  exists i m1 R1, first_index m = Some i /\ removeSnapshot m i = Ok m1 /\ stored m1 R1
    /\ newest (snapshots_to_keep m) R1 = newest (snapshots_to_keep m) R /\ totalSnapshots m = S (totalSnapshots m1)
    /\ m1 = with_files m (existing_snapshots m1) (dir m1) /\ R1 ⊆ R.
Proof.
  intros HS Hk. destruct (first_index_some m) as [i Hi].
  { intros H0. unfold totalSnapshots in Hk. rewrite H0, map_size_empty in Hk. lia. }
  destruct (first_index_spec m i Hi) as [[nm Hnm] Hmin]. unfold removeSnapshot.
  exists i, (with_files m (delete i (existing_snapshots m)) (delete nm (dir m))), (if decide (i = 0) then R else delete i R).
  rewrite Hnm. split; [done|]. split; [done|].
  assert (Htot : totalSnapshots m = S (totalSnapshots (with_files m (delete i (existing_snapshots m)) (delete nm (dir m))))).
  { unfold totalSnapshots. cbn. rewrite map_size_delete_Some by (by eexists). assert (size (existing_snapshots m) <> 0)%nat by (apply map_size_ne_0_lookup; eauto). lia. }
  pose proof HS as [H1 H2 H3 H4 H5]. destruct (decide (i = 0)) as [->|Hne].
  - destruct (H3 _ Hnm) as [j ->]. split; [|by repeat split]. split; cbn [with_files existing_snapshots dir]; [done|..].
    + intros i Hi0. by rewrite lookup_delete_ne, H2.
    + intros nm. by rewrite lookup_delete_eq.
    + intros i b Hb. rewrite lookup_delete_ne; [by apply H4|]. apply tmp_ne.
    + intros nm Hnm'. apply H5. destruct (decide (nm = tmp_name (getSnapshotFileName j))) as [->|Hx]; [rewrite lookup_delete_eq in Hnm'; by destruct Hnm'|].
      by rewrite lookup_delete_ne in Hnm'.
  - rewrite H2 in Hnm by done. destruct (R !! i) as [b|] eqn:Hb; [|done]. injection Hnm as <-. pose proof (H1 i ltac:(by rewrite Hb)) as Hri.
    assert (H0 : existing_snapshots m !! 0 = None).
    { destruct (existing_snapshots m !! 0) eqn:E; [|done]. specialize (Hmin 0 ltac:(by rewrite E)). lia. }
    split; [|split; [|split; [done|split; [done|apply delete_subseteq]]]].
    + split; cbn [with_files existing_snapshots dir].
      * intros j [x Hj]. apply lookup_delete_Some in Hj as [_ Hj]. apply H1. by eexists.
      * intros j Hj. destruct (decide (j = i)) as [->|Hx]; [by rewrite !lookup_delete_eq|]. by rewrite !lookup_delete_ne, H2 by done.
      * intros nm. rewrite lookup_delete_ne by lia. by rewrite H0.
      * intros j x [Hj Hx]%lookup_delete_Some. rewrite lookup_delete_ne; [by apply H4|]. intros E. apply Hj. pose proof (H1 j ltac:(by eexists)). apply name_inj; [lia|lia|done].
      * intros nm [x [Hx Hnm]%lookup_delete_Some]. destruct (H5 nm ltac:(by eexists)) as [(j & Hj & ->)|?]; [|by right]. left. exists j. split; [|done].
        rewrite lookup_delete_ne; [done|]. by intros ->.
    + apply newest_delete_min; [by rewrite Hb| |rewrite (proj2 (stored_size _ _ HS) H0); lia].
      intros j Hj. apply Hmin. pose proof (H1 j Hj). rewrite H2 by lia. by rewrite fmap_is_Some.
Qed.

Lemma remove_outdated_spec fuel m R :
  stored m R -> 0 <= snapshots_to_keep m -> (totalSnapshots m <= fuel)%nat ->
  exists m', remove_outdated fuel m = Some (Ok m') /\ stored m' (newest (snapshots_to_keep m) R) /\ m' = with_files m (existing_snapshots m') (dir m').
Proof.
  revert m R. induction fuel as [|fuel IH]; intros m R HS Hk Hf; cbn [remove_outdated]; rewrite Z.gtb_ltb;
    destruct (Z.ltb_spec (snapshots_to_keep m) (Z.of_nat (totalSnapshots m))) as [Hlt|Hge].
  1: lia.
  1, 3: exists m; pose proof (stored_size _ _ HS) as [Hsz _]; rewrite newest_all by lia; destruct m; done.
  destruct (remove_step m R HS ltac:(lia)) as (i & m1 & R1 & E1 & E2 & HS1 & HR & Htot & Hm1 & _). rewrite E1. cbn [mbind option_bind]. rewrite E2.
  assert (Hk1 : snapshots_to_keep m1 = snapshots_to_keep m) by (by rewrite Hm1).
  destruct (IH m1 R1 HS1 ltac:(lia) ltac:(lia)) as (m' & -> & HS' & Hm'). exists m'. split; [done|]. rewrite Hk1, HR in HS'. split; [done|].
  rewrite Hm', Hm1. done.
Qed.

(** Up to [n] rounds of the loop. *)
Fixpoint remove_some (n : nat) (m : t) : t :=
  match n with
  | O => m
  | S n =>
      if Z.of_nat (totalSnapshots m) >? snapshots_to_keep m
      then match first_index m with
           | Some i => match removeSnapshot m i with Ok m => remove_some n m | Throw _ => m end
           | None => m
           end
      else m
  end.

Lemma remove_some_spec n m R :
  stored m R -> 0 <= snapshots_to_keep m ->
  exists R', stored (remove_some n m) R' /\ newest (snapshots_to_keep m) R' = newest (snapshots_to_keep m) R /\ R' ⊆ R.
Proof.
  revert m R. induction n as [|n IH]; intros m R HS Hk; cbn [remove_some]; [by exists R|]. rewrite Z.gtb_ltb.
  destruct (Z.ltb_spec (snapshots_to_keep m) (Z.of_nat (totalSnapshots m))) as [Hlt|Hge]; [|by exists R].
  destruct (remove_step m R HS ltac:(lia)) as (i & m1 & R1 & E1 & E2 & HS1 & HR & _ & Hm1 & Hsub). rewrite E1, E2.
  assert (Hk1 : snapshots_to_keep m1 = snapshots_to_keep m) by (by rewrite Hm1).
  destruct (IH m1 R1 HS1 ltac:(lia)) as (R' & HS' & HR' & Hsub'). exists R'. split; [done|]. rewrite <- Hk1, HR', Hk1. split; [done|]. by transitivity R1.
Qed.

(** ** Starting *)

Definition path_ok (path : str) : Prop := forall name, startsWith (join_path path name) (lit "tmp_") = false.

Lemma absolute_path path : head path = Some Storage.slash -> path_ok path.
Proof. destruct path as [|c path]; [done|]. intros [= ->] name. unfold startsWith, join_path. apply bool_decide_eq_false_2. rewrite decide_False by done. by case_decide. Qed.

Lemma scan_spec m names :
  path_ok (snapshots_path m) ->
  (forall nm, nm ∈ names -> (exists i, 0 < i < 2 ^ 64 /\ nm = getSnapshotFileName i) \/ exists j, nm = tmp_name (getSnapshotFileName j)) ->
  exists E, scan_directory m names = Some (Ok (with_files m E (dir m)))
    /\ (forall i, i <> 0 -> E !! i = if decide (0 < i < 2 ^ 64 /\ getSnapshotFileName i ∈ names) then Some (getSnapshotFileName i) else existing_snapshots m !! i)
    /\ (forall nm, E !! 0 = Some nm -> existing_snapshots m !! 0 = Some nm \/ exists j, nm = tmp_name (getSnapshotFileName j)).
Proof.
  intros Hp. revert m Hp. induction names as [|nm names IH]; intros m Hp Hn; cbn [scan_directory].
  { exists (existing_snapshots m). split; [by destruct m|]. split; [|by left]. intros i Hi. rewrite decide_False; [done|]. intros [_ H]. by apply not_elem_of_nil in H. }
  rewrite Hp. destruct (Hn nm ltac:(left)) as [(i & Hi & ->)|(j & ->)].
  - rewrite name_index by lia. cbn [mbind option_bind].
    destruct (IH (with_files m (<[i := getSnapshotFileName i]> (existing_snapshots m)) (dir m))) as (E & -> & H1 & H2); [done|by intros x Hx; apply Hn; right|].
    exists E. split; [done|]. cbn [with_files existing_snapshots] in H1, H2. split.
    + intros k Hk. rewrite H1 by done. destruct (decide (k = i)) as [->|Hne].
      * rewrite lookup_insert_eq, (decide_True (P := _ /\ getSnapshotFileName i ∈ _ :: _)) by (split; [done|left]). by case_decide.
      * rewrite lookup_insert_ne by done. assert (Hx : 0 < k < 2 ^ 64 -> getSnapshotFileName k <> getSnapshotFileName i) by (intros ? ?%name_inj; lia).
        destruct (decide (0 < k < 2 ^ 64 /\ getSnapshotFileName k ∈ names)) as [[? ?]|Hno]; [rewrite decide_True; [done|split; [done|by right]]|].
        rewrite decide_False; [done|]. rewrite elem_of_cons. intros [Hr [Heq|Hin]]; [by apply (Hx Hr)|by apply Hno].
    + intros nm Hnm. destruct (H2 nm Hnm) as [H|H]; [|by right]. left. by rewrite lookup_insert_ne in H by lia.
  - rewrite tmp_index. cbn [mbind option_bind].
    destruct (IH (with_files m (<[0 := tmp_name (getSnapshotFileName j)]> (existing_snapshots m)) (dir m))) as (E & -> & H1 & H2); [done|by intros x Hx; apply Hn; right|].
    exists E. split; [done|]. cbn [with_files existing_snapshots] in H1, H2. split.
    + intros k Hk. rewrite H1, lookup_insert_ne by lia. assert (Hx : getSnapshotFileName k <> tmp_name (getSnapshotFileName j)) by (apply not_eq_sym, tmp_ne).
      destruct (decide (0 < k < 2 ^ 64 /\ getSnapshotFileName k ∈ names)) as [[? ?]|Hno]; [rewrite decide_True; [done|split; [done|by right]]|].
      rewrite decide_False; [done|]. rewrite elem_of_cons. intros [Hr [Heq|Hin]]; [by apply Hx|by apply Hno].
    + intros nm Hnm. destruct (H2 nm Hnm) as [H|H]; [|by right]. right. rewrite lookup_insert_eq in H. injection H as <-. by exists j.
Qed.

Lemma create_spec path keep tick d R names :
  path_ok path -> 0 <= keep -> names ≡ₚ elements (dom d) ->
  (forall i, is_Some (R !! i) -> 0 < i < 2 ^ 64) -> (forall i b, R !! i = Some b -> d !! getSnapshotFileName i = Some b) ->
  (forall nm, is_Some (d !! nm) -> (exists i, is_Some (R !! i) /\ nm = getSnapshotFileName i) \/ exists j, nm = tmp_name (getSnapshotFileName j)) ->
  exists m, create path keep tick d names = Some (Ok m) /\ stored m (newest keep R) /\ m = mk path keep (existing_snapshots m) tick (dir m).
Proof.
  intros Hp Hk Hn H1 H4 H5. unfold create.
  assert (Hin : forall nm, nm ∈ names <-> is_Some (d !! nm)) by (intros nm; rewrite Hn, elem_of_elements; apply elem_of_dom).
  destruct (scan_spec (mk path keep ∅ tick d) names) as (E & -> & HE & H0); [done| |].
  { intros nm Hnm%Hin. destruct (H5 nm Hnm) as [(i & Hi & ->)|?]; [|by right]. left. exists i. split; [by apply H1|done]. }
  cbn [mbind option_bind with_files existing_snapshots dir snapshots_path snapshots_to_keep storage_tick_time] in *.
  assert (HS : stored (mk path keep E tick d) R).
  { split; cbn [existing_snapshots dir]; [done| | |done|done].
    - intros i Hi. rewrite HE by done. destruct (R !! i) as [b|] eqn:Eb; cbn [fmap option_fmap option_map].
      + rewrite decide_True; [done|]. split; [apply H1; by eexists|]. apply Hin. rewrite (H4 i b Eb). by eexists.
      + rewrite decide_False; [by rewrite lookup_empty|]. intros [Hr Hs%Hin]. destruct (H5 _ Hs) as [(j & Hj & Hij)|(j & Hj)]; [|by apply (not_eq_sym (tmp_ne j i))].
        apply name_inj in Hij; [|lia|pose proof (H1 j Hj); lia]. subst j. rewrite Eb in Hj. by destruct Hj.
    - intros nm Hnm. destruct (H0 nm Hnm) as [H|H]; [by rewrite lookup_empty in H|done]. }
  destruct (remove_outdated_spec _ _ _ HS Hk (le_n _)) as (m & Hm & HS' & Heq). exists m. split; [exact Hm|]. split; [exact HS'|]. by rewrite Heq.
Qed.

(** ** Writing *)

Lemma add_stored m R b i : stored m R -> 0 < i < 2 ^ 64 -> stored (add_snapshot m b i) (<[i := b]> R).
Proof.
  intros [H1 H2 H3 H4 H5] Hi. set (nm := getSnapshotFileName i). assert (Hd : dir (add_snapshot m b i) = <[nm := b]> (delete (tmp_name nm) (dir m))).
  { unfold add_snapshot, write_ops. cbn [with_files dir foldl run_file_op]. rewrite lookup_insert_eq. by rewrite delete_insert_eq. }
  assert (HE : existing_snapshots (add_snapshot m b i) = <[i := nm]> (existing_snapshots m)).
  { unfold add_snapshot. cbn [with_files existing_snapshots]. case_decide as Hs; [|done]. symmetry. apply insert_id. rewrite H2 in Hs by lia. rewrite H2 by lia.
    apply fmap_is_Some in Hs as [x Hx]. by rewrite Hx. }
  split; rewrite ?Hd, ?HE.
  - intros k Hk. destruct (decide (k = i)) as [->|Hne]; [lia|]. rewrite lookup_insert_ne in Hk by done. by apply H1.
  - intros k Hk. destruct (decide (k = i)) as [->|Hne]; [by rewrite !lookup_insert_eq|]. by rewrite !lookup_insert_ne, H2 by done.
  - intros x. rewrite lookup_insert_ne by lia. apply H3.
  - intros k x Hx. destruct (decide (k = i)) as [->|Hne]; [rewrite lookup_insert_eq in Hx; injection Hx as <-; apply lookup_insert_eq|]. rewrite lookup_insert_ne in Hx by done.
    pose proof (H1 k ltac:(by eexists)) as Hk. rewrite lookup_insert_ne by (intros ?%name_inj; lia). rewrite lookup_delete_ne by apply tmp_ne. by apply H4.
  - intros x Hx. destruct (decide (x = nm)) as [->|Hne]; [left; exists i; split; [rewrite lookup_insert_eq; by eexists|done]|].
    rewrite lookup_insert_ne in Hx by done. destruct Hx as [y [_ Hy]%lookup_delete_Some]. destruct (H5 x ltac:(by eexists)) as [(k & Hk & ->)|?]; [|by right].
    left. exists k. split; [|done]. rewrite lookup_insert_ne; [done|]. by intros ->.
Qed.

(** ** Runs with crashes *)

Section runs.
Context (order : directory -> list str) (Horder : forall d, order d ≡ₚ elements (dom d)).

Inductive file_event : Type :=
| FSave (i : Z) (b : str)
| FCrashWriting (i : Z) (b : str) (n : nat)
| FCrashRemoving (i : Z) (b : str) (n : nat).

Definition reopen (m : t) (d : directory) : option (result t) :=
  create (snapshots_path m) (snapshots_to_keep m) (storage_tick_time m) d (order d).

(** A crash while the temporary file is written leaves a part of it; one after the renaming
    leaves some of the outdated snapshots. *)
Definition file_step (m : t) (ev : file_event) : option (result t) :=
  match ev with
  | FSave i b => serializeSnapshotBufferToDisk m b i
  | FCrashWriting i b n => reopen m (run_file_op (dir m) (FWrite (tmp_name (getSnapshotFileName i)) (take n b)))
  | FCrashRemoving i b n => reopen m (dir (remove_some n (add_snapshot m b i)))
  end.

Fixpoint file_run (m : t) (evs : list file_event) : option (result t) :=
  match evs with
  | [] => Some (Ok m)
  | ev :: evs =>
      r ← file_step m ev;
      match r with Ok m => file_run m evs | Throw e => Some (Throw e) end
  end.

Definition event_index (ev : file_event) : Z := match ev with FSave i _ | FCrashWriting i _ _ | FCrashRemoving i _ _ => i end.

Definition file_ref (keep : Z) (R : gmap Z str) (ev : file_event) : gmap Z str :=
  match ev with
  | FSave i b | FCrashRemoving i b _ => newest keep (<[i := b]> R)
  | FCrashWriting _ _ _ => newest keep R
  end.

Lemma reopen_stored m m1 R :
  path_ok (snapshots_path m) -> 0 <= snapshots_to_keep m -> stored m1 R ->
  exists m', reopen m (dir m1) = Some (Ok m') /\ stored m' (newest (snapshots_to_keep m) R) /\ m' = with_files m (existing_snapshots m') (dir m').
Proof. intros Hp Hk [H1 _ _ H4 H5]. by apply (create_spec _ _ _ _ R (order (dir m1))). Qed.

Lemma file_step_stored m R ev :
  path_ok (snapshots_path m) -> 0 <= snapshots_to_keep m -> stored m R -> 0 < event_index ev < 2 ^ 64 ->
  exists m', file_step m ev = Some (Ok m') /\ stored m' (file_ref (snapshots_to_keep m) R ev) /\ m' = with_files m (existing_snapshots m') (dir m').
Proof.
  intros Hp Hk HS Hi. destruct ev as [i b|i b n|i b n]; cbn [file_step file_ref event_index] in *.
  - apply (remove_outdated_spec _ (add_snapshot m b i) (<[i := b]> R)); [by apply add_stored|done|done].
  - apply (reopen_stored m (with_files m (existing_snapshots m) (run_file_op (dir m) (FWrite (tmp_name (getSnapshotFileName i)) (take n b))))); [done|done|].
    destruct HS as [H1 H2 H3 H4 H5]. split; cbn [with_files existing_snapshots dir run_file_op]; [done|done|done| |].
    + intros k x Hx. rewrite lookup_insert_ne by apply tmp_ne. by apply H4.
    + intros nm Hnm. destruct (decide (nm = tmp_name (getSnapshotFileName i))) as [->|Hne]; [right; by exists i|]. rewrite lookup_insert_ne in Hnm by done. by apply H5.
  - destruct (remove_some_spec n (add_snapshot m b i) (<[i := b]> R)) as (R' & HS' & HR & _); [by apply add_stored|done|].
    destruct (reopen_stored m _ R' Hp Hk HS') as (m' & H1 & H2 & H3). change (snapshots_to_keep (add_snapshot m b i)) with (snapshots_to_keep m) in HR.
    rewrite HR in H2. by exists m'.
Qed.

Lemma file_run_stored evs m R :
  path_ok (snapshots_path m) -> 0 <= snapshots_to_keep m -> stored m R -> Forall (fun ev => 0 < event_index ev < 2 ^ 64) evs ->
  exists m', file_run m evs = Some (Ok m') /\ stored m' (foldl (file_ref (snapshots_to_keep m)) R evs).
Proof.
  intros Hp Hk HS Hevs. revert m R Hp Hk HS. induction Hevs as [|ev evs Hev _ IH]; intros m R Hp Hk HS; cbn [file_run foldl]; [by exists m|].
  destruct (file_step_stored m R ev Hp Hk HS Hev) as (m1 & -> & HS1 & Hm1). cbn [mbind option_bind].
  assert (E : snapshots_path m1 = snapshots_path m /\ snapshots_to_keep m1 = snapshots_to_keep m) by (by rewrite Hm1). destruct E as [E1 E2].
  rewrite <- E2 in HS1 |- *. apply IH; [by rewrite E1|lia|done].
Qed.

(** C15: Snapshots on disk survive crashes.  Whatever snapshots are saved, and wherever crashes
    interrupt the saving (in the middle of the temporary file, or after it was renamed), the
    manager that starts again has, under each index, exactly the bytes that were
    saved under it, and of all snapshots saved completely the newest ones; the index
    it loads first is the largest. *)
Theorem snapshots_survive (path : str) (keep tick : Z) (evs : list file_event) :
  path_ok path -> 0 < keep -> Forall (fun ev => 0 < event_index ev < 2 ^ 64) evs ->
  let R := foldl (file_ref keep) ∅ evs in
  exists m0 m, create path keep tick ∅ [] = Some (Ok m0) /\ file_run m0 evs = Some (Ok m)
    /\ (forall i, 0 < i -> deserializeSnapshotBufferFromDisk m i = match R !! i with Some b => Ok b | None => Throw StdOutOfRange end)
    /\ (R <> ∅ -> is_Some (R !! getLatestSnapshotIndex m) /\ forall i, is_Some (R !! i) -> i <= getLatestSnapshotIndex m).
Proof.
  intros Hp Hk Hevs. cbv zeta. destruct (create_spec path keep tick ∅ ∅ []) as (m0 & Hm0 & HS0 & E0); try done; [lia|by intros i [? ?]|by intros nm [? ?]|].
  assert (E : snapshots_path m0 = path /\ snapshots_to_keep m0 = keep) by (by rewrite E0). destruct E as [Ep Ek].
  rewrite newest_all in HS0 by (rewrite map_size_empty; lia).
  destruct (file_run_stored evs m0 ∅) as (m & Hm & HS); [by rewrite Ep|lia|done|done|]. rewrite Ek in HS. exists m0, m.
  split; [done|]. split; [done|]. remember (foldl (file_ref keep) ∅ evs) as R eqn:HR. destruct HS as [H1 H2 H3 H4 H5]. split.
  - intros i Hi. unfold deserializeSnapshotBufferFromDisk. rewrite H2 by lia. destruct (R !! i) as [b|] eqn:Eb; cbn [fmap option_fmap option_map]; [|done].
    by rewrite (H4 i b Eb).
  - intros Hne. apply map_choose in Hne as (i & b & Hb).
    assert (Hex : forall j, is_Some (R !! j) -> is_Some (existing_snapshots m !! j)) by (intros j Hj; pose proof (H1 j Hj); rewrite H2 by lia; by rewrite fmap_is_Some).
    destruct (last_index_some m) as [j Hj]; [intros H0; specialize (Hex i ltac:(by eexists)); rewrite H0, lookup_empty in Hex; by destruct Hex|].
    unfold getLatestSnapshotIndex. rewrite Hj. cbn [default]. destruct (last_index_spec m j Hj) as [Hjs Hmax].
    assert (Hj0 : j <> 0) by (specialize (Hmax i (Hex i ltac:(by eexists))); pose proof (H1 i ltac:(by eexists)); lia).
    rewrite H2 in Hjs by done. rewrite fmap_is_Some in Hjs. split; [done|]. intros k Hk'. by apply Hmax, Hex.
Qed.
End runs.

Lemma snapshots_survive_witness :
  let evs := [FSave 5 (lit "a"); FSave 10 (lit "b"); FCrashWriting 15 (lit "cd") 1; FSave 20 (lit "d"); FCrashRemoving 25 (lit "e") 0] in
  let order (d : gmap str str) := elements (dom d) in
  foldl (file_ref 2) ∅ evs = {[20 := lit "d"; 25 := lit "e"]}
  /\ exists m0 m, create (lit "/s") 2 500 ∅ [] = Some (Ok m0) /\ file_run order m0 evs = Some (Ok m)
    /\ deserializeSnapshotBufferFromDisk m 25 = Ok (lit "e") /\ deserializeSnapshotBufferFromDisk m 15 = Throw StdOutOfRange.
Proof.
  cbv zeta. assert (HR : foldl (file_ref 2) ∅ [FSave 5 (lit "a"); FSave 10 (lit "b"); FCrashWriting 15 (lit "cd") 1; FSave 20 (lit "d"); FCrashRemoving 25 (lit "e") 0]
    = {[20 := lit "d"; 25 := lit "e"]}) by (vm_compute; reflexivity). split; [exact HR|].
  destruct (snapshots_survive (fun d => elements (dom d)) ltac:(done) (lit "/s") 2 500
    [FSave 5 (lit "a"); FSave 10 (lit "b"); FCrashWriting 15 (lit "cd") 1; FSave 20 (lit "d"); FCrashRemoving 25 (lit "e") 0]) as (m0 & m & H1 & H2 & H3 & _).
  - by apply absolute_path.
  - lia.
  - repeat (constructor; [cbn; lia|]). constructor.
  - rewrite HR in H3. exists m0, m. split; [exact H1|]. split; [exact H2|]. split; [apply (H3 25)|apply (H3 15)]; lia.
Defined.

(** A temporary file is never removed: the check for its prefix looks at the whole path. *)
Lemma tmp_file_stays path keep tick d j :
  path_ok path -> 0 < keep ->
  let names := [tmp_name (getSnapshotFileName j)] in
  dom d = list_to_set names ->
  exists m, create path keep tick d names = Some (Ok m) /\ dir m = d /\ existing_snapshots m = {[0 := tmp_name (getSnapshotFileName j)]}.
Proof.
  intros Hp Hk. cbv zeta. intros Hd. unfold create. cbn [scan_directory snapshots_path]. rewrite Hp, tmp_index. cbn [mbind option_bind].
  set (m := mk path keep (<[0 := tmp_name (getSnapshotFileName j)]> ∅) tick d).
  assert (Ht : totalSnapshots m = 1%nat) by (unfold totalSnapshots, m; cbn [existing_snapshots]; by rewrite insert_empty, map_size_singleton).
  exists m. split; [|split; [done|apply insert_empty]]. change (removeOutdatedSnapshotsIfNeeded m = Some (Ok m)). unfold removeOutdatedSnapshotsIfNeeded.
  rewrite Ht. cbn [remove_outdated]. rewrite Ht. change (snapshots_to_keep m) with keep. rewrite Z.gtb_ltb, (proj2 (Z.ltb_ge _ _)) by lia. done.
Qed.

(** With a relative path that starts with that prefix every snapshot is removed. *)
Lemma snapshots_removed_by_path :
  (fun r => match r with Ok m => Some (size (dir m)) | Throw _ => None end)
    <$> create (lit "tmp_keeper") 3 500 {[getSnapshotFileName 5 := lit "a"]} [getSnapshotFileName 5] = Some (Some 0%nat).
Proof. vm_compute. reflexivity. Qed.
