(* ===== verification/KeeperStateMachine.v ===== *)
(** * KeeperStateMachine: the state machine the Raft library drives

    Models the class KeeperStateMachine of src/src/Coordination/KeeperStateMachine.{h,cpp} and
    the parts of KeeperSnapshotManager that turn a snapshot into bytes and back: starting
    from the snapshots on disk, committing an entry of the log, creating, saving,
    sending and applying snapshots, and reading.

    The Raft library calls the methods; its snapshot metadata is [SnapshotMetadata], the
    compression of src/src/Compression, over codecs that are not part of the tree, is
    [SnapshotCodec].  A snapshot refers to the storage it was taken from: the storages of
    a machine are numbered, and running a task whose storage has been replaced is [None]. *)

From S2P Require Import Prelude TextFormat WalRecord Wire ZooKeeper SessionQueue SnapshotTable KeeperStorage KeeperTree KeeperSnapshot KeeperSnapshotFiles.
Import Storage.

Local Open Scope Z_scope.

(** CompressedWriteBuffer and CompressedReadBuffer. *)
Class SnapshotCodec : Type := {
  compress : str -> str;
  decompress : str -> result str;
  decompress_compress : forall s, decompress (compress s) = Ok s;
}.

(** [nuraft::snapshot(last_log_idx, 0, new cluster_config)] *)
Class NewMetadata (M : Type) `{!SnapshotMetadata M} : Type := {
  new_metadata : Z -> M;
  new_metadata_idx : forall i, 0 <= i < 2 ^ 64 -> get_last_log_idx (new_metadata i) = i;
}.

Section machine.
Context {M : Type} `{!SnapshotMetadata M} `{!NewMetadata M} `{!SnapshotCodec}.

Record machine : Type := mkMachine {
  dead_session_check_period_ms : Z;
  latest_snapshot_meta : option M;
  latest_snapshot_buf : option str;
  m_storage : option storage;
  storage_number : nat;
  snapshot_manager : Manager.t;
  responses_queue : list ResponseForSession;
  snapshots_queue : list (nat * KeeperStorageSnapshot M);
  last_committed_idx : Z
}.

Definition with_storage (sm : machine) (s : option storage) : machine :=
  mkMachine (dead_session_check_period_ms sm) (latest_snapshot_meta sm) (latest_snapshot_buf sm) s (storage_number sm)
    (snapshot_manager sm) (responses_queue sm) (snapshots_queue sm) (last_committed_idx sm).
Definition with_responses (sm : machine) (s : option storage) (rs : list ResponseForSession) (idx : Z) : machine :=
  mkMachine (dead_session_check_period_ms sm) (latest_snapshot_meta sm) (latest_snapshot_buf sm) s (storage_number sm)
    (snapshot_manager sm) (responses_queue sm ++ rs) (snapshots_queue sm) idx.
Definition with_snapshot (sm : machine) (meta : M) (buf : str) (manager : Manager.t) : machine :=
  mkMachine (dead_session_check_period_ms sm) (Some meta) (Some buf) (m_storage sm) (storage_number sm)
    manager (responses_queue sm) (snapshots_queue sm) (last_committed_idx sm).

(** ** Snapshots as bytes *)

Definition serializeSnapshotToBuffer (snapshot : KeeperStorageSnapshot M) : result str :=
  match serialize snapshot with Ok w => Ok (compress w) | Throw e => Throw e end.

Definition deserializeSnapshotFromBuffer (manager : Manager.t) (now : Z) (buffer : str) : option (result (M * storage)) :=
  match decompress buffer with
  | Throw e => Some (Throw e)
  | Ok raw =>
      s ← create_storage (Manager.storage_tick_time manager) now;
      r ← deserialize s now raw;
      Some (match r with Ok (meta, s, _) => Ok (meta, s) | Throw e => Throw e end)
  end.

Definition restoreFromLatestSnapshot (manager : Manager.t) (now : Z) : option (Manager.t * option (result (M * storage))) :=
  if decide (Manager.totalSnapshots manager = 0%nat) then Some (manager, None)
  else
    '(manager, buffer) ← Manager.deserializeLatestSnapshotBufferFromDisk manager;
    match buffer with
    | None => Some (manager, None)
    | Some buffer => r ← deserializeSnapshotFromBuffer manager now buffer; Some (manager, Some r)
    end.

(** KeeperStorageSnapshot: the nodes in the order of the list, the sessions as they are walked. *)
Definition take_snapshot (s : storage) (meta : M) (nodes : list (str * Node)) (sessions : list (Z * Z)) : KeeperStorageSnapshot M :=
  mkSnapshot SNAPSHOT_V0 meta (session_id_counter s) nodes sessions.

Definition set_snapshot_mode (s : storage) (mode : bool) : storage :=
  mkStorage (session_id_counter s) (container s) mode (ephemerals s) (sessions_and_watchers s) (session_expiry_queue s)
    (session_and_timeout s) (zxid s) (finalized s) (watches s) (list_watches s).

(** ** Starting *)

(** The period is a number of milliseconds; the manager gets it in microseconds. *)
Definition create_machine (manager_of_tick : Z -> option (result Manager.t)) (period : Z) : option (result machine) :=
  r ← manager_of_tick (period * 1000);
  Some (match r with
        | Ok manager => Ok (mkMachine period None None None 0 manager [] [] 0)
        | Throw e => Throw e
        end).

(** [catch (const DB::Exception &)]: the exceptions of the protocol are derived from it. *)
Definition db_exception (e : exn) : bool := match e with DBException _ | KeeperException _ => true | _ => false end.

(** The snapshot with the largest index: the bytes, and what they hold. *)
Definition load_snapshot (manager : Manager.t) (now idx : Z) : option (option str * result (M * storage)) :=
  match Manager.deserializeSnapshotBufferFromDisk manager idx with
  | Throw e => Some (None, Throw e)
  | Ok buf => r ← deserializeSnapshotFromBuffer manager now buf; Some (Some buf, r)
  end.

Fixpoint init_loop (fuel : nat) (sm : machine) (now : Z) : option (result machine) :=
  let manager := snapshot_manager sm in
  if decide (Manager.totalSnapshots manager = 0%nat) then Some (Ok sm)
  else
    let idx := Manager.getLatestSnapshotIndex manager in
    '(buf, r) ← load_snapshot manager now idx;
    let buf := match buf with Some _ => buf | None => latest_snapshot_buf sm end in
    match r with
    | Ok (meta, s) =>
        Some (Ok (mkMachine (dead_session_check_period_ms sm) (Some meta) buf (Some s) (S (storage_number sm)) manager
                    (responses_queue sm) (snapshots_queue sm) (get_last_log_idx meta)))
    | Throw e =>
        if db_exception e then
          match fuel, Manager.removeSnapshot manager idx with
          | S fuel, Ok manager =>
              init_loop fuel (mkMachine (dead_session_check_period_ms sm) (latest_snapshot_meta sm) buf
                (m_storage sm) (storage_number sm) manager (responses_queue sm) (snapshots_queue sm) (last_committed_idx sm)) now
          | O, _ => None
          | _, Throw e => Some (Throw e)
          end
        else Some (Throw e)
    end.

Definition init (sm : machine) (now : Z) : option (result machine) :=
  r ← init_loop (Manager.totalSnapshots (snapshot_manager sm)) sm now;
  match r with
  | Throw e => Some (Throw e)
  | Ok sm =>
      match m_storage sm with
      | Some _ => Some (Ok sm)
      | None => s ← create_storage (dead_session_check_period_ms sm) now; Some (Ok (with_storage sm (Some s)))
      end
  end.

(** ** Committing *)

(** What committing an entry does to the storage, and the responses it queues. *)
Definition commit_entry (s : storage) (log_idx : Z) (data : str) (env : environment) : option (storage * result (list ResponseForSession)) :=
  r ← parseRequest data;
  match r with
  | Throw e => Some (s, Throw e)
  | Ok (session_id, m) =>
      match body m with
      | SessionIDRequest internal_id session_timeout_ms server_id =>
          '(s, session_id) ← getSessionID s session_timeout_ms (now_ms env);
          Some (s, Ok [(-1, mkResponse 0 0 Err.ZOK (SessionIDResponse internal_id session_id server_id))])
      | _ => processRequest s m session_id (Some log_idx) env
      end
  end.

Definition commit (sm : machine) (log_idx : Z) (data : str) (env : environment) : option (machine * result unit) :=
  s ← m_storage sm;
  '(s, r) ← commit_entry s log_idx data env;
  Some (match r with
        | Ok rs => (with_responses sm (Some s) rs log_idx, Ok tt)
        | Throw e => (with_storage sm (Some s), Throw e)
        end).

Definition processReadRequest (sm : machine) (session_id : Z) (m : zk_message) (env : environment) : option (machine * result unit) :=
  s ← m_storage sm;
  '(s, r) ← processRequest s m session_id None env;
  Some (match r with
        | Ok rs => (with_responses sm (Some s) rs (last_committed_idx sm), Ok tt)
        | Throw e => (with_storage sm (Some s), Throw e)
        end).

Definition machine_getDeadSessions (sm : machine) (now : Z) : option (machine * gset Z) :=
  s ← m_storage sm;
  '(s, dead) ← getDeadSessions s now;
  Some (with_storage sm (Some s), dead).

Definition shutdownStorage (sm : machine) : option (machine * result unit) :=
  s ← m_storage sm;
  let '(s, r) := finalize s in Some (with_storage sm (Some s), r).

(** ** Snapshots *)

(** The metadata is copied through its bytes. *)
Definition create_snapshot (sm : machine) (meta : M) (nodes : list (str * Node)) (sessions : list (Z * Z)) : option (machine * result unit) :=
  match meta_deserialize (meta_serialize meta) with
  | Throw e => Some (sm, Throw e)
  | Ok meta =>
      s ← m_storage sm;
      Some (mkMachine (dead_session_check_period_ms sm) (latest_snapshot_meta sm) (latest_snapshot_buf sm)
              (Some (set_snapshot_mode s true)) (storage_number sm) (snapshot_manager sm) (responses_queue sm)
              (snapshots_queue sm ++ [(storage_number sm, take_snapshot s meta nodes sessions)]) (last_committed_idx sm), Ok tt)
  end.

(** The task at the head of the queue; the result is what [when_done] gets. *)
Definition run_snapshot_task (sm : machine) : option (machine * bool) :=
  match snapshots_queue sm with
  | [] => None
  | (number, snapshot) :: tasks =>
      s ← m_storage sm;
      let sm := mkMachine (dead_session_check_period_ms sm) (latest_snapshot_meta sm) (latest_snapshot_buf sm)
                  (Some (set_snapshot_mode s false)) (storage_number sm) (snapshot_manager sm) (responses_queue sm)
                  tasks (last_committed_idx sm) in
      if decide (number <> storage_number sm) then None
      else
        match serializeSnapshotToBuffer snapshot with
        | Throw _ => Some (sm, false)
        | Ok buf =>
            r ← Manager.serializeSnapshotBufferToDisk (snapshot_manager sm) buf (get_last_log_idx (snapshot_meta snapshot));
            Some (match r with
                  | Ok manager => (with_snapshot sm (snapshot_meta snapshot) buf manager, true)
                  | Throw _ => (sm, false)
                  end)
        end
  end.

Definition apply_snapshot (sm : machine) (meta : M) (now : Z) : option (machine * result bool) :=
  latest ← latest_snapshot_meta sm;
  if decide (get_last_log_idx meta <> get_last_log_idx latest)
  then Some (sm, Throw (DBException ErrorCodes.LOGICAL_ERROR))
  else
    buf ← latest_snapshot_buf sm;
    r ← deserializeSnapshotFromBuffer (snapshot_manager sm) now buf;
    Some (match r with
          | Ok (meta', s) =>
              (mkMachine (dead_session_check_period_ms sm) (Some meta') (latest_snapshot_buf sm) (Some s) (S (storage_number sm))
                 (snapshot_manager sm) (responses_queue sm) (snapshots_queue sm) (get_last_log_idx meta), Ok true)
          | Throw e => (sm, Throw e)
          end).

(** An object of a snapshot the leader sends: for the first one the storage of this server is written. *)
Definition save_logical_snp_obj (sm : machine) (meta : M) (obj_id : Z) (data : str) (nodes : list (str * Node)) (sessions : list (Z * Z))
    : option (machine * result Z) :=
  s ← m_storage sm;
  let cloned_buffer := if decide (obj_id = 0)
                       then serializeSnapshotToBuffer (take_snapshot s (new_metadata (get_last_log_idx meta)) nodes sessions)
                       else Ok data in
  let sm := with_storage sm (Some (if decide (obj_id = 0) then set_snapshot_mode s false else s)) in
  match cloned_buffer with
  | Throw e => Some (sm, Throw e)
  | Ok buf =>
      match meta_deserialize (meta_serialize meta) with
      | Throw e => Some (sm, Throw e)
      | Ok meta =>
          r ← Manager.serializeSnapshotBufferToDisk (snapshot_manager sm) buf (get_last_log_idx meta);
          Some (match r with
                | Ok manager => (with_snapshot sm meta buf manager, Ok (wrap 64 (obj_id + 1)))
                | Throw _ => (sm, Ok obj_id)
                end)
      end
  end.

(** The bytes of an object and whether it is the last one; [None] inside is -1. *)
Definition read_logical_snp_obj (sm : machine) (meta : M) (obj_id : Z) : option (option (str * bool)) :=
  if decide (obj_id = 0) then Some (Some (write_le 4 0, false))
  else
    latest ← latest_snapshot_meta sm;
    if decide (get_last_log_idx meta <> get_last_log_idx latest) then Some None
    else buf ← latest_snapshot_buf sm; Some (Some (buf, true)).

End machine.
Arguments machine : clear implicits.
