(* ===== verification/KeeperReplica.v ===== *)
(** * KeeperReplica: what the replicas of the coordination service agree on

    The reference is a deterministic machine over the committed requests: the tree of
    [KeeperTree] without the times of its nodes, the timeouts of the sessions and the
    number of the next session.  A replica that commits entries of the log, with its own
    clock and its own order of walking sets, goes through the states of the reference
    and gives its answers, up to times and the order of names. *)

From S2P Require Import Prelude TextFormat WalRecord Wire ZooKeeper SessionQueue SnapshotTable KeeperStorage KeeperTree KeeperSession KeeperSnapshot KeeperSnapshotFiles KeeperStateMachine.
Import Storage.

Local Open Scope Z_scope.

(** ** Without times *)

Definition untime (a : tnode) : tnode :=
  mkT (t_data a) (t_acls a) (t_sequental a) (t_czxid a) (t_mzxid a) 0 0 (t_version a) (t_cversion a) (t_aversion a)
    (t_owner a) (t_pzxid a) (t_seq a).

Definition untime_stat (s : Stat) : Stat :=
  mkStat (czxid s) (mzxid s) 0 0 (st_version s) (cversion s) (aversion s) (ephemeralOwner s) (dataLength s) (numChildren s) (pzxid s).

(** The names of children are a set. *)
Fixpoint untime_body (b : zk_response_body) : zk_response_body :=
  match b with
  | ExistsResponse s => ExistsResponse (untime_stat s)
  | GetResponse d s => GetResponse d (untime_stat s)
  | SetResponse s => SetResponse (untime_stat s)
  | ListResponse names s => ListResponse (elements (list_to_set names : gset str)) (untime_stat s)
  | MultiResponse l => MultiResponse (map (fun eb => (eb.1, untime_body eb.2)) l)
  | _ => b
  end.

Definition untime_answer (a : answer) : answer := (a.1, untime_body a.2).

(** ** The reference *)

Record rstate : Type := mkR { r_tree : tree; r_timeouts : gmap Z Z; r_counter : Z }.

Definition owned (T : tree) (session : Z) : gset str := dom (filter (fun pa => t_owner pa.2 = session) T).

(** Changes below a node, [k] times. *)
Definition touched_times (k : nat) (a : tnode) : tnode :=
  mkT (t_data a) (t_acls a) (t_sequental a) (t_czxid a) (t_mzxid a) (t_ctime a) (t_mtime a)
    (t_version a) (t_cversion a + Z.of_nat k) (t_aversion a) (t_owner a) (t_pzxid a) (t_seq a).

(** The nodes of a session go, and count as changes below their parents. *)
Definition tree_close (T : tree) (session : Z) : tree :=
  map_imap (fun p a => if decide (t_owner a = session) then None
                       else Some (touched_times (size (filter (fun q => parentPath q = p) (owned T session))) a)) T.

Definition ref_read (T : tree) (p : str) (f : tnode -> zk_response_body) (none : zk_response_body) : answer :=
  match T !! p with
  | None => (Err.ZNONODE, none)
  | Some a => (Err.ZOK, f a)
  end.

Definition ref_request (T : tree) (r : zk_request) (zxid session : Z) : tree * answer :=
  match r with
  | HeartbeatRequest => (T, (Err.ZOK, HeartbeatResponse))
  | SyncRequest path => (T, (Err.ZOK, SyncResponse path))
  | AuthRequest _ _ _ => (T, (Err.ZOK, AuthResponse))
  | CloseRequest => (tree_close T session, (Err.ZOK, CloseResponse))
  | ExistsRequest p _ => (T, ref_read T p (fun a => ExistsResponse (stat_of T p a)) (ExistsResponse zero_stat))
  | GetRequest p _ => (T, ref_read T p (fun a => GetResponse (t_data a) (stat_of T p a)) (GetResponse [] zero_stat))
  | ListRequest _ p _ =>
      (T, ref_read T p (fun a => ListResponse (elements (children_of T p)) (stat_of T p a)) (ListResponse [] zero_stat))
  | MultiRequest rs =>
      match concrete_requests rs with
      | Ok qs => tree_multi T qs zxid session (fun _ => 0)
      | Throw _ => (T, (Err.ZBADARGUMENTS, ErrorResponse))
      end
  | _ =>
      match concrete_request r with
      | Ok q => tree_step T q zxid session 0
      | Throw _ => (T, (Err.ZBADARGUMENTS, ErrorResponse))
      end
  end.

(** A committed request: its effect and its answer. *)
Definition ref_commit (R : rstate) (idx session : Z) (m : zk_message) : rstate * ResponseForSession :=
  match body m with
  | SessionIDRequest internal timeout server =>
      (mkR (r_tree R) (<[r_counter R := timeout]> (r_timeouts R)) (r_counter R + 1),
       (-1, mkResponse 0 0 Err.ZOK (SessionIDResponse internal (r_counter R) server)))
  | r =>
      let timeouts := <[session := default 0 (r_timeouts R !! session)]> (r_timeouts R) in
      let '(T, (error, b)) := ref_request (r_tree R) r idx session in
      (mkR T (match r with CloseRequest => delete session timeouts | _ => timeouts end) (r_counter R),
       (session, mkResponse (xid m) idx error b))
  end.

(** What a replica shows of its storage. *)
Definition shown (s : storage) : rstate := mkR (untime ∘ strip <$> container s) (session_and_timeout s) (session_id_counter s).
Definition shown_answer (a : ResponseForSession) : ResponseForSession :=
  (a.1, mkResponse (r_xid a.2) (r_zxid a.2) (r_error a.2) (untime_body (r_body a.2))).

(** ** Times do not matter to requests *)

Lemma untime_touched k : untime ∘ touched k = touched k ∘ untime.
Proof. done. Qed.

Lemma untime_alter (k : Z) (p : str) (T : tree) : untime <$> alter (touched k) p T = alter (touched k) p (untime <$> T).
Proof.
  apply map_eq. intros q. rewrite lookup_fmap. destruct (decide (q = p)) as [->|Hne].
  - rewrite !lookup_alter_eq, lookup_fmap. by destruct (T !! p).
  - by rewrite !lookup_alter_ne, lookup_fmap by done.
Qed.

Lemma children_untime (T : tree) (p : str) : children_of (untime <$> T) p = children_of T p.
Proof. apply children_of_dom. apply dom_fmap_L. Qed.

Lemma stat_untime (T : tree) (p : str) (a : tnode) : stat_of (untime <$> T) p (untime a) = untime_stat (stat_of T p a).
Proof. unfold stat_of. rewrite children_untime. done. Qed.

Lemma step_untime (T : tree) (q : StorageRequest) (zxid session now : Z) (T' : tree) (a : answer) :
  tree_step T q zxid session now = (T', a) -> tree_step (untime <$> T) q zxid session 0 = (untime <$> T', untime_answer a).
Proof.
  destruct q as [path d eph sq|path v|path d v|path v]; cbn [tree_step]; rewrite !lookup_fmap.
  - destruct (T !! path); cbn [fmap option_fmap option_map]; [by intros [= <- <-]|].
    destruct (T !! parentPath path) as [par|]; cbn [fmap option_fmap option_map]; [|by intros [= <- <-]].
    change (t_owner (untime par)) with (t_owner par). case_decide; [by intros [= <- <-]|]. intros [= <- <-]. by rewrite !fmap_insert.
  - destruct (T !! path) as [a0|]; cbn [fmap option_fmap option_map]; [|by intros [= <- <-]].
    change (version_ok v (untime a0)) with (version_ok v a0). destruct (version_ok v a0); cbn [negb]; [|by intros [= <- <-]].
    rewrite children_untime. case_decide; [by intros [= <- <-]|]. intros [= <- <-]. by rewrite fmap_delete, untime_alter.
  - destruct (T !! path) as [a0|]; cbn [fmap option_fmap option_map]; [|by intros [= <- <-]].
    change (version_ok v (untime a0)) with (version_ok v a0). destruct (version_ok v a0); [|by intros [= <- <-]].
    intros [= <- <-]. rewrite untime_alter, fmap_insert. unfold untime_answer. cbn [fst snd untime_body]. by rewrite <- stat_untime.
  - destruct (T !! path) as [a0|]; cbn [fmap option_fmap option_map]; [|by intros [= <- <-]].
    change (version_ok v (untime a0)) with (version_ok v a0). by intros [= <- <-].
Qed.

Lemma failed_untime l n : failed_responses (map untime_answer l) n = map untime_answer (failed_responses l n).
Proof. unfold failed_responses. rewrite map_app, !map_map. f_equal. induction n as [|n IH]; [done|]. cbn [replicate map]. by rewrite <- IH. Qed.

Lemma steps_untime (qs : list StorageRequest) (T : tree) (zxid session : Z) (clock : nat -> Z) (processed : list answer) :
  tree_steps (untime <$> T) qs zxid session (fun _ => 0) (map untime_answer processed)
  = ((fun T : tree => untime <$> T) <$> (tree_steps T qs zxid session clock processed).1, map untime_answer (tree_steps T qs zxid session clock processed).2).
Proof.
  revert T processed. induction qs as [|q qs IH]; intros T processed; cbn [tree_steps]; [done|].
  destruct (tree_step T q zxid session (clock (length processed))) as [T1 a] eqn:E. rewrite (step_untime _ _ _ _ _ _ _ E).
  change ((untime_answer a).1) with a.1. rewrite <- (map_app untime_answer processed [a] : _ = map untime_answer processed ++ [untime_answer a]).
  case_decide; [|apply IH]. cbn [fst snd]. by rewrite failed_untime.
Qed.

Lemma multi_untime (qs : list StorageRequest) (T T' : tree) (zxid session : Z) (clock : nat -> Z) (a : answer) :
  tree_multi T qs zxid session clock = (T', a) -> tree_multi (untime <$> T) qs zxid session (fun _ => 0) = (untime <$> T', untime_answer a).
Proof.
  unfold tree_multi. pose proof (steps_untime qs T zxid session clock []) as H. cbn [map] in H. rewrite H.
  destruct (tree_steps T qs zxid session clock []) as [T1 l]. cbn [fst snd]. intros [= <- <-]. destruct T1; done.
Qed.

Lemma room_untime (T : tree) : room (untime <$> T) -> room T.
Proof.
  intros H p a Ha. assert (Hu : (untime <$> T) !! p = Some (untime a)) by (by rewrite lookup_fmap, Ha). apply H in Hu. by rewrite children_untime in Hu.
Qed.

Lemma good_untime (T : tree) (session : Z) (q : StorageRequest) : good (untime <$> T) session q -> good T session q.
Proof.
  intros [Hr H]. split; [by apply room_untime|]. destruct q as [path d eph sq|path v|path d v|path v]; try done. destruct H as [H1 H2]. split; [done|].
  rewrite lookup_fmap in H2. destruct (T !! parentPath path) as [par|]; [|done]. cbn [fmap option_fmap option_map] in H2. destruct H2 as [H2 H3]. split; [done|].
  intros Hs. specialize (H3 Hs). rewrite lookup_fmap in H3. by apply fmap_None in H3.
Qed.

Lemma good_all_untime (qs : list StorageRequest) (T : tree) (zxid session : Z) (clock : nat -> Z) (i : nat) :
  good_all (untime <$> T) qs zxid session (fun _ => 0) i -> good_all T qs zxid session clock i.
Proof.
  revert T i. induction qs as [|q qs IH]; intros T i; cbn [good_all]; [done|]. intros [Hg Hrest]. split; [by apply good_untime|].
  destruct (tree_step T q zxid session (clock i)) as [T1 a] eqn:E. rewrite (step_untime _ _ _ _ _ _ _ E) in Hrest. intros Ha. apply IH. by apply Hrest.
Qed.

(** ** Reading *)

Lemma stat_consistent (c : Container) (e : Ephemerals) (p : str) (n : Node) :
  consistent c e -> c !! p = Some n -> stat n = stat_of (strip <$> c) p (strip n).
Proof.
  intros HC Hn. destruct (ok_node _ _ HC _ _ Hn) as [H1 H2 H3 _]. unfold stat_of. rewrite children_strip, <- H1, <- H2.
  change (t_data (strip n)) with (data n). rewrite <- H3. by destruct n as [? ? ? [] ? ?].
Qed.

Lemma no_empty_path (c : Container) (e : Ephemerals) : consistent c e -> c !! [] = None.
Proof.
  intros HC. destruct (c !! []) eqn:E; [|done]. destruct (ok_path _ _ HC []) as [[_ Hv] _]; [by eexists|done|]. by vm_compute in Hv.
Qed.

Lemma shown_lookup (c : Container) (p : str) : (untime ∘ strip <$> c) !! p = untime ∘ strip <$> c !! p.
Proof. apply lookup_fmap. Qed.

Lemma shown_stat (c : Container) (e : Ephemerals) (p : str) (n : Node) :
  consistent c e -> c !! p = Some n -> stat_of (untime ∘ strip <$> c) p (untime (strip n)) = untime_stat (stat n).
Proof. intros HC Hn. rewrite map_fmap_compose, stat_untime. by rewrite <- (stat_consistent c e p n HC Hn). Qed.

Definition close_ok (T : tree) (session : Z) : Prop :=
  forall p a, T !! p = Some a -> - 2 ^ 31 <= t_seq a < 2 ^ 31 /\ - 2 ^ 31 <= t_cversion a
    /\ t_cversion a + Z.of_nat (size (owned T session)) < 2 ^ 31 /\ Z.of_nat (size (children_of T p)) < 2 ^ 31.

(** A request the storage is made for, in the state of the reference. *)
Definition good_ref (T : tree) (r : zk_request) (zxid session : Z) : Prop :=
  match r with
  | CloseRequest => close_ok T session
  | MultiRequest rs => match concrete_requests rs with Ok qs => good_all T qs zxid session (fun _ => 0) 0 | Throw _ => False end
  | _ => match concrete_request r with Ok q => good T session q | Throw _ => True end
  end.

Lemma read_refines (c : Container) (e : Ephemerals) (p : str) (f : Node -> zk_response_body) (g : tnode -> zk_response_body) (none : zk_response_body) :
  (forall n, c !! p = Some n -> g (untime (strip n)) = untime_body (f n)) -> untime_body none = none ->
  ref_read (untime ∘ strip <$> c) p g none = untime_answer (match c !! p with None => (Err.ZNONODE, none) | Some n => (Err.ZOK, f n) end).
Proof.
  intros H Hn. unfold ref_read. rewrite shown_lookup. destruct (c !! p) as [n|]; cbn; unfold untime_answer; cbn [fst snd]; [by rewrite H|by rewrite Hn].
Qed.

Lemma single_refines (s : storage) (q : StorageRequest) (session now : Z) :
  consistent (container s) (ephemerals s) -> good (untime ∘ strip <$> container s) session q ->
  exists c e a, ('(c, e, a, _) ← process (snapshot_mode s) q (zxid s) session now (container s) (ephemerals s); Some (Ok (c, e, a))) = Some (Ok (c, e, a) : result (Container * Ephemerals * answer))
    /\ consistent c e /\ tree_step (untime ∘ strip <$> container s) q (zxid s) session 0 = (untime ∘ strip <$> c, untime_answer a).
Proof.
  intros HC HG. rewrite map_fmap_compose in HG |- *. apply good_untime in HG.
  destruct (process_refines (snapshot_mode s) q (zxid s) session now _ _ HC HG) as (c & e & a & u & -> & Ht & HC' & _).
  exists c, e, a. split; [done|]. split; [done|]. rewrite map_fmap_compose. by apply (step_untime _ _ _ _ now).
Qed.

(** The handlers of all requests but the end of a session. *)
Lemma run_request_refines (s : storage) (r : zk_request) (session : Z) (env : environment) :
  consistent (container s) (ephemerals s) -> order_ok env -> good_ref (untime ∘ strip <$> container s) r (zxid s) session ->
  match r with CloseRequest | SessionIDRequest _ _ _ => False | _ => True end ->
  exists c e a, run_request s r session env = Some (Ok (c, e, a)) /\ consistent c e
    /\ ref_request (untime ∘ strip <$> container s) r (zxid s) session = (untime ∘ strip <$> c, untime_answer a).
Proof.
  intros HC Ho HG Hr.
  assert (Hread : forall a T', ref_request (untime ∘ strip <$> container s) r (zxid s) session = (T', untime_answer a) ->
    run_request s r session env = Some (Ok (container s, ephemerals s, a)) -> T' = untime ∘ strip <$> container s ->
    exists c e a, run_request s r session env = Some (Ok (c, e, a)) /\ consistent c e
      /\ ref_request (untime ∘ strip <$> container s) r (zxid s) session = (untime ∘ strip <$> c, untime_answer a)).
  { intros a T' H1 H2 ->. eauto 10. }
  destruct r as [|path|? ? ?| |path d eph sq acls|path v|path hw|path hw|path d v|simple path hw|path v|rs|? ? ?]; cbn [good_ref concrete_request] in HG; try done.
  - by eapply (Hread (Err.ZOK, HeartbeatResponse)).
  - by eapply (Hread (Err.ZOK, SyncResponse path)).
  - by eapply (Hread (Err.ZOK, AuthResponse)).
  - by apply single_refines.
  - by apply single_refines.
  - apply (Hread (process_exists path (container s)) (untime ∘ strip <$> container s)); [|done|done]. cbn [ref_request]. f_equal.
    apply (read_refines _ (ephemerals s) path (fun n => ExistsResponse (stat n))); [|done]. intros n Hn. cbn [untime_body]. by rewrite (shown_stat _ (ephemerals s)).
  - apply (Hread (process_get path (container s)) (untime ∘ strip <$> container s)); [|done|done]. cbn [ref_request]. f_equal.
    apply (read_refines _ (ephemerals s) path (fun n => GetResponse (data n) (stat n))); [|done]. intros n Hn. cbn [untime_body]. by rewrite (shown_stat _ (ephemerals s)).
  - by apply single_refines.
  - assert (Hl : exists a, process_list (set_order env) path (container s) = Ok a
      /\ ref_read (untime ∘ strip <$> container s) path (fun a => ListResponse (elements (children_of (untime ∘ strip <$> container s) path)) (stat_of (untime ∘ strip <$> container s) path a)) (ListResponse [] zero_stat) = untime_answer a).
    { unfold process_list. destruct (container s !! path) as [n|] eqn:Hn.
      - rewrite decide_False by (intros ->; by rewrite (no_empty_path _ _ HC) in Hn). eexists. split; [done|].
        rewrite (read_refines _ (ephemerals s) path (fun n => ListResponse (set_order env (children n)) (stat n))); [by rewrite Hn| |done].
        intros n' Hn'. cbn [untime_body]. rewrite (shown_stat _ (ephemerals s)) by done. destruct (ok_node _ _ HC _ _ Hn') as [H1 _ _ _].
        rewrite map_fmap_compose, children_untime, children_strip, <- H1. f_equal. f_equal. apply set_eq. intros x. by rewrite elem_of_list_to_set, (Ho (children n')), elem_of_elements.
      - eexists. split; [done|]. unfold ref_read. by rewrite shown_lookup, Hn. }
    destruct Hl as (a & Hp & Ha). eapply (Hread a); [cbn [ref_request]; by rewrite Ha| |done]. cbn [run_request]. by rewrite Hp.
  - by apply single_refines.
  - cbn [run_request ref_request]. destruct (concrete_requests rs) as [qs|x]; [|done]. rewrite map_fmap_compose in HG |- *.
    apply (good_all_untime _ _ _ _ (op_now_ms env)) in HG.
    destruct (multi_implements (snapshot_mode s) qs (zxid s) session (op_now_ms env) _ _ HC HG) as (c & e & a & -> & Ht & HC' & _).
    exists c, e, a. split; [done|]. split; [done|]. rewrite map_fmap_compose. by apply (multi_untime _ _ _ _ _ (op_now_ms env)).
Qed.

(** ** The end of a session *)

Lemma adjust_strip dnum f n n' : adjust 0 1 dnum f n = Some n' -> strip n' = touched_times 1 (strip n).
Proof.
  unfold adjust, int32. destruct (in_signed 32 (seq_num n + 0)); [|done]. destruct (in_signed 32 (cversion (stat n) + 1)); [|done].
  destruct (in_signed 32 (numChildren (stat n) + dnum)); [|done]. cbn. intros [= <-]. unfold strip, touched_times. cbn. f_equal. lia.
Qed.

Lemma touched_times_add j k a : touched_times j (touched_times k a) = touched_times (k + j) a.
Proof. unfold touched_times. cbn. f_equal. lia. Qed.

Lemma touched_times_0 a : touched_times 0 a = a.
Proof. destruct a. unfold touched_times. cbn. f_equal. lia. Qed.

Lemma close_lookup (paths : list str) (c c' : Container) (w lw w' lw' : Watches) (rs : list ResponseForSession) :
  close_ephemerals paths c w lw = Some (c', w', lw', rs) -> NoDup paths -> (forall q, q ∈ paths -> parentPath q ∉ paths) ->
  forall p, (strip <$> c') !! p = if decide (p ∈ paths) then None
                                 else touched_times (length (filter (fun q => parentPath q = p) paths)) <$> (strip <$> c) !! p.
Proof.
  revert c w lw rs. induction paths as [|path paths IH]; intros c w lw rs; cbn [close_ephemerals].
  { intros [= <- _ _ _] _ _ p. rewrite decide_False by apply not_elem_of_nil. cbn. destruct ((strip <$> c) !! p); cbn; [by rewrite touched_times_0|done]. }
  unfold updateValue. destruct (delete path c !! parentPath path) as [par|] eqn:Hpar; [|done]. cbn [mbind option_bind].
  destruct (adjust 0 1 (-1) (erase_name (getBaseName path)) par) as [par'|] eqn:Hadj; [|done]. cbn [mbind option_bind]. apply adjust_strip in Hadj.
  destruct (processWatchesImpl path DELETED w lw) as [[r1 w1] lw1]. destruct (close_ephemerals paths _ w1 lw1) as [[[[c2 w2] lw2] rest]|] eqn:Hc; [|done].
  cbn [mbind option_bind]. intros [= <- <- <- _] [Hnot Hnd]%NoDup_cons Hpp p.
  assert (Hne : parentPath path <> path) by (intros E; apply (Hpp path); [left|rewrite E; left]).
  rewrite (IH _ _ _ _ Hc Hnd) by (intros q Hq Hin; apply (Hpp q); by right). rewrite lookup_delete_ne in Hpar by congruence.
  destruct (decide (p = path)) as [->|Hp].
  - rewrite (decide_True (P := path ∈ path :: paths)) by left. rewrite decide_False by done. rewrite lookup_fmap, lookup_insert_ne, lookup_delete_eq by done. done.
  - assert (Hiff : p ∈ path :: paths <-> p ∈ paths) by (rewrite elem_of_cons; tauto).
    destruct (decide (p ∈ paths)) as [Hin|Hin]; [by rewrite decide_True by tauto|]. rewrite decide_False by tauto. rewrite !lookup_fmap.
    destruct (decide (p = parentPath path)) as [->|Hx].
    + rewrite lookup_insert_eq, Hpar, filter_cons_True by done. cbn [fmap option_fmap option_map length]. by rewrite Hadj, touched_times_add.
    + rewrite lookup_insert_ne, lookup_delete_ne by done. by rewrite filter_cons_False by done.
Qed.

Lemma elem_of_owned (T : tree) (session : Z) (p : str) : p ∈ owned T session <-> exists a, T !! p = Some a /\ t_owner a = session.
Proof. unfold owned. rewrite elem_of_dom. unfold is_Some. setoid_rewrite map_lookup_filter_Some. done. Qed.

Lemma owned_paths (c : Container) (e : Ephemerals) (session : Z) :
  consistent c e -> session <> 0 -> owned (untime ∘ strip <$> c) session = paths_of e session.
Proof.
  intros HC Hs. apply set_eq. intros p. rewrite elem_of_owned, (ok_eph _ _ HC). setoid_rewrite shown_lookup. split.
  - intros (a & Ha & Ho). destruct (c !! p) as [n|]; [|done]. injection Ha as <-. eauto.
  - intros (_ & n & -> & Ho). eauto.
Qed.

Lemma parent_not_owned (c : Container) (e : Ephemerals) (session : Z) (q : str) :
  consistent c e -> q ∈ paths_of e session -> parentPath q ∉ paths_of e session.
Proof.
  intros HC (Hs & n & Hn & Ho)%(ok_eph _ _ HC) (_ & par & Hpar & Hpo)%(ok_eph _ _ HC).
  assert (Hroot : q <> root) by (intros ->; destruct (ok_root _ _ HC) as (r & Hr & Hro); congruence).
  pose proof (base_in_children c e q HC ltac:(by eexists) Hroot) as Hin. destruct (ok_node _ _ HC _ _ Hpar) as [H1 _ _ H4].
  rewrite <- H1, H4 in Hin by congruence. set_solver.
Qed.

Lemma count_filter (P : str -> Prop) `{!forall x, Decision (P x)} (X : gset str) (l : list str) : l ≡ₚ elements X -> length (filter P l) = size (filter P X).
Proof.
  intros Hl. unfold size, set_size. cbn. apply Permutation_length. apply NoDup_Permutation.
  - apply NoDup_filter. rewrite Hl. apply NoDup_elements.
  - apply NoDup_elements.
  - intros x. by rewrite list_elem_of_filter, Hl, !elem_of_elements, elem_of_filter.
Qed.

Lemma close_walk (c c' : Container) (e : Ephemerals) (session : Z) (paths : list str) (w lw w' lw' : Watches) (rs : list ResponseForSession) :
  consistent c e -> session <> 0 -> paths ≡ₚ elements (paths_of e session) -> close_ephemerals paths c w lw = Some (c', w', lw', rs) ->
  untime ∘ strip <$> c' = tree_close (untime ∘ strip <$> c) session.
Proof.
  intros HC Hs Hp Hc. assert (Hin : forall p, p ∈ paths <-> p ∈ paths_of e session) by (intros p; by rewrite Hp, elem_of_elements).
  pose proof (close_lookup _ _ _ _ _ _ _ _ Hc) as Hl. specialize (Hl ltac:(rewrite Hp; apply NoDup_elements)).
  specialize (Hl ltac:(intros q Hq; rewrite Hin in Hq |- *; by apply (parent_not_owned c e))).
  apply map_eq. intros p. rewrite map_fmap_compose, lookup_fmap, Hl. unfold tree_close. rewrite map_lookup_imap, shown_lookup, (owned_paths c e session HC Hs).
  rewrite (count_filter _ _ _ Hp), lookup_fmap. pose proof (ok_eph _ _ HC session p) as Heph. destruct (c !! p) as [n|] eqn:Hn; cbn.
  - change (t_owner (untime (strip n))) with (ephemeralOwner (stat n)). destruct (decide (ephemeralOwner (stat n) = session)) as [Ho|Ho].
    + rewrite decide_True; [done|]. apply Hin, Heph. eauto.
    + rewrite decide_False; [done|]. rewrite Hin, Heph. intros (_ & n' & [= <-] & Ho'). done.
  - by case_decide.
Qed.

Lemma close_refines (s s' : storage) (session : Z) (env : environment) (fired : list ResponseForSession) :
  consistent (container s) (ephemerals s) -> session <> 0 -> order_ok env -> close_nodes s session env = Some (s', fired) ->
  untime ∘ strip <$> container s' = tree_close (untime ∘ strip <$> container s) session.
Proof.
  intros HC Hs Ho. unfold close_nodes. destruct (ephemerals s !! session) as [paths|] eqn:He.
  - destruct (close_ephemerals (set_order env paths) (container s) (watches s) (list_watches s)) as [[[[c w] lw] rs]|] eqn:Hc; [|done]. cbn. intros [= <- _].
    cbn. apply (close_walk (container s) c (ephemerals s) session (set_order env paths) (watches s) (list_watches s) w lw rs); [done|done| |done].
    unfold paths_of. rewrite He. apply Ho.
  - intros [= <- _]. apply (close_walk (container s) (container s) (ephemerals s) session [] (watches s) (list_watches s) (watches s) (list_watches s) []); [done|done| |done].
    unfold paths_of. rewrite He. cbn. by rewrite elements_empty.
Qed.

Lemma close_room_ref (s : storage) (session : Z) :
  consistent (container s) (ephemerals s) -> session <> 0 -> close_ok (untime ∘ strip <$> container s) session ->
  close_room (size (paths_of (ephemerals s) session)) (container s).
Proof.
  intros HC Hs Hok p n Hn. specialize (Hok p (untime (strip n))). rewrite shown_lookup, Hn in Hok. specialize (Hok eq_refl).
  rewrite (owned_paths _ _ _ HC Hs), map_fmap_compose, children_untime, children_strip in Hok. destruct (ok_node _ _ HC _ _ Hn) as [H1 H2 _ _].
  rewrite <- H1, <- H2 in Hok. cbn in Hok. lia.
Qed.

(** Requests leave the sessions, the expiry queue and the number of the transaction alone. *)
Definition same_sessions (s s' : storage) : Prop :=
  session_and_timeout s' = session_and_timeout s /\ session_id_counter s' = session_id_counter s
  /\ session_expiry_queue s' = session_expiry_queue s /\ zxid s' = zxid s.

Lemma register_watch_frame (s : storage) (r : zk_request) (session error : Z) :
  same_sessions s (register_watch s r session error) /\ container (register_watch s r session error) = container s.
Proof.
  unfold register_watch. destruct (has_watch r); [|done]. destruct (decide (error = Err.ZOK)); [by destruct r|]. by destruct (decide (_ /\ _)).
Qed.

Lemma process_other_run (s : storage) (m : zk_message) (session : Z) (env : environment) (c : Container) (e : Ephemerals) (error : Z) (b : zk_response_body) :
  storage_ok s -> run_request s (body m) session env = Some (Ok (c, e, (error, b))) -> consistent c e ->
  exists s' fired, process_other s m session env = Some (s', Ok (fired ++ [(session, mkResponse (xid m) (zxid s) error b)]))
    /\ storage_ok s' /\ same_sessions s s' /\ container s' = c.
Proof.
  intros HS Hrun HC. unfold process_other. rewrite Hrun. cbn [mbind option_bind]. cbv zeta.
  set (s1 := register_watch (with_tree s c e) (body m) session error).
  assert (HS1 : storage_ok s1) by (apply register_watch_ok; split; [done|apply HS]). destruct HS1 as [HC1 HW1].
  destruct (register_watch_frame (with_tree s c e) (body m) session error) as [(F1 & F2 & F3 & F4) Fc]. fold s1 in F1, F2, F3, F4, Fc.
  destruct (if decide (error = Err.ZOK) then _ else _) as [[fired w] lw] eqn:Hf.
  exists (with_watches s1 w lw (sessions_and_watchers s1)), fired. split; [cbn; by rewrite F4|]. split; [|done].
  split; cbn; [done|]. apply (watches_ok_fewer (watches s1) (list_watches s1)); [..|done].
  - destruct (decide (error = Err.ZOK)); [by apply request_fewer in Hf as [? _]|by injection Hf as _ <- _].
  - destruct (decide (error = Err.ZOK)); [by apply request_fewer in Hf as [_ ?]|by injection Hf as _ _ <-].
Qed.

Lemma process_other_refines (s : storage) (m : zk_message) (session : Z) (env : environment) :
  storage_ok s -> order_ok env -> good_ref (untime ∘ strip <$> container s) (body m) (zxid s) session ->
  match body m with CloseRequest | SessionIDRequest _ _ _ => False | _ => True end ->
  exists s' fired error b, process_other s m session env = Some (s', Ok (fired ++ [(session, mkResponse (xid m) (zxid s) error b)]))
    /\ storage_ok s' /\ same_sessions s s'
    /\ ref_request (untime ∘ strip <$> container s) (body m) (zxid s) session = (untime ∘ strip <$> container s', (error, untime_body b)).
Proof.
  intros HS Ho HG Hr. destruct (run_request_refines s (body m) session env (so_tree _ HS) Ho HG Hr) as (c & e & [error b] & Hrun & HC & Href).
  destruct (process_other_run s m session env c e error b HS Hrun HC) as (s' & fired & Hp & HS' & Hf & <-). by exists s', fired, error, b.
Qed.

Lemma clear_frame (s : storage) (session : Z) :
  same_sessions s (clearDeadWatches s session) /\ container (clearDeadWatches s session) = container s.
Proof. unfold clearDeadWatches. by destruct (sessions_and_watchers s !! session). Qed.

Lemma close_nodes_frame (s s' : storage) (session : Z) (env : environment) (fired : list ResponseForSession) :
  close_nodes s session env = Some (s', fired) -> same_sessions s s'.
Proof.
  unfold close_nodes. destruct (ephemerals s !! session) as [paths|]; [|by intros [= <- _]].
  destruct (close_ephemerals _ _ _ _) as [[[[c w] lw] rs]|]; [|done]. by intros [= <- _].
Qed.

Lemma remove_interval q session : SessionExpiryQueue.expiration_interval (SessionExpiryQueue.remove q session).1 = SessionExpiryQueue.expiration_interval q.
Proof. unfold SessionExpiryQueue.remove. by destruct (_ !! session). Qed.

Lemma process_close_refines (s : storage) (session xid : Z) (env : environment) :
  storage_ok s -> session <> 0 -> order_ok env -> close_ok (untime ∘ strip <$> container s) session ->
  exists s' fired, process_close s session xid env = Some (s', fired ++ [(session, mkResponse xid (zxid s) Err.ZOK CloseResponse)])
    /\ storage_ok s' /\ zxid s' = zxid s /\ session_id_counter s' = session_id_counter s
    /\ SessionExpiryQueue.expiration_interval (session_expiry_queue s') = SessionExpiryQueue.expiration_interval (session_expiry_queue s)
    /\ session_and_timeout s' = delete session (session_and_timeout s)
    /\ untime ∘ strip <$> container s' = tree_close (untime ∘ strip <$> container s) session.
Proof.
  intros HS Hs Ho Hok. assert (HC := so_tree _ HS).
  destruct (process_close_ok s session xid env HS Hs Ho (close_room_ref s session HC Hs Hok)) as (s' & fired & Hp & HS' & _).
  exists s', fired. split; [done|]. split; [done|]. unfold process_close in Hp.
  destruct (close_nodes s session env) as [[s1 f]|] eqn:Hn; [|done]. cbn [mbind option_bind] in Hp. injection Hp as <- _.
  destruct (close_nodes_frame _ _ _ _ _ Hn) as (F1 & F2 & F3 & F4). destruct (clear_frame s1 session) as [(G1 & G2 & G3 & G4) Gc].
  cbn. rewrite remove_interval. repeat split; try congruence.
  transitivity (untime ∘ strip <$> container s1); [by rewrite Gc|by apply (close_refines s s1 session env f)].
Qed.

(** ** Committing *)

Section replica.
(** Ticks of the expiry queue, the largest timeout of a session, and the end of time. *)
Context (interval max_timeout horizon : Z).
Context (Hinterval : 0 < interval) (Hmax : 0 <= max_timeout) (Hhor : horizon + max_timeout + interval < 2 ^ 63).

Definition clock_ok (env : environment) : Prop := 0 <= now_ms env <= horizon /\ order_ok env.

Record replica_ok (idx : Z) (s : storage) : Prop := {
  rp_storage : storage_ok s;
  rp_zxid : zxid s <= idx;
  rp_interval : 0 < SessionExpiryQueue.expiration_interval (session_expiry_queue s) <= interval
}.

Definition timeouts_ok (R : rstate) : Prop := map_Forall (fun _ timeout => 0 <= timeout <= max_timeout) (r_timeouts R).

(** An entry that the leader may put into the log after the state [R]. *)
Definition entry_ok (R : rstate) (idx session : Z) (m : zk_message) : Prop :=
  in_signed 64 session = true /\ in_signed 32 (xid m) = true /\ valid_request (body m)
  /\ match body m with
     | SessionIDRequest _ timeout _ => 0 <= timeout <= max_timeout /\ in_signed 64 (r_counter R + 1) = true /\ r_timeouts R !! r_counter R = None
     | r => session <> 0 /\ good_ref (r_tree R) r idx session
     end.

Lemma timeouts_insert R session t : timeouts_ok R -> 0 <= t <= max_timeout -> map_Forall (fun _ timeout => 0 <= timeout <= max_timeout) (<[session := t]> (r_timeouts R)).
Proof. intros H Ht. by apply map_Forall_insert_2. Qed.

Lemma default_timeout R session : timeouts_ok R -> 0 <= default 0 (r_timeouts R !! session) <= max_timeout.
Proof. intros H. destruct (r_timeouts R !! session) as [t|] eqn:E; cbn; [by apply (H session)|lia]. Qed.

Lemma queue_defined (s : storage) (idx session t : Z) (env : environment) :
  replica_ok idx s -> 0 <= t <= max_timeout -> clock_ok env ->
  exists q b, SessionExpiryQueue.update (session_expiry_queue s) session t (now_ms env) = Some (q, b) /\ 0 < SessionExpiryQueue.expiration_interval q <= interval.
Proof.
  intros [_ _ Hi] Ht [Hn _]. destruct (update_defined (session_expiry_queue s) session t (now_ms env)) as (q & b & Hq & Hqi); [lia..|].
  exists q, b. split; [done|]. by rewrite Hqi.
Qed.

Lemma session_refines (s : storage) (idx session : Z) (m : zk_message) (env : environment) (internal timeout server : Z) :
  replica_ok (idx - 1) s -> timeouts_ok (shown s) -> clock_ok env -> body m = SessionIDRequest internal timeout server ->
  0 <= timeout <= max_timeout -> in_signed 64 (session_id_counter s + 1) = true -> session_and_timeout s !! session_id_counter s = None ->
  exists s', getSessionID s timeout (now_ms env) = Some (s', session_id_counter s) /\ replica_ok idx s'
    /\ shown s' = (ref_commit (shown s) idx session m).1 /\ timeouts_ok (shown s').
Proof.
  intros HR HT Hc Hb Ht Hcnt Hnone. unfold getSessionID, SessionExpiryQueue.int64. rewrite Hcnt. cbn [mbind option_bind]. unfold addSessionID. cbn [session_expiry_queue with_sessions].
  destruct (queue_defined s _ (session_id_counter s) timeout env HR Ht Hc) as (q & b & -> & Hq). cbn [mbind option_bind session_and_timeout with_sessions].
  rewrite decide_False by (rewrite Hnone; by intros [? ?]). eexists. split; [done|]. destruct HR as [HS Hz Hi]. split; [split; [by destruct HS|cbn; lia|done]|].
  unfold ref_commit. rewrite Hb. split; [done|]. by apply (timeouts_insert (shown s)).
Qed.

(** The storage with the transaction and the touch of the session. *)
Definition touch (s : storage) (idx session : Z) (q : SessionExpiryQueue.t) : storage :=
  with_sessions (with_zxid s idx) (session_id_counter s) q (<[session := default 0 (session_and_timeout s !! session)]> (session_and_timeout s)).

Lemma body_cases (r : zk_request) : r = CloseRequest \/ r = HeartbeatRequest \/ r <> CloseRequest /\ r <> HeartbeatRequest.
Proof. destruct r; auto; right; right; done. Qed.

Lemma request_refines (s : storage) (last idx session : Z) (m : zk_message) (env : environment) :
  replica_ok last s -> last < idx -> timeouts_ok (shown s) -> clock_ok env ->
  match body m with SessionIDRequest _ _ _ => False | _ => True end -> session <> 0 -> good_ref (r_tree (shown s)) (body m) idx session ->
  exists s' fired a, processRequest s m session (Some idx) env = Some (s', Ok (fired ++ [a])) /\ replica_ok idx s'
    /\ (shown s', shown_answer a) = ref_commit (shown s) idx session m.
Proof.
  intros HR Hlt HT Hc Hb Hs HG. assert (Ho : order_ok env) by apply Hc. unfold processRequest. rewrite bool_decide_eq_false_2 by (destruct HR; lia).
  cbn [session_and_timeout session_expiry_queue with_zxid].
  destruct (queue_defined s _ session _ env HR (default_timeout (shown s) session HT) Hc) as (q & b & Hq & Hqi). cbn [shown r_timeouts] in Hq. rewrite Hq.
  cbn [mbind option_bind session_id_counter with_zxid]. change (with_sessions _ _ _ _) with (touch s idx session q).
  assert (HS : storage_ok (touch s idx session q)) by (destruct HR as [HS _ _]; destruct HS; by split).
  destruct (body_cases (body m)) as [Ec|[Eh|[Ec Eh]]].
  - rewrite Ec in HG |- *. destruct (process_close_refines (touch s idx session q) session (xid m) env HS Hs Ho HG)
      as (s' & fired & -> & HS' & Hz & Hcnt & Hi & Htm & Htr). cbn [mbind option_bind].
    exists s', fired. eexists. split; [done|]. split; [split; [done|rewrite Hz; done|by rewrite Hi]|].
    unfold ref_commit. rewrite Ec. cbn [ref_request]. unfold shown at 1. by rewrite Htr, Htm, Hcnt.
  - rewrite Eh. exists (touch s idx session q), []. eexists. split; [done|]. split; [by split|]. unfold ref_commit. by rewrite Eh.
  - assert (Hw : match body m with CloseRequest | SessionIDRequest _ _ _ => False | _ => True end) by (by destruct (body m)).
    destruct (process_other_refines (touch s idx session q) m session env HS Ho HG Hw) as (s' & fired & error & rb & Hp & HS' & (F1 & F2 & F3 & F4) & Href).
    assert (Hgoal : (shown s', shown_answer (session, mkResponse (xid m) idx error rb)) = ref_commit (shown s) idx session m).
    { cbn [zxid touch with_sessions with_zxid container] in Href. change (untime ∘ strip <$> container s) with (r_tree (shown s)) in Href. unfold ref_commit. unfold shown at 1. rewrite F1, F2.
      destruct (body m) eqn:Eb; try done; by rewrite Href. }
    exists s', fired. eexists. split; [|split; [split; [done|by rewrite F4|by rewrite F3]|done]]. by destruct (body m).
Qed.

(** Committing an entry is a step of the reference. *)
Lemma commit_entry_refines (s : storage) (last idx session : Z) (m : zk_message) (env : environment) :
  replica_ok last s -> last < idx -> timeouts_ok (shown s) -> clock_ok env -> entry_ok (shown s) idx session m ->
  exists s' fired a, commit_entry s idx (getZooKeeperLogEntry session m) env = Some (s', Ok (fired ++ [a])) /\ replica_ok idx s'
    /\ (shown s', shown_answer a) = ref_commit (shown s) idx session m.
Proof.
  intros HR Hlt HT Hc (H1 & H2 & H3 & H4). unfold commit_entry. rewrite parse_log_entry by done. cbn [mbind option_bind].
  destruct (body m) eqn:Eb; try (rewrite <- Eb in H4; destruct H4 as [Hs HG]; apply request_refines with last; try done; by rewrite Eb).
  destruct H4 as (Ht & Hcnt & Hn).
  destruct (session_refines s idx session m env _ _ _ ltac:(destruct HR; split; [done|lia|done]) HT Hc Eb Ht Hcnt Hn) as (s' & -> & HR' & Hsh & _).
  cbn [mbind option_bind]. exists s', []. eexists. split; [done|]. split; [done|]. rewrite Hsh. unfold ref_commit. by rewrite Eb.
Qed.

(** A request that only reads leaves what the replica shows as it is. *)
Lemma read_runs (s : storage) (r : zk_request) (session : Z) (env : environment) :
  consistent (container s) (ephemerals s) -> isReadRequest r = true ->
  exists error b, run_request s r session env = Some (Ok (container s, ephemerals s, (error, b))).
Proof.
  intros HC Hr. destruct r; try done; cbn [run_request concrete_request process].
  - destruct (process_exists path (container s)) as [error b]. by exists error, b.
  - destruct (process_get path (container s)) as [error b]. by exists error, b.
  - unfold process_list. destruct (container s !! path) as [n|] eqn:Hn; [|by eexists _, _].
    rewrite decide_False by (intros ->; by rewrite (no_empty_path _ _ HC) in Hn). by eexists _, _.
  - destruct (process_check path version (container s)) as [error b]. by exists error, b.
Qed.

Lemma read_keeps (s : storage) (last session : Z) (m : zk_message) (env : environment) :
  replica_ok last s -> timeouts_ok (shown s) -> clock_ok env -> isReadRequest (body m) = true -> is_Some (session_and_timeout s !! session) ->
  exists s' fired error b, processRequest s m session None env = Some (s', Ok (fired ++ [(session, mkResponse (xid m) (zxid s) error b)]))
    /\ replica_ok last s' /\ shown s' = shown s
    /\ (good_ref (r_tree (shown s)) (body m) (zxid s) session -> (ref_request (r_tree (shown s)) (body m) (zxid s) session).2 = (error, untime_body b)).
Proof.
  intros HR HT Hc Hr Hlive. unfold processRequest.
  destruct (queue_defined s _ session _ env HR (default_timeout (shown s) session HT) Hc) as (q & qb & Hq & Hqi). cbn [shown r_timeouts] in Hq. rewrite Hq.
  cbn [mbind option_bind]. set (s1 := with_sessions _ _ _ _).
  assert (HS : storage_ok s1) by (destruct HR as [HS _ _]; destruct HS; by split).
  assert (Hsame : session_and_timeout s1 = session_and_timeout s) by (destruct Hlive as [t Ht]; cbn; rewrite Ht; by apply insert_id).
  destruct (read_runs s1 (body m) session env (so_tree _ HS) Hr) as (error & b & Hrun).
  destruct (process_other_run s1 m session env _ _ error b HS Hrun (so_tree _ HS)) as (s' & fired & Hp & HS' & (F1 & F2 & F3 & F4) & Hcs).
  exists s', fired, error, b. split; [by destruct (body m)|]. split; [split; [done|rewrite F4; apply HR|by rewrite F3]|].
  split; [unfold shown; by rewrite F1, F2, Hcs, Hsame|]. intros HG.
  assert (Hw : match body m with CloseRequest | SessionIDRequest _ _ _ => False | _ => True end) by (by destruct (body m)).
  destruct (run_request_refines s1 (body m) session env (so_tree _ HS) (proj2 Hc) HG Hw) as (c & e & [er b'] & Hrun' & _ & Href).
  rewrite Hrun in Hrun'. injection Hrun' as <- <- <- <-. cbn in Href |- *. by rewrite Href.
Qed.
End replica.
