(* ===== verification/KeeperCluster.v ===== *)
(** * KeeperCluster: the servers of the coordination service over one log

    The machines of [KeeperStateMachine] that servers of a cluster can be in, when the Raft
    library gives all of them the same log: starting, committing, reading, taking
    snapshots, sending them to other servers, crashing and starting again.  Each is the
    reference of [KeeperReplica] after the entries it has committed. *)

From S2P Require Import Prelude TextFormat WalRecord Wire ZooKeeper SessionQueue SnapshotTable KeeperStorage KeeperTree KeeperSession KeeperSnapshot KeeperSnapshotFiles KeeperStateMachine KeeperReplica.
Import Storage.

Local Open Scope Z_scope.

Lemma fits_int64 z : 0 <= z < 2 ^ 63 -> in_signed 64 z = true.
Proof. intros H. unfold in_signed. change (2 ^ (64 - 1)) with (2 ^ 63). rewrite (proj2 (Z.leb_le _ _)), (proj2 (Z.ltb_lt _ _)) by lia. done. Qed.

Lemma list_to_map_perm {V : Type} (l : list (Z * V)) (m : gmap Z V) : l ≡ₚ map_to_list m -> NoDup l.*1 /\ list_to_map l = m.
Proof.
  intros H. assert (Hnd : NoDup l.*1) by (rewrite H; apply NoDup_fst_map_to_list). split; [done|].
  apply map_eq. intros k. apply option_eq. intros v. rewrite <- elem_of_list_to_map by done. rewrite H. by rewrite elem_of_map_to_list.
Qed.
Lemma list_to_map_perm_str {V : Type} (l : list (str * V)) (m : gmap str V) : l ≡ₚ map_to_list m -> NoDup l.*1 /\ list_to_map l = m.
Proof.
  intros H. assert (Hnd : NoDup l.*1) by (rewrite H; apply NoDup_fst_map_to_list). split; [done|].
  apply map_eq. intros k. apply option_eq. intros v. rewrite <- elem_of_list_to_map by done. rewrite H. by rewrite elem_of_map_to_list.
Qed.

(** ** The log *)

Section log.
Context (max_timeout : Z) (Hmax : 0 <= max_timeout) (log : list (Z * zk_message)).

Definition ref_initial : rstate := mkR {[root := untime (strip new_node)]} ∅ 1.

(** The reference after [n] entries; the first entry has index 1. *)
Fixpoint ref_at (n : nat) : rstate :=
  match n with
  | O => ref_initial
  | S n => match log !! n with
           | Some (session, m) => (ref_commit (ref_at n) (Z.of_nat (S n)) session m).1
           | None => ref_at n
           end
  end.

Definition log_ok : Prop :=
  forall n session m, log !! n = Some (session, m) -> entry_ok max_timeout (ref_at n) (Z.of_nat (S n)) session m.

Lemma ref_timeouts R idx session m :
  timeouts_ok max_timeout R -> entry_ok max_timeout R idx session m -> timeouts_ok max_timeout (ref_commit R idx session m).1.
Proof.
  intros HT (_ & _ & _ & He). unfold ref_commit.
  assert (Hk : timeouts_ok max_timeout (mkR ∅ (<[session := default 0 (r_timeouts R !! session)]> (r_timeouts R)) 0))
    by (by apply timeouts_insert, default_timeout).
  destruct (body m); try (destruct (ref_request _ _ _ _) as [T [error b]]; exact Hk).
  - destruct (ref_request _ _ _ _) as [T [error b]]. apply map_Forall_delete. exact Hk.
  - destruct He as [Ht _]. by apply (timeouts_insert max_timeout R).
Qed.

Lemma timeouts_at n : log_ok -> timeouts_ok max_timeout (ref_at n).
Proof.
  intros Hlog. induction n as [|n IH]; cbn [ref_at]; [by apply map_Forall_empty|].
  destruct (log !! n) as [[session m]|] eqn:E; [|done]. apply ref_timeouts; [done|by apply Hlog].
Qed.

(** No node is newer than the last entry. *)
Definition written_by (T : tree) (idx : Z) : Prop := forall p a, T !! p = Some a -> 0 <= t_mzxid a <= idx.

Lemma written_alter T idx p f : written_by T idx -> (forall a, t_mzxid (f a) = t_mzxid a) -> written_by (alter f p T) idx.
Proof.
  intros H Hf q a. rewrite lookup_alter. case_decide; [|by apply H]. subst. intros (b & Hb & ->)%fmap_Some. rewrite Hf. by eapply H.
Qed.
Lemma written_insert T idx p a : written_by T idx -> 0 <= t_mzxid a <= idx -> written_by (<[p := a]> T) idx.
Proof. intros H Ha q b [[<- <-]|[_ Hb]]%lookup_insert_Some; [done|by eapply H]. Qed.
Lemma written_delete T idx p : written_by T idx -> written_by (delete p T) idx.
Proof. intros H q b [_ Hb]%lookup_delete_Some. by eapply H. Qed.

Lemma written_step T q idx session now : 0 <= idx -> written_by T idx -> written_by (tree_step T q idx session now).1 idx.
Proof.
  intros Hi H. destruct q as [path d eph sq|path v|path d v|path v]; cbn [tree_step].
  - destruct (T !! path); [done|]. destruct (T !! parentPath path) as [par|] eqn:Ep; [|done]. case_decide; [done|]. cbn.
    repeat apply written_insert; try done; cbn; try lia. by eapply H.
  - destruct (T !! path); [|done]. destruct (negb _); [done|]. case_decide; [done|]. cbn. apply written_delete. by apply written_alter.
  - destruct (T !! path); [|done]. destruct (version_ok _ _); [|done]. cbn. apply written_alter; [|done]. apply written_insert; [done|]. cbn. lia.
  - destruct (T !! path); [|done]. by destruct (version_ok _ _).
Qed.

Lemma written_steps qs T idx session clock processed :
  0 <= idx -> written_by T idx -> written_by (default T (tree_steps T qs idx session clock processed).1) idx.
Proof.
  intros Hi H0. assert (Hg : forall T' processed, written_by T' idx -> written_by (default T (tree_steps T' qs idx session clock processed).1) idx).
  { clear processed. induction qs as [|q qs IH]; intros T' processed H; cbn [tree_steps]; [done|].
    pose proof (written_step T' q idx session (clock (length processed)) Hi H) as H1. destruct (tree_step T' q idx session _) as [T1 a]. cbn [fst] in H1.
    case_decide; [done|]. by apply IH. }
  by apply Hg.
Qed.

Lemma written_close T idx session : written_by T idx -> written_by (tree_close T session) idx.
Proof. intros H p a. unfold tree_close. rewrite map_lookup_imap. destruct (T !! p) as [b|] eqn:E; [|done]. cbn. case_decide; [done|]. intros [= <-]. by apply (H p b). Qed.

Lemma written_request T r idx session : 0 <= idx -> written_by T idx -> written_by (ref_request T r idx session).1 idx.
Proof.
  intros Hi H. destruct r as [| | | | | | | | | | |rs|]; cbn [ref_request concrete_request]; try exact H; try (by apply written_step); [by apply written_close|].
  destruct (concrete_requests rs) as [qs|]; [|done]. pose proof (written_steps qs T idx session (fun _ => 0) [] Hi H) as H1.
  unfold tree_multi. by destruct (tree_steps T qs idx session _ []) as [T' rs'].
Qed.

Lemma written_commit R idx session m : 0 <= idx -> written_by (r_tree R) idx -> written_by (r_tree (ref_commit R idx session m).1) idx.
Proof.
  intros Hi H. unfold ref_commit. pose proof (written_request (r_tree R) (body m) idx session Hi H) as H1.
  destruct (body m); try exact H; destruct (ref_request (r_tree R) _ idx session) as [T [error b]]; exact H1.
Qed.

Lemma written_at n : written_by (r_tree (ref_at n)) (Z.of_nat n).
Proof.
  induction n as [|n IH]; cbn [ref_at]; [intros p a Hp; unfold ref_initial in Hp; cbn [r_tree] in Hp; apply lookup_singleton_Some in Hp as [_ <-]; done|].
  assert (IH' : written_by (r_tree (ref_at n)) (Z.of_nat (S n))) by (intros p a Hp; specialize (IH p a Hp); lia).
  destruct (log !! n) as [[session m]|]; [|done]. by apply written_commit; [lia|].
Qed.
End log.

(** ** The servers *)

Section cluster.
Context {M : Type} `{!SnapshotMetadata M} `{!NewMetadata M} `{!SnapshotCodec}.
Context (period max_timeout horizon : Z) (path : str) (keep : Z) (order : Manager.directory -> list str) (log : list (Z * zk_message)).

(** A restored storage has the tick in microseconds. *)
Abbreviation interval := (period * 1000) (only parsing).

Context (Hperiod : 0 < period) (Hmax : 0 <= max_timeout) (Hhor0 : 0 <= horizon) (Hhor : horizon + max_timeout + interval < 2 ^ 63).
Context (Hpath : path_ok path) (Hkeep : 0 < keep) (Horder : forall d, order d ≡ₚ elements (dom d)).
Context (Hlog : log_ok max_timeout log) (Hlen : Z.of_nat (length log) < 2 ^ 63).

Definition is_state (n : nat) (s : storage) : Prop := replica_ok interval (Z.of_nat n) s /\ shown s = ref_at log n.

Definition is_time (now : Z) : Prop := 0 <= now <= horizon.

(** The bytes of a snapshot of the state after [n] entries. *)
Definition restores (b : str) (n : nat) : Prop :=
  forall manager now, Manager.storage_tick_time manager = interval -> is_time now ->
  exists (meta : M) s, deserializeSnapshotFromBuffer manager now b = Some (Ok (meta, s)) /\ get_last_log_idx meta = Z.of_nat n /\ is_state n s.

(** The values of a storage fit the widths they have in a snapshot. *)
Record fits (s : storage) (meta : M) : Prop := {
  ft_nodes : forall p n, container s !! p = Some n -> short p /\ snapshot_node_ok n;
  ft_meta : Z.of_nat (length (meta_serialize meta)) < 2 ^ 63;
  ft_counter : in_signed 64 (session_id_counter s) = true;
  ft_size : Z.of_nat (size (container s)) < 2 ^ 64;
  ft_ids : forall id timeout, session_and_timeout s !! id = Some timeout -> in_signed 64 id = true;
  ft_session_size : Z.of_nat (size (session_and_timeout s)) < 2 ^ 64
}.

Lemma create_storage_defined tick now :
  0 < tick <= interval -> is_time now ->
  exists s, create_storage tick now = Some s /\ SessionExpiryQueue.expiration_interval (session_expiry_queue s) = tick.
Proof.
  intros Ht Hn. unfold is_time in Hn. unfold create_storage, SessionExpiryQueue.create. rewrite (round_tick tick horizon) by lia. cbn [mbind option_bind]. by eexists.
Qed.

Lemma state_writable s meta n now :
  is_state n s -> fits s meta -> Z.of_nat n <= get_last_log_idx meta -> is_time now -> writable s meta interval now.
Proof.
  intros [HR Hsh] [F1 F2 F3 F4 F5 F6] Hm Hn. unfold is_time in Hn. split; try done.
  - intros p x Hx. destruct (F1 p x Hx) as [? ?]. split; [done|]. split; [done|].
    pose proof (written_at log n p (untime (strip x))) as Hw. rewrite <- Hsh in Hw. cbn [shown r_tree] in Hw. rewrite shown_lookup, Hx in Hw.
    specialize (Hw eq_refl). cbn in Hw. unfold wrap. pose proof (Z.mod_le (mzxid (stat x)) (2 ^ 64)). lia.
  - intros id timeout Ht. pose proof (timeouts_at max_timeout Hmax log n Hlog) as HT. rewrite <- Hsh in HT. specialize (HT id timeout Ht). cbn in HT.
    split; [by eapply F5|]. cbn. split; [apply fits_int64; lia|lia].
Qed.

(** A snapshot of a storage is restored to what the storage shows, with the index of the metadata. *)
Lemma snapshot_bytes s meta nodes sessions n :
  is_state n s -> fits s meta -> Z.of_nat n <= get_last_log_idx meta ->
  nodes ≡ₚ map_to_list (container s) -> sessions ≡ₚ map_to_list (session_and_timeout s) ->
  exists b, serializeSnapshotToBuffer (take_snapshot s meta nodes sessions) = Ok b
    /\ forall manager now, Manager.storage_tick_time manager = interval -> is_time now ->
       exists s', deserializeSnapshotFromBuffer manager now b = Some (Ok (meta, s')) /\ replica_ok interval (get_last_log_idx meta) s' /\ shown s' = shown s.
Proof.
  intros HS HF Hm Hn Hs. assert (Hst := HS). destruct Hst as [HR _]. assert (HC := so_tree _ (rp_storage _ _ _ HR)).
  apply list_to_map_perm_str in Hn as [Hn1 Hn2]. apply list_to_map_perm in Hs as [Hs1 Hs2].
  assert (Hds : forall now, is_time now -> exists w s', serialize (take_snapshot s meta nodes sessions) = Ok w /\
    ('(s0) ← create_storage interval now; deserialize s0 now w) = Some (Ok (meta, s', [])) /\ replica_ok interval (get_last_log_idx meta) s' /\ shown s' = shown s).
  { intros now Hnow. destruct (create_storage_defined interval now) as (s0 & Hcr & _); [lia|done|].
    destruct (deserialize_serialize s meta nodes sessions interval now s0 [] HC (state_writable s meta n now HS HF Hm Hnow) ltac:(lia) Hn1 Hn2 Hs1 Hs2 Hcr)
      as (w & s' & Hw & Hd & E1 & E2 & E3 & E4 & E5 & E6 & E7 & E8). rewrite app_nil_r in Hd. exists w, s'. split; [done|]. rewrite Hcr. split; [done|]. split.
    - split; [split|lia|lia].
      + rewrite E1. by rewrite E2.
      + rewrite E6, E7. intros q x [Hx|Hx]; by apply not_elem_of_nil in Hx.
    - unfold shown. by rewrite E1, E3, E4. }
  destruct (Hds 0) as (w & _ & Hw & _); [unfold is_time; lia|]. unfold serializeSnapshotToBuffer. rewrite Hw. eexists. split; [done|].
  intros manager now Ht Hnow. destruct (Hds now Hnow) as (w' & s' & Hw' & Hd & HR' & Hsh). rewrite Hw in Hw'. injection Hw' as <-.
  exists s'. split; [|done]. unfold deserializeSnapshotFromBuffer. rewrite decompress_compress, Ht.
  destruct (create_storage interval now) as [s0|]; [|done]. cbn [mbind option_bind] in Hd |- *. by rewrite Hd.
Qed.

Lemma snapshot_restores_state s meta nodes sessions n :
  is_state n s -> fits s meta -> get_last_log_idx meta = Z.of_nat n ->
  nodes ≡ₚ map_to_list (container s) -> sessions ≡ₚ map_to_list (session_and_timeout s) ->
  exists b, serializeSnapshotToBuffer (take_snapshot s meta nodes sessions) = Ok b /\ restores b n.
Proof.
  intros HS HF Hm Hn Hs. destruct (snapshot_bytes s meta nodes sessions n HS HF ltac:(lia) Hn Hs) as (b & Hb & Hr). exists b. split; [done|].
  intros manager now Ht Hnow. destruct (Hr manager now Ht Hnow) as (s' & -> & HR & Hsh). exists meta, s'. split; [done|]. split; [done|].
  rewrite Hm in HR. split; [done|]. rewrite Hsh. apply HS.
Qed.

(** ** The files *)

(** Every snapshot on disk is one of the state after as many entries as its index says. *)
Definition good_files (R : gmap Z str) : Prop :=
  forall i b, R !! i = Some b -> exists n, i = Z.of_nat n /\ (n <= length log)%nat /\ restores b n.

Record files_ok (m : Manager.t) (R : gmap Z str) : Prop := {
  fl_path : Manager.snapshots_path m = path;
  fl_keep : Manager.snapshots_to_keep m = keep;
  fl_tick : Manager.storage_tick_time m = interval;
  fl_stored : stored m R;
  fl_good : good_files R;
  fl_empty : R = ∅ -> Manager.dir m = ∅ /\ Manager.existing_snapshots m = ∅
}.

(** The newest snapshot stays. *)
Lemma newest_max (k : Z) (R : gmap Z str) i : 0 < k -> is_Some (R !! i) -> exists j, i <= j /\ is_Some (newest k R !! j).
Proof.
  intros Hk. remember (size (newer R i)) as sz eqn:Hsz. revert i Hsz. induction (lt_wf sz) as [sz _ IH]. intros i -> Hi.
  destruct (decide (newer R i = ∅)) as [He|Hne].
  - exists i. split; [lia|]. destruct Hi as [b Hb]. exists b. unfold newest. apply map_lookup_filter_Some. split; [done|]. cbn. rewrite He, size_empty. lia.
  - apply set_choose_L in Hne as [j Hj]. unfold newer in Hj. apply elem_of_filter in Hj as [Hlt Hj]. apply elem_of_dom in Hj.
    destruct (IH (size (newer R j))) with (i := j) as (k' & H1 & H2); [|done|done|exists k'; split; [lia|done]].
    apply subset_size. unfold newer. split; [intros x; rewrite !elem_of_filter; intros [? ?]; split; [lia|done]|].
    intros Hs. specialize (Hs j). rewrite !elem_of_filter, elem_of_dom in Hs. destruct Hs; [done|lia].
Qed.

Lemma good_newest R : good_files R -> good_files (newest keep R).
Proof. intros HG i b Hb. apply (HG i b). unfold newest in Hb. by apply map_lookup_filter_Some in Hb as [? _]. Qed.

Lemma newest_empty R : newest keep R = ∅ -> R = ∅.
Proof.
  intros Hn. destruct (decide (R = ∅)) as [|Hne]; [done|]. apply map_choose in Hne as (i & b & Hb).
  destruct (newest_max keep R i Hkeep ltac:(by eexists)) as (j & _ & Hj). rewrite Hn, lookup_empty in Hj. by destruct Hj.
Qed.

Lemma good_insert R n b : good_files R -> (n <= length log)%nat -> restores b n -> good_files (<[Z.of_nat n := b]> R).
Proof. intros HG Hn Hb i x [[<- <-]|[_ Hx]]%lookup_insert_Some; [by exists n|by apply HG]. Qed.

(** Saving bytes under an index, whatever was there under this index *)
Lemma save_stored m R i b :
  stored m R -> Manager.snapshots_path m = path -> Manager.snapshots_to_keep m = keep -> Manager.storage_tick_time m = interval -> 0 < i < 2 ^ 64 ->
  exists m', Manager.serializeSnapshotBufferToDisk m b i = Some (Ok m') /\ stored m' (newest keep (<[i := b]> R))
    /\ Manager.snapshots_path m' = path /\ Manager.snapshots_to_keep m' = keep /\ Manager.storage_tick_time m' = interval.
Proof.
  intros F4 F1 F2 F3 Hi.
  destruct (remove_outdated_spec (Manager.totalSnapshots (Manager.add_snapshot m b i)) (Manager.add_snapshot m b i) (<[i := b]> R))
    as (m' & Hm' & HS' & Heq); [apply add_stored; [done|lia]|cbn; lia|done|].
  exists m'. split; [exact Hm'|]. change (Manager.snapshots_to_keep (Manager.add_snapshot m b i)) with (Manager.snapshots_to_keep m) in HS'. rewrite F2 in HS'.
  split; [done|]. by rewrite Heq.
Qed.

Lemma save_over m R n b :
  stored m R -> Manager.snapshots_path m = path -> Manager.snapshots_to_keep m = keep -> Manager.storage_tick_time m = interval ->
  good_files (delete (Z.of_nat n) R) -> (0 < n <= length log)%nat -> restores b n ->
  exists m', Manager.serializeSnapshotBufferToDisk m b (Z.of_nat n) = Some (Ok m') /\ files_ok m' (newest keep (<[Z.of_nat n := b]> R)).
Proof.
  intros F4 F1 F2 F3 F5 Hn Hb. destruct (save_stored m R (Z.of_nat n) b F4 F1 F2 F3 ltac:(lia)) as (m' & Hm' & HS & E1 & E2 & E3). exists m'. split; [done|].
  split; [done..| |intros Hz%newest_empty; by apply insert_non_empty in Hz].
  apply good_newest. rewrite <- insert_delete_eq. by apply good_insert; [|lia|].
Qed.

Lemma good_delete R i : good_files R -> good_files (delete i R).
Proof. intros HG j b [_ Hb]%lookup_delete_Some. by apply (HG j b). Qed.

Lemma save_ok m R n b :
  files_ok m R -> (0 < n <= length log)%nat -> restores b n ->
  exists m', Manager.serializeSnapshotBufferToDisk m b (Z.of_nat n) = Some (Ok m') /\ files_ok m' (newest keep (<[Z.of_nat n := b]> R)).
Proof. intros [F1 F2 F3 F4 F5 F6] Hn Hb. by apply save_over; [..|apply good_delete| |]. Qed.

(** ** What holds of every server *)

Record follows (sm : machine M) : Prop := {
  fo_range : 0 <= last_committed_idx sm <= Z.of_nat (length log);
  fo_state : exists s, m_storage sm = Some s /\ is_state (Z.to_nat (last_committed_idx sm)) s;
  fo_files : exists R, files_ok (snapshot_manager sm) R;
  fo_latest : forall meta b, latest_snapshot_meta sm = Some meta -> latest_snapshot_buf sm = Some b ->
    exists n, get_last_log_idx meta = Z.of_nat n /\ (0 < n <= length log)%nat /\ restores b n;
  fo_tasks : Forall (fun task => exists n b, get_last_log_idx (snapshot_meta task.2) = Z.of_nat n /\ (0 < n <= length log)%nat
    /\ serializeSnapshotToBuffer task.2 = Ok b /\ restores b n) (snapshots_queue sm)
}.

(** The constructor of KeeperServer and [init] of its state machine, over the directory. *)
Definition start (d : Manager.directory) (now : Z) : option (result (machine M)) :=
  r ← create_machine (fun tick => Manager.create path keep tick d (order d)) period;
  match r with
  | Throw e => Some (Throw e)
  | Ok sm => init sm now
  end.

(** The snapshot with the largest index is the one loaded first. *)
Lemma largest_first m R i b :
  stored m R -> R !! i = Some b -> (forall j, is_Some (R !! j) -> j <= i) ->
  Manager.totalSnapshots m <> 0%nat /\ Manager.getLatestSnapshotIndex m = i /\ Manager.deserializeSnapshotBufferFromDisk m i = Ok b.
Proof.
  intros [H1 H2 H3 H4 H5] Hb Hmaxi. pose proof (H1 i ltac:(by eexists)) as Hi.
  assert (Hex : Manager.existing_snapshots m !! i = Some (Manager.getSnapshotFileName i)) by (rewrite H2 by lia; by rewrite Hb).
  assert (Hne : Manager.existing_snapshots m <> ∅) by (intros H0; by rewrite H0, lookup_empty in Hex).
  split; [unfold Manager.totalSnapshots; by intros ?%map_size_empty_inv|]. split.
  - unfold Manager.getLatestSnapshotIndex. destruct (last_index_some m Hne) as [j Hj]. destruct (last_index_spec m j Hj) as [Hjs Hmaxj]. rewrite Hj. cbn.
    pose proof (Hmaxj i ltac:(by eexists)) as Hij. rewrite H2, fmap_is_Some in Hjs by lia. specialize (Hmaxi j Hjs). lia.
  - unfold Manager.deserializeSnapshotBufferFromDisk. by rewrite Hex, (H4 _ _ Hb).
Qed.

Lemma largest_exists (R : gmap Z str) : R <> ∅ -> exists i b, R !! i = Some b /\ forall j, is_Some (R !! j) -> j <= i.
Proof.
  intros Hne. apply map_choose in Hne as (i & b & Hb). destruct (newest_max 1 R i ltac:(lia) ltac:(by eexists)) as (j & _ & (x & Hx)).
  unfold newest in Hx. apply map_lookup_filter_Some in Hx as [Hx Hs]. cbn in Hs. exists j, x. split; [done|]. intros k Hk. destruct (Z_le_gt_dec k j); [done|].
  assert (Hin : k ∈ newer R j) by (unfold newer; apply elem_of_filter; split; [lia|by apply elem_of_dom]).
  assert (size (newer R j) <> 0)%nat by (intros ?%size_empty_inv; set_solver). lia.
Qed.

(** The newest snapshot on disk can be loaded. *)
Lemma newest_loads m R now :
  files_ok m R -> R <> ∅ -> is_time now ->
  exists n b (meta : M) s, Manager.totalSnapshots m <> 0%nat /\ Manager.getLatestSnapshotIndex m = Z.of_nat n /\ (0 < n <= length log)%nat
    /\ load_snapshot m now (Z.of_nat n) = Some (Some b, Ok (meta, s)) /\ get_last_log_idx meta = Z.of_nat n /\ restores b n /\ is_state n s
    /\ forall i, is_Some (R !! i) -> i <= Z.of_nat n.
Proof.
  intros [F1 F2 F3 F4 F5 F6] HR Hnow. destruct (largest_exists R HR) as (i & b & Hb & Hmaxi). destruct (F5 i b Hb) as (n & -> & Hn & Hres).
  destruct (largest_first m R _ b F4 Hb Hmaxi) as (Ht & Hi & Hd). destruct (Hres m now F3 Hnow) as (meta & s & Hds & Hmeta & Hst). exists n, b, meta, s.
  split; [done|]. split; [done|]. split; [pose proof (st_range _ _ F4 _ ltac:(by eexists)); lia|]. split; [|done].
  unfold load_snapshot. by rewrite Hd, Hds.
Qed.

Lemma created_state s now : create_storage period now = Some s -> is_state 0 s.
Proof.
  intros Hs. pose proof (create_storage_ok period now s Hs) as Hok. unfold create_storage, SessionExpiryQueue.create in Hs.
  destruct (SessionExpiryQueue.roundToNextInterval period now); [|done]. injection Hs as <-. split; [split; [done|done|cbn; lia]|].
  unfold shown. cbn [container session_and_timeout session_id_counter]. by rewrite map_fmap_singleton.
Qed.

Lemma init_new m R now :
  files_ok m R -> is_time now ->
  exists sm, init (mkMachine period None None None 0 m [] [] 0) now = Some (Ok sm) /\ follows sm
    /\ forall i, is_Some (R !! i) -> i <= last_committed_idx sm.
Proof.
  intros HF Hnow. unfold init. cbn [snapshot_manager]. destruct (decide (R = ∅)) as [HR|HR].
  - destruct (fl_empty _ _ HF HR) as [_ He]. assert (Ht : Manager.totalSnapshots m = 0%nat) by (unfold Manager.totalSnapshots; by rewrite He, map_size_empty).
    rewrite Ht. cbn [init_loop snapshot_manager]. rewrite decide_True by done. cbn [mbind option_bind m_storage dead_session_check_period_ms].
    destruct (create_storage_defined period now) as (s & Hs & Hq); [lia|done|]. rewrite Hs. cbn [mbind option_bind]. eexists. split; [done|]. split.
    + split; cbn; [lia| |by exists R|done|by constructor]. exists s. split; [done|]. by apply (created_state s now).
    + intros i Hi. rewrite HR, lookup_empty in Hi. by destruct Hi.
  - destruct (newest_loads m R now HF HR Hnow) as (n & b & meta & s & Ht & Hi & Hn & Hl & Hmeta & Hres & Hst & Hmaxi).
    destruct (Manager.totalSnapshots m) as [|fuel] eqn:Et; [done|]. cbn [init_loop snapshot_manager]. rewrite Et, decide_False, Hi, Hl by done.
    cbn [mbind option_bind m_storage]. rewrite Hmeta. eexists. split; [done|]. split; [|done].
    split; cbn; [lia| |by exists R| |by constructor].
    + exists s. split; [done|]. by rewrite Nat2Z.id.
    + intros meta' b' [= <-] [= <-]. by exists n.
Qed.

(** ** Starting again *)

Record disk_ok (d : Manager.directory) (R : gmap Z str) : Prop := {
  dk_range : forall i, is_Some (R !! i) -> 0 < i < 2 ^ 64;
  dk_files : forall i b, R !! i = Some b -> d !! Manager.getSnapshotFileName i = Some b;
  dk_others : forall nm, is_Some (d !! nm) -> (exists i, is_Some (R !! i) /\ nm = Manager.getSnapshotFileName i) \/ exists j, nm = Manager.tmp_name (Manager.getSnapshotFileName j);
  dk_good : good_files R;
  dk_empty : R = ∅ -> d = ∅
}.

Lemma create_empty tick names : names ≡ₚ [] -> Manager.create path keep tick ∅ names = Some (Ok (Manager.mk path keep ∅ tick ∅)).
Proof.
  intros ->%Permutation_nil_r. unfold Manager.create. cbn [Manager.scan_directory mbind option_bind]. unfold Manager.removeOutdatedSnapshotsIfNeeded.
  set (m := Manager.mk path keep ∅ tick ∅). assert (Ht : Manager.totalSnapshots m = 0%nat) by (unfold Manager.totalSnapshots, m; cbn; by rewrite map_size_empty).
  rewrite Ht. cbn [Manager.remove_outdated]. rewrite Ht. change (Manager.snapshots_to_keep m) with keep. rewrite Z.gtb_ltb, (proj2 (Z.ltb_ge _ _)) by lia. done.
Qed.

Lemma start_ok d R now :
  disk_ok d R -> is_time now ->
  exists sm, start d now = Some (Ok sm) /\ follows sm /\ forall i, is_Some (R !! i) -> i <= last_committed_idx sm.
Proof.
  intros [D1 D2 D3 D4 D5] Hnow. destruct (create_spec path keep interval d R (order d) Hpath ltac:(lia) (Horder d) D1 D2 D3) as (m & Hm & HS & Heq).
  assert (HF : files_ok m (newest keep R)).
  { rewrite Heq. split; cbn [Manager.snapshots_path Manager.snapshots_to_keep Manager.storage_tick_time]; [done|done|done|by rewrite <- Heq|by apply good_newest|].
    intros Hz%newest_empty%D5. subst d. rewrite create_empty in Hm by (rewrite Horder, dom_empty_L; by rewrite elements_empty). by injection Hm as <-. }
  destruct (init_new m _ now HF Hnow) as (sm & Hi & Hf & Hmaxi). exists sm. split.
  - unfold start, create_machine. rewrite Hm. cbn [mbind option_bind]. exact Hi.
  - split; [done|]. intros i Hi'. destruct (newest_max keep R i Hkeep Hi') as (j & Hj & Hnj). specialize (Hmaxi j Hnj). lia.
Qed.

(** The directory a crash leaves: between the operations of the server, in the middle of the
    temporary file of any snapshot when there is another one, or while the outdated
    snapshots are removed after the one at the head of the queue. *)
Inductive crash_dir (sm : machine M) : Manager.directory -> Prop :=
| crash_idle : crash_dir sm (Manager.dir (snapshot_manager sm))
| crash_writing i b n :
    Manager.existing_snapshots (snapshot_manager sm) <> ∅ ->
    crash_dir sm (Manager.run_file_op (Manager.dir (snapshot_manager sm)) (Manager.FWrite (Manager.tmp_name (Manager.getSnapshotFileName i)) (take n b)))
| crash_removing task tasks b n :
    snapshots_queue sm = task :: tasks -> serializeSnapshotToBuffer task.2 = Ok b ->
    crash_dir sm (Manager.dir (remove_some n (Manager.add_snapshot (snapshot_manager sm) b (get_last_log_idx (snapshot_meta task.2))))).

Lemma stored_disk m R : stored m R -> good_files R -> (R = ∅ -> Manager.dir m = ∅) -> disk_ok (Manager.dir m) R.
Proof. intros [H1 H2 H3 H4 H5] HG HE. by split. Qed.

Lemma crash_disk sm R d :
  follows sm -> files_ok (snapshot_manager sm) R -> crash_dir sm d ->
  exists R', disk_ok d R' /\ forall i, is_Some (R !! i) -> exists j, i <= j /\ is_Some (R' !! j).
Proof.
  intros Hf HF Hd. assert (HF' := HF). destruct HF' as [F1 F2 F3 F4 F5 F6]. destruct Hd as [|i b n Hne|task tasks b n Hq Hb].
  - exists R. split; [apply stored_disk; [done|done|]; intros HR; by destruct (F6 HR)|]. intros i Hi. by exists i.
  - exists R. split; [|intros k Hk; by exists k]. destruct F4 as [H1 H2 H3 H4 H5]. split; cbn [Manager.run_file_op]; [done| | |done|].
    + intros k x Hx. rewrite lookup_insert_ne by apply tmp_ne. by apply H4.
    + intros nm Hnm. destruct (decide (nm = Manager.tmp_name (Manager.getSnapshotFileName i))) as [->|Hx]; [right; by exists i|]. rewrite lookup_insert_ne in Hnm by done. by apply H5.
    + intros HR. destruct (F6 HR). done.
  - pose proof (fo_tasks _ Hf) as Ht. rewrite Hq, Forall_cons in Ht. destruct Ht as [(k & b' & Hk & Hkr & Hb' & Hres) _]. rewrite Hb in Hb'. injection Hb' as <-. rewrite Hk.
    destruct (remove_some_spec n (Manager.add_snapshot (snapshot_manager sm) b (Z.of_nat k)) (<[Z.of_nat k := b]> R)) as (R' & HS' & HR' & Hsub); [apply add_stored; [done|lia]|cbn; lia|].
    cbn [Manager.add_snapshot Manager.with_files Manager.snapshots_to_keep] in HR'. rewrite F2 in HR'. exists R'. split.
    + apply stored_disk; [done| |].
      * intros j x Hx. apply (good_insert R k b F5 ltac:(lia) Hres). by apply (lookup_weaken R').
      * intros ->. exfalso. assert (Hz : newest keep (<[Z.of_nat k := b]> R) = ∅) by (rewrite <- HR'; by rewrite newest_all by (rewrite map_size_empty; lia)).
        apply newest_empty in Hz. by apply insert_non_empty in Hz.
    + intros i Hi. destruct (newest_max keep (<[Z.of_nat k := b]> R) i Hkeep) as (j & Hij & Hj).
      { destruct (decide (i = Z.of_nat k)) as [->|Hx]; [rewrite lookup_insert_eq; by eexists|by rewrite lookup_insert_ne]. }
      exists j. split; [done|]. rewrite <- HR' in Hj. destruct Hj as [x Hx]. unfold newest in Hx. apply map_lookup_filter_Some in Hx as [Hx _]. by eexists.
Qed.

(** ** The states of the servers

    A snapshot is received completely: its first object, for which the server writes its own storage, and the second one, which
    overwrites it.  [half_received_snapshot_loses] is about what lies between. *)

Inductive reachable : machine M -> Prop :=
| server_starts sm now : is_time now -> start ∅ now = Some (Ok sm) -> reachable sm
| server_commits sm sm' env session m :
    reachable sm -> clock_ok horizon env -> log !! Z.to_nat (last_committed_idx sm) = Some (session, m) ->
    commit sm (last_committed_idx sm + 1) (getZooKeeperLogEntry session m) env = Some (sm', Ok tt) -> reachable sm'
| server_reads sm sm' env s session m :
    reachable sm -> clock_ok horizon env -> isReadRequest (body m) = true ->
    m_storage sm = Some s -> is_Some (session_and_timeout s !! session) ->
    processReadRequest sm session m env = Some (sm', Ok tt) -> reachable sm'
| server_expires sm sm' now dead : reachable sm -> machine_getDeadSessions sm now = Some (sm', dead) -> reachable sm'
| server_snapshots sm sm' s meta nodes sessions :
    reachable sm -> 0 < last_committed_idx sm -> get_last_log_idx meta = last_committed_idx sm ->
    m_storage sm = Some s -> fits s meta -> nodes ≡ₚ map_to_list (container s) -> sessions ≡ₚ map_to_list (session_and_timeout s) ->
    create_snapshot sm meta nodes sessions = Some (sm', Ok tt) -> reachable sm'
| server_saves sm sm' saved : reachable sm -> run_snapshot_task sm = Some (sm', saved) -> reachable sm'
| server_receives leader sm sm1 sm' meta first data nodes sessions r1 r2 :
    reachable leader -> reachable sm ->
    read_logical_snp_obj leader meta 0 = Some (Some (first, false)) -> save_logical_snp_obj sm meta 0 first nodes sessions = Some (sm1, Ok r1) ->
    read_logical_snp_obj leader meta 1 = Some (Some (data, true)) -> save_logical_snp_obj sm1 meta 1 data nodes sessions = Some (sm', Ok r2) -> reachable sm'
| server_applies sm sm' meta now : reachable sm -> is_time now -> apply_snapshot sm meta now = Some (sm', Ok true) -> reachable sm'
| server_restarts sm sm' d now : reachable sm -> crash_dir sm d -> is_time now -> start d now = Some (Ok sm') -> reachable sm'.

Lemma follows_timeouts sm s : follows sm -> m_storage sm = Some s -> timeouts_ok max_timeout (shown s).
Proof.
  intros [_ (s0 & Hs0 & [_ Hsh]) _ _ _] Hs. rewrite Hs in Hs0. injection Hs0 as <-. rewrite Hsh. by apply timeouts_at.
Qed.

(** A server whose storage changed but not what it shows. *)
Lemma follows_same sm sm' s' :
  follows sm -> m_storage sm' = Some s' -> is_state (Z.to_nat (last_committed_idx sm)) s' ->
  last_committed_idx sm' = last_committed_idx sm -> snapshot_manager sm' = snapshot_manager sm ->
  latest_snapshot_meta sm' = latest_snapshot_meta sm -> latest_snapshot_buf sm' = latest_snapshot_buf sm ->
  snapshots_queue sm' = snapshots_queue sm -> follows sm'.
Proof. intros [H1 H2 H3 H4 H5] Hs Hst E1 E2 E3 E4 E5. split; rewrite ?E1, ?E2, ?E3, ?E4, ?E5; [done| |done|done|done]. by exists s'. Qed.

Lemma follows_commit sm env session m :
  follows sm -> clock_ok horizon env -> log !! Z.to_nat (last_committed_idx sm) = Some (session, m) ->
  exists sm' fired a, commit sm (last_committed_idx sm + 1) (getZooKeeperLogEntry session m) env = Some (sm', Ok tt) /\ follows sm'
    /\ last_committed_idx sm' = last_committed_idx sm + 1 /\ responses_queue sm' = responses_queue sm ++ fired ++ [a]
    /\ shown_answer a = (ref_commit (ref_at log (Z.to_nat (last_committed_idx sm))) (last_committed_idx sm + 1) session m).2.
Proof.
  intros Hf Hc Hl. assert (Hf' := Hf). destruct Hf' as [H1 (s & Hs & [HR Hsh]) H3 H4 H5]. set (n := Z.to_nat (last_committed_idx sm)) in *.
  assert (Hidx : last_committed_idx sm + 1 = Z.of_nat (S n)) by (unfold n; lia). rewrite Hidx.
  pose proof (Hlog n session m Hl) as He. rewrite <- Hsh in He.
  destruct (commit_entry_refines interval max_timeout horizon Hmax Hhor s (Z.of_nat n) (Z.of_nat (S n)) session m env HR ltac:(lia)
    (follows_timeouts sm s Hf Hs) Hc He) as (s' & fired & a & Hce & HR' & Href).
  exists (with_responses sm (Some s') (fired ++ [a]) (Z.of_nat (S n))), fired, a. unfold commit. rewrite Hs. cbn [mbind option_bind]. rewrite Hce. split; [done|].
  pose proof (lookup_lt_Some _ _ _ Hl) as Hlt. split; [|split; [done|split; [done|]]].
  - split; cbn [with_responses last_committed_idx m_storage snapshot_manager latest_snapshot_meta latest_snapshot_buf snapshots_queue]; [lia| |done|done|done].
    exists s'. split; [done|]. rewrite Nat2Z.id. split; [done|]. cbn [ref_at]. rewrite Hl. rewrite <- Hsh. by rewrite <- Href.
  - rewrite <- Hsh. by rewrite <- Href.
Qed.

Lemma follows_read sm env s session m :
  follows sm -> clock_ok horizon env -> isReadRequest (body m) = true -> m_storage sm = Some s -> is_Some (session_and_timeout s !! session) ->
  exists sm' fired error b, processReadRequest sm session m env = Some (sm', Ok tt) /\ follows sm'
    /\ responses_queue sm' = responses_queue sm ++ fired ++ [(session, mkResponse (xid m) (zxid s) error b)]
    /\ (good_ref (r_tree (shown s)) (body m) (zxid s) session -> (ref_request (r_tree (shown s)) (body m) (zxid s) session).2 = (error, untime_body b)).
Proof.
  intros Hf Hc Hr Hs Hlive. assert (Hf' := Hf). destruct Hf' as [H1 (s0 & Hs0 & [HR Hsh]) H3 H4 H5]. rewrite Hs in Hs0. injection Hs0 as <-.
  destruct (read_keeps interval max_timeout horizon Hmax Hhor s _ session m env HR (follows_timeouts sm s Hf Hs) Hc Hr Hlive) as (s' & fired & error & b & Hp & HR' & Hsh' & Hans).
  exists (with_responses sm (Some s') (fired ++ [(session, mkResponse (xid m) (zxid s) error b)]) (last_committed_idx sm)), fired, error, b.
  unfold processReadRequest. rewrite Hs. cbn [mbind option_bind]. rewrite Hp. split; [done|]. split; [|done].
  apply (follows_same sm _ s'); try done. split; [done|by rewrite Hsh'].
Qed.

Lemma is_state_queue n s queue :
  is_state n s -> SessionExpiryQueue.expiration_interval queue = SessionExpiryQueue.expiration_interval (session_expiry_queue s) ->
  is_state n (with_sessions s (session_id_counter s) queue (session_and_timeout s)).
Proof. intros [[[HC HW] HZ HI] Hsh] Hq. split; [|done]. split; [by split|done|cbn; by rewrite Hq]. Qed.

Lemma is_state_mode n s mode : is_state n s -> is_state n (set_snapshot_mode s mode).
Proof. intros [[[HC HW] HZ HI] Hsh]. split; [|done]. split; [by split|done|done]. Qed.

Lemma follows_expire sm sm' now dead : follows sm -> machine_getDeadSessions sm now = Some (sm', dead) -> follows sm'.
Proof.
  intros Hf. assert (Hf' := Hf). destruct Hf' as [_ (s & Hs & Hst) _ _ _]. unfold machine_getDeadSessions, getDeadSessions. rewrite Hs. cbn [mbind option_bind].
  destruct (SessionExpiryQueue.getExpiredSessions (session_expiry_queue s) now) as [[q d]|] eqn:E; [|done]. cbn [mbind option_bind]. intros [= <- _].
  apply (follows_same sm _ (with_sessions s (session_id_counter s) q (session_and_timeout s))); try done. apply is_state_queue; [done|].
  unfold SessionExpiryQueue.getExpiredSessions in E. destruct (now <? _); [by injection E as <- _|]. destruct (SessionExpiryQueue.int64 _); [|done]. cbn [mbind option_bind] in E.
  by destruct (_ !! _); injection E as <- _.
Qed.

Lemma follows_snapshot sm sm' s meta nodes sessions :
  follows sm -> 0 < last_committed_idx sm -> get_last_log_idx meta = last_committed_idx sm -> m_storage sm = Some s -> fits s meta ->
  nodes ≡ₚ map_to_list (container s) -> sessions ≡ₚ map_to_list (session_and_timeout s) ->
  create_snapshot sm meta nodes sessions = Some (sm', Ok tt) -> follows sm'.
Proof.
  intros [H1 (s0 & Hs0 & Hst) H3 H4 H5] Hpos Hm Hs HF Hn Hse. rewrite Hs in Hs0. injection Hs0 as <-. unfold create_snapshot. rewrite meta_read_write, Hs. cbn [mbind option_bind].
  intros [= <-]. set (n := Z.to_nat (last_committed_idx sm)) in *. assert (Hmn : get_last_log_idx meta = Z.of_nat n) by (unfold n; lia).
  destruct (snapshot_restores_state s meta nodes sessions n Hst HF Hmn Hn Hse) as (b & Hb & Hres).
  split; cbn; [done| |done|done|].
  - exists (set_snapshot_mode s true). split; [done|]. by apply is_state_mode.
  - apply Forall_app. split; [done|]. apply Forall_singleton. exists n, b. split; [done|]. split; [unfold n; lia|done].
Qed.

(** Writing the bytes of a snapshot, and remembering them. *)
Lemma follows_saved sm s m' R meta b n tasks :
  follows sm -> is_state (Z.to_nat (last_committed_idx sm)) s -> files_ok m' R -> get_last_log_idx meta = Z.of_nat n -> (0 < n <= length log)%nat -> restores b n ->
  Forall (fun task => exists n b, get_last_log_idx (snapshot_meta task.2) = Z.of_nat n /\ (0 < n <= length log)%nat
    /\ serializeSnapshotToBuffer task.2 = Ok b /\ restores b n) tasks ->
  follows (mkMachine (dead_session_check_period_ms sm) (Some meta) (Some b) (Some s) (storage_number sm) m' (responses_queue sm) tasks (last_committed_idx sm)).
Proof.
  intros [H1 _ _ _ _] Hst HF Hm Hn Hres Ht. split; cbn; [done|by exists s|by exists R| |done]. intros meta' b' [= <-] [= <-]. by exists n.
Qed.

Lemma follows_task sm sm' saved : follows sm -> run_snapshot_task sm = Some (sm', saved) -> follows sm' /\ saved = true.
Proof.
  intros Hf. assert (Hf' := Hf). destruct Hf' as [H1 (s & Hs & Hst) (R & HF) H4 H5]. unfold run_snapshot_task. destruct (snapshots_queue sm) as [|[number snapshot] tasks]; [done|].
  rewrite Hs. cbn [mbind option_bind]. case_decide; [done|]. apply Forall_cons in H5 as [(n & b & Hm & Hn & Hb & Hres) H5]. cbn [snd] in Hm, Hb. rewrite Hb, Hm. cbn [snapshot_manager].
  destruct (save_ok (snapshot_manager sm) R n b HF Hn Hres) as (m' & Hm' & HF'). rewrite Hm'. cbn [mbind option_bind]. intros [= <- <-]. split; [|done].
  eapply (follows_saved sm _ m' _ (snapshot_meta snapshot) b n tasks Hf); [by apply is_state_mode|done..].
Qed.

Lemma follows_receive leader sm sm1 sm' meta first data nodes sessions r1 r2 :
  follows leader -> follows sm -> save_logical_snp_obj sm meta 0 first nodes sessions = Some (sm1, Ok r1) ->
  read_logical_snp_obj leader meta 1 = Some (Some (data, true)) -> save_logical_snp_obj sm1 meta 1 data nodes sessions = Some (sm', Ok r2) -> follows sm'.
Proof.
  intros Hl Hf Hfirst. unfold read_logical_snp_obj. rewrite decide_False by done. destruct (latest_snapshot_meta leader) as [latest|] eqn:El; [|done]. cbn [mbind option_bind].
  case_decide as Hi; [done|]. destruct (latest_snapshot_buf leader) as [buf|] eqn:Eb; [|done]. cbn [mbind option_bind]. intros [= <-].
  destruct (fo_latest _ Hl latest buf El Eb) as (n & Hm & Hn & Hres). assert (Hi' : get_last_log_idx meta = Z.of_nat n) by lia.
  assert (Hf' := Hf). destruct Hf' as [H1 (s & Hs & Hst) (R & [F1 F2 F3 F4 F5 F6]) H4 H5]. revert Hfirst. unfold save_logical_snp_obj at 1. rewrite Hs. cbn [mbind option_bind]. rewrite !decide_True by done.
  destruct (serializeSnapshotToBuffer _) as [own|]; [|done]. rewrite meta_read_write. cbn [snapshot_manager with_storage]. rewrite Hi'.
  destruct (save_stored (snapshot_manager sm) R (Z.of_nat n) own F4 F1 F2 F3 ltac:(lia)) as (m1 & -> & HS1 & E1 & E2 & E3). cbn [mbind option_bind]. intros [= <- _].
  unfold save_logical_snp_obj. cbn [m_storage with_snapshot with_storage mbind option_bind]. rewrite !decide_False by done. rewrite meta_read_write. cbn [snapshot_manager with_snapshot with_storage]. rewrite Hi'.
  destruct (save_over m1 _ n buf HS1 E1 E2 E3) as (m' & -> & HF'); [|done|done|].
  { intros j x [Hne Hx]%lookup_delete_Some. unfold newest in Hx. apply map_lookup_filter_Some in Hx as [Hx _]. rewrite lookup_insert_ne in Hx by done. by apply (F5 j x). }
  cbn [mbind option_bind]. intros [= <- _]. eapply (follows_saved sm _ m' _ meta buf n (snapshots_queue sm) Hf); [by apply is_state_mode|done..].
Qed.

Lemma follows_apply sm sm' meta now : follows sm -> is_time now -> apply_snapshot sm meta now = Some (sm', Ok true) -> follows sm'.
Proof.
  intros [H1 _ (R & HF) H4 H5] Hnow. unfold apply_snapshot. destruct (latest_snapshot_meta sm) as [latest|] eqn:El; [|done]. cbn [mbind option_bind]. case_decide as Hi; [done|].
  destruct (latest_snapshot_buf sm) as [buf|] eqn:Eb; [|done]. cbn [mbind option_bind]. destruct (H4 latest buf eq_refl eq_refl) as (n & Hm & Hn & Hres).
  destruct (Hres (snapshot_manager sm) now (fl_tick _ _ HF) Hnow) as (meta' & s & -> & Hm' & Hst). cbn [mbind option_bind]. intros [= <-].
  assert (Hi' : get_last_log_idx meta = Z.of_nat n) by lia. rewrite Hi'. split; cbn; [lia| |by exists R| |done].
  - exists s. split; [done|]. by rewrite Nat2Z.id.
  - intros meta0 b0 [= <-] [= <-]. by exists n.
Qed.

Lemma follows_restart sm d now :
  follows sm -> crash_dir sm d -> is_time now ->
  exists sm', start d now = Some (Ok sm') /\ follows sm'
    /\ forall i, is_Some (Manager.existing_snapshots (snapshot_manager sm) !! i) -> i <= last_committed_idx sm'.
Proof.
  intros Hf Hd Hnow. destruct (fo_files _ Hf) as [R HF]. destruct (crash_disk sm R d Hf HF Hd) as (R' & Hdk & Hnewer).
  destruct (start_ok d R' now Hdk Hnow) as (sm' & Hs & Hf' & Hmaxi). exists sm'. split; [done|]. split; [done|]. intros i Hi.
  destruct (decide (i = 0)) as [->|Hne]; [apply Hf'|]. rewrite (st_index _ _ (fl_stored _ _ HF)), fmap_is_Some in Hi by done.
  destruct (Hnewer i Hi) as (j & Hij & Hj). specialize (Hmaxi j Hj). lia.
Qed.

Lemma reachable_follows sm : reachable sm -> follows sm.
Proof.
  induction 1 as [sm now Hnow Hs|sm sm' env session m _ IH Hc Hl Hco|sm sm' env s session m _ IH Hc Hr Hs Hlive Hp|sm sm' now dead _ IH Hd
    |sm sm' s meta nodes sessions _ IH Hpos Hm Hs HF Hn Hse Hc|sm sm' saved _ IH Ht|leader sm sm1 sm' meta first data nodes sessions r1 r2 _ IHl _ IH _ Hs1 Hr Hs2
    |sm sm' meta now _ IH Hnow Ha|sm sm' d now _ IH Hd Hnow Hs].
  - destruct (start_ok ∅ ∅ now) as (sm' & Hs' & Hf & _); [|done|congruence]. by split; try (intros ? [? ?]); try (intros ? ? ?).
  - destruct (follows_commit sm env session m IH Hc Hl) as (sm1 & fired & a & Hco' & Hf & _). congruence.
  - destruct (follows_read sm env s session m IH Hc Hr Hs Hlive) as (sm1 & fired & error & b & Hp' & Hf & _). congruence.
  - by apply (follows_expire sm sm' now dead).
  - by apply (follows_snapshot sm sm' s meta nodes sessions).
  - by apply (follows_task sm sm' saved).
  - by apply (follows_receive leader sm sm1 sm' meta first data nodes sessions r1 r2).
  - by apply (follows_apply sm sm' meta now).
  - destruct (follows_restart sm d now IH Hd Hnow) as (sm1 & Hs1 & Hf & _). congruence.
Qed.



Lemma newest_largest (R : gmap Z str) i b : R !! i = Some b -> (forall j, is_Some (R !! j) -> j <= i) -> newest keep R !! i = Some b.
Proof.
  intros Hb Hmaxi. unfold newest. apply map_lookup_filter_Some. split; [done|]. cbn. assert (Hz : newer R i = ∅).
  { apply set_eq. intros j. unfold newer. rewrite elem_of_filter, elem_of_dom. split; [|set_solver]. intros [Hlt Hj]. specialize (Hmaxi j Hj). lia. }
  rewrite Hz, size_empty. lia.
Qed.

Lemma newest_sub (R : gmap Z str) (j : Z) : is_Some (newest keep R !! j) -> is_Some (R !! j).
Proof. intros [x Hx]. unfold newest in Hx. apply map_lookup_filter_Some in Hx as [Hx _]. by eexists. Qed.

(** Starting loads the bytes under the largest index, whatever they hold. *)
Lemma start_loads (d : Manager.directory) (R : gmap Z str) (i : Z) (b : str) (now : Z) (meta : M) (s : storage) :
  (forall j, is_Some (R !! j) -> 0 < j < 2 ^ 64) -> (forall j x, R !! j = Some x -> d !! Manager.getSnapshotFileName j = Some x) ->
  (forall nm, is_Some (d !! nm) -> (exists j, is_Some (R !! j) /\ nm = Manager.getSnapshotFileName j) \/ exists j, nm = Manager.tmp_name (Manager.getSnapshotFileName j)) ->
  R !! i = Some b -> (forall j, is_Some (R !! j) -> j <= i) ->
  (forall manager, Manager.storage_tick_time manager = interval -> deserializeSnapshotFromBuffer manager now b = Some (Ok (meta, s))) ->
  exists sm, start d now = Some (Ok sm) /\ m_storage sm = Some s /\ last_committed_idx sm = get_last_log_idx meta.
Proof.
  intros D1 D2 D3 Hb Hmaxi Hd. destruct (create_spec path keep interval d R (order d) Hpath ltac:(lia) (Horder d) D1 D2 D3) as (m & Hm & HS & Heq).
  destruct (largest_first m (newest keep R) i b HS (newest_largest R i b Hb Hmaxi)) as (Ht & Hi & Hds); [intros j Hj; by apply Hmaxi, newest_sub|].
  unfold start, create_machine. rewrite Hm. cbn [mbind option_bind]. unfold init. cbn [snapshot_manager].
  destruct (Manager.totalSnapshots m) as [|fuel] eqn:Et; [done|]. cbn [init_loop snapshot_manager]. rewrite Et, decide_False, Hi by done.
  unfold load_snapshot. rewrite Hds, Hd by (by rewrite Heq). cbn [mbind option_bind m_storage]. by eexists.
Qed.

(** A snapshot that was received only in part loses entries.  For the first object of a
    snapshot that the leader sends, a server writes its own storage to disk under the index of
    the leader's snapshot.  When it stops before the second object is there, it starts again
    with that file: it takes all entries up to the index for committed, but shows
    the state of before. *)
Lemma half_received_snapshot_loses (sm : machine M) (s : storage) (meta : M) (data : str) (nodes : list (str * Node)) (sessions : list (Z * Z)) (now : Z) :
  reachable sm -> m_storage sm = Some s ->
  last_committed_idx sm < get_last_log_idx meta < 2 ^ 64 -> (forall j, is_Some (Manager.existing_snapshots (snapshot_manager sm) !! j) -> j < get_last_log_idx meta) ->
  fits s (new_metadata (get_last_log_idx meta)) -> nodes ≡ₚ map_to_list (container s) -> sessions ≡ₚ map_to_list (session_and_timeout s) -> is_time now ->
  exists sm' sm'' s'', save_logical_snp_obj sm meta 0 data nodes sessions = Some (sm', Ok 1)
    /\ start (Manager.dir (snapshot_manager sm')) now = Some (Ok sm'') /\ last_committed_idx sm'' = get_last_log_idx meta
    /\ m_storage sm'' = Some s'' /\ shown s'' = ref_at log (Z.to_nat (last_committed_idx sm)).
Proof.
  intros Hr Hs Hidx Hnew HF Hn Hse Hnow. destruct (reachable_follows sm Hr) as [H1 (s0 & Hs0 & Hst) (R & HFl) _ _]. rewrite Hs in Hs0. injection Hs0 as <-.
  set (i := get_last_log_idx meta) in *. assert (Hni : get_last_log_idx (new_metadata i) = i) by (apply new_metadata_idx; lia).
  destruct (snapshot_bytes s (new_metadata i) nodes sessions _ Hst HF ltac:(lia) Hn Hse) as (b & Hb & Hres).
  destruct HFl as [F1 F2 F3 F4 F5 F6]. pose proof (add_stored (snapshot_manager sm) R b i F4 ltac:(lia)) as HA.
  destruct (remove_outdated_spec (Manager.totalSnapshots (Manager.add_snapshot (snapshot_manager sm) b i)) _ _ HA ltac:(cbn; lia) ltac:(done)) as (m' & Hm' & HS' & _).
  change (Manager.snapshots_to_keep (Manager.add_snapshot (snapshot_manager sm) b i)) with (Manager.snapshots_to_keep (snapshot_manager sm)) in HS'. rewrite F2 in HS'.
  assert (Hmaxi : forall j, is_Some (<[i := b]> R !! j) -> j <= i).
  { intros j Hj. destruct (decide (j = i)) as [->|Hne]; [lia|]. rewrite lookup_insert_ne in Hj by done. pose proof (st_range _ _ F4 j Hj).
    specialize (Hnew j). rewrite (st_index _ _ F4), fmap_is_Some in Hnew by lia. specialize (Hnew Hj). lia. }
  destruct (Hres (snapshot_manager sm) now F3 Hnow) as (s'' & Hd & HR'' & Hsh). destruct HS' as [S1 S2 S3 S4 S5].
  destruct (start_loads (Manager.dir m') (newest keep (<[i := b]> R)) i b now (new_metadata i) s'' S1 S4 S5) as (sm'' & Hst'' & Hms & Hlast).
  - apply newest_largest; [apply lookup_insert_eq|done].
  - intros j Hj. by apply Hmaxi, newest_sub.
  - intros manager Ht. destruct (Hres manager now Ht Hnow) as (s3 & Hd3 & _). rewrite Hd3. unfold deserializeSnapshotFromBuffer in Hd, Hd3. rewrite Ht in Hd3. rewrite F3 in Hd. congruence.
  - exists (with_snapshot (with_storage sm (Some (set_snapshot_mode s false))) meta b m'), sm'', s''. split.
    + unfold save_logical_snp_obj. rewrite Hs. cbn [mbind option_bind]. rewrite !decide_True by done. fold i. rewrite Hb, meta_read_write. cbn [snapshot_manager with_storage]. fold i.
      unfold Manager.serializeSnapshotBufferToDisk, Manager.removeOutdatedSnapshotsIfNeeded. by rewrite Hm'.
    + split; [exact Hst''|]. split; [by rewrite Hlast|]. split; [done|]. rewrite Hsh. apply Hst.
Qed.
End cluster.

(** ** A small cluster *)

#[local] Instance index_metadata_class : SnapshotMetadata str := index_metadata.
#[local] Instance index_new : NewMetadata str.
Proof. refine {| new_metadata := write_le 8 |}. intros i Hi. apply (le_value_bytes 8). change (256 ^ Z.of_nat 8) with (2 ^ 64). exact Hi. Defined.
#[local] Instance plain_codec : SnapshotCodec.
Proof. refine {| compress := id; decompress := Ok |}. done. Defined.

Definition small_log : list (Z * zk_message) :=
  [(-1, mkMessage 0 (SessionIDRequest 5 300 1)); (1, mkMessage 1 (CreateRequest (lit "/a") (lit "x") true false []));
   (1, mkMessage 2 CloseRequest)].
Definition small_env : environment := mkEnv 1000 (fun _ => 1000) elements.
Definition small_start (d : Manager.directory) : option (result (machine str)) := start 500 (lit "/s") 3 (fun d => elements (dom d)) d 1000.

#[local] Instance close_ok_dec T session : Decision (close_ok T session).
Proof.
  refine (map_Forall_dec (fun p a => - 2 ^ 31 <= t_seq a < 2 ^ 31 /\ - 2 ^ 31 <= t_cversion a
    /\ t_cversion a + Z.of_nat (size (owned T session)) < 2 ^ 31 /\ Z.of_nat (size (children_of T p)) < 2 ^ 31) T).
Defined.

Lemma small_log_ok : log_ok 30000 small_log.
Proof.
  intros [|[|[|n]]] session m; cbn [lookup list_lookup small_log]; intros [= <- <-]; (split; [done|split; [done|split]]); try done.
  - split; [done|]. cbn [good_ref concrete_request body]. apply (bool_decide_unpack _). vm_compute. exact I.
  - split; [done|]. cbn [good_ref body]. apply (bool_decide_unpack _). vm_compute. exact I.
Qed.

Abbreviation small_reachable := (reachable 500 100000 (lit "/s") 3 (fun d => elements (dom d)) small_log).

Definition small_commit (sm : machine str) (e : Z * zk_message) : option (machine str) :=
  '(sm, _) ← commit sm (last_committed_idx sm + 1) (getZooKeeperLogEntry e.1 e.2) small_env; Some sm.
(** The server after [k] entries. *)
Definition small_server (k : nat) : option (machine str) :=
  foldl (fun sm e => sm ← sm; small_commit sm e) (r ← small_start ∅; match r with Ok sm => Some sm | Throw _ => None end) (take k small_log).

Lemma small_clock : clock_ok 100000 small_env.
Proof. split; [cbn; lia|]. intros names. done. Qed.

Lemma small_follows sm : small_reachable sm -> follows 500 100000 (lit "/s") 3 small_log sm.
Proof. apply (reachable_follows 500 30000 100000 (lit "/s") 3); try lia; [by apply absolute_path|done|apply small_log_ok|cbn; lia]. Qed.

Lemma small_server_reachable k : (k <= 3)%nat -> exists sm, small_server k = Some sm /\ small_reachable sm /\ last_committed_idx sm = Z.of_nat k.
Proof.
  induction k as [|k IH]; intros Hk.
  - unfold small_server, small_start. cbn [take foldl]. destruct (start 500 _ 3 _ ∅ 1000) as [[sm|e]|] eqn:E; [|vm_compute in E; discriminate|vm_compute in E; discriminate].
    exists sm. split; [done|]. split; [apply (server_starts _ _ _ _ _ _ sm 1000); [unfold is_time; lia|done]|].
    assert (H0 : (fun r => match r with Ok sm => last_committed_idx sm | Throw _ => -1 end) <$> small_start ∅ = Some 0) by (vm_compute; reflexivity).
    unfold small_start in H0. rewrite E in H0. by injection H0.
  - destruct (IH ltac:(lia)) as (sm & Hs & Hr & Hi). destruct (small_log !! k) as [[session m]|] eqn:El; [|apply lookup_ge_None in El; cbn in El; lia].
    rewrite <- (Nat2Z.id k), <- Hi in El.
    destruct (follows_commit 500 30000 100000 (lit "/s") 3 small_log ltac:(lia) ltac:(lia) small_log_ok sm small_env session m (small_follows sm Hr) small_clock El)
      as (sm' & fired & a & Hc & _ & Hi' & _). exists sm'. split; [|split; [exact (server_commits _ _ _ _ _ _ sm sm' small_env session m Hr small_clock El Hc)|lia]].
    rewrite Hi, Nat2Z.id in El. unfold small_server in *. rewrite (take_S_r _ _ _ El), foldl_app, Hs. cbn [foldl mbind option_bind]. unfold small_commit. cbn [fst snd]. by rewrite Hc.
Qed.


(** What the server shows after the first entry. *)
Lemma small_storage :
  exists sm s, small_server 1 = Some sm /\ small_reachable sm /\ last_committed_idx sm = 1 /\ m_storage sm = Some s
    /\ container s = {[root := new_node]} /\ session_and_timeout s = {[1 := 300]} /\ session_id_counter s = 2
    /\ Manager.existing_snapshots (snapshot_manager sm) = ∅.
Proof.
  destruct (small_server_reachable 1 ltac:(lia)) as (sm & Hs & Hr & Hi). destruct (fo_state _ _ _ _ _ _ (small_follows sm Hr)) as (s & Hst & _). exists sm, s.
  assert (H1 : (fun sm => container <$> m_storage sm) <$> small_server 1 = Some (Some {[root := new_node]})) by (vm_compute; reflexivity).
  assert (H2 : (fun sm => session_and_timeout <$> m_storage sm) <$> small_server 1 = Some (Some {[1 := 300]})) by (vm_compute; reflexivity).
  assert (H3 : (fun sm => session_id_counter <$> m_storage sm) <$> small_server 1 = Some (Some 2)) by (vm_compute; reflexivity).
  assert (H4 : (fun sm => Manager.existing_snapshots (snapshot_manager sm)) <$> small_server 1 = Some ∅) by (vm_compute; reflexivity).
  rewrite Hs in H1, H2, H3, H4. cbn [fmap option_fmap option_map] in H1, H2, H3, H4. rewrite Hst in H1, H2, H3. cbn [fmap option_fmap option_map] in H1, H2, H3.
  injection H1 as H1. injection H2 as H2. injection H3 as H3. injection H4 as H4. done.
Qed.

Lemma small_fits (s : storage) (meta : str) :
  container s = {[root := new_node]} -> session_and_timeout s = {[1 := 300]} -> session_id_counter s = 2 -> Z.of_nat (length meta) < 2 ^ 63 -> fits s meta.
Proof.
  intros H1 H2 H3 Hm. split; rewrite ?H1, ?H2, ?H3, ?map_size_singleton; try done.
  - intros p n [<- <-]%lookup_singleton_Some. split; [done|]. by split.
  - intros id timeout [<- _]%lookup_singleton_Some. done.
Qed.

(** The server knows one session; the leader's snapshot has index 7. *)
Lemma half_received_snapshot_loses_witness :
  exists sm sm' sm'' s'', small_server 1 = Some sm /\ last_committed_idx sm = 1
    /\ save_logical_snp_obj sm (write_le 8 7) 0 [] [(root, new_node)] [(1, 300)] = Some (sm', Ok 1)
    /\ small_start (Manager.dir (snapshot_manager sm')) = Some (Ok sm'') /\ last_committed_idx sm'' = 7
    /\ m_storage sm'' = Some s'' /\ shown s'' = ref_at small_log 1.
Proof.
  destruct small_storage as (sm & s & Hs & Hr & Hi & Hst & H1 & H2 & H3 & H4).
  destruct (half_received_snapshot_loses 500 30000 100000 (lit "/s") 3 (fun d => elements (dom d)) small_log ltac:(lia) ltac:(lia) ltac:(lia) ltac:(lia)
    (absolute_path (lit "/s") eq_refl) ltac:(lia) (fun d => reflexivity _) small_log_ok ltac:(cbn; lia) sm s (write_le 8 7) [] [(root, new_node)] [(1, 300)] 1000 Hr Hst)
    as (sm' & sm'' & s'' & E1 & E2 & E3 & E4 & E5).
  - rewrite Hi. vm_compute. split; reflexivity.
  - intros j [x Hx]. rewrite H4, lookup_empty in Hx. discriminate Hx.
  - apply (small_fits s _ H1 H2 H3). vm_compute. reflexivity.
  - rewrite H1, map_to_list_singleton. reflexivity.
  - rewrite H2, map_to_list_singleton. reflexivity.
  - unfold is_time. lia.
  - exists sm, sm', sm'', s''. rewrite Hi in E5. split; [exact Hs|]. split; [exact Hi|]. split; [exact E1|]. split; [exact E2|]. split; [exact E3|]. split; [exact E4|exact E5].
Defined.

(** The server after one entry and a snapshot. *)
Definition small_saved : option (machine str) :=
  sm ← small_server 1; '(sm, _) ← create_snapshot sm (write_le 8 1) [(root, new_node)] [(1, 300)]; '(sm, _) ← run_snapshot_task sm; Some sm.

Lemma small_saved_reachable :
  exists sm, small_saved = Some sm /\ small_reachable sm /\ Manager.existing_snapshots (snapshot_manager sm) = {[1 := Manager.getSnapshotFileName 1]}.
Proof.
  destruct small_storage as (sm & s & Hs & Hr & Hi & Hst & H1 & H2 & H3 & H4).
  assert (HE : (fun sm => Manager.existing_snapshots (snapshot_manager sm)) <$> small_saved = Some {[1 := Manager.getSnapshotFileName 1]}) by (vm_compute; reflexivity).
  unfold small_saved in *. rewrite Hs in HE |- *. cbn [mbind option_bind] in HE |- *.
  destruct (create_snapshot sm (write_le 8 1) [(root, new_node)] [(1, 300)]) as [[sm1 r]|] eqn:E1; [|discriminate]. cbn [mbind option_bind] in HE |- *.
  destruct (run_snapshot_task sm1) as [[sm2 saved]|] eqn:E2; [|discriminate]. cbn [mbind option_bind fmap option_fmap option_map] in HE |- *. injection HE as HE.
  exists sm2. split; [done|]. split; [|done]. apply (server_saves _ _ _ _ _ _ sm1 sm2 saved); [|done].
  assert (Hr' : r = Ok tt) by (unfold create_snapshot in E1; rewrite meta_read_write, Hst in E1; cbn [mbind option_bind] in E1; by injection E1 as _ <-). subst r.
  apply (server_snapshots _ _ _ _ _ _ sm sm1 s (write_le 8 1) [(root, new_node)] [(1, 300)] Hr); [lia|rewrite Hi; vm_compute; reflexivity|done|..|done].
  - apply (small_fits s _ H1 H2 H3). vm_compute. reflexivity.
  - by rewrite H1, map_to_list_singleton.
  - by rewrite H2, map_to_list_singleton.
Qed.


(** A storage that is restored has a tick a thousand times as long as a new one. *)
Lemma restored_tick :
  (fun sm => (fun s => SessionExpiryQueue.expiration_interval (session_expiry_queue s)) <$> m_storage sm) <$> small_saved = Some (Some 500)
  /\ (sm ← small_saved; r ← small_start (Manager.dir (snapshot_manager sm));
      match r with Ok sm => (fun s => SessionExpiryQueue.expiration_interval (session_expiry_queue s)) <$> m_storage sm | Throw _ => None end) = Some 500000.
Proof. split; vm_compute; reflexivity. Qed.

(** A task that is queued when the storage is replaced refers to the storage that is gone. *)
Lemma queued_task_dangles :
  exists sm sm1 sm2, small_saved = Some sm /\ create_snapshot sm (write_le 8 1) [(root, new_node)] [(1, 300)] = Some (sm1, Ok tt)
    /\ apply_snapshot sm1 (write_le 8 1) 1000 = Some (sm2, Ok true) /\ run_snapshot_task sm2 = None.
Proof.
  assert (H : (sm ← small_saved; '(sm1, r1) ← create_snapshot sm (write_le 8 1) [(root, new_node)] [(1, 300)]; '(sm2, r2) ← apply_snapshot sm1 (write_le 8 1) 1000;
    Some (r1, r2, bool_decide (is_Some (run_snapshot_task sm2)))) = Some (Ok tt, Ok true, false)) by (vm_compute; reflexivity).
  destruct small_saved as [sm|]; [|discriminate]. cbn [mbind option_bind] in H. destruct (create_snapshot sm _ _ _) as [[sm1 r1]|] eqn:E1; [|discriminate]. cbn [mbind option_bind] in H.
  destruct (apply_snapshot sm1 _ _) as [[sm2 r2]|] eqn:E2; [|discriminate]. cbn [mbind option_bind] in H. injection H as -> -> H.
  exists sm, sm1, sm2. split; [done|]. split; [done|]. split; [done|]. apply bool_decide_eq_false in H. by apply eq_None_not_Some.
Qed.

(** A multi request with an operation that reads is refused only when it is committed, on every
    server; by then the storage has taken its number, and cannot take it again. *)
Lemma multi_with_read_stops :
  let entry := getZooKeeperLogEntry 1 (mkMessage 3 (MultiRequest [GetRequest (lit "/") false])) in
  (sm ← small_server 1; '(sm1, r1) ← commit sm 2 entry small_env; '(sm2, r2) ← commit sm1 2 entry small_env; Some (r1, r2, last_committed_idx sm2))
  = Some (Throw (DBException ErrorCodes.BAD_ARGUMENTS), Throw (DBException ErrorCodes.LOGICAL_ERROR), 1).
Proof. vm_compute. reflexivity. Qed.
