(* ===== verification/Io.v ===== *)
(** * Io: code that talks to its surroundings

    A computation that calls other services: it extends the list of the calls made so far,
    and may throw, or wait without end ([None]).  What a call answers is given by the
    surroundings, a function of the calls made before, so that a theorem
    about all surroundings covers every sequence of answers. *)

From S2P Require Import Prelude.

Definition io (E A : Type) : Type := list E -> option (list E * result A).

#[export] Instance io_ret E : MRet (io E) := fun A a tr => Some (tr, Ok a).
#[export] Instance io_bind E : MBind (io E) := fun A B f m tr =>
  match m tr with
  | Some (tr, Ok a) => f a tr
  | Some (tr, Throw e) => Some (tr, Throw e)
  | None => None
  end.

Section io.
Context {E : Type}.

Definition io_throw {A} (e : exn) : io E A := fun tr => Some (tr, Throw e).
Definition io_stuck {A} : io E A := fun _ => None.
Definition io_lift {A} (r : result A) : io E A := fun tr => Some (tr, r).

(** A call: its answer is known from the calls before, and both are noted. *)
Definition io_call {A} (answer : list E -> A) (note : A -> E) : io E A :=
  fun tr => let a := answer tr in Some (tr ++ [note a], Ok a).
Definition io_note (ev : E) : io E unit := fun tr => Some (tr ++ [ev], Ok tt).
Definition io_look {A} (answer : list E -> A) : io E A := fun tr => Some (tr, Ok (answer tr)).

(** [try ... catch]. *)
Definition io_catch {A} (m : io E A) (handler : exn -> io E A) : io E A := fun tr =>
  match m tr with
  | Some (tr, Throw e) => handler e tr
  | r => r
  end.

Fixpoint io_iter {A} (f : A -> io E unit) (l : list A) : io E unit :=
  match l with
  | [] => mret tt
  | a :: l => f a ≫= fun _ => io_iter f l
  end.

(** What a computation did: the calls it added, and its result. *)
Definition does {A} (m : io E A) (tr new : list E) (r : result A) : Prop := m tr = Some (tr ++ new, r).

Lemma does_ret {A} (a : A) tr : does (mret a) tr [] (Ok a).
Proof. unfold does. by rewrite app_nil_r. Qed.

Lemma does_throw {A} (e : exn) tr : does (A := A) (io_throw e) tr [] (Throw e).
Proof. unfold does. by rewrite app_nil_r. Qed.

Lemma does_bind {A B} (m : io E A) (f : A -> io E B) tr new a new' r :
  does m tr new (Ok a) -> does (f a) (tr ++ new) new' r -> does (m ≫= f) tr (new ++ new') r.
Proof. unfold does, mbind, io_bind. intros -> ->. by rewrite app_assoc. Qed.

Lemma does_bind_throw {A B} (m : io E A) (f : A -> io E B) tr new e : does m tr new (Throw e) -> does (m ≫= f) tr new (Throw e).
Proof. unfold does, mbind, io_bind. by intros ->. Qed.

Lemma does_catch {A} (m : io E A) h tr new e new' r :
  does m tr new (Throw e) -> does (h e) (tr ++ new) new' r -> does (io_catch m h) tr (new ++ new') r.
Proof. unfold does, io_catch. intros -> ->. by rewrite app_assoc. Qed.

Lemma does_catch_ok {A} (m : io E A) h tr new a : does m tr new (Ok a) -> does (io_catch m h) tr new (Ok a).
Proof. unfold does, io_catch. by intros ->. Qed.

Lemma does_call {A} (answer : list E -> A) note tr : does (io_call answer note) tr [note (answer tr)] (Ok (answer tr)).
Proof. done. Qed.

Lemma does_note ev tr : does (io_note ev) tr [ev] (Ok tt).
Proof. done. Qed.

(** All calls a computation adds satisfy [P]. *)
Definition emits {A} (P : E -> Prop) (m : io E A) : Prop := forall tr tr' r, m tr = Some (tr', r) -> exists new, tr' = tr ++ new /\ Forall P new.

Lemma emits_nothing {A} P (m : io E A) : (forall tr tr' r, m tr = Some (tr', r) -> tr' = tr) -> emits P m.
Proof. intros Hm tr tr' r Hr. exists []. rewrite app_nil_r. by split; [eapply Hm|]. Qed.
Lemma emits_ret {A} P (a : A) : emits P (mret a).
Proof. apply emits_nothing. by intros tr tr' r [= <- _]. Qed.
Lemma emits_throw {A} P (e : exn) : emits (A := A) P (io_throw e).
Proof. apply emits_nothing. by intros tr tr' r [= <- _]. Qed.
Lemma emits_lift {A} P (x : result A) : emits P (io_lift x).
Proof. apply emits_nothing. by intros tr tr' r [= <- _]. Qed.
Lemma emits_look {A} P (answer : list E -> A) : emits P (io_look answer).
Proof. apply emits_nothing. by intros tr tr' r [= <- _]. Qed.
Lemma emits_stuck {A} P : emits (A := A) P io_stuck.
Proof. by intros tr tr' r [=]. Qed.
Lemma emits_call {A} P (answer : list E -> A) note : (forall a, P (note a)) -> emits P (io_call answer note).
Proof. intros HP tr tr' r [= <- _]. eexists. split; [done|]. by constructor. Qed.
Lemma emits_note (P : E -> Prop) ev : P ev -> emits P (io_note ev).
Proof. intros HP tr tr' r [= <- _]. eexists. split; [done|]. by constructor. Qed.
Lemma emits_bind {A B} P (m : io E A) (f : A -> io E B) : emits P m -> (forall a, emits P (f a)) -> emits P (m ≫= f).
Proof.
  intros Hm Hf tr tr' r. unfold mbind, io_bind. destruct (m tr) as [[tr1 [a|e]]|] eqn:Em; [..|done].
  - intros (n2 & -> & H2)%Hf. destruct (Hm _ _ _ Em) as (n1 & -> & H1). exists (n1 ++ n2). rewrite app_assoc. split; [done|]. by apply Forall_app.
  - intros [= <- _]. by eapply Hm.
Qed.
Lemma emits_catch {A} P (m : io E A) h : emits P m -> (forall e, emits P (h e)) -> emits P (io_catch m h).
Proof.
  intros Hm Hh tr tr' r. unfold io_catch. destruct (m tr) as [[tr1 [a|e]]|] eqn:Em; [..|done].
  - intros [= <- _]. by eapply Hm.
  - intros (n2 & -> & H2)%Hh. destruct (Hm _ _ _ Em) as (n1 & -> & H1). exists (n1 ++ n2). rewrite app_assoc. split; [done|]. by apply Forall_app.
Qed.
Lemma emits_iter {A} P (f : A -> io E unit) l : (forall a, emits P (f a)) -> emits P (io_iter f l).
Proof. intros Hf. induction l as [|a l IH]; [apply emits_ret|]. by apply emits_bind. Qed.

(** A computation that does not throw, and what holds of its calls and its result when it returns. *)
Definition post {A} (m : io E A) (Q : list E -> A -> Prop) : Prop :=
  forall tr tr' r, m tr = Some (tr', r) -> exists new a, tr' = tr ++ new /\ r = Ok a /\ Q new a.

Lemma post_ret {A} (a : A) (Q : list E -> A -> Prop) : Q [] a -> post (mret a) Q.
Proof. intros HQ tr tr' r [= <- <-]. exists [], a. by rewrite app_nil_r. Qed.
Lemma post_stuck {A} (Q : list E -> A -> Prop) : post io_stuck Q.
Proof. by intros tr tr' r [=]. Qed.
Lemma post_call {A} (answer : list E -> A) note (Q : list E -> A -> Prop) : (forall a, Q [note a] a) -> post (io_call answer note) Q.
Proof. intros HQ tr tr' r [= <- <-]. by eexists _, _. Qed.
Lemma post_note ev (Q : list E -> unit -> Prop) : Q [ev] tt -> post (io_note ev) Q.
Proof. intros HQ tr tr' r [= <- <-]. by eexists _, _. Qed.
Lemma post_bind {A B} (m : io E A) (f : A -> io E B) (Q1 : list E -> A -> Prop) (Q : list E -> B -> Prop) :
  post m Q1 -> (forall n1 a, Q1 n1 a -> post (f a) (fun n2 b => Q (n1 ++ n2) b)) -> post (m ≫= f) Q.
Proof.
  intros Hm Hf tr tr' r. unfold mbind, io_bind. destruct (m tr) as [[tr1 r1]|] eqn:Em; [|done].
  destruct (Hm _ _ _ Em) as (n1 & a & -> & -> & H1). intros H. destruct (Hf n1 a H1 _ _ _ H) as (n2 & b & -> & -> & H2).
  exists (n1 ++ n2), b. by rewrite app_assoc.
Qed.
Lemma post_stuck_bind {A B} (f : A -> io E B) (Q : list E -> B -> Prop) : post (io_stuck ≫= f) Q.
Proof. by intros tr tr' r [=]. Qed.
Lemma post_conseq {A} (m : io E A) (Q1 Q : list E -> A -> Prop) : post m Q1 -> (forall new a, Q1 new a -> Q new a) -> post m Q.
Proof. intros Hm HQ tr tr' r H. destruct (Hm _ _ _ H) as (new & a & -> & -> & H1). eauto 10. Qed.
Lemma post_call_bind {A B} (answer : list E -> A) note (f : A -> io E B) (Q : list E -> B -> Prop) :
  (forall a, post (f a) (fun n b => Q (note a :: n) b)) -> post (io_call answer note ≫= f) Q.
Proof. intros Hf. apply (post_bind _ _ (fun n a => n = [note a])); [by apply post_call|]. intros n a ->. apply Hf. Qed.

Lemma post_emits {A} P (m : io E A) (Q : list E -> A -> Prop) : emits P m -> post m Q -> post m (fun new a => Q new a /\ Forall P new).
Proof.
  intros He Hp tr tr' r H. destruct (Hp _ _ _ H) as (new & a & -> & -> & HQ). destruct (He _ _ _ H) as (new' & Heq & HF). simplify_list_eq. eauto 10.
Qed.

(** A computation that returns, whatever the surroundings answer. *)
Definition total {A} (m : io E A) : Prop := forall tr, is_Some (m tr).

Lemma total_ret {A} (a : A) : total (mret a).
Proof. intros tr. by eexists. Qed.
Lemma total_call {A} (answer : list E -> A) note : total (io_call answer note).
Proof. intros tr. by eexists. Qed.
Lemma total_note ev : total (io_note ev).
Proof. intros tr. by eexists. Qed.
Lemma total_bind {A B} (m : io E A) (f : A -> io E B) : total m -> (forall a, total (f a)) -> total (m ≫= f).
Proof. intros Hm Hf tr. unfold mbind, io_bind. destruct (Hm tr) as [[tr1 [a|e]] ->]; [apply Hf|by eexists]. Qed.

Lemma call_bind_at {A B} (answer : list E -> A) note (f : A -> io E B) tr : (io_call answer note ≫= f) tr = f (answer tr) (tr ++ [note (answer tr)]).
Proof. done. Qed.

(** A run that returned went through both parts. *)
Lemma bind_inv {A B} (m : io E A) (f : A -> io E B) tr tr' b :
  (m ≫= f) tr = Some (tr', Ok b) -> exists tr1 a, m tr = Some (tr1, Ok a) /\ f a tr1 = Some (tr', Ok b).
Proof. unfold mbind, io_bind. destruct (m tr) as [[tr1 [a|e]]|]; [|done|done]. eauto. Qed.
End io.

Create HintDb io.
#[export] Hint Resolve does_ret does_throw does_call does_note : io.
#[export] Hint Resolve emits_ret emits_throw emits_lift emits_look emits_stuck emits_call emits_note emits_bind emits_catch emits_iter : io.
#[export] Hint Resolve total_ret total_call total_note total_bind : io.

(** Walks through a computation; recursive calls are found among the hypotheses or the hints. *)
Ltac emit := repeat (intros; lazymatch goal with
  | |- emits _ (mret _) => apply emits_ret
  | |- emits _ (io_lift _) => apply emits_lift
  | |- emits _ (io_look _) => apply emits_look
  | |- emits _ io_stuck => apply emits_stuck
  | |- emits _ (io_throw _) => apply emits_throw
  | |- emits _ (io_call _ _) => apply emits_call; intros; try exact I
  | |- emits _ (io_note _) => apply emits_note; try exact I
  | |- emits _ (io_catch _ _) => apply emits_catch
  | |- emits _ (_ ≫= _) => apply emits_bind
  | |- emits _ (match ?x with _ => _ end) => destruct x
  | |- _ => first [assumption | solve [eauto with io]]
  end).
