(* ===== verification/MessageBlock.v ===== *)
(** * MessageBlock: the blocks that services send each other

    Models what the metadata services use of src/src/Core/Block.cpp and the columns,
    the builders of src/src/Interpreters/BlockUtils.cpp, and the escaping of names in
    src/src/Common/escapeForFileName.cpp.  Reading past the end of a column
    is [None]. *)

From S2P Require Import Prelude TextFormat WalRecord Io.

Local Open Scope Z_scope.

(** ** Columns *)

(** A column of strings, or of integers of some bytes. *)
Inductive column_data : Type :=
| CString (values : list str)
| CInt (bytes : nat) (values : list Z).

Definition column_size (c : column_data) : nat := match c with CString l => length l | CInt _ l => length l end.

Definition getDataAt (c : column_data) (n : nat) : option str :=
  match c with
  | CString l => l !! n
  | CInt bytes l => le_bytes bytes <$> l !! n
  end.

(** [Int64(data[n])] *)
Definition getInt (c : column_data) (n : nat) : option (result Z) :=
  match c with
  | CString _ => Some (Throw (DBException ErrorCodes.NOT_IMPLEMENTED))
  | CInt _ l => (fun z => Ok (to_signed 64 (wrap 64 z))) <$> l !! n
  end.

(** ** Blocks *)

(** The columns in their order; of columns with one name the first is found. *)
Abbreviation MBlock := (list (str * column_data)).

Definition findColumn (b : MBlock) (name : str) : option column_data :=
  snd <$> (list_find (fun nc => nc.1 = name) b ≫= fun r => Some r.2).

Definition has (b : MBlock) (name : str) : bool := bool_decide (is_Some (findColumn b name)).

Definition getByName (b : MBlock) (name : str) : result column_data :=
  match findColumn b name with
  | Some c => Ok c
  | None => Throw (DBException ErrorCodes.NOT_FOUND_COLUMN_IN_BLOCK)
  end.

(** [block.getByName(name).column->getDataAt(0).toString()] and [->getInt(0)] *)
Definition cell_string {E} (b : MBlock) (name : str) : io E str :=
  c ← io_lift (getByName b name);
  match getDataAt c 0 with Some s => mret s | None => io_stuck end.
Definition cell_int32 {E} (b : MBlock) (name : str) : io E Z :=
  c ← io_lift (getByName b name);
  match getInt c 0 with Some (Ok z) => mret (to_signed 32 (wrap 32 z)) | Some (Throw e) => io_throw e | None => io_stuck end.

(** ** Building *)

Definition buildBlock (string_cols : list (str * str)) (int32_cols : list (str * Z)) (uint64_cols : list (str * Z)) : MBlock :=
  map (fun p => (p.1, CString [p.2])) string_cols
  ++ map (fun p => (p.1, CInt 4 [p.2])) int32_cols
  ++ map (fun p => (p.1, CInt 8 [p.2])) uint64_cols.

Definition buildBlock_rows (string_cols : list (str * list str)) (int64_cols : list (str * list Z)) : MBlock :=
  map (fun p => (p.1, CString p.2)) string_cols ++ map (fun p => (p.1, CInt 8 p.2)) int64_cols.

(** ** Names in paths *)

Definition isWordCharASCII (c : ascii) : bool :=
  let z := code c in
  ((97 <=? z) && (z <=? 122)) || ((65 <=? z) && (z <=? 90)) || ((48 <=? z) && (z <=? 57)) || bool_decide (c = "_"%char).

Fixpoint escapeForFileName (s : str) : str :=
  match s with
  | [] => []
  | c :: s => (if isWordCharASCII c then [c] else "%"%char :: writeHexByteUppercase c) ++ escapeForFileName s
  end.

(** [pos + 2 < end]: two characters follow the percent sign. *)
Fixpoint unescapeForFileName (s : str) : str :=
  match s with
  | [] => []
  | c :: s' =>
      match s' with
      | h1 :: h2 :: rest => if decide (c = "%"%char) then unhex2 h1 h2 :: unescapeForFileName rest else c :: unescapeForFileName s'
      | _ => c :: unescapeForFileName s'
      end
  end.

Lemma unescape_escape s : unescapeForFileName (escapeForFileName s) = s.
Proof.
  induction s as [|c s IH]; [done|]. cbn [escapeForFileName]. destruct (isWordCharASCII c) eqn:Hw.
  - assert (Hc : c <> "%"%char) by (intros ->; done). cbn [app unescapeForFileName].
    destruct (escapeForFileName s) as [|h1 [|h2 rest]] eqn:E; rewrite ?(decide_False (P := c = _)) by done; by rewrite IH.
  - destruct (unhex2_writeHex c) as (h1 & h2 & -> & Hh & _). cbn [app unescapeForFileName]. by rewrite decide_True, Hh, IH.
Qed.

Lemma escapeForFileName_inj s t : escapeForFileName s = escapeForFileName t -> s = t.
Proof. intros H. by rewrite <- (unescape_escape s), H, unescape_escape. Qed.

(** No character that has a meaning in a path stays. *)
Lemma escapeForFileName_chars s : Forall (fun c => isWordCharASCII c = true \/ c = "%"%char) (escapeForFileName s).
Proof.
  induction s as [|c s IH]; cbn [escapeForFileName]; [constructor|]. apply Forall_app. split; [|done].
  destruct (isWordCharASCII c) eqn:Hw; [constructor; [by left|constructor]|]. constructor; [by right|].
  clear Hw IH. assert (Hall : forall c, forallb isWordCharASCII (writeHexByteUppercase c) = true) by (intros [[] [] [] [] [] [] [] []]; reflexivity).
  specialize (Hall c). apply Forall_forall. intros x Hx. left. by apply (proj1 (forallb_forall _ _) Hall), list_elem_of_In.
Qed.
