(* ===== verification/TaskStatus.v ===== *)
(** * TaskStatus: the status of asynchronous tasks

    Models src/src/DistributedMetadata/TaskStatusService.{h,cpp}: statuses are broadcast through the log,
    indexed by task and by user, and finished tasks are to be moved into a
    table.  The indexes share the objects they point to: objects are in a heap, and the
    indexes hold pointers.  Following an iterator past the end or a null pointer is
    [None].  A hash map is walked in the order of a list that is an argument. *)

From S2P Require Import Prelude TextFormat WalRecord Io MessageBlock.

Local Open Scope Z_scope.

Module Tasks.

Record TaskStatus : Type := mkTask {
  t_id : str;
  t_status : str;
  t_progress : str;
  t_reason : str;
  t_user : str;
  t_context : str;
  t_last_modified : Z;
  t_created : Z
}.

Definition SUBMITTED : str := lit "SUBMITTED".
Definition INPROGRESS : str := lit "INPROGRESS".
Definition SUCCEEDED : str := lit "SUCCEEDED".
Definition FAILED : str := lit "FAILED".

Definition is_final (t : TaskStatus) : bool := bool_decide (t_status t = SUCCEEDED \/ t_status t = FAILED).

(** ** Blocks of tasks *)

(** The clock is read for each time that is not set: twice per task. *)
Definition buildTaskBlock (clock : nat -> Z) (tasks : list TaskStatus) : MBlock :=
  buildBlock_rows
    [(lit "id", map t_id tasks); (lit "status", map t_status tasks); (lit "progress", map t_progress tasks);
     (lit "reason", map t_reason tasks); (lit "user", map t_user tasks); (lit "context", map t_context tasks)]
    [(lit "last_modified", imap (fun i t => if decide (t_last_modified t = -1) then clock (2 * i)%nat else t_last_modified t) tasks);
     (lit "created", imap (fun i t => if decide (t_created t = -1) then clock (2 * i + 1)%nat else t_created t) tasks)].

Definition buildRecord (clock : nat -> Z) (task : TaskStatus) : WalRecord MBlock := new_record ADD_DATA_BLOCK (buildTaskBlock clock [task]).

Record task_columns : Type := mkColumns {
  id_col : column_data; status_col : column_data; progress_col : column_data; reason_col : column_data;
  user_col : column_data; context_col : column_data; last_modified_col : column_data; created_col : column_data
}.

(** The result of [validateSchema] is not looked at: a column that is missing is a null pointer. *)
Definition find_columns (b : MBlock) : option task_columns :=
  id ← findColumn b (lit "id"); status ← findColumn b (lit "status"); progress ← findColumn b (lit "progress");
  reason ← findColumn b (lit "reason"); user ← findColumn b (lit "user"); context ← findColumn b (lit "context");
  last_modified ← findColumn b (lit "last_modified"); created ← findColumn b (lit "created");
  Some (mkColumns id status progress reason user context last_modified created).

Definition read_task (c : task_columns) (i : nat) : option (result TaskStatus) :=
  id ← getDataAt (id_col c) i; status ← getDataAt (status_col c) i; progress ← getDataAt (progress_col c) i;
  reason ← getDataAt (reason_col c) i; user ← getDataAt (user_col c) i; context ← getDataAt (context_col c) i;
  last_modified ← getInt (last_modified_col c) i;
  match last_modified with
  | Throw e => Some (Throw e)
  | Ok last_modified =>
      created ← getInt (created_col c) i;
      Some (match created with
            | Throw e => Throw e
            | Ok created => Ok (mkTask id status progress reason user context last_modified created)
            end)
  end.

Fixpoint read_tasks (c : task_columns) (rows : list nat) : option (result (list TaskStatus)) :=
  match rows with
  | [] => Some (Ok [])
  | i :: rows =>
      t ← read_task c i;
      match t with
      | Throw e => Some (Throw e)
      | Ok t => ts ← read_tasks c rows; Some (match ts with Ok ts => Ok (t :: ts) | Throw e => Throw e end)
      end
  end.

Definition buildTaskStatusFromBlock (b : MBlock) : option (result (list TaskStatus)) :=
  c ← find_columns b; read_tasks c (seq 0 (column_size (id_col c))).

(** [tasks[0]] *)
Definition buildTaskStatusFromRecord (r : WalRecord MBlock) : option (result TaskStatus) :=
  ts ← buildTaskStatusFromBlock (block r);
  match ts with
  | Throw e => Some (Throw e)
  | Ok ts => t ← head ts; Some (Ok t)
  end.

(** ** The service *)

Abbreviation ptr := nat.

Record service : Type := mkService {
  objects : gmap ptr TaskStatus;
  indexed_by_id : gmap str ptr;
  indexed_by_user : gmap str (gmap str ptr);
  finished_tasks : gmap Z (list ptr);
  table_exists : bool
}.

Definition new_service : service := mkService ∅ ∅ ∅ ∅ false.

(** The fields of an object that is there are overwritten, but for [id] and [created]. *)
Definition overwrite (old new : TaskStatus) : TaskStatus :=
  mkTask (t_id old) (t_status new) (t_progress new) (t_reason new) (t_user new) (t_context new) (t_last_modified new) (t_created old).

Definition updateTaskStatus (sv : service) (task : TaskStatus) : option service :=
  match indexed_by_id sv !! t_id task with
  | None =>
      let p := fresh (dom (objects sv)) in
      let by_user := default ∅ (indexed_by_user sv !! t_user task) in
      Some (mkService (<[p := task]> (objects sv)) (<[t_id task := p]> (indexed_by_id sv))
              (<[t_user task := <[t_id task := p]> by_user]> (indexed_by_user sv)) (finished_tasks sv) (table_exists sv))
  | Some p =>
      old ← objects sv !! p;
      _ ← indexed_by_user sv !! t_user task;
      Some (mkService (<[p := overwrite old task]> (objects sv)) (indexed_by_id sv) (indexed_by_user sv) (finished_tasks sv) (table_exists sv))
  end.

Fixpoint processRecords (sv : service) (records : list (WalRecord MBlock)) : option (service * result unit) :=
  match records with
  | [] => Some (sv, Ok tt)
  | r :: records =>
      t ← buildTaskStatusFromRecord r;
      match t with
      | Throw e => Some (sv, Throw e)
      | Ok t => sv ← updateTaskStatus sv t; processRecords sv records
      end
  end.

(** [append]: the error of the log, or 0. *)
Definition append (err : Z) : Z := if decide (err <> ErrorCodes.OK) then err else 0.

(** ** Looking up *)

Definition findByIdInMemory (sv : service) (order : gmap Z (list ptr) -> list (list ptr)) (id : str) : option ptr :=
  match indexed_by_id sv !! id with
  | Some p => Some p
  | None => find (fun p => match objects sv !! p with Some t => bool_decide (t_id t = id) | None => false end) (concat (order (finished_tasks sv)))
  end.

(** Tasks that are finished are looked for only when the user has others. *)
Definition findByUserInMemory (sv : service) (user_order : gmap str ptr -> list ptr) (order : gmap Z (list ptr) -> list (list ptr)) (user : str) : list ptr :=
  match indexed_by_user sv !! user with
  | None => []
  | Some by_user =>
      user_order by_user
      ++ List.filter (fun p => match objects sv !! p with Some t => bool_decide (t_user t = user) | None => false end) (concat (order (finished_tasks sv)))
  end.

(** The local catalog, the catalog of the cluster and the topic of the table. *)
Definition tableExists (sv : service) (local_table catalog_table : bool) (describe_err : Z) : service * bool :=
  if table_exists sv then (sv, true)
  else
    let exists_now := local_table || catalog_table || bool_decide (describe_err = ErrorCodes.OK) in
    (mkService (objects sv) (indexed_by_id sv) (indexed_by_user sv) (finished_tasks sv) exists_now, exists_now).

Definition query_by_id (id : str) : str :=
  lit "SELECT DISTINCT id, status, progress, reason, user, context, created, last_modified FROM system.tasks WHERE user <> '' AND id == '"
  ++ id ++ lit "' ORDER BY last_modified DESC".
Definition query_by_user (user : str) : str :=
  lit "SELECT DISTINCT id, status, progress, reason, user, context, created, last_modified FROM system.tasks WHERE user == '"
  ++ user ++ lit "' ORDER BY last_modified DESC".

(** The rows of all blocks of an answer. *)
Fixpoint read_blocks (blocks : list MBlock) : option (result (list TaskStatus)) :=
  match blocks with
  | [] => Some (Ok [])
  | b :: blocks =>
      ts ← buildTaskStatusFromBlock b;
      match ts with
      | Throw e => Some (Throw e)
      | Ok ts => rest ← read_blocks blocks; Some (match rest with Ok rest => Ok (ts ++ rest) | Throw e => Throw e end)
      end
  end.

Definition select_tasks (exists_table : bool) (select : str -> result (list MBlock)) (query : str) : option (result (list TaskStatus)) :=
  if exists_table then
    match select query with Throw e => Some (Throw e) | Ok blocks => read_blocks blocks end
  else Some (Ok []).

Definition findByIdInTable (exists_table : bool) (select : str -> result (list MBlock)) (id : str) : option (result (option TaskStatus)) :=
  r ← select_tasks exists_table select (query_by_id id);
  Some (match r with Ok ts => Ok (head ts) | Throw e => Throw e end).

Definition findById (sv : service) (order : gmap Z (list ptr) -> list (list ptr)) (exists_table : bool) (select : str -> result (list MBlock)) (id : str)
    : option (result (option TaskStatus)) :=
  match findByIdInMemory sv order id with
  | Some p => t ← objects sv !! p; Some (Ok (Some t))
  | None => findByIdInTable exists_table select id
  end.

Definition findByUser (sv : service) (user_order : gmap str ptr -> list ptr) (order : gmap Z (list ptr) -> list (list ptr)) (exists_table : bool)
    (select : str -> result (list MBlock)) (user : str) : option (result (list TaskStatus)) :=
  found ← mapM (fun p => objects sv !! p) (findByUserInMemory sv user_order order user);
  r ← select_tasks exists_table select (query_by_user user);
  Some (match r with Ok ts => Ok (found ++ ts) | Throw e => Throw e end).

(** ** Finished tasks *)

Definition CACHE_FINISHED_TASK_MS : Z := 30000.

(** The first loop of [persistentFinishedTask], over the ids in the order of the hash map. *)
Definition finish_task (sv : service) (id : str) : option service :=
  p ← indexed_by_id sv !! id;
  t ← objects sv !! p;
  if is_final t then
    by_user ← (indexed_by_user sv !! t_user t : option (gmap str ptr));
    _ ← (by_user !! t_id t : option ptr);
    let by_user : gmap str ptr := delete (t_id t) by_user in
    let users := if decide (by_user = ∅) then delete (t_user t) (indexed_by_user sv) else <[t_user t := by_user]> (indexed_by_user sv) in
    Some (mkService (objects sv) (delete id (indexed_by_id sv)) users
            (<[t_last_modified t := default [] (finished_tasks sv !! t_last_modified t) ++ [p]]> (finished_tasks sv)) (table_exists sv))
  else Some sv.

Fixpoint finish_tasks (sv : service) (ids : list str) : option service :=
  match ids with
  | [] => Some sv
  | id :: ids => sv ← finish_task sv id; finish_tasks sv ids
  end.

(** The second loop: the age of a task is the clock in seconds minus the time of its last change. *)
Fixpoint take_expired {A : Type} (clock : Z -> Z) (keys : list Z) (finished : gmap Z (list A)) : option (gmap Z (list A) * list A) :=
  match keys with
  | [] => Some (finished, [])
  | k :: keys =>
      let age := clock k - k in
      if negb (in_signed 64 age) then None
      else if age <? CACHE_FINISHED_TASK_MS then take_expired clock keys finished
      else
        '(finished', ps) ← take_expired clock keys (delete k finished);
        Some (finished', default [] (finished !! k) ++ ps)
  end.

(** The lines of the literal are joined with their indentation. *)
Definition insert_prefix : str :=
  lit "INSERT INTO system.tasks " ++ replicate 20 " "%char
  ++ lit "(id, status, progress, reason, user, context, created, last_modified) " ++ replicate 20 " "%char ++ lit "VALUES ".

Definition task_values (delimiter : str) (t : TaskStatus) : str :=
  delimiter ++ lit "('" ++ t_id t ++ lit "', '" ++ t_status t ++ lit "', '" ++ t_progress t ++ lit "', '" ++ t_reason t ++ lit "', '"
  ++ t_user t ++ lit "', '" ++ t_context t ++ lit "', " ++ writeIntText (t_created t) ++ lit ", " ++ writeIntText (t_last_modified t) ++ lit ")".

Fixpoint all_values (delimiter : str) (ts : list TaskStatus) : str :=
  match ts with
  | [] => []
  | t :: ts => task_values delimiter t ++ all_values (lit ",") ts
  end.

(** The statement [persistentTaskStatuses] executes. *)
Definition insert_query (ts : list TaskStatus) : str := insert_prefix ++ all_values [] ts.

(** The statement, when there is one; whether it succeeds is not looked at. *)
Definition persistentFinishedTask (sv : service) (ids : gset str -> list str) (keys : gset Z -> list Z) (clock : Z -> Z) : option (service * option str) :=
  sv ← finish_tasks sv (ids (dom (indexed_by_id sv)));
  '(finished, ps) ← take_expired clock (keys (dom (finished_tasks sv))) (finished_tasks sv);
  ts ← mapM (fun p => objects sv !! p) ps;
  Some (mkService (objects sv) (indexed_by_id sv) (indexed_by_user sv) finished (table_exists sv),
        if decide (ps = []) then None else Some (insert_query ts)).
End Tasks.
Import Tasks.

(** ** Blocks round trip *)

Definition stamp (clock : nat -> Z) (i : nat) (t : TaskStatus) : TaskStatus :=
  mkTask (t_id t) (t_status t) (t_progress t) (t_reason t) (t_user t) (t_context t)
    (if decide (t_last_modified t = -1) then clock (2 * i)%nat else t_last_modified t)
    (if decide (t_created t = -1) then clock (2 * i + 1)%nat else t_created t).

Definition times_fit (t : TaskStatus) : Prop := in_signed 64 (t_last_modified t) = true /\ in_signed 64 (t_created t) = true.

Lemma to_signed_64 z : in_signed 64 z = true -> to_signed 64 (wrap 64 z) = z.
Proof.
  unfold in_signed, to_signed, wrap. intros H. apply andb_true_iff in H as [H1 H2]. apply Z.leb_le in H1. apply Z.ltb_lt in H2.
  change (64 - 1) with 63 in *. destruct (Z_lt_ge_dec z 0).
  - rewrite <- (Z.mod_unique z (2 ^ 64) (-1) (z + 2 ^ 64)) by lia. destruct (Z.ltb_spec (z + 2 ^ 64) (2 ^ 63)); lia.
  - rewrite Z.mod_small by lia. destruct (Z.ltb_spec z (2 ^ 63)); lia.
Qed.

Lemma columns_of clock (ts : list TaskStatus) :
  find_columns (buildTaskBlock clock ts)
  = Some (mkColumns (CString (map t_id ts)) (CString (map t_status ts)) (CString (map t_progress ts)) (CString (map t_reason ts)) (CString (map t_user ts))
      (CString (map t_context ts)) (CInt 8 (imap (fun i t => if decide (t_last_modified t = -1) then clock (2 * i)%nat else t_last_modified t) ts))
      (CInt 8 (imap (fun i t => if decide (t_created t = -1) then clock (2 * i + 1)%nat else t_created t) ts))).
Proof. reflexivity. Qed.

Lemma read_tasks_seq c (f : nat -> TaskStatus -> TaskStatus) (ts : list TaskStatus) k :
  (forall i t, ts !! i = Some t -> read_task c (k + i) = Some (Ok (f (k + i)%nat t))) ->
  read_tasks c (seq k (length ts)) = Some (Ok (imap (fun i => f (k + i)%nat) ts)).
Proof.
  revert k. induction ts as [|t ts IH]; intros k H; [done|]. cbn [length seq read_tasks imap].
  pose proof (H 0%nat t eq_refl) as H0. rewrite Nat.add_0_r in H0. rewrite H0. cbn [mbind option_bind].
  rewrite (IH (S k)) by (intros i t' Ht; replace (S k + i)%nat with (k + S i)%nat by lia; by apply H).
  cbn [mbind option_bind]. rewrite Nat.add_0_r. do 2 f_equal. f_equal. apply imap_ext. intros i x _. cbn. f_equal. lia.
Qed.

Lemma block_round_trip clock (ts : list TaskStatus) :
  Forall times_fit (imap (stamp clock) ts) -> buildTaskStatusFromBlock (buildTaskBlock clock ts) = Some (Ok (imap (stamp clock) ts)).
Proof.
  intros HF. unfold buildTaskStatusFromBlock. rewrite columns_of. cbn [mbind option_bind id_col column_size]. rewrite length_map.
  apply (read_tasks_seq _ (stamp clock) ts 0). intros i t Ht. cbn [Nat.add].
  assert (Hfit : times_fit (stamp clock i t)) by (apply (Forall_lookup_1 _ _ i (stamp clock i t) HF); by rewrite list_lookup_imap, Ht).
  destruct Hfit as [H1 H2]. cbn [stamp t_last_modified t_created] in H1, H2. unfold read_task.
  cbn [id_col status_col progress_col reason_col user_col context_col last_modified_col created_col getDataAt getInt].
  rewrite !list_lookup_fmap, !list_lookup_imap, Ht. cbn [fmap option_fmap option_map mbind option_bind]. by rewrite !to_signed_64.
Qed.

(** What is appended is what every node reads: the status with its times set. *)
Lemma task_record_round_trip (clock : nat -> Z) (t : TaskStatus) :
  times_fit (stamp clock 0 t) -> buildTaskStatusFromRecord (buildRecord clock t) = Some (Ok (stamp clock 0 t)).
Proof.
  intros HF. unfold buildTaskStatusFromRecord, buildRecord. cbn [new_record block]. rewrite block_round_trip by (by constructor). done.
Qed.

(** ** The reference: statuses instead of objects, and no index by user *)

Record tref : Type := mkRef { r_active : gmap str TaskStatus; r_finished : gmap Z (list TaskStatus) }.

Definition ref_report (r : tref) (t : TaskStatus) : tref :=
  mkRef (<[t_id t := match r_active r !! t_id t with Some old => overwrite old t | None => t end]> (r_active r)) (r_finished r).

Definition ref_finish (r : tref) (id : str) : tref :=
  match r_active r !! id with
  | Some t => if is_final t then mkRef (delete id (r_active r)) (<[t_last_modified t := default [] (r_finished r !! t_last_modified t) ++ [t]]> (r_finished r)) else r
  | None => r
  end.

Section runs.
Context (ids : gset str -> list str) (Hids : forall X, ids X ≡ₚ elements X).
Context (keys : gset Z -> list Z) (Hkeys : forall X, keys X ≡ₚ elements X).
(** Every task belongs to one user. *)
Context (owner : str -> str).

Inductive task_event : Type :=
| TReport (t : TaskStatus)
| TPersist (clock : Z -> Z).

Definition task_step (sv : service) (ev : task_event) : option (service * list str) :=
  match ev with
  | TReport t => sv ← updateTaskStatus sv t; Some (sv, [])
  | TPersist clock => '(sv, q) ← persistentFinishedTask sv ids keys clock; Some (sv, option_list q)
  end.

Fixpoint task_run (sv : service) (evs : list task_event) : option (service * list str) :=
  match evs with
  | [] => Some (sv, [])
  | ev :: evs => '(sv, qs) ← task_step sv ev; '(sv, qs') ← task_run sv evs; Some (sv, qs ++ qs')
  end.

Definition ref_step (r : tref) (ev : task_event) : option (tref * list str) :=
  match ev with
  | TReport t => Some (ref_report r t, [])
  | TPersist clock =>
      let r := foldl ref_finish r (ids (dom (r_active r))) in
      '(finished, ts) ← take_expired clock (keys (dom (r_finished r))) (r_finished r);
      Some (mkRef (r_active r) finished, if decide (ts = []) then [] else [insert_query ts])
  end.

Fixpoint ref_run (r : tref) (evs : list task_event) : option (tref * list str) :=
  match evs with
  | [] => Some (r, [])
  | ev :: evs => '(r, qs) ← ref_step r ev; '(r, qs') ← ref_run r evs; Some (r, qs ++ qs')
  end.

Definition event_ok (ev : task_event) : Prop :=
  match ev with
  | TReport t => t_user t = owner (t_id t) /\ 0 <= t_last_modified t < 2 ^ 62
  | TPersist clock => forall k, 0 <= clock k < 2 ^ 62
  end.

(** The objects behind the pointers are the statuses of the reference. *)
Record agrees (sv : service) (r : tref) : Prop := {
  ag_active : forall id, option_Forall2 (fun p t => objects sv !! p = Some t) (indexed_by_id sv !! id) (r_active r !! id);
  ag_ids : forall id t, r_active r !! id = Some t -> t_id t = id /\ t_user t = owner id /\ 0 <= t_last_modified t < 2 ^ 62;
  ag_users : forall u, default ∅ (indexed_by_user sv !! u) = filter (fun ip => owner ip.1 = u) (indexed_by_id sv);
  ag_nonempty : forall u, indexed_by_user sv !! u <> Some ∅;
  ag_finished : forall k, option_Forall2 (Forall2 (fun p t => objects sv !! p = Some t)) (finished_tasks sv !! k) (r_finished r !! k);
  ag_keys : forall k, is_Some (r_finished r !! k) -> 0 <= k < 2 ^ 62;
  ag_disjoint : forall id p k l, indexed_by_id sv !! id = Some p -> finished_tasks sv !! k = Some l -> p ∉ l
}.

Lemma agrees_new : agrees new_service (mkRef ∅ ∅).
Proof.
  split; cbn; intros; rewrite ?lookup_empty in *; try done; try constructor.
Qed.

Lemma agrees_pointer sv r id p : agrees sv r -> indexed_by_id sv !! id = Some p -> exists t, objects sv !! p = Some t /\ r_active r !! id = Some t.
Proof. intros HA Hp. pose proof (ag_active _ _ HA id) as H. rewrite Hp in H. inversion H as [? t Ht|]; subst. by exists t. Qed.

Lemma agrees_status sv r id t : agrees sv r -> r_active r !! id = Some t -> exists p, indexed_by_id sv !! id = Some p /\ objects sv !! p = Some t.
Proof. intros HA Ht. pose proof (ag_active _ _ HA id) as H. rewrite Ht in H. inversion H as [p ? Hp|]; subst. by exists p. Qed.

Lemma agrees_inj sv r i j p : agrees sv r -> indexed_by_id sv !! i = Some p -> indexed_by_id sv !! j = Some p -> i = j.
Proof.
  intros HA Hi Hj. destruct (agrees_pointer _ _ _ _ HA Hi) as (t & Ht & Hit). destruct (agrees_pointer _ _ _ _ HA Hj) as (t' & Ht' & Hjt).
  rewrite Ht in Ht'. injection Ht' as <-. destruct (ag_ids _ _ HA _ _ Hit) as [<- _]. by destruct (ag_ids _ _ HA _ _ Hjt) as [<- _].
Qed.

(** The entry of a task in the index of its user. *)
Lemma agrees_by_user sv r id p :
  agrees sv r -> indexed_by_id sv !! id = Some p ->
  exists by_user, indexed_by_user sv !! owner id = Some by_user /\ by_user !! id = Some p /\ by_user = filter (fun ip => owner ip.1 = owner id) (indexed_by_id sv).
Proof.
  intros HA Hp. pose proof (ag_users _ _ HA (owner id)) as Hu.
  assert (Hf : filter (fun ip : str * ptr => owner ip.1 = owner id) (indexed_by_id sv) !! id = Some p) by (by apply map_lookup_filter_Some).
  destruct (indexed_by_user sv !! owner id) as [m|]; cbn in Hu; [exists m; by rewrite Hu|]. rewrite <- Hu, lookup_empty in Hf. done.
Qed.

Lemma agrees_live sv r id q : agrees sv r -> indexed_by_id sv !! id = Some q -> q ∈ dom (objects sv).
Proof. intros HA Hq. destruct (agrees_pointer _ _ _ _ HA Hq) as (t & Ht & _). by apply elem_of_dom_2 in Ht. Qed.

Lemma agrees_finished_live sv r k l q : agrees sv r -> finished_tasks sv !! k = Some l -> q ∈ l -> q ∈ dom (objects sv).
Proof.
  intros HA Hl Hq. pose proof (ag_finished _ _ HA k) as H. rewrite Hl in H. inversion H as [? ts HF|]; subst.
  apply list_elem_of_lookup in Hq as [i Hi]. destruct (Forall2_lookup_l _ _ _ _ _ HF Hi) as (t & _ & Ht). by apply elem_of_dom_2 in Ht.
Qed.

(** Writing to an object that no finished task is keeps the finished tasks. *)
Lemma finished_write (objs : gmap ptr TaskStatus) (p : ptr) t (fin : gmap Z (list ptr)) (rfin : gmap Z (list TaskStatus)) :
  (forall k l, fin !! k = Some l -> p ∉ l) ->
  (forall k, option_Forall2 (Forall2 (fun p t => objs !! p = Some t)) (fin !! k) (rfin !! k)) ->
  forall k, option_Forall2 (Forall2 (fun q u => <[p := t]> objs !! q = Some u)) (fin !! k) (rfin !! k).
Proof.
  intros Hp HF k. specialize (HF k). destruct (fin !! k) as [l|] eqn:Hl; inversion HF as [? ts H|]; subst; [|constructor]. constructor.
  specialize (Hp k l Hl). clear - H Hp. induction H as [|q u l ts Hq H IH]; constructor.
  - rewrite lookup_insert_ne by (intros ->; set_solver). done.
  - apply IH. set_solver.
Qed.

Lemma report_new sv r t :
  agrees sv r -> event_ok (TReport t) -> indexed_by_id sv !! t_id t = None -> exists sv', updateTaskStatus sv t = Some sv' /\ agrees sv' (ref_report r t).
Proof.
  intros HA [Hu Hlm] Hn. unfold updateTaskStatus. rewrite Hn. eexists. split; [done|].
  assert (Hrn : r_active r !! t_id t = None) by (pose proof (ag_active _ _ HA (t_id t)) as H; rewrite Hn in H; by inversion H).
  set (p := fresh (dom (objects sv))). assert (Hp : p ∉ dom (objects sv)) by apply is_fresh.
  assert (Hlive : forall id q, indexed_by_id sv !! id = Some q -> q <> p) by (intros id q Hq ->; by apply Hp, (agrees_live _ _ _ _ HA Hq)).
  unfold ref_report. rewrite Hrn. split; cbn [objects indexed_by_id indexed_by_user finished_tasks r_active r_finished].
  - intros id. destruct (decide (id = t_id t)) as [->|Hne]; [rewrite !lookup_insert_eq; constructor; by rewrite lookup_insert_eq|].
    rewrite !lookup_insert_ne by done. pose proof (ag_active _ _ HA id) as H. destruct (indexed_by_id sv !! id) as [q|] eqn:Hq; inversion H; subst; constructor.
    rewrite lookup_insert_ne; [done|]. intros Heq. by apply (Hlive _ _ Hq).
  - intros id t'. destruct (decide (id = t_id t)) as [->|Hne]; [rewrite lookup_insert_eq; intros [= <-]; done|]. rewrite lookup_insert_ne by done. apply (ag_ids _ _ HA).
  - intros u. destruct (decide (u = t_user t)) as [->|Hne].
    + rewrite lookup_insert_eq. rewrite map_filter_insert_True by (cbn; done). cbn [default]. rewrite <- (ag_users _ _ HA). by rewrite Hu.
    + rewrite lookup_insert_ne by done. rewrite map_filter_insert_not; [apply (ag_users _ _ HA)|]. cbn. intros q Hq. congruence.
  - intros u. destruct (decide (u = t_user t)) as [->|Hne]; [rewrite lookup_insert_eq; intros [= H]; by apply insert_non_empty in H|].
    rewrite lookup_insert_ne by done. apply (ag_nonempty _ _ HA).
  - apply finished_write; [|apply (ag_finished _ _ HA)]. intros k l Hl Hin. by apply Hp, (agrees_finished_live _ _ _ _ _ HA Hl).
  - apply (ag_keys _ _ HA).
  - intros id q k l. destruct (decide (id = t_id t)) as [->|Hne].
    + rewrite lookup_insert_eq. intros [= <-] Hl Hin. by apply Hp, (agrees_finished_live _ _ _ _ _ HA Hl).
    + rewrite lookup_insert_ne by done. apply (ag_disjoint _ _ HA).
Qed.

Lemma report_again sv r t p :
  agrees sv r -> event_ok (TReport t) -> indexed_by_id sv !! t_id t = Some p -> exists sv', updateTaskStatus sv t = Some sv' /\ agrees sv' (ref_report r t).
Proof.
  intros HA [Hu Hlm] Hp. unfold updateTaskStatus. rewrite Hp. destruct (agrees_pointer _ _ _ _ HA Hp) as (old & Hold & Hr).
  destruct (agrees_by_user _ _ _ _ HA Hp) as (m & Hm & _). rewrite Hold. cbn [mbind option_bind]. rewrite Hu, Hm. cbn [mbind option_bind].
  eexists. split; [done|]. unfold ref_report. rewrite Hr.
  split; cbn [objects indexed_by_id indexed_by_user finished_tasks r_active r_finished]; try apply HA.
  - intros id. destruct (decide (id = t_id t)) as [->|Hne]; [rewrite Hp, lookup_insert_eq; constructor; by rewrite lookup_insert_eq|].
    rewrite lookup_insert_ne by done. pose proof (ag_active _ _ HA id) as H. destruct (indexed_by_id sv !! id) as [q|] eqn:Hq; inversion H; subst; constructor.
    rewrite lookup_insert_ne; [done|]. intros ->. by apply Hne, (agrees_inj _ _ _ _ _ HA Hq).
  - intros id t'. destruct (decide (id = t_id t)) as [->|Hne]; [|rewrite lookup_insert_ne by done; apply (ag_ids _ _ HA)].
    rewrite lookup_insert_eq. intros [= <-]. cbn. split; [by apply (ag_ids _ _ HA)|done].
  - apply finished_write; [|apply (ag_finished _ _ HA)]. intros k l. by apply (ag_disjoint _ _ HA (t_id t)).
Qed.

Lemma report_agrees sv r t : agrees sv r -> event_ok (TReport t) -> exists sv', updateTaskStatus sv t = Some sv' /\ agrees sv' (ref_report r t).
Proof. intros HA Hok. destruct (indexed_by_id sv !! t_id t) eqn:Hp; eauto using report_new, report_again. Qed.

Lemma finish_user_index (sv : service) (r : tref) (id : str) (p : ptr) (by_user : gmap str ptr) :
  agrees sv r -> indexed_by_id sv !! id = Some p -> by_user = filter (fun ip => owner ip.1 = owner id) (indexed_by_id sv) ->
  let users := if decide (delete id by_user = ∅) then delete (owner id) (indexed_by_user sv) else <[owner id := delete id by_user]> (indexed_by_user sv) in
  (forall u, default ∅ (users !! u) = filter (fun ip => owner ip.1 = u) (delete id (indexed_by_id sv))) /\ forall u, users !! u <> Some ∅.
Proof.
  intros HA Hp Hm. cbn zeta. assert (Hother : forall u, u <> owner id -> default ∅ (indexed_by_user sv !! u) = filter (fun ip => owner ip.1 = u) (delete id (indexed_by_id sv))).
  { intros u Hu. rewrite (ag_users _ _ HA), map_filter_delete_not; [done|]. cbn. congruence. }
  assert (Hself : delete id by_user = filter (fun ip => owner ip.1 = owner id) (delete id (indexed_by_id sv))) by (by rewrite Hm, map_filter_delete).
  destruct (decide (delete id by_user = ∅)) as [He|He]; split; intros u; destruct (decide (u = owner id)) as [->|Hne];
    rewrite ?lookup_delete_eq, ?lookup_insert_eq, ?lookup_delete_ne, ?lookup_insert_ne by done; auto; try apply (ag_nonempty _ _ HA).
  - cbn [default]. by rewrite <- Hself, He.
  - congruence.
Qed.

Lemma finish_agrees sv r id p : agrees sv r -> indexed_by_id sv !! id = Some p -> exists sv', finish_task sv id = Some sv' /\ agrees sv' (ref_finish r id) /\
  forall j, j <> id -> indexed_by_id sv' !! j = indexed_by_id sv !! j.
Proof.
  intros HA Hp. destruct (agrees_pointer _ _ _ _ HA Hp) as (t & Ht & Hr). destruct (ag_ids _ _ HA _ _ Hr) as (Hid & Hu & Hlm).
  destruct (agrees_by_user _ _ _ _ HA Hp) as (m & Hm & Hmp & Hmf).
  unfold finish_task, ref_finish. rewrite Hp, Hr. cbn [mbind option_bind]. rewrite Ht. cbn [mbind option_bind].
  destruct (is_final t); [|by exists sv]. rewrite Hu, Hm. cbn [mbind option_bind]. rewrite Hid, Hmp. cbn [mbind option_bind].
  destruct (finish_user_index sv r id p m HA Hp Hmf) as [Hu1 Hu2]. eexists. split; [done|]. split.
  2: { cbn. intros j Hj. by rewrite lookup_delete_ne. }
  split; cbn [objects indexed_by_id indexed_by_user finished_tasks r_active r_finished]; auto.
  - intros j. destruct (decide (j = id)) as [->|Hne]; [rewrite !lookup_delete_eq; constructor|]. rewrite !lookup_delete_ne by done. apply (ag_active _ _ HA).
  - intros j t' Hj. apply lookup_delete_Some in Hj as [_ Hj]. by apply (ag_ids _ _ HA).
  - intros k. destruct (decide (k = t_last_modified t)) as [->|Hne]; [|rewrite !lookup_insert_ne by done; apply (ag_finished _ _ HA)].
    rewrite !lookup_insert_eq. constructor. apply Forall2_app; [|by repeat constructor].
    pose proof (ag_finished _ _ HA (t_last_modified t)) as H. by inversion H; cbn.
  - intros k. destruct (decide (k = t_last_modified t)) as [->|Hne]; [done|]. rewrite lookup_insert_ne by done. apply (ag_keys _ _ HA).
  - intros j q k l Hj Hl Hin. apply lookup_delete_Some in Hj as [Hne Hj]. destruct (decide (k = t_last_modified t)) as [->|Hk].
    + rewrite lookup_insert_eq in Hl. injection Hl as <-. apply elem_of_app in Hin as [Hin|Hin].
      * destruct (finished_tasks sv !! t_last_modified t) as [l|] eqn:Hl; cbn in Hin; [by apply (ag_disjoint _ _ HA _ _ _ _ Hj Hl)|by apply not_elem_of_nil in Hin].
      * apply list_elem_of_singleton in Hin as ->. by apply Hne, (agrees_inj _ _ _ _ _ HA Hp).
    + rewrite lookup_insert_ne in Hl by done. by apply (ag_disjoint _ _ HA _ _ _ _ Hj Hl).
Qed.

Lemma finish_all_agrees l sv r : agrees sv r -> NoDup l -> (forall id, id ∈ l -> is_Some (indexed_by_id sv !! id)) ->
  exists sv', finish_tasks sv l = Some sv' /\ agrees sv' (foldl ref_finish r l).
Proof.
  revert sv r. induction l as [|id l IH]; intros sv r HA Hnd Hl; [by exists sv|]. apply NoDup_cons in Hnd as [Hn Hnd].
  destruct (Hl id) as [p Hp]; [set_solver|]. destruct (finish_agrees sv r id p HA Hp) as (sv' & Hs & HA' & Hrest).
  cbn [finish_tasks foldl]. rewrite Hs. cbn [mbind option_bind]. apply IH; [done|done|]. intros j Hj. rewrite Hrest; [apply Hl; set_solver|]. by intros ->.
Qed.

Lemma agrees_dom sv r : agrees sv r -> dom (indexed_by_id sv) = dom (r_active r) /\ dom (finished_tasks sv) = dom (r_finished r).
Proof.
  intros HA. split; apply set_eq; intros k; rewrite !elem_of_dom.
  - pose proof (ag_active _ _ HA k) as H. by inversion H; subst; split; intros []; eauto.
  - pose proof (ag_finished _ _ HA k) as H. by inversion H; subst; split; intros []; eauto.
Qed.

Lemma expired_agrees {A B} (P : A -> B -> Prop) (clock : Z -> Z) ks (fin : gmap Z (list A)) (rfin : gmap Z (list B)) :
  (forall k, 0 <= clock k < 2 ^ 62) -> (forall k, k ∈ ks -> 0 <= k < 2 ^ 62) ->
  (forall k, option_Forall2 (Forall2 P) (fin !! k) (rfin !! k)) ->
  exists fin' rfin' ps ts, take_expired clock ks fin = Some (fin', ps) /\ take_expired clock ks rfin = Some (rfin', ts) /\ Forall2 P ps ts /\
    (forall k, option_Forall2 (Forall2 P) (fin' !! k) (rfin' !! k)) /\ fin' ⊆ fin /\ rfin' ⊆ rfin.
Proof.
  intros Hc. revert fin rfin. induction ks as [|k ks IH]; intros fin rfin Hk HF; cbn [take_expired]; [exists fin, rfin, [], []; auto 10|].
  assert (Hin : in_signed 64 (clock k - k) = true).
  { specialize (Hc k). specialize (Hk k ltac:(set_solver)). unfold in_signed. apply andb_true_iff. rewrite Z.leb_le, Z.ltb_lt. change (64 - 1) with 63. lia. }
  rewrite Hin. cbn [negb]. assert (Hk' : forall j, j ∈ ks -> 0 <= j < 2 ^ 62) by (intros j Hj; apply Hk; set_solver).
  destruct (clock k - k <? CACHE_FINISHED_TASK_MS); [by apply IH|].
  destruct (IH (delete k fin) (delete k rfin) Hk') as (fin' & rfin' & ps & ts & H1 & H2 & H3 & H4 & H5 & H6).
  { intros j. destruct (decide (j = k)) as [->|Hne]; [rewrite !lookup_delete_eq; constructor|]. rewrite !lookup_delete_ne by done. apply HF. }
  rewrite H1, H2. cbn [mbind option_bind]. eexists _, _, _, _. split; [done|]. split; [done|]. split; [|split; [done|]].
  - apply Forall2_app; [|done]. specialize (HF k). by inversion HF; cbn.
  - split; (etrans; [eassumption|apply delete_subseteq]).
Qed.

Lemma persist_agrees sv r clock : agrees sv r -> event_ok (TPersist clock) ->
  exists sv' r' qs, task_step sv (TPersist clock) = Some (sv', qs) /\ ref_step r (TPersist clock) = Some (r', qs) /\ agrees sv' r'.
Proof.
  intros HA Hc. unfold task_step, ref_step, persistentFinishedTask. destruct (agrees_dom _ _ HA) as [Hd _]. rewrite <- Hd.
  destruct (finish_all_agrees (ids (dom (indexed_by_id sv))) sv r HA) as (s1 & Hs1 & HA1).
  { rewrite Hids. apply NoDup_elements. }
  { intros id Hin. rewrite Hids, elem_of_elements in Hin. by apply elem_of_dom. }
  rewrite Hs1. cbn [mbind option_bind]. set (r1 := foldl _ _ _) in *. destruct (agrees_dom _ _ HA1) as [_ Hd1]. rewrite <- Hd1.
  destruct (expired_agrees (fun p t => objects s1 !! p = Some t) clock (keys (dom (finished_tasks s1))) (finished_tasks s1) (r_finished r1))
    as (fin' & rfin' & ps & ts & H1 & H2 & H3 & H4 & H5 & H6); [done| |apply (ag_finished _ _ HA1)|].
  { intros k Hk. rewrite Hkeys, elem_of_elements, Hd1, elem_of_dom in Hk. by apply (ag_keys _ _ HA1). }
  rewrite H1, H2. cbn [mbind option_bind]. rewrite (proj2 (mapM_Some _ _ _)) by done. cbn [mbind option_bind].
  assert (Hq : option_list (if decide (ps = []) then None else Some (insert_query ts)) = if decide (ts = []) then [] else [insert_query ts]).
  { destruct H3; [done|]. by rewrite !decide_False. }
  rewrite Hq. eexists _, _, _. split; [done|]. split; [done|].
  split; cbn [objects indexed_by_id indexed_by_user finished_tasks r_active r_finished]; try apply HA1; [done| |].
  - intros k [l Hl]. apply (ag_keys _ _ HA1). exists l. by apply (lookup_weaken _ _ _ _ Hl).
  - intros id p k l Hp Hl. apply (ag_disjoint _ _ HA1 id p k); [done|]. by apply (lookup_weaken _ _ _ _ Hl).
Qed.

Lemma run_agrees evs sv r : agrees sv r -> Forall event_ok evs ->
  exists sv' r' qs, task_run sv evs = Some (sv', qs) /\ ref_run r evs = Some (r', qs) /\ agrees sv' r'.
Proof.
  revert sv r. induction evs as [|ev evs IH]; intros sv r HA Hok; [by exists sv, r, []|]. apply Forall_cons in Hok as [Hev Hok]. cbn [task_run ref_run].
  assert (exists sv1 r1 qs1, task_step sv ev = Some (sv1, qs1) /\ ref_step r ev = Some (r1, qs1) /\ agrees sv1 r1) as (sv1 & r1 & qs1 & H1 & H2 & HA1).
  { destruct ev as [t|clock]; [|by apply persist_agrees]. destruct (report_agrees sv r t HA Hev) as (sv1 & Hs & HA1). cbn [task_step ref_step]. rewrite Hs.
    by eexists _, _, _. }
  rewrite H1, H2. cbn [mbind option_bind]. destruct (IH sv1 r1 HA1 Hok) as (sv2 & r2 & qs2 & H3 & H4 & HA2). rewrite H3, H4. cbn [mbind option_bind].
  by eexists _, _, _.
Qed.

(** C13: The service refines the reference when every task belongs to one user: no pointer dangles and no iterator is followed past its end,
    the same statements are executed, and both indexes show the statuses of the reference. *)
Theorem task_service_refines (evs : list task_event) :
  Forall event_ok evs ->
  exists sv r qs, task_run new_service evs = Some (sv, qs) /\ ref_run (mkRef ∅ ∅) evs = Some (r, qs) /\
    (forall id, (p ← indexed_by_id sv !! id; objects sv !! p) = r_active r !! id) /\
    (forall user id t, (by_user ← (indexed_by_user sv !! user : option (gmap str ptr)); p ← (by_user !! id : option ptr); objects sv !! p) = Some t
       <-> r_active r !! id = Some t /\ owner id = user) /\
    (forall k, (ps ← (finished_tasks sv !! k : option (list ptr)); mapM (fun p => objects sv !! p) ps) = r_finished r !! k).
Proof.
  intros Hok. destruct (run_agrees evs _ _ agrees_new Hok) as (sv & r & qs & H1 & H2 & HA). exists sv, r, qs. split; [done|]. split; [done|].
  assert (Hact : forall id, (p ← indexed_by_id sv !! id; objects sv !! p) = r_active r !! id).
  { intros id. pose proof (ag_active _ _ HA id) as H. by inversion H; cbn. }
  split; [done|]. split.
  - intros user id t. rewrite <- Hact. pose proof (ag_users _ _ HA user) as Hu.
    transitivity ((p ← filter (fun ip : str * ptr => owner ip.1 = user) (indexed_by_id sv) !! id; objects sv !! p) = Some t).
    + rewrite <- Hu. destruct (indexed_by_user sv !! user); [done|]. cbn. by rewrite lookup_empty.
    + rewrite !bind_Some. setoid_rewrite map_lookup_filter_Some. cbn. naive_solver.
  - intros k. pose proof (ag_finished _ _ HA k) as H. inversion H; cbn; [|done]. by apply mapM_Some.
Qed.

(** *** Finished tasks are never persisted *)

Definition recent (B : Z) (r : tref) : Prop :=
  map_Forall (fun _ t => B <= t_last_modified t) (r_active r) /\ forall k, is_Some (r_finished r !! k) -> B <= k.

Definition recent_event (B : Z) (ev : task_event) : Prop :=
  match ev with
  | TReport t => B <= t_last_modified t
  | TPersist clock => forall k, clock k < B + CACHE_FINISHED_TASK_MS
  end.
End runs.

Lemma take_expired_none {A} (clock : Z -> Z) ks (fin : gmap Z (list A)) fin' ps :
  (forall k, k ∈ ks -> clock k - k < CACHE_FINISHED_TASK_MS) -> take_expired clock ks fin = Some (fin', ps) -> fin' = fin /\ ps = [].
Proof.
  induction ks as [|k ks IH]; cbn [take_expired]; intros Hk H; [by injection H as <- <-|]. case_match; [done|].
  rewrite (proj2 (Z.ltb_lt _ _)) in H by (apply Hk; set_solver). apply IH; [|done]. intros j Hj. apply Hk. set_solver.
Qed.

Lemma ref_finish_recent B r id : recent B r -> recent B (ref_finish r id).
Proof.
  intros [Ha Hf]. unfold ref_finish. destruct (r_active r !! id) as [t|] eqn:Ht; [|done]. destruct (is_final t); [|done]. split; cbn.
  - by apply map_Forall_delete.
  - intros k. destruct (decide (k = t_last_modified t)) as [->|Hne]; [|by rewrite lookup_insert_ne by done; auto]. intros _. exact (Ha _ _ Ht).
Qed.

Lemma ref_finish_all_recent B ids r : recent B r -> recent B (foldl ref_finish r ids).
Proof. revert r. induction ids as [|id ids IH]; intros r Hr; [done|]. cbn. by apply IH, ref_finish_recent. Qed.

Lemma ref_run_recent ids keys (Hkeys : forall X, keys X ≡ₚ elements X) B evs r r' qs :
  recent B r -> Forall (recent_event B) evs -> ref_run ids keys r evs = Some (r', qs) -> qs = [].
Proof.
  revert r qs. induction evs as [|ev evs IH]; intros r qs Hr Hev H; cbn [ref_run] in H; [by injection H as <- <-|].
  apply Forall_cons in Hev as [He Hev]. apply bind_Some in H as ([r1 q1] & H1 & H). apply bind_Some in H as ([r2 q2] & H2 & H). injection H as <- <-.
  assert (q1 = [] /\ recent B r1) as [-> Hr1]; [|by apply (IH r1)]. destruct ev as [t|clock]; cbn [ref_step] in H1.
  - injection H1 as <- <-. split; [done|]. destruct Hr as [Ha Hf]. split; cbn; [|done]. apply map_Forall_insert_2; [|done]. by destruct (r_active r !! t_id t).
  - set (s := foldl _ _ _) in *. assert (Hs : recent B s) by (by apply ref_finish_all_recent).
    apply bind_Some in H1 as ([f ts] & H1 & H). injection H as <- <-. apply take_expired_none in H1 as [-> ->]; [by split|].
    intros k Hk. rewrite Hkeys, elem_of_elements, elem_of_dom in Hk. apply Hs in Hk. specialize (He k). cbn in He. lia.
Qed.

(** The age of a finished task is taken between the seconds of the monotonic clock and the milliseconds of its last change: as long as the first
    are fewer than the second no statement is ever executed, however long the service runs. *)
Lemma finished_never_persisted ids (Hids : forall X, ids X ≡ₚ elements X) keys (Hkeys : forall X, keys X ≡ₚ elements X) owner (B : Z) (evs : list task_event) :
  Forall (event_ok owner) evs -> Forall (recent_event B) evs -> exists sv, task_run ids keys new_service evs = Some (sv, []).
Proof.
  intros Hok Hrec. destruct (run_agrees ids Hids keys Hkeys owner evs _ _ (agrees_new owner) Hok) as (sv & r & qs & H1 & H2 & _).
  apply (ref_run_recent ids keys Hkeys B) in H2 as ->; [by exists sv| |done]. split; cbn; [apply map_Forall_empty|]. intros k Hk. by destruct Hk.
Qed.

(** *** Witnesses *)

Definition task_a (status : string) (lm : Z) : TaskStatus := mkTask (lit "a") (lit status) [] [] (lit "u") [] lm 0.

Lemma task_service_refines_witness :
  exists sv r qs, task_run elements elements new_service [TReport (task_a "SUBMITTED" 5); TReport (task_a "SUCCEEDED" 9); TPersist (fun _ => 40000)] = Some (sv, qs) /\
    qs = [insert_query [task_a "SUCCEEDED" 9]] /\ r_active r = ∅.
Proof.
  destruct (task_service_refines elements (fun _ => reflexivity _) elements (fun _ => reflexivity _) (fun _ => lit "u")
    [TReport (task_a "SUBMITTED" 5); TReport (task_a "SUCCEEDED" 9); TPersist (fun _ => 40000)]) as (sv & r & qs & H1 & H2 & _).
  { repeat constructor; cbn; lia. }
  exists sv, r, qs. split; [exact H1|]. vm_compute in H2. injection H2 as <- <-. by split.
Defined.

Lemma finished_never_persisted_witness :
  exists sv, task_run elements elements new_service [TReport (task_a "SUCCEEDED" 1600000000000); TPersist (fun _ => 86400); TPersist (fun _ => 31536000)] = Some (sv, []).
Proof.
  apply (finished_never_persisted elements (fun _ => reflexivity _) elements (fun _ => reflexivity _) (fun _ => lit "u") 1600000000000).
  - repeat constructor; cbn; lia.
  - repeat constructor; cbn; lia.
Defined.

(** *** Where the service goes wrong *)

(** The first lookup ends the search: the finished tasks of a user with no other task are not found. *)
Lemma finished_tasks_not_found user_order order :
  exists sv, task_run elements elements new_service [TReport (task_a "SUCCEEDED" 5); TPersist (fun _ => 6)] = Some (sv, []) /\
    (exists p, finished_tasks sv !! 5 = Some [p]) /\ findByUserInMemory sv user_order order (lit "u") = [].
Proof. eexists. split; [vm_compute; reflexivity|]. split; [eexists; vm_compute; reflexivity|]. vm_compute. reflexivity. Qed.

(** A status reported by a user with no task follows the iterator past the end. *)
Lemma other_user_dangles sv p old task :
  indexed_by_id sv !! t_id task = Some p -> objects sv !! p = Some old -> indexed_by_user sv !! t_user task = None -> updateTaskStatus sv task = None.
Proof. intros H1 H2 H3. unfold updateTaskStatus. rewrite H1, H2. cbn [mbind option_bind]. by rewrite H3. Qed.

(** Quotes are not escaped: the statement of one task reads as that of two. *)
Lemma insert_not_escaped :
  insert_query [task_a "SUCCEEDED', '', '', 'u', '', 0, 1),('a', 'FAILED" 2]
  = insert_query [task_a "SUCCEEDED" 1; task_a "FAILED" 2].
Proof. vm_compute. reflexivity. Qed.
