(* ===== verification/MetadataService.v ===== *)
(** * MetadataService: what the catalog, placement, task and DDL services share

    Models src/src/DistributedMetadata/MetadataService.cpp: the topic of a service is
    created, waited for and deleted, its settings are read from the configuration, the
    records of the topic are read in batches and handed to the service.

    The log ([KafkaWAL]) answers each call; an answer may depend on all calls before it.
    [getInt], [getString], [getBool] and [keys] of Poco's configuration, and [trim] and [to_lower] of boost, are parameters. *)

From stdpp Require Import strings.
From S2P Require Import Prelude TextFormat WalRecord KafkaConfig Catalog Io MessageBlock TaskStatus.
Local Open Scope Z_scope.

Module Metadata.
Definition DWAL_MAX_RETRIES : Z := 3.

Inductive mcall : Type :=
| MDescribe (ctx : KafkaWALContext) (err : result Z)
| MCreate (ctx : KafkaWALContext) (err : result Z)
| MRemove (ctx : KafkaWALContext) (err : result Z)
| MSleep (ms : Z)
| MLogException (e : exn)
| MInitConsumer (ctx : KafkaWALContext)
| MInitProducer (ctx : KafkaWALContext)
| MSchedule
| MPostStartup
| MPreShutdown
| MPoolWait.

(** The log as the services see it; [wal_stopped] is the flag of the service. *)
Record wal (E : Type) : Type := mkWal {
  wal_describe : KafkaWALContext -> list E -> result Z;
  wal_create : KafkaWALContext -> list E -> result Z;
  wal_remove : KafkaWALContext -> list E -> result Z;
  wal_stopped : list E -> bool;
  wal_init_consumer : KafkaWALContext -> list E -> result unit;
  wal_init_producer : KafkaWALContext -> list E -> result unit
}.
#[global] Arguments mkWal {E}.
#[global] Arguments wal_describe {E}.
#[global] Arguments wal_create {E}.
#[global] Arguments wal_remove {E}.
#[global] Arguments wal_stopped {E}.
#[global] Arguments wal_init_consumer {E}.
#[global] Arguments wal_init_producer {E}.

Section calls.
Context {E : Type} (note : mcall -> E) (w : wal E).

Definition call_describe (ctx : KafkaWALContext) : io E Z := io_call (wal_describe w ctx) (fun r => note (MDescribe ctx r)) ≫= io_lift.
Definition call_create (ctx : KafkaWALContext) : io E Z := io_call (wal_create w ctx) (fun r => note (MCreate ctx r)) ≫= io_lift.
Definition call_remove (ctx : KafkaWALContext) : io E Z := io_call (wal_remove w ctx) (fun r => note (MRemove ctx r)) ≫= io_lift.
Definition call_init_consumer (ctx : KafkaWALContext) : io E unit := io_call (wal_init_consumer w ctx) (fun _ => note (MInitConsumer ctx)) ≫= io_lift.
Definition call_init_producer (ctx : KafkaWALContext) : io E unit := io_call (wal_init_producer w ctx) (fun _ => note (MInitProducer ctx)) ≫= io_lift.
Definition sleep (ms : Z) : io E unit := io_note (note (MSleep ms)).

(** [while (retries++ < DWAL_MAX_RETRIES)] *)
Fixpoint delete_loop (fuel : nat) (ctx : KafkaWALContext) (retries : Z) : io E unit :=
  match fuel with
  | O => io_stuck
  | S fuel =>
      if retries <? DWAL_MAX_RETRIES then
        err ← call_remove ctx;
        if decide (err = ErrorCodes.OK) then mret tt
        else if decide (err = ErrorCodes.RESOURCE_NOT_FOUND) then mret tt
        else sleep 2000 ≫= fun _ => delete_loop fuel ctx (retries + 1)
      else mret tt
  end.

Definition doDeleteDWal (ctx : KafkaWALContext) : io E unit := delete_loop 4 ctx 0.

Fixpoint waitUntilDWalReady (fuel : nat) (ctx : KafkaWALContext) : io E unit :=
  match fuel with
  | O => io_stuck
  | S fuel =>
      err ← call_describe ctx;
      if decide (err = ErrorCodes.OK) then mret tt
      else sleep 2000 ≫= fun _ => waitUntilDWalReady fuel ctx
  end.

Fixpoint create_loop (fuel : nat) (ctx : KafkaWALContext) (retries : Z) : io E unit :=
  match fuel with
  | O => io_stuck
  | S fuel =>
      stopped ← io_look (wal_stopped w);
      if (stopped : bool) then mret tt
      else
        err ← call_create ctx;
        if decide (err = ErrorCodes.OK) then mret tt
        else if decide (err = ErrorCodes.RESOURCE_ALREADY_EXISTS) then mret tt
        else if decide (err = ErrorCodes.DWAL_FATAL_ERROR) then io_throw (DBException ErrorCodes.DWAL_FATAL_ERROR)
        else if decide (err = ErrorCodes.INVALID_REPLICATION_FACTOR) then io_throw (DBException ErrorCodes.INVALID_REPLICATION_FACTOR)
        else if DWAL_MAX_RETRIES <=? retries then io_throw (DBException ErrorCodes.UNKNOWN_EXCEPTION)
        else sleep 2000 ≫= fun _ => create_loop fuel ctx (retries + 1)
  end.

(** [fuel] bounds how often the topic is looked for before it is there. *)
Definition doCreateDWal (fuel : nat) (ctx : KafkaWALContext) : io E unit :=
  err ← call_describe ctx;
  if decide (err = ErrorCodes.OK) then mret tt
  else create_loop 4 ctx 0 ≫= fun _ => waitUntilDWalReady fuel ctx.
End calls.

(** ** Starting *)

Record configuration : Type := mkConfiguration {
  cfg_string : str -> str -> str;
  cfg_int : str -> Z -> result Z;
  cfg_bool : str -> bool -> result bool;
  cfg_keys : str -> list str
}.

Record ConfigSettings : Type := mkSettings {
  key_prefix : str;
  default_name : str;
  default_data_retention : Z;
  cs_request_required_acks : Z;
  cs_request_timeout_ms : Z;
  cs_auto_offset_reset : str;
  initial_default_offset : Z
}.

Definition catalog_settings : ConfigSettings :=
  mkSettings (lit "cluster_settings.system_catalogs.") (lit "__system_catalogs") (-1) (-1) 10000 (lit "earliest") (-2).
Definition placement_settings : ConfigSettings :=
  mkSettings (lit "cluster_settings.system_node_metrics.") (lit "__system_node_metrics") 2 1 10000 (lit "earliest") (-2).
Definition task_settings : ConfigSettings :=
  mkSettings (lit "cluster_settings.system_tasks.") (lit "__system_tasks") 24 (-1) 10000 (lit "earliest") (-2).
Definition ddl_settings : ConfigSettings :=
  mkSettings (lit "cluster_settings.system_ddls.") (lit "__system_ddls") 168 (-1) 10000 (lit "earliest") (-1000).

Definition SYSTEM_ROLES_KEY : str := lit "cluster_settings.node_roles".

(** A product of [int]s: overflow is undefined. *)
Definition mul_int (a b : Z) : option Z := if in_signed 32 (a * b) then Some (a * b) else None.

(** The settings of the topic and of the producer. *)
Definition topic_context (config : configuration) (conf : ConfigSettings) (cleanup_policy : str) : option (result KafkaWALContext) :=
  let topic := cfg_string config (key_prefix conf ++ lit "name") (default_name conf) in
  match cfg_int config (key_prefix conf ++ lit "replication_factor") 1, cfg_int config (key_prefix conf ++ lit "data_retention") (default_data_retention conf) with
  | Throw e, _ => Some (Throw e)
  | Ok _, Throw e => Some (Throw e)
  | Ok replication_factor, Ok hours =>
      let retention_ms := if 0 <? hours then hours * (3600 * 1000) else hours in
      segments ← (if decide (cleanup_policy = lit "compact") then
                    match cfg_int config (key_prefix conf ++ lit "log_roll_size") 100 with
                    | Throw e => Some (Throw e)
                    | Ok size =>
                        kb ← mul_int size 1024; bytes ← mul_int kb 1024;
                        match cfg_int config (key_prefix conf ++ lit "log_roll_period") 7200 with
                        | Throw e => Some (Throw e)
                        | Ok period => ms ← mul_int period 1000; Some (Ok (bytes, ms))
                        end
                    end
                  else Some (Ok (-1, -1)));
      Some ('(segment_bytes, segment_ms) ← segments;
            compression ← cfg_bool config (key_prefix conf ++ lit "client_side_compression") false;
            Ok (mkContext topic 0 (-1000) 1 replication_factor (lit "snappy") compression retention_ms (-1) segment_bytes segment_ms (-1) (-1)
                  cleanup_policy (cs_request_required_acks conf) (cs_request_timeout_ms conf) (lit "earliest") 100000 1000000 33554432 1000 (-1) false false))
  end.

(** Where the consumer starts. *)
Definition consumer_context (conf : ConfigSettings) (c : KafkaWALContext) : KafkaWALContext :=
  mkContext (c_topic c) (c_partition c) (initial_default_offset conf) (c_partitions c) (c_replication_factor c) (c_compression_codec c)
    (c_client_side_compression c) (c_retention_ms c) (c_retention_bytes c) (c_segment_bytes c) (c_segment_ms c) (c_flush_messages c) (c_flush_ms c)
    (c_cleanup_policy c) (c_request_required_acks c) (c_request_timeout_ms c) (cs_auto_offset_reset conf) (c_consume_callback_max_messages c)
    (c_consume_callback_max_rows c) (c_consume_callback_max_bytes c) (c_consume_callback_timeout_ms c) (c_message_max_bytes c) (c_topic_handle c)
    (c_topic_consuming_started c).

Definition with_handle (c : KafkaWALContext) : KafkaWALContext :=
  mkContext (c_topic c) (c_partition c) (c_offset c) (c_partitions c) (c_replication_factor c) (c_compression_codec c)
    (c_client_side_compression c) (c_retention_ms c) (c_retention_bytes c) (c_segment_bytes c) (c_segment_ms c) (c_flush_messages c) (c_flush_ms c)
    (c_cleanup_policy c) (c_request_required_acks c) (c_request_timeout_ms c) (c_auto_offset_reset c) (c_consume_callback_max_messages c)
    (c_consume_callback_max_rows c) (c_consume_callback_max_bytes c) (c_consume_callback_timeout_ms c) (c_message_max_bytes c) true
    (c_topic_consuming_started c).

Record metadata_service : Type := mkMeta {
  dwal_append_ctx : KafkaWALContext;
  dwal_consume_ctx : KafkaWALContext;
  pool : bool;
  node_roles : str;
  ms_ports : option ports
}.

Definition new_metadata : metadata_service := mkMeta (context_of []) (context_of []) false [] None.

(** [catch (Exception e)] catches [DB::Exception] and what derives from it. *)
Definition is_db_exception (e : exn) : bool := match e with DBException _ | KeeperException _ => true | _ => false end.

Section startup.
Context {E : Type} (note : mcall -> E) (w : wal E).
Context (config : configuration) (port_config : gmap str Z) (trim to_lower : str -> str).

(** The state is the context, which a role that matches changes, and the service. *)
Fixpoint role_loop (fuel : nat) (conf : ConfigSettings) (this_role : str) (keys : list str) (kctx : KafkaWALContext) (ms : metadata_service)
    : io E (KafkaWALContext * metadata_service) :=
  match keys with
  | [] => mret (kctx, ms)
  | key :: keys =>
      let node_role := to_lower (trim (cfg_string config (SYSTEM_ROLES_KEY ++ lit "." ++ key) [])) in
      let ms := mkMeta (dwal_append_ctx ms) (dwal_consume_ctx ms) (pool ms) (node_roles ms ++ node_role ++ lit ",") (ms_ports ms) in
      if bool_decide (node_role = this_role) && negb (pool ms) then
        io_catch (doCreateDWal note w fuel kctx) (fun e => if is_db_exception e then io_note (note (MLogException e)) else io_throw e) ≫= fun _ =>
        let kctx := consumer_context conf kctx in
        call_init_consumer note w kctx ≫= fun _ =>
        io_note (note MSchedule) ≫= fun _ =>
        role_loop fuel conf this_role keys kctx (mkMeta (dwal_append_ctx ms) (with_handle kctx) true (node_roles ms) (ms_ports ms))
      else role_loop fuel conf this_role keys kctx ms
  end.

(** A service whose [startup] throws is destroyed: its state is not followed. *)
Definition startup (fuel : nat) (distributed : bool) (conf : ConfigSettings) (this_role cleanup_policy : str) (ms : metadata_service) : io E metadata_service :=
  if negb distributed then mret ms
  else
    match topic_context config conf cleanup_policy with
    | None => io_stuck
    | Some kctx =>
        kctx ← io_lift kctx;
        '(kctx, ms) ← role_loop fuel conf this_role (cfg_keys config SYSTEM_ROLES_KEY) kctx ms;
        let roles := removelast (node_roles ms) in
        waitUntilDWalReady note w fuel kctx ≫= fun _ =>
        call_init_producer note w kctx ≫= fun _ =>
        io_note (note MPostStartup) ≫= fun _ =>
        mret (mkMeta (with_handle kctx) (dwal_consume_ctx ms) (pool ms) roles (Some (initPorts port_config)))
    end.

(** [stopped] is the flag before; it is set after. *)
Definition shutdown (stopped has_pool : bool) : io E unit :=
  if stopped then mret tt
  else io_note (note MPreShutdown) ≫= fun _ => if has_pool then io_note (note MPoolWait) else mret tt.
End startup.

(** ** Reading the topic

    [answers] are what [consume] returns until the service is stopped; the result tells whether
    consuming was stopped, which an exception of [consume] prevents. *)

Section tailing.
Context {S R : Type} (process : S -> list R -> option (S * result unit)).

Fixpoint doTailingRecords (answers : list (result (Z * list R))) (st : S) : option (S * result unit) :=
  match answers with
  | [] => Some (st, Ok tt)
  | Throw e :: _ => Some (st, Throw e)
  | Ok (err, records) :: answers =>
      if decide (err <> ErrorCodes.OK) then doTailingRecords answers st
      else match records with
           | [] => doTailingRecords answers st
           | _ => '(st, _) ← process st records; doTailingRecords answers st
           end
  end.

Definition tailingRecords (answers : list (result (Z * list R))) (st : S) : option (S * bool) :=
  '(st, r) ← doTailingRecords answers st; Some (st, is_ok r).
End tailing.
End Metadata.
Import Metadata.

(** ** The calls are bounded *)

Definition is_create (c : mcall) : bool := match c with MCreate _ _ => true | _ => false end.
Definition is_remove (c : mcall) : bool := match c with MRemove _ _ => true | _ => false end.
Definition is_schedule (c : mcall) : bool := match c with MSchedule => true | _ => false end.
Definition how_many (p : mcall -> bool) (calls : list mcall) : nat := length (List.filter p calls).
Definition slept (calls : list mcall) : Z := foldr (fun c t => match c with MSleep ms => ms + t | _ => t end) 0 calls.

Lemma how_many_app p l1 l2 : how_many p (l1 ++ l2) = (how_many p l1 + how_many p l2)%nat.
Proof. unfold how_many. by rewrite List.filter_app, length_app. Qed.

Section bounded.
Context {E : Type} (note : mcall -> E) (w : wal E).

Lemma does_call_lift {A} (answer : list E -> result A) ev tr : does (io_call answer ev ≫= io_lift) tr [ev (answer tr)] (answer tr).
Proof. reflexivity. Qed.

(** One answer that ends a loop, or one more turn. *)
Definition does_after {A B} (a : result A) (f : A -> io E B) (tr new : list E) (r : result B) : Prop :=
  match a with Ok a => does (f a) tr new r | Throw e => new = [] /\ r = Throw e end.

Lemma does_call_then {A B} (answer : list E -> result A) ev (f : A -> io E B) tr new r :
  does_after (answer tr) f (tr ++ [ev (answer tr)]) new r ->
  does ((io_call answer ev ≫= io_lift) ≫= f) tr (ev (answer tr) :: new) r.
Proof.
  unfold does_after. intros H. pose proof (does_call_lift answer ev tr) as Hc. destruct (answer tr) as [a|e] eqn:Ea.
  - by apply (does_bind _ _ _ _ _ _ _ Hc).
  - destruct H as [-> ->]. by apply does_bind_throw.
Qed.

Lemma does_sleep_then {B} ms (f : unit -> io E B) tr new r :
  does (f tt) (tr ++ [note (MSleep ms)]) new r -> does (sleep note ms ≫= f) tr (note (MSleep ms) :: new) r.
Proof. intros H. by apply (does_bind _ _ _ [_] tt). Qed.

(** How creating ends: with an answer that settles it, with the flag set after the calls made, or with an answer that does not after four of them. *)
Definition creation_ends (ctx : KafkaWALContext) (tr : list E) (calls : list mcall) (left : nat) (r : result unit) : Prop :=
  match r with
  | Ok _ => (exists pre err, calls = pre ++ [MCreate ctx (Ok err)] /\ (err = ErrorCodes.OK \/ err = ErrorCodes.RESOURCE_ALREADY_EXISTS))
            \/ wal_stopped w (tr ++ map note calls) = true
  | Throw e => exists pre answer, calls = pre ++ [MCreate ctx answer] /\
      match answer with
      | Throw e' => e = e'
      | Ok err => e = DBException err /\ (err = ErrorCodes.DWAL_FATAL_ERROR \/ err = ErrorCodes.INVALID_REPLICATION_FACTOR)
                  \/ e = DBException ErrorCodes.UNKNOWN_EXCEPTION /\ how_many is_create calls = left
      end
  end.

Lemma creation_ends_more ctx tr pre calls left r :
  how_many is_create pre = 1%nat -> creation_ends ctx (tr ++ map note pre) calls left r -> creation_ends ctx tr (pre ++ calls) (S left) r.
Proof.
  intros Hp. destruct r as [u|e]; cbn.
  - intros [(p & err & -> & H)|H]; [left; exists (pre ++ p), err; by rewrite <- app_assoc|right; by rewrite map_app, app_assoc].
  - intros (p & a & -> & H). exists (pre ++ p), a. rewrite <- app_assoc. split; [done|]. destruct a; [|done].
    destruct H as [H|[-> H]]; [by left|right]. split; [done|]. rewrite how_many_app. lia.
Qed.

Lemma does_look {A B} (answer : list E -> A) (f : A -> io E B) tr new r : does (f (answer tr)) tr new r -> does (io_look answer ≫= f) tr new r.
Proof. done. Qed.

Lemma does_lift_then {A B} (a : A) (f : A -> io E B) tr new r : does (f a) tr new r -> does (io_lift (Ok a) ≫= f) tr new r.
Proof. done. Qed.

Lemma create_loop_spec fuel ctx retries tr :
  0 <= retries -> Z.of_nat fuel + retries = 4 -> (0 < fuel)%nat ->
  exists calls r, does (create_loop note w fuel ctx retries) tr (map note calls) r /\ (how_many is_create calls <= fuel)%nat /\
    0 <= slept calls <= 2000 * (Z.of_nat fuel - 1) /\ how_many is_schedule calls = 0%nat /\ creation_ends ctx tr calls fuel r.
Proof.
  revert retries tr. induction fuel as [|fuel IH]; intros retries tr Hr Hf Hpos; [lia|]. cbn [create_loop].
  destruct (wal_stopped w tr) eqn:Hs.
  { exists [], (Ok tt). split; [apply does_look; rewrite Hs; apply does_ret|]. split; [cbn; lia|]. split; [cbn; lia|]. split; [done|right; cbn; by rewrite app_nil_r]. }
  set (a := wal_create w ctx tr).
  enough (exists rest r, does_after a (fun err => if decide (err = ErrorCodes.OK) then mret tt
        else if decide (err = ErrorCodes.RESOURCE_ALREADY_EXISTS) then mret tt
        else if decide (err = ErrorCodes.DWAL_FATAL_ERROR) then io_throw (DBException ErrorCodes.DWAL_FATAL_ERROR)
        else if decide (err = ErrorCodes.INVALID_REPLICATION_FACTOR) then io_throw (DBException ErrorCodes.INVALID_REPLICATION_FACTOR)
        else if DWAL_MAX_RETRIES <=? retries then io_throw (DBException ErrorCodes.UNKNOWN_EXCEPTION)
        else sleep note 2000 ≫= fun _ => create_loop note w fuel ctx (retries + 1)) (tr ++ [note (MCreate ctx a)]) (map note rest) r /\
      (how_many is_create rest <= fuel)%nat /\ 0 <= slept rest <= 2000 * Z.of_nat fuel /\ how_many is_schedule rest = 0%nat /\ creation_ends ctx tr (MCreate ctx a :: rest) (S fuel) r)
    as (rest & r & H1 & H2 & H3 & H5 & H4).
  { exists (MCreate ctx a :: rest), r. split; [apply does_look; rewrite Hs; by apply (does_call_then (wal_create w ctx) (fun r => note (MCreate ctx r)))|].
    split; [unfold how_many in *; cbn; lia|]. split; [cbn [slept foldr]; fold (slept rest); lia|]. by split. }
  destruct a as [err|e]; [|exists [], (Throw e); repeat split; [cbn; lia..|exists [], (Throw e); done]]. cbn [does_after].
  assert (Hlast : forall r m, does m (tr ++ [note (MCreate ctx (Ok err))]) [] r -> creation_ends ctx tr [MCreate ctx (Ok err)] (S fuel) r ->
    exists rest r, does m (tr ++ [note (MCreate ctx (Ok err))]) (map note rest) r /\ (how_many is_create rest <= fuel)%nat /\ 0 <= slept rest <= 2000 * Z.of_nat fuel /\ how_many is_schedule rest = 0%nat /\
      creation_ends ctx tr (MCreate ctx (Ok err) :: rest) (S fuel) r).
  { intros r m H1 H2. exists [], r. repeat split; [done|cbn; lia..|done]. }
  destruct (decide (err = ErrorCodes.OK)) as [->|]; [eapply Hlast; [apply does_ret|left; by exists [], 0; auto]|].
  destruct (decide (err = ErrorCodes.RESOURCE_ALREADY_EXISTS)) as [->|]; [eapply Hlast; [apply does_ret|left; eexists [], _; auto]|].
  destruct (decide (err = ErrorCodes.DWAL_FATAL_ERROR)) as [->|]; [eapply Hlast; [apply does_throw|eexists [], (Ok _); split; [done|]; left; auto]|].
  destruct (decide (err = ErrorCodes.INVALID_REPLICATION_FACTOR)) as [->|]; [eapply Hlast; [apply does_throw|eexists [], (Ok _); split; [done|]; left; auto]|].
  destruct (Z.leb_spec DWAL_MAX_RETRIES retries) as [Hle|Hlt]; unfold DWAL_MAX_RETRIES in *.
  { eapply Hlast; [apply does_throw|]. exists [], (Ok err). split; [done|]. right. split; [done|]. cbn. lia. }
  destruct (IH (retries + 1) ((tr ++ [note (MCreate ctx (Ok err))]) ++ [note (MSleep 2000)])) as (calls & r & H1 & H2 & H3 & H5 & H4); [lia..|].
  exists (MSleep 2000 :: calls), r. split; [by apply does_sleep_then|]. split; [cbn; done|]. split; [change (slept (MSleep 2000 :: calls)) with (2000 + slept calls); lia|]. split; [done|].
  apply (creation_ends_more ctx tr [_; _]); [done|]. by rewrite <- app_assoc in H4.
Qed.

(** How deleting ends: with an answer that settles it, with three that do not, which is not told to the caller, or with an exception of the log. *)
Definition deletion_ends (ctx : KafkaWALContext) (calls : list mcall) (left : nat) (r : result unit) : Prop :=
  match r with
  | Ok _ => (exists pre err, calls = pre ++ [MRemove ctx (Ok err)] /\ (err = ErrorCodes.OK \/ err = ErrorCodes.RESOURCE_NOT_FOUND)) \/ how_many is_remove calls = left
  | Throw e => exists pre, calls = pre ++ [MRemove ctx (Throw e)]
  end.

Lemma deletion_ends_more ctx pre calls left r : how_many is_remove pre = 1%nat -> deletion_ends ctx calls left r -> deletion_ends ctx (pre ++ calls) (S left) r.
Proof.
  intros Hp. destruct r as [u|e]; cbn.
  - intros [(p & err & -> & H)|H]; [left; exists (pre ++ p), err; by rewrite <- app_assoc|right]. rewrite how_many_app. lia.
  - intros (p & ->). exists (pre ++ p). by rewrite <- app_assoc.
Qed.

Lemma delete_loop_spec fuel ctx retries tr :
  0 <= retries -> Z.of_nat fuel + retries = 4 -> (0 < fuel)%nat ->
  exists calls r, does (delete_loop note w fuel ctx retries) tr (map note calls) r /\ (how_many is_remove calls <= fuel - 1)%nat /\
    0 <= slept calls <= 2000 * (Z.of_nat fuel - 1) /\ deletion_ends ctx calls (fuel - 1) r.
Proof.
  revert retries tr. induction fuel as [|fuel IH]; intros retries tr Hr Hf Hpos; [lia|]. cbn [delete_loop]. unfold DWAL_MAX_RETRIES. replace (S fuel - 1)%nat with fuel by lia.
  destruct (Z.ltb_spec retries 3) as [Hlt|Hge].
  2:{ exists [], (Ok tt). split; [apply does_ret|]. split; [cbn; lia|]. split; [cbn; lia|]. right. cbn. lia. }
  set (a := wal_remove w ctx tr).
  enough (exists rest r, does_after a (fun err => if decide (err = ErrorCodes.OK) then mret tt
        else if decide (err = ErrorCodes.RESOURCE_NOT_FOUND) then mret tt
        else sleep note 2000 ≫= fun _ => delete_loop note w fuel ctx (retries + 1)) (tr ++ [note (MRemove ctx a)]) (map note rest) r /\
      (how_many is_remove rest <= fuel - 1)%nat /\ 0 <= slept rest <= 2000 * Z.of_nat fuel /\ deletion_ends ctx (MRemove ctx a :: rest) fuel r) as (rest & r & H1 & H2 & H3 & H4).
  { exists (MRemove ctx a :: rest), r. split; [by apply (does_call_then (wal_remove w ctx) (fun r => note (MRemove ctx r)))|].
    split; [unfold how_many in *; cbn; lia|]. split; [cbn [slept foldr]; fold (slept rest); lia|done]. }
  assert (Hlast : forall err, err = ErrorCodes.OK \/ err = ErrorCodes.RESOURCE_NOT_FOUND -> deletion_ends ctx [MRemove ctx (Ok err)] fuel (Ok tt)) by (intros err Herr; left; by exists [], err).
  destruct a as [err|e]; [|exists [], (Throw e); split; [done|]; split; [cbn; lia|]; split; [cbn; lia|by exists []]]. cbn [does_after].
  destruct (decide (err = ErrorCodes.OK)); [exists [], (Ok tt); split; [apply does_ret|]; split; [cbn; lia|]; split; [cbn; lia|]; auto|].
  destruct (decide (err = ErrorCodes.RESOURCE_NOT_FOUND)); [exists [], (Ok tt); split; [apply does_ret|]; split; [cbn; lia|]; split; [cbn; lia|]; auto|].
  destruct (IH (retries + 1) ((tr ++ [note (MRemove ctx (Ok err))]) ++ [note (MSleep 2000)])) as (calls & r & H1 & H2 & H3 & H4); [lia..|].
  exists (MSleep 2000 :: calls), r. split; [by apply does_sleep_then|]. split; [done|]. split; [change (slept (MSleep 2000 :: calls)) with (2000 + slept calls); lia|].
  replace fuel with (S (fuel - 1)) by lia. by apply (deletion_ends_more ctx [_; _]).
Qed.
End bounded.

(** C35: Whatever the log answers, the loop that creates a topic and the one that deletes it make a bounded number of calls.  Creating makes at most four calls of [create], with six seconds of waiting between
    them, and ends with an answer that settles it, with the service stopped, or with an exception; deleting makes at most three calls of [remove], and ends with an answer that settles it, after three
    that do not, or with an exception of the log.  The wait for a created topic to be there is after the loop, and has no bound. *)
Theorem topic_calls_bounded {E} (note : mcall -> E) (w : wal E) (ctx : KafkaWALContext) (tr : list E) :
  (exists calls r, does (create_loop note w 4 ctx 0) tr (map note calls) r /\ (how_many is_create calls <= 4)%nat /\ 0 <= slept calls <= 6000 /\
     creation_ends note w ctx tr calls 4 r) /\
  (exists calls r, does (doDeleteDWal note w ctx) tr (map note calls) r /\ (how_many is_remove calls <= 3)%nat /\ 0 <= slept calls <= 6000 /\ deletion_ends ctx calls 3 r).
Proof.
  split.
  - destruct (create_loop_spec note w 4 ctx 0 tr) as (calls & r & H1 & H2 & H3 & _ & H4); [lia..|]. exists calls, r. split; [done|]. split; [done|]. split; [lia|done].
  - destruct (delete_loop_spec note w 4 ctx 0 tr) as (calls & r & H1 & H2 & H3 & H4); [lia..|]. exists calls, r. split; [done|]. split; [done|]. split; [lia|done].
Qed.

(** ** The settings of a topic *)

Record config_answers (config : configuration) (conf : ConfigSettings) (rf hours size period : Z) (compression : bool) : Prop := {
  ca_rf : cfg_int config (key_prefix conf ++ lit "replication_factor") 1 = Ok rf;
  ca_hours : cfg_int config (key_prefix conf ++ lit "data_retention") (default_data_retention conf) = Ok hours;
  ca_size : cfg_int config (key_prefix conf ++ lit "log_roll_size") 100 = Ok size;
  ca_period : cfg_int config (key_prefix conf ++ lit "log_roll_period") 7200 = Ok period;
  ca_compression : cfg_bool config (key_prefix conf ++ lit "client_side_compression") false = Ok compression;
  ca_int : in_signed 32 hours = true
}.

Lemma in_signed_iff bits z : 0 < bits -> in_signed bits z = true <-> - 2 ^ (bits - 1) <= z < 2 ^ (bits - 1).
Proof. intros _. unfold in_signed. rewrite andb_true_iff, Z.leb_le, Z.ltb_lt. lia. Qed.

Lemma mul_int_spec a b : mul_int a b = if decide (- 2 ^ 31 <= a * b < 2 ^ 31) then Some (a * b) else None.
Proof.
  unfold mul_int. destruct (in_signed 32 (a * b)) eqn:H; destruct (decide (- 2 ^ 31 <= a * b < 2 ^ 31)) as [Hd|Hd]; try done.
  - apply in_signed_iff in H; [|done]. change (32 - 1) with 31 in H. lia.
  - exfalso. by rewrite (proj2 (in_signed_iff 32 (a * b) eq_refl) Hd) in H.
Qed.

(** A roll size is in megabytes and a roll period in seconds: the products are taken in [int], so that sizes from 2048 MB on are undefined, and
    so are periods over 24 days.  Otherwise the settings are what the configuration says, and the retention, in hours, fits in 64 bits always. *)
Lemma topic_settings_bounds (config : configuration) (conf : ConfigSettings) (policy : str) (rf hours size period : Z) (compression : bool) :
  config_answers config conf rf hours size period compression ->
  (is_Some (topic_context config conf policy) <-> (policy = lit "compact" -> -2048 <= size < 2048 /\ -2147483 <= period <= 2147483)) /\
  forall r, topic_context config conf policy = Some r ->
    exists c, r = Ok c /\ c_replication_factor c = rf /\ c_client_side_compression c = compression /\
      c_retention_ms c = (if 0 <? hours then hours * 3600000 else hours) /\ in_signed 64 (c_retention_ms c) = true /\
      (policy = lit "compact" -> c_segment_bytes c = size * 1048576 /\ c_segment_ms c = period * 1000).
Proof.
  intros [H1 H2 H3 H4 H5 H6]. unfold topic_context. rewrite H1, H2, H3, H4, H5. cbn [mbind option_bind result_bind]. rewrite !mul_int_spec.
  assert (H64 : in_signed 64 (if 0 <? hours then hours * 3600000 else hours) = true).
  { apply in_signed_iff in H6; [|done]. apply in_signed_iff; [done|]. change (32 - 1) with 31 in H6. change (64 - 1) with 63. destruct (0 <? hours); lia. }
  destruct (decide (policy = lit "compact")) as [Hp|Hp]; [|cbn [mbind option_bind]; split; [by split|]; intros r [= <-]; eexists; by repeat split].
  destruct (decide (- 2 ^ 31 <= size * 1024 < 2 ^ 31)) as [Ha|Ha]; cbn [mbind option_bind]; [|split; [|done]; split; [by intros []|intros H; specialize (H Hp); lia]].
  rewrite mul_int_spec. destruct (decide (- 2 ^ 31 <= size * 1024 * 1024 < 2 ^ 31)) as [Hb|Hb]; cbn [mbind option_bind];
    [|split; [|done]; split; [by intros []|intros H; specialize (H Hp); lia]].
  destruct (decide (- 2 ^ 31 <= period * 1000 < 2 ^ 31)) as [Hc|Hc]; cbn [mbind option_bind]; [|split; [|done]; split; [by intros []|intros H; specialize (H Hp); lia]].
  split; [split; [intros _ _; lia|by eexists]|]. intros r [= <-]. eexists. repeat split; [exact H64|cbn; lia].
Qed.

Definition sample_config (size : Z) : configuration :=
  mkConfiguration (fun _ d => d) (fun k d => if decide (k = lit "cluster_settings.system_catalogs.log_roll_size") then Ok size else Ok d) (fun _ d => Ok d) (fun _ => []).

Lemma topic_settings_bounds_witness :
  is_Some (topic_context (sample_config 2047) catalog_settings (lit "compact")) /\ ~ is_Some (topic_context (sample_config 2048) catalog_settings (lit "compact")).
Proof.
  split.
  - apply (topic_settings_bounds (sample_config 2047) catalog_settings (lit "compact") 1 (-1) 2047 7200 false); [by split|]. intros _. lia.
  - intros H. apply (topic_settings_bounds (sample_config 2048) catalog_settings (lit "compact") 1 (-1) 2048 7200 false) in H; [lia|by split|done].
Defined.

(** ** Starting up *)

Section ready.
Context {E : Type} (note : mcall -> E) (w : wal E).

Lemma wait_never fuel ctx tr : (forall tr, exists err, wal_describe w ctx tr = Ok err /\ err <> ErrorCodes.OK) -> waitUntilDWalReady note w fuel ctx tr = None.
Proof.
  intros H. revert tr. induction fuel as [|fuel IH]; intros tr; [done|]. cbn [waitUntilDWalReady]. destruct (H tr) as (err & He & Hn).
  unfold call_describe, io_call, io_lift, sleep, io_note, mbind, io_bind. rewrite He. by rewrite decide_False by done.
Qed.

(** The topic is there once [n] calls are made, and describing it does not throw. *)
Context (n : nat) (Hdescribe : forall ctx tr, exists err, wal_describe w ctx tr = Ok err /\ ((n <= length tr)%nat -> err = ErrorCodes.OK)).

Lemma wait_returns fuel ctx tr : (0 < fuel)%nat -> (n < fuel + length tr)%nat ->
  exists calls, does (waitUntilDWalReady note w fuel ctx) tr (map note (calls ++ [MDescribe ctx (Ok ErrorCodes.OK)])) (Ok tt) /\ how_many is_schedule calls = 0%nat.
Proof.
  revert tr. induction fuel as [|fuel IH]; intros tr Hp Hf; [lia|]. cbn [waitUntilDWalReady]. destruct (Hdescribe ctx tr) as (err & He & Hn).
  destruct (decide (err = ErrorCodes.OK)) as [->|Hne].
  - exists []. split; [|done]. rewrite <- He. apply (does_call_then (wal_describe w ctx) (fun r => note (MDescribe ctx r))).
    rewrite He. cbn [does_after]. rewrite decide_True by done. apply does_ret.
  - destruct (decide (n <= length tr)%nat) as [Hle|Hgt]; [by destruct Hne; apply Hn|].
    destruct (IH ((tr ++ [note (MDescribe ctx (Ok err))]) ++ [note (MSleep 2000)])) as (calls & Hc & Hs); [lia|rewrite !length_app; cbn; lia|].
    exists (MDescribe ctx (Ok err) :: MSleep 2000 :: calls). split; [|done]. cbn [map app]. rewrite <- He at 1.
    apply (does_call_then (wal_describe w ctx) (fun r => note (MDescribe ctx r))). rewrite He. cbn [does_after]. rewrite decide_False by done. by apply does_sleep_then.
Qed.

Lemma create_returns fuel ctx tr : (n < fuel)%nat ->
  exists calls r, does (doCreateDWal note w fuel ctx) tr (map note calls) r /\ how_many is_schedule calls = 0%nat /\
    match r with
    | Ok _ => exists pre, calls = pre ++ [MDescribe ctx (Ok ErrorCodes.OK)]
    | Throw e => exists pre answer, calls = pre ++ [MCreate ctx answer] /\ (answer = Throw e \/ is_db_exception e = true)
    end.
Proof.
  intros Hf. unfold doCreateDWal. destruct (Hdescribe ctx tr) as (err & He & _). set (tr1 := tr ++ [note (MDescribe ctx (Ok err))]).
  assert (Hstep : forall calls r, does_after (Ok err) (fun err => if decide (err = ErrorCodes.OK) then mret tt else create_loop note w 4 ctx 0 ≫= fun _ => waitUntilDWalReady note w fuel ctx)
      tr1 (map note calls) r -> does (call_describe note w ctx ≫= fun err => if decide (err = ErrorCodes.OK) then mret tt else create_loop note w 4 ctx 0 ≫= fun _ => waitUntilDWalReady note w fuel ctx)
      tr (map note (MDescribe ctx (Ok err) :: calls)) r).
  { intros calls r H. cbn [map]. rewrite <- He. apply (does_call_then (wal_describe w ctx) (fun r => note (MDescribe ctx r))). by rewrite He. }
  cbn [does_after] in Hstep. destruct (decide (err = ErrorCodes.OK)) as [->|Hne].
  { eexists [_], _. split; [apply Hstep, does_ret|]. split; [done|]. by exists []. }
  destruct (create_loop_spec note w 4 ctx 0 tr1) as (calls & r & H1 & _ & _ & H3 & H2); [lia..|]. destruct r as [[]|e].
  - destruct (wait_returns fuel ctx (tr1 ++ map note calls)) as (more & H4 & H5); [lia|lia|].
    exists (MDescribe ctx (Ok err) :: calls ++ more ++ [MDescribe ctx (Ok ErrorCodes.OK)]), (Ok tt). split; [|split].
    + apply Hstep. rewrite map_app. by apply (does_bind _ _ _ _ tt).
    + change (how_many is_schedule (calls ++ more ++ [MDescribe ctx (Ok ErrorCodes.OK)]) = 0%nat). rewrite !how_many_app. change (how_many is_schedule [_]) with 0%nat. lia.
    + exists (MDescribe ctx (Ok err) :: calls ++ more). cbn. by rewrite <- app_assoc.
  - exists (MDescribe ctx (Ok err) :: calls), (Throw e). split; [apply Hstep; by apply does_bind_throw|]. split; [done|].
    destruct H2 as (pre & a & -> & Ha). exists (MDescribe ctx (Ok err) :: pre), a. split; [done|].
    destruct a as [c|e']; [right|left; by subst]. by destruct Ha as [[-> _]|[-> _]].
Qed.

Context (config : configuration) (port_config : gmap str Z) (trim to_lower : str -> str) (conf : ConfigSettings) (this_role : str).

Definition roles_of (keys : list str) : list str := map (fun key => to_lower (trim (cfg_string config (SYSTEM_ROLES_KEY ++ lit "." ++ key) []))) keys.

(** An exception of the log, the last call made. *)
Definition log_failed (calls : list mcall) (e : exn) : Prop :=
  exists pre c, calls = pre ++ [c] /\ match c with MCreate _ a => a = Throw e | MInitConsumer _ | MInitProducer _ => True | _ => False end.

Lemma log_failed_more pre calls e : log_failed calls e -> log_failed (pre ++ calls) e.
Proof. intros (p & c & -> & H). exists (pre ++ p), c. by rewrite app_assoc. Qed.

(** [fresh]: the role is found, and no thread reads the topic yet. *)
Record role_done (keys : list str) (kctx : KafkaWALContext) (ms : metadata_service) (calls : list mcall) (kctx' : KafkaWALContext) (ms' : metadata_service) : Prop := {
  rd_pool : pool ms' = pool ms || bool_decide (this_role ∈ roles_of keys);
  rd_roles : node_roles ms' = node_roles ms ++ concat (map (fun r => r ++ lit ",") (roles_of keys));
  rd_calls : how_many is_schedule calls = if bool_decide (this_role ∈ roles_of keys) && negb (pool ms) then 1%nat else 0%nat;
  rd_ctx : kctx' = if bool_decide (this_role ∈ roles_of keys) && negb (pool ms) then consumer_context conf kctx else kctx;
  rd_consume : dwal_consume_ctx ms' = if bool_decide (this_role ∈ roles_of keys) && negb (pool ms) then with_handle kctx' else dwal_consume_ctx ms
}.

Lemma role_done_skip key keys kctx ms calls kctx' ms' :
  let role := to_lower (trim (cfg_string config (SYSTEM_ROLES_KEY ++ lit "." ++ key) [])) in
  bool_decide (role = this_role) && negb (pool ms) = false ->
  role_done keys kctx (mkMeta (dwal_append_ctx ms) (dwal_consume_ctx ms) (pool ms) (node_roles ms ++ role ++ lit ",") (ms_ports ms)) calls kctx' ms' ->
  role_done (key :: keys) kctx ms calls kctx' ms'.
Proof.
  cbn zeta. set (role := to_lower _). intros Hb [H1 H2 H3 H4 H5]. cbn [pool node_roles dwal_consume_ctx] in *.
  assert (Hin : bool_decide (this_role ∈ roles_of (key :: keys)) && negb (pool ms) = bool_decide (this_role ∈ roles_of keys) && negb (pool ms)).
  { cbn [roles_of map]. fold role. destruct (pool ms); [by rewrite !andb_false_r|]. rewrite andb_true_r in Hb. apply bool_decide_eq_false in Hb.
    rewrite !andb_true_r. apply bool_decide_ext. rewrite elem_of_cons. fold (roles_of keys). naive_solver. }
  split; [| |by rewrite Hin..].
  - rewrite H1. destruct (pool ms); [done|]. cbn. by rewrite !andb_true_r in Hin.
  - rewrite H2. cbn [roles_of map concat]. fold role. by rewrite <- !app_assoc.
Qed.

Lemma role_done_start key keys kctx ms calls more kctx' ms' :
  let role := to_lower (trim (cfg_string config (SYSTEM_ROLES_KEY ++ lit "." ++ key) [])) in
  let kctx1 := consumer_context conf kctx in
  bool_decide (role = this_role) && negb (pool ms) = true -> how_many is_schedule calls = 1%nat ->
  role_done keys kctx1 (mkMeta (dwal_append_ctx ms) (with_handle kctx1) true (node_roles ms ++ role ++ lit ",") (ms_ports ms)) more kctx' ms' ->
  role_done (key :: keys) kctx ms (calls ++ more) kctx' ms'.
Proof.
  cbn zeta. set (role := to_lower _). intros Hb Hc [H1 H2 H3 H4 H5]. cbn [pool node_roles dwal_consume_ctx] in *. rewrite andb_false_r in *.
  apply andb_true_iff in Hb as [Hr Hp]. apply bool_decide_eq_true in Hr.
  assert (Hin : bool_decide (this_role ∈ roles_of (key :: keys)) = true) by (apply bool_decide_eq_true; cbn [roles_of map]; fold role; rewrite Hr; left).
  split; rewrite ?Hin, ?Hp; cbn [andb].
  - rewrite H1. by rewrite orb_true_r.
  - rewrite H2. cbn [roles_of map concat]. fold role. by rewrite <- !app_assoc.
  - rewrite how_many_app. lia.
  - done.
  - by rewrite H4.
Qed.

(** Creating the topic, with the exceptions [startup] catches. *)
Definition create_logged (fuel : nat) (kctx : KafkaWALContext) : io E unit :=
  io_catch (doCreateDWal note w fuel kctx) (fun e => if is_db_exception e then io_note (note (MLogException e)) else io_throw e).

Lemma create_caught fuel kctx tr : (n < fuel)%nat ->
  exists calls, how_many is_schedule calls = 0%nat /\
    (does (create_logged fuel kctx) tr (map note calls) (Ok tt) \/ exists e, log_failed calls e /\ does (create_logged fuel kctx) tr (map note calls) (Throw e)).
Proof.
  intros Hf. destruct (create_returns fuel kctx tr Hf) as (calls & [[]|e] & H1 & H2 & H3); [exists calls; split; [done|]; left; by apply does_catch_ok|].
  destruct (is_db_exception e) eqn:Hdb.
  - exists (calls ++ [MLogException e]). split; [by rewrite how_many_app, H2|]. left. rewrite map_app. eapply does_catch; [done|]. rewrite Hdb. apply does_note.
  - destruct H3 as (pre & a & -> & [->|Ha]); [|congruence]. exists (pre ++ [MCreate kctx (Throw e)]). split; [done|]. right. exists e. split; [by eexists _, _|].
    rewrite <- (app_nil_r (map _ _)). eapply does_catch; [done|]. rewrite Hdb. apply does_throw.
Qed.

Lemma role_loop_spec fuel keys kctx ms tr : (n < fuel)%nat ->
  exists calls r, does (role_loop note w config trim to_lower fuel conf this_role keys kctx ms) tr (map note calls) r /\
    match r with
    | Ok (kctx', ms') => role_done keys kctx ms calls kctx' ms'
    | Throw e => log_failed calls e
    end.
Proof.
  intros Hf. revert kctx ms tr. induction keys as [|key keys IH]; intros kctx ms tr; cbn [role_loop].
  { exists [], (Ok (kctx, ms)). split; [apply does_ret|]. split; cbn; by rewrite ?orb_false_r, ?app_nil_r. }
  cbn [pool dwal_append_ctx dwal_consume_ctx node_roles ms_ports]. set (role := to_lower _).
  destruct (bool_decide (role = this_role) && negb (pool ms)) eqn:Hb.
  2: { destruct (IH kctx (mkMeta (dwal_append_ctx ms) (dwal_consume_ctx ms) (pool ms) (node_roles ms ++ role ++ lit ",") (ms_ports ms)) tr) as (calls & r & H1 & H2).
       exists calls, r. split; [done|]. destruct r as [[kctx' ms']|e]; [|done]. by apply role_done_skip. }
  set (kctx1 := consumer_context conf kctx).
  destruct (create_caught fuel kctx tr Hf) as (calls & Hns & [Hc|(e & He & Hc)]).
  2: { exists calls, (Throw e). split; [by apply does_bind_throw|done]. }
  set (tr1 := tr ++ map note calls). destruct (wal_init_consumer w kctx1 tr1) as [[]|e] eqn:Hi.
  2: { exists (calls ++ [MInitConsumer kctx1]), (Throw e). split; [|by eexists _, _]. rewrite map_app. eapply does_bind; [done|].
       apply (does_call_then (wal_init_consumer w kctx1) (fun _ => note (MInitConsumer kctx1))). fold tr1. by rewrite Hi. }
  destruct (IH kctx1 (mkMeta (dwal_append_ctx ms) (with_handle kctx1) true (node_roles ms ++ role ++ lit ",") (ms_ports ms))
    ((tr1 ++ [note (MInitConsumer kctx1)]) ++ [note MSchedule])) as (more & r & H1 & H2).
  exists ((calls ++ [MInitConsumer kctx1; MSchedule]) ++ more), r. split.
  - rewrite <- app_assoc, map_app. eapply does_bind; [done|]. cbn [app map].
    apply (does_call_then (wal_init_consumer w kctx1) (fun _ => note (MInitConsumer kctx1))). fold tr1. rewrite Hi. cbn [does_after].
    by apply (does_bind _ _ _ [note MSchedule] tt).
  - destruct r as [[kctx' ms']|e]; [|by apply log_failed_more]. apply role_done_start; [done|by rewrite how_many_app, Hns|done].
Qed.

Lemma join_commas (roles : list str) : removelast (concat (map (fun r => r ++ lit ",") roles)) = join (lit ",") roles.
Proof.
  induction roles as [|r roles IH]; [done|]. cbn [map concat]. destruct roles as [|r' roles]; [cbn; by rewrite app_nil_r, removelast_last|].
  rewrite removelast_app by (cbn; by destruct r'). rewrite IH. cbn [join]. by rewrite <- app_assoc.
Qed.

(** Once the topic is there, starting ends: the service reads its topic in one thread when the node has its role, and in none otherwise; it
    announces all roles of the node; its topic was there before the handle of the producer is made, from the context of the consumer if there is
    one.  Only an exception of the log prevents that. *)
Lemma startup_ready (fuel : nat) (policy : str) (kctx : KafkaWALContext) (tr : list E) :
  (n < fuel)%nat -> topic_context config conf policy = Some (Ok kctx) ->
  let roles := roles_of (cfg_keys config SYSTEM_ROLES_KEY) in
  let reads := bool_decide (this_role ∈ roles) in
  let k := if reads then consumer_context conf kctx else kctx in
  exists calls r, does (startup note w config port_config trim to_lower fuel true conf this_role policy new_metadata) tr (map note calls) r /\
    match r with
    | Ok ms => pool ms = reads /\ how_many is_schedule calls = (if reads then 1 else 0)%nat /\ node_roles ms = join (lit ",") roles /\
        dwal_append_ctx ms = with_handle k /\ (reads = true -> dwal_consume_ctx ms = with_handle k) /\ ms_ports ms = Some (initPorts port_config) /\
        exists pre, calls = pre ++ [MDescribe k (Ok ErrorCodes.OK); MInitProducer k; MPostStartup]
    | Throw e => log_failed calls e
    end.
Proof.
  intros Hf Hk roles reads k. unfold startup. cbn [negb]. rewrite Hk.
  destruct (role_loop_spec fuel (cfg_keys config SYSTEM_ROLES_KEY) kctx new_metadata tr Hf) as (calls & r & H1 & H2).
  destruct r as [[kctx' ms]|e]; [|exists calls, (Throw e); split; [|done]; apply does_lift_then; by apply does_bind_throw].
  destruct H2 as [R1 R2 R3 R4 R5]. cbn [pool new_metadata negb orb node_roles app dwal_consume_ctx] in *. rewrite andb_true_r in *. fold roles reads in R1, R2, R3, R4, R5.
  assert (Hk' : kctx' = k) by exact R4. clear R4. subst kctx'.
  set (tr1 := tr ++ map note calls). destruct (wait_returns fuel k tr1) as (more & H3 & H4); [lia|lia|]. set (tr2 := tr1 ++ map note (more ++ [MDescribe k (Ok ErrorCodes.OK)])).
  assert (Hbind : forall new r, does (call_init_producer note w k ≫= fun _ => io_note (note MPostStartup) ≫= fun _ =>
      mret (mkMeta (with_handle k) (dwal_consume_ctx ms) (pool ms) (removelast (node_roles ms)) (Some (initPorts port_config)))) tr2 (map note new) r ->
      does (io_lift (Ok kctx) ≫= fun kctx => role_loop note w config trim to_lower fuel conf this_role (cfg_keys config SYSTEM_ROLES_KEY) kctx new_metadata ≫= fun '(kctx, ms) =>
        waitUntilDWalReady note w fuel kctx ≫= fun _ => call_init_producer note w kctx ≫= fun _ => io_note (note MPostStartup) ≫= fun _ =>
      mret (mkMeta (with_handle kctx) (dwal_consume_ctx ms) (pool ms) (removelast (node_roles ms)) (Some (initPorts port_config))))
      tr (map note (calls ++ (more ++ [MDescribe k (Ok ErrorCodes.OK)]) ++ new)) r).
  { intros new r H. apply does_lift_then. rewrite map_app. eapply does_bind; [exact H1|].
    rewrite map_app. by apply (does_bind _ _ _ _ tt). }
  destruct (wal_init_producer w k tr2) as [[]|e] eqn:Hi.
  - eexists _, _. split; [apply (Hbind [MInitProducer k; MPostStartup])|].
    { apply (does_call_then (wal_init_producer w k) (fun _ => note (MInitProducer k))). rewrite Hi. cbn [does_after]. apply (does_bind _ _ _ [note MPostStartup] tt [] _); [done|apply does_ret]. }
    cbn [pool node_roles dwal_append_ctx dwal_consume_ctx ms_ports]. rewrite R1, R2, R5, !how_many_app, H4, R3. rewrite join_commas.
    repeat split; [cbn; by destruct reads|by intros ->|]. exists (calls ++ more). by rewrite <- !app_assoc.
  - exists (calls ++ (more ++ [MDescribe k (Ok ErrorCodes.OK)]) ++ [MInitProducer k]), (Throw e). split.
    + apply Hbind. apply (does_call_then (wal_init_producer w k) (fun _ => note (MInitProducer k))). by rewrite Hi.
    + do 2 apply log_failed_more. by exists [], (MInitProducer k).
Qed.
End ready.

Definition ready_wal : wal mcall :=
  mkWal (fun _ tr => Ok (if decide (length tr < 3)%nat then ErrorCodes.RESOURCE_NOT_FOUND else ErrorCodes.OK)) (fun _ _ => Ok ErrorCodes.OK) (fun _ _ => Ok ErrorCodes.OK) (fun _ => false)
    (fun _ _ => Ok tt) (fun _ _ => Ok tt).
Definition task_config : configuration :=
  mkConfiguration (fun k d => if decide (k = lit "cluster_settings.node_roles.role") then lit "task" else d) (fun _ d => Ok d) (fun _ d => Ok d)
    (fun k => if decide (k = SYSTEM_ROLES_KEY) then [lit "role"] else []).
Definition task_context : KafkaWALContext :=
  match topic_context task_config task_settings (lit "delete") with Some (Ok c) => c | _ => context_of [] end.

Lemma startup_ready_witness :
  exists calls ms, does (startup id ready_wal task_config ∅ id id 4 true task_settings (lit "task") (lit "delete") new_metadata) [] (map id calls) (Ok ms) /\
    pool ms = true /\ node_roles ms = lit "task".
Proof.
  assert (Hd : forall ctx tr, exists err, wal_describe ready_wal ctx tr = Ok err /\ ((3 <= length tr)%nat -> err = ErrorCodes.OK)).
  { intros ctx tr. cbn. eexists. split; [done|]. intros H. rewrite decide_False by lia. done. }
  destruct (startup_ready id ready_wal 3 Hd task_config ∅ id id task_settings (lit "task") 4 (lit "delete") task_context []) as (calls & r & H1 & H2);
    [lia|vm_compute; reflexivity|].
  pose proof H1 as H. vm_compute in H. injection H as _ Hr. destruct r as [ms|e]; [|done]. exists calls, ms. split; [exact H1|].
  destruct H2 as (H2 & _ & H3 & _). split; [rewrite H2; by vm_compute|rewrite H3; by vm_compute].
Defined.

(** ** Reading the topic of the tasks *)

Import Tasks.

(** The records of the answers without an error, in their order. *)
Definition delivered {R} (answers : list (result (Z * list R))) : list R :=
  concat (map (fun a => match a with Ok (err, records) => if decide (err = ErrorCodes.OK) then records else [] | Throw _ => [] end) answers).

Lemma processRecords_app sv l1 l2 :
  processRecords sv (l1 ++ l2) = ('(sv, r) ← processRecords sv l1; match r with Ok _ => processRecords sv l2 | Throw e => Some (sv, Throw e) end).
Proof.
  revert sv. induction l1 as [|r l1 IH]; intros sv; [done|]. cbn [app processRecords]. destruct (buildTaskStatusFromRecord r) as [[t|e]|]; cbn [mbind option_bind]; [|done|done].
  destruct (updateTaskStatus sv t); cbn [mbind option_bind]; [apply IH|done].
Qed.

Lemma tailing_batches answers sv sv' :
  Forall (fun a => is_ok a = true) answers -> processRecords sv (delivered answers) = Some (sv', Ok tt) -> doTailingRecords processRecords answers sv = Some (sv', Ok tt).
Proof.
  revert sv. induction answers as [|a answers IH]; intros sv Ha H; [done|]. apply Forall_cons in Ha as [Ha Hrest]. destruct a as [[err records]|e]; [|done].
  unfold delivered in H. cbn [map concat] in H. fold (delivered answers) in H. cbn [doTailingRecords]. destruct (decide (err = ErrorCodes.OK)) as [->|Hne].
  - rewrite decide_False by auto. rewrite processRecords_app in H. apply bind_Some in H as ([sv1 r1] & H1 & H2). destruct r1 as [[]|e]; [|done].
    destruct records as [|r records]; [injection H1 as <-; by apply IH|]. rewrite H1. cbn [mbind option_bind]. by apply IH.
  - rewrite decide_True by done. by apply IH.
Qed.

Definition appended (l : list ((nat -> Z) * TaskStatus)) : list (WalRecord MBlock) := map (fun ct => buildRecord ct.1 ct.2) l.
Definition stamped (l : list ((nat -> Z) * TaskStatus)) : list TaskStatus := map (fun ct => stamp ct.1 0 ct.2) l.

Lemma processRecords_reports owner l sv r :
  agrees owner sv r -> Forall (fun t => times_fit t /\ event_ok owner (TReport t)) (stamped l) ->
  exists sv', processRecords sv (appended l) = Some (sv', Ok tt) /\ agrees owner sv' (foldl ref_report r (stamped l)).
Proof.
  revert sv r. induction l as [|[clock t] l IH]; intros sv r HA Hl; [by exists sv|]. cbn [stamped map] in Hl. apply Forall_cons in Hl as [[Ht Hok] Hl].
  cbn [appended map processRecords fst snd] in *. rewrite task_record_round_trip by done. cbn [mbind option_bind].
  destruct (report_agrees owner sv r (stamp clock 0 t) HA Hok) as (sv1 & H1 & HA1). rewrite H1. cbn [mbind option_bind]. by apply IH.
Qed.

(** C34: Every node that reads the topic of the tasks sees the same statuses, the ones reported, if every task belongs to one user, times are in range, and
    reading never throws: however the records are cut into batches, and whatever
    empty or failed answers come between them, the tasks a node knows are those of the reference fed with what was appended. *)
Theorem nodes_see_reports (owner : str -> str) (l : list ((nat -> Z) * TaskStatus)) (answers : list (result (Z * list (WalRecord MBlock)))) :
  Forall (fun t => times_fit t /\ event_ok owner (TReport t)) (stamped l) -> Forall (fun a => is_ok a = true) answers -> delivered answers = appended l ->
  exists sv, tailingRecords processRecords answers new_service = Some (sv, true) /\
    forall id, (p ← indexed_by_id sv !! id; objects sv !! p) = r_active (foldl ref_report (mkRef ∅ ∅) (stamped l)) !! id.
Proof.
  intros Hl Ha Hd. destruct (processRecords_reports owner l new_service (mkRef ∅ ∅) (agrees_new owner) Hl) as (sv & H & HA). exists sv. split.
  - unfold tailingRecords. rewrite (tailing_batches answers new_service sv); [done|done|by rewrite Hd].
  - intros id. pose proof (ag_active _ _ _ HA id) as Hi. by inversion Hi; cbn.
Qed.

Lemma nodes_see_reports_witness :
  exists sv, tailingRecords processRecords
      [Ok (0, [buildRecord (fun _ => 7) (task_a "SUBMITTED" (-1))]); Ok (0, []); Ok (1002, []); Ok (0, [buildRecord (fun _ => 9) (task_a "SUCCEEDED" (-1))])] new_service = Some (sv, true) /\
    (p ← indexed_by_id sv !! lit "a"; objects sv !! p) = Some (task_a "SUCCEEDED" 9).
Proof.
  destruct (nodes_see_reports (fun _ => lit "u") [((fun _ => 7), task_a "SUBMITTED" (-1)); ((fun _ => 9), task_a "SUCCEEDED" (-1))]
    [Ok (0, [buildRecord (fun _ => 7) (task_a "SUBMITTED" (-1))]); Ok (0, []); Ok (1002, []); Ok (0, [buildRecord (fun _ => 9) (task_a "SUCCEEDED" (-1))])]) as (sv & H1 & H2).
  - repeat constructor; cbn; try done; lia.
  - by repeat constructor.
  - reflexivity.
  - exists sv. split; [done|]. rewrite H2. vm_compute. reflexivity.
Defined.

(** An exception of one record is logged with the batch: the records after it in the batch are never processed. *)
Lemma rest_of_batch_lost r rest e sv : buildTaskStatusFromRecord r = Some (Throw e) -> tailingRecords processRecords [Ok (0, r :: rest)] sv = Some (sv, true).
Proof. intros H. unfold tailingRecords. cbn. by rewrite H. Qed.
