(* ===== verification/DDLService.v ===== *)
(** * DDLService: executing the statements that change tables and databases

    Models src/src/DistributedMetadata/DDLService.cpp and sendRequest.cpp: the node with the
    role `ddl` reads the statements from their topic, places the replicas of a new
    table, sends each statement to the nodes concerned and reports a status to the
    task service.

    The nodes, the log, the catalog and the metrics of the nodes answer each call;
    an answer may depend on all calls before it.  [Poco::URI] and the HTTP session are parameters. *)

From stdpp Require Import strings.
From S2P Require Import Prelude TextFormat WalRecord KafkaConfig Catalog Placement Io MessageBlock TaskStatus MetadataService.
Import Tasks Metadata.
Local Open Scope Z_scope.

(** What the code uses of [Poco::URI]; parsing throws on a malformed text. *)
Class PocoURI (URI : Type) : Type := {
  uri_of : str -> result URI;
  setRawQuery : str -> URI -> URI;
  addQueryParameter : str -> str -> URI -> URI;
  getHost : URI -> str;
  getPort : URI -> Z;
  raw_query_parameters : str -> result (list (str * str))
}.

Module DDL.
(** ** Requests *)

Definition HTTP_OK : Z := 200.
Definition HTTP_INTERNAL_SERVER_ERROR : Z := 500.
Definition HTTP_POST : str := lit "POST".
Definition HTTP_PATCH : str := lit "PATCH".
Definition HTTP_DELETE : str := lit "DELETE".

(** What happens to a request: an answer, a stream that fails, a [Poco::Exception] with its code, another exception. *)
Inductive http_answer : Type :=
| Responded (body : str) (status : Z)
| StreamFailed
| PocoError (code : Z)
| OtherError.

Definition toHTTPCode (code : Z) : Z := if decide (code = 1000 \/ code = 422) then -1 else HTTP_INTERNAL_SERVER_ERROR.

Definition sendRequest (a : http_answer) : str * Z :=
  match a with
  | Responded body status => (body, status)
  | StreamFailed => (lit "Internal server error", HTTP_INTERNAL_SERVER_ERROR)
  | PocoError code => (lit "Unkown Exception", toHTTPCode code)
  | OtherError => (lit "Internal server error", HTTP_INTERNAL_SERVER_ERROR)
  end.

Record http_request (URI : Type) : Type := mkHttp {
  h_uri : URI;
  h_method : str;
  h_headers : list (str * str);
  h_payload : str
}.
#[global] Arguments mkHttp {URI}.
#[global] Arguments h_uri {URI}.
#[global] Arguments h_method {URI}.
#[global] Arguments h_headers {URI}.
#[global] Arguments h_payload {URI}.

(** The request of [sendRequest], but for the headers Poco sets itself. *)
Definition build_request {URI} (uri : URI) (method query_id user password payload : str) : http_request URI :=
  mkHttp uri method
    ([(lit "x-daisy-query-id", lit "from-" ++ query_id); (lit "x-daisy-user", user)]
     ++ (if decide (password = []) then [] else [(lit "x-daisy-key", password)])) payload.

Definition MAX_RETRIES : Z := 3.
Definition UNRETRIABLE_ERROR_CODES : list str := map lit ["57"; "60"; "62"; "81"; "82"]%string.

Definition isUnretriableError (err_msg : str) : bool :=
  existsb (fun err_code => contains (lit "code:" ++ err_code) err_msg || contains (lit "Code: " ++ err_code) err_msg) UNRETRIABLE_ERROR_CODES.

Definition toErrorCode (http_code : Z) (error_message : str) : Z :=
  if decide (http_code = HTTP_OK) then ErrorCodes.OK
  else if http_code <? 0 then ErrorCodes.UNRETRIABLE_ERROR
  else if isUnretriableError error_message then ErrorCodes.UNRETRIABLE_ERROR else ErrorCodes.UNKNOWN_EXCEPTION.

(** ** Paths *)

Definition getTableCategory (hs : gmap str str) : str :=
  if decide (hs !! lit "table_type" = Some (lit "rawstore")) then lit "rawstores" else lit "tables".

(** Another method is refused by an assertion; without assertions the path is empty. *)
Definition getTableApiPath (hs : gmap str str) (table method : str) : str :=
  if decide (method = HTTP_POST) then lit "/dae/v1/ddl/" ++ getTableCategory hs
  else if decide (method = HTTP_PATCH) then lit "/dae/v1/ddl/" ++ getTableCategory hs ++ lit "/" ++ escapeForFileName table
  else if decide (method = HTTP_DELETE) then lit "/dae/v1/ddl/" ++ getTableCategory hs ++ lit "/" ++ escapeForFileName table
  else [].

(** [headers.at("column")] *)
Definition column_of (hs : gmap str str) : result str := match hs !! lit "column" with Some c => Ok c | None => Throw StdOutOfRange end.

Definition getColumnApiPath (hs : gmap str str) (table method : str) : result str :=
  if decide (method = HTTP_POST) then Ok (lit "/dae/v1/ddl/" ++ escapeForFileName table ++ lit "/columns")
  else if decide (method = HTTP_PATCH) then
    column ← column_of hs; Ok (lit "/dae/v1/ddl/" ++ escapeForFileName table ++ lit "/columns/" ++ escapeForFileName column)
  else if decide (method = HTTP_DELETE) then
    column ← column_of hs; Ok (lit "/dae/v1/ddl/" ++ escapeForFileName table ++ lit "/columns/" ++ escapeForFileName column)
  else Ok [].

(** [boost::algorithm::split] with [is_any_of(",")]: there is always a piece. *)
Fixpoint split_commas (s : str) : list str :=
  match s with
  | [] => [[]]
  | c :: s =>
      if decide (c = ","%char) then [] :: split_commas s
      else match split_commas s with
           | piece :: pieces => (c :: piece) :: pieces
           | [] => [[c]]
           end
  end.

Section service.
Context {URI : Type} `{!PocoURI URI}.

Fixpoint toURIs (hosts : list str) (path : str) : result (list URI) :=
  match hosts with
  | [] => Ok []
  | host :: hosts => uri ← uri_of (lit "http://" ++ host ++ path); uris ← toURIs hosts path; Ok (uri :: uris)
  end.

(** ** Calls *)

Inductive dcall : Type :=
| DMeta (c : mcall)
| DRequest (r : http_request URI) (a : http_answer)
| DSleep (ms : Z)
| DStatus (t : TaskStatus) (err : result Z)
| DAppend (r : WalRecord MBlock) (err : result Z)
| DCommit (last_sn : Z) (err : result Z).

(** What the service sees around it.  [message] is the text of an exception; [cl_metrics] and [cl_catalog] are the states of the
    placement and catalog services at the time of a call. *)
Record cluster : Type := mkCluster {
  cl_wal : wal dcall;
  cl_http : http_request URI -> list dcall -> http_answer;
  cl_task : TaskStatus -> list dcall -> result Z;
  cl_append : WalRecord MBlock -> list dcall -> result Z;
  cl_commit : Z -> list dcall -> result Z;
  cl_password : str -> list dcall -> str;
  cl_clock : list dcall -> str -> Z;
  cl_orders : gmap str NodeMetrics -> list NodeMetrics;
  cl_shuffle : list dcall -> list NodeMetrics -> list NodeMetrics;
  cl_metrics : list dcall -> gmap str NodeMetrics;
  cl_catalog : list dcall -> catalog;
  message : exn -> str
}.

Context `{!StdSort} (cl : cluster).
Abbreviation ddl := (io dcall).

Definition dsleep (ms : Z) : ddl unit := io_note (DSleep ms).

(** ** Statuses *)

(** The error of the append is not looked at. *)
Definition updateDDLStatus (query_id user status query progress reason : str) : ddl unit :=
  let t := mkTask query_id status progress reason user query (-1) (-1) in
  (io_call (cl_task cl t) (fun r => DStatus t r) ≫= io_lift) ≫= fun _ => mret tt.

Definition progressDDL (query_id user query progress : str) : ddl unit := updateDDLStatus query_id user INPROGRESS query progress [].
Definition succeedDDL (query_id user query : str) : ddl unit := updateDDLStatus query_id user SUCCEEDED query [] [].
Definition failDDL (query_id user query reason : str) : ddl unit := updateDDLStatus query_id user FAILED query [] reason.

Fixpoint validateSchema (b : MBlock) (col_names : list str) : ddl bool :=
  match col_names with
  | [] => mret true
  | col_name :: col_names =>
      if has b col_name then validateSchema b col_names
      else
        query_id ← cell_string b (lit "query_id");
        user ← (if has b (lit "user") then cell_string b (lit "user") else mret []);
        failDDL query_id user [] (lit "invalid DDL") ≫= fun _ => mret false
  end.

(** ** Sending a statement *)

Fixpoint doDDL_loop (fuel : nat) (i : Z) (request : http_request URI) (err : Z) : ddl Z :=
  match fuel with
  | O => io_stuck
  | S fuel =>
      if i <? MAX_RETRIES then
        a ← io_call (cl_http cl request) (DRequest request);
        let err := toErrorCode (sendRequest a).2 (sendRequest a).1 in
        if decide (err = ErrorCodes.OK) then mret err
        else if decide (err = ErrorCodes.UNRETRIABLE_ERROR) then mret err
        else (if i <? MAX_RETRIES - 1 then dsleep (1000 * Z.shiftl 2 i) else mret tt) ≫= fun _ => doDDL_loop fuel (i + 1) request err
      else mret err
  end.

Definition doDDL (payload : str) (uri : URI) (method query_id user : str) : ddl Z :=
  password ← io_look (cl_password cl user);
  doDDL_loop 4 0 (build_request uri method query_id user password payload) ErrorCodes.OK.

Definition host_port (uri : URI) : str := getHost uri ++ lit ":" ++ writeIntText (getPort uri).

(** The hosts on which the statement failed. *)
Fixpoint ddl_on_hosts (target_hosts : list URI) (payload method query_id user : str) : ddl (list str) :=
  match target_hosts with
  | [] => mret []
  | uri :: target_hosts =>
      let uri := addQueryParameter (lit "distributed_ddl") (lit "false") uri in
      err ← doDDL payload uri method query_id user;
      failed ← ddl_on_hosts target_hosts payload method query_id user;
      mret (if decide (err <> ErrorCodes.OK) then host_port uri :: failed else failed)
  end.

Definition doDDLOnHosts (target_hosts : list URI) (payload method query_id user : str) : ddl unit :=
  failed_hosts ← ddl_on_hosts target_hosts payload method query_id user;
  match failed_hosts with
  | [] => succeedDDL query_id user payload
  | _ => failDDL query_id user payload (lit "Failed to do DDL on hosts: " ++ join (lit ",") failed_hosts)
  end.

(** ** Topics of tables *)

(** [retention_bytes], [retention_ms], [flush_messages] and [flush_ms] *)
Record topic_limits : Type := mkLimits { l_retention_bytes : Z; l_retention_ms : Z; l_flush_messages : Z; l_flush_ms : Z }.

Fixpoint read_limits (params : list (str * str)) (l : topic_limits) : result topic_limits :=
  match params with
  | [] => Ok l
  | (key, value) :: params =>
      l ← (if decide (key = lit "streaming_storage_retention_bytes") then
             z ← stoll value; Ok (mkLimits z (l_retention_ms l) (l_flush_messages l) (l_flush_ms l))
           else if decide (key = lit "streaming_storage_retention_ms") then
             z ← stoll value; Ok (mkLimits (l_retention_bytes l) z (l_flush_messages l) (l_flush_ms l))
           else if decide (key = lit "streaming_storage_flush_messages") then
             z ← stoll value; Ok (mkLimits (l_retention_bytes l) (l_retention_ms l) z (l_flush_ms l))
           else if decide (key = lit "streaming_storage_flush_ms") then
             z ← stoll value; Ok (mkLimits (l_retention_bytes l) (l_retention_ms l) (l_flush_messages l) z)
           else Ok l);
      read_limits params l
  end.

Definition table_context (database table : str) (shards replication_factor : Z) (l : topic_limits) : KafkaWALContext :=
  mkContext (escapeDWALName database table) 0 (-1000) shards replication_factor (lit "snappy") false
    (l_retention_ms l) (l_retention_bytes l) (-1) (-1) (l_flush_messages l) (l_flush_ms l) (lit "delete") 1 30000 (lit "earliest")
    100000 1000000 33554432 1000 (-1) false false.

Definition createDWAL (fuel : nat) (database table : str) (shards replication_factor : Z) (url_parameters : option str) : ddl unit :=
  limits ← io_lift (match url_parameters with
                    | None => Ok (mkLimits (-1) (-1) (-1) (-1))
                    | Some raw => params ← raw_query_parameters raw; read_limits params (mkLimits (-1) (-1) (-1) (-1))
                    end);
  doCreateDWal DMeta (cl_wal cl) fuel (table_context database table shards replication_factor limits).

(** ** Tables *)

(** The nested loops over replicas and shards: [None] is an index past the end. *)
Fixpoint set_shards (shards : Z) (url_parameters : option str) (indexes : list (Z * Z)) (uris : list URI) : option (list URI) :=
  match indexes with
  | [] => Some uris
  | (i, j) :: indexes =>
      let k := Z.to_nat (i * shards + j) in
      uri ← uris !! k;
      let uri := match url_parameters with Some raw => setRawQuery raw uri | None => uri end in
      set_shards shards url_parameters indexes (<[k := addQueryParameter (lit "shard") (writeIntText j) uri]> uris)
  end.

Definition shard_indexes (shards replication_factor : Z) : list (Z * Z) :=
  concat (map (fun i => map (fun j => (i, j)) (seqZ 0 shards)) (seqZ 0 replication_factor)).

Definition CREATE_TABLE_SCHEMA : list str := map lit ["payload"; "database"; "table"; "shards"; "replication_factor"; "query_id"; "user"; "timestamp"]%string.
Definition MUTATE_TABLE_SCHEMA : list str := map lit ["payload"; "database"; "table"; "timestamp"; "query_id"; "user"]%string.
Definition MUTATE_DATABASE_SCHEMA : list str := map lit ["payload"; "database"; "timestamp"; "query_id"; "user"]%string.

(** The replicas are placed: create the topic, then the table on every host. *)
Definition create_placed (fuel : nat) (record : WalRecord MBlock) (hosts_val database table query_id user payload : str) (shards replication_factor : Z) : ddl unit :=
  let url_parameters := headers record !! lit "url_parameters" in
  created ← io_catch (createDWAL fuel database table shards replication_factor url_parameters ≫= fun _ => mret None)
              (fun e => if is_db_exception e then mret (Some e) else io_throw e);
  match created with
  | Some e => failDDL query_id user payload (message cl e)
  | None =>
      target_hosts ← io_lift (toURIs (split_commas hosts_val) (getTableApiPath (headers record) table HTTP_POST));
      match set_shards shards url_parameters (shard_indexes shards replication_factor) target_hosts with
      | None => io_stuck
      | Some target_hosts => doDDLOnHosts target_hosts payload HTTP_POST query_id user
      end
  end.

Definition node_address (m : NodeMetrics) : str := n_host (node m) ++ lit ":" ++ writeIntText (n_http_port (node m)).

Definition with_hosts (hosts : str) (r : WalRecord MBlock) : WalRecord MBlock :=
  mkRecord (op_code r) (<[lit "hosts" := hosts]> (headers r)) (block r) (topic r) (partition_key r) (sn r).

(** They are not: place them and append the record again, with the hosts. *)
Definition place_table (record : WalRecord MBlock) (query_id user payload : str) (shards replication_factor : Z) : ddl unit :=
  placement ← io_look (fun tr => place (cl_clock cl tr) (cl_orders cl) (cl_shuffle cl tr) shards replication_factor (lit "default") (cl_metrics cl tr));
  match (placement : option (gmap str NodeMetrics * list NodeMetrics)) with
  | None => io_stuck
  | Some (_, []) => failDDL query_id user payload (lit "There are not enough hosts to place the table shard replicas")
  | Some (_, qualified_nodes) =>
      let record := with_hosts (join (lit ",") (map node_address qualified_nodes)) record in
      err ← (io_call (cl_append cl record) (DAppend record) ≫= io_lift);
      if decide (err <> ErrorCodes.OK) then failDDL query_id user payload (lit "Internal server error")
      else progressDDL query_id user payload (lit "shard replicas placed")
  end.

Definition createTable (fuel : nat) (record : WalRecord MBlock) : ddl unit :=
  let b := block record in
  valid ← validateSchema b CREATE_TABLE_SCHEMA;
  if negb valid then mret tt
  else
    database ← cell_string b (lit "database");
    query_id ← cell_string b (lit "query_id");
    user ← cell_string b (lit "user");
    payload ← cell_string b (lit "payload");
    table ← cell_string b (lit "table");
    shards ← cell_int32 b (lit "shards");
    replication_factor ← cell_int32 b (lit "replication_factor");
    match headers record !! lit "hosts" with
    | Some hosts => create_placed fuel record hosts database table query_id user payload shards replication_factor
    | None => place_table record query_id user payload shards replication_factor
    end.

Definition is_column_op (op : OpCode) : bool := match op with CREATE_COLUMN | ALTER_COLUMN | DELETE_COLUMN => true | _ => false end.

(** [toURIs] is given the hosts before the path: the arguments of a call have no order, and an exception of either leaves nothing behind. *)
Definition getTargetURIs (record : WalRecord MBlock) (database table method : str) : ddl (list URI) :=
  hosts ← io_look (fun tr => placed (cl_catalog cl tr) (cl_metrics cl tr) database table);
  path ← io_lift (if is_column_op (op_code record) then getColumnApiPath (headers record) table method else Ok (getTableApiPath (headers record) table method));
  io_lift (toURIs hosts path).

Definition mutateTable (record : WalRecord MBlock) (method : str) : ddl unit :=
  let b := block record in
  valid ← validateSchema b MUTATE_TABLE_SCHEMA;
  if negb valid then mret tt
  else
    database ← cell_string b (lit "database");
    table ← cell_string b (lit "table");
    query_id ← cell_string b (lit "query_id");
    user ← cell_string b (lit "user");
    payload ← cell_string b (lit "payload");
    target_hosts ← getTargetURIs record database table method;
    match target_hosts with
    | [] => failDDL query_id user payload (lit "Table not found")
    | _ =>
        factors ← (io_look (fun tr => shardAndReplicationFactor (cl_catalog cl tr) database table) ≫= io_lift);
        if negb (in_signed 32 (factors.1 * factors.2)) then io_stuck
        else if decide (Z.of_nat (length target_hosts) <> factors.1 * factors.2) then failDDL query_id user payload (lit "Table number obtained error")
        else doDDLOnHosts target_hosts payload method query_id user
    end.

(** ** Databases *)

Definition mutateDatabase (record : WalRecord MBlock) (method : str) : ddl unit :=
  let b := block record in
  valid ← validateSchema b MUTATE_DATABASE_SCHEMA;
  if negb valid then mret tt
  else
    payload ← cell_string b (lit "payload");
    database ← cell_string b (lit "database");
    query_id ← cell_string b (lit "query_id");
    user ← cell_string b (lit "user");
    nodes ← io_look (fun tr => placement_nodes (cl_orders cl) (cl_metrics cl tr));
    match nodes with
    | [] => failDDL query_id user payload (lit "There are not enough hosts to place the table shard replicas")
    | _ =>
        let path := if decide (method = HTTP_POST) then Some (lit "/dae/v1/ddl/databases")
                    else if decide (method = HTTP_DELETE) then Some (lit "/dae/v1/ddl/databases/" ++ database) else None in
        match path with
        | None => failDDL query_id user payload (lit "Unsupported method " ++ method)
        | Some path =>
            target_hosts ← io_lift (toURIs (map node_address nodes) path);
            doDDLOnHosts target_hosts payload method query_id user
        end
    end.

(** ** Records *)

Fixpoint commit_loop (fuel : nat) (i last_sn : Z) : ddl unit :=
  match fuel with
  | O => io_stuck
  | S fuel =>
      if i <? MAX_RETRIES then
        committed ← io_catch (err ← (io_call (cl_commit cl last_sn) (DCommit last_sn) ≫= io_lift); mret (bool_decide (err = 0))) (fun _ => mret false);
        if (committed : bool) then mret tt
        else (if i <? MAX_RETRIES - 1 then dsleep (1000 * Z.shiftl 2 i) else mret tt) ≫= fun _ => commit_loop fuel (i + 1) last_sn
      else mret tt
  end.

Definition commit (last_sn : Z) : ddl unit := commit_loop 4 0 last_sn.

Definition deleteTable (record : WalRecord MBlock) : ddl unit :=
  mutateTable record HTTP_DELETE ≫= fun _ =>
  database ← cell_string (block record) (lit "database");
  table ← cell_string (block record) (lit "table");
  doDeleteDWal DMeta (cl_wal cl) (context_of (escapeDWALName database table)).

Definition processRecord (fuel : nat) (record : WalRecord MBlock) : ddl unit :=
  match op_code record with
  | CREATE_TABLE => createTable fuel record
  | ALTER_TABLE => mutateTable record HTTP_PATCH
  | DELETE_TABLE => deleteTable record
  | CREATE_COLUMN => mutateTable record HTTP_POST
  | ALTER_COLUMN => mutateTable record HTTP_PATCH
  | DELETE_COLUMN => mutateTable record HTTP_DELETE
  | CREATE_DATABASE => mutateDatabase record HTTP_POST
  | DELETE_DATABASE => mutateDatabase record HTTP_DELETE
  | _ => mret tt
  end.

(** There is a record: [records.back()] of none is undefined. *)
Definition processRecords (fuel : nat) (records : list (WalRecord MBlock)) : ddl unit :=
  io_iter (processRecord fuel) records ≫= fun _ =>
  match last records with
  | Some r => commit (sn r)
  | None => io_stuck
  end.
End service.
End DDL.
Import DDL.

(** ** What a computation did *)

Section facts.
Context {URI : Type} {HURI : PocoURI URI} {HSort : StdSort} (cl : cluster (URI := URI)).
Implicit Types (calls tr : list (dcall (URI := URI))).

Definition requests calls : list (http_request URI * http_answer) := omap (fun c => match c with DRequest r a => Some (r, a) | _ => None end) calls.
Definition statuses calls : list TaskStatus := omap (fun c => match c with DStatus t _ => Some t | _ => None end) calls.
Definition dslept calls : Z := foldr (fun c t => match c with DSleep ms => ms + t | _ => t end) 0 calls.

Lemma requests_app l1 l2 : requests (l1 ++ l2) = requests l1 ++ requests l2.
Proof. apply omap_app. Qed.
Lemma statuses_app l1 l2 : statuses (l1 ++ l2) = statuses l1 ++ statuses l2.
Proof. apply omap_app. Qed.

Lemma statuses_meta (calls : list mcall) : statuses (map DMeta calls) = [].
Proof. induction calls as [|c calls IH]; [done|exact IH]. Qed.

Definition answer_code (a : http_answer) : Z := toErrorCode (sendRequest a).2 (sendRequest a).1.

Lemma answer_code_cases a : answer_code a = ErrorCodes.OK \/ answer_code a = ErrorCodes.UNRETRIABLE_ERROR \/ answer_code a = ErrorCodes.UNKNOWN_EXCEPTION.
Proof. unfold answer_code, toErrorCode. repeat case_match; auto. Qed.

Lemma answer_code_ok a : answer_code a = ErrorCodes.OK <-> (sendRequest a).2 = HTTP_OK.
Proof. unfold answer_code, toErrorCode. repeat case_match; naive_solver. Qed.

(** What one host is sent, and what comes of it. *)
Record host_outcome (request : http_request URI) (most : nat) calls (err : Z) : Prop := {
  ho_requests : (1 <= length (requests calls) <= most)%nat;
  ho_same : Forall (fun ra => ra.1 = request) (requests calls);
  ho_last : exists a, last (requests calls) = Some (request, a) /\ err = answer_code a;
  ho_retries : err = ErrorCodes.UNKNOWN_EXCEPTION -> length (requests calls) = most;
  ho_statuses : statuses calls = []
}.

Lemma does_http request (f : http_answer -> io dcall Z) tr new r :
  does (f (cl_http cl request tr)) (tr ++ [DRequest request (cl_http cl request tr)]) new r ->
  does (io_call (cl_http cl request) (DRequest request) ≫= f) tr (DRequest request (cl_http cl request tr) :: new) r.
Proof. intros H. by apply (does_bind _ _ _ [_] (cl_http cl request tr)). Qed.

Lemma doDDL_loop_spec fuel i request err0 tr :
  0 <= i <= 2 -> Z.of_nat fuel + i = 4 ->
  exists calls err, does (doDDL_loop cl fuel i request err0) tr calls (Ok err) /\ host_outcome request (Z.to_nat (3 - i)) calls err /\
    0 <= dslept calls <= 1000 * (8 - 2 ^ (i + 1)).
Proof.
  revert i err0 tr. induction fuel as [|fuel IH]; intros i err0 tr Hi Hf; [lia|]. cbn [doDDL_loop]. unfold MAX_RETRIES.
  rewrite (proj2 (Z.ltb_lt i 3)) by lia. set (a := cl_http cl request tr).
  assert (Hpow : 2 ^ (i + 1) <= 8) by (change 8 with (2 ^ 3); apply Z.pow_le_mono_r; lia).
  assert (Hone : answer_code a <> ErrorCodes.UNKNOWN_EXCEPTION \/ i = 2 -> host_outcome request (Z.to_nat (3 - i)) [DRequest request a] (answer_code a)).
  { intros H. split; cbn; [lia|by repeat constructor|by eexists|destruct H as [H|H]; [done|intros _; lia]|done]. }
  assert (Hend : forall m, answer_code a <> ErrorCodes.UNKNOWN_EXCEPTION \/ i = 2 -> does m (tr ++ [DRequest request a]) [] (Ok (answer_code a)) ->
    exists calls err, does (E := dcall) m (tr ++ [DRequest request a]) calls (Ok err) /\ host_outcome request (Z.to_nat (3 - i)) (DRequest request a :: calls) err /\
      0 <= dslept calls <= 1000 * (8 - 2 ^ (i + 1))).
  { intros m H Hm. exists [], (answer_code a). split; [done|]. split; [by apply Hone|cbn; lia]. }
  match goal with |- context [io_call _ _ ≫= ?f] => enough (exists calls err, does (f a) (tr ++ [DRequest request a]) calls (Ok err) /\
    host_outcome request (Z.to_nat (3 - i)) (DRequest request a :: calls) err /\ 0 <= dslept calls <= 1000 * (8 - 2 ^ (i + 1))) as (calls & err & H1 & H2 & H3) end.
  { exists (DRequest request a :: calls), err. split; [by apply does_http|]. by split. }
  cbv beta zeta. change (toErrorCode (sendRequest a).2 (sendRequest a).1) with (answer_code a).
  destruct (decide (answer_code a = ErrorCodes.OK)) as [He|Hn]; [apply Hend; [left; by rewrite He|apply does_ret]|].
  destruct (decide (answer_code a = ErrorCodes.UNRETRIABLE_ERROR)) as [He|Hn']; [apply Hend; [left; by rewrite He|apply does_ret]|].
  destruct (answer_code_cases a) as [?|[?|Hu]]; [done..|].
  destruct (Z.ltb_spec i (3 - 1)) as [Hlt|Hge].
  - destruct (IH (i + 1) (answer_code a) ((tr ++ [DRequest request a]) ++ [DSleep (1000 * Z.shiftl 2 i)])) as (calls & err & H1 & [G1 G2 G3 G4 G5] & H3); [lia..|].
    exists (DSleep (1000 * Z.shiftl 2 i) :: calls), err. split; [by apply (does_bind _ _ _ [_] tt)|]. split.
    + assert (Hr : requests (DRequest request a :: DSleep (1000 * Z.shiftl 2 i) :: calls) = (request, a) :: requests calls) by reflexivity.
      split; rewrite ?Hr; cbn [length]; [lia|by constructor| |intros E; specialize (G4 E); lia|done].
      destruct G3 as (a' & G3 & ->). exists a'. split; [|done]. rewrite last_cons, G3. done.
    + change (dslept (DSleep (1000 * Z.shiftl 2 i) :: calls)) with (1000 * Z.shiftl 2 i + dslept calls). rewrite Z.shiftl_mul_pow2 by lia.
      replace (i + 1 + 1) with (Z.succ (i + 1)) in H3 by lia. rewrite (Z.pow_succ_r 2 (i + 1)) in H3 by lia.
      replace (i + 1) with (Z.succ i) in * by lia. rewrite Z.pow_succ_r in * by lia. lia.
  - assert (i = 2) as -> by lia. assert (fuel = 1)%nat as -> by lia. apply Hend; [by right|].
    apply (does_bind _ _ _ [] tt); [apply does_ret|]. apply does_ret.
Qed.

(** One status is reported; [task_error] tells when its append throws. *)
Definition task_result (t : TaskStatus) tr : result unit := match cl_task cl t tr with Ok _ => Ok tt | Throw e => Throw e end.

Lemma update_reports query_id user status query progress reason tr :
  let t := mkTask query_id status progress reason user query (-1) (-1) in
  does (updateDDLStatus cl query_id user status query progress reason) tr [DStatus t (cl_task cl t tr)] (task_result t tr).
Proof.
  cbn zeta. set (t := mkTask _ _ _ _ _ _ _ _). unfold updateDDLStatus, does, task_result, io_call, io_lift, mbind, io_bind. fold t. by destruct (cl_task cl t tr).
Qed.

Definition sent_uri (uri : URI) : URI := addQueryParameter (lit "distributed_ddl") (lit "false") uri.

(** The statement was answered with success by a host. *)
Definition accepted (payload method query_id user : str) calls (uri : URI) : Prop :=
  exists password a, (build_request (sent_uri uri) method query_id user password payload, a) ∈ requests calls /\ (sendRequest a).2 = HTTP_OK.

Lemma accepted_mono payload method query_id user calls calls' uri :
  requests calls ⊆ requests calls' -> accepted payload method query_id user calls uri -> accepted payload method query_id user calls' uri.
Proof. intros Hs (pw & a & Hin & Ha). exists pw, a. by split; [apply Hs|]. Qed.

Lemma doDDL_spec payload uri method query_id user tr :
  exists password calls err, does (doDDL cl payload uri method query_id user) tr calls (Ok err) /\
    host_outcome (build_request uri method query_id user password payload) 3 calls err /\ 0 <= dslept calls <= 6000.
Proof.
  destruct (doDDL_loop_spec 4 0 (build_request uri method query_id user (cl_password cl user tr) payload) ErrorCodes.OK tr) as (calls & err & H1 & H2 & H3); [lia..|].
  exists (cl_password cl user tr), calls, err. split; [|split; [exact H2|exact H3]]. by apply does_look.
Qed.

(** A host the status names did not accept the statement. *)
Definition refused (hosts : list URI) calls (host : str) : Prop :=
  exists uri request a, uri ∈ hosts /\ host = host_port (sent_uri uri) /\ (request, a) ∈ requests calls /\ h_uri request = sent_uri uri /\ answer_code a <> ErrorCodes.OK.

Lemma dslept_app l1 l2 : dslept (l1 ++ l2) = dslept l1 + dslept l2.
Proof. induction l1 as [|c l1 IH]; [done|]. change (dslept ((c :: l1) ++ l2)) with (match c with DSleep ms => ms + dslept (l1 ++ l2) | _ => dslept (l1 ++ l2) end).
  change (dslept (c :: l1)) with (match c with DSleep ms => ms + dslept l1 | _ => dslept l1 end). destruct c; rewrite IH; lia. Qed.

Lemma ddl_on_hosts_spec hosts payload method query_id user tr :
  exists calls failed, does (ddl_on_hosts cl hosts payload method query_id user) tr calls (Ok failed) /\ statuses calls = [] /\
    (length hosts <= length (requests calls) <= 3 * length hosts)%nat /\ 0 <= dslept calls <= 6000 * Z.of_nat (length hosts) /\
    (failed = [] -> Forall (accepted payload method query_id user calls) hosts) /\ Forall (refused hosts calls) failed.
Proof.
  revert tr. induction hosts as [|uri hosts IH]; intros tr.
  { exists [], []. split; [apply does_ret|]. split; [done|]. split; [cbn; lia|]. split; [cbn; lia|]. by split. }
  cbn [ddl_on_hosts]. fold (sent_uri uri). destruct (doDDL_spec payload (sent_uri uri) method query_id user tr) as (pw & c1 & err & H1 & [G1 G2 G3 G4 G5] & H2).
  destruct (IH (tr ++ c1)) as (c2 & failed & H3 & H4 & H5 & H6 & H7 & H8).
  exists (c1 ++ c2), (if decide (err <> ErrorCodes.OK) then host_port (sent_uri uri) :: failed else failed).
  split; [eapply does_bind; [exact H1|]; rewrite <- (app_nil_r c2); eapply does_bind; [exact H3|apply does_ret]|].
  rewrite statuses_app, requests_app, dslept_app, G5, H4, length_app. cbn [length app]. split; [done|]. split; [lia|]. split; [lia|].
  destruct G3 as (a & Hlast & ->). apply last_Some_elem_of in Hlast.
  assert (Hmono : Forall (refused (uri :: hosts) (c1 ++ c2)) failed).
  { eapply Forall_impl; [exact H8|]. intros h (u & rq & b & ? & ? & ? & ? & ?). exists u, rq, b. rewrite requests_app. set_solver. }
  destruct (decide (answer_code a <> ErrorCodes.OK)) as [Hne|Heq]; split; try done.
  - constructor; [|done]. exists uri, (build_request (sent_uri uri) method query_id user pw payload), a. rewrite requests_app. set_solver.
  - intros ->. constructor.
    + exists pw, a. split; [rewrite requests_app; set_solver|]. apply answer_code_ok. by destruct (decide (answer_code a = ErrorCodes.OK)).
    + eapply Forall_impl; [by apply H7|]. intros u. apply accepted_mono. rewrite requests_app. set_solver.
Qed.

(** The status a statement sent to hosts ends with. *)
Record hosts_report (hosts : list URI) (payload method query_id user : str) calls (t : TaskStatus) : Prop := {
  hr_one : statuses calls = [t];
  hr_final : is_final t = true;
  hr_id : t_id t = query_id;
  hr_user : t_user t = user;
  hr_requests : (length hosts <= length (requests calls) <= 3 * length hosts)%nat;
  hr_slept : 0 <= dslept calls <= 6000 * Z.of_nat (length hosts);
  hr_success : t_status t = SUCCEEDED -> Forall (accepted payload method query_id user calls) hosts;
  hr_failure : t_status t = FAILED -> exists failed, failed <> [] /\ t_reason t = lit "Failed to do DDL on hosts: " ++ join (lit ",") failed /\ Forall (refused hosts calls) failed
}.

Lemma doDDLOnHosts_spec hosts payload method query_id user tr :
  exists calls r t, does (doDDLOnHosts cl hosts payload method query_id user) tr calls r /\ hosts_report hosts payload method query_id user calls t /\
    exists tr', r = task_result t tr'.
Proof.
  destruct (ddl_on_hosts_spec hosts payload method query_id user tr) as (calls & failed & H1 & H2 & H3 & H4 & H5 & H6). unfold doDDLOnHosts.
  assert (Hr : forall t tr, requests (calls ++ [DStatus t (cl_task cl t tr)]) = requests calls) by (intros; by rewrite requests_app, app_nil_r).
  assert (Hs : forall t tr, statuses (calls ++ [DStatus t (cl_task cl t tr)]) = [t]) by (intros; by rewrite statuses_app, H2).
  assert (Hd : forall t tr, dslept (calls ++ [DStatus t (cl_task cl t tr)]) = dslept calls) by (intros; rewrite dslept_app; cbn; lia).
  destruct failed as [|h failed].
  - eexists _, _, _. split; [eapply does_bind; [exact H1|apply update_reports]|]. split; [|by eexists].
    split; rewrite ?Hr, ?Hs, ?Hd; try done. intros _. eapply Forall_impl; [by apply H5|]. intros u. apply accepted_mono. by rewrite Hr.
  - eexists _, _, _. split; [eapply does_bind; [exact H1|apply update_reports]|]. split; [|by eexists].
    split; rewrite ?Hr, ?Hs, ?Hd; try done. intros _. exists (h :: failed). split; [done|]. split; [done|].
    eapply Forall_impl; [exact H6|]. intros x (u & rq & b & ? & ? & ? & ? & ?). exists u, rq, b. by rewrite Hr.
Qed.

(** ** Shards of hosts *)

Definition shard_uri (shards : Z) (url_parameters : option str) (k : Z) (uri : URI) : URI :=
  addQueryParameter (lit "shard") (writeIntText (k mod shards)) (match url_parameters with Some raw => setRawQuery raw uri | None => uri end).

Lemma indexes_flat shards rf : 0 < shards -> 0 <= rf -> shard_indexes shards rf = map (fun k => (k / shards, k mod shards)) (seqZ 0 (rf * shards)).
Proof.
  intros Hs Hrf. rewrite <- (Z2Nat.id rf) by done. induction (Z.to_nat rf) as [|n IH]; [done|].
  unfold shard_indexes in *. replace (Z.of_nat (S n)) with (Z.of_nat n + 1) by lia. rewrite (seqZ_app 0 (Z.of_nat n) 1) by lia. rewrite map_app, concat_app, IH.
  replace ((Z.of_nat n + 1) * shards) with (Z.of_nat n * shards + shards) by lia. rewrite (seqZ_app 0 (Z.of_nat n * shards) shards) by lia.
  rewrite map_app. f_equal. change (seqZ (0 + Z.of_nat n) 1) with [0 + Z.of_nat n]. cbn [map concat]. rewrite app_nil_r.
  replace (0 + Z.of_nat n * shards) with (Z.of_nat n * shards + 0) by lia. rewrite <- (fmap_add_seqZ (Z.of_nat n * shards) 0 shards).
  change (Z.add (Z.of_nat n * shards) <$> seqZ 0 shards) with (map (Z.add (Z.of_nat n * shards)) (seqZ 0 shards)). rewrite map_map. apply map_ext_in.
  intros j Hj. apply list_elem_of_In, elem_of_seqZ in Hj. rewrite Z.add_0_l. rewrite Z.div_add_l by lia. rewrite Z.div_small by lia.
  rewrite (Z.add_comm (Z.of_nat n * shards) j), Z.mod_add, Z.mod_small by lia. f_equal. lia.
Qed.

Lemma set_shards_seq shards raw pre l rest : 0 < shards ->
  set_shards shards raw (map (fun k => (k / shards, k mod shards)) (seqZ (Z.of_nat (length pre)) (Z.of_nat (length l)))) (pre ++ l ++ rest)
  = Some (pre ++ imap (fun i => shard_uri shards raw (Z.of_nat (length pre + i))) l ++ rest).
Proof.
  intros Hs. revert pre. induction l as [|u l IH]; intros pre; [done|]. cbn [length]. rewrite seqZ_cons by lia. cbn [map set_shards].
  replace (Z.of_nat (length pre) / shards * shards + Z.of_nat (length pre) mod shards) with (Z.of_nat (length pre)) by (pose proof (Z.div_mod (Z.of_nat (length pre)) shards); lia).
  rewrite Nat2Z.id. cbn [app]. rewrite list_lookup_middle by done. cbn [mbind option_bind]. fold (shard_uri shards raw (Z.of_nat (length pre)) u).
  rewrite insert_app_r_alt, Nat.sub_diag by lia. cbn [list_insert app].
  specialize (IH (pre ++ [shard_uri shards raw (Z.of_nat (length pre)) u])). rewrite length_app in IH. cbn [length] in IH.
  replace (Z.succ (Z.of_nat (length pre))) with (Z.of_nat (length pre + 1)) by lia. replace (Z.pred (Z.of_nat (S (length l)))) with (Z.of_nat (length l)) by lia.
  rewrite <- app_assoc in IH. cbn [app] in IH. cbn. rewrite IH. rewrite <- app_assoc. cbn [app imap]. rewrite Nat.add_0_r. do 3 f_equal. f_equal.
  apply imap_ext. intros i x _. cbn. f_equal. lia.
Qed.

(** Host number [k] of the placement gets shard [k mod shards]. *)
Lemma set_shards_spec shards rf raw (uris : list URI) : 0 < shards -> 0 <= rf -> rf * shards <= Z.of_nat (length uris) ->
  set_shards shards raw (shard_indexes shards rf) uris
  = Some (imap (fun k => shard_uri shards raw (Z.of_nat k)) (take (Z.to_nat (rf * shards)) uris) ++ drop (Z.to_nat (rf * shards)) uris).
Proof.
  intros Hs Hr Hl. rewrite indexes_flat by done. pose proof (set_shards_seq shards raw [] (take (Z.to_nat (rf * shards)) uris) (drop (Z.to_nat (rf * shards)) uris) Hs) as H.
  rewrite length_take_le in H by lia. rewrite Z2Nat.id in H by nia. cbn [length app Nat.add] in H. by rewrite take_drop in H.
Qed.

Lemma set_shards_none shards rf raw (uris : list URI) : shards <= 0 \/ rf <= 0 -> set_shards shards raw (shard_indexes shards rf) uris = Some uris.
Proof.
  intros H. assert (shard_indexes shards rf = []) as ->; [|done]. unfold shard_indexes. destruct H as [H|H].
  - rewrite (seqZ_nil 0 shards) by lia. by induction (seqZ 0 rf).
  - by rewrite (seqZ_nil 0 rf) by lia.
Qed.

(** ** Cells of a statement *)

Definition cell (b : MBlock) (name v : str) : Prop := exists c, findColumn b name = Some c /\ getDataAt c 0 = Some v.
Definition cell_int (b : MBlock) (name : str) (z : Z) : Prop := exists c z0, findColumn b name = Some c /\ getInt c 0 = Some (Ok z0) /\ z = to_signed 32 (wrap 32 z0).

Lemma cell_has b name v : cell b name v -> has b name = true.
Proof. intros (c & Hc & _). apply bool_decide_eq_true. by exists c. Qed.
Lemma cell_int_has b name z : cell_int b name z -> has b name = true.
Proof. intros (c & z0 & Hc & _). apply bool_decide_eq_true. by exists c. Qed.

Lemma cell_string_is b name v tr : cell b name v -> cell_string b name tr = Some (tr, Ok v).
Proof. intros (c & Hc & Hv). unfold cell_string, getByName, io_lift, mbind, io_bind. by rewrite Hc, Hv. Qed.
Lemma cell_int32_is b name z tr : cell_int b name z -> cell_int32 b name tr = Some (tr, Ok z).
Proof. intros (c & z0 & Hc & Hz & ->). unfold cell_int32, getByName, io_lift, mbind, io_bind. by rewrite Hc, Hz. Qed.

Lemma validate_ok b names tr : Forall (fun name => has b name = true) names -> validateSchema cl b names tr = Some (tr, Ok true).
Proof. induction 1 as [|name names Hn _ IH]; [done|]. cbn [validateSchema]. by rewrite Hn. Qed.

(** ** Every statement is settled *)

(** Where a statement goes: the hosts, the path and the method of its requests. *)
Definition statement_hosts (record : WalRecord MBlock) (database table : str) (tr : list dcall) : list str :=
  match op_code record with
  | CREATE_TABLE => match headers record !! lit "hosts" with Some hosts => split_commas hosts | None => [] end
  | CREATE_DATABASE | DELETE_DATABASE => map node_address (placement_nodes (cl_orders cl) (cl_metrics cl tr))
  | _ => placed (cl_catalog cl tr) (cl_metrics cl tr) database table
  end.
Definition statement_method (op : OpCode) : str :=
  match op with
  | CREATE_TABLE | CREATE_COLUMN | CREATE_DATABASE => HTTP_POST
  | DELETE_TABLE | DELETE_COLUMN | DELETE_DATABASE => HTTP_DELETE
  | _ => HTTP_PATCH
  end.
Definition statement_path (record : WalRecord MBlock) (database table : str) : result str :=
  match op_code record with
  | CREATE_DATABASE => Ok (lit "/dae/v1/ddl/databases")
  | DELETE_DATABASE => Ok (lit "/dae/v1/ddl/databases/" ++ database)
  | op => if is_column_op op then getColumnApiPath (headers record) table (statement_method op) else Ok (getTableApiPath (headers record) table (statement_method op))
  end.

(** A host accepted a statement; the request that creates a table has the number of the shard. *)
Definition targets (path : result str) (host : str) (u : URI) : Prop :=
  exists p uri, path = Ok p /\ uri_of (lit "http://" ++ host ++ p) = Ok uri /\ (u = uri \/ exists shards raw k, u = shard_uri shards raw k uri).
Definition host_accepted (path : result str) (method payload query_id user : str) calls (host : str) : Prop :=
  exists u, targets path host u /\ accepted payload method query_id user calls u.

Section settled.
Context (record : WalRecord MBlock) (query_id user payload : str) (hosts : list str) (path : result str) (method : str).

(** One status of the statement is reported.  It is final, or the replicas were placed and the statement is in the topic again. *)
Definition settled calls : Prop :=
  exists t, statuses calls = [t] /\ t_id t = query_id /\ t_user t = user /\
    (is_final t = true \/ t_status t = INPROGRESS /\ headers record !! lit "hosts" = None /\ exists hosts, DAppend (with_hosts hosts record) (Ok ErrorCodes.OK) ∈ calls) /\
    (t_status t = SUCCEEDED -> hosts <> [] /\ Forall (host_accepted path method payload query_id user calls) hosts).

Definition settles {A} (m : io dcall A) tr : Prop :=
  exists calls r, does m tr calls r /\ match r with Ok _ => settled calls | Throw _ => (length (statuses calls) <= 1)%nat end.

Lemma settles_same {A} (m m' : io dcall A) tr : m tr = m' tr -> settles m' tr -> settles m tr.
Proof. intros Heq (calls & r & H1 & H2). exists calls, r. split; [|done]. unfold does. by rewrite Heq. Qed.

Lemma settles_pure {A B} (m : io dcall A) (f : A -> io dcall B) a tr : m tr = Some (tr, Ok a) -> settles (f a) tr -> settles (m ≫= f) tr.
Proof. intros Hm. apply settles_same. unfold mbind, io_bind. by rewrite Hm. Qed.

Lemma settles_lift {A B} (x : result A) (f : A -> io dcall B) tr : (forall a, x = Ok a -> settles (f a) tr) -> settles (io_lift x ≫= f) tr.
Proof.
  intros Hf. destruct x as [a|e]; [apply (settles_pure _ _ a); [done|by apply Hf]|].
  exists [], (Throw e). split; [|cbn; lia]. apply does_bind_throw. unfold does. by rewrite app_nil_r.
Qed.

Lemma settles_fail reason tr : settles (failDDL cl query_id user payload reason) tr.
Proof.
  eexists _, _. split; [apply update_reports|]. unfold task_result. destruct (cl_task cl _ tr); [|cbn; lia].
  eexists. split; [done|]. split; [done|]. split; [done|]. split; [by left|done].
Qed.

Lemma settles_hosts uris tr : hosts <> [] -> Forall2 (targets path) hosts uris -> settles (doDDLOnHosts cl uris payload method query_id user) tr.
Proof.
  intros Hne Ht. destruct (doDDLOnHosts_spec uris payload method query_id user tr) as (calls & r & t & H1 & [R1 R2 R3 R4 _ _ R7 _] & tr' & ->).
  exists calls, (task_result t tr'). split; [done|]. unfold task_result. destruct (cl_task cl t tr'); [|rewrite R1; cbn; lia].
  exists t. split; [done|]. split; [done|]. split; [done|]. split; [by left|]. intros Hs. split; [done|]. specialize (R7 Hs). clear -Ht R7.
  induction Ht as [|host u hosts' uris' Hu _ IH]; constructor; apply Forall_cons in R7 as [R7 R8]; [by exists u|by apply IH].
Qed.

Lemma host_accepted_mono calls calls' host : requests calls ⊆ requests calls' -> host_accepted path method payload query_id user calls host -> host_accepted path method payload query_id user calls' host.
Proof. intros Hc (u & Hu & Ha). exists u. split; [done|]. by eapply accepted_mono. Qed.

Lemma toURIs_each hs p uris : toURIs hs p = Ok uris -> Forall2 (fun host u => uri_of (lit "http://" ++ host ++ p) = Ok u) hs uris.
Proof.
  revert uris. induction hs as [|h hs IH]; intros uris; cbn [toURIs]; [intros [= <-]; constructor|]. unfold mbind, result_bind.
  destruct (uri_of _) as [u|] eqn:Eu; [|done]. destruct (toURIs hs p) as [us|]; [|done]. intros [= <-]. constructor; [done|by apply IH].
Qed.

Lemma toURIs_targets hs p uris : path = Ok p -> toURIs hs p = Ok uris -> Forall2 (targets path) hs uris.
Proof. intros Hp Hu%toURIs_each. eapply Forall2_impl; [exact Hu|]. intros h u Hh. exists p, u. split; [done|]. split; [done|]. by left. Qed.

(** Calls before that report no status do not matter. *)
Lemma settles_after {A B} (m : io dcall A) (f : A -> io dcall B) tr new a :
  does m tr new (Ok a) -> statuses new = [] -> settles (f a) (tr ++ new) -> settles (m ≫= f) tr.
Proof.
  intros Hm Hn (calls & r & H1 & H2). exists (new ++ calls), r. split; [by eapply does_bind|]. rewrite statuses_app, Hn. cbn [app].
  destruct r; [|done]. destruct H2 as (t & G1 & G2 & G3 & G4 & G5). exists t. rewrite statuses_app, Hn. split; [done|]. split; [done|]. split; [done|]. split.
  - destruct G4 as [G4|(G4 & G6 & hosts' & G7)]; [by left|]. right. split; [done|]. split; [done|]. exists hosts'. set_solver.
  - intros Hs. destruct (G5 Hs) as [Hne Hu]. split; [done|]. eapply Forall_impl; [exact Hu|].
    intros h. apply host_accepted_mono. rewrite requests_app. set_solver.
Qed.

Lemma toURIs_length hs p uris : toURIs (URI := URI) hs p = Ok uris -> length uris = length hs.
Proof.
  revert uris. induction hs as [|h hs IH]; intros uris; cbn [toURIs]; [by intros [= <-]|]. unfold mbind, result_bind.
  destruct (uri_of _); [|done]. destruct (toURIs hs p); [|done]. intros [= <-]. cbn. f_equal. by apply IH.
Qed.

Lemma split_commas_ne s : split_commas s <> [].
Proof. destruct s as [|c s]; cbn; [done|]. destruct (decide (c = ","%char)); [done|]. by destruct (split_commas s). Qed.

Lemma settled_more calls new : settled calls -> statuses new = [] -> settled (calls ++ new).
Proof.
  intros (t & G1 & G2 & G3 & G4 & G5) Hn. exists t. rewrite statuses_app, Hn, app_nil_r. split; [done|]. split; [done|]. split; [done|]. split.
  - destruct G4 as [G4|(G4 & G6 & hosts' & G7)]; [by left|]. right. split; [done|]. split; [done|]. exists hosts'. set_solver.
  - intros Hs. destruct (G5 Hs) as [Hne Hu]. split; [done|]. eapply Forall_impl; [exact Hu|].
    intros h. apply host_accepted_mono. rewrite requests_app. set_solver.
Qed.

Lemma settles_then {A B} (m : io dcall A) (f : A -> io dcall B) tr :
  settles m tr -> (forall a tr', exists new r, does (f a) tr' new r /\ statuses new = []) -> settles (m ≫= f) tr.
Proof.
  intros (calls & r & H1 & H2) Hf. destruct r as [a|e]; [|exists calls, (Throw e); split; [by apply does_bind_throw|done]].
  destruct (Hf a (tr ++ calls)) as (new & r & H3 & H4). exists (calls ++ new), r. split; [by eapply does_bind|].
  destruct r; [by apply settled_more|]. destruct H2 as (t & G1 & _). rewrite statuses_app, G1, H4. cbn. lia.
Qed.

(** The cells every statement has. *)
Context (database : str).
Let b := block record.
Record common_cells : Prop := {
  cc_payload : cell b (lit "payload") payload;
  cc_database : cell b (lit "database") database;
  cc_query_id : cell b (lit "query_id") query_id;
  cc_user : cell b (lit "user") user;
  cc_timestamp : has b (lit "timestamp") = true
}.

Ltac cell_step := first
  [ eapply settles_pure; [apply cell_string_is; eassumption|]; cbv beta
  | eapply settles_pure; [apply cell_int32_is; eassumption|]; cbv beta ].

Lemma mutateDatabase_settles tr :
  common_cells -> hosts = map node_address (placement_nodes (cl_orders cl) (cl_metrics cl tr)) ->
  path = (if decide (method = HTTP_POST) then Ok (lit "/dae/v1/ddl/databases") else Ok (lit "/dae/v1/ddl/databases/" ++ database)) ->
  settles (mutateDatabase cl record method) tr.
Proof.
  intros [C1 C2 C3 C4 C5] Hh Hpath. unfold mutateDatabase. fold b. eapply settles_pure; [apply validate_ok; repeat constructor; eauto using cell_has|]. cbn [negb].
  repeat cell_step. eapply settles_pure; [reflexivity|]. cbv beta. destruct (placement_nodes _ _) as [|m nodes] eqn:Hn; [apply settles_fail|].
  destruct (decide (method = HTTP_POST)) as [Hm|Hm]; [|destruct (decide (method = HTTP_DELETE)); [|apply settles_fail]].
  all: apply settles_lift; intros uris Hu; apply settles_hosts; [by rewrite Hh|rewrite Hh; by eapply toURIs_targets].
Qed.

Lemma mutateTable_settles table tr :
  common_cells -> cell b (lit "table") table -> hosts = placed (cl_catalog cl tr) (cl_metrics cl tr) database table ->
  path = (if is_column_op (op_code record) then getColumnApiPath (headers record) table method else Ok (getTableApiPath (headers record) table method)) ->
  (forall tr rf s, shardAndReplicationFactor (cl_catalog cl tr) database table = Ok (rf, s) -> in_signed 32 (rf * s) = true) ->
  settles (mutateTable cl record method) tr.
Proof.
  intros [C1 C2 C3 C4 C5] Ct Hhosts Hpath Hint. unfold mutateTable. fold b. eapply settles_pure; [apply validate_ok; repeat constructor; eauto using cell_has|]. cbn [negb].
  repeat cell_step. unfold getTargetURIs. rewrite <- Hpath. set (f := fun target_hosts : list URI => _).
  assert (Hstep : settles (io_lift (p ← path; toURIs hosts p) ≫= f) tr).
  { apply settles_lift. intros uris Hu. unfold f. destruct path as [p|] eqn:Ep; [|done]. cbn [mbind result_bind] in Hu.
    apply toURIs_length in Hu as Hl. apply (toURIs_targets hosts p) in Hu; [|done]. destruct uris as [|u uris]; [apply settles_fail|].
    assert (Hne : hosts <> []) by (intros H0; by rewrite H0 in Hl).
    destruct (shardAndReplicationFactor (cl_catalog cl tr) database table) as [[rf sh]|e] eqn:Hs.
    - eapply settles_pure; [unfold io_look, mbind, io_bind, io_lift; by rewrite Hs|]. cbn [fst snd]. rewrite (Hint tr rf sh Hs). cbn [negb].
      destruct (decide _); [apply settles_fail|]. by apply settles_hosts.
    - exists [], (Throw e). split; [|cbn; lia]. apply does_bind_throw. unfold does, io_look, mbind, io_bind, io_lift. by rewrite Hs, app_nil_r. }
  eapply settles_same; [|exact Hstep]. unfold mbind, io_bind, io_look, io_lift, result_bind. rewrite <- Hhosts. by destruct path as [p|e].
Qed.

Lemma deleteTable_settles table tr :
  common_cells -> cell b (lit "table") table -> hosts = placed (cl_catalog cl tr) (cl_metrics cl tr) database table -> method = HTTP_DELETE ->
  path = (if is_column_op (op_code record) then getColumnApiPath (headers record) table method else Ok (getTableApiPath (headers record) table method)) ->
  (forall tr rf s, shardAndReplicationFactor (cl_catalog cl tr) database table = Ok (rf, s) -> in_signed 32 (rf * s) = true) ->
  settles (deleteTable cl record) tr.
Proof.
  intros HC Ct Hhosts Hm Hpath Hint. unfold deleteTable. rewrite <- Hm. apply settles_then; [by eapply mutateTable_settles|]. intros _ tr'. destruct HC as [_ C2 _ _ _].
  destruct (delete_loop_spec DMeta (cl_wal cl) 4 (context_of (escapeDWALName database table)) 0 tr') as (calls & r & H1 & _); [lia..|].
  exists (map DMeta calls), r. split; [|apply statuses_meta].
  unfold does, mbind, io_bind. fold b. rewrite (cell_string_is b _ database) by done. rewrite (cell_string_is b _ table) by done. exact H1.
Qed.

(** The topic is there once [n] calls are made. *)
Context (n fuel : nat) (Hfuel : (n < fuel)%nat).
Context (Hdescribe : forall ctx tr, exists err, wal_describe (cl_wal cl) ctx tr = Ok err /\ ((n <= length tr)%nat -> err = ErrorCodes.OK)).

Lemma place_table_settles shards rf tr :
  headers record !! lit "hosts" = None -> in_signed 32 (shards * rf) = true -> settles (place_table cl record query_id user payload shards rf) tr.
Proof.
  intros Hh Hint. unfold place_table. eapply settles_pure; [reflexivity|]. unfold place. rewrite Hint. set (nodes := qualifiedNodes _ _ _).
  destruct nodes as [|m nodes]; [apply settles_fail|]. set (r := with_hosts _ record).
  destruct (cl_append cl r tr) as [err|e] eqn:Ha.
  2: { exists [DAppend r (Throw e)], (Throw e). split; [|cbn; lia]. apply does_bind_throw. rewrite <- Ha at 1. rewrite <- Ha. apply (does_call_lift (cl_append cl r) (DAppend r)). }
  assert (Hcall : does (io_call (cl_append cl r) (DAppend r) ≫= io_lift) tr [DAppend r (Ok err)] (Ok err)) by (rewrite <- Ha; apply does_call_lift).
  destruct (decide (err = ErrorCodes.OK)) as [->|Hne].
  - eexists (DAppend r (Ok ErrorCodes.OK) :: _), _. split; [eapply (does_bind _ _ _ [_]); [exact Hcall|]; rewrite decide_False by auto; apply update_reports|].
    unfold task_result. destruct (cl_task cl _ _); [|cbn; lia]. eexists. split; [done|]. split; [done|]. split; [done|]. split; [|done].
    right. split; [done|]. split; [done|]. eexists. by left.
  - eapply settles_after; [exact Hcall|done|]. cbv beta. rewrite decide_True by done. apply settles_fail.
Qed.

Lemma shard_targets hs p uris shards raw (f : nat -> Z) :
  path = Ok p -> Forall2 (fun host u => uri_of (lit "http://" ++ host ++ p) = Ok u) hs uris -> Forall2 (targets path) hs (imap (fun k => shard_uri shards raw (f k)) uris).
Proof.
  intros Hp H. revert f. induction H as [|h u hs us Hu _ IH]; intros f; [constructor|]. rewrite imap_cons. constructor; [|apply (IH (f ∘ S))].
  exists p, u. do 2 (split; [done|]). right. by eexists _, _, _.
Qed.

Lemma create_placed_settles hosts_val table shards rf tr :
  hosts = split_commas hosts_val -> method = HTTP_POST -> path = Ok (getTableApiPath (headers record) table method) ->
  shards <= 0 \/ rf <= 0 \/ rf * shards <= Z.of_nat (length hosts) ->
  settles (create_placed cl fuel record hosts_val database table query_id user payload shards rf) tr.
Proof.
  intros Hhosts Hm Hpath Hrange. unfold create_placed, createDWAL. rewrite <- Hm, <- Hhosts. set (url := headers record !! _). set (limits := match url with Some _ => _ | None => _ end).
  assert (exists new r, does (io_catch (createDWAL cl fuel database table shards rf url ≫= fun _ => mret None)
      (fun e => if is_db_exception e then mret (Some e) else io_throw e)) tr new r /\ statuses new = []) as (new & r & Hc & Hn).
  { unfold createDWAL. fold limits. destruct limits as [l|e].
    - destruct (create_returns DMeta (cl_wal cl) n Hdescribe fuel (table_context database table shards rf l) tr Hfuel) as (calls & [[]|e] & H1 & _).
      + exists (map DMeta calls), (Ok None). split; [|apply statuses_meta]. apply does_catch_ok. rewrite <- (app_nil_r (map _ _)). eapply does_bind; [by apply does_lift_then|apply does_ret].
      + exists (map DMeta calls), (if is_db_exception e then Ok (Some e) else Throw e). split; [|apply statuses_meta]. rewrite <- (app_nil_r (map _ _)).
        eapply does_catch; [by apply does_bind_throw, does_lift_then|]. cbv beta. destruct (is_db_exception e); [apply does_ret|apply does_throw].
    - exists [], (if is_db_exception e then Ok (Some e) else Throw e). split; [|done]. apply (does_catch _ _ _ [] e []); [apply does_bind_throw, does_bind_throw; apply does_throw|].
      cbv beta. destruct (is_db_exception e); [apply does_ret|apply does_throw]. }
  destruct r as [created|e]; [|exists new, (Throw e); split; [by apply does_bind_throw|rewrite Hn; cbn; lia]].
  eapply settles_after; [exact Hc|done|]. cbv beta. destruct created as [e|]; [apply settles_fail|].
  apply settles_lift. intros uris Hu. apply toURIs_length in Hu as Hl. pose proof (toURIs_each _ _ _ Hu) as He. apply (toURIs_targets _ _ _ Hpath) in Hu. assert (Hne : hosts <> []) by (rewrite Hhosts; apply split_commas_ne).
  destruct (Z_le_gt_dec shards 0); [rewrite set_shards_none by auto; by apply settles_hosts|].
  destruct (Z_le_gt_dec rf 0); [rewrite set_shards_none by auto; by apply settles_hosts|].
  rewrite set_shards_spec by lia. apply settles_hosts; [done|]. rewrite <- (take_drop (Z.to_nat (rf * shards)) hosts). apply Forall2_app; [|by apply Forall2_drop].
  eapply shard_targets; [exact Hpath|]. by apply Forall2_take.
Qed.

Lemma createTable_settles table shards rf tr :
  common_cells -> hosts = match headers record !! lit "hosts" with Some hosts => split_commas hosts | None => [] end -> method = HTTP_POST ->
  path = Ok (getTableApiPath (headers record) table method) -> cell b (lit "table") table -> cell_int b (lit "shards") shards -> cell_int b (lit "replication_factor") rf ->
  match headers record !! lit "hosts" with
  | Some hosts => shards <= 0 \/ rf <= 0 \/ rf * shards <= Z.of_nat (length (split_commas hosts))
  | None => in_signed 32 (shards * rf) = true
  end -> settles (createTable cl fuel record) tr.
Proof.
  intros [C1 C2 C3 C4 C5] Hhosts Hm Hpath Ct Cs Cr Hh. unfold createTable. fold b.
  eapply settles_pure; [apply validate_ok; repeat constructor; eauto using cell_has, cell_int_has|]. cbn [negb]. repeat cell_step.
  destruct (headers record !! lit "hosts") eqn:Eh; [apply create_placed_settles; [done..|by rewrite Hhosts]|by apply place_table_settles].
Qed.
End settled.

(** A statement a record holds: its cells, and numbers that stay in range. *)
Definition statement_ok (record : WalRecord MBlock) (database table query_id user payload : str) : Prop :=
  let b := block record in
  common_cells record query_id user payload database /\
  match op_code record with
  | CREATE_TABLE =>
      exists shards rf, cell b (lit "table") table /\ cell_int b (lit "shards") shards /\ cell_int b (lit "replication_factor") rf /\
        match headers record !! lit "hosts" with
        | Some hosts => shards <= 0 \/ rf <= 0 \/ rf * shards <= Z.of_nat (length (split_commas hosts))
        | None => in_signed 32 (shards * rf) = true
        end
  | DELETE_TABLE | ALTER_TABLE | CREATE_COLUMN | DELETE_COLUMN | ALTER_COLUMN =>
      cell b (lit "table") table /\
        forall tr rf s, shardAndReplicationFactor (cl_catalog cl tr) database table = Ok (rf, s) -> in_signed 32 (rf * s) = true
  | CREATE_DATABASE | DELETE_DATABASE => True
  | _ => False
  end.

(** C5: Executing a well-formed statement ([statement_ok]) ends, whatever the nodes answer; for the creation of a table on the hosts it was placed on, when the topic of
    the table can be described after some number of calls.  Unless an exception is thrown exactly one status of it is reported,
    and that status is final: it tells of success only when each of the hosts of the statement, of which there is at least one, accepted it.  Or the table is new, its replicas were
    placed, and the statement is in the topic again with the hosts. *)
Theorem statement_settled (record : WalRecord MBlock) (database table query_id user payload : str) (n fuel : nat) tr :
  statement_ok record database table query_id user payload ->
  (op_code record = CREATE_TABLE -> (n < fuel)%nat /\ forall ctx tr, exists err, wal_describe (cl_wal cl) ctx tr = Ok err /\ ((n <= length tr)%nat -> err = ErrorCodes.OK)) ->
  exists calls r, does (processRecord cl fuel record) tr calls r /\
    match r with
    | Ok _ => exists t, statuses calls = [t] /\ t_id t = query_id /\ t_user t = user /\
        (is_final t = true \/ t_status t = INPROGRESS /\ headers record !! lit "hosts" = None /\ exists hosts, DAppend (with_hosts hosts record) (Ok ErrorCodes.OK) ∈ calls) /\
        (t_status t = SUCCEEDED -> statement_hosts record database table tr <> [] /\
           Forall (host_accepted (statement_path record database table) (statement_method (op_code record)) payload query_id user calls) (statement_hosts record database table tr))
    | Throw _ => (length (statuses calls) <= 1)%nat
    end.
Proof.
  intros [HC Hop] Hd.
  change (settles record query_id user payload (statement_hosts record database table tr) (statement_path record database table) (statement_method (op_code record)) (processRecord cl fuel record) tr).
  unfold processRecord, statement_hosts, statement_path. destruct (op_code record) eqn:Eop; try done.
  all: try (eapply mutateDatabase_settles; done).
  all: try (destruct Hop as [Ht Hi]; eapply mutateTable_settles; [done|done|done|by rewrite Eop|done]).
  - destruct (Hd eq_refl) as [Hf Hdesc]. destruct Hop as (shards & rf & Ht & Hs & Hr & Hh). by eapply createTable_settles.
  - destruct Hop as [Ht Hi]. eapply deleteTable_settles; [done|done|done|done|by rewrite Eop|done].
Qed.

(** *** Placing and creating *)

Definition no_comma (s : str) : Prop := ","%char ∉ s.

Lemma split_no_comma s : no_comma s -> split_commas s = [s].
Proof.
  unfold no_comma. induction s as [|c s IH]; [done|]. intros Hn. cbn [split_commas]. rewrite decide_False by set_solver. by rewrite IH by set_solver.
Qed.

Lemma split_app s rest : no_comma s -> split_commas (s ++ lit "," ++ rest) = s :: split_commas rest.
Proof.
  unfold no_comma. induction s as [|c s IH]; intros Hn; [done|]. cbn [app split_commas]. rewrite decide_False by set_solver. by rewrite IH by set_solver.
Qed.

Lemma split_join (hosts : list str) : hosts <> [] -> Forall no_comma hosts -> split_commas (join (lit ",") hosts) = hosts.
Proof.
  intros Hne HF. induction HF as [|h hosts Hh HF IH]; [done|]. destruct hosts as [|h' hosts]; [by apply split_no_comma|].
  change (join (lit ",") (h :: h' :: hosts)) with (h ++ lit "," ++ join (lit ",") (h' :: hosts)). rewrite split_app by done. by rewrite IH.
Qed.

Lemma place_length clock orders shuffle shards rf policy metrics marks nodes :
  (forall l, shuffle l ≡ₚ l) -> 0 < shards -> 0 < rf -> place clock orders shuffle shards rf policy metrics = Some (marks, nodes) -> nodes <> [] ->
  Z.of_nat (length nodes) = rf * shards.
Proof.
  intros Hsh H1 H2. unfold place. destruct (in_signed 32 (shards * rf)) eqn:Hi; [|done]. intros [= _ <-]. unfold qualifiedNodes. cbn [requested_nodes storage_policy].
  apply in_signed_iff in Hi; [|done]. change (32 - 1) with 31 in Hi. assert (0 < shards * rf) by nia.
  replace (wrap 64 (shards * rf)) with (shards * rf) by (unfold wrap; rewrite Z.mod_small; lia).
  destruct (Z.leb_spec (shards * rf) 0); [done|]. set (q := filter _ _). destruct (Z.ltb_spec (Z.of_nat (length q)) (shards * rf)); [done|]. intros _.
  rewrite length_take, std_sort_perm, Hsh. lia.
Qed.

(** C25: The placement written to the topic is the one executed: the hosts read back are the nodes placed, one for each replica of each shard, so that no index is out of
    range, and replica [i] of shard [j] is created on node [i * shards + j]. *)
Theorem placement_reaches_hosts clock orders shuffle (shards rf : Z) policy metrics marks nodes (record : WalRecord MBlock) path (uris : list URI) :
  (forall l, shuffle l ≡ₚ l) -> 0 < shards -> 0 < rf ->
  place clock orders shuffle shards rf policy metrics = Some (marks, nodes) -> nodes <> [] -> Forall no_comma (map node_address nodes) ->
  toURIs (map node_address nodes) path = Ok uris ->
  let record' := with_hosts (join (lit ",") (map node_address nodes)) record in
  let raw := headers record' !! lit "url_parameters" in
  raw = headers record !! lit "url_parameters" /\
  exists hosts, headers record' !! lit "hosts" = Some hosts /\ split_commas hosts = map node_address nodes /\ Z.of_nat (length nodes) = rf * shards /\
  exists targets, set_shards shards raw (shard_indexes shards rf) uris = Some targets /\ length targets = length nodes /\
    forall i j, 0 <= i < rf -> 0 <= j < shards ->
      exists uri, uris !! Z.to_nat (i * shards + j) = Some uri /\
        targets !! Z.to_nat (i * shards + j) = Some (addQueryParameter (lit "shard") (writeIntText j) (match raw with Some raw => setRawQuery raw uri | None => uri end)).
Proof.
  intros Hsh Hs Hr Hp Hne Hc Hu record' raw. pose proof (place_length _ _ _ _ _ _ _ _ _ Hsh Hs Hr Hp Hne) as Hlen.
  assert (Hul : length uris = length nodes) by (rewrite (toURIs_length _ _ _ Hu); by rewrite length_map).
  split; [unfold raw; cbn; by rewrite lookup_insert_ne|]. exists (join (lit ",") (map node_address nodes)). split; [cbn; by rewrite lookup_insert_eq|].
  split; [apply split_join; [by destruct nodes|done]|]. split; [done|]. rewrite (set_shards_spec shards rf raw uris) by lia. eexists. split; [done|].
  rewrite take_ge, drop_ge, app_nil_r by lia. split; [by rewrite length_imap|]. intros i j Hi Hj.
  destruct (lookup_lt_is_Some_2 uris (Z.to_nat (i * shards + j))) as [uri Huri]; [nia|]. exists uri. split; [done|]. rewrite list_lookup_imap, Huri. cbn [fmap option_fmap option_map].
  unfold shard_uri. rewrite Z2Nat.id by nia. rewrite Z.add_comm, Z.mod_add, Z.mod_small by lia. done.
Qed.

(** *** Offsets are committed last *)

Definition not_commit (c : dcall (URI := URI)) : Prop := match c with DCommit _ _ => False | _ => True end.

Lemma emits_cell b name : emits not_commit (cell_string (E := dcall (URI := URI)) b name).
Proof. unfold cell_string. emit. Qed.
Lemma emits_cell_int b name : emits not_commit (cell_int32 (E := dcall (URI := URI)) b name).
Proof. unfold cell_int32. emit. Qed.
Lemma emits_update query_id user status query progress reason : emits not_commit (updateDDLStatus cl query_id user status query progress reason).
Proof. unfold updateDDLStatus. emit. Qed.
#[local] Hint Resolve emits_cell emits_cell_int : io.
#[local] Hint Extern 1 (emits _ (progressDDL _ _ _ _ _)) => apply emits_update : io.
#[local] Hint Extern 1 (emits _ (succeedDDL _ _ _ _)) => apply emits_update : io.
#[local] Hint Extern 1 (emits _ (failDDL _ _ _ _ _)) => apply emits_update : io.

Lemma emits_validate b names : emits not_commit (validateSchema cl b names).
Proof. induction names as [|name names IH]; cbn [validateSchema]; emit. Qed.
Lemma emits_doDDL_loop fuel i request err : emits not_commit (doDDL_loop cl fuel i request err).
Proof. revert i err. induction fuel as [|fuel IH]; intros i err; cbn [doDDL_loop]; unfold dsleep; cbv zeta; emit. Qed.
Lemma emits_ddl_on_hosts hosts payload method query_id user : emits not_commit (ddl_on_hosts cl hosts payload method query_id user).
Proof.
  induction hosts as [|uri hosts IH]; cbn [ddl_on_hosts]; cbv zeta; [emit|]. unfold doDDL.
  apply emits_bind; [apply emits_bind; [emit|intros; apply emits_doDDL_loop]|]. intros err. apply emits_bind; [exact IH|emit].
Qed.
Lemma emits_hosts hosts payload method query_id user : emits not_commit (doDDLOnHosts cl hosts payload method query_id user).
Proof. unfold doDDLOnHosts. apply emits_bind; [apply emits_ddl_on_hosts|]. emit. Qed.
#[local] Hint Resolve emits_validate emits_hosts : io.

Lemma emits_wait fuel ctx : emits not_commit (waitUntilDWalReady DMeta (cl_wal cl) fuel ctx).
Proof. induction fuel as [|fuel IH]; cbn [waitUntilDWalReady]; unfold call_describe, sleep; emit. Qed.
Lemma emits_create_loop fuel ctx retries : emits not_commit (create_loop DMeta (cl_wal cl) fuel ctx retries).
Proof. revert retries. induction fuel as [|fuel IH]; intros retries; cbn [create_loop]; unfold call_create, sleep; emit. Qed.
Lemma emits_delete_loop fuel ctx retries : emits not_commit (delete_loop DMeta (cl_wal cl) fuel ctx retries).
Proof. revert retries. induction fuel as [|fuel IH]; intros retries; cbn [delete_loop]; unfold call_remove, sleep; emit. Qed.
#[local] Hint Resolve emits_wait emits_create_loop emits_delete_loop : io.

Lemma emits_mutateTable record method : emits not_commit (mutateTable cl record method).
Proof. unfold mutateTable, getTargetURIs. cbv zeta. emit. Qed.
#[local] Hint Resolve emits_mutateTable : io.

Lemma emits_record fuel record : emits not_commit (processRecord cl fuel record).
Proof.
  unfold processRecord, createTable, create_placed, place_table, createDWAL, doCreateDWal, call_describe, mutateDatabase, deleteTable, doDeleteDWal. cbv zeta. emit.
Qed.

Definition commits calls : list Z := omap (fun c => match c with DCommit sn _ => Some sn | _ => None end) calls.

Lemma no_commits calls : Forall not_commit calls -> commits calls = [].
Proof. induction 1 as [|c calls Hc _ IH]; [done|]. by destruct c. Qed.

Lemma commits_app l1 l2 : commits (l1 ++ l2) = commits l1 ++ commits l2.
Proof. apply omap_app. Qed.

Lemma commit_loop_spec fuel i last_sn tr :
  0 <= i <= 3 -> Z.of_nat fuel + i = 4 ->
  exists calls, does (commit_loop cl fuel i last_sn) tr calls (Ok tt) /\ (length (commits calls) <= Z.to_nat (3 - i))%nat /\ Forall (eq last_sn) (commits calls).
Proof.
  revert i tr. induction fuel as [|fuel IH]; intros i tr Hi Hf; [lia|]. cbn [commit_loop]. unfold MAX_RETRIES.
  destruct (Z.ltb_spec i 3) as [Hlt|Hge]; [|exists []; split; [apply does_ret|split; [cbn; lia|constructor]]].
  set (a := cl_commit cl last_sn tr). set (ok := match a with Ok err => bool_decide (err = 0) | Throw _ => false end).
  assert (Hcall : does (io_catch (err ← (io_call (cl_commit cl last_sn) (DCommit last_sn) ≫= io_lift); mret (bool_decide (err = 0))) (fun _ => mret false)) tr [DCommit last_sn a] (Ok ok)).
  { unfold does, io_catch, io_call, io_lift, mbind, io_bind. fold a. unfold ok. by destruct a. }
  destruct ok eqn:Hok; [exists [DCommit last_sn a]; split; [by apply (does_bind _ _ _ [_] true [] _ Hcall), does_ret|split; [cbn; lia|by repeat constructor]]|].
  set (pause := if i <? 3 - 1 then [DSleep (1000 * Z.shiftl 2 i)] else [] : list (dcall (URI := URI))).
  destruct (IH (i + 1) ((tr ++ [DCommit last_sn a]) ++ pause)) as (calls & H1 & H2 & H3); [lia..|].
  exists ([DCommit last_sn a] ++ pause ++ calls). split.
  - eapply does_bind; [exact Hcall|]. cbv beta. apply (does_bind _ _ _ _ tt); [|done]. unfold pause. destruct (i <? 3 - 1); [apply does_note|apply does_ret].
  - assert (Hp : commits pause = []) by (unfold pause; by destruct (i <? 3 - 1)). rewrite !commits_app, Hp. cbn [app]. change (commits [DCommit last_sn a]) with [last_sn].
    split; [cbn; lia|by constructor].
Qed.

(** C30: The offset of a batch is committed after all its records were processed, and only when none of them threw; it is the number of the last record, and
    committing is tried three times at most.  A batch with an exception commits nothing. *)
Theorem offset_committed_last (fuel : nat) (records : list (WalRecord MBlock)) (last_record : WalRecord MBlock) tr :
  last records = Some last_record ->
  match io_iter (processRecord cl fuel) records tr with
  | Some (tr1, Ok _) => exists done calls, tr1 = tr ++ done /\ commits done = [] /\ does (processRecords cl fuel records) tr (done ++ calls) (Ok tt) /\
      (length (commits calls) <= 3)%nat /\ Forall (eq (sn last_record)) (commits calls)
  | Some (tr1, Throw e) => exists done, tr1 = tr ++ done /\ does (processRecords cl fuel records) tr done (Throw e) /\ commits done = []
  | None => processRecords cl fuel records tr = None
  end.
Proof.
  intros Hl. assert (Hemit : emits not_commit (io_iter (processRecord cl fuel) records)) by (apply emits_iter; intros; apply emits_record).
  unfold processRecords. rewrite Hl. destruct (io_iter (processRecord cl fuel) records tr) as [[tr1 [[]|e]]|] eqn:Ei.
  - destruct (Hemit _ _ _ Ei) as (done & -> & Hd). destruct (commit_loop_spec 4 0 (sn last_record) (tr ++ done)) as (calls & H1 & H2 & H3); [lia..|].
    exists done, calls. split; [done|]. split; [by apply no_commits|]. split; [|split; [exact H2|done]]. by eapply does_bind.
  - destruct (Hemit _ _ _ Ei) as (done & -> & Hd). exists done. split; [done|]. split; [by apply does_bind_throw|by apply no_commits].
  - unfold mbind, io_bind. by rewrite Ei.
Qed.
End facts.

(** ** Examples *)

#[export] Instance text_uri : PocoURI str := {|
  uri_of s := Ok s;
  setRawQuery raw u := u ++ lit "?" ++ raw;
  addQueryParameter k v u := u ++ lit "&" ++ k ++ lit "=" ++ v;
  getHost u := u;
  getPort _ := 80;
  raw_query_parameters raw := Ok [(lit "streaming_storage_retention_ms", raw)]
|}.

Definition example_node (host : string) : NodeMetrics :=
  mkMetrics (mkNode (lit host) (lit host) (lit "c") [] 0 8123 0 9000) {[lit "default" := 10]} 1 1 0 false.

(** Nodes that answer with [answer], and a log that answers every call. *)
Definition example_cluster (answer : http_answer) : cluster (URI := str) :=
  mkCluster (mkWal (fun _ _ => Ok ErrorCodes.OK) (fun _ _ => Ok ErrorCodes.OK) (fun _ _ => Ok ErrorCodes.OK) (fun _ => false) (fun _ _ => Ok tt) (fun _ _ => Ok tt))
    (fun _ _ => answer) (fun _ _ => Ok 0) (fun _ _ => Ok 0) (fun _ _ => Ok 0) (fun _ _ => []) (fun _ _ => 0) (fun m => (map_to_list m).*2) (fun _ l => l)
    (fun _ => {[lit "h1" := example_node "h1"]}) (fun _ => empty_catalog) (fun _ => []).

Definition example_block (table : string) (shards : Z) : MBlock :=
  buildBlock [(lit "payload", lit "p"); (lit "database", lit "d"); (lit "table", lit table); (lit "query_id", lit "q"); (lit "user", lit "u")]
    [(lit "shards", shards); (lit "replication_factor", 1)] [(lit "timestamp", 5)].
Definition example_statement (op : OpCode) (shards : Z) : WalRecord MBlock := mkRecord op ∅ (example_block "t" shards) [] 0 7.

Lemma example_cells op shards : common_cells (example_statement op shards) (lit "q") (lit "u") (lit "p") (lit "d").
Proof. split; try (eexists; split; reflexivity). Qed.

Lemma statement_settled_witness :
  exists calls, does (processRecord (example_cluster (Responded [] 200)) 1 (example_statement CREATE_DATABASE 1)) [] calls (Ok tt) /\
    exists t, statuses calls = [t] /\ t_status t = SUCCEEDED.
Proof.
  destruct (statement_settled (example_cluster (Responded [] 200)) (example_statement CREATE_DATABASE 1) (lit "d") [] (lit "q") (lit "u") (lit "p") 0 1 []) as (calls & r & H1 & H2).
  - split; [apply example_cells|done].
  - done.
  - pose proof H1 as H. vm_compute in H. injection H as Hc Hr. subst calls r. eexists. split; [exact H1|].
    destruct H2 as (t & H2 & _). exists t. split; [exact H2|]. vm_compute in H2. by injection H2 as <-.
Defined.

Lemma placement_reaches_hosts_witness :
  exists marks nodes targets, place (fun _ => 5000) (fun m => (map_to_list m).*2) id 2 1 (lit "default") example_metrics = Some (marks, nodes) /\
    set_shards 2 None (shard_indexes 2 1) (map (fun m => lit "http://" ++ node_address m ++ lit "/x") nodes) = Some targets /\
    targets = [lit "http://host:8123/x&shard=0"; lit "http://host:8123/x&shard=1"].
Proof.
  destruct (place (fun _ => 5000) (fun m => (map_to_list m).*2) id 2 1 (lit "default") example_metrics) as [[marks nodes]|] eqn:Hp; [|vm_compute in Hp; discriminate].
  assert (Hn : map node_address nodes = [lit "host:8123"; lit "host:8123"]).
  { assert (He : (map node_address ∘ snd) <$> Some (marks, nodes) = Some [lit "host:8123"; lit "host:8123"]) by (rewrite <- Hp; vm_compute; reflexivity).
    by injection He. }
  destruct (placement_reaches_hosts (URI := str) (fun _ => 5000) (fun m => (map_to_list m).*2) id 2 1 (lit "default") example_metrics marks nodes
    (example_statement CREATE_TABLE 2) (lit "/x") [lit "http://host:8123/x"; lit "http://host:8123/x"]) as (_ & hosts & _ & _ & _ & targets & H1 & _).
  - done.
  - lia.
  - lia.
  - exact Hp.
  - intros ->. discriminate Hn.
  - rewrite Hn. repeat constructor; apply (bool_decide_unpack _); vm_compute; exact I.
  - rewrite Hn. reflexivity.
  - exists marks, nodes, targets. split; [done|]. split.
    + rewrite <- (map_map node_address (fun a => lit "http://" ++ a ++ lit "/x")), Hn. exact H1.
    + vm_compute in H1. by injection H1 as <-.
Defined.

Lemma offset_committed_last_witness :
  exists tr calls, io_iter (processRecord (example_cluster (Responded [] 200)) 1) [example_statement CREATE_DATABASE 1] [] = Some (tr, Ok tt) /\
    does (processRecords (example_cluster (Responded [] 200)) 1 [example_statement CREATE_DATABASE 1]) [] (tr ++ calls) (Ok tt) /\ commits calls = [7].
Proof.
  pose proof (offset_committed_last (example_cluster (Responded [] 200)) 1 [example_statement CREATE_DATABASE 1] (example_statement CREATE_DATABASE 1) [] eq_refl) as H.
  assert (He : (fun x => (is_ok x.2, commits x.1)) <$> io_iter (processRecord (example_cluster (Responded [] 200)) 1) [example_statement CREATE_DATABASE 1] [] = Some (true, []))
    by (vm_compute; reflexivity).
  assert (Hm : (fun x => commits x.1) <$> processRecords (example_cluster (Responded [] 200)) 1 [example_statement CREATE_DATABASE 1] [] = Some [7]) by (vm_compute; reflexivity).
  destruct (io_iter _ _ _) as [[tr [[]|e]]|]; [|discriminate He..]. destruct H as (l & calls & -> & Hd & H1 & _). exists l, calls. split; [reflexivity|]. split; [exact H1|].
  rewrite H1 in Hm. injection Hm as Hm. cbn [app] in Hm. by rewrite commits_app, Hd in Hm.
Defined.

(** ** Where the service goes wrong *)

(** Error codes are matched as prefixes: an error 570, 600 or 8123 is taken for one that is not worth a retry. *)
Lemma unretriable_prefix : isUnretriableError (lit "Code: 8123. DB::Exception") = true.
Proof. reflexivity. Qed.

(** The topic of a table is deleted also when the table was not deleted on any node. *)
Lemma topic_deleted_anyway :
  exists calls t, does (processRecord (example_cluster StreamFailed) 1 (example_statement DELETE_TABLE 1)) [] calls (Ok tt) /\
    statuses calls = [t] /\ t_status t = FAILED /\ exists ctx, DMeta (MRemove ctx (Ok ErrorCodes.OK)) ∈ calls /\ c_topic ctx = escapeDWALName (lit "d") (lit "t").
Proof.
  eexists _, _. split; [vm_compute; reflexivity|]. split; [reflexivity|]. split; [reflexivity|]. eexists. split; [right; left|]. reflexivity.
Qed.

(** Fewer hosts than replicas: the loop over the replicas reads past the end of the hosts. *)
Lemma too_few_hosts :
  processRecord (example_cluster (Responded [] 200)) 1 (with_hosts (lit "h1:8123") (example_statement CREATE_TABLE 2)) [] = None.
Proof. vm_compute. reflexivity. Qed.

(** A parameter that is no number throws an exception that is not caught: the statement never gets a status, and its batch is given up. *)
Lemma bad_parameter_no_status :
  exists e, does (processRecord (example_cluster (Responded [] 200)) 1
      (with_hosts (lit "h1:8123") (mkRecord CREATE_TABLE {[lit "url_parameters" := lit "x"]} (example_block "t" 1) [] 0 7))) [] [] (Throw e).
Proof. eexists. vm_compute. reflexivity. Qed.
