(* ===== verification/DDLInterpreters.v ===== *)
(** * DDLInterpreters: the statements a node sends to the DDL service

    Models the distributed parts of src/src/Interpreters/InterpreterCreateQuery.cpp,
    InterpreterAlterQuery.cpp and InterpreterDropQuery.cpp, and [appendDDLBlock] of
    BlockUtils.cpp: a statement received over the REST interface is not executed, it is appended to the topic of the DDL service.

    A computation lists the records it appends.  The storage engine a table is checked with, the databases of the node and the clock are parameters. *)

From S2P Require Import Prelude TextFormat WalRecord KafkaConfig Catalog Placement Io MessageBlock TaskStatus MetadataService DDLService.
Import DDL.
Local Open Scope Z_scope.

Module Interpreters.
(** What the functions read of the context of a query. *)
Record query_context : Type := mkQuery {
  q_distributed : bool;
  q_ddl_operation : bool;
  q_params : gmap str str;
  q_query_id : str;
  q_user : str
}.

Section interpreters.
Context (ctx : query_context) (append : WalRecord MBlock -> list (WalRecord MBlock) -> result Z).
Abbreviation ddl := (io (WalRecord MBlock)).

Fixpoint copy_parameters (names : list str) (hs : gmap str str) : gmap str str :=
  match names with
  | [] => hs
  | name :: names => copy_parameters names (match q_params ctx !! name with Some v => <[name := v]> hs | None => hs end)
  end.

Definition appendDDLBlock (b : MBlock) (parameter_names : list str) (opCode : OpCode) : ddl unit :=
  let record := mkRecord opCode (copy_parameters parameter_names {[lit "_version" := lit "1"]}) b [] 0 (-1) in
  err ← (io_call (append record) (fun _ => record) ≫= io_lift);
  if decide (err <> ErrorCodes.OK) then io_throw (DBException err) else mret tt.

(** The columns of a statement on a table. *)
Definition table_columns (payload database table : str) : list (str * str) :=
  [(lit "payload", payload); (lit "database", database); (lit "table", table); (lit "query_id", q_query_id ctx); (lit "user", q_user ctx)].

Definition database_columns (payload database : str) : list (str * str) :=
  [(lit "payload", payload); (lit "database", database); (lit "query_id", q_query_id ctx); (lit "user", q_user ctx)].

(** What the storage engine says of the table: the shard of this node, the shards and the replicas. *)
Record storage : Type := mkStorage { currentShard : Z; getShards : Z; getReplicationFactor : Z }.

(** [engine] is the name of the engine, if the statement has one; [checked] is the outcome of creating a virtual table. *)
Definition createTableDistributed (current_database : str) (engine : option str) (table : str) (checked : result storage) (now : Z) : ddl bool :=
  if decide (engine <> Some (lit "DistributedMergeTree")) then mret false
  else if negb (q_distributed ctx) then io_throw (DBException ErrorCodes.CONFIG_ERROR)
  else
    st ← io_lift checked;
    if 0 <=? currentShard st then mret false
    else match q_params ctx !! lit "_payload" with
         | None => mret false
         | Some payload =>
             if negb (q_ddl_operation ctx) then mret false
             else
               let b := buildBlock (table_columns payload current_database table)
                          [(lit "shards", getShards st); (lit "replication_factor", getReplicationFactor st)] [(lit "timestamp", now)] in
               appendDDLBlock b [lit "table_type"; lit "url_parameters"] CREATE_TABLE ≫= fun _ => mret true
         end.

(** [exists_database]: the database is on this node. *)
Definition createDatabaseDistributed (database : str) (exists_database : bool) (now : Z) : ddl bool :=
  if negb (q_distributed ctx) then mret false
  else match q_params ctx !! lit "_payload" with
       | None => mret false
       | Some payload =>
           if negb (q_ddl_operation ctx) then mret false
           else if exists_database then io_throw (DBException ErrorCodes.DATABASE_ALREADY_EXISTS)
           else
             let b := buildBlock (database_columns payload database) [] [(lit "timestamp", now)] in
             appendDDLBlock b [lit "table_type"] CREATE_DATABASE ≫= fun _ => mret true
       end.

(** [iter->second] of a query without method is undefined. *)
Definition getAlterTableParamOpCode (queryParams : gmap str str) : option OpCode :=
  match queryParams !! lit "column" with
  | None => Some ALTER_TABLE
  | Some _ =>
      method ← queryParams !! lit "query_method";
      Some (if decide (method = HTTP_POST) then CREATE_COLUMN
            else if decide (method = HTTP_PATCH) then ALTER_COLUMN
            else if decide (method = HTTP_DELETE) then DELETE_COLUMN
            else UNKNOWN)
  end.

(** A statement on a table of the catalog: none is an error, one with another engine is left to this node. *)
Definition on_catalog_table (c : catalog) (database table : str) (f : str -> ddl bool) : ddl bool :=
  if negb (q_distributed ctx) then mret false
  else match q_params ctx !! lit "_payload" with
       | None => mret false
       | Some payload =>
           if negb (q_ddl_operation ctx) then mret false
           else match findTableByName c database table with
                | [] => io_throw (DBException ErrorCodes.UNKNOWN_TABLE)
                | t :: _ => if decide (t_engine t <> lit "DistributedMergeTree") then mret false else f payload
                end
       end.

Definition alterTableDistributed (c : catalog) (database table : str) (now : Z) : ddl bool :=
  on_catalog_table c database table (fun payload =>
    let b := buildBlock (table_columns payload database table) [] [(lit "timestamp", now)] in
    match getAlterTableParamOpCode (q_params ctx) with
    | None => io_stuck
    | Some op => appendDDLBlock b [lit "table_type"; lit "column"; lit "query_method"] op ≫= fun _ => mret true
    end).

Definition deleteTableDistributed (c : catalog) (database table : str) (now : Z) : ddl bool :=
  on_catalog_table c database table (fun payload =>
    let b := buildBlock (table_columns payload database table) [] [(lit "timestamp", now)] in
    appendDDLBlock b [lit "table_type"] DELETE_TABLE ≫= fun _ => mret true).

Definition deleteDatabaseDistributed (database : str) (exists_database : bool) (now : Z) : ddl bool :=
  if negb (q_distributed ctx) then mret false
  else match q_params ctx !! lit "_payload" with
       | None => mret false
       | Some payload =>
           if negb (q_ddl_operation ctx) then mret false
           else if negb exists_database then io_throw (DBException ErrorCodes.UNKNOWN_DATABASE)
           else
             let b := buildBlock (database_columns payload database) [] [(lit "timestamp", now)] in
             appendDDLBlock b [lit "table_type"] DELETE_DATABASE ≫= fun _ => mret true
       end.
End interpreters.
End Interpreters.
Import Interpreters.

(** ** What is appended is a statement the service executes *)

Inductive ddl_statement : Type :=
| SCreateTable (current_database : str) (engine : option str) (table : str) (checked : result storage)
| SCreateDatabase (database : str) (exists_database : bool)
| SAlterTable (database table : str)
| SDeleteTable (database table : str)
| SDeleteDatabase (database : str) (exists_database : bool).

Definition statement_database (s : ddl_statement) : str :=
  match s with SCreateTable d _ _ _ | SCreateDatabase d _ | SAlterTable d _ | SDeleteTable d _ | SDeleteDatabase d _ => d end.
Definition statement_table (s : ddl_statement) : str :=
  match s with SCreateTable _ _ table _ | SAlterTable _ table | SDeleteTable _ table => table | SCreateDatabase _ _ | SDeleteDatabase _ _ => [] end.

Definition submit (ctx : query_context) append (c : catalog) (now : Z) (s : ddl_statement) : io (WalRecord MBlock) bool :=
  match s with
  | SCreateTable d engine table checked => createTableDistributed ctx append d engine table checked now
  | SCreateDatabase d e => createDatabaseDistributed ctx append d e now
  | SAlterTable d table => alterTableDistributed ctx append c d table now
  | SDeleteTable d table => deleteTableDistributed ctx append c d table now
  | SDeleteDatabase d e => deleteDatabaseDistributed ctx append d e now
  end.

(** The numbers of the table are [Int32], as is their product; a column is altered with one of the three methods. *)
Definition submittable {URI} (cl : cluster (URI := URI)) (ctx : query_context) (s : ddl_statement) : Prop :=
  match s with
  | SCreateTable _ _ _ (Ok st) =>
      in_signed 32 (getShards st) = true /\ in_signed 32 (getReplicationFactor st) = true /\ in_signed 32 (getShards st * getReplicationFactor st) = true
  | SAlterTable d table =>
      (forall tr rf sh, shardAndReplicationFactor (cl_catalog cl tr) d table = Ok (rf, sh) -> in_signed 32 (rf * sh) = true) /\
      (is_Some (q_params ctx !! lit "column") -> exists m, q_params ctx !! lit "query_method" = Some m /\ m ∈ [HTTP_POST; HTTP_PATCH; HTTP_DELETE])
  | SDeleteTable d table => forall tr rf sh, shardAndReplicationFactor (cl_catalog cl tr) d table = Ok (rf, sh) -> in_signed 32 (rf * sh) = true
  | _ => True
  end.

Section submitted.
Context (ctx : query_context) (append : WalRecord MBlock -> list (WalRecord MBlock) -> result Z).

Definition appended_record (b : MBlock) (names : list str) (op : OpCode) : WalRecord MBlock :=
  mkRecord op (copy_parameters ctx names {[lit "_version" := lit "1"]}) b [] 0 (-1).

Lemma append_true b names op tr tr' :
  (appendDDLBlock ctx append b names op ≫= fun _ => mret true) tr = Some (tr', Ok true) -> tr' = tr ++ [appended_record b names op].
Proof.
  unfold appendDDLBlock, io_call, io_lift, io_throw, mbind, io_bind. fold (appended_record b names op). set (r := appended_record _ _ _).
  destruct (append r tr) as [err|e]; [|done]. destruct (decide (err <> ErrorCodes.OK)); [done|]. by intros [= <-].
Qed.

Lemma appended_hosts b names op : lit "hosts" ∉ names -> headers (appended_record b names op) !! lit "hosts" = None.
Proof.
  intros Hn. cbn [headers appended_record]. assert (H0 : ({[lit "_version" := lit "1"]} : gmap str str) !! lit "hosts" = None) by reflexivity.
  revert H0. generalize ({[lit "_version" := lit "1"]} : gmap str str) as hs. induction names as [|name names IH]; intros hs H0; [done|]. cbn [copy_parameters].
  apply IH; [set_solver|]. destruct (q_params ctx !! name); [|done]. rewrite lookup_insert_ne; [done|]. set_solver.
Qed.

Lemma int32_cell z : in_signed 32 z = true -> to_signed 32 (wrap 32 (to_signed 64 (wrap 64 z))) = z.
Proof.
  intros H. apply in_signed_iff in H; [|done]. change (32 - 1) with 31 in H. rewrite to_signed_64 by (apply in_signed_iff; [done|]; change (64 - 1) with 63; lia).
  unfold to_signed, wrap. destruct (Z_lt_ge_dec z 0).
  - rewrite <- (Z.mod_unique z (2 ^ 32) (-1) (z + 2 ^ 32)) by lia. change (32 - 1) with 31. destruct (Z.ltb_spec (z + 2 ^ 32) (2 ^ 31)); lia.
  - rewrite Z.mod_small by lia. change (32 - 1) with 31. destruct (Z.ltb_spec z (2 ^ 31)); lia.
Qed.

Lemma create_cells payload database table shards rf names op now :
  let b := buildBlock (table_columns ctx payload database table) [(lit "shards", shards); (lit "replication_factor", rf)] [(lit "timestamp", now)] in
  in_signed 32 shards = true -> in_signed 32 rf = true ->
  common_cells (appended_record b names op) (q_query_id ctx) (q_user ctx) payload database /\
  cell b (lit "table") table /\ cell_int b (lit "shards") shards /\ cell_int b (lit "replication_factor") rf.
Proof.
  intros b Hs Hr. split; [split; try (eexists; split; reflexivity)|]. split; [eexists; split; reflexivity|].
  split; eexists _, _; (split; [reflexivity|]); (split; [reflexivity|]); by rewrite int32_cell.
Qed.

Lemma table_cells payload database table names op now :
  let b := buildBlock (table_columns ctx payload database table) [] [(lit "timestamp", now)] in
  common_cells (appended_record b names op) (q_query_id ctx) (q_user ctx) payload database /\ cell b (lit "table") table.
Proof. split; [split; try (eexists; split; reflexivity)|]. eexists; split; reflexivity. Qed.

Lemma database_cells payload database names op now :
  common_cells (appended_record (buildBlock (database_columns ctx payload database) [] [(lit "timestamp", now)]) names op) (q_query_id ctx) (q_user ctx) payload database.
Proof. split; try (eexists; split; reflexivity). Qed.

(** A column statement carries the name of its column. *)
Lemma copied_parameter name names hs v : q_params ctx !! name = Some v -> name ∈ names -> copy_parameters ctx names hs !! name = Some v.
Proof.
  intros Hv. revert hs. induction names as [|x names IH]; intros hs Hin; [by apply not_elem_of_nil in Hin|]. cbn [copy_parameters].
  destruct (decide (name ∈ names)) as [Hn|Hn]; [by apply IH|]. apply elem_of_cons in Hin as [<-|?]; [|done]. rewrite Hv. clear IH Hv.
  assert (H0 : <[name := v]> hs !! name = Some v) by apply lookup_insert_eq. revert H0. generalize (<[name := v]> hs) as hs'.
  induction names as [|x names IH]; intros hs' H0; [done|]. cbn [copy_parameters]. apply IH; [set_solver|]. destruct (q_params ctx !! x); [|done].
  rewrite lookup_insert_ne; [done|]. set_solver.
Qed.
End submitted.

Section accepted.
Context {URI : Type} (cl : cluster (URI := URI)) (ctx : query_context) (append : WalRecord MBlock -> list (WalRecord MBlock) -> result Z).

(** What the service gets of an accepted statement. *)
Definition accepted_as (database table : str) tr tr' : Prop :=
  exists record payload, tr' = tr ++ [record] /\ q_params ctx !! lit "_payload" = Some payload /\ headers record !! lit "hosts" = None /\
    statement_ok cl record database table (q_query_id ctx) (q_user ctx) payload /\
    (is_column_op (op_code record) = true -> headers record !! lit "column" = q_params ctx !! lit "column" /\ is_Some (q_params ctx !! lit "column")).

Lemma create_table_accepted d engine table checked now tr tr' :
  submittable cl ctx (SCreateTable d engine table checked) -> createTableDistributed ctx append d engine table checked now tr = Some (tr', Ok true) -> accepted_as d table tr tr'.
Proof.
  intros Hs. unfold createTableDistributed. destruct (decide _); [done|]. destruct (negb (q_distributed ctx)); [done|]. intros (tr1 & st & Hst & H)%bind_inv. revert H.
  destruct checked as [st'|e]; [|done]. injection Hst as <- <-. destruct Hs as (H1 & H2 & H3).
  destruct (0 <=? currentShard st'); [done|]. destruct (q_params ctx !! lit "_payload") as [payload|] eqn:Hp; [|done].
  destruct (negb (q_ddl_operation ctx)); [done|]. intros ->%append_true. eexists _, payload. split; [done|]. split; [done|].
  pose proof (appended_hosts ctx (buildBlock (table_columns ctx payload d table) [(lit "shards", getShards st'); (lit "replication_factor", getReplicationFactor st')]
    [(lit "timestamp", now)]) [lit "table_type"; lit "url_parameters"] CREATE_TABLE ltac:(apply (bool_decide_unpack _); reflexivity)) as Hh.
  split; [exact Hh|]. destruct (create_cells ctx payload d table (getShards st') (getReplicationFactor st') [lit "table_type"; lit "url_parameters"] CREATE_TABLE now H1 H2) as (C & C1 & C2 & C3).
  split; [|done]. split; [exact C|]. cbn [op_code appended_record]. exists (getShards st'), (getReplicationFactor st'). rewrite Hh. done.
Qed.

Lemma create_database_accepted d ex now tr tr' : createDatabaseDistributed ctx append d ex now tr = Some (tr', Ok true) -> accepted_as d [] tr tr'.
Proof.
  unfold createDatabaseDistributed. destruct (negb (q_distributed ctx)); [done|]. destruct (q_params ctx !! lit "_payload") as [payload|] eqn:Hp; [|done].
  destruct (negb (q_ddl_operation ctx)); [done|]. destruct ex; [done|]. intros ->%append_true. eexists _, payload. split; [done|]. split; [done|].
  split; [apply appended_hosts, (bool_decide_unpack _); reflexivity|]. split; [|done]. split; [apply database_cells|done].
Qed.

Lemma delete_database_accepted d ex now tr tr' : deleteDatabaseDistributed ctx append d ex now tr = Some (tr', Ok true) -> accepted_as d [] tr tr'.
Proof.
  unfold deleteDatabaseDistributed. destruct (negb (q_distributed ctx)); [done|]. destruct (q_params ctx !! lit "_payload") as [payload|] eqn:Hp; [|done].
  destruct (negb (q_ddl_operation ctx)); [done|]. destruct ex; [|done]. intros ->%append_true. eexists _, payload. split; [done|]. split; [done|].
  split; [apply appended_hosts, (bool_decide_unpack _); reflexivity|]. split; [|done]. split; [apply database_cells|done].
Qed.

Lemma on_catalog_table_inv c d table f tr tr' :
  on_catalog_table ctx c d table f tr = Some (tr', Ok true) -> exists payload, q_params ctx !! lit "_payload" = Some payload /\ f payload tr = Some (tr', Ok true).
Proof.
  unfold on_catalog_table. destruct (negb (q_distributed ctx)); [done|]. destruct (q_params ctx !! lit "_payload") as [payload|]; [|done].
  destruct (negb (q_ddl_operation ctx)); [done|]. destruct (findTableByName c d table); [done|]. destruct (decide _); [done|]. eauto.
Qed.

Lemma alter_table_accepted c d table now tr tr' :
  submittable cl ctx (SAlterTable d table) -> alterTableDistributed ctx append c d table now tr = Some (tr', Ok true) -> accepted_as d table tr tr'.
Proof.
  intros [Hint Hm] (payload & Hp & H)%on_catalog_table_inv. revert H. cbv zeta.
  destruct (getAlterTableParamOpCode (q_params ctx)) as [op|] eqn:Hop; [|done]. intros ->%append_true. eexists _, payload. split; [done|]. split; [done|].
  split; [apply appended_hosts, (bool_decide_unpack _); reflexivity|].
  destruct (table_cells ctx payload d table [lit "table_type"; lit "column"; lit "query_method"] op now) as [C C1].
  assert (Hcase : op = ALTER_TABLE \/ is_column_op op = true /\ is_Some (q_params ctx !! lit "column")).
  { unfold getAlterTableParamOpCode in Hop. destruct (q_params ctx !! lit "column") as [col|]; [right|left; congruence]. destruct Hm as (m & Hq & Hin); [done|].
    rewrite Hq in Hop. injection Hop as <-. split; [|done]. repeat (destruct (decide _); [done|]). set_solver. }
  split; [split; [exact C|]|]; cbn [op_code appended_record].
  - destruct Hcase as [->|[Hcol _]]; [done|]. by destruct op.
  - intros Hcol. destruct Hcase as [->|[_ [col Hc]]]; [done|]. rewrite Hc. split; [|done].
    apply (copied_parameter ctx (lit "column") [lit "table_type"; lit "column"; lit "query_method"]); [done|set_solver].
Qed.

Lemma delete_table_accepted c d table now tr tr' :
  submittable cl ctx (SDeleteTable d table) -> deleteTableDistributed ctx append c d table now tr = Some (tr', Ok true) -> accepted_as d table tr tr'.
Proof.
  intros Hint (payload & Hp & H)%on_catalog_table_inv. apply append_true in H as ->. eexists _, payload. split; [done|]. split; [done|].
  split; [apply appended_hosts, (bool_decide_unpack _); reflexivity|]. split; [|done].
  destruct (table_cells ctx payload d table [lit "table_type"] DELETE_TABLE now) as [C C1]. done.
Qed.
End accepted.

(** A node that accepts a statement has appended one record, and the record is a statement of the DDL service: it has all columns of its schema, of the query, the user
    and the payload given, and not yet hosts; one on a column has the name of the column. *)
Lemma submitted_statement_ok {URI} (cl : cluster (URI := URI)) (ctx : query_context) append (c : catalog) (now : Z) (s : ddl_statement) tr tr' :
  submittable cl ctx s -> submit ctx append c now s tr = Some (tr', Ok true) ->
  exists record payload, tr' = tr ++ [record] /\ q_params ctx !! lit "_payload" = Some payload /\ headers record !! lit "hosts" = None /\
    statement_ok cl record (statement_database s) (statement_table s) (q_query_id ctx) (q_user ctx) payload /\
    (is_column_op (op_code record) = true -> headers record !! lit "column" = q_params ctx !! lit "column" /\ is_Some (q_params ctx !! lit "column")).
Proof.
  intros Hs H. change (accepted_as cl ctx (statement_database s) (statement_table s) tr tr'). destruct s; cbn [submit statement_database statement_table] in *;
    eauto using create_table_accepted, create_database_accepted, alter_table_accepted, delete_table_accepted, delete_database_accepted.
Qed.

Definition example_query (params : gmap str str) : query_context := mkQuery true true (<[lit "_payload" := lit "p"]> params) (lit "q") (lit "u").

Definition example_record : WalRecord MBlock :=
  appended_record (example_query ∅) (buildBlock (database_columns (example_query ∅) (lit "p") (lit "d")) [] [(lit "timestamp", 5)]) [lit "table_type"] CREATE_DATABASE.

Lemma submitted_statement_ok_witness :
  submit (example_query ∅) (fun _ _ => Ok 0) empty_catalog 5 (SCreateDatabase (lit "d") false) [] = Some ([example_record], Ok true) /\
  exists payload, statement_ok (example_cluster StreamFailed) example_record (lit "d") [] (lit "q") (lit "u") payload.
Proof.
  assert (Hsub : submit (example_query ∅) (fun _ _ => Ok 0) empty_catalog 5 (SCreateDatabase (lit "d") false) [] = Some ([example_record], Ok true)) by reflexivity.
  split; [exact Hsub|].
  destruct (submitted_statement_ok (example_cluster StreamFailed) (example_query ∅) (fun _ _ => Ok 0) empty_catalog 5 (SCreateDatabase (lit "d") false) [] [example_record] I Hsub)
    as (record & payload & H1 & _ & _ & H3 & _).
  exists payload. cbn [app] in H1. assert (example_record = record) as -> by (by apply (f_equal head) in H1; injection H1). exact H3.
Defined.

(** A method that is none of the three appends a statement the service does not know: no status of it is ever reported. *)
Lemma unknown_method_lost :
  getAlterTableParamOpCode (<[lit "column" := lit "c"]> {[lit "query_method" := lit "GET"]}) = Some UNKNOWN /\
  forall tr, processRecord (example_cluster StreamFailed) 1 (example_statement UNKNOWN 1) tr = Some (tr, Ok tt).
Proof. split; [vm_compute; reflexivity|done]. Qed.
