(* ===== verification/KeeperDispatcher.v ===== *)
(** * KeeperDispatcher: requests in, responses out

    Models src/src/Coordination/KeeperStorageDispatcher.cpp: the thread that takes the requests of all
    clients from a queue, appends the writing ones to the Raft log in batches and answers the reading ones locally, and
    the table of sessions through which responses find their clients.

    The queue, the Raft instance and the flag of the shutdown answer each call, and an answer may depend on everything
    before it: other threads push requests, other servers take over.  What one call returns may be different from
    what the same call returns later, so that every question is an event. *)

From S2P Require Import Prelude Wire ZooKeeper KeeperStorage Io.
Local Open Scope Z_scope.

Module Dispatcher.
(** A request with its session; the request is a null pointer in the entry a shutdown pushes. *)
Definition RequestForSession : Type := Z * option zk_message.

Definition is_empty (r : RequestForSession) : bool := match r.2 with None => true | Some _ => false end.

(** [request->isReadRequest()], where there is a request. *)
Definition is_read (r : RequestForSession) : bool := match r.2 with Some m => isReadRequest (body m) | None => false end.

(** The codes of [nuraft::cmd_result_code] the thread looks at. *)
Inductive result_code : Type := CODE_OK | CODE_TIMEOUT | CODE_OTHER.

#[export] Instance result_code_eq_dec : EqDecision result_code.
Proof. solve_decision. Defined.

(** What the thread does and asks; a result of an append is known by a number. *)
Inductive kevent : Type :=
| KPop (r : option RequestForSession)
| KShutdown (called : bool)
| KPending (h : nat) (pending : bool)
| KWait (h : nat) (a : result (bool * result_code))
| KAppend (batch : list RequestForSession) (h : result (option nat))
| KLocal (r : RequestForSession) (leader_alive : bool)
| KRead (r : RequestForSession) (a : result unit)
| KReject (rs : list RequestForSession) (error : Z)
| KLogException (e : exn).

Record keeper_env : Type := mkKeeperEnv {
  k_pop : list kevent -> option RequestForSession;
  k_shutdown : list kevent -> bool;
  k_pending : nat -> list kevent -> bool;
  k_wait : nat -> list kevent -> result (bool * result_code);
  k_append : list str -> list kevent -> result (option nat);
  k_leader_alive : list kevent -> bool;
  k_read : RequestForSession -> list kevent -> result unit
}.

Section dispatcher.
Context (env : keeper_env) (quorum_reads : bool) (max_batch_size : Z).
Abbreviation keeper := (io kevent).

Definition shutdown_called : keeper bool := io_call (k_shutdown env) KShutdown.

(** [addErrorResponses]: requests refused with an error. *)
Definition addErrorResponses (rs : list RequestForSession) (error : Z) : keeper unit := io_note (KReject rs error).

(** The result of an append and the requests that wait for it. *)
Definition previous : Type := option (nat * list RequestForSession).

(** [forceWaitAndProcessResult]: both arguments are cleared unless waiting throws. *)
Definition forceWaitAndProcessResult (h : nat) (rs : list RequestForSession) : keeper (result unit) :=
  a ← io_call (k_wait env h) (KWait h);
  match a with
  | Throw e => mret (Throw e)
  | Ok (accepted, code) =>
      (if negb accepted || bool_decide (code = CODE_TIMEOUT) then addErrorResponses rs Err.ZOPERATIONTIMEOUT
       else if bool_decide (code <> CODE_OK) then addErrorResponses rs Err.ZCONNECTIONLOSS
       else mret tt) ≫= fun _ => mret (Ok tt)
  end.

(** Collecting a batch while the append before it is not finished: the batch, the reading request that ends it, and whether the shutdown does.
    A null pointer is dereferenced where the queue gives the empty request. *)
Fixpoint collect (fuel : nat) (prev : previous) (batch : list RequestForSession) : keeper (list RequestForSession * option RequestForSession) :=
  match fuel with
  | O => io_stuck
  | S fuel =>
      match prev with
      | None => mret (batch, None)
      | Some (h, _) =>
          pending ← io_call (k_pending env h) (KPending h);
          if (pending : bool) && (Z.of_nat (length batch) <=? max_batch_size) then
            r ← io_call (k_pop env) KPop;
            match r with
            | Some r =>
                if negb quorum_reads && is_empty r then io_stuck
                else if negb quorum_reads && is_read r then mret (batch, Some r)
                else
                  stop ← shutdown_called;
                  if (stop : bool) then mret (batch ++ [r], None) else collect fuel prev (batch ++ [r])
            | None =>
                stop ← shutdown_called;
                if (stop : bool) then mret (batch, None) else collect fuel prev batch
            end
          else mret (batch, None)
      end
  end.

(** How a turn of the loop ends: [Stopped] leaves the loop. *)
Inductive turn : Type := Stopped | Next (prev : previous) (failed : bool).

Definition log_exception (prev : previous) (e : exn) : keeper turn := io_note (KLogException e) ≫= fun _ => mret (Next prev true).

(** [putLocalReadRequest]. *)
Definition putLocalReadRequest (r : RequestForSession) : keeper (result unit) :=
  io_call (fun tr => if negb (is_read r) then Throw (DBException ErrorCodes.LOGICAL_ERROR) else k_read env r tr) (KRead r).

(** The reading request goes after the batch. *)
Definition answer_read (prev : previous) (read : option RequestForSession) : keeper turn :=
  match read with
  | None => mret (Next prev false)
  | Some r =>
      alive ← io_call (k_leader_alive env) (KLocal r);
      if (alive : bool) then
        a ← putLocalReadRequest r;
        match a with Ok _ => mret (Next prev false) | Throw e => log_exception prev e end
      else addErrorResponses [r] Err.ZCONNECTIONLOSS ≫= fun _ => mret (Next prev false)
  end.

(** [putRequestBatch] writes every request into an entry of the log, and dereferences its pointer. *)
Definition putRequestBatch (batch : list RequestForSession) : keeper (result (option nat)) :=
  match mapM (fun r => getZooKeeperLogEntry r.1 <$> r.2) batch with
  | None => io_stuck
  | Some entries => io_call (k_append env entries) (KAppend batch)
  end.

Definition append_batch (batch : list RequestForSession) (read : option RequestForSession) : keeper turn :=
  match batch with
  | [] => answer_read None read
  | _ =>
      a ← putRequestBatch batch;
      match a with
      | Throw e => log_exception None e
      | Ok None => addErrorResponses batch Err.ZCONNECTIONLOSS ≫= fun _ => answer_read None read
      | Ok (Some h) =>
          match read with
          | None => mret (Next (Some (h, batch)) false)
          | Some _ =>
              w ← forceWaitAndProcessResult h batch;
              match w with Throw e => log_exception None e | Ok _ => answer_read None read end
          end
      end
  end.

(** One turn of [requestThread]. *)
Definition request_turn (fuel : nat) (prev : previous) : keeper turn :=
  r ← io_call (k_pop env) KPop;
  match r with
  | None => mret (Next prev false)
  | Some request =>
      stop ← shutdown_called;
      if (stop : bool) then mret Stopped
      else if negb quorum_reads && is_empty request then io_stuck
      else
        collected ← (if quorum_reads || negb (is_read request) then collect fuel prev [request] else mret ([], Some request));
        stop ← shutdown_called;
        if (stop : bool) then mret Stopped
        else
          match prev with
          | None => append_batch collected.1 collected.2
          | Some (h, rs) =>
              w ← forceWaitAndProcessResult h rs;
              match w with Throw e => log_exception prev e | Ok _ => append_batch collected.1 collected.2 end
          end
  end.

(** Turns until the shutdown, at most [turns] of them. *)
Fixpoint requestThread (fuel turns : nat) (prev : previous) : keeper turn :=
  match turns with
  | O => mret (Next prev false)
  | S turns =>
      stop ← shutdown_called;
      if (stop : bool) then mret Stopped
      else
        t ← request_turn fuel prev;
        match t with
        | Stopped => mret Stopped
        | Next prev _ => requestThread fuel turns prev
        end
  end.
End dispatcher.
End Dispatcher.
Import Dispatcher.

(** ** The order of requests *)

(** The requests taken from the queue, and those handed on: appended, or answered as reading requests. *)
Definition popped (evs : list kevent) : list RequestForSession := omap (fun e => match e with KPop r => r | _ => None end) evs.
Definition handled (evs : list kevent) : list RequestForSession :=
  concat (map (fun e => match e with KAppend batch _ => batch | KLocal r _ => [r] | _ => [] end) evs).

(** The appends whose result was not waited for yet. *)
Definition waiting_after (u : list nat) (e : kevent) : list nat :=
  match e with
  | KAppend _ (Ok (Some h)) => u ++ [h]
  | KWait h _ => filter (fun x => x <> h) u
  | _ => u
  end.

(** A reading request is answered only when no append is waited for. *)
Fixpoint reads_ok (u : list nat) (evs : list kevent) : Prop :=
  match evs with
  | [] => True
  | e :: evs => match e with KLocal _ _ => u = [] | _ => True end /\ reads_ok (waiting_after u e) evs
  end.

Lemma reads_ok_app u l1 l2 : reads_ok u (l1 ++ l2) <-> reads_ok u l1 /\ reads_ok (foldl waiting_after u l1) l2.
Proof. revert u. induction l1 as [|e l1 IH]; intros u; cbn; [tauto|]. rewrite IH. tauto. Qed.

Lemma popped_app l1 l2 : popped (l1 ++ l2) = popped l1 ++ popped l2.
Proof. apply omap_app. Qed.
Lemma handled_app l1 l2 : handled (l1 ++ l2) = handled l1 ++ handled l2.
Proof. unfold handled. by rewrite map_app, concat_app. Qed.

Section order.
Context (env : keeper_env) (quorum_reads : bool) (max_batch_size : Z).

(** A batch holds requests that go through the log, and is not much larger than the setting says. *)
Definition batch_ok (batch : list RequestForSession) : Prop :=
  Forall (fun r => quorum_reads || negb (is_read r) = true) batch /\ Z.of_nat (length batch) <= Z.max 1 (max_batch_size + 1).

Definition batches_ok (evs : list kevent) : Prop := Forall (fun e => match e with KAppend batch _ => batch_ok batch | _ => True end) evs.

(** Events that hand nothing on and do not change what is waited for. *)
Definition quiet (e : kevent) : bool := match e with KAppend _ _ | KLocal _ _ | KWait _ _ => false | _ => true end.

Lemma quiet_facts evs u : Forall (fun e => quiet e = true) evs -> handled evs = [] /\ foldl waiting_after u evs = u /\ reads_ok u evs /\ batches_ok evs.
Proof.
  induction 1 as [|e evs He _ IH]; [by repeat constructor|]. destruct IH as (H1 & H2 & H3 & H4).
  destruct e; try done; cbn [handled map concat app foldl waiting_after reads_ok]; (split; [done|]; split; [done|]; split; [done|]; by constructor).
Qed.

Definition collected_ok (batch : list RequestForSession) (new : list kevent) (c : list RequestForSession * option RequestForSession) : Prop :=
  Forall (fun e => quiet e = true) new /\ batch ++ popped new = c.1 ++ option_list c.2 /\ batch_ok c.1 /\ (forall r, c.2 = Some r -> is_read r = true).

Lemma collect_spec fuel prev batch : batch_ok batch -> post (collect env quorum_reads max_batch_size fuel prev batch) (collected_ok batch).
Proof.
  revert batch. induction fuel as [|fuel IH]; intros batch Hb; cbn [collect]; [apply post_stuck|].
  assert (Hdone : forall new, Forall (fun e => quiet e = true) new -> popped new = [] -> collected_ok batch new (batch, None)).
  { intros new H1 H2. split; [done|]. cbn. by rewrite H2, !app_nil_r. }
  destruct prev as [[h rs]|]; [|apply post_ret, Hdone; [constructor|done]].
  apply post_call_bind. intros pending. destruct ((pending : bool) && (Z.of_nat (length batch) <=? max_batch_size)) eqn:Hc; [|apply post_ret, Hdone; [by repeat constructor|done]].
  apply andb_true_iff in Hc as [_ Hsize]. apply Z.leb_le in Hsize.
  apply post_call_bind. intros [r|]; [destruct (negb quorum_reads && is_empty r); [apply post_stuck|]; destruct (negb quorum_reads && is_read r) eqn:Hr|].
  - apply post_ret. split; [by repeat constructor|]. cbn. split; [done|]. split; [done|]. intros ? [= <-]. by apply andb_true_iff in Hr as [_ ?].
  - assert (Hb' : batch_ok (batch ++ [r])).
    { destruct Hb as [H1 H2]. split; [|rewrite length_app; cbn [length]; lia]. apply Forall_app. split; [done|]. constructor; [|done].
      apply andb_false_iff in Hr as [Hr|Hr]; [apply negb_false_iff in Hr; by rewrite Hr|by rewrite Hr, orb_true_r]. }
    apply post_call_bind. intros [].
    + apply post_ret. split; [by repeat constructor|]. cbn. by rewrite app_nil_r.
    + eapply post_conseq; [by apply IH|]. intros new c (H1 & H2 & H3 & H4). split; [by repeat constructor|]. split; [|done]. cbn. by rewrite <- H2, <- app_assoc.
  - apply post_call_bind. intros []; [apply post_ret, Hdone; [by repeat constructor|done]|].
    eapply post_conseq; [by apply IH|]. intros new c (H1 & H2 & H3 & H4). split; [by repeat constructor|]. by split.
Qed.

(** The append the thread remembers is the one that may be waited for. *)
Definition remembers (prev : previous) (u : list nat) : Prop := u = [] \/ exists h rs, prev = Some (h, rs) /\ u = [h].

(** What a turn does, from the appends waited for before it. *)
Record turn_ok (u : list nat) (taken : list RequestForSession) (new : list kevent) (t : turn) : Prop := {
  to_reads : reads_ok u new;
  to_batches : batches_ok new;
  to_order : match t with Next _ false => handled new = taken | _ => exists lost, handled new ++ lost = taken end;
  to_waiting : match t with Next prev _ => remembers prev (foldl waiting_after u new) | Stopped => True end;
  to_failed : match t with Next _ true => exists e, KLogException e ∈ new | _ => True end
}.

Lemma failed_more l1 l2 (t : turn) :
  match t with Next _ true => exists e, KLogException e ∈ l2 | _ => True end -> match t with Next _ true => exists e, KLogException e ∈ l1 ++ l2 | _ => True end.
Proof. destruct t as [|p []]; [done| |done]. intros [e He]. exists e. set_solver. Qed.

Lemma turn_quiet u taken l1 l2 t : Forall (fun e => quiet e = true) l1 -> turn_ok u taken l2 t -> turn_ok u taken (l1 ++ l2) t.
Proof.
  intros Hq [H1 H2 H3 H4 H5]. destruct (quiet_facts l1 u Hq) as (Q1 & Q2 & Q3 & Q4). split.
  - rewrite reads_ok_app, Q2. by split.
  - by apply Forall_app.
  - by rewrite handled_app, Q1.
  - by rewrite foldl_app, Q2.
  - by apply failed_more.
Qed.

Lemma log_exception_spec u prev e taken : remembers prev u -> post (log_exception prev e) (fun new t => turn_ok u taken new t).
Proof.
  intros Hu. unfold log_exception. apply (post_bind _ _ (fun n _ => n = [KLogException e])); [by apply post_note|]. intros n a ->. apply post_ret.
  split; [done|by repeat constructor|by exists taken|done|exists e; by left].
Qed.

Lemma answer_read_spec read : post (answer_read env None read) (fun new t => turn_ok [] (option_list read) new t).
Proof.
  unfold answer_read. destruct read as [r|]; [|apply post_ret; split; [done|constructor|done|by left|done]].
  apply post_call_bind. intros [].
  - unfold putLocalReadRequest. apply post_call_bind. intros [[]|e]; [apply post_ret; split; [done|by repeat constructor|done|by left|done]|].
    eapply post_conseq; [apply (log_exception_spec [] None e []); by left|]. intros new t [H1 H2 H3 H4 H5].
    split; cbn [reads_ok waiting_after foldl]; [done|by repeat constructor| |done|by apply (failed_more [_; _])].
    change (handled (KLocal r true :: KRead r (Throw e) :: new)) with ([r] ++ handled new). destruct t as [|prev []]; [destruct H3 as (lost & H3)|destruct H3 as (lost & H3)|].
    + exists lost. cbn. by rewrite H3.
    + exists lost. cbn. by rewrite H3.
    + cbn. by rewrite H3.
  - apply (post_bind _ _ (fun n _ => n = [KReject [r] Err.ZCONNECTIONLOSS])); [by apply post_note|]. intros n a ->. apply post_ret.
    split; [done|by repeat constructor|done|by left|done].
Qed.

(** Handing on comes before what is done afterwards. *)
Lemma turn_after u l1 taken l2 t :
  reads_ok u l1 -> batches_ok l1 -> foldl waiting_after u l1 = [] -> turn_ok [] taken l2 t -> turn_ok u (handled l1 ++ taken) (l1 ++ l2) t.
Proof.
  intros R B W [H1 H2 H3 H4 H5]. split.
  - rewrite reads_ok_app, W. by split.
  - by apply Forall_app.
  - rewrite handled_app. destruct t as [|prev []]; [destruct H3 as (lost & <-); exists lost; by rewrite app_assoc..|by rewrite H3].
  - by rewrite foldl_app, W.
  - by apply failed_more.
Qed.

Lemma force_wait_spec h rs :
  post (forceWaitAndProcessResult env h rs) (fun new _ => exists a rest, new = KWait h a :: rest /\ Forall (fun e => quiet e = true) rest).
Proof.
  unfold forceWaitAndProcessResult. apply post_call_bind. intros [[accepted code]|e]; [|apply post_ret; by eexists _, []].
  assert (Hr : forall error, post (addErrorResponses rs error ≫= fun _ => mret (Ok tt)) (fun n (_ : result unit) => exists a rest, KWait h (Ok (accepted, code)) :: n = KWait h a :: rest /\
    Forall (fun e => quiet e = true) rest)).
  { intros error. apply (post_bind _ _ (fun n _ => n = [KReject rs error])); [by apply post_note|]. intros n a ->. apply post_ret. eexists _, _. split; [done|]. by repeat constructor. }
  destruct (negb accepted || bool_decide (code = CODE_TIMEOUT)); [apply Hr|]. destruct (bool_decide (code <> CODE_OK)); [apply Hr|].
  apply (post_bind _ _ (fun n _ => n = [])); [by apply post_ret|]. intros n a ->. apply post_ret. by eexists _, [].
Qed.

(** Waiting for the one append there is leaves none. *)
Lemma waited u h a rest : u = [] \/ u = [h] -> Forall (fun e => quiet e = true) rest ->
  reads_ok u (KWait h a :: rest) /\ batches_ok (KWait h a :: rest) /\ foldl waiting_after u (KWait h a :: rest) = [] /\ handled (KWait h a :: rest) = [].
Proof.
  intros Hu Hq. assert (Hf : waiting_after u (KWait h a) = []) by (destruct Hu as [-> | ->]; [done|]; cbn; by rewrite decide_False by (intros H; by apply H)).
  destruct (quiet_facts rest [] Hq) as (Q1 & Q2 & Q3 & Q4). cbn [reads_ok foldl]. rewrite Hf. split; [done|]. split; [by constructor|]. by split.
Qed.

Lemma append_batch_spec batch read : batch_ok batch -> post (append_batch env batch read) (fun new t => turn_ok [] (batch ++ option_list read) new t).
Proof.
  intros Hb. unfold append_batch. destruct batch as [|r0 batch]; [apply answer_read_spec|]. set (bt := r0 :: batch) in *.
  assert (Happ : forall a, handled [KAppend bt a] = bt) by (intros a; cbn; by rewrite app_nil_r).
  assert (Hone : forall a, batches_ok [KAppend bt a]) by (intros a; by constructor).
  unfold putRequestBatch. destruct (mapM _ bt) as [entries|]; [|apply post_stuck_bind]. apply post_call_bind. intros [[h|]|e].
  - destruct read as [r|]; [|apply post_ret; split; [done|by constructor|cbn; done|right; by eexists _, _|done]].
    apply (post_bind _ _ (fun new _ => exists a rest, new = KWait h a :: rest /\ Forall (fun e => quiet e = true) rest)); [apply force_wait_spec|].
    intros n1 w (a & rest & -> & Hq). destruct (waited [h] h a rest) as (W1 & W2 & W3 & W4); [by right|done|].
    assert (Hpre : forall l2 t taken, turn_ok [] taken l2 t -> turn_ok [] (bt ++ taken) (KAppend bt (Ok (Some h)) :: (KWait h a :: rest) ++ l2) t).
    { intros l2 t taken Ht. pose proof (turn_after [] (KAppend bt (Ok (Some h)) :: KWait h a :: rest) taken l2 t) as H.
      change (handled (KAppend bt (Ok (Some h)) :: KWait h a :: rest)) with (bt ++ handled (KWait h a :: rest)) in H. rewrite W4, app_nil_r in H. apply H; [by split|by constructor|done|done]. }
    destruct w as [[]|e]; [eapply post_conseq; [apply answer_read_spec|]|eapply post_conseq; [apply (log_exception_spec [] None e); by left|]]; intros new t Ht; by apply Hpre.
  - apply (post_bind _ _ (fun n _ => n = [KReject bt Err.ZCONNECTIONLOSS])); [by apply post_note|]. intros n a ->.
    eapply post_conseq; [apply answer_read_spec|]. intros new t Ht.
    pose proof (turn_after [] [KAppend bt (Ok None); KReject bt Err.ZCONNECTIONLOSS] (option_list read) new t) as H.
    change (handled [KAppend bt (Ok None); KReject bt Err.ZCONNECTIONLOSS]) with (bt ++ []) in H. rewrite app_nil_r in H. apply H; [done|by constructor; [|repeat constructor]|done|done].
  - eapply post_conseq; [apply (log_exception_spec [] None e (option_list read)); by left|]. intros new t Ht.
    pose proof (turn_after [] [KAppend bt (Throw e)] (option_list read) new t) as H. rewrite Happ in H. by apply H.
Qed.

(** After the collecting nothing is taken from the queue. *)
Definition no_pop (e : kevent) : Prop := match e with KPop _ => False | _ => True end.

Lemma no_pop_popped evs : Forall no_pop evs -> popped evs = [].
Proof. induction 1 as [|e evs He _ IH]; [done|]. by destruct e. Qed.

Lemma emits_force_wait h rs : emits no_pop (forceWaitAndProcessResult env h rs).
Proof. unfold forceWaitAndProcessResult, addErrorResponses. emit. Qed.
Lemma emits_answer_read prev read : emits no_pop (answer_read env prev read).
Proof. unfold answer_read, putLocalReadRequest, log_exception, addErrorResponses. emit. Qed.
#[local] Hint Resolve emits_force_wait emits_answer_read : io.
Lemma emits_append_batch batch read : emits no_pop (append_batch env batch read).
Proof. unfold append_batch, putRequestBatch, log_exception, addErrorResponses. emit. Qed.
#[local] Hint Resolve emits_append_batch : io.

Definition turn_spec (u : list nat) (new : list kevent) (t : turn) : Prop := turn_ok u (popped new) new t.

(** Questions before a turn's appends change nothing. *)
Lemma turn_spec_stop u new : Forall (fun e => quiet e = true) new -> turn_spec u new Stopped.
Proof. intros Hq. destruct (quiet_facts new u Hq) as (Q1 & Q2 & Q3 & Q4). split; [done|done|rewrite Q1; by eexists|done|done]. Qed.

Lemma handed_spec u pre taken l2 t :
  Forall (fun e => quiet e = true) pre -> popped pre = taken -> turn_ok u taken l2 t -> Forall no_pop l2 -> turn_spec u (pre ++ l2) t.
Proof. intros Hq Hp Ht Hn. unfold turn_spec. rewrite popped_app, (no_pop_popped l2 Hn), app_nil_r, Hp. by apply turn_quiet. Qed.

(** Waiting for the append before, then handing on. *)
Lemma hand_on_spec prev u batch read :
  remembers prev u -> batch_ok batch ->
  post (match prev with
        | None => append_batch env batch read
        | Some (h, rs) =>
            w ← forceWaitAndProcessResult env h rs;
            match w with Throw e => log_exception prev e | Ok _ => append_batch env batch read end
        end) (fun new t => turn_ok u (batch ++ option_list read) new t /\ Forall no_pop new).
Proof.
  intros Hu Hb. destruct prev as [[h rs]|].
  2: { destruct Hu as [->|(? & ? & ? & _)]; [|done]. apply post_emits; [apply emits_append_batch|by apply append_batch_spec]. }
  apply post_emits; [unfold log_exception; emit|].
  apply (post_bind _ _ (fun new _ => exists a rest, new = KWait h a :: rest /\ Forall (fun e => quiet e = true) rest)); [apply force_wait_spec|].
  intros n1 w (a & rest & -> & Hq). destruct (waited u h a rest) as (W1 & W2 & W3 & W4); [destruct Hu as [->|(h' & rs' & [= <- <-] & ->)]; auto|done|].
  assert (Hpre : forall l2 t taken, turn_ok [] taken l2 t -> turn_ok u taken ((KWait h a :: rest) ++ l2) t).
  { intros l2 t taken Ht. pose proof (turn_after u (KWait h a :: rest) taken l2 t W1 W2 W3 Ht) as H. by rewrite W4 in H. }
  destruct w as [[]|e]; [eapply post_conseq; [by apply append_batch_spec|]|eapply post_conseq; [apply (log_exception_spec [] _ e); by left|]]; intros new t Ht; by apply Hpre.
Qed.

Lemma request_turn_spec fuel prev u : remembers prev u -> post (request_turn env quorum_reads max_batch_size fuel prev) (turn_spec u).
Proof.
  intros Hu. unfold request_turn. apply post_call_bind. intros [request|].
  2: { apply post_ret. split; [done|by repeat constructor|done|done|done]. }
  apply post_call_bind. intros []; [apply post_ret; apply turn_spec_stop; by repeat constructor|].
  destruct (negb quorum_reads && is_empty request); [apply post_stuck|].
  apply (post_bind _ _ (fun new c => Forall (fun e => quiet e = true) new /\ request :: popped new = c.1 ++ option_list c.2 /\ batch_ok c.1)).
  { destruct (quorum_reads || negb (is_read request)) eqn:Hq.
    - eapply post_conseq; [apply (collect_spec fuel prev [request]); split; [by repeat constructor|cbn; lia]|]. intros new c (H1 & H2 & H3 & _). by split.
    - apply post_ret. split; [constructor|]. split; [done|]. split; [constructor|cbn; lia]. }
  intros n1 c (H1 & H2 & H3). apply post_call_bind. intros [].
  - apply post_ret. rewrite app_comm_cons. apply (turn_spec_stop u). constructor; [done|]. constructor; [done|]. apply Forall_app. split; [done|]. by repeat constructor.
  - eapply post_conseq; [by apply (hand_on_spec prev u)|]. intros new t [Ht Hn].
    change (turn_spec u (KPop (Some request) :: KShutdown false :: n1 ++ KShutdown false :: new) t).
    replace (KPop (Some request) :: KShutdown false :: n1 ++ KShutdown false :: new) with ((KPop (Some request) :: KShutdown false :: n1 ++ [KShutdown false]) ++ new)
      by (cbn; by rewrite <- app_assoc).
    eapply handed_spec; [| |exact Ht|exact Hn].
    + constructor; [done|]. constructor; [done|]. apply Forall_app. split; [done|]. by repeat constructor.
    + rewrite <- H2. change (request :: popped (n1 ++ [KShutdown false]) = request :: popped n1). by rewrite popped_app, app_nil_r.
Qed.

(** Turns compose: what a turn that fails loses is lost for good. *)
Definition thread_spec (u : list nat) (new : list kevent) (t : turn) : Prop :=
  reads_ok u new /\ batches_ok new /\ handled new `sublist_of` popped new /\
  match t with Next prev _ => remembers prev (foldl waiting_after u new) | Stopped => True end /\
  (t <> Stopped -> (forall e, KLogException e ∉ new) -> handled new = popped new).

Lemma thread_step u n0 n1 prev failed n2 t :
  Forall (fun e => quiet e = true) n0 -> popped n0 = [] -> turn_spec u n1 (Next prev failed) -> thread_spec (foldl waiting_after u n1) n2 t -> thread_spec u (n0 ++ n1 ++ n2) t.
Proof.
  intros Hq Hp [T1 T2 T3 T4 T5] (R & B & S & M & O). destruct (quiet_facts n0 u Hq) as (Q1 & Q2 & Q3 & Q4).
  unfold thread_spec. rewrite !reads_ok_app, !handled_app, !popped_app, !foldl_app, Q1, Q2, Hp. cbn [app].
  split; [done|]. split; [unfold batches_ok in *; rewrite !Forall_app; done|]. split; [|split; [done|]].
  - apply sublist_app; [|done]. destruct failed; [destruct T3 as (lost & <-); by apply sublist_inserts_r|by rewrite T3].
  - intros Ht Hn. rewrite O; [|done|set_solver]. destruct failed; [destruct T5 as [e He]; exfalso; apply (Hn e); set_solver|by rewrite T3].
Qed.

Lemma requestThread_spec fuel turns prev u : remembers prev u -> post (requestThread env quorum_reads max_batch_size fuel turns prev) (thread_spec u).
Proof.
  revert prev u. induction turns as [|turns IH]; intros prev u Hu; cbn [requestThread].
  { apply post_ret. split; [done|]. split; [constructor|]. split; [apply sublist_nil_l|]. done. }
  apply post_call_bind. intros []; [apply post_ret; split; [done|]; split; [by repeat constructor|]; split; [apply sublist_nil_l|]; done|].
  apply (post_bind _ _ (turn_spec u)); [by apply request_turn_spec|]. intros n1 t Ht. destruct t as [|prev' failed].
  - apply post_ret. destruct Ht as [T1 T2 T3 T4 T5]. rewrite app_nil_r. split; [done|]. split; [constructor; [done|exact T2]|]. split; [|done].
    destruct T3 as (lost & T3). change (handled n1 `sublist_of` popped n1). rewrite <- T3. by apply sublist_inserts_r.
  - pose proof (to_waiting _ _ _ _ Ht) as Hw. eapply post_conseq; [exact (IH prev' _ Hw)|]. intros n2 t Hs.
    apply (thread_step u [KShutdown false] n1 prev' failed n2 t); [by repeat constructor|done|done|done].
Qed.

(** Every append has its result once [n] events have happened.  The flag is set before the empty request is pushed, and the empty request is not taken while a batch is collected. *)
Context (n fuel : nat) (Hfuel : (n < fuel)%nat) (Hpending : forall h tr, (n <= length tr)%nat -> k_pending env h tr = false)
  (Hempty : forall tr r, k_pop env tr = Some r -> is_empty r = true -> k_shutdown env (tr ++ [KPop (Some r)]) = true /\ forall h, last tr <> Some (KPending h true)).

Lemma collect_returns f prev batch tr : (0 < f)%nat -> (n < f + length tr)%nat -> Forall (fun r => is_empty r = false) batch ->
  exists tr' c, collect env quorum_reads max_batch_size f prev batch tr = Some (tr', Ok c) /\ Forall (fun r => is_empty r = false) c.1.
Proof.
  revert batch tr. induction f as [|f IH]; intros batch tr Hp Hf Hb; [lia|]. cbn [collect]. destruct prev as [[h rs]|]; [|by eexists _, (_, _)].
  unfold io_call, shutdown_called, mbind, io_bind. destruct (k_pending env h tr) eqn:Hh; [|by eexists _, (_, _)].
  assert (Hlt : (length tr < n)%nat) by (destruct (decide (n <= length tr)%nat) as [Hle|]; [by rewrite (Hpending h tr Hle) in Hh|lia]).
  destruct (true && _); [|by eexists _, (_, _)]. destruct (k_pop env _) as [r|] eqn:Hr.
  - assert (Hn : is_empty r = false).
    { destruct (is_empty r) eqn:He; [|done]. destruct (Hempty _ _ Hr He) as [_ Hl]. exfalso. apply (Hl h). by rewrite last_snoc. }
    rewrite Hn, andb_false_r. destruct (negb quorum_reads && is_read r); [by eexists _, (_, _)|].
    assert (Hb' : Forall (fun r => is_empty r = false) (batch ++ [r])) by (apply Forall_app; split; [done|by constructor]).
    unfold io_call. destruct (k_shutdown env _); [by eexists _, (_, _)|]. apply IH; [lia| |done]. rewrite !length_app. cbn. lia.
  - unfold io_call. destruct (k_shutdown env _); [by eexists _, (_, _)|]. apply IH; [lia| |done]. rewrite !length_app. cbn. lia.
Qed.

Lemma total_force_wait h rs : total (forceWaitAndProcessResult env h rs).
Proof. unfold forceWaitAndProcessResult, addErrorResponses. apply total_bind; [auto with io|]. intros [[acc code]|e]; [|auto with io]. repeat case_match; auto with io. Qed.
Lemma total_answer_read prev read : total (answer_read env prev read).
Proof.
  unfold answer_read, putLocalReadRequest, log_exception, addErrorResponses. destruct read; [|auto with io]. apply total_bind; [auto with io|]. intros []; [|auto with io].
  apply total_bind; [auto with io|]. intros []; auto with io.
Qed.
Lemma total_putRequestBatch batch : Forall (fun r => is_empty r = false) batch -> total (putRequestBatch env batch).
Proof.
  intros Hb. unfold putRequestBatch. assert (is_Some (mapM (fun r => getZooKeeperLogEntry r.1 <$> r.2) batch)) as [entries ->]; [|auto with io].
  apply mapM_is_Some. eapply Forall_impl; [exact Hb|]. intros [s [m|]] Hm; [by eexists|discriminate Hm].
Qed.
Lemma total_append_batch batch read : Forall (fun r => is_empty r = false) batch -> total (append_batch env batch read).
Proof.
  intros Hb. unfold append_batch, log_exception, addErrorResponses. destruct batch as [|r batch]; [apply total_answer_read|]. apply total_bind; [by apply total_putRequestBatch|].
  intros [[h|]|e]; [|auto using total_answer_read with io..]. destruct read as [x|]; [|auto with io]. apply total_bind; [apply total_force_wait|].
  intros [?|e]; [apply total_answer_read|auto with io].
Qed.

Lemma total_hand_on prev batch read : Forall (fun r => is_empty r = false) batch ->
  total (stop ← shutdown_called env;
         if (stop : bool) then mret Stopped
         else match prev with
              | None => append_batch env batch read
              | Some (h, rs) =>
                  w ← forceWaitAndProcessResult env h rs;
                  match w with Throw e => log_exception prev e | Ok _ => append_batch env batch read end
              end).
Proof.
  intros Hb. unfold shutdown_called, log_exception. apply total_bind; [auto with io|]. intros []; [auto with io|]. destruct prev as [[h rs]|]; [|by apply total_append_batch].
  apply total_bind; [apply total_force_wait|]. intros [?|e]; [by apply total_append_batch|auto with io].
Qed.

Lemma total_request_turn prev : total (request_turn env quorum_reads max_batch_size fuel prev).
Proof.
  intros tr. unfold request_turn. rewrite call_bind_at. destruct (k_pop env tr) as [r|] eqn:Hr; [|by eexists].
  unfold shutdown_called. rewrite call_bind_at. destruct (k_shutdown env _) eqn:Hs; [by eexists|].
  assert (Hn : is_empty r = false) by (destruct (is_empty r) eqn:He; [by rewrite (proj1 (Hempty _ _ Hr He)) in Hs|done]). rewrite Hn, andb_false_r.
  unfold mbind at 1, io_bind at 1. destruct (quorum_reads || negb (is_read r)).
  - destruct (collect_returns fuel prev [r] ((tr ++ [KPop (Some r)]) ++ [KShutdown false])) as (tr' & c & -> & Hc); [lia|lia|by constructor|]. by apply total_hand_on.
  - by apply (total_hand_on prev [] (Some r)).
Qed.

Lemma total_requestThread turns prev : total (requestThread env quorum_reads max_batch_size fuel turns prev).
Proof.
  revert prev. induction turns as [|turns IH]; intros prev; cbn [requestThread]; [auto with io|]. unfold shutdown_called. apply total_bind; [auto with io|].
  intros []; [auto with io|]. apply total_bind; [apply total_request_turn|]. intros []; [auto with io|apply IH].
Qed.

(** C7: The thread that takes the requests ends each turn, whatever the clients send and the Raft instance answers, if only every append has a result at last and the
    empty request of a shutdown is not taken while a batch is collected.  Reading requests
    are separators: one is answered only when no append before it is waited for.  Requests are handed on in the order of the queue, and all of them as long as no
    exception is thrown and the server is not shut down.  Only requests that go through the log are appended, in batches of at most one more than the setting. *)
Theorem requests_in_order (turns : nat) :
  exists evs t, requestThread env quorum_reads max_batch_size fuel turns None [] = Some (evs, Ok t) /\
    reads_ok [] evs /\ handled evs `sublist_of` popped evs /\
    (t <> Stopped -> (forall e, KLogException e ∉ evs) -> handled evs = popped evs) /\
    forall batch h, KAppend batch h ∈ evs ->
      Forall (fun r => quorum_reads || negb (is_read r) = true) batch /\ Z.of_nat (length batch) <= Z.max 1 (max_batch_size + 1).
Proof.
  destruct (total_requestThread turns None []) as [[tr r] Hrun].
  destruct (requestThread_spec fuel turns None [] (or_introl eq_refl) _ _ _ Hrun) as (evs & t & -> & -> & (H1 & H2 & H3 & _ & H4)). exists evs, t.
  split; [done|]. split; [done|]. split; [done|]. split; [done|]. intros batch h Hin. unfold batches_ok in H2. rewrite Forall_forall in H2. exact (H2 _ Hin).
Qed.
End order.

(** ** An example *)

Definition example_requests : list RequestForSession :=
  [(1, Some (mkMessage 1 (SetRequest (lit "/a") (lit "x") (-1)))); (2, Some (mkMessage 1 (SetRequest (lit "/b") (lit "y") (-1)))); (1, Some (mkMessage 2 (GetRequest (lit "/a") false)))].

Definition pops (tr : list kevent) : nat := length (popped tr).

(** The queue gives [queue], an append has its result after twenty events, and the flag is set after [stop_at] of them. *)
Definition example_env (queue : list RequestForSession) (stop_at : nat) : keeper_env :=
  mkKeeperEnv (fun tr => queue !! pops tr) (fun tr => bool_decide (stop_at <= length tr)%nat) (fun _ tr => bool_decide (length tr < 20)%nat)
    (fun _ _ => Ok (true, CODE_OK)) (fun _ tr => Ok (Some (length tr))) (fun _ => true) (fun _ _ => Ok tt).

(** The reading request is answered after both writing ones. *)
Lemma requests_in_order_witness :
  exists evs t, requestThread (example_env example_requests 100) false 100 21 2 None [] = Some (evs, Ok t) /\ reads_ok [] evs /\ handled evs = example_requests.
Proof.
  destruct (requests_in_order (example_env example_requests 100) false 100 20 21) with (turns := 2%nat) as (evs & t & Hrun & Hr & _).
  - lia.
  - intros h tr Hn. cbn. apply bool_decide_eq_false. lia.
  - intros tr r Hr He. exfalso. assert (Hall : Forall (fun r => is_empty r = false) example_requests) by by repeat constructor.
    rewrite (Forall_lookup_1 _ _ _ _ Hall Hr) in He. discriminate He.
  - exists evs, t. split; [exact Hrun|]. split; [exact Hr|].
    assert (Hh : (fun x => handled x.1) <$> requestThread (example_env example_requests 100) false 100 21 2 None [] = Some example_requests) by (vm_compute; reflexivity).
    rewrite Hrun in Hh. by injection Hh.
Defined.

(** The flag of the shutdown is set and the empty request pushed while a batch is collected: the null pointer is dereferenced. *)
Lemma empty_request_dereferenced :
  let env := example_env (take 2 example_requests ++ [(0, None)]) 9 in
  (forall tr, (9 <= length tr)%nat -> k_shutdown env tr = true) /\
  requestThread env false 100 21 2 None [] = None.
Proof. split; [intros tr Hl; by apply bool_decide_eq_true|by vm_compute]. Qed.

(** A request taken when the flag of the shutdown is set is neither handed on nor refused. *)
Lemma taken_at_shutdown_lost env quorum_reads max_batch_size fuel prev r tr :
  k_pop env tr = Some r -> k_shutdown env (tr ++ [KPop (Some r)]) = true ->
  does (request_turn env quorum_reads max_batch_size fuel prev) tr [KPop (Some r); KShutdown true] (Ok Stopped).
Proof. intros Hp Hs. unfold does, request_turn, shutdown_called. rewrite call_bind_at, Hp, call_bind_at, Hs. by rewrite <- app_assoc. Qed.

(** A batch whose append throws is not refused, and neither is the reading request after it. *)
Lemma thrown_batch_lost env r batch read entries e tr :
  mapM (fun r => getZooKeeperLogEntry r.1 <$> r.2) (r :: batch) = Some entries -> k_append env entries tr = Throw e ->
  does (append_batch env (r :: batch) read) tr [KAppend (r :: batch) (Throw e); KLogException e] (Ok (Next None true)).
Proof. intros Hm He. unfold does, append_batch, putRequestBatch. rewrite Hm, call_bind_at, He. unfold log_exception, io_note, mbind, io_bind. by rewrite <- app_assoc. Qed.
