(* ===== verification/KeeperDelivery.v ===== *)
(** * KeeperDelivery: how responses find their clients

    Models the tables of src/src/Coordination/KeeperStorageDispatcher.cpp: the callback of each session, and the
    promises of the clients that wait for a session.  A promise is an object of its own, made by one call of
    [getSessionID] and reached through a table by the number of its request; it is set once, and
    setting it again throws.  Responses come in any order from the queue that the replicated
    state machine and the refusals of the request thread fill. *)

From S2P Require Import Prelude Wire ZooKeeper KeeperStorage KeeperDispatcher.
Import Storage Dispatcher.
Local Open Scope Z_scope.

Module Delivery.
(** What can be thrown here: besides the exceptions of the code, [std::future_error] of a promise set twice, and [std::bad_cast]. *)
Inductive thrown : Type := Exception (e : exn) | FutureError | BadCast.

(** A promise with the number its callback has captured, and its outcome. *)
Record promise : Type := mkPromise { captured : Z; outcome : option (result Z) }.

(** [received] lists what the callbacks of the sessions were given: session, client and response. *)
Record dispatcher : Type := mkDispatcher {
  session_to_response_callback : gmap Z nat;
  new_session_id_response_callback : gmap Z nat;
  internal_session_id_counter : Z;
  promises : list promise;
  received : list (Z * nat * zk_response);
  requests_queue : list RequestForSession
}.

Definition fresh : dispatcher := mkDispatcher ∅ ∅ 0 [] [] [].

Definition set_sessions (m : gmap Z nat) (d : dispatcher) : dispatcher :=
  mkDispatcher m (new_session_id_response_callback d) (internal_session_id_counter d) (promises d) (received d) (requests_queue d).
Definition set_waiting (m : gmap Z nat) (d : dispatcher) : dispatcher :=
  mkDispatcher (session_to_response_callback d) m (internal_session_id_counter d) (promises d) (received d) (requests_queue d).
Definition set_promises (ps : list promise) (d : dispatcher) : dispatcher :=
  mkDispatcher (session_to_response_callback d) (new_session_id_response_callback d) (internal_session_id_counter d) ps (received d) (requests_queue d).
Definition receive (x : Z * nat * zk_response) (d : dispatcher) : dispatcher :=
  mkDispatcher (session_to_response_callback d) (new_session_id_response_callback d) (internal_session_id_counter d) (promises d) (received d ++ [x]) (requests_queue d).
Definition push_request (r : RequestForSession) (d : dispatcher) : dispatcher :=
  mkDispatcher (session_to_response_callback d) (new_session_id_response_callback d) (internal_session_id_counter d) (promises d) (received d) (requests_queue d ++ [r]).

Definition set_queue (q : list RequestForSession) (d : dispatcher) : dispatcher :=
  mkDispatcher (session_to_response_callback d) (new_session_id_response_callback d) (internal_session_id_counter d) (promises d) (received d) q.

(** An action changes the state and may throw; what it did before it threw stays. *)
Definition action : Type := dispatcher -> dispatcher * option thrown.
Definition skip : action := fun d => (d, None).
Definition throw (t : thrown) : action := fun d => (d, Some t).
Definition andThen (a b : action) : action := fun d => match a d with (d, None) => b d | r => r end.

(** [promise->set_value] and [promise->set_exception]. *)
Definition set_promise (p : nat) (v : result Z) : action := fun d =>
  match promises d !! p with
  | Some pr =>
      match outcome pr with
      | Some _ => (d, Some FutureError)
      | None => (set_promises (<[p := mkPromise (captured pr) (Some v)]> (promises d)) d, None)
      end
  | None => (d, None)
  end.

(** The callback of [getSessionID]. *)
Definition session_id_callback (p : nat) (internal_id : Z) (r : zk_response) : action :=
  match response_opnum (r_body r) with
  | Throw e => throw (Exception e)
  | Ok op =>
      andThen (if decide (op = OpSessionID) then skip else set_promise p (Throw (DBException ErrorCodes.LOGICAL_ERROR)))
        match r_body r with
        | SessionIDResponse id session_id _ =>
            andThen (if decide (id = internal_id) then skip else set_promise p (Throw (DBException ErrorCodes.LOGICAL_ERROR)))
              (andThen (if decide (r_error r = Err.ZOK) then skip else set_promise p (Throw (KeeperException (r_error r))))
                 (set_promise p (Ok session_id)))
        | _ => throw BadCast
        end
  end.

(** [getOpNum] is asked only of a response that is no watch. *)
Definition opnum_is (r : zk_response) (op : OpNum) : result bool :=
  if decide (r_xid r = WATCH_XID) then Ok false
  else match response_opnum (r_body r) with Throw e => Throw e | Ok op' => Ok (bool_decide (op' = op)) end.

Definition setResponse (server_id : Z) (session_id : Z) (r : zk_response) : action := fun d =>
  match opnum_is r OpSessionID with
  | Throw e => (d, Some (Exception e))
  | Ok true =>
      match r_body r with
      | SessionIDResponse internal_id _ server =>
          if decide (server <> server_id) then (d, None)
          else match new_session_id_response_callback d !! internal_id with
               | None => (d, None)
               | Some p =>
                   match promises d !! p with
                   | None => (d, None)
                   | Some pr =>
                       andThen (session_id_callback p (captured pr) r)
                         (fun d => (set_waiting (delete internal_id (new_session_id_response_callback d)) d, None)) d
                   end
               end
      | _ => (d, Some BadCast)
      end
  | Ok false =>
      match session_to_response_callback d !! session_id with
      | None => (d, None)
      | Some client =>
          let d := receive (session_id, client, r) d in
          match opnum_is r OpClose with
          | Throw e => (d, Some (Exception e))
          | Ok true => (set_sessions (delete session_id (session_to_response_callback d)) d, None)
          | Ok false => (d, None)
          end
      end
  end.

(** [registerSession]. *)
Definition registerSession (session_id : Z) (client : nat) : action := fun d =>
  match session_to_response_callback d !! session_id with
  | Some _ => (d, Some (Exception (DBException ErrorCodes.LOGICAL_ERROR)))
  | None => (set_sessions (<[session_id := client]> (session_to_response_callback d)) d, None)
  end.

Definition finishSession (session_id : Z) (d : dispatcher) : dispatcher :=
  set_sessions (delete session_id (session_to_response_callback d)) d.

(** [putRequest]: [has_room] tells whether the queue had place within the timeout; a closing request waits for place as long as it takes. *)
Definition putRequest (shutdown_called has_room : bool) (m : zk_message) (session_id : Z) (d : dispatcher) : dispatcher * result bool :=
  match session_to_response_callback d !! session_id with
  | None => (d, Ok false)
  | Some _ =>
      if shutdown_called then (d, Ok false)
      else if decide (request_opnum (body m) = OpClose) then (push_request (session_id, Some m) d, Ok true)
      else if has_room then (push_request (session_id, Some m) d, Ok true)
      else (d, Throw (DBException ErrorCodes.TIMEOUT_EXCEEDED))
  end.

(** [getSessionID] up to the wait: the number of its promise. *)
Definition ask_session_id (server_id session_timeout_ms : Z) (has_room : bool) (d : dispatcher) : dispatcher * result nat :=
  let internal_id := internal_session_id_counter d in
  let p := length (promises d) in
  let d := mkDispatcher (session_to_response_callback d) (<[internal_id := p]> (new_session_id_response_callback d)) (to_signed 64 (internal_id + 1))
    (promises d ++ [mkPromise internal_id None]) (received d) (requests_queue d) in
  if has_room then (push_request (-1, Some (mkMessage 0 (SessionIDRequest internal_id session_timeout_ms server_id))) d, Ok p)
  else (d, Throw (DBException ErrorCodes.TIMEOUT_EXCEEDED)).

(** The end of [getSessionID], when the time to wait is over or the promise is set. *)
Definition receive_session_id (p : nat) (d : dispatcher) : result Z :=
  match promises d !! p ≫= outcome with
  | None => Throw (DBException ErrorCodes.TIMEOUT_EXCEEDED)
  | Some v => v
  end.

Definition CLOSE_XID : Z := 2147483647.

(** A round of [sessionCleanerTask] with the sessions found dead. *)
Fixpoint close_dead (dead_sessions : list Z) (d : dispatcher) : dispatcher :=
  match dead_sessions with
  | [] => d
  | s :: dead_sessions => close_dead dead_sessions (finishSession s (push_request (s, Some (mkMessage CLOSE_XID CloseRequest)) d))
  end.

Definition clean_sessions (is_leader : bool) (dead_sessions : result (list Z)) (d : dispatcher) : dispatcher :=
  if is_leader then match dead_sessions with Ok dead => close_dead dead d | Throw _ => d end else d.

(** The responses [addErrorResponses] pushes. *)
Definition error_responses (rs : list (Z * zk_message)) (error : Z) : list (Z * zk_response) :=
  map (fun r => (r.1, mkResponse (xid r.2) 0 error (makeResponse (body r.2)))) rs.

(** A turn of [responseThread]: an exception is logged. *)
Definition respond (server_id : Z) (r : Z * zk_response) (d : dispatcher) : dispatcher := (setResponse server_id r.1 r.2 d).1.

(** The end of [shutdown]: the requests before the empty one are answered, the callbacks dropped.  What is thrown is logged, and leaves the rest. *)
Fixpoint drain (server_id : Z) (queue : list RequestForSession) : action := fun d =>
  match queue with
  | (session_id, Some m) :: queue =>
      andThen (setResponse server_id session_id (mkResponse 0 0 Err.ZSESSIONEXPIRED (makeResponse (body m)))) (drain server_id queue) (set_queue queue d)
  | (_, None) :: queue => (set_queue queue d, None)
  | [] => (d, None)
  end.

Definition answer_left (server_id : Z) (d : dispatcher) : dispatcher :=
  (andThen (drain server_id (requests_queue d)) (fun d => (set_sessions ∅ d, None)) d).1.
End Delivery.
Import Delivery.

(** ** Histories *)

(** What the threads of the dispatcher and its clients do, one step at a time: each holds the lock of the tables while it uses them. *)
Inductive op : Type :=
| Register (session_id : Z) (client : nat)
| Finish (session_id : Z)
| Put (shutdown_called has_room : bool) (m : zk_message) (session_id : Z)
| AskSessionID (session_timeout_ms : Z) (has_room : bool)
| Respond (session_id : Z) (r : zk_response)
| Clean (is_leader : bool) (dead_sessions : result (list Z)).

Section histories.
Context (server_id : Z).

Definition step (d : dispatcher) (o : op) : dispatcher :=
  match o with
  | Register s c => (registerSession s c d).1
  | Finish s => finishSession s d
  | Put stopped room m s => (putRequest stopped room m s d).1
  | AskSessionID timeout room => (ask_session_id server_id timeout room d).1
  | Respond s r => respond server_id (s, r) d
  | Clean leader dead => clean_sessions leader dead d
  end.

Definition run (ops : list op) : dispatcher := foldl step fresh ops.

(** The first response for the request [id] of this server decides. *)
Definition answer_of (id : Z) (o : op) : option (result Z) :=
  match o with
  | Respond _ (mkResponse xid _ error (SessionIDResponse internal_id session_id server)) =>
      if decide (xid <> WATCH_XID /\ server = server_id /\ internal_id = id)
      then Some (if decide (error = Err.ZOK) then Ok session_id else Throw (KeeperException error)) else None
  | _ => None
  end.
Definition first_answer (id : Z) (ops : list op) : option (result Z) := head (omap (answer_of id) ops).

(** The requests for a session, each with what happened after it. *)
Fixpoint asked (counter : Z) (ops : list op) : list promise :=
  match ops with
  | [] => []
  | AskSessionID _ _ :: ops => mkPromise counter (first_answer counter ops) :: asked (counter + 1) ops
  | _ :: ops => asked counter ops
  end.

(** Promises are numbered by the calls that made them, and one that is not set can be found by its number. *)
Record numbered (d : dispatcher) : Prop := {
  nu_counter : internal_session_id_counter d = Z.of_nat (length (promises d));
  nu_captured : forall k pr, promises d !! k = Some pr -> captured pr = Z.of_nat k;
  nu_waiting : forall k pr, promises d !! k = Some pr -> outcome pr = None -> new_session_id_response_callback d !! Z.of_nat k = Some k;
  nu_callback : forall id p, new_session_id_response_callback d !! id = Some p -> id = Z.of_nat p /\ (p < length (promises d))%nat
}.

(** A promise keeps its outcome, and otherwise gets one. *)
Definition settle (f : Z -> option (result Z)) (pr : promise) : promise :=
  mkPromise (captured pr) (match outcome pr with Some v => Some v | None => f (captured pr) end).

Lemma settle_none (f : Z -> option (result Z)) (ps : list promise) :
  (forall k pr, ps !! k = Some pr -> outcome pr = None -> f (captured pr) = None) -> settle f <$> ps = ps.
Proof.
  intros Hf. apply list_eq. intros k. rewrite list_lookup_fmap. destruct (ps !! k) as [pr|] eqn:Hk; [|done]. cbn. f_equal.
  unfold settle. destruct pr as [c [v|]]; [done|]. cbn. by rewrite (Hf k _ Hk eq_refl : f c = None).
Qed.

Lemma settle_one (f : Z -> option (result Z)) (ps : list promise) (p : nat) pr v :
  ps !! p = Some pr -> outcome pr = None -> f (captured pr) = Some v ->
  (forall k pr', k <> p -> ps !! k = Some pr' -> f (captured pr') = None) -> settle f <$> ps = <[p := mkPromise (captured pr) (Some v)]> ps.
Proof.
  intros Hp Ho Hf Hr. apply list_eq. intros k. rewrite list_lookup_fmap. destruct (decide (k = p)) as [->|Hk].
  - rewrite list_lookup_insert_eq by by apply lookup_lt_Some in Hp. rewrite Hp. cbn. unfold settle. by rewrite Ho, Hf.
  - rewrite list_lookup_insert_ne by done. destruct (ps !! k) as [pr'|] eqn:E; [|done]. cbn. f_equal. unfold settle. destruct pr' as [c [w|]]; [done|]. cbn.
    by rewrite (Hr k _ Hk E : f c = None).
Qed.

(** Steps that leave the promises and their table alone. *)
Definition same_promises (d d' : dispatcher) : Prop :=
  promises d' = promises d /\ new_session_id_response_callback d' = new_session_id_response_callback d /\ internal_session_id_counter d' = internal_session_id_counter d.

Lemma same_numbered d d' : same_promises d d' -> numbered d -> numbered d'.
Proof. intros (H1 & H2 & H3) [N1 N2 N3 N4]. split; rewrite ?H1, ?H2, ?H3; done. Qed.

Lemma close_dead_same dead d : same_promises d (close_dead dead d).
Proof. revert d. induction dead as [|s dead IH]; intros d; [done|]. cbn. destruct (IH (finishSession s (push_request (s, Some (mkMessage CLOSE_XID CloseRequest)) d))) as (H1 & H2 & H3). done. Qed.

Lemma setResponse_same s r d : opnum_is r OpSessionID <> Ok true -> same_promises d (setResponse server_id s r d).1.
Proof.
  intros Hr. unfold setResponse. destruct (opnum_is r OpSessionID) as [[]|e]; [done| |done].
  destruct (session_to_response_callback d !! s); [|done]. by destruct (opnum_is r OpClose) as [[]|e].
Qed.

(** The promise a callback belongs to is set, and the callback dropped unless it throws. *)
Lemma numbered_set d p pr v m :
  numbered d -> promises d !! p = Some pr -> m = new_session_id_response_callback d \/ m = delete (Z.of_nat p) (new_session_id_response_callback d) ->
  numbered (set_waiting m (set_promises (<[p := mkPromise (captured pr) (Some v)]> (promises d)) d)).
Proof.
  intros [N1 N2 N3 N4] Hp Hm. split; cbn.
  - by rewrite length_insert.
  - intros k pr' [(<- & <- & _)|[_ Hk]]%list_lookup_insert_Some; [cbn; by apply N2|by apply N2].
  - intros k pr' [(<- & <- & _)|[Hne Hk]]%list_lookup_insert_Some Ho; [done|]. destruct Hm as [-> | ->]; [by eapply N3|].
    rewrite lookup_delete_ne by lia. by eapply N3.
  - intros id q Hq. rewrite length_insert. apply N4. destruct Hm as [-> | ->]; [done|]. by apply lookup_delete_Some in Hq as [_ ?].
Qed.

(** What the callback does with a response that has its number. *)
Lemma callback_spec p pr x z e sid server d : promises d !! p = Some pr ->
  session_id_callback p (captured pr) (mkResponse x z e (SessionIDResponse (captured pr) sid server)) d =
  match outcome pr with
  | Some _ => (d, Some FutureError)
  | None => let v := if decide (e = Err.ZOK) then Ok sid else Throw (KeeperException e) in
            (set_promises (<[p := mkPromise (captured pr) (Some v)]> (promises d)) d, if decide (e = Err.ZOK) then None else Some FutureError)
  end.
Proof.
  intros Hp. unfold session_id_callback. cbn [r_body response_opnum r_error]. unfold andThen, skip. rewrite !(decide_True (P := captured pr = captured pr)) by done.
  rewrite (decide_True (P := OpSessionID = OpSessionID)) by done. destruct (decide (e = Err.ZOK)); unfold set_promise; rewrite Hp; destruct (outcome pr) as [w|]; try done.
  cbn. by rewrite list_lookup_insert_eq by by apply lookup_lt_Some in Hp.
Qed.

(** A response with the number of a request: the promise that is not set gets its outcome. *)
Lemma setResponse_session_id s x z e id sid d :
  numbered d -> x <> WATCH_XID ->
  let d' := (setResponse server_id s (mkResponse x z e (SessionIDResponse id sid server_id)) d).1 in
  numbered d' /\ promises d' = settle (fun c => answer_of c (Respond s (mkResponse x z e (SessionIDResponse id sid server_id)))) <$> promises d.
Proof.
  intros Hn Hx. pose proof Hn as [N1 N2 N3 N4]. unfold setResponse, opnum_is. cbn [r_xid r_body response_opnum]. rewrite decide_False by done.
  rewrite bool_decide_eq_true_2 by done. rewrite decide_False by tauto.
  assert (Hother : forall k pr, promises d !! k = Some pr -> Z.of_nat k <> id -> answer_of (captured pr) (Respond s (mkResponse x z e (SessionIDResponse id sid server_id))) = None).
  { intros k pr Hk Hne. cbn. rewrite (N2 k pr Hk). by rewrite decide_False by (intros (_ & _ & ?); congruence). }
  destruct (new_session_id_response_callback d !! id) as [p|] eqn:Hp.
  2: { cbn. split; [done|]. symmetry. apply settle_none. intros k pr Hk Ho. apply (Hother k); [done|]. intros <-. by rewrite (N3 k pr Hk Ho) in Hp. }
  destruct (N4 id p Hp) as [-> Hlt]. destruct (lookup_lt_is_Some_2 _ _ Hlt) as [pr Hpr]. rewrite Hpr. unfold andThen.
  pose proof (callback_spec p pr x z e sid server_id d Hpr) as Hc. rewrite <- (N2 p pr Hpr) in *. rewrite Hc. destruct (outcome pr) as [w|] eqn:Ho.
  - cbn [fst]. split; [done|]. symmetry. apply settle_none. intros k pr' Hk Hk'. apply (Hother k); [done|]. rewrite (N2 p pr Hpr). intros Heq%Nat2Z.inj. rewrite Heq, Hpr in Hk. injection Hk as <-. by rewrite Ho in Hk'.
  - assert (Hps : settle (fun c => answer_of c (Respond s (mkResponse x z e (SessionIDResponse (captured pr) sid server_id)))) <$> promises d =
      <[p := mkPromise (captured pr) (Some (if decide (e = Err.ZOK) then Ok sid else Throw (KeeperException e)))]> (promises d)).
    { apply settle_one; [done|done|cbn; by rewrite decide_True|]. intros k pr' Hne Hk. apply (Hother k); [done|]. rewrite (N2 p pr Hpr). lia. }
    rewrite Hps. pose proof (numbered_set d p pr (if decide (e = Err.ZOK) then Ok sid else Throw (KeeperException e))) as Hset.
    destruct (decide (e = Err.ZOK)); (split; [|done]).
    + apply (Hset _ Hn Hpr). right. by rewrite (N2 p pr Hpr).
    + apply (Hset (new_session_id_response_callback d) Hn Hpr). by left.
Qed.

(** Every step but a request for a session settles the promises that are there. *)
Lemma step_settles d o : numbered d -> (forall t b, o <> AskSessionID t b) -> numbered (step d o) /\ promises (step d o) = settle (fun c => answer_of c o) <$> promises d.
Proof.
  intros Hn Ho. assert (Hkeep : forall d', same_promises d d' -> (forall c, answer_of c o = None) -> numbered d' /\ promises d' = settle (fun c => answer_of c o) <$> promises d).
  { intros d' Hs Ha. split; [by eapply same_numbered|]. destruct Hs as (-> & _). symmetry. apply settle_none. intros k pr _ _. apply Ha. }
  destruct o as [s c|s|stopped room m s|t b|s r|leader dead]; cbn [step].
  - apply Hkeep; [|done]. unfold registerSession. by destruct (session_to_response_callback d !! s).
  - by apply Hkeep.
  - apply Hkeep; [|done]. unfold putRequest. repeat case_match; done.
  - by destruct (Ho t b).
  - unfold respond. cbn [fst snd]. destruct (opnum_is r OpSessionID) as [[]|e] eqn:Er.
    2-3: apply Hkeep; [apply setResponse_same; congruence|]; intros c; destruct r as [x z e' []]; try done; unfold opnum_is in Er; cbn in Er |- *;
      destruct (decide (x = WATCH_XID)) as [Hx|Hx]; [by rewrite decide_False by tauto|done].
    destruct r as [x z e' body]. unfold opnum_is in Er. cbn in Er. destruct (decide (x = WATCH_XID)) as [Hx|Hx]; [done|].
    destruct (response_opnum body) as [op'|] eqn:Eb; [|done]. injection Er as Er. apply bool_decide_eq_true in Er as ->.
    assert (exists id sid server, body = SessionIDResponse id sid server) as (id & sid & server & ->) by (destruct body; simplify_eq/=; eauto).
    destruct (decide (server = server_id)) as [->|Hs]; [by apply setResponse_session_id|]. apply Hkeep.
    + unfold setResponse, opnum_is. cbn [r_xid r_body response_opnum]. rewrite decide_False by done. rewrite bool_decide_eq_true_2 by done. by rewrite decide_True by done.
    + intros c. cbn. by rewrite decide_False by tauto.
  - apply Hkeep; [|done]. unfold clean_sessions. destruct leader; [|done]. destruct dead; [apply close_dead_same|done].
Qed.

Lemma step_asks d t b : numbered d -> Z.of_nat (length (promises d)) + 1 < 2 ^ 63 ->
  numbered (step d (AskSessionID t b)) /\ promises (step d (AskSessionID t b)) = promises d ++ [mkPromise (Z.of_nat (length (promises d))) None].
Proof.
  intros [N1 N2 N3 N4] Hmax. assert (Hs : forall d', same_promises (mkDispatcher (session_to_response_callback d) (<[internal_session_id_counter d := length (promises d)]> (new_session_id_response_callback d))
    (to_signed 64 (internal_session_id_counter d + 1)) (promises d ++ [mkPromise (internal_session_id_counter d) None]) (received d) (requests_queue d)) d' ->
    numbered d' /\ promises d' = promises d ++ [mkPromise (Z.of_nat (length (promises d))) None]).
  2: { apply Hs. cbn [step]. unfold ask_session_id. by destruct b. }
  intros d' Hs. split; [eapply same_numbered; [exact Hs|]|destruct Hs as (-> & _); cbn; by rewrite N1]. split; cbn.
  - rewrite N1, length_app. unfold to_signed. cbn [length]. change (64 - 1) with 63. rewrite (proj2 (Z.ltb_lt _ _)) by lia. lia.
  - intros k pr [Hk|[Hk Hpr]]%lookup_app_Some; [by apply N2|]. apply list_lookup_singleton_Some in Hpr as [Hk' <-]. cbn. rewrite N1. lia.
  - intros k pr [Hk|[Hk Hpr]]%lookup_app_Some Ho.
    + rewrite lookup_insert_ne; [by eapply N3|]. apply lookup_lt_Some in Hk. lia.
    + apply list_lookup_singleton_Some in Hpr as [Hk' <-]. assert (k = length (promises d)) as -> by lia. rewrite N1. apply lookup_insert_eq.
  - intros id p. rewrite length_app. cbn [length]. intros [[<- <-]|[_ Hp]]%lookup_insert_Some; [lia|]. destruct (N4 id p Hp). lia.
Qed.

Lemma settle_settle f g (ps : list promise) : settle g <$> (settle f <$> ps) = settle (fun c => match f c with Some v => Some v | None => g c end) <$> ps.
Proof. rewrite <- list_fmap_compose. apply list_fmap_ext. intros k [c [v|]] _; [done|]. unfold settle. cbn. by destruct (f c). Qed.

Lemma first_answer_cons id o ops : first_answer id (o :: ops) = match answer_of id o with Some v => Some v | None => first_answer id ops end.
Proof. unfold first_answer. cbn. by destruct (answer_of id o). Qed.

Lemma run_promises ops d : numbered d -> Z.of_nat (length (promises d)) + Z.of_nat (length ops) < 2 ^ 63 ->
  promises (foldl step d ops) = (settle (fun c => first_answer c ops) <$> promises d) ++ asked (Z.of_nat (length (promises d))) ops.
Proof.
  revert d. induction ops as [|o ops IH]; intros d Hn Hmax; [cbn; rewrite app_nil_r; symmetry; by apply settle_none|]. cbn [foldl]. cbn [length] in Hmax.
  assert (Hrest : (forall t b, o <> AskSessionID t b) -> asked (Z.of_nat (length (promises d))) (o :: ops) = asked (Z.of_nat (length (promises d))) ops ->
    promises (foldl step (step d o) ops) = (settle (fun c => first_answer c (o :: ops)) <$> promises d) ++ asked (Z.of_nat (length (promises d))) (o :: ops)).
  { intros Ho ->. destruct (step_settles d o Hn Ho) as [Hn' Hp]. assert (Hl : length (promises (step d o)) = length (promises d)) by by rewrite Hp, length_fmap.
    rewrite (IH _ Hn'), Hl by lia. rewrite Hp, settle_settle. f_equal. apply list_fmap_ext. intros k pr _. unfold settle. by rewrite first_answer_cons. }
  destruct o as [| | |t b| |]; [by apply Hrest..| |by apply Hrest|by apply Hrest].
  destruct (step_asks d t b Hn) as [Hn' Hp]; [lia|]. rewrite (IH _ Hn'), Hp by (rewrite Hp, length_app; cbn; lia).
  rewrite fmap_app, length_app, <- app_assoc. cbn [asked fmap list_fmap app length]. rewrite Nat2Z.inj_add. done.
Qed.

(** C17: Each client that asks for a session gets the first response there is for the number of its request and for this server, as long as the numbers do not
    wrap around: its session, or the error.  No other response reaches it, whatever the other clients, sessions and replicas do in between. *)
Theorem session_ids_delivered (ops : list op) :
  Z.of_nat (length ops) < 2 ^ 63 -> promises (run ops) = asked 0 ops.
Proof.
  intros Hl. unfold run. rewrite run_promises; [done| |cbn; lia]. by split.
Qed.
End histories.

Lemma session_ids_delivered_witness :
  exists ops, Z.of_nat (length ops) < 2 ^ 63 /\
    promises (run 1 ops) = [mkPromise 0 (Some (Ok 77)); mkPromise 1 None; mkPromise 2 (Some (Throw (KeeperException Err.ZCONNECTIONLOSS)))].
Proof.
  exists [AskSessionID 100 true; AskSessionID 100 true; Respond (-1) (mkResponse 0 0 Err.ZOK (SessionIDResponse 1 76 2)); Register 5 0%nat;
    Respond (-1) (mkResponse 0 0 Err.ZOK (SessionIDResponse 0 77 1)); AskSessionID 100 true; Respond (-1) (mkResponse 0 0 Err.ZCONNECTIONLOSS (SessionIDResponse 2 0 1))].
  split; [vm_compute; reflexivity|]. rewrite session_ids_delivered; [vm_compute; reflexivity|vm_compute; reflexivity].
Defined.

(** ** Sessions that ended *)

(** The steps that end a session: its last response, its client, or the cleaner. *)
Definition ends (s : Z) (o : op) : bool :=
  match o with
  | Finish s' => bool_decide (s' = s)
  | Respond s' r => bool_decide (s' = s) && match opnum_is r OpClose with Ok b => b | Throw _ => false end
  | Clean true (Ok dead) => bool_decide (s ∈ dead)
  | _ => false
  end.

Definition registers (s : Z) (o : op) : bool := match o with Register s' _ => bool_decide (s' = s) | _ => false end.

(** What the client of a session has received. *)
Definition received_by (s : Z) (d : dispatcher) : list (Z * nat * zk_response) := filter (fun x => x.1.1 = s) (received d).

Lemma close_dead_silent s dead d :
  received (close_dead dead d) = received d /\ (session_to_response_callback d !! s = None \/ s ∈ dead -> session_to_response_callback (close_dead dead d) !! s = None).
Proof.
  revert d. induction dead as [|s' dead IH]; intros d; [split; [done|]; by intros [?|?%elem_of_nil]|]. cbn [close_dead].
  destruct (IH (finishSession s' (push_request (s', Some (mkMessage CLOSE_XID CloseRequest)) d))) as [H1 H2]. split; [done|]. intros H. apply H2. cbn.
  destruct H as [H|[->|H]%elem_of_cons]; [left|left|by right]; [|apply lookup_delete_eq]. destruct (decide (s = s')) as [->|]; [apply lookup_delete_eq|by rewrite lookup_delete_ne].
Qed.

Section silence.
Context (server_id : Z) (s : Z).

(** Responses to session-id requests reach no session. *)
Lemma callback_silent p i r d : session_to_response_callback (session_id_callback p i r d).1 = session_to_response_callback d /\ received (session_id_callback p i r d).1 = received d.
Proof.
  assert (Hset : forall v d, session_to_response_callback (set_promise p v d).1 = session_to_response_callback d /\ received (set_promise p v d).1 = received d)
    by (intros v d0; unfold set_promise; repeat case_match; done).
  assert (Hthen : forall a b, (forall d, session_to_response_callback (a d).1 = session_to_response_callback d /\ received (a d).1 = received d) ->
    (forall d, session_to_response_callback (b d).1 = session_to_response_callback d /\ received (b d).1 = received d) ->
    forall d, session_to_response_callback (andThen a b d).1 = session_to_response_callback d /\ received (andThen a b d).1 = received d).
  { intros a b Ha Hb d0. unfold andThen. specialize (Ha d0). destruct (a d0) as [d1 [t|]]; [done|]. destruct Ha as [<- <-]. apply Hb. }
  unfold session_id_callback. destruct (response_opnum (r_body r)); [|done]. apply Hthen; [intros d0; case_decide; [done|apply Hset]|]. destruct (r_body r); try done.
  apply Hthen; [intros d0; case_decide; [done|apply Hset]|]. apply Hthen; [intros d0; case_decide; [done|apply Hset]|]. apply Hset.
Qed.

Lemma setResponse_silent s' r d : session_to_response_callback d !! s = None ->
  session_to_response_callback (setResponse server_id s' r d).1 !! s = None /\ received_by s (setResponse server_id s' r d).1 = received_by s d.
Proof.
  intros Hs. unfold setResponse. destruct (opnum_is r OpSessionID) as [[]|e]; [|destruct (session_to_response_callback d !! s') as [c|] eqn:Hc; [|done]|done].
  - destruct (r_body r); try done. case_decide; [done|]. destruct (new_session_id_response_callback d !! _); [|done]. destruct (promises d !! _) as [pr|]; [|done].
    unfold andThen. destruct (callback_silent n (captured pr) r d) as [H1 H2]. destruct (session_id_callback n (captured pr) r d) as [d1 [t|]]; cbn in *; unfold received_by; cbn; by rewrite H1, H2.
  - assert (Hne : s' <> s) by congruence. assert (Hr : received_by s (receive (s', c, r) d) = received_by s d).
    { unfold received_by. cbn. rewrite filter_app, filter_cons_False by done. apply app_nil_r. }
    destruct (opnum_is r OpClose) as [[]|e]; [split; [cbn; by rewrite lookup_delete_ne|exact Hr]|done|done].
Qed.

Lemma step_silent d o : session_to_response_callback d !! s = None -> registers s o = false ->
  session_to_response_callback (step server_id d o) !! s = None /\ received_by s (step server_id d o) = received_by s d.
Proof.
  intros Hs Ho. destruct o as [s' c|s'|stopped room m s'|t b|s' r|leader dead]; cbn [step].
  - unfold registerSession. destruct (session_to_response_callback d !! s'); [done|]. cbn in *. apply bool_decide_eq_false in Ho. by rewrite lookup_insert_ne.
  - split; [|done]. cbn. destruct (decide (s = s')) as [->|]; [apply lookup_delete_eq|by rewrite lookup_delete_ne].
  - unfold putRequest. repeat case_match; done.
  - unfold ask_session_id. by destruct b.
  - by apply setResponse_silent.
  - unfold clean_sessions. destruct leader; [|done]. destruct dead as [dead|]; [|done]. destruct (close_dead_silent s dead d) as [H1 H2].
    split; [by apply H2; left|]. unfold received_by. by rewrite H1.
Qed.

Lemma ends_session d o : ends s o = true -> session_to_response_callback (step server_id d o) !! s = None.
Proof.
  intros Ho. destruct o as [|s'| | |s' r|leader dead]; cbn [ends] in Ho; try done.
  - apply bool_decide_eq_true in Ho as ->. apply lookup_delete_eq.
  - apply andb_true_iff in Ho as [->%bool_decide_eq_true Hc]. destruct (opnum_is r OpClose) as [[]|] eqn:Er; [|done|done].
    assert (Hsid : opnum_is r OpSessionID = Ok false) by (unfold opnum_is in *; case_decide; [done|]; destruct (response_opnum (r_body r)) as [op'|]; [|done];
      injection Er as ->%bool_decide_eq_true; done).
    cbn [step]. unfold respond, setResponse. cbn [fst snd]. rewrite Hsid, Er. destruct (session_to_response_callback d !! s) eqn:Hs; [|done]. apply lookup_delete_eq.
  - destruct leader; [|done]. destruct dead as [dead|]; [|done]. apply bool_decide_eq_true in Ho. cbn. apply (close_dead_silent s dead d). by right.
Qed.

(** A session that was closed, given up by its client or found dead hears nothing more, until a client is registered for it again: what
    is still in the queues for it is dropped. *)
Lemma ended_session_silent (before after : list op) (o : op) :
  ends s o = true -> Forall (fun o => registers s o = false) after ->
  received_by s (run server_id (before ++ o :: after)) = received_by s (run server_id (before ++ [o])).
Proof.
  intros Ho Ha. unfold run. rewrite !foldl_app. cbn [foldl]. generalize (foldl (step server_id) fresh before) as d. intros d. pose proof (ends_session d o Ho) as Hs.
  generalize dependent (step server_id d o). clear Ho d. induction Ha as [|o' after Ho' _ IH]; intros d Hs; [done|]. cbn [foldl].
  destruct (step_silent d o' Hs Ho') as [Hs' <-]. by apply IH.
Qed.
End silence.

Lemma ended_session_silent_witness :
  let closed := [Register 5 0%nat; Respond 5 (mkResponse 1 9 Err.ZOK CheckResponse); Respond 5 (mkResponse 2 10 Err.ZOK CloseResponse)] in
  received_by 5 (run 1 (closed ++ [Respond 5 (mkResponse WATCH_XID (-1) Err.ZOK (WatchResponse CREATED CONNECTED (lit "/a")))]))
  = [(5, 0%nat, mkResponse 1 9 Err.ZOK CheckResponse); (5, 0%nat, mkResponse 2 10 Err.ZOK CloseResponse)].
Proof.
  intros closed. transitivity (received_by 5 (run 1 closed)); [|vm_compute; reflexivity].
  apply (ended_session_silent 1 5 [Register 5 0%nat; Respond 5 (mkResponse 1 9 Err.ZOK CheckResponse)] [_] (Respond 5 (mkResponse 2 10 Err.ZOK CloseResponse))); [reflexivity|].
  constructor; [reflexivity|constructor].
Defined.

(** ** What goes wrong *)

(** A request for a session that is refused: its response carries neither its number nor its server, and nobody gets it. *)
Lemma refused_session_request_lost (server_id : Z) (s error : Z) (m : zk_message) (d : dispatcher) internal_id timeout server :
  server_id <> 0 -> xid m <> WATCH_XID -> body m = SessionIDRequest internal_id timeout server ->
  foldl (fun d r => respond server_id r d) d (error_responses [(s, m)] error) = d.
Proof.
  intros Hs Hx Hm. cbn. unfold respond, setResponse, opnum_is. cbn [fst snd r_xid r_body]. rewrite Hm. cbn [makeResponse response_opnum].
  rewrite decide_False by done. rewrite bool_decide_eq_true_2 by done. by rewrite decide_True by done.
Qed.

(** A client that did not get a session in time leaves its callback in the table. *)
Lemma timed_out_callback_stays (server_id timeout : Z) (has_room : bool) (d : dispatcher) :
  new_session_id_response_callback (ask_session_id server_id timeout has_room d).1 !! internal_session_id_counter d = Some (length (promises d)).
Proof. unfold ask_session_id. destruct has_room; apply lookup_insert_eq. Qed.

(** A response with an error sets the promise to the exception and then once more to a value: the callback throws and stays in the table. *)
Lemma error_callback_throws :
  let d := run 1 [AskSessionID 100 true] in
  let r := setResponse 1 (-1) (mkResponse 0 0 Err.ZCONNECTIONLOSS (SessionIDResponse 0 0 1)) d in
  r.2 = Some FutureError /\ new_session_id_response_callback r.1 !! 0 = Some 0%nat /\ receive_session_id 0 r.1 = Throw (KeeperException Err.ZCONNECTIONLOSS).
Proof. by vm_compute. Qed.

(** A request left in the queue at the shutdown is answered under the number 0, not under its own. *)
Lemma shutdown_answer_has_no_xid :
  received (answer_left 1 (run 1 [Register 5 0%nat; Put false true (mkMessage 7 (CheckRequest (lit "/a") 0)) 5]))
  = [(5, 0%nat, mkResponse 0 0 Err.ZSESSIONEXPIRED CheckResponse)].
Proof. by vm_compute. Qed.
