(* ===== verification/KeeperShutdown.v ===== *)
(** * KeeperShutdown: the threads of the dispatcher and its shutdown

    Models the locks, queues and joins of src/src/Coordination/KeeperStorageDispatcher.cpp as a transition system: [shutdown] holds
    [push_request_mutex] while it joins the threads, which themselves lock, push and pop.  A step is what one thread does
    between two points where others may come in.  Only how many entries a queue holds matters here; what
    the request thread does with its requests is in KeeperDispatcher.v, what happens to responses in KeeperDelivery.v. *)

From S2P Require Import Prelude.

Module Shutdown.
(** [sessionCleanerTask]: at the top of its loop, with dead sessions left to close, pushing the request of one with as many left, returned. *)
Inductive cleaner_at : Type := CCheck | CClose (dead : nat) | CPush (left : nat) | CDone.

(** [requestThread]: at the top of its loop, waiting for a request, with a request taken, collecting a batch, appending and reading, returned;
    or it has dereferenced the null pointer of the empty request, which ends the process. *)
Inductive requests_at : Type := RLoop | RPop | RTaken | RBatch | RWork | RDone | RNull.

(** [responseThread] and [snapshotThread] likewise. *)
Inductive responses_at : Type := QLoop | QPop | QDone.
Inductive snapshots_at : Type := PLoop | PPop | PTaken | PWork | PDone.

(** [shutdown], by what it does next; the last two are after the mutex is released: stopping the server, which is up to the Raft library, and
    emptying the queue of requests. *)
Inductive shutdown_at : Type := SStart | SJoinCleaner | SPushRequest | SJoinRequests | SJoinResponses | SPushSnapshot | SJoinSnapshots | SServer | SDrain | SDone.

(** Who holds [push_request_mutex]: a client pushes a closing request without a timeout. *)
Inductive holder : Type := Client (closing : bool) | Cleaner | Shutting.

Record state : Type := mkState {
  shutdown_called : bool;
  push_request_mutex : option holder;
  requests_queue : nat;
  snapshots_queue : nat;
  cleaner : cleaner_at;
  requests : requests_at;
  responses : responses_at;
  snapshots : snapshots_at;
  shutdown : shutdown_at
}.

Definition init : state := mkState false None 0 0 CCheck RLoop QLoop PLoop SStart.

Section threads.
(** [max_requests_batch_size], the size of the queue of requests, and [quorum_reads], with which a request is not asked for its kind. *)
Context (capacity : nat) (quorum_reads : bool).

(** The next request of the queue is the empty one: it was pushed last, and nobody pushes while the mutex is held. *)
Definition next_is_empty (q : nat) (sh : shutdown_at) : bool := match q, sh with 1%nat, SJoinRequests => true | _, _ => false end.

(** The threads of the dispatcher. *)
Inductive internal : state -> state -> Prop :=
| clean_return l q sq r re sn sh : internal (mkState true l q sq CCheck r re sn sh) (mkState true l q sq CDone r re sn sh)
| clean_find l q sq dead r re sn sh : internal (mkState false l q sq CCheck r re sn sh) (mkState false l q sq (CClose dead) r re sn sh)
| clean_slept f l q sq r re sn sh : internal (mkState f l q sq (CClose 0) r re sn sh) (mkState f l q sq CCheck r re sn sh)
| clean_lock f q sq n r re sn sh : internal (mkState f None q sq (CClose (S n)) r re sn sh) (mkState f (Some Cleaner) q sq (CPush n) r re sn sh)
| clean_push f q sq n r re sn sh : (q < capacity)%nat -> internal (mkState f (Some Cleaner) q sq (CPush n) r re sn sh) (mkState f None (S q) sq (CClose n) r re sn sh)
| request_return l q sq c re sn sh r : r = RLoop \/ r = RTaken \/ r = RBatch -> internal (mkState true l q sq c r re sn sh) (mkState true l q sq c RDone re sn sh)
| request_loop l q sq c re sn sh : internal (mkState false l q sq c RLoop re sn sh) (mkState false l q sq c RPop re sn sh)
| request_timeout f l q sq c re sn sh : internal (mkState f l q sq c RPop re sn sh) (mkState f l q sq c RLoop re sn sh)
| request_pop f l q sq c re sn sh : internal (mkState f l (S q) sq c RPop re sn sh) (mkState f l q sq c RTaken re sn sh)
| request_taken l q sq c re sn sh : internal (mkState false l q sq c RTaken re sn sh) (mkState false l q sq c RBatch re sn sh)
| request_collect f l q sq c re sn sh : quorum_reads = true \/ next_is_empty (S q) sh = false ->
    internal (mkState f l (S q) sq c RBatch re sn sh) (mkState f l q sq c RBatch re sn sh)
| request_null f l q sq c re sn sh : quorum_reads = false -> next_is_empty (S q) sh = true ->
    internal (mkState f l (S q) sq c RBatch re sn sh) (mkState f l q sq c RNull re sn sh)
| request_hand_on l q sq c re sn sh : internal (mkState false l q sq c RBatch re sn sh) (mkState false l q sq c RWork re sn sh)
| request_worked f l q sq c re sn sh : internal (mkState f l q sq c RWork re sn sh) (mkState f l q sq c RLoop re sn sh)
| response_return l q sq c r sn sh : internal (mkState true l q sq c r QLoop sn sh) (mkState true l q sq c r QDone sn sh)
| response_loop l q sq c r sn sh : internal (mkState false l q sq c r QLoop sn sh) (mkState false l q sq c r QPop sn sh)
| response_popped f l q sq c r sn sh : internal (mkState f l q sq c r QPop sn sh) (mkState f l q sq c r QLoop sn sh)
| snapshot_return l q sq c r re sh sn : sn = PLoop \/ sn = PTaken -> internal (mkState true l q sq c r re sn sh) (mkState true l q sq c r re PDone sh)
| snapshot_loop l q sq c r re sh : internal (mkState false l q sq c r re PLoop sh) (mkState false l q sq c r re PPop sh)
| snapshot_pop f l q sq c r re sh : internal (mkState f l q (S sq) c r re PPop sh) (mkState f l q sq c r re PTaken sh)
| snapshot_taken l q sq c r re sh : internal (mkState false l q sq c r re PTaken sh) (mkState false l q sq c r re PWork sh)
| snapshot_worked f l q sq c r re sh : internal (mkState f l q sq c r re PWork sh) (mkState f l q sq c r re PLoop sh)
| shutdown_start q sq c r re sn : internal (mkState false None q sq c r re sn SStart) (mkState true (Some Shutting) q sq c r re sn SJoinCleaner)
| shutdown_cleaner f l q sq r re sn : internal (mkState f l q sq CDone r re sn SJoinCleaner) (mkState f l q sq CDone r re sn SPushRequest)
| shutdown_push f l q sq c r re sn : (q < capacity)%nat -> internal (mkState f l q sq c r re sn SPushRequest) (mkState f l (S q) sq c r re sn SJoinRequests)
| shutdown_requests f l q sq c re sn : internal (mkState f l q sq c RDone re sn SJoinRequests) (mkState f l q sq c RDone re sn SJoinResponses)
| shutdown_responses f l q sq c r sn : internal (mkState f l q sq c r QDone sn SJoinResponses) (mkState f l q sq c r QDone sn SPushSnapshot)
| shutdown_snapshot f l q c r re sn : internal (mkState f l q 0 c r re sn SPushSnapshot) (mkState f l q 1 c r re sn SJoinSnapshots)
| shutdown_snapshots f l q sq c r re : internal (mkState f l q sq c r re PDone SJoinSnapshots) (mkState f None q sq c r re PDone SServer)
| shutdown_server f l q sq c r re sn : internal (mkState f l q sq c r re sn SServer) (mkState f l q sq c r re sn SDrain)
| shutdown_refuse f l q sq c r re sn : internal (mkState f l (S q) sq c r re sn SDrain) (mkState f l q sq c r re sn SDrain)
| shutdown_drained f l q q' sq c r re sn : q = 0%nat /\ q' = 0%nat \/ q = S q' -> internal (mkState f l q sq c r re sn SDrain) (mkState f l q' sq c r re sn SDone).

(** Its clients, and the replicated state machine that orders snapshots.  [getSessionID] does not look at the flag. *)
Inductive external : state -> state -> Prop :=
| client_lock f q sq c r re sn sh closing : closing = false \/ f = false -> external (mkState f None q sq c r re sn sh) (mkState f (Some (Client closing)) q sq c r re sn sh)
| client_push f closing q sq c r re sn sh : (q < capacity)%nat -> external (mkState f (Some (Client closing)) q sq c r re sn sh) (mkState f None (S q) sq c r re sn sh)
| client_timeout f q sq c r re sn sh : external (mkState f (Some (Client false)) q sq c r re sn sh) (mkState f None q sq c r re sn sh)
| order_snapshot f l q c r re sn sh : external (mkState f l q 0 c r re sn sh) (mkState f l q 1 c r re sn sh).

Definition step (s s' : state) : Prop := internal s s' \/ external s s'.
Definition reachable (s : state) : Prop := rtc step init s.
End threads.
End Shutdown.
Import Shutdown.

Section shutdown.
Context (capacity : nat) (quorum_reads : bool).

(** The mutex is held. *)
Definition in_progress (s : state) : bool := match shutdown s with SStart | SServer | SDrain | SDone => false | _ => true end.

(** What holds at all times: the mutex is held for the whole shutdown, and what was joined has returned. *)
Record inv (s : state) : Prop := {
  i_flag : match shutdown s with SStart => shutdown_called s = false | _ => shutdown_called s = true end;
  i_lock : push_request_mutex s = Some Shutting <-> in_progress s = true;
  i_cleaner_lock : match cleaner s with CPush _ => push_request_mutex s = Some Cleaner | _ => True end;
  i_cleaner : match shutdown s with SStart | SJoinCleaner => True | _ => cleaner s = CDone end;
  i_requests : match shutdown s with SStart | SJoinCleaner | SPushRequest | SJoinRequests => True | _ => requests s = RDone end;
  i_responses : match shutdown s with SPushSnapshot | SJoinSnapshots | SServer | SDrain | SDone => responses s = QDone | _ => True end;
  i_snapshots : match shutdown s, snapshots s with SJoinSnapshots, PPop => (0 < snapshots_queue s)%nat | _, _ => True end;
  i_null : requests s = RNull -> quorum_reads = false;
  i_room : (requests_queue s <= capacity)%nat /\ (snapshots_queue s <= 1)%nat
}.

Lemma inv_step s s' : inv s -> step capacity quorum_reads s s' -> inv s'.
Proof.
  intros [H1 H2 H3 H4 H5 H6 H7 Hn H8] [Hs|Hs]; destruct Hs; unfold in_progress in *; cbn in *; split; cbn; unfold in_progress; cbn;
    repeat case_match; simplify_eq/=; try done; try naive_solver lia.
Qed.

Lemma shutdown_inv s : reachable capacity quorum_reads s -> inv s.
Proof.
  intros H. unfold reachable in H. remember init as s0 eqn:E. assert (H0 : inv s0) by (subst; by split; cbn; try lia). clear E.
  induction H as [|s0 s1 s Hs _ IH]; [done|]. apply IH. by eapply inv_step.
Qed.

(** The ways to wait without end: the cleaner waits for the mutex that is held while it is joined; a queue is full and the thread that would take from it has returned. *)
Definition hangs (s : state) : Prop :=
  push_request_mutex s = Some Shutting /\
  ((shutdown s = SJoinCleaner /\ exists n, cleaner s = CClose (S n)) \/
   (shutdown s = SPushRequest /\ requests_queue s = capacity /\ requests s = RDone) \/
   (shutdown s = SPushSnapshot /\ snapshots_queue s = 1%nat /\ snapshots s = PDone)).

(** Nothing any thread or client does helps. *)
Lemma hangs_forever s s' : hangs s -> step capacity quorum_reads s s' -> hangs s'.
Proof. intros (Hl & H) [Hs|Hs]; destruct Hs; unfold hangs in *; cbn in *; naive_solver lia. Qed.

(** Once the flag is set, a thread has returned or can go on. *)
Lemma request_goes_on l q sq c r re sn sh : r = RDone \/ r = RNull \/ exists s', internal capacity quorum_reads (mkState true l q sq c r re sn sh) s'.
Proof. destruct r; [right; right; eexists; apply request_return; tauto|right; right; eexists; apply request_timeout|right; right; eexists; apply request_return; tauto..|right; right; eexists; apply request_worked|by left|by right; left]. Qed.
Lemma snapshot_goes_on l q sq c r re sn sh : (sn = PPop -> (0 < sq)%nat) -> sn = PDone \/ exists s', internal capacity quorum_reads (mkState true l q sq c r re sn sh) s'.
Proof.
  intros Hsq. destruct sn; [right; eexists; apply snapshot_return; tauto|right|right; eexists; apply snapshot_return; tauto|right; eexists; apply snapshot_worked|by left].
  destruct sq; [by specialize (Hsq eq_refl); lia|]. eexists. apply snapshot_pop.
Qed.

(** Unless it hangs or the process has ended, the shutdown or a thread it waits for goes on. *)
Lemma goes_on s : inv s -> in_progress s = true -> hangs s \/ requests s = RNull \/ exists s', internal capacity quorum_reads s s'.
Proof.
  destruct s as [f l q sq c r re sn sh]. intros [H1 H2 H3 H4 H5 H6 H7 Hn [H8 H9]] Hp. cbn in *. pose proof (proj2 H2 Hp) as ->. destruct sh; try done; subst f.
  - destruct c as [|[|n]|n|].
    + do 2 right. eexists. apply clean_return.
    + do 2 right. eexists. apply clean_slept.
    + left. split; [done|]. left. split; [done|]. by exists n.
    + discriminate H3.
    + do 2 right. eexists. apply shutdown_cleaner.
  - destruct (decide (q < capacity)%nat); [do 2 right; eexists; by apply shutdown_push|]. destruct (request_goes_on (Some Shutting) q sq c r re sn SPushRequest) as [->|[->|?]]; [|by right; left|by do 2 right].
    left. split; [done|]. right. left. cbn. split; [done|]. split; [lia|done].
  - right. destruct (request_goes_on (Some Shutting) q sq c r re sn SJoinRequests) as [->|[->|?]]; [|by left|by right]. right. eexists. apply shutdown_requests.
  - do 2 right. destruct re; eexists; [apply response_return|apply response_popped|apply shutdown_responses].
  - destruct sq as [|sq]; [do 2 right; eexists; apply shutdown_snapshot|].
    destruct (snapshot_goes_on (Some Shutting) q (S sq) c r re sn SPushSnapshot) as [->|?]; [lia| |by do 2 right]. left. split; [done|]. right. right. cbn. split; [done|]. split; [lia|done].
  - do 2 right. destruct (snapshot_goes_on (Some Shutting) q sq c r re sn SJoinSnapshots) as [->|?]; [by destruct sn| |done]. eexists. apply shutdown_snapshots.
Qed.

(** How many steps are left once the flag is set. *)
Definition steps_left (s : state) : nat :=
  3 * match shutdown s with SStart => 9 | SJoinCleaner => 8 | SPushRequest => 7 | SJoinRequests => 6 | SJoinResponses => 5 | SPushSnapshot => 4 | SJoinSnapshots => 3 | SServer => 2 | SDrain => 1 | SDone => 0 end
  + requests_queue s + snapshots_queue s
  + match cleaner s with CCheck => 1 | CClose _ => 2 | CPush _ => 3 | CDone => 0 end
  + match requests s with RLoop => 1 | RPop => 3 | RTaken | RBatch | RWork => 2 | RDone | RNull => 0 end
  + match responses s with QLoop => 1 | QPop => 2 | QDone => 0 end
  + match snapshots s with PLoop => 1 | PPop => 3 | PTaken | PWork => 2 | PDone => 0 end.

Lemma steps_decrease s s' : inv s -> shutdown_called s = true -> internal capacity quorum_reads s s' -> (steps_left s' < steps_left s)%nat /\ shutdown_called s' = true.
Proof.
  intros [H1 H2 H3 H4 H5 H6 H7 Hn H8] Hf Hs. destruct Hs; unfold in_progress in *; cbn in *; simplify_eq; (split; [|done]); unfold steps_left; cbn;
    try lia; try (destruct sh; naive_solver lia); naive_solver lia.
Qed.

End shutdown.

(** ** It does hang *)

Lemma internal_rtc capacity qr s s' s'' : internal capacity qr s s' -> rtc (step capacity qr) s' s'' -> rtc (step capacity qr) s s''.
Proof. intros H. apply rtc_l. by left. Qed.
Lemma external_rtc capacity qr s s' s'' : external capacity s s' -> rtc (step capacity qr) s' s'' -> rtc (step capacity qr) s s''.
Proof. intros H. apply rtc_l. by right. Qed.

(** Clients fill the queue of requests. *)
Lemma clients_fill capacity qr n : (n <= capacity)%nat -> reachable capacity qr (mkState false None n 0 CCheck RLoop QLoop PLoop SStart).
Proof.
  induction n as [|n IH]; intros Hn; [constructor|]. unfold reachable. etrans; [apply IH; lia|].
  eapply external_rtc; [apply (client_lock capacity _ _ _ _ _ _ _ _ false); by left|]. eapply external_rtc; [apply client_push; lia|]. constructor.
Qed.

(** Whatever the size of the queue: a dead session is being closed when the shutdown takes the mutex; the queue of requests is full; a snapshot waits. *)
Lemma shutdown_can_hang capacity qr : (0 < capacity)%nat ->
  (exists s, reachable capacity qr s /\ hangs capacity s /\ shutdown s = SJoinCleaner) /\
  (exists s, reachable capacity qr s /\ hangs capacity s /\ shutdown s = SPushRequest) /\
  (exists s, reachable capacity qr s /\ hangs capacity s /\ shutdown s = SPushSnapshot).
Proof.
  intros Hc. split; [|split].
  - exists (mkState true (Some Shutting) 0 0 (CClose 1) RLoop QLoop PLoop SJoinCleaner). split; [|split; [|done]].
    + eapply internal_rtc; [apply clean_find|]. eapply internal_rtc; [apply shutdown_start|]. constructor.
    + split; [done|]. left. split; [done|]. by exists 0%nat.
  - exists (mkState true (Some Shutting) capacity 0 CDone RDone QLoop PLoop SPushRequest). split; [|split; [|done]].
    + unfold reachable. etrans; [by apply (clients_fill capacity qr capacity)|]. eapply internal_rtc; [apply shutdown_start|]. eapply internal_rtc; [apply request_return; by left|].
      eapply internal_rtc; [apply clean_return|]. eapply internal_rtc; [apply shutdown_cleaner|]. constructor.
    + split; [done|]. right. by left.
  - exists (mkState true (Some Shutting) 1 1 CDone RDone QDone PDone SPushSnapshot). split; [|split; [|done]].
    + eapply external_rtc; [apply order_snapshot|]. eapply internal_rtc; [apply shutdown_start|]. eapply internal_rtc; [apply snapshot_return; by left|].
      eapply internal_rtc; [apply clean_return|]. eapply internal_rtc; [apply shutdown_cleaner|]. eapply internal_rtc; [by apply shutdown_push|].
      eapply internal_rtc; [apply request_return; by left|]. eapply internal_rtc; [apply shutdown_requests|]. eapply internal_rtc; [apply response_return|].
      eapply internal_rtc; [apply shutdown_responses|]. constructor.
    + split; [done|]. right. by right.
Qed.

(** A batch is being collected when the shutdown pushes the empty request. *)
Lemma shutdown_can_crash capacity : (0 < capacity)%nat -> exists s, reachable capacity false s /\ shutdown_called s = true /\ requests s = RNull.
Proof.
  intros Hc. exists (mkState true (Some Shutting) 0 0 CDone RNull QLoop PLoop SJoinRequests). split; [|done]. unfold reachable. etrans; [apply (clients_fill capacity false 1); lia|].
  eapply internal_rtc; [apply request_loop|]. eapply internal_rtc; [apply request_pop|]. eapply internal_rtc; [apply request_taken|]. eapply internal_rtc; [apply shutdown_start|].
  eapply internal_rtc; [apply clean_return|]. eapply internal_rtc; [apply shutdown_cleaner|]. eapply internal_rtc; [by apply shutdown_push|].
  eapply internal_rtc; [by apply request_null|]. constructor.
Qed.

