(* ===== verification/LogStore.v ===== *)
(** * LogStore: the two stores behind the Raft library

    Models src/src/Coordination/KeeperLogStore.cpp with the packs of Changelog.cpp, and src/src/Coordination/InMemoryLogStore.cpp: the
    implementations of [nuraft::log_store].  What the Raft library relies on is the class [LogStore]; both stores are
    instances, and what a leader packs another server applies, whichever store each of them has.

    Buffers and entries as bytes are the library's: [Nuraft] has its functions, [NuraftLaws] that it reads back what it wrote.
    A pointer to no entry that is dereferenced, and a buffer that is too short, give [None]. *)

From S2P Require Import Prelude TextFormat WalRecord Wire SipHash Changelog ChangelogLife.
Import Changelog.
Local Open Scope Z_scope.

#[local] Opaque computeRecordChecksum.

(** [put] and [get_int] of [nuraft::buffer], [serialize] and [deserialize] of [nuraft::log_entry]. *)
Class Nuraft : Type := {
  put_int : Z -> str;
  get_int : str -> option (Z * str);
  serialize : log_entry -> str;
  deserialize : str -> log_entry
}.

Class NuraftLaws `{Nuraft} : Prop := {
  get_put_int z rest : in_signed 32 z = true -> get_int (put_int z ++ rest) = Some (z, rest);
  deserialize_serialize e : 0 <= term e < 2 ^ 64 -> 0 <= val_type e < 2 ^ 8 -> deserialize (serialize e) = e
}.

(** ** The operations *)

Class LogStoreOps (S : Type) : Type := {
  start_index_of : S -> Z;
  next_slot : S -> Z;
  last_entry : S -> log_entry;
  append : log_entry -> S -> S * result Z;
  write_at : Z -> log_entry -> S -> option (S * result unit);
  log_entries : Z -> Z -> S -> list (option log_entry);
  entry_at : Z -> S -> option log_entry;
  term_at : Z -> S -> Z;
  pack : Z -> Z -> S -> option (result str);
  apply_pack : Z -> str -> S -> option (S * result unit);
  compact_to : Z -> S -> S
}.

Section packs.
Context `{Nuraft}.

(** The indexes [index], [index + 1], ... below [index + cnt]. *)
Definition indexes (index cnt : Z) : list Z := map (fun k => index + Z.of_nat k) (seq 0 (Z.to_nat (wrap 64 (index + cnt) - index))).

(** The bytes of a pack. *)
Definition packed_one (b : str) : str := put_int (to_signed 32 (wrap 32 (Z.of_nat (length b)))) ++ b.
Definition pack_buffers (cnt : Z) (bs : list str) : str := put_int cnt ++ concat (map packed_one bs).

(** [get_int] and [get] of the size read. *)
Definition unpack_one (p : str) : option (log_entry * str) :=
  '(n, p) ← get_int p;
  if decide (0 <= n <= Z.of_nat (length p)) then Some (deserialize (take (Z.to_nat n) p), drop (Z.to_nat n) p) else None.

End packs.

(** ** The store on disk *)

Module Disk.
Section disk.
Context `{Nuraft} (vt_size : nat).

(** [serializeEntriesToBuffer]. *)
Definition serializeEntriesToBuffer (index count : Z) (c : Changelog.t) : result str :=
  match mapM (fun i => logs c !! i) (indexes index count) with
  | None => Throw (DBException ErrorCodes.LOGICAL_ERROR)
  | Some es => Ok (pack_buffers count (map serialize es))
  end.

(** The loop of [applyEntriesFromBuffer]: [i] entries are applied, [n] are left. *)
Fixpoint apply_entries (n : nat) (first : bool) (cur_index : Z) (p : str) (c : Changelog.t) : option (Changelog.t * result unit) :=
  match n with
  | O => Some (c, Ok tt)
  | S n =>
      '(e, p) ← unpack_one p;
      '(c, r) ← (if first && bool_decide (is_Some (logs c !! cur_index)) then writeAt vt_size c cur_index e else Some (appendEntry vt_size c cur_index e));
      match r with
      | Throw x => Some (c, Throw x)
      | Ok _ => apply_entries n false (wrap 64 (cur_index + 1)) p c
      end
  end.

Definition applyEntriesFromBuffer (index : Z) (buffer : str) (c : Changelog.t) : option (Changelog.t * result unit) :=
  '(num_logs, p) ← get_int buffer; apply_entries (Z.to_nat num_logs) true index p c.

(** KeeperLogStore.cpp: the calls of the changelog, under a lock. *)
#[global] Instance disk_ops : LogStoreOps Changelog.t := {
  start_index_of := start_index;
  next_slot := getNextEntryIndex;
  last_entry := getLastEntry;
  append e c := let idx := getNextEntryIndex c in
                match appendEntry vt_size c idx e with (c, Ok _) => (c, Ok idx) | (c, Throw x) => (c, Throw x) end;
  write_at index e c := writeAt vt_size c index e;
  log_entries start end_ c := getLogEntriesBetween c start end_;
  entry_at index c := entryAt c index;
  term_at index c := match entryAt c index with Some e => term e | None => 0 end;
  pack index cnt c := Some (serializeEntriesToBuffer index cnt c);
  apply_pack index p c := applyEntriesFromBuffer index p c;
  compact_to last_log_index c := compact c last_log_index
}.
End disk.
End Disk.

(** ** The store in memory *)

Module Memory.
Section memory.
Context `{Nuraft}.

Record t : Type := mk { logs : gmap Z log_entry; start_idx : Z }.

(** The entry at 0 is a dummy. *)
Definition empty_store : t := mk {[ 0 := fake_entry ]} 1.

Definition next_slot (s : t) : Z := wrap 64 (start_idx s + Z.of_nat (size (logs s)) - 1).

(** An entry that is not there is the dummy. *)
Definition entry_at (index : Z) (s : t) : option log_entry := match logs s !! index with Some e => Some e | None => logs s !! 0 end.

Definition last_entry (s : t) : log_entry := default fake_entry (entry_at (wrap 64 (next_slot s - 1)) s).

Definition append (e : log_entry) (s : t) : t * result Z := let idx := next_slot s in (mk (<[idx := e]> (logs s)) (start_idx s), Ok idx).

Definition write_at (index : Z) (e : log_entry) (s : t) : t := mk (<[index := e]> (filter (fun ie => ie.1 < index) (logs s))) (start_idx s).

Definition log_entries (start end_ : Z) (s : t) : list (option log_entry) :=
  map (fun k => entry_at (start + Z.of_nat k) s) (seq 0 (Z.to_nat (end_ - start))).

Definition term_at (index : Z) (s : t) : Z := match entry_at index s with Some e => term e | None => 0 end.

(** [logs[ii]] for a missing entry is a null pointer, and [serialize] is called on it. *)
Definition pack (index cnt : Z) (s : t) : option (result str) :=
  es ← mapM (fun i => logs s !! i) (indexes index cnt); Some (Ok (pack_buffers cnt (map serialize es))).

Fixpoint apply_logs (n : nat) (cur_idx : Z) (p : str) (m : gmap Z log_entry) : option (gmap Z log_entry) :=
  match n with
  | O => Some m
  | S n => '(e, p) ← unpack_one p; apply_logs n (wrap 64 (cur_idx + 1)) p (<[cur_idx := e]> m)
  end.

(** [logs.upper_bound(0)]. *)
Definition first_above_zero (m : gmap Z log_entry) : option Z :=
  map_fold (fun k _ found => if decide (0 < k) then Some (match found with Some f => Z.min k f | None => k end) else found) None m.

Definition apply_pack (index : Z) (p : str) (s : t) : option (t * result unit) :=
  '(num_logs, p) ← get_int p;
  m ← apply_logs (Z.to_nat num_logs) index p (logs s);
  Some (mk m (default 1 (first_above_zero m)), Ok tt).

Definition compact (last_log_index : Z) (s : t) : t :=
  mk (foldl (fun m i => delete i m) (logs s) (map (fun k => start_idx s + Z.of_nat k) (seq 0 (Z.to_nat (last_log_index - start_idx s + 1)))))
    (wrap 64 (last_log_index + 1)).

#[global] Instance memory_ops : LogStoreOps t := {
  start_index_of := start_idx;
  next_slot := next_slot;
  last_entry := last_entry;
  append := append;
  write_at index e s := Some (write_at index e s, Ok tt);
  log_entries := log_entries;
  entry_at := entry_at;
  term_at := term_at;
  pack := pack;
  apply_pack := apply_pack;
  compact_to := compact
}.
End memory.
End Memory.

(** ** What the Raft library relies on *)

Section interface.
Context `{Nuraft}.

(** An entry whose bytes fit the length of a pack. *)
Definition packable (e : log_entry) : Prop := 0 <= term e < 2 ^ 64 /\ 0 <= val_type e < 2 ^ 8 /\ Z.of_nat (length (serialize e)) < 2 ^ 31.

Definition pack_bytes (es : list log_entry) : str := pack_buffers (Z.of_nat (length es)) (map serialize es).

(** A store holds the entries [es] from the index [i] on; [admits i es es'] tells that it has room for [es'] after them. *)
Class LogStore (S : Type) `{LogStoreOps S} : Type := {
  holds : S -> Z -> list log_entry -> Prop;
  admits : Z -> list log_entry -> list log_entry -> Prop;
  holds_start s i es : holds s i es -> start_index_of s = i;
  holds_next s i es : holds s i es -> next_slot s = i + Z.of_nat (length es);
  holds_entry s i es k e : holds s i es -> es !! k = Some e -> entry_at (i + Z.of_nat k) s = Some e;
  holds_last s i es e : holds s i (es ++ [e]) -> last_entry s = e;
  holds_append s i es e : holds s i es -> admits i es [e] -> exists s', append e s = (s', Ok (i + Z.of_nat (length es))) /\ holds s' i (es ++ [e]);
  holds_pack s i es k n : holds s i es -> (k + n <= length es)%nat -> pack (i + Z.of_nat k) (Z.of_nat n) s = Some (Ok (pack_bytes (take n (drop k es))));
  holds_apply s i es es' : holds s i es -> es' <> [] -> admits i es es' -> Forall packable es' -> Z.of_nat (length es') < 2 ^ 31 ->
    exists s', apply_pack (i + Z.of_nat (length es)) (pack_bytes es') s = Some (s', Ok tt) /\ holds s' i (es ++ es')
}.

(** A follower whose log is a part of the leader's gets the rest of it. *)
Definition send_rest {A B} `{LogStoreOps A, LogStoreOps B} (leader : A) (follower : B) : option (B * result unit) :=
  match pack (next_slot follower) (next_slot leader - next_slot follower) leader with
  | Some (Ok p) => apply_pack (next_slot follower) p follower
  | Some (Throw e) => Some (follower, Throw e)
  | None => None
  end.
End interface.

Section shared.
Context `{NuraftLaws}.

Lemma unpack_packed e rest : packable e -> unpack_one (packed_one (serialize e) ++ rest) = Some (e, rest).
Proof.
  intros (H1 & H2 & H3). unfold unpack_one, packed_one. rewrite <- app_assoc.
  assert (Hn : to_signed 32 (wrap 32 (Z.of_nat (length (serialize e)))) = Z.of_nat (length (serialize e))).
  { unfold to_signed, wrap. rewrite Z.mod_small by lia. change (32 - 1) with 31. by rewrite (proj2 (Z.ltb_lt _ _)) by lia. }
  rewrite Hn, get_put_int by (unfold in_signed; change (32 - 1) with 31; apply andb_true_iff; split; [apply Z.leb_le|apply Z.ltb_lt]; lia).
  cbn [mbind option_bind]. rewrite decide_True by (rewrite length_app; lia). rewrite Nat2Z.id, take_app_length, drop_app_length.
  by rewrite deserialize_serialize.
Qed.

Lemma get_count es rest : Z.of_nat (length es) < 2 ^ 31 -> get_int (pack_bytes es ++ rest) = Some (Z.of_nat (length es), concat (map packed_one (map serialize es)) ++ rest).
Proof.
  intros Hl. unfold pack_bytes, pack_buffers. rewrite <- app_assoc. apply get_put_int.
  unfold in_signed. change (32 - 1) with 31. apply andb_true_iff. split; [apply Z.leb_le|apply Z.ltb_lt]; lia.
Qed.

(** The entries from [i + k] on. *)
Lemma pack_range (m : gmap Z log_entry) i es k n :
  0 <= i -> (forall j e, es !! j = Some e -> m !! (i + Z.of_nat j) = Some e) -> (k + n <= length es)%nat -> i + Z.of_nat (length es) < 2 ^ 64 ->
  mapM (fun x => m !! x) (indexes (i + Z.of_nat k) (Z.of_nat n)) = Some (take n (drop k es)).
Proof.
  intros Hi Hm Hk Hmax. unfold indexes, wrap. rewrite Z.mod_small by lia. replace (Z.to_nat _) with n by lia. apply mapM_Some. apply Forall2_same_length_lookup.
  split; [rewrite length_map, length_seq, length_take, length_drop; lia|]. intros j x e Hx He.
  apply list_lookup_fmap_Some in Hx as (j' & -> & [-> Hj]%lookup_seq). rewrite lookup_take_lt in He by lia. rewrite lookup_drop in He.
  apply Hm in He. rewrite <- He. f_equal. lia.
Qed.
End shared.

(** ** The store in memory is one *)

Section memory_store.
Context `{NuraftLaws}.

Definition memory_holds (s : Memory.t) (i : Z) (es : list log_entry) : Prop :=
  Memory.logs s = <[0 := fake_entry]> (entries_map i es) /\ Memory.start_idx s = i /\ 0 < i /\ i + Z.of_nat (length es) < 2 ^ 64.

Lemma entries_map_at i es k : entries_map i es !! (i + Z.of_nat k) = es !! k.
Proof. rewrite entries_map_lookup, decide_True by lia. f_equal. lia. Qed.

Lemma memory_lookup s i es k : memory_holds s i es -> Memory.logs s !! (i + Z.of_nat k) = es !! k.
Proof. intros (-> & _ & Hi & _). rewrite lookup_insert_ne by lia. apply entries_map_at. Qed.

Lemma memory_next s i es : memory_holds s i es -> Memory.next_slot s = i + Z.of_nat (length es).
Proof.
  intros (Hl & Hs & Hi & Hm). unfold Memory.next_slot, wrap. rewrite Hl, Hs, map_size_insert_None, entries_map_size by (rewrite entries_map_lookup; by rewrite decide_False by lia).
  rewrite Z.mod_small by lia. lia.
Qed.

Lemma memory_entry s i es k e : memory_holds s i es -> es !! k = Some e -> Memory.entry_at (i + Z.of_nat k) s = Some e.
Proof. intros Hs He. unfold Memory.entry_at. by rewrite (memory_lookup s i es k Hs), He. Qed.

Lemma memory_snoc i es e : 0 < i -> <[i + Z.of_nat (length es) := e]> (<[0 := fake_entry]> (entries_map i es)) = <[0 := fake_entry]> (entries_map i (es ++ [e])).
Proof. intros Hi. rewrite insert_insert_ne by lia. by rewrite entries_snoc. Qed.

Lemma memory_apply_logs i es' : forall es rest, 0 < i -> i + Z.of_nat (length (es ++ es')) < 2 ^ 64 -> Forall packable es' ->
  Memory.apply_logs (length es') (i + Z.of_nat (length es)) (concat (map packed_one (map serialize es')) ++ rest) (<[0 := fake_entry]> (entries_map i es))
  = Some (<[0 := fake_entry]> (entries_map i (es ++ es'))).
Proof.
  induction es' as [|e es' IH]; intros es rest Hi Hm Hp; [by rewrite app_nil_r|]. apply Forall_cons in Hp as [He Hp]. rewrite length_app in Hm. cbn [length] in Hm.
  cbn [map concat Memory.apply_logs length]. rewrite <- app_assoc, unpack_packed by done. cbn [mbind option_bind]. rewrite memory_snoc by done.
  replace (wrap 64 (i + Z.of_nat (length es) + 1)) with (i + Z.of_nat (length (es ++ [e]))) by (unfold wrap; rewrite length_app, Z.mod_small; cbn [length]; lia).
  rewrite IH; [by rewrite <- app_assoc|done| |done]. rewrite !length_app. cbn [length]. lia.
Qed.

(** The smallest key above zero. *)
Lemma first_above_zero_spec (m : gmap Z log_entry) :
  (forall f, Memory.first_above_zero m = Some f -> 0 < f /\ is_Some (m !! f)) /\ (forall k, is_Some (m !! k) -> 0 < k -> exists f, Memory.first_above_zero m = Some f /\ f <= k).
Proof.
  unfold Memory.first_above_zero. set (g := fun (k : Z) (_ : log_entry) (found : option Z) => if decide (0 < k) then Some (match found with Some f => Z.min k f | None => k end) else found).
  apply (map_fold_weak_ind (fun r (m : gmap Z log_entry) => (forall f, r = Some f -> 0 < f /\ is_Some (m !! f)) /\ (forall k, is_Some (m !! k) -> 0 < k -> exists f, r = Some f /\ f <= k))).
  { split; [done|]. intros k [x Hx]. by rewrite lookup_empty in Hx. }
  intros i x m' r _ [H1 H2]. unfold g. assert (Hnew : forall f, is_Some (m' !! f) -> is_Some (<[i:=x]> m' !! f)) by (intros f Hf; apply lookup_insert_is_Some'; by right).
  assert (Hat : is_Some (<[i:=x]> m' !! i)) by (rewrite lookup_insert_eq; by eexists). split.
  - intros f. case_decide as Hi; [|intros ->; destruct (H1 f eq_refl); auto]. intros [= <-]. destruct r as [f|]; [|auto].
    destruct (H1 f eq_refl). destruct (Z.min_spec i f) as [[_ ->]|[_ ->]]; auto.
  - intros k Hk Hk0. apply lookup_insert_is_Some' in Hk as [<-|Hk].
    + rewrite decide_True by done. eexists. split; [done|]. destruct r; lia.
    + destruct (H2 k Hk Hk0) as (f & -> & Hf). case_decide; eexists; (split; [done|]); lia.
Qed.

Lemma memory_first i es : 0 < i -> es <> [] -> Memory.first_above_zero (<[0 := fake_entry]> (entries_map i es)) = Some i.
Proof.
  intros Hi Hes. destruct (first_above_zero_spec (<[0 := fake_entry]> (entries_map i es))) as [H1 H2].
  pose proof (entries_map_at i es 0) as Hfst. cbn [Z.of_nat] in Hfst. rewrite Z.add_0_r in Hfst.
  destruct (H2 i) as (f & Hf & Hle); [|done|]; [rewrite lookup_insert_ne, Hfst by lia; by destruct es; [|eexists]|].
  rewrite Hf. f_equal. destruct (H1 f Hf) as [Hf0 [x Hx]]. rewrite lookup_insert_ne, entries_map_lookup in Hx by lia. case_decide; [lia|done].
Qed.

#[export] Program Instance memory_store : LogStore Memory.t := {
  holds := memory_holds;
  admits i es es' := i + Z.of_nat (length (es ++ es')) < 2 ^ 64
}.
Next Obligation. by intros s i es (_ & ? & _). Qed.
Next Obligation. exact memory_next. Qed.
Next Obligation. exact memory_entry. Qed.
Next Obligation.
  intros s i es e Hs. cbn. unfold Memory.last_entry. rewrite (memory_next s i _ Hs). pose proof Hs as (_ & _ & Hi & Hm). rewrite length_app in *. cbn [length] in *.
  replace (wrap 64 (i + Z.of_nat (length es + 1) - 1)) with (i + Z.of_nat (length es)) by (unfold wrap; rewrite Z.mod_small; lia).
  by rewrite (memory_entry s i (es ++ [e]) (length es) e) by (done || by apply list_lookup_middle).
Qed.
Next Obligation.
  intros s i es e Hs Ha. cbn in *. unfold Memory.append. rewrite (memory_next s i es Hs). eexists. split; [done|]. destruct Hs as (Hl & Hst & Hi & Hm).
  split; [cbn; by rewrite Hl, memory_snoc|]. done.
Qed.
Next Obligation.
  intros s i es k n Hs Hk. cbn. unfold Memory.pack. pose proof Hs as (_ & _ & Hi & Hm). rewrite (pack_range _ i es k n); [|lia| |done|done].
  - cbn. unfold pack_bytes. by rewrite length_take, length_drop, Nat.min_l by lia.
  - intros j e He. by rewrite (memory_lookup s i es j Hs).
Qed.
Next Obligation.
  intros s i es es' Hs Hne Ha Hp Hl. cbn in *. unfold Memory.apply_pack. pose proof Hs as (Hlog & Hst & Hi & Hm). rewrite <- (app_nil_r (pack_bytes es')), get_count by done.
  cbn [mbind option_bind]. rewrite Nat2Z.id, Hlog, memory_apply_logs by done. cbn [mbind option_bind]. eexists. split; [done|].
  split; [done|]. cbn [Memory.start_idx]. rewrite memory_first by (done || by destruct es). done.
Qed.

(** Overwriting an entry drops those after it, as [nuraft::log_store] asks for. *)
Lemma memory_write_at s i es k e : memory_holds s i es -> (k <= length es)%nat -> i + Z.of_nat k + 1 < 2 ^ 64 ->
  memory_holds (Memory.write_at (i + Z.of_nat k) e s) i (take k es ++ [e]).
Proof.
  intros (Hl & Hs & Hi & Hm) Hk Hmax. assert (Hlen : length (take k es) = k) by (rewrite length_take; lia).
  split; [|split; [done|]; split; [done|]; rewrite length_app, Hlen; cbn [length]; lia]. unfold Memory.write_at. cbn [Memory.logs]. rewrite Hl, <- (memory_snoc i (take k es) e Hi), Hlen.
  f_equal. apply map_eq. intros j. destruct (decide (j = 0)) as [->|Hj].
  - rewrite lookup_insert_eq. apply map_lookup_filter_Some_2; [apply lookup_insert_eq|cbn; lia].
  - rewrite lookup_insert_ne, entries_map_lookup by done. destruct (decide (j < i + Z.of_nat k)) as [Hlt|Hge].
    + rewrite map_lookup_filter, lookup_insert_ne, entries_map_lookup by done. case_decide; [|done]. rewrite lookup_take_lt by lia.
      destruct (es !! Z.to_nat (j - i)); [|done]. cbn. by rewrite option_guard_True by done.
    + rewrite map_lookup_filter_None_2 by (right; intros x _; cbn; lia). case_decide; [|done]. by rewrite lookup_take_ge by lia.
Qed.

(** Compaction drops the entries up to an index that is not before the first one. *)
Lemma memory_compact s i es last : memory_holds s i es -> i <= last + 1 -> last + 1 + Z.of_nat (length es) < 2 ^ 64 ->
  memory_holds (Memory.compact last s) (last + 1) (drop (Z.to_nat (last + 1 - i)) es).
Proof.
  intros (Hl & Hs & Hi & Hm) Hle Hmax. unfold Memory.compact. split; [|split; [cbn; unfold wrap; rewrite Z.mod_small; lia|split; [lia|rewrite length_drop; lia]]].
  cbn [Memory.logs]. rewrite Hl, Hs. apply map_eq. intros j. rewrite foldl_delete_lookup. case_decide as Hin.
  - apply list_elem_of_fmap in Hin as (k & -> & Hk%elem_of_seq). rewrite lookup_insert_ne, entries_map_lookup by lia. by rewrite decide_False by lia.
  - destruct (decide (j = 0)) as [->|Hj]; [by rewrite !lookup_insert_eq|]. rewrite !lookup_insert_ne, !entries_map_lookup by done.
    destruct (decide (last + 1 <= j)) as [Hj1|Hj1].
    + rewrite decide_True by lia. rewrite lookup_drop. f_equal. lia.
    + case_decide; [|done]. destruct Hin. apply list_elem_of_fmap. exists (Z.to_nat (j - i)). split; [lia|]. apply elem_of_seq. lia.
Qed.
End memory_store.

(** ** The store on disk is one *)

Section disk_store.
Context `{NuraftLaws} (vt_size interval : nat) (Hint : (0 < interval)%nat).

Definition disk_holds (c : Changelog.t) (i : Z) (es : list log_entry) : Prop :=
  0 < i /\ i + Z.of_nat (length es) < 2 ^ 64 /\ exists sealed tail, es = sealed ++ tail /\ log_holds vt_size interval i c (sealed, tail).

Definition disk_admits (i : Z) (es es' : list log_entry) : Prop :=
  i + Z.of_nat (length (es ++ es')) + 2 * Z.of_nat interval < 2 ^ 64 /\ Forall (valid_entry vt_size) es'.

Lemma disk_logs c i es : disk_holds c i es -> logs c = entries_map i es /\ start_index c = i.
Proof. intros (_ & _ & sealed & tail & -> & Hl). by destruct Hl. Qed.

Lemma disk_next c i es : disk_holds c i es -> getNextEntryIndex c = i + Z.of_nat (length es).
Proof.
  intros Hc. pose proof Hc as (Hi & Hm & _). destruct (disk_logs c i es Hc) as [Hl Hs]. unfold getNextEntryIndex, wrap. rewrite Hl, Hs, entries_map_size, Z.mod_small; lia.
Qed.

Lemma disk_append c i es e : disk_holds c i es -> disk_admits i es [e] ->
  exists c', appendEntry vt_size c (i + Z.of_nat (length es)) e = (c', Ok tt) /\ disk_holds c' i (es ++ [e]).
Proof.
  intros Hc [Ha He]. pose proof Hc as (Hi & Hm & sealed & tail & -> & Hl). rewrite <- (disk_next c i _ Hc). rewrite length_app in Ha. cbn [length] in Ha.
  destruct (append_holds vt_size interval i Hint Hi c (sealed, tail) e Hl) as (c' & Hap & Hl').
  { split; [cbn [fst snd]; lia|]. by apply Forall_cons in He as [He _]. }
  exists c'. split; [done|]. split; [done|]. split; [rewrite length_app; cbn [length]; lia|]. destruct (log_step vt_size interval i (sealed, tail) (LAppend e)) as [sealed' tail'] eqn:Hstep.
  exists sealed', tail'. split; [|done]. cbn in Hstep. case_decide; injection Hstep as <- <-; by rewrite ?app_assoc.
Qed.

Lemma disk_apply_entries i es' : forall es c rest first, disk_holds c i es -> disk_admits i es es' -> Forall packable es' ->
  exists c', Disk.apply_entries vt_size (length es') first (i + Z.of_nat (length es)) (concat (map packed_one (map serialize es')) ++ rest) c = Some (c', Ok tt)
    /\ disk_holds c' i (es ++ es').
Proof.
  induction es' as [|e es' IH]; intros es c rest first Hc [Ha Hv] Hp; [exists c; by rewrite app_nil_r|].
  apply Forall_cons in Hp as [He Hp]. apply Forall_cons in Hv as [Hve Hv]. rewrite length_app in Ha. cbn [length] in Ha.
  cbn [map concat Disk.apply_entries length]. rewrite <- app_assoc, unpack_packed by done. cbn [mbind option_bind].
  destruct (disk_logs c i es Hc) as [Hl _].
  assert (Hno : logs c !! (i + Z.of_nat (length es)) = None) by (rewrite Hl, entries_map_at; by apply lookup_ge_None_2).
  rewrite bool_decide_eq_false_2, andb_false_r by (rewrite Hno; by intros [? ?]).
  destruct (disk_append c i es e Hc) as (c1 & -> & Hc1); [split; [rewrite length_app; cbn [length]; lia|by constructor]|]. cbn [mbind option_bind].
  replace (wrap 64 (i + Z.of_nat (length es) + 1)) with (i + Z.of_nat (length (es ++ [e])))
    by (destruct Hc as (Hi & _); unfold wrap; rewrite length_app, Z.mod_small; cbn [length]; lia).
  destruct (IH (es ++ [e]) c1 rest false Hc1) as (c' & Hr & Hc'); [split; [rewrite !length_app; cbn [length]; lia|done]|done|].
  exists c'. split; [done|]. by rewrite <- app_assoc in Hc'.
Qed.

#[program] Definition disk_store : @LogStore _ Changelog.t (Disk.disk_ops vt_size) := {|
  holds := disk_holds;
  admits := disk_admits
|}.
Next Obligation. intros s i es Hs. by destruct (disk_logs s i es Hs). Qed.
Next Obligation. exact disk_next. Qed.
Next Obligation. intros s i es k e Hs He. cbn. unfold entryAt. destruct (disk_logs s i es Hs) as [-> _]. by rewrite entries_map_at. Qed.
Next Obligation.
  intros s i es e Hs. cbn. unfold getLastEntry. rewrite (disk_next s i _ Hs). pose proof Hs as (Hi & Hm & _). rewrite length_app in *. cbn [length] in *.
  replace (wrap 64 (i + Z.of_nat (length es + 1) - 1)) with (i + Z.of_nat (length es)) by (unfold wrap; rewrite Z.mod_small; lia).
  destruct (disk_logs s i _ Hs) as [-> _]. rewrite entries_map_at. by rewrite list_lookup_middle by done.
Qed.
Next Obligation. intros s i es e Hs Ha. cbn. rewrite (disk_next s i es Hs). destruct (disk_append s i es e Hs Ha) as (c' & -> & Hc'). eauto. Qed.
Next Obligation.
  intros s i es k n Hs Hk. cbn. unfold Disk.serializeEntriesToBuffer. pose proof Hs as (Hi & Hm & _). destruct (disk_logs s i es Hs) as [Hl _].
  rewrite (pack_range _ i es k n); [|lia| |done|done].
  - unfold pack_bytes. by rewrite length_take, length_drop, Nat.min_l by lia.
  - intros j e He. by rewrite Hl, entries_map_at.
Qed.
Next Obligation.
  intros s i es es' Hs _ Ha Hp Hl. cbn. unfold Disk.applyEntriesFromBuffer. rewrite <- (app_nil_r (pack_bytes es')), get_count by done.
  cbn [mbind option_bind]. rewrite Nat2Z.id. by apply disk_apply_entries.
Qed.
End disk_store.

(** ** Replication *)

Section replication.
Context `{HN : Nuraft} {HNL : NuraftLaws} {A B : Type} {OA : LogStoreOps A} {OB : LogStoreOps B} {SA : LogStore A} {SB : LogStore B}.

(** C12: A leader sends a follower the entries it does not have.  Whichever of the two stores each server has, packing and applying succeed, and the follower holds
    the leader's log from its own first index on: every entry is the leader's. *)
Theorem follower_catches_up (leader : A) (follower : B) (i : Z) (es : list log_entry) (k n : nat) :
  holds leader i es -> holds follower (i + Z.of_nat k) (take n (drop k es)) -> (k + n < length es)%nat ->
  admits (i + Z.of_nat k) (take n (drop k es)) (drop (k + n) es) -> Forall packable es -> Z.of_nat (length es) < 2 ^ 31 ->
  exists follower', send_rest leader follower = Some (follower', Ok tt) /\ holds follower' (i + Z.of_nat k) (drop k es) /\ next_slot follower' = next_slot leader /\
    forall j e, (k <= j)%nat -> es !! j = Some e -> entry_at (i + Z.of_nat j) leader = Some e /\ entry_at (i + Z.of_nat j) follower' = Some e.
Proof.
  intros Hl Hf Hk Ha Hp Hmax. assert (Hlen : length (take n (drop k es)) = n) by (rewrite length_take, length_drop; lia).
  unfold send_rest. rewrite (holds_next _ _ _ Hl), (holds_next _ _ _ Hf), Hlen.
  replace (i + Z.of_nat k + Z.of_nat n) with (i + Z.of_nat (k + n)) by lia. replace (i + Z.of_nat (length es) - (i + Z.of_nat (k + n))) with (Z.of_nat (length es - (k + n))) by lia.
  rewrite (holds_pack _ _ _ _ _ Hl) by lia. rewrite take_ge by (rewrite length_drop; lia).
  destruct (holds_apply follower (i + Z.of_nat k) (take n (drop k es)) (drop (k + n) es) Hf) as (f' & Happ & Hf'); [|done|by apply Forall_drop|rewrite length_drop; lia|].
  { intros Hnil. apply (f_equal length) in Hnil. rewrite length_drop in Hnil. cbn in Hnil. lia. }
  rewrite Hlen in Happ. replace (i + Z.of_nat k + Z.of_nat n) with (i + Z.of_nat (k + n)) in Happ by lia. rewrite <- drop_drop, take_drop in Hf'.
  exists f'. split; [done|]. split; [done|]. split; [rewrite (holds_next _ _ _ Hf'), length_drop; lia|]. intros j e Hj He. split; [by apply (holds_entry _ _ _ _ _ Hl)|].
  replace (i + Z.of_nat j) with (i + Z.of_nat k + Z.of_nat (j - k)) by lia. apply (holds_entry _ _ _ _ _ Hf'). rewrite lookup_drop. by replace (k + (j - k))%nat with j by lia.
Qed.
End replication.

(** ** An example *)

(** Integers and entries in little endian, as the library writes them. *)
#[local] Instance plain_nuraft : Nuraft := {
  put_int z := write_le 4 z;
  get_int s := match read_signed 4 s with Ok r => Some r | Throw _ => None end;
  serialize e := write_le 8 (term e) ++ write_le 1 (val_type e) ++ buf e;
  deserialize s := mkEntry (le_value (take 8 s)) (le_value (take 1 (drop 8 s))) (drop 9 s)
}.

#[local] Instance plain_laws : NuraftLaws.
Proof.
  split.
  - intros z rest Hz. cbn [put_int get_int plain_nuraft]. by rewrite (reads_signed 4 z ltac:(lia) Hz rest).
  - intros [t v b] Ht Hv. cbn [term val_type buf serialize deserialize plain_nuraft] in *.
    unfold write_le. rewrite take_app_length', drop_app_length' by by rewrite le_bytes_length. rewrite take_app_length' by by rewrite le_bytes_length.
    rewrite app_assoc, drop_app_length' by by rewrite length_app, !le_bytes_length.
    by rewrite !le_value_bytes by (cbn; lia).
Qed.

Definition example_log : list log_entry := [put 1; put 2; put 3].

(** The leader has its log in files of two entries, the follower has the second entry in memory. *)
Lemma follower_catches_up_witness :
  exists (leader : Changelog.t) (follower : Memory.t), disk_holds 4 2 leader 1 example_log /\
    follower = Memory.mk {[ 0 := fake_entry; 2 := put 2 ]} 2 /\
    exists follower', @send_rest _ _ (Disk.disk_ops 4) _ leader follower = Some (follower', Ok tt) /\ Memory.next_slot follower' = 4 /\ Memory.entry_at 3 follower' = Some (put 3).
Proof.
  destruct (start_holds 4 2 1 ltac:(lia) ltac:(lia) ltac:(lia)) as (c0 & _ & H0).
  assert (D0 : disk_holds 4 2 c0 1 []) by (split; [lia|]; split; [cbn; lia|]; by exists [], []).
  assert (Hv : forall n, 0 <= n < 4 -> valid_entry 4 (put n)) by (intros n Hn; split; [cbn; lia|]; split; [cbn; lia|]; cbn; lia).
  destruct (disk_append 4 2 ltac:(lia) c0 1 [] (put 1) D0) as (c1 & _ & D1); [split; [cbn; lia|constructor; [apply Hv; lia|constructor]]|].
  destruct (disk_append 4 2 ltac:(lia) c1 1 [put 1] (put 2) D1) as (c2 & _ & D2); [split; [cbn; lia|constructor; [apply Hv; lia|constructor]]|].
  destruct (disk_append 4 2 ltac:(lia) c2 1 [put 1; put 2] (put 3) D2) as (c3 & _ & D3); [split; [cbn; lia|constructor; [apply Hv; lia|constructor]]|].
  exists c3, (Memory.mk {[ 0 := fake_entry; 2 := put 2 ]} 2). split; [exact D3|]. split; [reflexivity|].
  destruct (@follower_catches_up _ _ _ (Disk.disk_ops 4) _ (disk_store 4 2 Nat.lt_0_2) memory_store c3 (Memory.mk {[ 0 := fake_entry; 2 := put 2 ]} 2) 1 example_log 1 1)
    as (f' & Hsend & Hh & Hnext & Hent).
  - exact D3.
  - split; [vm_compute; reflexivity|]. split; [reflexivity|]. split; [reflexivity|cbn; lia].
  - cbn. lia.
  - cbn. lia.
  - repeat constructor; cbn; lia.
  - cbn. lia.
  - exists f'. split; [exact Hsend|]. split; [exact (memory_next f' _ _ Hh)|]. apply (Hent 2%nat (put 3)); [lia|reflexivity].
Defined.

(** ** What goes wrong *)

(** Compaction up to an index before the first one moves the first index back: the next slot is one that is taken. *)
Lemma compaction_moves_back :
  let s := (Memory.append (put 1) (Memory.compact 4 Memory.empty_store)).1 in
  memory_holds s 5 [put 1] /\ Memory.next_slot s = 6 /\ Memory.next_slot (Memory.compact 3 s) = 5 /\ Memory.entry_at 5 (Memory.compact 3 s) = Some (put 1).
Proof. split; [split; [vm_compute; reflexivity|]; split; [reflexivity|]; cbn; lia|]. by vm_compute. Qed.

(** A pack without entries applied to a store whose entries are all compacted makes it begin at 1 again. *)
Lemma empty_pack_resets :
  let s := Memory.compact 4 Memory.empty_store in
  memory_holds s 5 [] /\ (fun r => Memory.next_slot r.1) <$> Memory.apply_pack 5 (pack_bytes []) s = Some 1.
Proof. split; [split; [vm_compute; reflexivity|]; split; [reflexivity|]; cbn; lia|]. by vm_compute. Qed.

(** A missing entry is the dummy in memory and no entry on disk. *)
Lemma missing_entry_differs : Memory.entry_at 7 Memory.empty_store = Some fake_entry /\ entryAt (open_files 2 [] ∅) 7 = None.
Proof. by vm_compute. Qed.
