(* ===== verification/StateManager.v ===== *)
(** * StateManager: the servers of the coordination service and when one begins to serve

    Models src/src/Coordination/KeeperStateManager.{h,cpp}, which reads the servers of the Raft cluster from the configuration, and from
    src/src/Coordination/KeeperServer.cpp the parameters of the Raft library that depend on it and the callback that tells
    when the server has caught up and may serve.  The configuration is Poco's, a parameter; the events come from the Raft library. *)

From S2P Require Import Prelude TextFormat KafkaConfig KeeperStorage KeeperSnapshotFiles.
Import Manager.
Local Open Scope Z_scope.

Module StateManager.
Section configuration.
Context (config : Configuration).

(** [getString] throws for a key that is not there, the others have a default. *)
Definition getString (key : str) : result str := if conf_has config key then Ok (conf_getString config key) else Throw PocoException.
Definition getString_or (key default : str) : str := if conf_has config key then conf_getString config key else default.
Definition getBool_or (key : str) (default : bool) : result bool := if conf_has config key then conf_getBool config key else Ok default.
Definition getInt_or (key : str) (default : Z) : result Z := if conf_has config key then conf_getInt config key else Ok default.

Definition DBMS_DEFAULT_PATH : str := lit "/var/lib/clickhouse/".
Definition KEEPER_DEFAULT_PATH : str := lit "/var/lib/clickhouse-keeper/".

Definition getLogsPathFromConfig (config_prefix : str) (standalone_keeper : bool) : str :=
  if conf_has config (config_prefix ++ lit ".log_storage_path") then conf_getString config (config_prefix ++ lit ".log_storage_path")
  else if conf_has config (config_prefix ++ lit ".storage_path") then join_path (conf_getString config (config_prefix ++ lit ".storage_path")) (lit "logs")
  else if standalone_keeper then join_path (getString_or (lit "path") KEEPER_DEFAULT_PATH) (lit "logs")
  else join_path (getString_or (lit "path") DBMS_DEFAULT_PATH) (lit "coordination/logs").

Definition getSnapshotsPathFromConfig (standalone_keeper : bool) : str :=
  if conf_has config (lit "keeper_server.snapshot_storage_path") then conf_getString config (lit "keeper_server.snapshot_storage_path")
  else if conf_has config (lit "keeper_server.storage_path") then join_path (conf_getString config (lit "keeper_server.storage_path")) (lit "snapshots")
  else if standalone_keeper then join_path (getString_or (lit "path") KEEPER_DEFAULT_PATH) (lit "snapshots")
  else join_path (getString_or (lit "path") DBMS_DEFAULT_PATH) (lit "coordination/snapshots").

(** The configuration of one server, and the manager. *)
Record srv_config : Type := mkSrv { srv_id : Z; srv_endpoint : str; srv_learner : bool; srv_priority : Z }.

Record manager : Type := mkManager {
  my_server_id : Z;
  my_port : option Z;
  secure : bool;
  total_servers : Z;
  start_as_follower_servers : gset Z;
  my_server_config : option srv_config;
  cluster_servers : list srv_config
}.

(** One key of the section with the servers. *)
Definition read_server (config_prefix server_key : str) (m : manager) : result manager :=
  if negb (startsWith server_key (lit "server")) then Ok m
  else
    let full_prefix := config_prefix ++ lit ".raft_configuration." ++ server_key in
    server_id ← conf_getInt config (full_prefix ++ lit ".id");
    hostname ← getString (full_prefix ++ lit ".hostname");
    port ← conf_getInt config (full_prefix ++ lit ".port");
    can_become_leader ← getBool_or (full_prefix ++ lit ".can_become_leader") true;
    priority ← getInt_or (full_prefix ++ lit ".priority") 1;
    start_as_follower ← getBool_or (full_prefix ++ lit ".start_as_follower") false;
    let followers := if (start_as_follower : bool) then {[ server_id ]} ∪ start_as_follower_servers m else start_as_follower_servers m in
    let peer := mkSrv server_id (hostname ++ lit ":" ++ writeIntText port) (negb can_become_leader) priority in
    let mine := bool_decide (server_id = my_server_id m) in
    Ok (mkManager (my_server_id m) (if mine then Some port else my_port m) (secure m) (total_servers m) followers
          (if mine then Some peer else my_server_config m) (cluster_servers m ++ [peer])).

Fixpoint read_servers (config_prefix : str) (keys : list str) (m : manager) : result manager :=
  match keys with
  | [] => Ok m
  | k :: keys => m ← read_server config_prefix k m; read_servers config_prefix keys m
  end.

(** The constructor. *)
Definition create_manager (id : Z) (config_prefix : str) : result manager :=
  secure ← getBool_or (config_prefix ++ lit ".raft_configuration.secure") false;
  let keys := conf_keys config (config_prefix ++ lit ".raft_configuration") in
  m ← read_servers config_prefix keys (mkManager id None secure (Z.of_nat (length keys)) ∅ None []);
  match my_server_config m with
  | None => Throw (DBException ErrorCodes.RAFT_ERROR)
  | Some _ =>
      if decide (size (start_as_follower_servers m) = length (cluster_servers m)) then Throw (DBException ErrorCodes.RAFT_ERROR) else Ok m
  end.

Definition shouldStartAsFollower (m : manager) : bool := bool_decide (my_server_id m ∈ start_as_follower_servers m).
End configuration.

(** From [startup]: a single server has no elections. *)
Record raft_times : Type := mkTimes { heart_beat_interval : Z; election_timeout_lower_bound : Z; election_timeout_upper_bound : Z }.
Definition startup_times (m : manager) (settings : raft_times) : raft_times := if decide (total_servers m = 1) then mkTimes 0 0 0 else settings.

(** ** When the server is ready *)

(** An event of the Raft library, with what the library answers when it is asked. *)
Inductive raft_event : Type :=
| BecomeLeader
| BecomeFollower (leader_id leader_committed our_committed : Z)
| GotAppendEntryReqFromLeader (leader_id leader_committed our_committed : Z)
| BecomeFresh
| InitialBatchCommited (my_id leader_id : Z)
| OtherEvent.

Record init_state : Type := mkInit { initialized_flag : bool; initial_batch_committed : bool }.

Definition set_initialized (s : init_state) : init_state := mkInit true (initial_batch_committed s).

(** The log is empty or applied. *)
Definition commited_store (last_commited next_index : Z) : bool := (next_index <? last_commited) || (wrap 64 (next_index - last_commited) <=? 1).

Definition caught_up (fresh_log_gap leader_id leader_index our_index : Z) : bool :=
  negb (leader_id =? -1) && (leader_index <? wrap 64 (our_index + fresh_log_gap)).

Definition callbackFunc (fresh_log_gap last_commited next_index : Z) (e : raft_event) (s : init_state) : init_state :=
  if initialized_flag s then s
  else match e with
       | BecomeLeader => if commited_store last_commited next_index || initial_batch_committed s then set_initialized s else s
       | BecomeFollower leader li oi | GotAppendEntryReqFromLeader leader li oi => if caught_up fresh_log_gap leader li oi then set_initialized s else s
       | BecomeFresh => set_initialized s
       | InitialBatchCommited my_id leader_id =>
           mkInit (if my_id =? leader_id then true else initialized_flag s) true
       | OtherEvent => s
       end.

(** [waitInit]: [waited] is the flag when the condition variable has woken up or the time is over. *)
Definition waitInit (waited : init_state) : result unit := if initialized_flag waited then Ok tt else Throw (DBException ErrorCodes.RAFT_ERROR).
End StateManager.
Import StateManager.

(** ** The servers *)

Section servers.
Context (config : Configuration).

(** A value that is read, or else the whole has thrown. *)
Local Ltac read_value x := lazymatch goal with |- (?r ≫= _ = _) -> _ => destruct r as [x|]; cbn [mbind result_bind]; [|done] end.

(** What reading the servers keeps true. *)
Record servers_ok (m : manager) : Prop := {
  so_mine : forall peer, my_server_config m = Some peer -> peer ∈ cluster_servers m /\ srv_id peer = my_server_id m /\ is_Some (my_port m);
  so_listed : forall peer, peer ∈ cluster_servers m -> srv_id peer = my_server_id m -> is_Some (my_server_config m);
  so_followers : forall id, id ∈ start_as_follower_servers m -> id ∈ map srv_id (cluster_servers m)
}.

Lemma read_server_ok prefix k m m' : servers_ok m -> read_server config prefix k m = Ok m' ->
  servers_ok m' /\ my_server_id m' = my_server_id m /\ total_servers m' = total_servers m /\
  length (cluster_servers m') = (length (cluster_servers m) + if startsWith k (lit "server") then 1 else 0)%nat.
Proof.
  intros [H1 H2 H3]. unfold read_server. destruct (startsWith k (lit "server")); cbn [negb]; [|intros [= <-]; by rewrite Nat.add_0_r].
  read_value sid. read_value h. read_value port. read_value lead. read_value prio. read_value fol.
  intros [= <-]. cbn. split; [|split; [done|]; split; [done|]; by rewrite length_app]. split; cbn.
  - intros peer. case_bool_decide as Hid; [intros [= <-]; split; [set_solver|]; split; [done|by eexists]|]. intros Hp. destruct (H1 peer Hp) as (? & ? & ?). split; [set_solver|done].
  - intros peer Hin Hid. case_bool_decide as Hmine; [by eexists|]. apply elem_of_app in Hin as [Hin|Hin]; [by eapply H2|]. apply list_elem_of_singleton in Hin as ->. done.
  - intros x Hx. rewrite map_app. apply elem_of_app. destruct fol; [|left; by apply H3].
    apply elem_of_union in Hx as [->%elem_of_singleton|Hx]; [right; by left|left; by apply H3].
Qed.

Lemma read_servers_ok prefix keys m m' : servers_ok m -> read_servers config prefix keys m = Ok m' ->
  servers_ok m' /\ my_server_id m' = my_server_id m /\ total_servers m' = total_servers m /\
  length (cluster_servers m') = (length (cluster_servers m) + length (filter (fun k => startsWith k (lit "server") = true) keys))%nat.
Proof.
  revert m. induction keys as [|k keys IH]; intros m Hm; cbn [read_servers]; [intros [= <-]; by rewrite Nat.add_0_r|].
  destruct (read_server config prefix k m) as [m1|] eqn:E; cbn [mbind result_bind]; [|done]. destruct (read_server_ok prefix k m m1 Hm E) as (Hm1 & I1 & T1 & L1).
  intros (Hm' & -> & -> & ->)%(IH m1 Hm1). split; [done|]. split; [done|]. split; [done|]. rewrite L1, filter_cons.
  destruct (startsWith k (lit "server")); cbn [length]; [rewrite decide_True by done|rewrite decide_False by done]; cbn [length]; lia.
Qed.

(** A manager that is created knows its own server, which is in the configuration, and lists all servers of it.  If the servers have different ids, one of
    them may start as the leader. *)
Lemma create_manager_ok id prefix m : create_manager config id prefix = Ok m ->
  (exists peer, my_server_config m = Some peer /\ peer ∈ cluster_servers m /\ srv_id peer = id /\ is_Some (my_port m)) /\
  length (cluster_servers m) = length (filter (fun k => startsWith k (lit "server") = true) (conf_keys config (prefix ++ lit ".raft_configuration"))) /\
  (NoDup (map srv_id (cluster_servers m)) -> exists peer, peer ∈ cluster_servers m /\ srv_id peer ∉ start_as_follower_servers m).
Proof.
  unfold create_manager. read_value sec.
  destruct (read_servers config prefix _ _) as [m0|] eqn:E; cbn [mbind result_bind]; [|done].
  apply read_servers_ok in E as (Hm & Hid & _ & Hlen); [|split; cbn; [done|set_solver|set_solver]]. cbn in Hid, Hlen.
  destruct (my_server_config m0) as [peer|] eqn:Ep; [|done]. case_decide as Hsize; [done|]. intros [= <-]. destruct Hm as [H1 _ H3]. split; [|split; [done|]].
  - destruct (H1 peer Ep) as (? & ? & ?). exists peer. by rewrite <- Hid.
  - intros Hnd. destruct (decide (Exists (fun p => srv_id p ∉ start_as_follower_servers m0) (cluster_servers m0))) as [Hex|Hno]; [by apply Exists_exists in Hex|].
    exfalso. apply Hsize. assert (Heq : start_as_follower_servers m0 = list_to_set (map srv_id (cluster_servers m0))).
    { apply set_eq. intros x. rewrite elem_of_list_to_set. split; [apply H3|]. intros (p & -> & Hp)%list_elem_of_fmap.
      destruct (decide (srv_id p ∈ start_as_follower_servers m0)) as [|Hn]; [done|]. destruct Hno. apply Exists_exists. eauto. }
    rewrite Heq, size_list_to_set by done. apply length_map.
Qed.
End servers.

(** ** Readiness *)

(** A call of the callback: the event with what is committed and the next slot of the log. *)
Definition callback_run (gap : Z) (s : init_state) (calls : list (Z * Z * raft_event)) : init_state :=
  foldl (fun s c => callbackFunc gap c.1.1 c.1.2 c.2 s) s calls.

(** The events that make a server ready: it leads and its log is applied, it follows closely, or its first batch as the leader is committed. *)
Definition makes_ready (gap : Z) (batch_before : bool) (c : Z * Z * raft_event) : bool :=
  match c.2 with
  | BecomeLeader => commited_store c.1.1 c.1.2 || batch_before
  | BecomeFollower leader li oi | GotAppendEntryReqFromLeader leader li oi => caught_up gap leader li oi
  | BecomeFresh => true
  | InitialBatchCommited my_id leader_id => my_id =? leader_id
  | OtherEvent => false
  end.

Definition is_initial_batch (c : Z * Z * raft_event) : bool := match c.2 with InitialBatchCommited _ _ => true | _ => false end.

(** The server is ready exactly when such an event came, and stays so. *)
Fixpoint became_ready (gap : Z) (batch_before : bool) (calls : list (Z * Z * raft_event)) : bool :=
  match calls with
  | [] => false
  | c :: calls => makes_ready gap batch_before c || became_ready gap (batch_before || is_initial_batch c) calls
  end.

Lemma ready_stays gap s calls : initialized_flag s = true -> callback_run gap s calls = s.
Proof. intros Hs. unfold callback_run. induction calls as [|c calls IH]; [done|]. cbn [foldl]. unfold callbackFunc at 2. by rewrite Hs. Qed.

Lemma ready_spec gap b calls : initialized_flag (callback_run gap (mkInit false b) calls) = became_ready gap b calls.
Proof.
  revert b. induction calls as [|[[lc ni] e] calls IH]; intros b; [done|]. unfold callback_run. cbn [foldl fst snd became_ready]. fold (callback_run gap).
  change (initialized_flag (callback_run gap (callbackFunc gap lc ni e (mkInit false b)) calls) = makes_ready gap b (lc, ni, e) || became_ready gap (b || is_initial_batch (lc, ni, e)) calls).
  assert (Hs : callbackFunc gap lc ni e (mkInit false b) = mkInit (makes_ready gap b (lc, ni, e)) (b || is_initial_batch (lc, ni, e))).
  { unfold callbackFunc, makes_ready, is_initial_batch. cbn [initialized_flag fst snd]. destruct e; cbn; rewrite ?orb_false_r, ?orb_true_r; repeat case_match; done. }
  rewrite Hs. destruct (makes_ready gap b (lc, ni, e)); cbn [orb]; [by rewrite ready_stays|apply IH].
Qed.

(** ** What goes wrong *)

(** A section with the given keys, and the values below them. *)
Definition example_config (keys : list str) (hosts : list str) (ints : list (str * Z)) (flags : list (str * bool)) : Configuration :=
  let name k := lit "keeper_server.raft_configuration." ++ k in
  let host_map : gmap str str := list_to_map (map (fun k => (name k ++ lit ".hostname", lit "host")) hosts) in
  let int_map : gmap str Z := list_to_map (map (fun kz => (name kz.1, kz.2)) ints) in
  let flag_map : gmap str bool := list_to_map (map (fun kb => (name kb.1, kb.2)) flags) in
  mkConfig (fun k => bool_decide (is_Some (host_map !! k)) || bool_decide (is_Some (int_map !! k)) || bool_decide (is_Some (flag_map !! k)))
    (fun k => default [] (host_map !! k)) (fun k => match int_map !! k with Some z => Ok z | None => Throw PocoException end)
    (fun k => match flag_map !! k with Some b => Ok b | None => Throw PocoException end) (fun _ => keys).

(** A single server in a section that also says whether connections are secure: two servers are counted, and the times of a cluster are used. *)
Lemma secure_counted_as_server :
  let config := example_config [lit "secure"; lit "server"] [lit "server"] [(lit "server.id", 1); (lit "server.port", 44444)] [(lit "secure", true)] in
  exists m, create_manager config 1 (lit "keeper_server") = Ok m /\ length (cluster_servers m) = 1%nat /\ total_servers m = 2 /\
    startup_times m (mkTimes 500 1000 2000) = mkTimes 500 1000 2000.
Proof. eexists. split; [vm_compute; reflexivity|]. by vm_compute. Qed.

(** Two servers under one id, both started as followers: the check that one may lead counts ids and passes. *)
Lemma same_id_all_followers :
  let config := example_config [lit "server"; lit "server2"] [lit "server"; lit "server2"]
    [(lit "server.id", 1); (lit "server.port", 44444); (lit "server2.id", 1); (lit "server2.port", 44445)] [(lit "server.start_as_follower", true); (lit "server2.start_as_follower", true)] in
  exists m, create_manager config 1 (lit "keeper_server") = Ok m /\ Forall (fun p => srv_id p ∈ start_as_follower_servers m) (cluster_servers m).
Proof. eexists. split; [vm_compute; reflexivity|]. apply (bool_decide_unpack _). by vm_compute. Qed.
