(* ===== verification/PartInfo.v ===== *)
(** * PartInfo: parts of a table and their names

    Models src/src/Storages/MergeTree/MergeTreePartInfo.{h,cpp}: the partition, the blocks, the level and the mutation of
    a part, its name, and which part covers which.  Numbers are read by [readIntTextImpl] of src/src/IO/ReadHelpers.h with
    the check of overflows: its test for the number of digits is always true for an integer
    type ([max_digits10] is 0), so that every digit is checked.  The dates in the names of the
    old format are read but not turned into days. *)

From S2P Require Import Prelude TextFormat SequenceInfo.
Local Open Scope Z_scope.

Module PartInfo.
Definition MAX_LEVEL : Z := 999999999.
Definition LEGACY_MAX_LEVEL : Z := 4294967295.

Record MergeTreePartInfo : Type := mkPart {
  partition_id : str;
  min_block : Z;
  max_block : Z;
  level : Z;
  mutation : Z;
  use_leagcy_max_level : bool
}.

#[export] Instance part_eq_dec : EqDecision MergeTreePartInfo.
Proof. solve_decision. Defined.

(** [operator<], the tuples in lexicographic order. *)
Definition part_lt (a b : MergeTreePartInfo) : bool :=
  if str_lt (partition_id a) (partition_id b) then true else if str_lt (partition_id b) (partition_id a) then false
  else if min_block a <? min_block b then true else if min_block b <? min_block a then false
  else if max_block a <? max_block b then true else if max_block b <? max_block a then false
  else if level a <? level b then true else if level b <? level a then false
  else mutation a <? mutation b.

Definition part_eq (a b : MergeTreePartInfo) : bool := negb (part_lt a b || part_lt b a).

Definition getDataVersion (p : MergeTreePartInfo) : Z := if decide (mutation p <> 0) then mutation p else min_block p.

Definition contains (p rhs : MergeTreePartInfo) : bool :=
  bool_decide (partition_id p = partition_id rhs) && (min_block p <=? min_block rhs) && (max_block p >=? max_block rhs)
  && (level p >=? level rhs) && (mutation p >=? mutation rhs).

Definition isDisjoint (p rhs : MergeTreePartInfo) : bool :=
  bool_decide (partition_id p <> partition_id rhs) || (min_block p >? max_block rhs) || (max_block p <? min_block rhs).

Definition getBlocksCount (p : MergeTreePartInfo) : Z := wrap 64 (max_block p - min_block p + 1).

(** ** Names *)

Definition underscore : ascii := "_"%char.
Definition plus : ascii := "+"%char.

(** [readIntTextImpl] with the check: signs may stand anywhere. *)
Fixpoint read_checked (signed : bool) (limit : Z) (buf : str) (negative : bool) (res : Z) : option (bool * Z * str) :=
  match buf with
  | [] => Some (negative, res, [])
  | c :: rest =>
      if decide (c = plus) then read_checked signed limit rest negative res
      else if decide (c = ch_minus) then (if signed then read_checked signed limit rest true res else None)
      else if is_digit c then
        let v := res * 10 + (code c - 48) in
        if limit <? v then None else read_checked signed limit rest negative v
      else Some (negative, res, buf)
  end.

Definition tryReadIntText (signed : bool) (w : Z) (buf : str) : option (Z * str) :=
  match buf with
  | [] => None
  | _ => '(negative, res, rest) ← read_checked signed (if signed then 2 ^ (w - 1) - 1 else 2 ^ w - 1) buf false 0;
         Some (if (negative : bool) then - res else res, rest)
  end.

Definition checkChar (c : ascii) (buf : str) : option str :=
  match buf with
  | c' :: rest => if decide (c' = c) then Some rest else None
  | [] => None
  end.

(** The characters before the first underscore, which is dropped. *)
Fixpoint read_partition_id (buf : str) : str * str :=
  match buf with
  | [] => ([], [])
  | c :: rest => if decide (c = underscore) then ([], rest) else let '(id, rest) := read_partition_id rest in (c :: id, rest)
  end.

Definition tryParsePartName (part_name : str) (format_version : Z) : option MergeTreePartInfo :=
  '(id, buf) ← (if format_version <? 1
                then '(min_yyyymmdd, buf) ← tryReadIntText false 32 part_name;
                     buf ← checkChar underscore buf;
                     '(_, buf) ← tryReadIntText false 32 buf;
                     buf ← checkChar underscore buf;
                     Some (writeIntText (min_yyyymmdd / 100), buf)
                else Some (read_partition_id part_name));
  if decide (id = []) then None
  else
    '(min_block_num, buf) ← tryReadIntText true 64 buf;
    buf ← checkChar underscore buf;
    '(max_block_num, buf) ← tryReadIntText true 64 buf;
    buf ← checkChar underscore buf;
    '(lvl, buf) ← tryReadIntText false 32 buf;
    if max_block_num <? min_block_num then None
    else
      mut ← match buf with
            | [] => Some 0
            | _ => buf ← checkChar underscore buf;
                   '(m, buf) ← tryReadIntText false 32 buf;
                   match buf with [] => Some m | _ => None end
            end;
      let legacy := bool_decide (lvl = LEGACY_MAX_LEVEL) in
      Some (mkPart id min_block_num max_block_num (if legacy then MAX_LEVEL else lvl) mut legacy).

Definition fromPartName (part_name : str) (format_version : Z) : result MergeTreePartInfo :=
  match tryParsePartName part_name format_version with
  | Some p => Ok p
  | None => Throw (DBException ErrorCodes.BAD_DATA_PART_NAME)
  end.

(** What follows the partition in a name. *)
Definition name_tail (p : MergeTreePartInfo) : str :=
  writeIntText (min_block p) ++ [underscore] ++ writeIntText (max_block p) ++ [underscore]
  ++ writeIntText (if use_leagcy_max_level p then LEGACY_MAX_LEVEL else level p)
  ++ (if decide (mutation p <> 0) then [underscore] ++ writeIntText (mutation p) else []).

Definition getPartName (p : MergeTreePartInfo) : str := partition_id p ++ [underscore] ++ name_tail p.

(** The dates are those of [toNumYYYYMMDD]. *)
Definition getPartNameV0 (left_date_id right_date_id : Z) (p : MergeTreePartInfo) : str :=
  writeIntText left_date_id ++ [underscore] ++ writeIntText right_date_id ++ [underscore] ++ name_tail p.

(** ** Detached parts *)

(** The part if the name was understood, and the prefix. *)
Definition tryParseDetachedPartName (dir_name : str) (format_version : Z) : option MergeTreePartInfo * str :=
  match tryParsePartName dir_name format_version with
  | Some p => (Some p, [])
  | None =>
      if decide (underscore ∈ dir_name) then
        let '(prefix, part_name) := read_partition_id dir_name in
        match tryParsePartName part_name format_version with
        | Some p => (Some p, prefix)
        | None => (None, dir_name)
        end
      else (None, dir_name)
  end.
End PartInfo.
Import PartInfo.

(** ** Names are read back *)

(** What a number ends at. *)
Definition number_ends (rest : str) : Prop := match rest with [] => True | c :: _ => is_digit c = false /\ c <> plus /\ c <> ch_minus end.

Lemma digits_grow ds acc : 0 <= acc -> Forall (fun c => is_digit c = true) ds -> acc <= foldl (fun acc c => acc * 10 + (code c - 48)) acc ds.
Proof.
  intros Ha Hd. revert acc Ha. induction Hd as [|c ds Hc _ IH]; intros acc Ha; [cbn; lia|]. cbn [foldl]. unfold is_digit in Hc. boolify.
  specialize (IH (acc * 10 + (code c - 48)) ltac:(lia)). lia.
Qed.

Lemma read_checked_digits signed limit ds rest negative acc :
  0 <= acc -> Forall (fun c => is_digit c = true) ds -> number_ends rest -> foldl (fun acc c => acc * 10 + (code c - 48)) acc ds <= limit ->
  read_checked signed limit (ds ++ rest) negative acc = Some (negative, foldl (fun acc c => acc * 10 + (code c - 48)) acc ds, rest).
Proof.
  intros Ha Hd Hr. revert acc Ha. induction Hd as [|c ds Hc Hd IH]; intros acc Ha Hl; cbn [app foldl read_checked] in *.
  - destruct rest as [|c rest]; [done|]. destruct Hr as (H1 & H2 & H3). cbn [read_checked]. rewrite !decide_False by done. by rewrite H1.
  - rewrite decide_False by (intros ->; by vm_compute in Hc). rewrite decide_False by by apply is_digit_not_minus. rewrite Hc. unfold is_digit in Hc. boolify.
    pose proof (digits_grow ds (acc * 10 + (code c - 48)) ltac:(lia) Hd). rewrite (proj2 (Z.ltb_ge _ _)) by lia. by apply IH; [lia|].
Qed.

Lemma try_read_written signed w z rest :
  number_ends rest -> (if signed : bool then - 2 ^ (w - 1) < z < 2 ^ (w - 1) else 0 <= z < 2 ^ w) ->
  tryReadIntText signed w (writeIntText z ++ rest) = Some (z, rest).
Proof.
  intros Hr Hz. unfold tryReadIntText. pose proof (writeIntText_nonempty z) as Hne. destruct (writeIntText z ++ rest) as [|c s] eqn:E; [by destruct (writeIntText z)|].
  rewrite <- E. clear E c s. unfold writeIntText.
  pose proof (dec_digits_digits (S (Z.to_nat (Z.log2 (Z.abs z)))) (Z.abs z) (Z.abs_nonneg z)) as Hds.
  pose proof (dec_digits_value _ _ (dec_fuel_enough (Z.abs z) (Z.abs_nonneg z))) as Hv. unfold digits_value in Hv.
  destruct (z <? 0) eqn:E; boolify.
  - rewrite Z.abs_neq in * by lia. destruct signed; [|lia]. cbn [app read_checked]. rewrite decide_False, decide_True by done.
    rewrite read_checked_digits by (done || lia). cbn [mbind option_bind]. rewrite Hv. f_equal. f_equal. lia.
  - rewrite Z.abs_eq in * by lia. rewrite read_checked_digits; [cbn [mbind option_bind]; by rewrite Hv|done|done|done|rewrite Hv; destruct signed; lia].
Qed.

Lemma read_partition_id_app id rest : underscore ∉ id -> read_partition_id (id ++ underscore :: rest) = (id, rest).
Proof.
  induction id as [|c id IH]; intros Hid; cbn [app read_partition_id]; [by rewrite decide_True|].
  rewrite decide_False by set_solver. by rewrite IH by set_solver.
Qed.

(** Parts as the code makes them; the mutation is a version below 2^32. *)
Definition nameable (p : MergeTreePartInfo) : Prop :=
  partition_id p <> [] /\ underscore ∉ partition_id p /\ - 2 ^ 63 < min_block p /\ min_block p <= max_block p < 2 ^ 63 /\ 0 <= mutation p < 2 ^ 32 /\
  (if use_leagcy_max_level p then level p = MAX_LEVEL else 0 <= level p < LEGACY_MAX_LEVEL).

(** A part is read back from its name. *)
Lemma part_name_round_trip (p : MergeTreePartInfo) (format_version : Z) :
  1 <= format_version -> nameable p -> tryParsePartName (getPartName p) format_version = Some p.
Proof.
  intros Hf (Hid & Hu & Hmin & Hmax & Hmut & Hlev). unfold tryParsePartName, getPartName. rewrite (proj2 (Z.ltb_ge _ _)) by lia. cbn [mbind option_bind].
  cbn [app]. rewrite read_partition_id_app, decide_False by done. unfold name_tail. cbn [app].
  assert (Hend : forall s, number_ends (underscore :: s)) by by intros s.
  rewrite try_read_written by (apply Hend || lia). cbn [mbind option_bind app checkChar]. rewrite decide_True by done. cbn [mbind option_bind].
  rewrite try_read_written by (apply Hend || lia). cbn [mbind option_bind app checkChar]. rewrite decide_True by done. cbn [mbind option_bind].
  set (lvl := if use_leagcy_max_level p then LEGACY_MAX_LEVEL else level p).
  assert (Hl : 0 <= lvl < 2 ^ 32) by (unfold lvl, LEGACY_MAX_LEVEL in *; destruct (use_leagcy_max_level p); lia).
  assert (Hres : mkPart (partition_id p) (min_block p) (max_block p) (if bool_decide (lvl = LEGACY_MAX_LEVEL) then MAX_LEVEL else lvl) (mutation p) (bool_decide (lvl = LEGACY_MAX_LEVEL)) = p).
  { destruct p as [id mn mx lv mt leg]. cbn in *. subst lvl. destruct leg; [rewrite bool_decide_eq_true_2 by done; by rewrite Hlev|rewrite bool_decide_eq_false_2 by lia; done]. }
  destruct (decide (mutation p <> 0)) as [Hm|Hm].
  - rewrite try_read_written by (apply Hend || lia). cbn [mbind option_bind app checkChar]. rewrite (proj2 (Z.ltb_ge _ _)) by lia. rewrite decide_True by done.
    cbn [mbind option_bind]. rewrite <- (app_nil_r (writeIntText (mutation p))), try_read_written by (done || lia). cbn [mbind option_bind]. by rewrite Hres.
  - rewrite try_read_written by (done || lia). cbn [mbind option_bind]. rewrite (proj2 (Z.ltb_ge _ _)) by lia. replace (mutation p) with 0 in Hres by lia. by rewrite Hres.
Qed.

Lemma part_name_round_trip_witness :
  tryParsePartName (lit "202107_3_17_2_19") 1 = Some (mkPart (lit "202107") 3 17 2 19 false) /\ getPartName (mkPart (lit "202107") 3 17 2 19 false) = lit "202107_3_17_2_19".
Proof.
  assert (Hn : getPartName (mkPart (lit "202107") 3 17 2 19 false) = lit "202107_3_17_2_19") by (vm_compute; reflexivity). split; [|exact Hn].
  rewrite <- Hn. apply part_name_round_trip; [lia|]. repeat split; cbn; try lia; try done. apply (bool_decide_unpack _). vm_compute. exact I.
Defined.

(** The mutation of a part is a number of 64 bits, and is read from a name as one of 32. *)
Lemma large_mutation_not_read : tryParsePartName (getPartName (mkPart (lit "all") 1 1 0 (2 ^ 32) false)) 1 = None.
Proof. by vm_compute. Qed.

(** A number without digits is zero: several names are read as the same part. *)
Lemma names_not_unique : tryParsePartName (lit "all___0") 1 = tryParsePartName (lit "all_0_0_0") 1 /\ tryParsePartName (lit "all_5-_-_0") 1 = Some (mkPart (lit "all") (-5) 0 0 0 false).
Proof. by vm_compute. Qed.
