(* ===== verification/PartSet.v ===== *)
(** * PartSet: the active parts of a table

    Models src/src/Storages/MergeTree/ActiveDataPartSet.{h,cpp}: a set of parts none of which covers another.  A part that is added replaces the
    parts it covers.  The set is an ordered map; only the neighbours of a part are looked at to find what covers it and
    what it covers.  The map is the list of its entries in the order of [operator<]; what [add] did before it threw stays. *)

From S2P Require Import Prelude TextFormat SequenceInfo PartInfo.
Import PartInfo.
Local Open Scope Z_scope.

Module PartSet.
Definition entry : Type := MergeTreePartInfo * str.

Section part_set.
Context (format_version : Z).

(** The entries before [lower_bound] and those from it on. *)
Fixpoint split_lower (p : MergeTreePartInfo) (m : list entry) : list entry * list entry :=
  match m with
  | [] => ([], [])
  | x :: m' => if part_lt x.1 p then let '(l, r) := split_lower p m' in (x :: l, r) else ([], m)
  end.

Definition getContainingPartImpl (p : MergeTreePartInfo) (m : list entry) : option entry :=
  let '(l, r) := split_lower p m in
  let previous := match last l with Some x => if contains x.1 p then Some x else None | None => None end in
  match r with
  | x :: _ => if contains x.1 p then Some x else previous
  | [] => previous
  end.

Definition getContainingPart (p : MergeTreePartInfo) (m : list entry) : str := match getContainingPartImpl p m with Some x => x.2 | None => [] end.

(** To the left, from the nearest on: what is left, the names in the order they are pushed, and whether a part intersects. *)
Fixpoint go_left (p : MergeTreePartInfo) (rl : list entry) : list entry * list str * bool :=
  match rl with
  | [] => ([], [], false)
  | x :: rl' =>
      if contains p x.1 then let '(rest, names, clash) := go_left p rl' in (rest, x.2 :: names, clash)
      else (rl, [], negb (isDisjoint p x.1))
  end.

(** To the right; an equal part is a duplicate. *)
Fixpoint go_right (p : MergeTreePartInfo) (r : list entry) : list entry * list str * bool :=
  match r with
  | [] => ([], [], false)
  | x :: r' =>
      if contains p x.1 then
        if part_eq p x.1 then (r, [], true)
        else let '(rest, names, duplicate) := go_right p r' in (rest, x.2 :: names, duplicate)
      else (r, [], false)
  end.

(** [add]: whether the part was added, and the names of the parts it replaced. *)
Definition add (name : str) (m : list entry) : list entry * result (bool * list str) :=
  match fromPartName name format_version with
  | Throw e => (m, Throw e)
  | Ok p =>
      match getContainingPartImpl p m with
      | Some _ => (m, Ok (false, []))
      | None =>
          let '(l, r) := split_lower p m in
          let '(rl, left_names, clash) := go_left p (rev l) in
          if (clash : bool) then (rev rl ++ r, Throw (DBException ErrorCodes.LOGICAL_ERROR))
          else
            let '(r, right_names, duplicate) := go_right p r in
            if (duplicate : bool) then (rev rl ++ r, Throw (DBException ErrorCodes.LOGICAL_ERROR))
            else
              let next_clashes := match r with x :: _ => negb (isDisjoint p x.1) | [] => false end in
              if next_clashes then (rev rl ++ r, Throw (DBException ErrorCodes.LOGICAL_ERROR))
              else (rev rl ++ (p, name) :: r, Ok (true, rev left_names ++ right_names))
      end
  end.

(** The constructor from names. *)
Fixpoint add_all (names : list str) (m : list entry) : list entry * result unit :=
  match names with
  | [] => (m, Ok tt)
  | n :: names =>
      match add n m with
      | (m, Ok _) => add_all names m
      | (m, Throw e) => (m, Throw e)
      end
  end.

(** The covered entries next to the middle, or [None] when one covers the part. *)
Fixpoint covered_run (p : MergeTreePartInfo) (xs : list entry) : option (list entry) :=
  match xs with
  | [] => Some []
  | x :: xs =>
      if contains p x.1 then option_map (cons x) (covered_run p xs)
      else if contains x.1 p then None else Some []
  end.

Definition getPartsCoveredBy (p : MergeTreePartInfo) (m : list entry) : list str :=
  let '(l, r) := split_lower p m in
  match covered_run p (rev l) with
  | None => []
  | Some before => match covered_run p r with None => [] | Some after => map snd (rev before ++ after) end
  end.

Definition remove (p : MergeTreePartInfo) (m : list entry) : list entry * bool :=
  (filter (fun x => part_eq x.1 p = false) m, bool_decide (Exists (fun x => part_eq x.1 p = true) m)).

Definition remove_name (name : str) (m : list entry) : list entry * result bool :=
  match fromPartName name format_version with
  | Throw e => (m, Throw e)
  | Ok p => let '(m, b) := remove p m in (m, Ok b)
  end.

Fixpoint remove_names (names : list str) (removed : bool) (m : list entry) : list entry * result bool :=
  match names with
  | [] => (m, Ok removed)
  | n :: names =>
      match remove_name n m with
      | (m, Ok b) => remove_names names (removed && b) m
      | (m, Throw e) => (m, Throw e)
      end
  end.

Definition removePartAndCoveredParts (part_name : str) (m : list entry) : list entry * result bool :=
  match fromPartName part_name format_version with
  | Throw e => (m, Throw e)
  | Ok p => remove_names (part_name :: getPartsCoveredBy p m) true m
  end.

Definition removePartsCoveredBy (part_name : str) (m : list entry) : list entry * result bool :=
  match fromPartName part_name format_version with
  | Throw e => (m, Throw e)
  | Ok p => remove_names (filter (fun n => n <> part_name) (getPartsCoveredBy p m)) true m
  end.

Definition getParts (m : list entry) : list str := map snd m.
End part_set.
End PartSet.
Import PartSet.

(** ** The order and the ranges *)

Definition ranged (p : MergeTreePartInfo) : Prop := min_block p <= max_block p.

Lemma contains_spec p x : contains p x = true <->
  partition_id p = partition_id x /\ min_block p <= min_block x /\ max_block x <= max_block p /\ level x <= level p /\ mutation x <= mutation p.
Proof. unfold contains. rewrite !andb_true_iff, bool_decide_eq_true, !Z.leb_le, !Z.geb_le. tauto. Qed.

Lemma isDisjoint_spec p x : isDisjoint p x = true <-> (partition_id p = partition_id x -> max_block x < min_block p \/ max_block p < min_block x).
Proof.
  unfold isDisjoint. rewrite !orb_true_iff, bool_decide_eq_true, Z.gtb_lt, Z.ltb_lt. destruct (decide (partition_id p = partition_id x)); naive_solver lia.
Qed.

Lemma isDisjoint_sym p x : isDisjoint p x = isDisjoint x p.
Proof. apply eq_true_iff_eq. rewrite !isDisjoint_spec. split; intros H E; destruct (H (eq_sym E)); auto. Qed.

Lemma disjoint_not_contained p x : ranged x -> isDisjoint p x = true -> contains p x = false.
Proof.
  intros Hx Hd. apply not_true_is_false. intros (Hid & H1 & H2 & _)%contains_spec. apply isDisjoint_spec in Hd; [|done]. unfold ranged in Hx. lia.
Qed.

Lemma part_lt_strict : strict_order part_lt.
Proof.
  split.
  - intros p. unfold part_lt. by rewrite str_lt_irrefl, !Z.ltb_irrefl.
  - intros a b c. unfold part_lt. intros H1 H2.
    destruct (str_lt (partition_id a) (partition_id b)) eqn:E1.
    + destruct (str_lt (partition_id b) (partition_id c)) eqn:E2; [by rewrite (str_lt_trans _ _ _ E1 E2)|].
      destruct (str_lt (partition_id c) (partition_id b)) eqn:E3; [done|]. rewrite <- (str_lt_total _ _ E2 E3). by rewrite E1.
    + destruct (str_lt (partition_id b) (partition_id a)) eqn:E2; [done|]. rewrite (str_lt_total _ _ E1 E2) in *.
      destruct (str_lt (partition_id b) (partition_id c)); [done|]. destruct (str_lt (partition_id c) (partition_id b)); [done|].
      repeat case_match; boolify; try done; lia.
Qed.

Lemma part_lt_min a b : part_lt a b = true -> partition_id a = partition_id b -> min_block a <= min_block b.
Proof. unfold part_lt. intros H E. rewrite E, str_lt_irrefl in H. repeat case_match; boolify; try done; lia. Qed.

Lemma part_nlt_min a b : part_lt a b = false -> partition_id a = partition_id b -> min_block b <= min_block a.
Proof. unfold part_lt. intros H E. rewrite E, str_lt_irrefl in H. repeat case_match; boolify; try done; lia. Qed.

Lemma part_lt_partition a b : part_lt a b = true -> str_lt (partition_id a) (partition_id b) = true \/ partition_id a = partition_id b.
Proof.
  unfold part_lt. destruct (str_lt (partition_id a) (partition_id b)) eqn:E1; [by left|]. destruct (str_lt (partition_id b) (partition_id a)) eqn:E2; [done|].
  right. by apply str_lt_total.
Qed.

(** A part between two of one partition is of that partition. *)
Lemma partition_between a b c : part_lt a b = true -> part_lt b c = true \/ part_lt c b = false -> partition_id a = partition_id c -> partition_id b = partition_id c.
Proof.
  intros H1 H2 E. apply part_lt_partition in H1 as [H1|H1]; [|congruence]. rewrite E in H1. destruct H2 as [H2|H2].
  - apply part_lt_partition in H2 as [H2|H2]; [|done]. pose proof (str_lt_trans _ _ _ H1 H2) as H. by rewrite str_lt_irrefl in H.
  - unfold part_lt in H2. by rewrite H1 in H2.
Qed.

Lemma part_incomparable a b : part_lt a b = false -> part_lt b a = false ->
  partition_id a = partition_id b /\ min_block a = min_block b /\ max_block a = max_block b /\ level a = level b /\ mutation a = mutation b.
Proof.
  unfold part_lt. destruct (str_lt (partition_id a) (partition_id b)) eqn:E1; [done|]. destruct (str_lt (partition_id b) (partition_id a)) eqn:E2; [done|].
  intros H1 H2. split; [by apply str_lt_total|]. repeat case_match; boolify; try done; lia.
Qed.

(** ** The set *)

(** One part comes before another and has no block in common with it. *)
Definition apart (x y : entry) : Prop := part_lt x.1 y.1 = true /\ isDisjoint x.1 y.1 = true.

(** The parts are in order, no two of them intersect, and each has its blocks in order. *)
Definition active (m : list entry) : Prop := StronglySorted apart m /\ Forall (fun x => ranged x.1) m.

Lemma apart_max x y : ranged x.1 -> ranged y.1 -> apart x y -> partition_id x.1 = partition_id y.1 -> max_block x.1 < min_block y.1.
Proof. intros Hx Hy [Hl Hd] E. pose proof (part_lt_min _ _ Hl E). apply isDisjoint_spec in Hd; [|done]. unfold ranged in *. lia. Qed.

Lemma active_app l r : active (l ++ r) -> active l /\ active r /\ forall x y, x ∈ l -> y ∈ r -> apart x y.
Proof.
  intros [Hs Hr]. apply Forall_app in Hr as [Hr1 Hr2]. induction l as [|z l IH]; [split; [by split; [constructor|]|]; split; [by split|]; intros x y Hx%elem_of_nil; done|].
  cbn in Hs. apply StronglySorted_inv in Hs as [Hs Hz]. apply Forall_cons in Hr1 as [Hz1 Hr1]. destruct (IH Hs Hr1) as ([S1 F1] & A2 & Hx).
  apply Forall_app in Hz as [Hz2 Hz3]. split; [split; [by constructor|by constructor]|]. split; [done|]. intros x y [->|Hx']%elem_of_cons Hy; [by eapply Forall_forall in Hz3|by apply Hx].
Qed.

Lemma split_lower_spec p m l r : split_lower p m = (l, r) ->
  m = l ++ r /\ Forall (fun x => part_lt x.1 p = true) l /\ match r with x :: _ => part_lt x.1 p = false | [] => True end.
Proof.
  revert l r. induction m as [|x m IH]; intros l r; cbn [split_lower]; [by intros [= <- <-]|]. destruct (part_lt x.1 p) eqn:Ex; [|intros [= <- <-]; done].
  destruct (split_lower p m) as [l' r'] eqn:E. intros [= <- <-]. destruct (IH l' r' eq_refl) as (-> & Hl & Hr). split; [done|]. split; [by constructor|done].
Qed.

Section neighbours.
Context (p : MergeTreePartInfo) (Hp : ranged p).

(** On the left: what lies before the nearest part neither covers [p] nor intersects it, unless the nearest does. *)
Lemma left_facts l0 z : active (l0 ++ [z]) -> Forall (fun x => part_lt x.1 p = true) (l0 ++ [z]) ->
  (forall x, x ∈ l0 -> contains x.1 p = false) /\ (contains p z.1 = true \/ isDisjoint p z.1 = true -> forall x, x ∈ l0 -> isDisjoint p x.1 = true).
Proof.
  intros Ha Hl. destruct (active_app _ _ Ha) as ([_ R1] & [_ R2] & Hap). apply Forall_app in Hl as [Hl Hz]. apply Forall_cons in R2 as [Rz _]. apply Forall_cons in Hz as [Hz _].
  assert (Hx : forall x, x ∈ l0 -> partition_id x.1 = partition_id p -> partition_id z.1 = partition_id p /\ max_block x.1 < min_block z.1 /\ min_block z.1 <= min_block p).
  { intros x Hx E. assert (Hxz : apart x z) by (apply Hap; [done|by left]). assert (Ez : partition_id z.1 = partition_id p) by (apply (partition_between x.1 z.1 p); [apply Hxz|by left|done]).
    split; [done|]. split; [|by apply part_lt_min]. apply apart_max; [by eapply Forall_forall in R1|done|done|congruence]. }
  unfold ranged in *. split.
  - intros x Hin. apply not_true_is_false. intros (E & H1 & H2 & _)%contains_spec. destruct (Hx x Hin E) as (_ & H3 & H4). lia.
  - intros Hnear x Hin. apply isDisjoint_spec. intros E. destruct (Hx x Hin (eq_sym E)) as (Ez & H3 & H4). left. destruct Hnear as [Hc|Hd].
    + apply contains_spec in Hc as (_ & H5 & _). lia.
    + apply isDisjoint_spec in Hd; [|done]. lia.
Qed.

(** On the right likewise. *)
Lemma right_facts z r0 : active (z :: r0) -> part_lt z.1 p = false ->
  (forall x, x ∈ r0 -> contains x.1 p = false) /\ (isDisjoint p z.1 = true -> forall x, x ∈ r0 -> isDisjoint p x.1 = true) /\ (forall x, x ∈ r0 -> part_lt x.1 p = false).
Proof.
  intros Ha Hz. destruct (active_app [z] r0 Ha) as ([_ R1] & [_ R2] & Hap). apply Forall_cons in R1 as [Rz _].
  assert (Hx : forall x, x ∈ r0 -> partition_id x.1 = partition_id p -> partition_id z.1 = partition_id p /\ max_block z.1 < min_block x.1 /\ min_block p <= min_block z.1).
  { intros x Hx E. assert (Hzx : apart z x) by (apply Hap; [by left|done]). assert (Ez : partition_id z.1 = partition_id p).
    { destruct Hzx as [Hzx _]. apply part_lt_partition in Hzx as [Hzx|Hzx]; [|congruence]. rewrite E in Hzx. unfold part_lt in Hz. by rewrite Hzx in Hz. }
    split; [done|]. split; [|by apply part_nlt_min]. apply apart_max; [done|by eapply Forall_forall in R2|done|congruence]. }
  unfold ranged in *. split; [|split].
  - intros x Hin. apply not_true_is_false. intros (E & H1 & H2 & _)%contains_spec. destruct (Hx x Hin E) as (_ & H3 & H4). lia.
  - intros Hd x Hin. apply isDisjoint_spec. intros E. destruct (Hx x Hin (eq_sym E)) as (Ez & H3 & H4). right. apply isDisjoint_spec in Hd; [|done]. lia.
  - intros x Hin. apply not_true_is_false. intros Hlt. assert (Hzx : apart z x) by (apply Hap; [by left|done]).
    by rewrite (so_trans _ part_lt_strict _ _ _ (proj1 Hzx) Hlt) in Hz.
Qed.

(** Looking at the neighbours finds the part that covers [p], if there is one. *)
Lemma containing_complete m x : active m -> getContainingPartImpl p m = Some x <-> x ∈ m /\ contains x.1 p = true.
Proof.
  intros Ha. unfold getContainingPartImpl. destruct (split_lower p m) as [l r] eqn:E. apply split_lower_spec in E as (-> & Hl & Hr).
  destruct (active_app _ _ Ha) as (Al & Ar & Hap).
  assert (Hleft : match last l with Some z => if contains z.1 p then Some z else None | None => None end = Some x <-> x ∈ l /\ contains x.1 p = true).
  { destruct l as [|z l0 _] using rev_ind; [cbn; set_solver|]. rewrite last_snoc. destruct (left_facts l0 z Al Hl) as [H1 _]. destruct (contains z.1 p) eqn:Ez.
    - split; [intros [= <-]; split; [set_solver|done]|]. intros [[Hx|Hx]%elem_of_app Hc]; [by rewrite H1 in Hc|]. apply list_elem_of_singleton in Hx as ->. done.
    - split; [done|]. intros [[Hx|Hx]%elem_of_app Hc]; [by rewrite H1 in Hc|]. apply list_elem_of_singleton in Hx as ->. congruence. }
  destruct r as [|z r0]; [by rewrite app_nil_r|]. destruct (right_facts z r0 Ar Hr) as (H1 & _ & _). destruct (contains z.1 p) eqn:Ez.
  - split; [intros [= <-]; split; [set_solver|done]|]. intros [[Hx|[->|Hx]%elem_of_cons]%elem_of_app Hc]; [|done|by rewrite H1 in Hc].
    exfalso. destruct (Hap x z Hx ltac:(by left)) as [_ Hd]. apply isDisjoint_spec in Hd; [|by apply contains_spec in Hc as [-> _]; apply contains_spec in Ez as [-> _]].
    apply contains_spec in Hc as (_ & ? & ? & _). apply contains_spec in Ez as (_ & ? & ? & _). unfold ranged in *. lia.
  - rewrite Hleft. split; [intros [? ?]; split; [set_solver|done]|]. intros [[Hx|[->|Hx]%elem_of_cons]%elem_of_app Hc]; [done|congruence|by rewrite H1 in Hc].
Qed.
End neighbours.

(** ** Adding a part *)

Definition covered (p : MergeTreePartInfo) (m : list entry) : list entry := filter (fun x => contains p x.1 = true) m.
Definition kept (p : MergeTreePartInfo) (m : list entry) : list entry := filter (fun x => contains p x.1 <> true) m.

(** A part that is covered or has no block in common is in order. *)
Definition harmless (p : MergeTreePartInfo) (x : entry) : Prop := contains p x.1 = true \/ isDisjoint p x.1 = true.

Lemma covered_app p a b : covered p (a ++ b) = covered p a ++ covered p b.
Proof. apply filter_app. Qed.
Lemma kept_app p a b : kept p (a ++ b) = kept p a ++ kept p b.
Proof. apply filter_app. Qed.
Lemma covered_only p m : Forall (fun x => contains p x.1 = true) m -> covered p m = m /\ kept p m = [].
Proof. intros Hm. split; [by apply filter_all|]. apply filter_none. eapply Forall_impl; [exact Hm|]. intros x Hx Hx'. done. Qed.

Lemma disjoint_all p m : Forall (fun x => ranged x.1) m -> (forall x, x ∈ m -> isDisjoint p x.1 = true) -> covered p m = [] /\ kept p m = m /\ Forall (harmless p) m.
Proof.
  intros Hr Hd. assert (Hn : Forall (fun x => contains p x.1 <> true) m).
  { apply Forall_forall. intros x Hx. rewrite disjoint_not_contained; [done|by eapply Forall_forall in Hr|by apply Hd]. }
  split; [by apply filter_none|]. split; [by apply filter_all|]. apply Forall_forall. intros x Hx. right. by apply Hd.
Qed.

Section adding.
Context (p : MergeTreePartInfo) (Hp : ranged p).

Lemma go_left_spec l : active l -> Forall (fun x => part_lt x.1 p = true) l ->
  exists rest names clash, go_left p (rev l) = (rest, names, clash) /\
    (clash = false -> rest = rev (kept p l) /\ names = rev (map snd (covered p l)) /\ Forall (harmless p) l) /\ (clash = true -> Exists (fun x => ~ harmless p x) l).
Proof.
  destruct l as [|z l0 _] using rev_ind; intros Ha Hl; [eexists _, _, _; split; [done|]; split; [|done]; intros _; split; [done|]; split; [done|constructor]|].
  rewrite rev_app_distr. cbn [rev app go_left]. destruct (left_facts p Hp l0 z Ha Hl) as [_ H2]. destruct Ha as [_ Hr]. apply Forall_app in Hr as [Hr Hz].
  unfold kept, covered. rewrite !filter_app. change (filter (fun x => contains p x.1 <> true) l0) with (kept p l0). change (filter (fun x => contains p x.1 = true) l0) with (covered p l0).
  destruct (contains p z.1) eqn:Ec; [|destruct (isDisjoint p z.1) eqn:Ed].
  - destruct (disjoint_all p l0 Hr (H2 ltac:(by left))) as (C & K & F).
    assert (Hg : go_left p (rev l0) = (rev l0, [], false)).
    { destruct l0 as [|y l1 _] using rev_ind; [done|]. rewrite rev_app_distr. cbn [rev app go_left]. assert (Hy : isDisjoint p y.1 = true) by (apply H2; [by left|set_solver]).
      rewrite (disjoint_not_contained p y.1), Hy; [done| |done]. eapply Forall_forall in Hr; [exact Hr|]. set_solver. }
    rewrite Hg. eexists _, _, _. split; [done|]. split; [|done]. intros _. rewrite C, K, filter_cons_False by (rewrite Ec; tauto). rewrite filter_cons_True by done.
    cbn. rewrite ?app_nil_r. split; [done|]. split; [done|]. apply Forall_app. split; [done|]. constructor; [by left|done].
  - destruct (disjoint_all p l0 Hr (H2 ltac:(by right))) as (C & K & F). eexists _, _, _. split; [done|]. split; [|done]. intros _.
    rewrite C, K, filter_cons_True by (rewrite Ec; done). rewrite filter_cons_False by (rewrite Ec; done). rewrite !filter_nil. split; [by rewrite rev_app_distr|]. split; [done|].
    apply Forall_app. split; [done|]. constructor; [by right|done].
  - eexists _, _, _. split; [done|]. split; [done|]. intros _. apply Exists_app. right. constructor. unfold harmless. rewrite Ec, Ed. by intros [?|?].
Qed.

(** The rest to the right of the parts that are covered. *)
Lemma go_right_spec r : active r -> match r with x :: _ => part_lt x.1 p = false | [] => True end -> (forall x, x ∈ r -> contains x.1 p = false) ->
  exists rest, go_right p r = (rest, map snd (take (length r - length rest) r), false) /\ r = take (length r - length rest) r ++ rest /\
    Forall (fun x => contains p x.1 = true) (take (length r - length rest) r) /\ match rest with x :: _ => contains p x.1 = false /\ part_lt x.1 p = false | [] => True end /\ active rest.
Proof.
  induction r as [|z r IH]; intros Ha Hz Hc; [exists []; cbn; repeat split; try done; constructor|]. cbn [go_right]. destruct (contains p z.1) eqn:Ec.
  - assert (Hne : part_eq p z.1 = false).
    { unfold part_eq. apply negb_false_iff, orb_true_iff. destruct (part_lt p z.1) eqn:E1; [by left|]. right. exfalso.
      destruct (part_incomparable _ _ E1 Hz) as (H1 & H2 & H3 & H4 & H5). assert (contains z.1 p = true) by (apply contains_spec; split; [done|lia]). by rewrite Hc in H by by left. }
    rewrite Hne. destruct (right_facts p z r Ha Hz) as (_ & _ & Hge). destruct (active_app [z] r Ha) as (_ & Ar & _).
    destruct IH as (rest & -> & H1 & H2 & H3 & H4); [done|destruct r; [done|apply Hge; by left]|intros x Hx; apply Hc; by right|]. exists rest.
    assert (Hle : (length rest <= length r)%nat) by (apply (f_equal length) in H1; rewrite length_app in H1; lia).
    replace (length (z :: r) - length rest)%nat with (S (length r - length rest)) by (cbn; lia). cbn [take map app]. split; [done|]. split; [by rewrite <- H1|]. split; [by constructor|done].
  - exists (z :: r). rewrite Nat.sub_diag. cbn [take map app]. done.
Qed.

(** The right part of a set, when nothing there intersects. *)
Lemma right_kept r : active r -> match r with x :: _ => contains p x.1 = false /\ part_lt x.1 p = false | [] => True end ->
  (match r with x :: _ => isDisjoint p x.1 = true | [] => True end -> covered p r = [] /\ kept p r = r /\ Forall (harmless p) r).
Proof.
  intros Ha Hr Hd. apply disjoint_all; [apply Ha|]. destruct r as [|z r]; [intros x Hx%elem_of_nil; done|]. destruct Hr as [_ Hz].
  destruct (right_facts p z r Ha Hz) as (_ & H2 & _). intros x [->|Hx]%elem_of_cons; [done|]. by apply H2.
Qed.

(** The new part fits between what is kept on both sides. *)
Lemma active_added l r name : active (l ++ r) -> Forall (fun x => part_lt x.1 p = true) l -> (forall x, x ∈ r -> part_lt x.1 p = false) ->
  Forall (harmless p) (l ++ r) -> active (kept p l ++ (p, name) :: kept p r).
Proof.
  intros Ha Hl Hr Hh. destruct (active_app _ _ Ha) as ([Sl Rl] & [Sr Rr] & Hap). rewrite Forall_forall in Hh.
  assert (Hk : forall x m, x ∈ kept p m -> x ∈ m /\ contains p x.1 <> true) by (intros x m Hx; apply list_elem_of_filter in Hx; tauto).
  assert (Hdis : forall x, x ∈ l ++ r -> contains p x.1 <> true -> isDisjoint p x.1 = true) by (intros x Hx Hc; by destruct (Hh x Hx)).
  assert (Hright : Forall (apart (p, name)) (kept p r)).
  { apply Forall_forall. intros x [Hx Hc]%Hk. split; cbn; [|apply Hdis; [set_solver|done]]. destruct (part_lt p x.1) eqn:E; [done|]. exfalso. apply Hc.
    destruct (part_incomparable _ _ E (Hr x Hx)) as (? & ? & ? & ? & ?). apply contains_spec. split; [done|lia]. }
  split.
  - assert (Hs : StronglySorted apart ((p, name) :: kept p r)) by (constructor; [by apply StronglySorted_filter|done]).
    assert (Hsl : StronglySorted apart (kept p l)) by by apply StronglySorted_filter.
    assert (Hlr : forall x y, x ∈ kept p l -> y ∈ (p, name) :: kept p r -> apart x y).
    { intros x y [Hx Hc]%Hk [->|[Hy _]%Hk]%elem_of_cons; [|by apply Hap]. split; cbn; [by eapply Forall_forall in Hl|]. rewrite isDisjoint_sym. apply Hdis; [set_solver|done]. }
    clear - Hs Hsl Hlr. induction Hsl as [|x l' Hl' IH Hx]; [done|]. cbn. constructor; [apply IH; intros a b Ha; apply Hlr; by right|].
    apply Forall_app. split; [done|]. apply Forall_forall. intros y Hy. apply Hlr; [by left|done].
  - apply Forall_app. split; [|constructor; [done|]]; apply Forall_forall; intros x [Hx _]%Hk; [by eapply Forall_forall in Rl|by eapply Forall_forall in Rr].
Qed.
End adding.

Lemma go_left_rest p l rest names clash : go_left p (rev l) = (rest, names, clash) -> rev rest `sublist_of` l.
Proof.
  intros E. assert (H : forall rl rest names clash, go_left p rl = (rest, names, clash) -> rest `sublist_of` rl).
  { clear. induction rl as [|x rl IH]; intros rest names clash; cbn [go_left]; [by intros [= <- _ _]|]. destruct (contains p x.1); [|by intros [= <- _ _]].
    destruct (go_left p rl) as [[rest' ?] ?]. intros [= <- _ _]. apply sublist_cons. by eapply IH. }
  apply H in E. rewrite <- (rev_involutive l). clear H. induction E as [|x a b _ IH|x a b _ IH]; [done| |]; cbn [rev]; [by apply sublist_app|by apply sublist_inserts_r].
Qed.

Lemma parsed_ranged name version p : fromPartName name version = Ok p -> ranged p.
Proof.
  unfold fromPartName. destruct (tryParsePartName name version) as [q|] eqn:E; [|done]. intros [= <-]. unfold tryParsePartName in E.
  apply bind_Some in E as ([id buf] & _ & E). case_decide; [done|]. apply bind_Some in E as ([mn b1] & _ & E). apply bind_Some in E as (b2 & _ & E).
  apply bind_Some in E as ([mx b3] & _ & E). apply bind_Some in E as (b4 & _ & E). apply bind_Some in E as ([lv b5] & _ & E).
  destruct (mx <? mn) eqn:Hlt; [done|]. apply bind_Some in E as (mt & _ & E). injection E as <-. unfold ranged. cbn. apply Z.ltb_ge in Hlt. lia.
Qed.

(** What adding the part [p] under [name] to [m] has to give. *)
Definition added_ok (m : list entry) (name : str) (p : MergeTreePartInfo) (r : list entry * result (bool * list str)) : Prop :=
  match r with
  | (m', Ok (false, replaced)) => m' = m /\ replaced = [] /\ Exists (fun x => contains x.1 p = true) m
  | (m', Ok (true, replaced)) =>
      Forall (fun x => contains x.1 p = false) m /\ Forall (harmless p) m /\ active m' /\ replaced = map snd (covered p m) /\
      forall x, x ∈ m' <-> x = (p, name) \/ (x ∈ m /\ contains p x.1 <> true)
  | (m', Throw e) =>
      e = DBException ErrorCodes.LOGICAL_ERROR /\ Forall (fun x => contains x.1 p = false) m /\ Exists (fun x => ~ harmless p x) m /\ m' `sublist_of` m
  end.

Lemma add_cases (format_version : Z) (m : list entry) (name : str) (p : MergeTreePartInfo) :
  active m -> fromPartName name format_version = Ok p -> added_ok m name p (add format_version name m).
Proof.
  intros Ha Hn. pose proof (parsed_ranged _ _ _ Hn) as Hp. unfold add. rewrite Hn. destruct (getContainingPartImpl p m) as [x|] eqn:Ec.
  { apply (containing_complete p Hp m x Ha) in Ec as [Hx Hc]. split; [done|]. split; [done|]. apply Exists_exists. eauto. }
  assert (Hno : forall x, x ∈ m -> contains x.1 p = false).
  { intros x Hx. apply not_true_is_false. intros Hc. pose proof (proj2 (containing_complete p Hp m x Ha) (conj Hx Hc)). congruence. }
  destruct (split_lower p m) as [l r] eqn:E. apply split_lower_spec in E as (-> & Hl & Hr). destruct (active_app _ _ Ha) as (Al & Ar & Hap).
  assert (HnoF : Forall (fun x => contains x.1 p = false) (l ++ r)) by by apply Forall_forall.
  destruct (go_left_spec p Hp l Al Hl) as (rl & lnames & clash & Eleft & Hok & Hbad). rewrite Eleft. destruct clash.
  { split; [done|]. split; [done|]. split; [apply Exists_app; left; by apply Hbad|]. apply sublist_app; [|done]. by apply go_left_rest in Eleft. }
  destruct (Hok eq_refl) as (-> & -> & Hlh). clear Hok Hbad. rewrite !rev_involutive.
  destruct (go_right_spec p r Ar Hr) as (rest & -> & Hsplit & Hcov & Hrest & Arest); [intros x Hx; apply Hno; set_solver|].
  set (cov := take (length r - length rest) r) in *.
  destruct (match rest with x :: _ => negb (isDisjoint p x.1) | [] => false end) eqn:Eclash.
  { split; [done|]. split; [done|]. split; [|apply sublist_app; [apply sublist_filter|rewrite Hsplit; by apply sublist_inserts_l]].
    apply Exists_app. right. rewrite Hsplit. apply Exists_app. right. destruct rest as [|x rest]; [done|]. constructor. destruct Hrest as [Hc _]. apply negb_true_iff in Eclash. unfold harmless. rewrite Hc, Eclash. by intros [?|?]. }
  destruct (right_kept p rest Arest Hrest) as (C & K & F); [destruct rest; [done|by apply negb_false_iff in Eclash]|].
  destruct (covered_only p cov Hcov) as [C' K'].
  assert (Hkr : kept p r = rest) by by rewrite Hsplit, kept_app, K', K.
  assert (Hcr : covered p r = cov) by by rewrite Hsplit, covered_app, C, C', app_nil_r.
  assert (Hh : Forall (harmless p) (l ++ r)).
  { apply Forall_app. split; [done|]. rewrite Hsplit. apply Forall_app. split; [|done]. eapply Forall_impl; [exact Hcov|]. intros x Hx. by left. }
  split; [done|]. split; [done|]. split; [|split].
  - rewrite <- Hkr. apply active_added; [done|done|done| |done]. destruct r as [|z r0]; [intros x Hx%elem_of_nil; done|].
    destruct (right_facts p z r0 Ar Hr) as (_ & _ & Hge). intros x [->|Hx]%elem_of_cons; [done|by apply Hge].
  - by rewrite covered_app, map_app, Hcr.
  - intros x. rewrite <- Hkr. rewrite elem_of_app, elem_of_cons, elem_of_app. unfold kept. rewrite !list_elem_of_filter. tauto.
Qed.

(** C27: Adding a part to a set of which no two parts intersect.  A part that is covered changes nothing.  A part that intersects another without covering it is refused.
    Any other part is added and replaces exactly the parts it covers, which are named in their order, and again no two parts intersect.  Looking at the
    neighbours in the order of the map is enough for all of this. *)
Theorem add_refines (format_version : Z) (m : list entry) (name : str) (p : MergeTreePartInfo) :
  active m -> fromPartName name format_version = Ok p -> added_ok m name p (add format_version name m).
Proof. exact (add_cases format_version m name p). Qed.

Lemma add_refines_witness :
  let m := [(mkPart (lit "all") 1 2 1 0 false, lit "all_1_2_1"); (mkPart (lit "all") 3 3 0 0 false, lit "all_3_3_0"); (mkPart (lit "all") 7 7 0 0 false, lit "all_7_7_0")] in
  active m /\ add 1 (lit "all_1_5_2") m
    = ([(mkPart (lit "all") 1 5 2 0 false, lit "all_1_5_2"); (mkPart (lit "all") 7 7 0 0 false, lit "all_7_7_0")], Ok (true, [lit "all_1_2_1"; lit "all_3_3_0"])) /\
  active (add 1 (lit "all_1_5_2") m).1.
Proof.
  intros m. assert (Hm : active m).
  { split; [|repeat constructor; unfold ranged; cbn; lia]. repeat constructor; vm_compute; reflexivity. }
  assert (Hadd : add 1 (lit "all_1_5_2") m
    = ([(mkPart (lit "all") 1 5 2 0 false, lit "all_1_5_2"); (mkPart (lit "all") 7 7 0 0 false, lit "all_7_7_0")], Ok (true, [lit "all_1_2_1"; lit "all_3_3_0"]))) by (vm_compute; reflexivity).
  split; [exact Hm|]. split; [exact Hadd|]. pose proof (add_refines 1 m (lit "all_1_5_2") (mkPart (lit "all") 1 5 2 0 false) Hm ltac:(vm_compute; reflexivity)) as H.
  rewrite Hadd in *. destruct H as (_ & _ & H & _). exact H.
Defined.

(** ** The set over its operations *)

Lemma active_sublist m m' : m' `sublist_of` m -> active m -> active m'.
Proof.
  intros Hs [S R]. split; [|by eapply sublist_Forall]. clear R. induction Hs as [|x m' m Hs IH|x m' m Hs IH]; [constructor| |].
  - apply StronglySorted_inv in S as [S Hx]. constructor; [by apply IH|by eapply sublist_Forall].
  - apply StronglySorted_inv in S as [S _]. by apply IH.
Qed.

(** Whatever is added, and also when it is refused, no two parts of the set intersect. *)
Lemma add_active format_version name m : active m -> active (add format_version name m).1.
Proof.
  intros Ha. destruct (fromPartName name format_version) as [p|e] eqn:Hn; [|unfold add; by rewrite Hn]. pose proof (add_cases format_version m name p Ha Hn) as H. unfold added_ok in H.
  destruct (add format_version name m) as [m' [[[] replaced]|e]]; [apply H|by destruct H as [-> _]|]. destruct H as (_ & _ & _ & H). by eapply active_sublist.
Qed.

Lemma remove_active p m : active m -> active (remove p m).1.
Proof. intros Ha. eapply active_sublist; [apply sublist_filter|done]. Qed.

(** ** The parts that are covered *)

Lemma covered_run_app p a b : Forall (fun x => contains p x.1 = true) a -> match b with x :: _ => contains p x.1 = false /\ contains x.1 p = false | [] => True end ->
  covered_run p (a ++ b) = Some a.
Proof.
  intros Ha Hb. induction Ha as [|x a Hx _ IH]; cbn [app covered_run]; [|by rewrite Hx, IH]. destruct b as [|y b]; [done|]. destruct Hb as [H1 H2]. cbn [covered_run]. by rewrite H1, H2.
Qed.

Lemma disjoint_not_covering p x : ranged p -> isDisjoint p x = true -> contains x p = false.
Proof. intros Hp Hd. apply disjoint_not_contained; [done|]. by rewrite isDisjoint_sym. Qed.

(** Of a set in which [p] intersects nothing that it does not cover, the covered parts are found, in their order. *)
Lemma covered_exact p m : active m -> ranged p -> Forall (harmless p) m -> getPartsCoveredBy p m = map snd (covered p m).
Proof.
  intros Ha Hp Hh. unfold getPartsCoveredBy. destruct (split_lower p m) as [l r] eqn:E. apply split_lower_spec in E as (-> & Hl & Hr).
  destruct (active_app _ _ Ha) as (Al & Ar & _). apply Forall_app in Hh as [Hhl Hhr].
  assert (Hstop : forall x, harmless p x -> contains p x.1 <> true -> contains p x.1 = false /\ contains x.1 p = false).
  { intros x [Hc|Hd] Hn; [done|]. split; [by apply not_true_is_false|by apply disjoint_not_covering]. }
  assert (Hleft : covered_run p (rev l) = Some (rev (covered p l))).
  { destruct l as [|z l0 _] using rev_ind; [done|]. destruct (left_facts p Hp l0 z Al Hl) as [_ H2]. apply Forall_app in Hhl as [Hh0 Hz]. apply Forall_cons in Hz as [Hz _].
    destruct Al as [_ Rl]. apply Forall_app in Rl as [Rl _]. specialize (H2 Hz). destruct (disjoint_all p l0 Rl H2) as (C & _ & _). rewrite covered_app, C, rev_app_distr. cbn [rev app].
    destruct (decide (contains p z.1 = true)) as [Hc|Hc].
    - destruct (covered_only p [z]) as [-> _]; [by constructor|]. apply (covered_run_app p [z] (rev l0)); [by constructor|]. destruct (rev l0) as [|y l1] eqn:Er; [done|].
      assert (Hy : y ∈ l0) by (apply list_elem_of_In, in_rev; rewrite Er; by left). apply Hstop; [right; by apply H2|]. rewrite disjoint_not_contained; [done|by eapply Forall_forall in Rl|by apply H2].
    - unfold covered. rewrite filter_none by by constructor. apply (covered_run_app p [] (z :: rev l0)); [constructor|by apply Hstop]. }
  rewrite Hleft. clear Hleft Hl Al Hhl. rewrite covered_app, map_app.
  assert (Hright : covered_run p r = Some (covered p r)).
  { clear Ha. induction r as [|z r IH]; [done|]. apply Forall_cons in Hhr as [Hz Hhr]. destruct (right_facts p z r Ar Hr) as (_ & H2 & Hge). destruct (active_app [z] r Ar) as (_ & Ar' & _).
    destruct (decide (contains p z.1 = true)) as [Hc|Hc].
    - cbn [covered_run]. rewrite Hc, IH; [|done|destruct r; [done|apply Hge; by left]|done]. unfold covered at 2. by rewrite filter_cons_True.
    - destruct Hz as [|Hz]; [done|]. destruct (disjoint_all p (z :: r)) as (-> & _ & _); [apply Ar|intros x [->|Hx]%elem_of_cons; [done|by apply H2]|].
      apply (covered_run_app p [] (z :: r)); [constructor|]. apply Hstop; [by right|done]. }
  rewrite Hright, rev_involutive. by rewrite map_app.
Qed.

(** [removePartAndCoveredParts] reports a failure also when it removed everything: the part is among those it covers, and is not there any more the second time. *)
Lemma removal_never_succeeds :
  let m := [(mkPart (lit "all") 1 1 0 0 false, lit "all_1_1_0")] in
  removePartAndCoveredParts 1 (lit "all_1_1_0") m = ([], Ok false) /\ removePartAndCoveredParts 1 (lit "all_1_5_1") m = ([], Ok false).
Proof. by vm_compute. Qed.

(** A part that intersects the next one is refused after the parts to its left were dropped. *)
Lemma refused_part_drops :
  let m := [(mkPart (lit "all") 1 1 0 0 false, lit "all_1_1_0"); (mkPart (lit "all") 2 5 1 0 false, lit "all_2_5_1")] in
  add 1 (lit "all_1_3_1") m = ([(mkPart (lit "all") 2 5 1 0 false, lit "all_2_5_1")], Throw (DBException ErrorCodes.LOGICAL_ERROR)).
Proof. by vm_compute. Qed.
