(* ===== verification/DedupLog.v ===== *)
(** * DedupLog: the log against repeated inserts

    Models src/src/Storages/MergeTree/MergeTreeDeduplicationLog.{h,cpp}: the blocks inserted last, in memory in the order they came, and on disk as records of
    what was added and dropped, in files with growing numbers of which the oldest are removed.  The table finds the window
    again from the files when it starts.

    The hash table and its list of nodes are changed together and hold the same keys: one list stands for both.  A file is known by its number; the directory
    holds no other files.  Every record is flushed.  An iterator past the end and a missing writer give [None]. *)

From S2P Require Import Prelude TextFormat SequenceInfo PartInfo.
Import PartInfo.
Local Open Scope Z_scope.

Module DedupLog.
(** ** [LimitedOrderedHashMap] *)

Definition window_map : Type := list (str * MergeTreePartInfo).

Definition get (key : str) (q : window_map) : option MergeTreePartInfo := snd <$> head (filter (fun kv => kv.1 = key) q).

Definition contains_key (key : str) (q : window_map) : bool := bool_decide (key ∈ q.*1).

(** [setMaxSize] drops from the front. *)
Definition shrink (max_size : nat) (q : window_map) : window_map := drop (length q - max_size) q.

Definition erase (key : str) (q : window_map) : window_map := filter (fun kv => kv.1 <> key) q.

Definition insert (max_size : nat) (key : str) (value : MergeTreePartInfo) (q : window_map) : window_map :=
  if contains_key key q then q
  else (if decide (length q = max_size) then tail q else q) ++ [(key, value)].

(** ** Records *)

Inductive operation : Type := ADD | DROP.

Record record : Type := mkRecord { rec_operation : operation; part_name : str; block_id : str }.

Definition writeRecord (r : record) : str :=
  writeIntText (match rec_operation r with ADD => 1 | DROP => 2 end) ++ [ch_tab] ++ part_name r ++ [ch_tab] ++ block_id r ++ [ch_newline].

(** [readIntText] of a byte, without a check. *)
Fixpoint read_byte_loop (buf : str) (res : Z) : result (Z * str) :=
  match buf with
  | [] => Ok (res, [])
  | c :: rest =>
      if decide (c = plus) then read_byte_loop rest res
      else if decide (c = ch_minus) then Throw (DBException ErrorCodes.CANNOT_PARSE_NUMBER)
      else if is_digit c then read_byte_loop rest (wrap 8 (wrap 8 (res * 10) + (code c - 48)))
      else Ok (res, buf)
  end.
Definition read_byte (buf : str) : result (Z * str) :=
  match buf with [] => Throw (DBException ErrorCodes.ATTEMPT_TO_READ_AFTER_EOF) | _ => read_byte_loop buf 0 end.

Definition assertChar (c : ascii) (buf : str) : result str :=
  match checkChar c buf with Some rest => Ok rest | None => Throw (DBException ErrorCodes.CANNOT_PARSE_INPUT_ASSERTION_FAILED) end.

(** [readString]: up to a tab or a newline. *)
Fixpoint readString (buf : str) : str * str :=
  match buf with
  | [] => ([], [])
  | c :: rest => if decide (c = ch_tab \/ c = ch_newline) then ([], buf) else let '(s, rest) := readString rest in (c :: s, rest)
  end.

(** Any number but that of DROP is taken as ADD. *)
Definition readRecord (buf : str) : result (record * str) :=
  '(op, buf) ← read_byte buf;
  buf ← assertChar ch_tab buf;
  let '(name, buf) := readString buf in
  buf ← assertChar ch_tab buf;
  let '(id, buf) := readString buf in
  buf ← assertChar ch_newline buf;
  Ok (mkRecord (if decide (op = 2) then DROP else ADD) name id, buf).

(** ** The log *)

Record t : Type := mk {
  deduplication_window : nat;
  format_version : Z;
  current_log_number : Z;
  existing_logs : list (Z * Z);
  deduplication_map : window_map;
  current_writer : option Z;
  logs_dir : option (gmap Z str)
}.

Definition rotate_interval (d : t) : Z := wrap 64 (Z.of_nat (deduplication_window d) * 2).
Definition files (d : t) : gmap Z str := default ∅ (logs_dir d).

Definition set_logs (ls : list (Z * Z)) (d : t) : t :=
  mk (deduplication_window d) (format_version d) (current_log_number d) ls (deduplication_map d) (current_writer d) (logs_dir d).
Definition set_map (q : window_map) (d : t) : t :=
  mk (deduplication_window d) (format_version d) (current_log_number d) (existing_logs d) q (current_writer d) (logs_dir d).
Definition set_files (fs : gmap Z str) (d : t) : t :=
  mk (deduplication_window d) (format_version d) (current_log_number d) (existing_logs d) (deduplication_map d) (current_writer d) (Some fs).

(** The constructor. *)
Definition create (window : nat) (version : Z) (dir : option (gmap Z str)) : t :=
  mk window version 0 [] [] None (if decide (window <> 0%nat) then Some (default ∅ dir) else dir).

(** The entry of a number, which is made when it is missing. *)
Fixpoint count_of (n : Z) (ls : list (Z * Z)) : Z :=
  match ls with [] => 0 | (k, c) :: ls => if k =? n then c else count_of n ls end.
Fixpoint set_count (n c : Z) (ls : list (Z * Z)) : list (Z * Z) :=
  match ls with
  | [] => [(n, c)]
  | (k, c') :: ls => if n <? k then (n, c) :: (k, c') :: ls else if n =? k then (n, c) :: ls else (k, c') :: set_count n c ls
  end.

(** A file is opened to append, and made when it is missing. *)
Definition open_file (n : Z) (d : t) : t :=
  mk (deduplication_window d) (format_version d) (current_log_number d) (existing_logs d) (deduplication_map d) (Some n)
    (Some (match files d !! n with Some _ => files d | None => <[n := []]> (files d) end)).

Definition rotate (d : t) : t :=
  if decide (deduplication_window d = 0%nat) then d
  else
    let n := current_log_number d + 1 in
    open_file n (mk (deduplication_window d) (format_version d) n (if decide (n ∈ (existing_logs d).*1) then existing_logs d else set_count n 0 (existing_logs d))
                   (deduplication_map d) (current_writer d) (logs_dir d)).

(** The logs from the last on: the first one that is not needed. *)
Fixpoint outdated_from (window sum : Z) (rls : list (Z * Z)) : option Z :=
  match rls with
  | [] => None
  | (n, c) :: rls => if sum >? window then Some n else outdated_from window (sum + c) rls
  end.

(** From the first on, up to the number [upto]. *)
Fixpoint remove_logs (upto : Z) (ls : list (Z * Z)) (fs : gmap Z str) : list (Z * Z) * gmap Z str :=
  match ls with
  | [] => ([], fs)
  | (n, _) :: ls => if n =? upto then (ls, delete n fs) else remove_logs upto ls (delete n fs)
  end.

Definition dropOutdatedLogs (d : t) : t :=
  match outdated_from (Z.of_nat (deduplication_window d)) 0 (rev (existing_logs d)) with
  | Some n => if decide (n <> 0) then let '(ls, fs) := remove_logs n (existing_logs d) (files d) in set_files fs (set_logs ls d) else d
  | None => d
  end.

Definition rotateAndDropIfNeeded (d : t) : t :=
  if decide (existing_logs d = [] \/ rotate_interval d <= count_of (current_log_number d) (existing_logs d))
  then dropOutdatedLogs (rotate d) else d.

(** ** Loading *)

(** What is applied to the window for a record. *)
Definition apply_record (window : nat) (version : Z) (r : record) (q : window_map) : result window_map :=
  match rec_operation r with
  | DROP => Ok (erase (block_id r) q)
  | ADD => p ← fromPartName (part_name r) version; Ok (insert window (block_id r) p q)
  end.

(** [loadSingleLog]: the window, and the number of records unless it throws; a record takes at least a byte. *)
Fixpoint load_records (fuel : nat) (window : nat) (version : Z) (buf : str) (q : window_map) (total : Z) : window_map * option Z :=
  match fuel with
  | O => (q, None)
  | S fuel =>
      match buf with
      | [] => (q, Some total)
      | _ =>
          match readRecord buf with
          | Throw _ => (q, None)
          | Ok (r, buf) =>
              match apply_record window version r q with
              | Throw _ => (q, None)
              | Ok q => load_records fuel window version buf q (total + 1)
              end
          end
      end
  end.

Definition loadSingleLog (window : nat) (version : Z) (data : str) (q : window_map) : window_map * option Z :=
  load_records (S (length data)) window version data q 0.

(** A log that cannot be read keeps the count 0. *)
Fixpoint load_logs (window : nat) (version : Z) (fs : gmap Z str) (ls : list (Z * Z)) (q : window_map) : list (Z * Z) * window_map :=
  match ls with
  | [] => ([], q)
  | (n, c) :: ls =>
      let '(q, total) := loadSingleLog window version (default [] (fs !! n)) q in
      let '(ls, q) := load_logs window version fs ls q in
      ((n, default c total) :: ls, q)
  end.

(** The last log is opened when there is no writer. *)
Definition ensure_writer (d : t) : option t :=
  match current_writer d with
  | Some _ => Some d
  | None => match last (existing_logs d) with Some (n, _) => Some (open_file n d) | None => None end
  end.

Definition load (d : t) : option t :=
  match logs_dir d with
  | None => Some d
  | Some fs =>
      let ls := foldl (fun ls n => set_count n 0 ls) (existing_logs d) (elements (dom fs)) in
      let current := match last ls with Some (n, _) => n | None => current_log_number d end in
      let d := mk (deduplication_window d) (format_version d) current ls (deduplication_map d) (current_writer d) (logs_dir d) in
      if decide (deduplication_window d = 0%nat) then Some d
      else
        let '(ls, q) := load_logs (deduplication_window d) (format_version d) fs ls (deduplication_map d) in
        ensure_writer (rotateAndDropIfNeeded (set_map q (set_logs ls d)))
  end.

(** ** Operations *)

(** A record is written to the current log and counted. *)
Definition write_record (r : record) (d : t) : option t :=
  w ← current_writer d;
  Some (set_logs (set_count (current_log_number d) (count_of (current_log_number d) (existing_logs d) + 1) (existing_logs d))
          (set_files (alter (fun data => data ++ writeRecord r) w (files d)) d)).

Definition addPart (id : str) (p : MergeTreePartInfo) (d : t) : option (t * (MergeTreePartInfo * bool)) :=
  if decide (deduplication_window d = 0%nat) then Some (d, (p, true))
  else match get id (deduplication_map d) with
       | Some info => Some (d, (info, false))
       | None =>
           d ← write_record (mkRecord ADD (getPartName p) id) d;
           Some (rotateAndDropIfNeeded (set_map (insert (deduplication_window d) id p (deduplication_map d)) d), (p, true))
       end.

Fixpoint drop_entries (dropped : MergeTreePartInfo) (es : window_map) (d : t) : option t :=
  match es with
  | [] => Some d
  | (key, p) :: es =>
      if contains dropped p then
        d ← write_record (mkRecord DROP (getPartName p) key) d;
        drop_entries dropped es (rotateAndDropIfNeeded (set_map (erase key (deduplication_map d)) d))
      else drop_entries dropped es d
  end.

Definition dropPart (dropped : MergeTreePartInfo) (d : t) : option t :=
  if decide (deduplication_window d = 0%nat) then Some d else drop_entries dropped (deduplication_map d) d.

Definition setDeduplicationWindowSize (window : nat) (d : t) : option t :=
  let d := mk window (format_version d) (current_log_number d) (existing_logs d) (shrink window (deduplication_map d)) (current_writer d)
             (if decide (window <> 0%nat) then Some (files d) else logs_dir d) in
  ensure_writer (rotateAndDropIfNeeded d).
End DedupLog.
Import DedupLog.

(** ** Records are read back *)

(** What was added or dropped. *)
Definition event : Type := operation * MergeTreePartInfo * str.
Definition to_record (e : event) : record := mkRecord e.1.1 (getPartName e.1.2) e.2.

Definition no_separator (s : str) : Prop := Forall (fun c => c <> ch_tab /\ c <> ch_newline) s.

(** Parts and blocks as the table makes them. *)
Definition loggable (p : MergeTreePartInfo) (id : str) : Prop := nameable p /\ no_separator (partition_id p) /\ no_separator id.

Lemma number_no_separator z : no_separator (writeIntText z).
Proof. apply Forall_forall. intros c Hc. split; intros ->; revert Hc; by apply writeIntText_no. Qed.

Lemma name_no_separator p : no_separator (partition_id p) -> no_separator (getPartName p).
Proof.
  intros Hp. unfold getPartName, name_tail, no_separator. pose proof number_no_separator. assert (Hu : Forall (fun c => c <> ch_tab /\ c <> ch_newline) [underscore]) by (repeat constructor; done).
  repeat (apply Forall_app; split; try done; try apply H). case_decide; [|constructor]. apply Forall_app. split; [done|apply H].
Qed.

Lemma readString_app s c rest : no_separator s -> c = ch_tab \/ c = ch_newline -> readString (s ++ c :: rest) = (s, c :: rest).
Proof.
  intros Hs Hc. induction Hs as [|x s [H1 H2] _ IH]; cbn [app readString]; [by rewrite decide_True|]. rewrite decide_False by tauto. by rewrite IH.
Qed.

Lemma assertChar_ok c rest : assertChar c (c :: rest) = Ok rest.
Proof. unfold assertChar. cbn [checkChar]. by rewrite decide_True. Qed.

Lemma readRecord_write e rest : loggable e.1.2 e.2 -> readRecord (writeRecord (to_record e) ++ rest) = Ok (to_record e, rest).
Proof.
  intros (_ & Hp & Hid). destruct e as [[op p] id]. cbn [fst snd] in *. unfold writeRecord, to_record. cbn [rec_operation part_name block_id fst snd].
  assert (Hop : forall s, read_byte (writeIntText (match op with ADD => 1 | DROP => 2 end) ++ ch_tab :: s) = Ok (match op with ADD => 1 | DROP => 2 end, ch_tab :: s)) by (intros s; by destruct op).
  unfold readRecord. rewrite <- !app_assoc. cbn [app]. rewrite Hop. cbn [mbind result_bind]. rewrite assertChar_ok. cbn [mbind result_bind].
  rewrite readString_app by (by apply name_no_separator || by left). rewrite assertChar_ok. cbn [mbind result_bind].
  rewrite readString_app by (done || by right). rewrite assertChar_ok. cbn [mbind result_bind]. by destruct op.
Qed.

(** The effect of an event on the window. *)
Definition apply_event (w : nat) (q : window_map) (e : event) : window_map := match e.1.1 with ADD => insert w e.2 e.1.2 q | DROP => erase e.2 q end.
Definition replay (w : nat) (es : list event) (q : window_map) : window_map := foldl (apply_event w) q es.
Definition bytes (es : list event) : str := concat (map (fun e => writeRecord (to_record e)) es).

Lemma apply_to_record w v e q : 1 <= v -> loggable e.1.2 e.2 -> apply_record w v (to_record e) q = Ok (apply_event w q e).
Proof.
  intros Hv (Hn & _). destruct e as [[[] p] id]; [|done]. unfold apply_record, to_record, fromPartName. cbn [rec_operation part_name block_id fst snd].
  by rewrite part_name_round_trip.
Qed.

Lemma load_records_ok w v es fuel q total : 1 <= v -> Forall (fun e : event => loggable e.1.2 e.2) es -> (length es < fuel)%nat ->
  load_records fuel w v (bytes es) q total = (replay w es q, Some (total + Z.of_nat (length es))).
Proof.
  intros Hv. revert fuel q total. induction es as [|e es IH]; intros fuel q total He Hf; (destruct fuel as [|fuel]; [lia|]); cbn [load_records]; [by rewrite Z.add_0_r|].
  apply Forall_cons in He as [He Hes]. unfold bytes. cbn [map concat]. fold (bytes es). cbn [length] in *.
  destruct (writeRecord (to_record e) ++ bytes es) as [|c s] eqn:E; [by apply (f_equal length) in E; rewrite length_app in E; unfold writeRecord in E; rewrite !length_app in E; cbn in E; lia|].
  rewrite <- E, readRecord_write, apply_to_record by done. rewrite IH by (done || lia). unfold replay. cbn [foldl]. do 2 f_equal. lia.
Qed.

Lemma bytes_length es : (length es <= length (bytes es))%nat.
Proof.
  induction es as [|e es IH]; [done|]. unfold bytes. cbn [map concat length]. fold (bytes es). rewrite length_app.
  assert (0 < length (writeRecord (to_record e)))%nat by (unfold writeRecord; rewrite !length_app; cbn; lia). lia.
Qed.

Lemma loadSingleLog_ok w v es q : 1 <= v -> Forall (fun e : event => loggable e.1.2 e.2) es -> loadSingleLog w v (bytes es) q = (replay w es q, Some (Z.of_nat (length es))).
Proof. intros Hv He. unfold loadSingleLog. rewrite load_records_ok; [done|done|done|]. pose proof (bytes_length es). lia. Qed.

(** ** The window *)

(** Every block added is one that was not in the window. *)
Fixpoint consistent (w : nat) (q : window_map) (es : list event) : Prop :=
  match es with
  | [] => True
  | e :: es => (e.1.1 = ADD -> contains_key e.2 q = false) /\ consistent w (apply_event w q e) es
  end.

Lemma contains_key_suffix key (q q' : window_map) : q' `suffix_of` q -> contains_key key q = false -> contains_key key q' = false.
Proof.
  intros [k ->] H. unfold contains_key in *. apply bool_decide_eq_false in H. apply bool_decide_eq_false. rewrite fmap_app, elem_of_app in H. tauto.
Qed.

Lemma insert_new w key v q : contains_key key q = false -> insert w key v q = (if decide (length q = w) then tail q else q) ++ [(key, v)].
Proof. intros H. unfold insert. by rewrite H. Qed.

Lemma erase_app key (a b : window_map) : erase key (a ++ b) = erase key a ++ erase key b.
Proof. apply filter_app. Qed.

Lemma apply_event_bounded w q e : (0 < w)%nat -> (length q <= w)%nat -> (length (apply_event w q e) <= w)%nat.
Proof.
  intros Hw Hq. unfold apply_event. destruct (e.1.1); [|unfold erase; etrans; [apply length_filter|done]]. unfold insert. destruct (contains_key e.2 q); [done|].
  rewrite length_app. cbn [length]. case_decide; [destruct q; cbn in *; lia|lia].
Qed.

(** What is replayed on a part of the window gives a part of it. *)
Lemma apply_event_suffix w q q' e : (length q <= w)%nat -> q' `suffix_of` q -> (e.1.1 = ADD -> contains_key e.2 q = false) -> apply_event w q' e `suffix_of` apply_event w q e.
Proof.
  intros Hq Hs He. unfold apply_event. destruct (e.1.1).
  - specialize (He eq_refl). rewrite !insert_new by (done || by eapply contains_key_suffix).
    assert (H : (if decide (length q' = w) then tail q' else q') `suffix_of` (if decide (length q = w) then tail q else q)).
    { destruct Hs as [k ->]. rewrite length_app in *. destruct k as [|x k]; cbn [app length] in *; [done|]. rewrite (decide_False (P := length q' = w)) by lia.
      case_decide; cbn [tail]; [by exists k|by exists (x :: k)]. }
    destruct H as [k ->]. exists k. by rewrite app_assoc.
  - destruct Hs as [k ->]. exists (erase e.2 k). apply erase_app.
Qed.

Lemma replay_suffix w es : forall q q', (0 < w)%nat -> (length q <= w)%nat -> q' `suffix_of` q -> consistent w q es ->
  replay w es q' `suffix_of` replay w es q /\ consistent w q' es.
Proof.
  induction es as [|e es IH]; intros q q' Hw Hq Hs Hc; [done|]. destruct Hc as [He Hc]. unfold replay. cbn [foldl]. cbn [consistent].
  destruct (IH (apply_event w q e) (apply_event w q' e)) as [H1 H2]; [done|by apply apply_event_bounded|by apply apply_event_suffix|done|].
  split; [done|]. split; [|done]. intros Ha. eapply contains_key_suffix; [exact Hs|by apply He].
Qed.

Lemma replay_bounded w es q : (0 < w)%nat -> (length q <= w)%nat -> (length (replay w es q) <= w)%nat.
Proof. intros Hw. revert q. induction es as [|e es IH]; intros q Hq; [done|]. apply IH. by apply apply_event_bounded. Qed.

Lemma consistent_app w q a b : consistent w q (a ++ b) <-> consistent w q a /\ consistent w (replay w a q) b.
Proof. revert q. induction a as [|e a IH]; intros q; [unfold replay; cbn; tauto|]. cbn [app consistent]. rewrite IH. unfold replay. cbn [foldl]. tauto. Qed.

Lemma replay_app w q a b : replay w (a ++ b) q = replay w b (replay w a q).
Proof. apply foldl_app. Qed.

(** When nothing is dropped the window holds the blocks added last. *)
Lemma replay_adds w es : (0 < w)%nat -> Forall (fun e : event => e.1.1 = ADD) es -> consistent w [] es ->
  replay w es [] = drop (length es - w) (map (fun e : event => (e.2, e.1.2)) es).
Proof.
  intros Hw. induction es as [|e es IH] using rev_ind; intros Ha Hc; [done|]. apply Forall_app in Ha as [Ha He]. apply Forall_cons in He as [He _].
  apply consistent_app in Hc as [Hc [Hn _]]. rewrite replay_app. unfold replay at 1. cbn [foldl]. unfold apply_event. rewrite He, insert_new by by apply Hn. rewrite IH by done.
  rewrite map_app, length_app, length_drop, length_map. cbn [length map]. set (kvs := map (fun e : event => (e.2, e.1.2)) es).
  assert (Hl : length kvs = length es) by apply length_map. rewrite drop_app_le by lia. f_equal. case_decide as Hd.
  - replace (length es + 1 - w)%nat with (S (length es - w)) by lia. destruct (decide (length es - w < length kvs)%nat) as [Hlt|Hge]; [|lia].
    destruct (lookup_lt_is_Some_2 _ _ Hlt) as [x Hx]. by rewrite (drop_S _ _ _ Hx).
  - f_equal. lia.
Qed.

(** The records that are left give the same window if they are all, or at least as many as the window has places. *)
Lemma replay_recent w old es : (0 < w)%nat -> Forall (fun e : event => e.1.1 = ADD) (old ++ es) -> consistent w [] (old ++ es) -> old = [] \/ (w <= length es)%nat ->
  replay w es [] = replay w (old ++ es) [].
Proof.
  intros Hw Ha Hc [->|Hl]; [done|]. assert (Hc' : consistent w [] es).
  { apply consistent_app in Hc as [_ Hc]. apply (replay_suffix w es (replay w old [])); [done|apply replay_bounded; [done|cbn; lia]|apply suffix_nil|done]. }
  rewrite !replay_adds by (done || by apply Forall_app in Ha as [_ ?]). rewrite map_app, length_app, drop_app_ge by (rewrite length_map; lia).
  rewrite length_map. f_equal. lia.
Qed.

(** ** The files *)

Definition events (groups : list (Z * list event)) : list event := concat groups.*2.
Definition counts (groups : list (Z * list event)) : list (Z * Z) := map (fun g => (g.1, Z.of_nat (length g.2))) groups.

Lemma events_app a b : events (a ++ b) = events a ++ events b.
Proof. unfold events. by rewrite fmap_app, concat_app. Qed.
Lemma counts_app a b : counts (a ++ b) = counts a ++ counts b.
Proof. apply map_app. Qed.
Lemma counts_keys groups : (counts groups).*1 = groups.*1.
Proof. induction groups as [|g groups IH]; [done|]. cbn. by f_equal. Qed.

(** The files on disk hold the records of the groups; before them [old] was recorded in files that were removed. *)
Record logged (w : nat) (v : Z) (d : t) (groups : list (Z * list event)) (old : list event) : Prop := {
  g_window : deduplication_window d = w;
  g_version : format_version d = v;
  g_logs : existing_logs d = counts groups;
  g_sorted : StronglySorted Z.lt groups.*1;
  g_positive : Forall (fun g => 0 < g.1) groups;
  g_last : exists gs es, groups = gs ++ [(current_log_number d, es)];
  g_writer : current_writer d = Some (current_log_number d);
  g_files : is_Some (logs_dir d) /\ dom (files d) = list_to_set groups.*1 /\ forall g, g ∈ groups -> files d !! g.1 = Some (bytes g.2);
  g_valid : Forall (fun e : event => loggable e.1.2 e.2) (old ++ events groups);
  g_map : deduplication_map d = replay w (old ++ events groups) [];
  g_consistent : consistent w [] (old ++ events groups);
  g_kept : old = [] \/ (w <= length (events groups))%nat
}.

(** Numbers above all others come last. *)
Lemma set_count_above n c ls : Forall (fun k => k < n) ls.*1 -> set_count n c ls = ls ++ [(n, c)].
Proof.
  induction ls as [|[k c'] ls IH]; cbn; intros H; [done|]. apply Forall_cons in H as [Hk H]. rewrite (proj2 (Z.ltb_ge _ _)), (proj2 (Z.eqb_neq _ _)) by lia. by rewrite IH.
Qed.

Lemma count_of_last ls n c : Forall (fun k => k < n) ls.*1 -> count_of n (ls ++ [(n, c)]) = c /\ forall c', set_count n c' (ls ++ [(n, c)]) = ls ++ [(n, c')].
Proof.
  induction ls as [|[k c0] ls IH]; cbn; intros H; [rewrite Z.eqb_refl; split; [done|]; intros c'; by rewrite Z.ltb_irrefl|]. apply Forall_cons in H as [Hk H].
  destruct (IH H) as [H1 H2]. rewrite (proj2 (Z.eqb_neq k n)) by lia. split; [done|]. intros c'. rewrite (proj2 (Z.ltb_ge _ _)), (proj2 (Z.eqb_neq _ _)) by lia. by rewrite H2.
Qed.

Lemma sorted_snoc (ks : list Z) n : StronglySorted Z.lt (ks ++ [n]) <-> StronglySorted Z.lt ks /\ Forall (fun k => k < n) ks.
Proof.
  induction ks as [|k ks IH]; cbn; [split; [intros _; split; constructor|intros _; repeat constructor]|]. split.
  - intros [H1 H2]%StronglySorted_inv. apply IH in H1 as [H1 H3]. apply Forall_app in H2 as [H2 H4]. apply Forall_cons in H4 as [H4 _]. split; by constructor.
  - intros [[H1 H2]%StronglySorted_inv [H3 H4]%Forall_cons]. constructor; [by apply IH|]. apply Forall_app. split; [done|by constructor].
Qed.

(** The logs that go have enough records after them. *)
Lemma outdated_spec (w sum : Z) ls n : outdated_from w sum (rev ls) = Some n -> exists a c b, ls = a ++ (n, c) :: b /\ w < sum + foldr (fun kc acc => kc.2 + acc) 0 b.
Proof.
  revert sum. induction ls as [|[m c] ls IH] using rev_ind; intros sum; [done|]. rewrite rev_app_distr. cbn [rev app outdated_from]. destruct (sum >? w) eqn:E.
  - intros [= ->]. exists ls, c, []. split; [done|]. cbn. apply Z.gtb_lt in E. lia.
  - intros (a & c' & b & -> & Hs)%IH. exists a, c', (b ++ [(m, c)]). split; [by rewrite <- app_assoc|]. rewrite foldr_app. cbn.
    assert (Hf : forall (l : list (Z * Z)) z, foldr (fun kc acc => kc.2 + acc) z l = foldr (fun kc acc => kc.2 + acc) 0 l + z) by (clear; induction l as [|x l IHl]; intros z; cbn; [lia|rewrite (IHl z); lia]).
    rewrite Hf. lia.
Qed.

Lemma counts_sum groups : foldr (fun kc acc => kc.2 + acc) 0 (counts groups) = Z.of_nat (length (events groups)).
Proof.
  induction groups as [|g groups IH]; [done|]. change (counts (g :: groups)) with ((g.1, Z.of_nat (length g.2)) :: counts groups).
  change (events (g :: groups)) with (g.2 ++ events groups). cbn [foldr snd]. rewrite IH, length_app. lia.
Qed.

Lemma remove_logs_spec n c a b fs : n ∉ a.*1 -> remove_logs n (a ++ (n, c) :: b) fs = (b, foldl (fun m i => delete i m) fs (a.*1 ++ [n])).
Proof.
  revert fs. induction a as [|[k c'] a IH]; intros fs Hn; cbn; [by rewrite Z.eqb_refl|]. cbn in Hn. rewrite (proj2 (Z.eqb_neq _ _)) by set_solver. apply IH. set_solver.
Qed.

Lemma counts_split groups a n c b : counts groups = a ++ (n, c) :: b -> exists ga es gb, groups = ga ++ (n, es) :: gb /\ counts ga = a /\ counts gb = b.
Proof.
  revert a. induction groups as [|[k es] groups IH]; intros a H; [by destruct a|]. cbn in H. destruct a as [|x a]; injection H.
  - intros <- _ ->. by exists [], es, groups.
  - intros H' <-. destruct (IH a H') as (ga & es' & gb & -> & <- & <-). by exists ((k, es) :: ga), es', gb.
Qed.

(** ** A life of the log *)

Inductive op : Type := Insert (id : str) (p : MergeTreePartInfo) | Drop (p : MergeTreePartInfo) | Restart.

Definition op_ok (o : op) : Prop := match o with Insert id p => loggable p id | _ => True end.
Definition is_drop (o : op) : bool := match o with Drop _ => true | _ => false end.

(** The answers of [addPart] are collected. *)
Definition step (w : nat) (v : Z) (o : op) (s : t * list (MergeTreePartInfo * bool)) : option (t * list (MergeTreePartInfo * bool)) :=
  let '(d, out) := s in
  match o with
  | Insert id p => '(d, r) ← addPart id p d; Some (d, out ++ [r])
  | Drop p => d ← dropPart p d; Some (d, out)
  | Restart => d ← load (create w v (logs_dir d)); Some (d, out)
  end.
Definition run (w : nat) (v : Z) (ops : list op) : option (t * list (MergeTreePartInfo * bool)) :=
  d ← load (create w v None); foldl (fun s o => s ≫= step w v o) (Some (d, [])) ops.

(** The window that is promised: the last [w] blocks that were inserted, whatever restarts there are. *)
Definition spec_step (w : nat) (s : window_map * list (MergeTreePartInfo * bool)) (o : op) : window_map * list (MergeTreePartInfo * bool) :=
  let '(q, out) := s in
  match o with
  | Insert id p =>
      match get id q with
      | Some info => (q, out ++ [(info, false)])
      | None => (drop (S (length q) - w) (q ++ [(id, p)]), out ++ [(p, true)])
      end
  | Drop p => (filter (fun kv : str * MergeTreePartInfo => contains p kv.2 = false) q, out)
  | Restart => (q, out)
  end.
Definition spec_run (w : nat) (ops : list op) : window_map * list (MergeTreePartInfo * bool) := foldl (spec_step w) ([], []) ops.

Section life.
Context (w : nat) (v : Z) (Hw : (0 < w)%nat) (Hwmax : Z.of_nat w < 2 ^ 63) (Hv : 1 <= v).
Local Abbreviation logged := (logged w v).

Lemma rotate_logged d groups old : logged d groups old -> logged (rotate d) (groups ++ [(current_log_number d + 1, [])]) old.
Proof.
  intros [G1 G2 G3 G4 G5 (gs & es & Glast) G7 (G8 & G9 & G10) G11 G12 G13 G14]. set (n := current_log_number d + 1).
  assert (Hbelow : Forall (fun k => k < n) groups.*1).
  { rewrite Glast, fmap_app in *. apply sorted_snoc in G4 as [_ H]. apply Forall_app. split; [|repeat constructor; cbn; lia].
    eapply Forall_impl; [exact H|]. intros k Hk. cbn in Hk. lia. }
  assert (Hnew : n ∉ groups.*1) by (intros Hin; eapply Forall_forall in Hin; [|exact Hbelow]; cbn in Hin; lia).
  unfold rotate. rewrite decide_False by lia. fold n. rewrite G3, counts_keys, decide_False, set_count_above by (done || by rewrite counts_keys).
  assert (Hev : events (groups ++ [(n, [])]) = events groups) by (rewrite events_app; apply app_nil_r).
  assert (Hnf : files d !! n = None) by (apply not_elem_of_dom; rewrite G9; set_solver).
  unfold open_file, files at 1. cbn [logs_dir existing_logs]. fold (files d). cbn. split; cbn; try done.
  - by rewrite counts_app.
  - rewrite fmap_app. apply sorted_snoc. by split.
  - apply Forall_app. split; [done|]. repeat constructor. cbn. rewrite Glast in G5. apply Forall_app in G5 as [_ G5]. apply Forall_cons in G5 as [G5 _]. cbn in G5. lia.
  - by exists groups, [].
  - split; [by eexists|]. unfold files at 1 2. cbn. change (default ∅ (logs_dir d)) with (files d). rewrite Hnf, fmap_app. split; [rewrite dom_insert_L, G9; set_solver|].
    intros g [Hg|Hg]%elem_of_app; [rewrite lookup_insert_ne; [by apply G10|]; intros ->; apply Hnew; by apply list_elem_of_fmap_2|].
    apply list_elem_of_singleton in Hg as ->. apply lookup_insert_eq.
  - by rewrite Hev.
  - by rewrite Hev.
  - by rewrite Hev.
  - by rewrite Hev.
Qed.

Lemma sorted_parts (a b : list Z) : StronglySorted Z.lt (a ++ b) -> StronglySorted Z.lt a /\ StronglySorted Z.lt b /\ forall x y, x ∈ a -> y ∈ b -> x < y.
Proof.
  induction a as [|x a IH]; intros H; [split; [constructor|]; split; [done|]; intros x y Hx%elem_of_nil; done|]. apply StronglySorted_inv in H as [H Hx].
  destruct (IH H) as (H0 & H1 & H2). apply Forall_app in Hx as [Hx1 Hx2]. split; [by constructor|]. split; [done|].
  intros z y [->|Hz]%elem_of_cons Hy; [by eapply Forall_forall in Hx2|by apply H2].
Qed.

Lemma dropOutdated_logged d groups old : logged d groups old ->
  exists groups' old', logged (dropOutdatedLogs d) groups' old' /\ old' ++ events groups' = old ++ events groups /\ deduplication_map (dropOutdatedLogs d) = deduplication_map d.
Proof.
  intros Hd. pose proof Hd as [G1 G2 G3 G4 G5 (gs & es & Glast) G7 (G8 & G9 & G10) G11 G12 G13 G14]. unfold dropOutdatedLogs.
  destruct (outdated_from _ 0 (rev (existing_logs d))) as [n|] eqn:E; [|by exists groups, old]. case_decide; [|by exists groups, old].
  apply outdated_spec in E as (a & c & b & Hls & Hsum). rewrite G3 in Hls. destruct (counts_split _ _ _ _ _ Hls) as (ga & es0 & gb & -> & <- & <-).
  rewrite counts_sum, G1 in Hsum. assert (Hkeys : (ga ++ (n, es0) :: gb).*1 = ga.*1 ++ [n] ++ gb.*1) by by rewrite fmap_app.
  rewrite Hkeys, app_assoc in G4. destruct (sorted_parts _ _ G4) as (Gn & Gs & Glt). apply sorted_snoc in Gn as [_ Hn].
  assert (Hna : n ∉ ga.*1) by (intros Hin; eapply Forall_forall in Hin; [|exact Hn]; cbn in Hin; lia).
  rewrite G3, Hls, remove_logs_spec by by rewrite counts_keys. rewrite counts_keys.
  exists gb, (old ++ events ga ++ es0). assert (Hev : (old ++ events ga ++ es0) ++ events gb = old ++ events (ga ++ (n, es0) :: gb)) by (rewrite events_app, <- !app_assoc; done).
  split; [|split; [done|done]]. assert (Hgb : gb <> []) by (intros ->; cbn in Hsum; lia).
  split; cbn; try done.
  - by apply Forall_app in G5 as [_ [_ G5]%Forall_cons].
  - destruct gb as [|g gb' _] using rev_ind; [done|]. exists gb'. rewrite app_comm_cons, app_assoc in Glast. apply app_inj_tail in Glast as [_ ->]. by exists es.
  - split; [by eexists|]. unfold files. cbn. change (default ∅ (logs_dir d)) with (files d). split.
    + apply set_eq. intros k. rewrite elem_of_dom, foldl_delete_lookup, elem_of_list_to_set. case_decide as Hk; [split; [by intros [? ?]|intros Hk'; specialize (Glt k k Hk Hk'); lia]|].
      rewrite <- elem_of_dom, G9, elem_of_list_to_set, Hkeys, app_assoc, elem_of_app. tauto.
    + intros g Hg. rewrite foldl_delete_lookup, decide_False; [apply G10; set_solver|]. intros Hk. specialize (Glt g.1 g.1 Hk ltac:(by apply list_elem_of_fmap_2)). lia.
  - by rewrite Hev.
  - by rewrite Hev.
  - by rewrite Hev.
  - right. lia.
Qed.

Lemma rotateAndDrop_logged d groups old : logged d groups old ->
  exists groups' old', logged (rotateAndDropIfNeeded d) groups' old' /\ old' ++ events groups' = old ++ events groups /\ deduplication_map (rotateAndDropIfNeeded d) = deduplication_map d.
Proof.
  intros Hd. unfold rotateAndDropIfNeeded. case_decide; [|by exists groups, old]. pose proof (rotate_logged d groups old Hd) as Hr.
  destruct (dropOutdated_logged _ _ _ Hr) as (groups' & old' & H1 & H2 & H3). exists groups', old'. split; [done|]. split; [rewrite H2, events_app; by rewrite app_nil_r|].
  rewrite H3. unfold rotate. by rewrite decide_False by (rewrite (g_window _ _ _ _ _ Hd); lia).
Qed.

Lemma write_record_logged d groups old e : logged d groups old -> loggable e.1.2 e.2 -> (e.1.1 = ADD -> contains_key e.2 (deduplication_map d) = false) ->
  exists d1 groups1, write_record (to_record e) d = Some d1 /\ deduplication_window d1 = w /\ deduplication_map d1 = deduplication_map d /\
    logged (set_map (apply_event w (deduplication_map d) e) d1) groups1 old /\ events groups1 = events groups ++ [e].
Proof.
  intros [G1 G2 G3 G4 G5 (gs & es & ->) G7 (G8 & G9 & G10) G11 G12 G13 G14] He Hnew. unfold write_record. rewrite G7. cbn [mbind option_bind].
  set (cur := current_log_number d) in *. rewrite fmap_app in G4. cbn in G4. pose proof (proj1 (sorted_snoc _ _) G4) as [_ Hbelow].
  assert (Hcnt : existing_logs d = counts gs ++ [(cur, Z.of_nat (length es))]) by by rewrite G3, counts_app.
  destruct (count_of_last (counts gs) cur (Z.of_nat (length es))) as [Hc Hset]; [by rewrite counts_keys|].
  assert (Hev : events (gs ++ [(cur, es ++ [e])]) = events (gs ++ [(cur, es)]) ++ [e]) by (rewrite !events_app; unfold events; cbn; by rewrite !app_nil_r, app_assoc).
  eexists _, (gs ++ [(cur, es ++ [e])]). split; [done|]. split; [done|]. split; [done|]. split; [|done].
  assert (Hold : old ++ events (gs ++ [(cur, es ++ [e])]) = (old ++ events (gs ++ [(cur, es)])) ++ [e]) by by rewrite Hev, app_assoc.
  split; cbn -[files counts]; try done.
  - rewrite Hcnt, Hc, Hset, counts_app. cbn. rewrite length_app. cbn. do 3 f_equal. lia.
  - by rewrite fmap_app.
  - apply Forall_app in G5 as [G5 G5']. apply Forall_app. split; [done|]. apply Forall_cons in G5' as [G5' _]. by repeat constructor.
  - by exists gs, (es ++ [e]).
  - split; [by eexists|]. unfold files. cbn. change (default ∅ (logs_dir d)) with (files d). split; [by rewrite dom_alter_L, G9, !fmap_app|].
    intros g [Hg|Hg]%elem_of_app.
    + rewrite lookup_alter_ne; [apply G10; set_solver|]. intros Heq. eapply (Forall_forall _ gs.*1) in Hbelow; [|by apply list_elem_of_fmap_2]. cbn in Hbelow. lia.
    + apply list_elem_of_singleton in Hg as ->. cbn [fst snd]. pose proof (G10 (cur, es) ltac:(set_solver)) as Hcur. cbn in Hcur. rewrite lookup_alter_eq, Hcur. cbn. f_equal. unfold bytes. rewrite map_app, concat_app. cbn. by rewrite app_nil_r.
  - rewrite Hold. apply Forall_app. split; [done|by constructor].
  - rewrite Hold, replay_app. unfold replay at 1. cbn. by rewrite G12.
  - rewrite Hold. apply consistent_app. split; [done|]. cbn. split; [|done]. rewrite <- G12. done.
  - rewrite Hev, length_app. destruct G14; [by left|right; lia].
Qed.

Lemma get_None id q : get id q = None <-> contains_key id q = false.
Proof.
  unfold get, contains_key. rewrite bool_decide_eq_false. induction q as [|[k p] q IH]; cbn; [set_solver|]. case_decide as Hk; cbn.
  - subst. split; [done|set_solver].
  - etrans; [apply IH|]. set_solver.
Qed.

Lemma erase_unique key p (a b : window_map) : NoDup (a ++ (key, p) :: b).*1 -> erase key (a ++ (key, p) :: b) = a ++ b.
Proof.
  intros Hn. rewrite fmap_app in Hn. cbn in Hn. apply NoDup_app in Hn as (_ & Ha & [Hb _]%NoDup_cons). rewrite erase_app.
  assert (Hk : forall q : window_map, key ∉ q.*1 -> erase key q = q).
  { intros q Hq. induction q as [|[k p'] q IH]; [done|]. unfold erase. cbn. cbn in Hq. rewrite decide_True by set_solver. f_equal. apply IH. set_solver. }
  rewrite (Hk a) by (intros Hin; apply (Ha key Hin); by left). f_equal. unfold erase. cbn. rewrite decide_False by tauto. by apply Hk.
Qed.

Lemma drop_entries_logged dropped es : forall d groups old pre, logged d groups old -> Forall (fun kv : str * MergeTreePartInfo => loggable kv.2 kv.1) es ->
  deduplication_map d = pre ++ es -> NoDup (deduplication_map d).*1 ->
  exists d' groups' old', drop_entries dropped es d = Some d' /\ logged d' groups' old' /\ deduplication_map d' = pre ++ filter (fun kv : str * MergeTreePartInfo => contains dropped kv.2 = false) es.
Proof.
  induction es as [|[key p] es IH]; intros d groups old pre Hd He Hm Hn; [by exists d, groups, old|]. apply Forall_cons in He as [Hk He]. cbn [drop_entries].
  rewrite filter_cons. cbn [snd]. destruct (contains dropped p) eqn:Ec.
  - rewrite decide_False by done.
    destruct (write_record_logged d groups old (DROP, p, key) Hd Hk ltac:(done)) as (d1 & groups1 & Hwr & Hw1 & Hm1 & Hd1 & _).
    change (to_record (DROP, p, key)) with (mkRecord DROP (getPartName p) key) in Hwr. rewrite Hwr. cbn [mbind option_bind]. rewrite Hm1.
    destruct (rotateAndDrop_logged _ _ _ Hd1) as (groups' & old' & H1 & _ & H3). change (apply_event w (deduplication_map d) (DROP, p, key)) with (erase key (deduplication_map d)) in *.
    assert (Hm' : erase key (deduplication_map d) = pre ++ es) by (rewrite Hm in *; by apply (erase_unique key p)).
    apply (IH _ groups' old' pre); [done|done|by rewrite H3|]. rewrite H3. cbn. rewrite Hm'. rewrite Hm in Hn. rewrite fmap_app in *. cbn in Hn.
    apply NoDup_app in Hn as (H4 & H5 & [H6 H7]%NoDup_cons). apply NoDup_app. split; [done|]. split; [|done]. intros k Hk1 Hk2. apply (H5 k Hk1). by right.
  - rewrite decide_True by done. destruct (IH d groups old (pre ++ [(key, p)]) Hd He) as (d' & groups' & old' & H1 & H2 & H3); [by rewrite <- app_assoc|done|].
    exists d', groups', old'. split; [done|]. split; [done|]. by rewrite <- app_assoc in H3.
Qed.

Lemma replay_valid es : forall q, Forall (fun e : event => loggable e.1.2 e.2) es -> Forall (fun kv : str * MergeTreePartInfo => loggable kv.2 kv.1) q ->
  Forall (fun kv : str * MergeTreePartInfo => loggable kv.2 kv.1) (replay w es q).
Proof.
  induction es as [|[[op p] id] es IH]; intros q He Hq; [done|]. apply Forall_cons in He as [Hl He]. apply IH; [done|]. unfold apply_event. cbn in *. destruct op.
  - unfold insert. destruct (contains_key id q); [done|]. apply Forall_app. split; [|by apply Forall_singleton]. case_decide; [|done]. destruct q; [done|]. by apply Forall_cons in Hq as [_ Hq].
  - apply Forall_forall. intros kv [_ Hin]%list_elem_of_filter. by eapply Forall_forall in Hq.
Qed.

Lemma replay_unique es : forall q, NoDup q.*1 -> NoDup (replay w es q).*1.
Proof.
  induction es as [|[[op p] id] es IH]; intros q Hq; [done|]. apply IH. unfold apply_event. cbn. destruct op.
  - unfold insert. destruct (contains_key id q) eqn:Ec; [done|]. unfold contains_key in Ec. apply bool_decide_eq_false in Ec.
    rewrite fmap_app. apply NoDup_app. case_decide; [destruct q as [|x q]; [cbn; split; [done|]; split; [set_solver|apply NoDup_singleton]|]; cbn in *; apply NoDup_cons in Hq as [_ Hq]|];
      (split; [done|]; split; [set_solver|apply NoDup_singleton]).
  - apply (sublist_NoDup _ q.*1); [done|]. apply fmap_sublist, sublist_filter.
Qed.

Lemma dropPart_logged p d groups old : logged d groups old ->
  exists d' groups' old', dropPart p d = Some d' /\ logged d' groups' old' /\ deduplication_map d' = filter (fun kv : str * MergeTreePartInfo => contains p kv.2 = false) (deduplication_map d).
Proof.
  intros Hd. unfold dropPart. rewrite decide_False by (rewrite (g_window _ _ _ _ _ Hd); lia). apply (drop_entries_logged _ _ _ groups old []); [done| |done|].
  - rewrite (g_map _ _ _ _ _ Hd). apply replay_valid; [apply (g_valid _ _ _ _ _ Hd)|constructor].
  - rewrite (g_map _ _ _ _ _ Hd). apply replay_unique. constructor.
Qed.

(** ** A start *)

Lemma load_logs_ok fs groups q : Forall (fun e : event => loggable e.1.2 e.2) (events groups) -> (forall g, g ∈ groups -> fs !! g.1 = Some (bytes g.2)) ->
  load_logs w v fs (map (fun g => (g.1, 0)) groups) q = (counts groups, replay w (events groups) q).
Proof.
  revert q. induction groups as [|[n es] groups IH]; intros q He Hf; [done|]. change (events ((n, es) :: groups)) with (es ++ events groups) in *. apply Forall_app in He as [He Hes].
  pose proof (Hf (n, es) ltac:(set_solver)) as Hn. cbn [fst snd] in Hn. cbn [map load_logs fst]. rewrite Hn. change (default [] (Some (bytes es))) with (bytes es). rewrite loadSingleLog_ok by done. rewrite IH by (done || set_solver). by rewrite replay_app.
Qed.

Lemma sorted_unique (a : list Z) : forall b, StronglySorted Z.lt a -> StronglySorted Z.lt b -> (forall x, x ∈ a <-> x ∈ b) -> a = b.
Proof.
  induction a as [|x a IH]; intros b Ha Hb Hab; [destruct b as [|y b]; [done|]; specialize (Hab y); set_solver|]. destruct b as [|y b]; [specialize (Hab x); set_solver|].
  apply StronglySorted_inv in Ha as [Ha Hx]. apply StronglySorted_inv in Hb as [Hb Hy].
  assert (x = y) as <-.
  { destruct (decide (x = y)) as [|Hne]; [done|]. assert (Hxb : x ∈ b) by (specialize (Hab x); set_solver). assert (Hya : y ∈ a) by (specialize (Hab y); set_solver).
    eapply Forall_forall in Hxb; [|exact Hy]. eapply Forall_forall in Hya; [|exact Hx]. lia. }
  f_equal. apply IH; [done|done|]. intros z. specialize (Hab z). rewrite !elem_of_cons in Hab. rewrite Forall_forall in Hx, Hy.
  split; intros Hz; [specialize (Hx z Hz)|specialize (Hy z Hz)]; destruct Hab as [H1 H2]; [destruct H1; [by right|lia|done]|destruct H2; [by right|lia|done]].
Qed.

Lemma set_count_keys n c ls : StronglySorted Z.lt ls.*1 -> StronglySorted Z.lt (set_count n c ls).*1 /\ forall k, k ∈ (set_count n c ls).*1 <-> k = n \/ k ∈ ls.*1.
Proof.
  induction ls as [|[m c'] ls IH]; intros Hs; [cbn; split; [repeat constructor|set_solver]|]. pose proof Hs as [Hs' Hm]%StronglySorted_inv. cbn [set_count].
  destruct (Z.ltb_spec n m); [|destruct (Z.eqb_spec n m)].
  - cbn. split; [|set_solver]. constructor; [done|]. constructor; [done|]. eapply Forall_impl; [exact Hm|]. cbn. lia.
  - subst. cbn. split; [done|set_solver].
  - destruct (IH Hs') as [H1 H2]. cbn. split; [|intros k; rewrite !elem_of_cons, (H2 k); tauto]. constructor; [done|]. apply Forall_forall. intros k [->|Hk]%H2; [lia|]. by eapply Forall_forall in Hm.
Qed.

Lemma set_count_zero n ls : Forall (fun kc : Z * Z => kc.2 = 0) ls -> Forall (fun kc : Z * Z => kc.2 = 0) (set_count n 0 ls).
Proof. induction 1 as [|[k c] ls Hc Hl IH]; cbn [set_count]; [by repeat constructor|]. destruct (n <? k), (n =? k); repeat constructor; done. Qed.

(** The files that are found are listed in the order of their numbers, with the counts 0. *)
Lemma found_logs (ns : list Z) groups : StronglySorted Z.lt groups.*1 -> (forall k, k ∈ ns <-> k ∈ groups.*1) ->
  foldl (fun ls n => set_count n 0 ls) [] ns = map (fun g : Z * list event => (g.1, 0)) groups.
Proof.
  intros Hs Hk.
  assert (H : forall ls, StronglySorted Z.lt ls.*1 -> Forall (fun kc : Z * Z => kc.2 = 0) ls -> let r := foldl (fun ls n => set_count n 0 ls) ls ns in
    StronglySorted Z.lt r.*1 /\ (forall k, k ∈ r.*1 <-> k ∈ ns \/ k ∈ ls.*1) /\ Forall (fun kc : Z * Z => kc.2 = 0) r).
  { clear Hk. induction ns as [|n ns IH]; intros ls Hls Hz; cbn; [split; [done|]; split; [|done]; set_solver|].
    destruct (set_count_keys n 0 ls Hls) as [H1 H2]. destruct (IH _ H1 (set_count_zero n ls Hz)) as (H3 & H4 & H5). split; [done|]. split; [|done].
    intros k. rewrite H4, H2, elem_of_cons. tauto. }
  destruct (H [] ltac:(constructor) ltac:(constructor)) as (H1 & H2 & H3). set (r := foldl _ _ _) in *. clearbody r.
  assert (Hr : r.*1 = groups.*1) by (apply sorted_unique; [done|done|]; intros k; rewrite H2, Hk; set_solver). clear - Hr H3.
  revert groups Hr. induction H3 as [|[k c] r Hc _ IH]; intros [|g groups] Hr; try done. cbn in *. injection Hr as -> Hr. subst c. f_equal. by apply IH.
Qed.

(** What a start reads is what the files that are left record. *)
Lemma load_logged d groups old : logged d groups old ->
  exists d' groups' old', load (create w v (logs_dir d)) = Some d' /\ logged d' groups' old' /\ old' ++ events groups' = events groups.
Proof.
  intros Hd. pose proof Hd as [G1 G2 G3 G4 G5 (gs & es & Glast) G7 (G8 & G9 & G10) G11 G12 G13 G14]. destruct G8 as [fs Hfs]. unfold files in G9, G10. rewrite Hfs in G9, G10. cbn [default from_option id] in G9, G10.
  set (D := mk w v (current_log_number d) (counts groups) (replay w (events groups) []) (Some (current_log_number d)) (Some fs)).
  apply Forall_app in G11 as [_ G11]. assert (Hcons : consistent w [] (events groups)).
  { apply consistent_app in G13 as [_ Hc]. apply (replay_suffix w _ (replay w old [])); [done|apply replay_bounded; [done|cbn; lia]|apply suffix_nil|done]. }
  assert (HD : logged D groups []) by (split; cbn; try done; [by exists gs, es|by left]).
  assert (Hlast : forall f : Z * list event -> Z * Z, (forall g, (f g).1 = g.1) -> fst <$> last (map f groups) = Some (current_log_number d)).
  { intros f Hf. rewrite Glast, map_app. cbn. rewrite last_snoc. cbn. by rewrite Hf. }
  unfold load, create. rewrite Hfs, decide_True by lia. cbn [default from_option id logs_dir deduplication_window format_version existing_logs deduplication_map current_writer current_log_number].
  rewrite (found_logs _ groups) by (done || (intros k; rewrite elem_of_elements, G9, elem_of_list_to_set; done)).
  specialize (Hlast (fun g => (g.1, 0)) ltac:(done)) as Hl0. destruct (last (map (fun g : Z * list event => (g.1, 0)) groups)) as [[n c]|] eqn:El; [|done]. injection Hl0 as ->.
  rewrite decide_False by lia. rewrite load_logs_ok by done. set (d0 := set_map _ _).
  assert (Hopen : ensure_writer d0 = Some D).
  { unfold ensure_writer. cbn. specialize (Hlast (fun g => (g.1, Z.of_nat (length g.2))) ltac:(done)) as Hl1. change (map _ groups) with (counts groups) in Hl1.
    destruct (last (counts groups)) as [[n c']|]; [|done]. injection Hl1 as ->. unfold open_file, files. cbn.
    assert (Hcur : fs !! current_log_number d = Some (bytes es)) by (apply (G10 (current_log_number d, es)); rewrite Glast; set_solver). by rewrite Hcur. }
  unfold rotateAndDropIfNeeded. case_decide as Hrot; [|by exists D, groups, []]. pose proof (rotate_logged D groups [] HD) as Hr. replace (rotate d0) with (rotate D) by (unfold rotate; cbn; by rewrite !(decide_False (P := w = 0%nat)) by lia).
  destruct (dropOutdated_logged _ _ _ Hr) as (groups' & old' & H1 & H2 & _). exists (dropOutdatedLogs (rotate D)), groups', old'.
  split; [unfold ensure_writer; by rewrite (g_writer _ _ _ _ _ H1)|]. split; [done|]. by rewrite H2, events_app, app_nil_r.
Qed.

Lemma load_empty dir : dir = None \/ dir = Some ∅ -> exists d, load (create w v dir) = Some d /\ logged d [(1, [])] [].
Proof.
  intros Hdir. set (d := mk w v 1 [(1, 0)] [] (Some 1) (Some {[1 := []]})). exists d. split.
  - unfold load, create. rewrite decide_True by lia. replace (default ∅ dir) with (∅ : gmap Z str) by by destruct Hdir as [->| ->]. cbn. rewrite dom_empty_L, elements_empty. cbn.
    rewrite decide_False by lia. unfold rotateAndDropIfNeeded. rewrite decide_True by by left. set (d0 := mk _ _ _ _ _ _ _).
    assert (Hr : rotate d0 = d) by (unfold rotate; cbn; by rewrite !(decide_False (P := w = 0%nat)) by lia). change (set_map _ _) with d0. rewrite Hr.
    assert (Ho : dropOutdatedLogs d = d) by (unfold dropOutdatedLogs, d; cbn -[Z.gtb Z.of_nat]; by rewrite Z.gtb_ltb, (proj2 (Z.ltb_ge _ _)) by lia). by rewrite Ho.
  - split; cbn; try done; [repeat constructor|repeat constructor|by exists [], []| |by left]. split; [by eexists|]. unfold files. cbn. split; [by vm_compute|].
    intros g ->%list_elem_of_singleton. done.
Qed.

(** The histories: with [drops] false there is no DROP in them. *)
Definition alive (drops : bool) (d : t) : Prop :=
  exists groups old, logged d groups old /\ (drops = false -> Forall (fun e : event => e.1.1 = ADD) (old ++ events groups)).

Lemma load_alive drops d : alive drops d ->
  exists d', load (create w v (logs_dir d)) = Some d' /\ alive drops d' /\ deduplication_map d' `suffix_of` deduplication_map d /\ (drops = false -> deduplication_map d' = deduplication_map d).
Proof.
  intros (groups & old & Hd & Ha). destruct (load_logged _ _ _ Hd) as (d' & groups' & old' & Hl & Hd' & Hev). exists d'. split; [done|]. split.
  - exists groups', old'. split; [done|]. rewrite Hev. intros Hdr. by apply Ha, Forall_app in Hdr as [_ H].
  - rewrite (g_map _ _ _ _ _ Hd), (g_map _ _ _ _ _ Hd'), Hev. pose proof (g_consistent _ _ _ _ _ Hd) as Hc. split.
    + rewrite replay_app. apply consistent_app in Hc as [_ Hc]. apply (replay_suffix w _ (replay w old [])); [done|apply replay_bounded; [done|cbn; lia]|apply suffix_nil|done].
    + intros Hdr. apply replay_recent; [done|by apply Ha|done|apply (g_kept _ _ _ _ _ Hd)].
Qed.

Lemma alive_bounded drops d : alive drops d -> (length (deduplication_map d) <= w)%nat.
Proof. intros (groups & old & Hd & _). rewrite (g_map _ _ _ _ _ Hd). apply replay_bounded; [done|cbn; lia]. Qed.

Lemma insert_spec id p q : (length q <= w)%nat -> contains_key id q = false -> insert w id p q = drop (S (length q) - w) (q ++ [(id, p)]).
Proof.
  intros Hq Hc. rewrite insert_new by done. case_decide as Hl.
  - replace (S (length q) - w)%nat with 1%nat by lia. destruct q; [cbn in *; lia|done].
  - by replace (S (length q) - w)%nat with 0%nat by lia.
Qed.

Lemma addPart_alive drops id p d out : alive drops d -> loggable p id ->
  exists d' r, addPart id p d = Some (d', r) /\ alive drops d' /\ spec_step w (deduplication_map d, out) (Insert id p) = (deduplication_map d', out ++ [r]).
Proof.
  intros Hal Hl. pose proof (alive_bounded _ _ Hal) as Hb. destruct Hal as (groups & old & Hd & Ha).
  unfold addPart, spec_step. rewrite decide_False by (rewrite (g_window _ _ _ _ _ Hd); lia). destruct (get id (deduplication_map d)) as [info|] eqn:E.
  { eexists _, _. split; [done|]. split; [by exists groups, old|done]. }
  apply get_None in E. destruct (write_record_logged d groups old (ADD, p, id) Hd Hl ltac:(done)) as (d1 & groups1 & Hwr & Hw1 & Hm1 & Hd1 & Hev).
  change (to_record (ADD, p, id)) with (mkRecord ADD (getPartName p) id) in Hwr. rewrite Hwr. cbn [mbind option_bind]. rewrite Hw1, Hm1.
  destruct (rotateAndDrop_logged _ _ _ Hd1) as (groups' & old' & H1 & H2 & H3). eexists _, _. split; [done|]. split.
  - exists groups', old'. split; [done|]. rewrite H2, Hev, app_assoc. intros Hdr. apply Forall_app. split; [by apply Ha|by apply Forall_singleton].
  - cbn in H3. rewrite <- insert_spec by done. f_equal. symmetry. exact H3.
Qed.

Lemma dropPart_alive p d : alive true d ->
  exists d', dropPart p d = Some d' /\ alive true d' /\ deduplication_map d' = filter (fun kv : str * MergeTreePartInfo => contains p kv.2 = false) (deduplication_map d).
Proof. intros (groups & old & Hd & _). destruct (dropPart_logged p _ _ _ Hd) as (d' & groups' & old' & Hdp & Hd' & Hm). exists d'. split; [done|]. split; [|done]. by exists groups', old'. Qed.

Lemma run_alive ops : Forall op_ok ops ->
  exists d out, run w v ops = Some (d, out) /\ alive (existsb is_drop ops) d /\ ((forall a b, ops = a ++ Restart :: b -> existsb is_drop a = false) -> spec_run w ops = (deduplication_map d, out)).
Proof.
  unfold run, spec_run. destruct (load_empty None (or_introl eq_refl)) as (d0 & Hl & Hd0). rewrite Hl. cbn [mbind option_bind].
  assert (Hm0 : deduplication_map d0 = []) by by rewrite (g_map _ _ _ _ _ Hd0).
  induction ops as [|o ops IH] using rev_ind; intros Hok; [exists d0, []; split; [done|]; split; [by exists [(1, [])], []|cbn; by rewrite Hm0]|].
  apply Forall_app in Hok as [Hok Ho]. apply Forall_cons in Ho as [Ho _]. destruct (IH Hok) as (d & out & Hr & Hal & Hs). rewrite !foldl_app, Hr, existsb_app. cbn [foldl mbind option_bind existsb].
  assert (Hal' : alive true d) by (destruct Hal as (groups & old & Hd & _); by exists groups, old).
  assert (Hs' : (forall a b, ops ++ [o] = a ++ Restart :: b -> existsb is_drop a = false) -> foldl (spec_step w) ([], []) ops = (deduplication_map d, out)).
  { intros H. apply Hs. intros a b ->. apply (H a (b ++ [o])). by rewrite <- app_assoc. }
  destruct o as [id p|p|]; cbn [is_drop orb step].
  - rewrite orb_false_r. destruct (addPart_alive _ id p d out Hal Ho) as (d' & r & -> & Ha' & Hsp). exists d', (out ++ [r]). split; [done|]. split; [done|]. intros Hnd. by rewrite Hs'.
  - rewrite orb_true_r. destruct (dropPart_alive p d Hal') as (d' & -> & Ha' & Hm). exists d', out. split; [done|]. split; [done|]. intros Hnd. rewrite Hs' by done. cbn. by rewrite Hm.
  - rewrite orb_false_r. destruct (load_alive _ _ Hal) as (d' & -> & Ha' & _ & Heq). exists d', out. split; [done|]. split; [done|]. intros Hnd. rewrite Hs' by done. cbn. rewrite Heq; [done|]. by apply (Hnd ops []).
Qed.
End life.

(** C16: [MergeTreeDeduplicationLog], from an empty directory, through any sequence of inserted blocks, dropped parts and restarts. No call fails, and the window never holds more than the blocks it
    is for. As long as no restart follows a drop, each answer of [addPart] and the window are those of the promised window: a block among the last [w] that were inserted is found to be a duplicate,
    with the part it went to, however often the log was rotated, its old files were removed and it was read back. A restart at any time reads the files and has no block the window did not have:
    it may forget the oldest ones. *)
Theorem window_survives w v ops : (0 < w)%nat -> Z.of_nat w < 2 ^ 63 -> 1 <= v -> Forall op_ok ops ->
  exists d out, run w v ops = Some (d, out) /\ (length (deduplication_map d) <= w)%nat /\
    ((forall a b, ops = a ++ Restart :: b -> existsb is_drop a = false) -> spec_run w ops = (deduplication_map d, out)) /\
    (exists d', load (create w v (logs_dir d)) = Some d' /\ deduplication_map d' `suffix_of` deduplication_map d).
Proof.
  intros Hw Hm Hv Hok. destruct (run_alive w v Hw Hm Hv ops Hok) as (d & out & Hr & Hal & Hs). exists d, out. split; [done|]. split; [by eapply alive_bounded|]. split; [done|].
  destruct (load_alive w v Hw Hm Hv _ _ Hal) as (d' & Hl & _ & Hsuf & _). by exists d'.
Qed.

Definition part_of (n : Z) : MergeTreePartInfo := mkPart (lit "all") n n 0 0 false.

Lemma part_of_loggable n s : 0 < n < 1000 -> bool_decide (no_separator s) = true -> loggable (part_of n) s.
Proof.
  intros Hn Hs. split; [|split; [apply (bool_decide_unpack _); vm_compute; exact I|by apply (bool_decide_eq_true_1 _)]].
  split; [done|]. split; [apply (bool_decide_unpack _); vm_compute; exact I|]. unfold part_of, LEGACY_MAX_LEVEL. cbn. lia.
Qed.

(** Five blocks with a window of three: the log is rotated, and after a restart the second block, which has left the window, is inserted again and the fifth is not. *)
Definition five_blocks : list op :=
  [Insert (lit "a") (part_of 1); Insert (lit "b") (part_of 2); Insert (lit "c") (part_of 3); Insert (lit "d") (part_of 4); Insert (lit "e") (part_of 5); Restart;
   Insert (lit "e") (part_of 6); Insert (lit "b") (part_of 7); Restart].

Lemma window_survives_witness :
  Forall op_ok five_blocks /\ exists d out, run 3 1 five_blocks = Some (d, out) /\ (deduplication_map d).*1 = [lit "d"; lit "e"; lit "b"] /\
    out = [(part_of 1, true); (part_of 2, true); (part_of 3, true); (part_of 4, true); (part_of 5, true); (part_of 5, false); (part_of 7, true)].
Proof.
  assert (Hok : Forall op_ok five_blocks) by (repeat first [apply Forall_nil | apply Forall_cons; split]; first [exact I | apply part_of_loggable; [lia | vm_compute; reflexivity]]). split; [exact Hok|].
  destruct (window_survives 3 1 five_blocks ltac:(lia) ltac:(lia) ltac:(lia) Hok) as (d & out & Hr & _ & Hs & _). exists d, out. split; [exact Hr|].
  assert (Hn : forall a b, five_blocks = a ++ Restart :: b -> existsb is_drop a = false).
  { intros a b Hab. assert (Hf : existsb is_drop five_blocks = false) by (vm_compute; reflexivity). rewrite Hab, existsb_app in Hf. by apply orb_false_iff in Hf as [Hf _]. }
  specialize (Hs Hn). assert (He : spec_run 3 five_blocks = ([(lit "d", part_of 4); (lit "e", part_of 5); (lit "b", part_of 7)],
    [(part_of 1, true); (part_of 2, true); (part_of 3, true); (part_of 4, true); (part_of 5, true); (part_of 5, false); (part_of 7, true)])) by (vm_compute; reflexivity).
  rewrite He in Hs. injection Hs as <- <-. split; reflexivity.
Defined.

(** The records of dropped blocks count when old files are removed: a window of two keeps block [a] while others are dropped, and the file that names it is removed.
    The next start does not know the block, and its insert is taken again. *)
Definition drops_between : list op :=
  [Insert (lit "a") (part_of 1); Insert (lit "x") (part_of 2); Drop (part_of 2); Insert (lit "y") (part_of 3); Drop (part_of 3); Insert (lit "x") (part_of 4); Drop (part_of 4); Insert (lit "y") (part_of 5)].

Lemma dropped_blocks_push_out :
  (exists d out, run 2 1 drops_between = Some (d, out) /\ (deduplication_map d).*1 = [lit "a"; lit "y"]) /\
  (exists d out, run 2 1 (drops_between ++ [Restart; Insert (lit "a") (part_of 6)]) = Some (d, out) /\ last out = Some (part_of 6, true)).
Proof. split; eexists _, _; (split; [vm_compute; reflexivity|reflexivity]). Qed.

(** After a record that was cut short the file is still appended to: what is inserted then is lost at the next start. *)
Lemma torn_record_loses :
  exists d d' r, load (create 2 1 (Some {[1 := writeRecord (mkRecord ADD (lit "all_1_1_0") (lit "a")) ++ lit "1" ++ [ch_tab] ++ lit "all_9_9"]})) = Some d /\
    addPart (lit "b") (part_of 2) d = Some (d', r) /\ (deduplication_map d').*1 = [lit "a"; lit "b"] /\
    exists d'', load (create 2 1 (logs_dir d')) = Some d'' /\ (deduplication_map d'').*1 = [lit "a"].
Proof. eexists _, _, _. split; [vm_compute; reflexivity|]. split; [vm_compute; reflexivity|]. split; [reflexivity|]. eexists. split; [vm_compute; reflexivity|]. vm_compute. reflexivity. Qed.

(** A window that is set to 0 while it is 0 and there is no log takes the last log of none. *)
Lemma zero_window_reset v : exists d, load (create 0 v None) = Some d /\ setDeduplicationWindowSize 0 d = None.
Proof. eexists. split; reflexivity. Qed.
