(* ===== verification/RestRoute.v ===== *)
(** * RestRoute: which handler serves a request

    Models src/src/Server/RestRouterHandlers/RestRouterFactory.h: the table of routes, in the order they are
    registered, each with the methods it serves and a pattern for the URL; the first route that
    serves the method and whose pattern matches the whole URL makes the handler, and the named groups of the
    pattern become its path parameters.

    RE2 is a parameter: [Re2] answers for a pattern, given as its syntax tree, and a text, and [Re2Laws] says what the library documents,
    that a match is found if and only if there is one.  [pattern] prints a tree as the text it stands for. *)

From stdpp Require Import strings.
From S2P Require Import Prelude TextFormat Catalog MessageBlock.

(** ** Patterns *)

(** A class of characters has its text and its members. *)
Inductive regex : Type :=
| RLit (s : str)
| RQuestion
| RPlus (text : str) (members : ascii -> bool)
| RMaybe (s : str)
| ROnce (r : regex)
| RGroup (r : regex)
| RNamed (name : str) (r : regex)
| RCat (a b : regex)
| RAlt (a b : regex)
| REnd.

Fixpoint pattern (r : regex) : str :=
  match r with
  | RLit s => s
  | RQuestion => lit "\?"
  | RPlus text _ => text ++ lit "+"
  | RMaybe s => s ++ lit "?"
  | ROnce r => lit "(" ++ pattern r ++ lit "){0,1}"
  | RGroup r => lit "(" ++ pattern r ++ lit ")"
  | RNamed name r => lit "(?P<" ++ name ++ lit ">" ++ pattern r ++ lit ")"
  | RCat a b => pattern a ++ pattern b
  | RAlt a b => pattern a ++ lit "|" ++ pattern b
  | REnd => lit "$"
  end.

(** The pattern matches [s] when [rest] follows; the named groups hold [caps]. *)
Inductive matches : regex -> str -> str -> list (str * str) -> Prop :=
| m_lit s rest : matches (RLit s) s rest []
| m_question rest : matches RQuestion (lit "?") rest []
| m_plus text p s rest : s <> [] -> Forall (fun c => p c = true) s -> matches (RPlus text p) s rest []
| m_maybe_no s rest : matches (RMaybe s) [] rest []
| m_maybe s rest : matches (RMaybe s) s rest []
| m_once_no r rest : matches (ROnce r) [] rest []
| m_once r s rest caps : matches r s rest caps -> matches (ROnce r) s rest caps
| m_group r s rest caps : matches r s rest caps -> matches (RGroup r) s rest caps
| m_named name r s rest caps : matches r s rest caps -> matches (RNamed name r) s rest ((name, s) :: caps)
| m_cat a b s t rest caps caps' : matches a s (t ++ rest) caps -> matches b t rest caps' -> matches (RCat a b) (s ++ t) rest (caps ++ caps')
| m_alt_l a b s rest caps : matches a s rest caps -> matches (RAlt a b) s rest caps
| m_alt_r a b s rest caps : matches b s rest caps -> matches (RAlt a b) s rest caps
| m_end : matches REnd [] [] [].

(** [RE2::Match] anchored at both ends, with the named groups. *)
Class Re2 : Type := re_match : regex -> str -> option (list (str * str)).
Class Re2Laws (R : Re2) : Prop := {
  re_sound : forall r s caps, re_match r s = Some caps -> matches r s [] caps;
  re_complete : forall r s caps, matches r s [] caps -> re_match r s <> None
}.

Module Routes.
(** ** Routes *)

Inductive handler : Type :=
| IngestRest | IngestRawStore | Search | IngestStatus | TabularTable | RawstoreTable | Column | Database | SQLAnalyzer | Task | Ping | ClusterInfo | APISpec.

(** A piece between slashes. *)
Inductive piece : Type := Fixed (s : str) | Param (name : str) (r : regex).

Definition piece_regex (p : piece) : regex := match p with Fixed s => RLit s | Param name r => RNamed name r end.

(** The pieces, then the tail. *)
Definition path_regex (ps : list piece) (tail : regex) : regex := foldr (fun p r => RCat (RLit (lit "/")) (RCat (piece_regex p) r)) tail ps.

Definition is_one_of (chars : string) (c : ascii) : bool := bool_decide (c ∈ lit chars).

Definition escaped : regex := RPlus (lit "[%\w]") (fun c => isWordCharASCII c || is_one_of "%" c).
Definition word : regex := RPlus (lit "\w") isWordCharASCII.
Definition query_chars (c : ascii) : bool := isWordCharASCII c || is_one_of "-=&#" c.
Definition any_query : regex := ROnce (RCat RQuestion (RPlus (lit "[\w\-=&#]") query_chars)).
Definition mode_query : regex := ROnce (RCat RQuestion (RCat (RLit (lit "mode=")) word)).
Definition no_tail : regex := RLit [].
Definition task_tail : regex :=
  RGroup (RAlt (RCat (RMaybe (lit "/")) REnd)
               (RCat (RLit (lit "/")) (RNamed (lit "task_id") (RPlus (lit "[-\w]") (fun c => isWordCharASCII c || is_one_of "-" c))))).

Record route : Type := mkRoute { r_pieces : list piece; r_tail : regex; r_method : str; r_handler : handler }.
Definition r_regex (r : route) : regex := path_regex (r_pieces r) (r_tail r).

Definition dae : list piece := [Fixed (lit "dae")].
Definition v1 (ss : list string) : list piece := dae ++ [Fixed (lit "v1")] ++ map (fun s => Fixed (lit s)) ss.

(** [registerRestRouterHandlers] *)
Definition router_handlers : list route :=
  [mkRoute (v1 ["ingest"; "tables"]%string ++ [Param (lit "table") escaped]) mode_query (lit "POST") IngestRest;
   mkRoute (v1 ["ingest"; "rawstores"]%string ++ [Param (lit "rawstore") escaped]) mode_query (lit "POST") IngestRawStore;
   mkRoute (v1 ["search"]%string) any_query (lit "POST") Search;
   mkRoute (v1 ["ingest"; "statuses"]%string) no_tail (lit "POST") IngestStatus;
   mkRoute (v1 ["ddl"; "tables"]%string) any_query (lit "GET/POST") TabularTable;
   mkRoute (v1 ["ddl"; "tables"]%string ++ [Param (lit "table") escaped]) any_query (lit "PATCH/DELETE") TabularTable;
   mkRoute (v1 ["ddl"; "rawstores"]%string) any_query (lit "GET/POST") RawstoreTable;
   mkRoute (v1 ["ddl"; "rawstores"]%string ++ [Param (lit "table") escaped]) any_query (lit "PATCH/DELETE") RawstoreTable;
   mkRoute (v1 ["ddl"]%string ++ [Param (lit "table") escaped; Fixed (lit "columns")]) any_query (lit "GET/POST") Column;
   mkRoute (v1 ["ddl"]%string ++ [Param (lit "table") escaped; Fixed (lit "columns"); Param (lit "column") escaped]) any_query (lit "PATCH/DELETE") Column;
   mkRoute (v1 ["ddl"; "databases"]%string) any_query (lit "GET/POST") Database;
   mkRoute (v1 ["ddl"; "databases"]%string ++ [Param (lit "database") word]) any_query (lit "DELETE") Database;
   mkRoute (v1 ["sqlanalyzer"]%string) no_tail (lit "POST") SQLAnalyzer;
   mkRoute (v1 ["tasks"]%string) task_tail (lit "GET") Task;
   mkRoute (dae ++ [Param (lit "status") (RAlt (RLit (lit "ping")) (RLit (lit "info")))]) REnd (lit "GET") Ping;
   mkRoute (v1 ["clusterinfo"]%string) no_tail (lit "GET") ClusterInfo;
   mkRoute (dae ++ [Fixed (lit "apis")]) no_tail (lit "GET") APISpec].

(** [setPathParameter] for each named group. *)
Definition path_parameters (caps : list (str * str)) : gmap str str :=
  foldl (fun m kv => <[kv.1 := unescapeForFileName kv.2]> m) ∅ caps.

(** [RestRouterFactory::get]; [router_handler.method.find(method)] looks for the method anywhere in the text. *)
Fixpoint get_from `{Re2} (routes : list route) (url method : str) : option (handler * gmap str str) :=
  match routes with
  | [] => None
  | r :: routes =>
      if contains method (r_method r) then
        match re_match (r_regex r) url with
        | Some caps => Some (r_handler r, path_parameters caps)
        | None => get_from routes url method
        end
      else get_from routes url method
  end.
Definition get `{Re2} (url method : str) : option (handler * gmap str str) := get_from router_handlers url method.
End Routes.
Import Routes.

(** The patterns are those of the source. *)
Lemma patterns_of_source :
  map (fun r => pattern (r_regex r)) router_handlers =
  map lit
    ["/dae/v1/ingest/tables/(?P<table>[%\w]+)(\?mode=\w+){0,1}";
     "/dae/v1/ingest/rawstores/(?P<rawstore>[%\w]+)(\?mode=\w+){0,1}";
     "/dae/v1/search(\?[\w\-=&#]+){0,1}";
     "/dae/v1/ingest/statuses";
     "/dae/v1/ddl/tables(\?[\w\-=&#]+){0,1}";
     "/dae/v1/ddl/tables/(?P<table>[%\w]+)(\?[\w\-=&#]+){0,1}";
     "/dae/v1/ddl/rawstores(\?[\w\-=&#]+){0,1}";
     "/dae/v1/ddl/rawstores/(?P<table>[%\w]+)(\?[\w\-=&#]+){0,1}";
     "/dae/v1/ddl/(?P<table>[%\w]+)/columns(\?[\w\-=&#]+){0,1}";
     "/dae/v1/ddl/(?P<table>[%\w]+)/columns/(?P<column>[%\w]+)(\?[\w\-=&#]+){0,1}";
     "/dae/v1/ddl/databases(\?[\w\-=&#]+){0,1}";
     "/dae/v1/ddl/databases/(?P<database>\w+)(\?[\w\-=&#]+){0,1}";
     "/dae/v1/sqlanalyzer";
     "/dae/v1/tasks(/?$|/(?P<task_id>[-\w]+))";
     "/dae/(?P<status>ping|info)$";
     "/dae/v1/clusterinfo";
     "/dae/apis"]%string.
Proof. by vm_compute. Qed.

(** ** A matcher *)

Section matcher.
(** The non-empty beginnings whose characters are all members, with what follows. *)
Fixpoint prefixes (p : ascii -> bool) (s : str) : list (str * str) :=
  match s with
  | [] => []
  | c :: s => if p c then ([c], s) :: map (fun t => (c :: t.1, t.2)) (prefixes p s) else []
  end.

(** All ways to match the beginning of a text: what is matched, what follows, and the groups. *)
Fixpoint ways (r : regex) (s : str) : list (str * str * list (str * str)) :=
  let literal l := if decide (take (length l) s = l) then [(l, drop (length l) s, [])] else [] in
  match r with
  | RLit l => literal l
  | RQuestion => literal (lit "?")
  | RPlus _ p => map (fun t => (t.1, t.2, [])) (prefixes p s)
  | RMaybe l => literal l ++ [([], s, [])]
  | ROnce r => ways r s ++ [([], s, [])]
  | RGroup r => ways r s
  | RNamed name r => map (fun t => (t.1.1, t.1.2, (name, t.1.1) :: t.2)) (ways r s)
  | RCat a b => ways a s ≫= fun t => map (fun u => (t.1.1 ++ u.1.1, u.1.2, t.2 ++ u.2)) (ways b t.1.2)
  | RAlt a b => ways a s ++ ways b s
  | REnd => match s with [] => [([], [], [])] | _ => [] end
  end.

Lemma prefixes_spec p s t rest : (t, rest) ∈ prefixes p s <-> s = t ++ rest /\ t <> [] /\ Forall (fun c => p c = true) t.
Proof.
  revert t rest. induction s as [|c s IH]; intros t rest; cbn [prefixes].
  - rewrite elem_of_nil. split; [done|]. intros (H & Ht & _). by destruct t.
  - destruct (p c) eqn:Hp.
    + rewrite elem_of_cons, list_elem_of_fmap. split.
      * intros [[= -> ->]|([t' rest'] & [= -> ->] & (-> & Ht & Hf)%IH)]; [split; [done|]; split; [done|]; by repeat constructor|]. split; [done|]. split; [done|]. by constructor.
      * intros (Hs & Ht & Hf). destruct t as [|c' t]; [done|]. injection Hs as <- Hs. apply Forall_cons in Hf as [_ Hf]. destruct t as [|c' t]; [left; by f_equal|].
        right. exists (c' :: t, rest). split; [done|]. apply IH. by split.
    + rewrite elem_of_nil. split; [done|]. intros (Hs & Ht & Hf). destruct t as [|c' t]; [done|]. injection Hs as <- _. apply Forall_cons in Hf as [Hf _]. by rewrite Hp in Hf.
Qed.

Lemma literal_spec (l s t rest : str) (caps : list (str * str)) :
  (t, rest, caps) ∈ (if decide (take (length l) s = l) then [(l, drop (length l) s, [])] else []) <-> s = t ++ rest /\ t = l /\ caps = [].
Proof.
  case_decide as Hl.
  - rewrite list_elem_of_singleton. split; [intros [= -> -> ->]; split; [|done]; rewrite <- (take_drop (length l) s) at 1; by rewrite Hl|].
    intros (-> & -> & ->). by rewrite drop_app_length.
  - rewrite elem_of_nil. split; [done|]. intros (-> & -> & _). by rewrite take_app_length in Hl.
Qed.

(** The ways are exactly the matches. *)
Lemma ways_spec r : forall s t rest caps, (t, rest, caps) ∈ ways r s <-> s = t ++ rest /\ matches r t rest caps.
Proof.
  induction r as [l| |text p|l|r IH|r IH|name r IH|a IHa b IHb|a IHa b IHb|]; intros s t rest caps; cbn [ways].
  - rewrite literal_spec. split; [intros (-> & -> & ->); split; [done|constructor]|intros [-> H]; by inversion H; subst].
  - rewrite literal_spec. split; [intros (-> & -> & ->); split; [done|constructor]|intros [-> H]; by inversion H; subst].
  - rewrite list_elem_of_fmap. split; [intros ([t' rest'] & [= -> -> ->] & (-> & Ht & Hf)%prefixes_spec); split; [done|by constructor]|].
    intros [-> H]. inversion H; subst. exists (t, rest). split; [done|]. by apply prefixes_spec.
  - rewrite elem_of_app, literal_spec, list_elem_of_singleton. split; [intros [(-> & -> & ->)|[= -> -> ->]]; (split; [done|constructor])|].
    intros [-> H]. inversion H; subst; [by right|by left].
  - rewrite elem_of_app, IH, list_elem_of_singleton. split; [intros [[-> H]|[= -> -> ->]]; (split; [done|by constructor])|]. intros [-> H]. inversion H; subst; [by right|by left].
  - rewrite IH. split; [intros [-> H]; split; [done|by constructor]|intros [-> H]; by inversion H; subst].
  - rewrite list_elem_of_fmap. split; [intros ([[t' rest'] caps'] & [= -> -> ->] & [-> H]%IH); split; [done|by constructor]|].
    intros [-> H]. inversion H; subst. eexists (_, _, _). split; [done|]. by apply IH.
  - rewrite list_elem_of_bind. split.
    + intros ([[t' rest'] caps'] & Hu & [-> Ha]%IHa). cbn [fst snd] in Hu. apply list_elem_of_fmap in Hu as ([[t'' rest''] caps''] & [= -> -> ->] & [-> Hb]%IHb). split; [by rewrite app_assoc|by constructor].
    + intros [-> H]. inversion H; subst. rewrite <- app_assoc. eexists (_, _, _). split; [|by apply IHa]. apply list_elem_of_fmap. eexists (_, _, _). split; [done|]. by apply IHb.
  - rewrite elem_of_app, IHa, IHb. split; [intros [[-> H]|[-> H]]; (split; [done|by constructor])|]. intros [-> H]. inversion H; subst; [by left|by right].
  - destruct s as [|c s]; [rewrite list_elem_of_singleton|rewrite elem_of_nil].
    + split; [intros [= -> -> ->]; split; [done|constructor]|intros [_ H]; by inversion H; subst].
    + split; [done|]. intros [Hs H]. inversion H; subst. done.
Qed.

Definition backtracking : Re2 := fun r s => snd <$> head (filter (fun t => t.1.2 = []) (ways r s)).

Lemma backtracking_laws : Re2Laws backtracking.
Proof.
  split; intros r s caps.
  - unfold re_match, backtracking. destruct (head _) as [[[t rest] caps']|] eqn:E; [|done]. intros [= ->]. apply head_Some_elem_of, list_elem_of_filter in E as [Hr [-> Hm]%ways_spec].
    cbn in Hr. subst. by rewrite app_nil_r.
  - intros Hm. unfold re_match, backtracking. assert (Hin : (s, [], caps) ∈ filter (fun t : str * str * list (str * str) => t.1.2 = []) (ways r s)).
    { apply list_elem_of_filter. split; [done|]. apply ways_spec. by rewrite app_nil_r. }
    set (l := filter _ _) in *. clearbody l. destruct l; [by apply elem_of_nil in Hin|done].
Qed.
End matcher.

(** ** What the routes match *)

Definition segment_char (c : ascii) : Prop := c <> "/"%char /\ c <> "?"%char.

(** A URL from its segments and its end. *)
Definition path_text (vals : list str) (q : str) : str := foldr (fun v t => lit "/" ++ v ++ t) q vals.

(** The segments of a URL: what stands between the slashes before the question mark. *)
Fixpoint cut (s : str) : list str :=
  match s with
  | [] => [[]]
  | c :: s =>
      if decide (c = "?"%char) then [[]] else if decide (c = "/"%char) then [] :: cut s
      else match cut s with seg :: segs => (c :: seg) :: segs | [] => [[c]] end
  end.

Definition piece_ok (p : piece) (v : str) : Prop := match p with Fixed s => v = s | Param _ r => matches r v [] [] end.
Definition piece_caps (p : piece) (v : str) : list (str * str) := match p with Fixed _ => [] | Param name _ => [(name, v)] end.
Definition path_caps (ps : list piece) (vals : list str) : list (str * str) := concat (zip_with piece_caps ps vals).

(** A pattern of a segment: it has no groups, and does not look at what follows. *)
Definition plain (r : regex) : Prop := forall s rest caps, matches r s rest caps -> caps = [] /\ Forall segment_char s /\ forall rest', matches r s rest' [].

Lemma plain_plus text p : (forall c, p c = true -> segment_char c) -> plain (RPlus text p).
Proof.
  intros Hp s rest caps H. inversion H; subst. split; [done|]. split; [by eapply Forall_impl|]. intros rest'. by constructor.
Qed.

Lemma plain_lits a b : Forall segment_char a -> Forall segment_char b -> plain (RAlt (RLit a) (RLit b)).
Proof. intros Ha Hb s rest caps H. inversion H as [| | | | | | | | | |? ? ? ? ? H'|? ? ? ? ? H'|]; subst; inversion H'; subst; (split; [done|]; split; [done|]); intros rest'; by repeat constructor. Qed.

Definition piece_plain (p : piece) : Prop := match p with Fixed s => Forall segment_char s | Param _ r => plain r end.

Lemma word_segment c : isWordCharASCII c = true -> segment_char c.
Proof. intros H. split; intros ->; by vm_compute in H. Qed.

Lemma escaped_plain : plain escaped.
Proof. apply plain_plus. intros c [H|H]%orb_true_iff; [by apply word_segment|]. unfold is_one_of in H. apply bool_decide_eq_true in H. cbn in H. apply list_elem_of_singleton in H as ->. done. Qed.

Lemma word_plain : plain word.
Proof. apply plain_plus, word_segment. Qed.

Lemma routes_plain : Forall (fun r => Forall piece_plain (r_pieces r)) router_handlers.
Proof.
  assert (Hlit : forall s : string, forallb (fun c => negb (is_one_of "/?" c)) (lit s) = true -> piece_plain (Fixed (lit s))).
  { intros s H. apply Forall_forall. intros c Hc%list_elem_of_In. apply (proj1 (forallb_forall _ _) H) in Hc. apply negb_true_iff, bool_decide_eq_false in Hc. split; intros ->; apply Hc; cbn; set_solver. }
  pose proof escaped_plain. pose proof word_plain.
  unfold router_handlers. repeat (apply Forall_cons; split); try apply Forall_nil; cbn [r_pieces v1 dae app map]; repeat (apply Forall_cons; split); try apply Forall_nil; try done; try (apply Hlit; reflexivity).
  apply plain_lits; apply Hlit; reflexivity.
Qed.

Lemma matches_path ps tail s rest caps : Forall piece_plain ps ->
  matches (path_regex ps tail) s rest caps <->
  exists vals q caps_q, s = path_text vals q /\ Forall2 piece_ok ps vals /\ matches tail q rest caps_q /\ caps = path_caps ps vals ++ caps_q.
Proof.
  intros Hps. revert s caps. induction Hps as [|p ps Hp Hps IH]; intros s caps; cbn [path_regex foldr].
  - split; [intros H; by exists [], s, caps|]. intros (vals & q & caps_q & -> & Hf%Forall2_nil_inv_l & H & ->). by subst.
  - change (foldr _ tail ps) with (path_regex ps tail). split.
    + intros H. inversion H as [| | | | | | | | |? ? s1 t ? caps1 caps' H1 H2| | |]; subst. inversion H1; subst. inversion H2 as [| | | | | | | | |? ? s2 t2 ? caps2 caps3 H3 H4| | |]; subst.
      apply IH in H4 as (vals & q & caps_q & -> & Hf & Hq & ->). exists (s2 :: vals), q, caps_q. split; [done|]. destruct p as [l|name r]; cbn in *; inversion H3 as [| | | | | | | |? ? ? ? caps4 H5| | | |]; subst.
      * split; [by constructor|]. by split.
      * destruct (Hp _ _ _ H5) as (-> & _ & Hany). split; [by constructor; [apply Hany|]|]. by split.
    + intros (vals & q & caps_q & -> & Hf & Hq & ->). apply Forall2_cons_inv_l in Hf as (v & vals' & Hv & Hf & ->). cbn [path_text foldr].
      change (path_caps (p :: ps) (v :: vals')) with (piece_caps p v ++ path_caps ps vals'). rewrite <- app_assoc.
      eapply (m_cat _ _ (lit "/") (v ++ path_text vals' q) rest []); [constructor|]. eapply (m_cat _ _ v (path_text vals' q)); [|apply IH; eauto 10].
      destruct p as [l|name r]; cbn in *; [subst; constructor|]. destruct (Hp _ _ _ Hv) as (_ & _ & Hany). constructor. apply Hany.
Qed.

Lemma cut_slash v rest : Forall segment_char v -> cut (v ++ "/"%char :: rest) = v :: cut rest.
Proof. induction 1 as [|c v [H1 H2] _ IH]; cbn; [done|]. rewrite !decide_False by done. by rewrite IH. Qed.
Lemma cut_end v q : Forall segment_char v -> q = [] \/ head q = Some "?"%char -> cut (v ++ q) = [v].
Proof.
  intros Hv Hq. induction Hv as [|c v [H1 H2] _ IH]; cbn; [destruct q as [|c q]; [done|]; destruct Hq as [|[= ->]]; [done|]; cbn; by rewrite decide_True|].
  rewrite !decide_False by done. by rewrite IH.
Qed.

Lemma cut_path_from v vals q : Forall segment_char v -> Forall (Forall segment_char) vals -> q = [] \/ head q = Some "?"%char -> cut (v ++ path_text vals q) = v :: vals.
Proof.
  intros Hv Hvals Hq. revert v Hv. induction Hvals as [|x vals Hx _ IH]; intros v Hv; cbn [path_text foldr]; [by apply cut_end|].
  change (lit "/" ++ x ++ foldr _ q vals) with ("/"%char :: (x ++ path_text vals q)). rewrite cut_slash by done. by rewrite IH.
Qed.

(** The segments of a URL that is made of segments are those. *)
Lemma cut_path vals q : Forall (Forall segment_char) vals -> q = [] \/ head q = Some "?"%char -> cut (path_text vals q) = [] :: vals.
Proof. intros Hvals Hq. apply (cut_path_from [] vals q); [constructor|done|done]. Qed.

Lemma path_text_snoc vals v q : path_text (vals ++ [v]) q = path_text vals (lit "/" ++ v ++ q).
Proof. unfold path_text. by rewrite foldr_app. Qed.

Lemma pieces_segments ps vals : Forall piece_plain ps -> Forall2 piece_ok ps vals -> Forall (Forall segment_char) vals.
Proof.
  intros Hp. revert vals. induction Hp as [|p ps Hp _ IH]; intros vals; [intros ->%Forall2_nil_inv_l; constructor|].
  intros (v & vals' & Hv & Hf & ->)%Forall2_cons_inv_l. constructor; [|by apply IH]. destruct p; cbn in *; [by subst|]. by apply Hp in Hv as (_ & Hs & _).
Qed.

Lemma query_tail r q caps : matches (ROnce (RCat RQuestion r)) q [] caps -> (forall s rest caps, matches r s rest caps -> caps = []) -> caps = [] /\ (q = [] \/ head q = Some "?"%char).
Proof.
  intros H Hr. inversion H as [| | | | | |? ? ? ? H1| | | | | |]; subst; [split; [done|by left]|]. inversion H1 as [| | | | | | | | |? ? ? ? ? ? ? H2 H3| | |]; subst. apply Hr in H3 as ->.
  inversion H2; subst. split; [done|by right].
Qed.

(** The ends of the routes: nothing, a query, or the id of a task. *)
Lemma tails_end r q caps : r ∈ router_handlers -> matches (r_tail r) q [] caps ->
  (caps = [] /\ (q = [] \/ head q = Some "?"%char)) \/
  (r_handler r = Task /\ exists id, q = lit "/" ++ id /\ Forall segment_char id /\ caps = (if decide (id = []) then [] else [(lit "task_id", id)])).
Proof.
  intros Hr H.
  assert (Hany : matches any_query q [] caps -> caps = [] /\ (q = [] \/ head q = Some "?"%char)) by (intros Hm; eapply query_tail; [exact Hm|]; intros ? ? ? Hp; by inversion Hp).
  assert (Hmode : matches mode_query q [] caps -> caps = [] /\ (q = [] \/ head q = Some "?"%char)).
  { intros Hm. eapply query_tail; [exact Hm|]. intros ? ? ? Hp. inversion Hp as [| | | | | | | | |? ? ? ? ? ? ? H2 H3| | |]; subst. inversion H2; subst. by inversion H3; subst. }
  assert (Hno : matches no_tail q [] caps -> caps = [] /\ (q = [] \/ head q = Some "?"%char)) by (intros Hm; inversion Hm; subst; split; [done|by left]).
  assert (Hend : matches REnd q [] caps -> caps = [] /\ (q = [] \/ head q = Some "?"%char)) by (intros Hm; inversion Hm; subst; split; [done|by left]).
  repeat (apply elem_of_cons in Hr as [->|Hr]; [try (left; cbn in H; auto; fail)|]); [|by apply elem_of_nil in Hr]. cbn in H. cbn [r_handler].
  inversion H as [| | | | | | |? ? ? ? H1| | | | |]; subst. inversion H1 as [| | | | | | | | | |? ? ? ? ? H2|? ? ? ? ? H2|]; subst; inversion H2 as [| | | | | | | | |? ? ? ? ? ? ? H3 H4| | |]; subst.
  - inversion H4; subst. inversion H3; subst; [left; split; [done|by left]|]. right. split; [done|]. exists []. split; [done|]. by split; [constructor|].
  - right. split; [done|]. inversion H3; subst. inversion H4 as [| | | | | | | |? ? ? ? ? H5| | | |]; subst. inversion H5 as [| |? ? ? ? Hn Hf| | | | | | | | | |]; subst. exists t.
    split; [done|]. split; [|by rewrite decide_False]. eapply Forall_impl; [exact Hf|]. intros c [Hc|Hc]%orb_true_iff; [by apply word_segment|]. apply bool_decide_eq_true in Hc. cbn in Hc. by apply list_elem_of_singleton in Hc as ->.
Qed.

(** ** No two routes serve a request *)

(** What a segment may be. *)
Definition piece_shape (p : piece) : option (list str) :=
  match p with Fixed s => Some [s] | Param _ (RAlt (RLit a) (RLit b)) => Some [a; b] | Param _ _ => None end.
Definition shapes (r : route) : list (list (option (list str))) :=
  let sh := map piece_shape (r_pieces r) in match r_handler r with Task => [sh; sh ++ [None]] | _ => [sh] end.
Definition fits (o : option (list str)) (v : str) : Prop := match o with Some l => v ∈ l | None => True end.

Definition apart (a b : option (list str)) : bool :=
  match a, b with Some l, Some m => forallb (fun x => bool_decide (x ∉ m)) l | _, _ => false end.
Definition clash (a b : list (option (list str))) : bool := negb (length a =? length b)%nat || existsb (fun p => apart p.1 p.2) (zip a b).

Lemma clash_sound a b vals : clash a b = true -> Forall2 fits a vals -> Forall2 fits b vals -> False.
Proof.
  intros Hc Ha Hb. unfold clash in Hc. apply orb_true_iff in Hc as [Hl|He].
  - apply negb_true_iff, Nat.eqb_neq in Hl. apply Hl. by rewrite (Forall2_length _ _ _ Ha), (Forall2_length _ _ _ Hb).
  - revert b Hb He. induction Ha as [|o v a vals Hv Ha IH]; intros b Hb He; [done|]. apply Forall2_cons_inv_r in Hb as (o' & b' & Hv' & Hb & ->). cbn in He. apply orb_true_iff in He as [He|He]; [|by eapply IH].
    destruct o as [l|], o' as [m|]; try done. cbn in *. eapply forallb_forall in He; [|by apply list_elem_of_In]. by apply bool_decide_eq_true in He.
Qed.

Lemma piece_fits ps vals : Forall2 piece_ok ps vals -> Forall2 fits (map piece_shape ps) vals.
Proof.
  induction 1 as [|p v ps vals Hv _ IH]; [constructor|]. constructor; [|done]. destruct p as [s|name r]; cbn in *; [subst; by left|].
  destruct r as [| | | | | | | |a b|]; try done. destruct a as [x| | | | | | | | |]; try done. destruct b as [y| | | | | | | | |]; try done. cbn.
  inversion Hv as [| | | | | | | | | |? ? ? ? ? H|? ? ? ? ? H|]; subst; inversion H; subst; set_solver.
Qed.

Lemma route_shape r url caps : r ∈ router_handlers -> matches (r_regex r) url [] caps -> exists sh vals, sh ∈ shapes r /\ cut url = [] :: vals /\ Forall2 fits sh vals.
Proof.
  intros Hr Hm. pose proof routes_plain as Hp. eapply Forall_forall in Hp; [|exact Hr]. cbn in Hp. apply matches_path in Hm as (vals & q & caps_q & -> & Hf & Hq & ->); [|done].
  pose proof (pieces_segments _ _ Hp Hf) as Hs. apply piece_fits in Hf. destruct (tails_end r q caps_q Hr Hq) as [[_ He]|(Ht & id & -> & Hid & _)].
  - exists (map piece_shape (r_pieces r)), vals. split; [unfold shapes; destruct (r_handler r); set_solver|]. split; [by apply cut_path|done].
  - exists (map piece_shape (r_pieces r) ++ [None]), (vals ++ [id]). split; [unfold shapes; rewrite Ht; set_solver|].
    split; [|by apply Forall2_app; [|repeat constructor]]. rewrite <- (app_nil_r id) at 1. rewrite <- path_text_snoc. apply cut_path; [|by left]. apply Forall_app. split; [done|by constructor].
Qed.

Definition http_methods : list str := map lit ["GET"; "POST"; "PATCH"; "DELETE"]%string.

Definition serves (m : str) (r : route) : bool := contains m (r_method r).

(** Two different routes that serve the same method differ in a segment, or in the number of segments. *)
Definition all_apart : bool :=
  forallb (fun m => forallb (fun i => forallb (fun j =>
    match router_handlers !! i, router_handlers !! j with
    | Some r, Some r' => (i =? j)%nat || negb (serves m r && serves m r') || forallb (fun a => forallb (clash a) (shapes r')) (shapes r)
    | _, _ => true
    end) (seq 0 17)) (seq 0 17)) http_methods.

Lemma all_apart_true : all_apart = true.
Proof. by vm_compute. Qed.

Lemma route_unique m i j r r' url caps caps' : m ∈ http_methods -> router_handlers !! i = Some r -> router_handlers !! j = Some r' -> serves m r = true -> serves m r' = true ->
  matches (r_regex r) url [] caps -> matches (r_regex r') url [] caps' -> i = j.
Proof.
  intros Hm Hi Hj Hs Hs' H H'. pose proof all_apart_true as Ha. assert (Hlt : forall k x, router_handlers !! k = Some x -> In k (seq 0 17)).
  { intros k x Hk%lookup_lt_Some. apply in_seq. cbn in Hk. lia. }
  eapply forallb_forall in Ha; [|by apply list_elem_of_In]. eapply forallb_forall in Ha; [|exact (Hlt _ _ Hi)]. eapply forallb_forall in Ha; [|exact (Hlt _ _ Hj)].
  cbv beta in Ha. rewrite Hi, Hj, Hs, Hs' in Ha. apply orb_true_iff in Ha as [[Ha|Ha]%orb_true_iff|Ha]; [by apply Nat.eqb_eq|done|exfalso].
  destruct (route_shape r url caps (list_elem_of_lookup_2 _ _ _ Hi) H) as (sh & vals & Hsh & Hc & Hf). destruct (route_shape r' url caps' (list_elem_of_lookup_2 _ _ _ Hj) H') as (sh' & vals' & Hsh' & Hc' & Hf').
  rewrite Hc in Hc'. injection Hc' as <-. eapply forallb_forall in Ha; [|by apply list_elem_of_In]. eapply forallb_forall in Ha; [|by apply list_elem_of_In]. by eapply clash_sound.
Qed.

Lemma caps_unique r url caps caps' : r ∈ router_handlers -> matches (r_regex r) url [] caps -> matches (r_regex r) url [] caps' -> caps = caps'.
Proof.
  intros Hr H H'. pose proof routes_plain as Hp. eapply Forall_forall in Hp; [|exact Hr]. cbn in Hp.
  apply matches_path in H as (vals & q & caps_q & -> & Hf & Hq & ->); [|done]. apply matches_path in H' as (vals' & q' & caps_q' & Hurl & Hf' & Hq' & ->); [|done].
  pose proof (pieces_segments _ _ Hp Hf) as Hs. pose proof (pieces_segments _ _ Hp Hf') as Hs'. pose proof (Forall2_length _ _ _ Hf). pose proof (Forall2_length _ _ _ Hf').
  assert (Hid : forall vals id, Forall (Forall segment_char) vals -> Forall segment_char id -> cut (path_text vals (lit "/" ++ id)) = [] :: vals ++ [id]).
  { intros vs id Hvs Hi. rewrite <- (app_nil_r id) at 1. rewrite <- path_text_snoc. apply cut_path; [|by left]. apply Forall_app. split; [done|by constructor]. }
  apply (f_equal cut) in Hurl. destruct (tails_end r q caps_q Hr Hq) as [[-> He]|(_ & id & -> & Hi & ->)], (tails_end r q' caps_q' Hr Hq') as [[-> He']|(_ & id' & -> & Hi' & ->)].
  - rewrite (cut_path vals), (cut_path vals') in Hurl by done. by injection Hurl as ->.
  - rewrite (cut_path vals), Hid in Hurl by done. injection Hurl as Hurl. apply (f_equal length) in Hurl. rewrite length_app in Hurl. cbn in Hurl. lia.
  - rewrite (cut_path vals'), Hid in Hurl by done. injection Hurl as Hurl. apply (f_equal length) in Hurl. rewrite length_app in Hurl. cbn in Hurl. lia.
  - rewrite !Hid in Hurl by done. injection Hurl as Hurl. by apply app_inj_tail in Hurl as [-> ->].
Qed.

Section factory.
Context {R : Re2} {HR : Re2Laws R}.

Lemma get_from_sound routes url m h ps : get_from routes url m = Some (h, ps) ->
  exists i r caps, routes !! i = Some r /\ serves m r = true /\ matches (r_regex r) url [] caps /\ h = r_handler r /\ ps = path_parameters caps.
Proof.
  induction routes as [|r routes IH]; cbn; [done|]. intros H.
  assert (Hrest : get_from routes url m = Some (h, ps) -> exists i r0 caps, (r :: routes) !! i = Some r0 /\ serves m r0 = true /\ matches (r_regex r0) url [] caps /\ h = r_handler r0 /\ ps = path_parameters caps).
  { intros (i & r0 & caps & Hi & Hx)%IH. by exists (S i), r0, caps. }
  destruct (contains m (r_method r)) eqn:Hc; [|by apply Hrest]. destruct (re_match (r_regex r) url) as [caps|] eqn:Em; [|by apply Hrest]. injection H as <- <-.
  exists O, r, caps. by apply (re_sound (Re2Laws := HR)) in Em.
Qed.

Lemma get_from_complete routes i r url m caps : routes !! i = Some r -> serves m r = true -> re_match (r_regex r) url = Some caps ->
  (forall j r', routes !! j = Some r' -> (j < i)%nat -> serves m r' = true -> re_match (r_regex r') url = None) -> get_from routes url m = Some (r_handler r, path_parameters caps).
Proof.
  revert i. induction routes as [|r0 routes IH]; intros i Hi Hs Hm Hearlier; [done|]. cbn. destruct i as [|i]; [injection Hi as ->; unfold serves in Hs; by rewrite Hs, Hm|].
  assert (Hrest : get_from routes url m = Some (r_handler r, path_parameters caps)) by (apply (IH i); [done|done|done|]; intros j r' Hj Hlt; apply (Hearlier (S j)); [done|lia]).
  destruct (contains m (r_method r0)) eqn:Hc; [|done]. by rewrite (Hearlier O r0) by (done || lia).
Qed.

Lemma get_iff m url h ps : m ∈ http_methods ->
  get url m = Some (h, ps) <->
  exists r vals q caps, r ∈ router_handlers /\ serves m r = true /\ url = path_text vals q /\ Forall2 piece_ok (r_pieces r) vals /\ matches (r_tail r) q [] caps /\
    h = r_handler r /\ ps = path_parameters (path_caps (r_pieces r) vals ++ caps).
Proof.
  intros Hm. pose proof routes_plain as Hp. rewrite Forall_forall in Hp. split.
  - intros (i & r & caps & Hi & Hs & Hx & -> & ->)%get_from_sound. pose proof (list_elem_of_lookup_2 _ _ _ Hi) as Hr. apply matches_path in Hx as (vals & q & caps_q & -> & Hf & Hq & ->); [|by apply Hp].
    by exists r, vals, q, caps_q.
  - intros (r & vals & q & caps & Hr & Hs & -> & Hf & Hq & -> & ->). assert (Hx : matches (r_regex r) (path_text vals q) [] (path_caps (r_pieces r) vals ++ caps)) by (apply matches_path; [by apply Hp|]; eauto 10).
    destruct (re_match (r_regex r) (path_text vals q)) as [caps'|] eqn:Em; [|by destruct (re_complete _ _ _ Hx)]. pose proof (re_sound _ _ _ Em) as Hx'. rewrite (caps_unique r _ _ _ Hr Hx Hx').
    apply list_elem_of_lookup in Hr as [i Hi]. apply (get_from_complete _ i); [done|done|done|]. intros j r' Hj Hlt Hs'. destruct (re_match (r_regex r') _) as [caps''|] eqn:Em'; [|done].
    apply re_sound in Em'. assert (j = i) by (by eapply route_unique). lia.
Qed.

Lemma parameters_lookup caps k v : NoDup caps.*1 -> path_parameters caps !! k = Some v <-> exists s, (k, s) ∈ caps /\ v = unescapeForFileName s.
Proof.
  unfold path_parameters. induction caps as [|[k' s'] caps IH] using rev_ind; intros Hnd.
  - cbn [foldl]. rewrite lookup_empty. split; [done|]. intros (s & Hin & _). by apply not_elem_of_nil in Hin.
  - rewrite fmap_app in Hnd. apply NoDup_app in Hnd as (Hnd & Hout & _). rewrite foldl_app. cbn [foldl fst snd]. destruct (decide (k = k')) as [->|Hne].
    + rewrite lookup_insert_eq. split; [intros [= <-]; exists s'; set_solver|]. intros (s & [Hin|Hin%list_elem_of_singleton]%elem_of_app & ->); [|congruence].
      exfalso. apply (Hout k'); [apply list_elem_of_fmap; by exists (k', s)|set_solver].
    + rewrite lookup_insert_ne, (IH Hnd) by done. split; intros (s & Hin & ->); exists s; (split; [|done]); [set_solver|]. apply elem_of_app in Hin as [?|?%list_elem_of_singleton]; congruence.
Qed.

Definition parameter_names (ps : list piece) : list str := omap (fun p => match p with Fixed _ => None | Param name _ => Some name end) ps.
Lemma caps_names ps vals : Forall2 piece_ok ps vals -> (path_caps ps vals).*1 = parameter_names ps.
Proof. induction 1 as [|p v ps vals _ _ IH]; [done|]. unfold path_caps in *. cbn [zip_with concat parameter_names omap list_omap]. rewrite fmap_app, IH. by destruct p. Qed.

Lemma names_distinct r vals q caps : r ∈ router_handlers -> Forall2 piece_ok (r_pieces r) vals -> matches (r_tail r) q [] caps -> NoDup (path_caps (r_pieces r) vals ++ caps).*1.
Proof.
  intros Hr Hf Hq. rewrite fmap_app, (caps_names _ _ Hf).
  assert (Hall : Forall (fun r => NoDup (parameter_names (r_pieces r) ++ [lit "task_id"])) router_handlers) by (apply (bool_decide_unpack _); vm_compute; reflexivity).
  eapply Forall_forall in Hall; [|exact Hr]. cbn beta in Hall. assert (Hnone : NoDup (parameter_names (r_pieces r) ++ ([] : list (str * str)).*1)) by (rewrite app_nil_r; by apply NoDup_app in Hall as [? _]).
  destruct (tails_end r q caps Hr Hq) as [[-> _]|(_ & id & _ & _ & ->)]; [done|]. by destruct (decide (id = [])).
Qed.

(** C33: A request with the method GET, POST, PATCH or DELETE is served exactly when its URL consists of the segments of a route that serves the method, followed by an end the route allows; the handler is that of the route,
    and the parameters are the segments, with the escapes undone. The order in which the routes are registered has no influence. *)
Theorem get_exact m url : m ∈ http_methods ->
  (forall h ps, get url m = Some (h, ps) ->
     exists r vals q caps, r ∈ router_handlers /\ serves m r = true /\ url = path_text vals q /\ Forall2 piece_ok (r_pieces r) vals /\ matches (r_tail r) q [] caps /\
       h = r_handler r /\ forall name v, ps !! name = Some v <-> exists s, (name, s) ∈ path_caps (r_pieces r) vals ++ caps /\ v = unescapeForFileName s) /\
  (forall r vals q caps, r ∈ router_handlers -> serves m r = true -> url = path_text vals q -> Forall2 piece_ok (r_pieces r) vals -> matches (r_tail r) q [] caps ->
     exists ps, get url m = Some (r_handler r, ps)).
Proof.
  intros Hm. split.
  - intros h ps Hg. apply get_iff in Hg as (r & vals & q & caps & Hr & Hs & Hu & Hf & Hq & Hh & ->); [|done]. exists r, vals, q, caps. repeat (split; [done|]).
    intros name v. apply parameters_lookup. by eapply names_distinct.
  - intros r vals q caps Hr Hs Hu Hf Hq. eexists. apply get_iff; [done|]. by exists r, vals, q, caps.
Qed.
End factory.

Lemma get_exact_witness :
  lit "DELETE" ∈ http_methods /\
  exists r vals q caps, r ∈ router_handlers /\ serves (lit "DELETE") r = true /\ lit "/dae/v1/ddl/t/columns/c%2Dd?distributed_ddl=false" = path_text vals q /\
    Forall2 piece_ok (r_pieces r) vals /\ matches (r_tail r) q [] caps /\ Column = r_handler r /\
    exists s, (lit "column", s) ∈ path_caps (r_pieces r) vals ++ caps /\ lit "c-d" = unescapeForFileName s.
Proof.
  assert (Hm : lit "DELETE" ∈ http_methods) by (apply (bool_decide_unpack _); vm_compute; reflexivity). split; [exact Hm|].
  pose (ps := <[lit "table" := lit "t"]> {[lit "column" := lit "c-d"]} : gmap str str).
  assert (Hg : get (H := backtracking) (lit "/dae/v1/ddl/t/columns/c%2Dd?distributed_ddl=false") (lit "DELETE") = Some (Column, ps)) by (vm_compute; reflexivity).
  destruct (proj1 (get_exact (R := backtracking) (HR := backtracking_laws) (lit "DELETE") (lit "/dae/v1/ddl/t/columns/c%2Dd?distributed_ddl=false") Hm) Column ps Hg) as (r & vals & q & caps & H1 & H2 & H3 & H4 & H5 & H6 & H7).
  exists r, vals, q, caps. do 6 (split; [assumption|]). apply H7. vm_compute. reflexivity.
Defined.

(** The method is looked for in the text of the methods: a part of their names is a method of the route. *)
Lemma part_of_method : serves (lit "E") (mkRoute (v1 ["ping"]%string) no_tail (lit "GET/PATCH/DELETE") Ping) = true /\ serves (lit "T/P") (mkRoute (v1 ["ping"]%string) no_tail (lit "GET/PATCH/DELETE") Ping) = true.
Proof. by split; vm_compute. Qed.

(** The name of a database is not escaped and has word characters only, that of a table may have any: the first is not found, the second is. *)
Lemma escaped_database :
  get (H := backtracking) (lit "/dae/v1/ddl/databases/a%2Db") (lit "DELETE") = None /\
  get (H := backtracking) (lit "/dae/v1/ddl/tables/a%2Db") (lit "DELETE") = Some (TabularTable, {[lit "table" := lit "a-b"]}).
Proof. split; vm_compute; reflexivity. Qed.

(** A name with a dash is served in its escaped form only; a URI that keeps its path with the escapes undone, and sends the dash as it is, is not served. *)
Lemma dashed_table :
  get (H := backtracking) (lit "/dae/v1/ddl/tables/a-b?distributed_ddl=false") (lit "DELETE") = None /\
  get (H := backtracking) (lit "/dae/v1/ddl/tables/a%2Db?distributed_ddl=false") (lit "DELETE") = Some (TabularTable, {[lit "table" := lit "a-b"]}).
Proof. split; vm_compute; reflexivity. Qed.

(** Paths that the description of the interface and a test of it have, and no route has. *)
Lemma described_paths :
  get (H := backtracking) (lit "/dae/v1/ingest/default/rawstores/t") (lit "POST") = None /\
  get (H := backtracking) (lit "/dae/v1/ingest/t") (lit "POST") = None /\
  get (H := backtracking) (lit "/dae/v1/ingest/statuses?user=u") (lit "POST") = None.
Proof. split_and!; vm_compute; reflexivity. Qed.
