(* ===== verification/Rest.v ===== *)
(** * Rest: requests of the REST interface

    Models src/src/Server/RestHTTPRequestHandler.cpp, the base class of src/src/Server/RestRouterHandlers/RestRouterHandler.{h,cpp},
    SchemaValidator.cpp, and the forms of src/src/Server/HTTP/HTMLForm.cpp: who sends a request, which handler serves it, whether its payload is
    valid, and what is answered when something is thrown.

    JSON values are a data type; how Poco parses, prints and converts them, its URIs and credentials are parameters, with what it documents
    as laws.  The query engine and the access control answer each call. *)

From stdpp Require Import strings.
From S2P Require Import Prelude TextFormat WalRecord KafkaConfig Catalog Placement Io MessageBlock TaskStatus MetadataService DDLService DDLInterpreters RestRoute.
Import Interpreters Routes.
Local Open Scope Z_scope.

Inductive json : Type :=
| JNull
| JBool (b : bool)
| JInt (z : Z)
| JDouble (text : str)
| JString (s : str)
| JArray (l : list json)
| JObject (fields : list (str * json)).

(** [Poco::JSON] and [Poco::Dynamic::Var]; [None] is the empty variable that [get] returns for a missing key. *)
Class PocoJSON : Type := {
  json_parse : str -> result json;
  json_text : json -> str;
  var_text : option json -> result str;
  var_int32 : json -> result Z;
  var_bool : json -> result bool;
  is_integer : json -> bool;
  is_string : json -> bool;
  is_boolean : json -> bool;
  is_numeric : json -> bool;
  is_array : json -> bool
}.

(** [Poco::URI], [Poco::UTF8] and [HTTPBasicCredentials]. *)
Class PocoNet : Type := {
  raw_query : str -> result str;
  uri_decode : str -> result str;
  remove_bom : str -> str;
  basic_credentials : str -> result (str * str)
}.

(** What follows the question mark is the query; texts of unreserved characters are not changed. *)
Class PocoNetLaws `(PocoNet) : Prop := {
  raw_query_of : forall path q, "?"%char ∉ path -> "#"%char ∉ path -> "#"%char ∉ q -> head path = Some "/"%char -> raw_query (path ++ lit "?" ++ q) = Ok q;
  raw_query_none : forall path, "?"%char ∉ path -> "#"%char ∉ path -> head path = Some "/"%char -> raw_query path = Ok [];
  decode_word : forall s, Forall (fun c => isWordCharASCII c = true) s -> uri_decode s = Ok s;
  bom_word : forall s, Forall (fun c => isWordCharASCII c = true) s -> remove_bom s = s
}.

Module Rest.
(** ** Forms *)

Definition DFL_FIELD_LIMIT : Z := 100.
Definition MAX_NAME_LENGTH : Z := 1024.
Definition DFL_MAX_VALUE_LENGTH : Z := 256 * 1024.

(** A name or a value: up to a character that ends it, a plus is a blank. *)
Fixpoint read_field (stop : ascii -> bool) (room : Z) (s : str) : result (str * option ascii * str) :=
  match s with
  | [] => Ok ([], None, [])
  | c :: rest =>
      if stop c then Ok ([], Some c, rest)
      else if room <=? 0 then Throw PocoException
      else '(field, e, rest) ← read_field stop (room - 1) rest; Ok ((if decide (c = "+"%char) then " "%char else c) :: field, e, rest)
  end.

Section rest.
Context {HJ : PocoJSON} {HN : PocoNet} {HR : Re2}.

(** [readQuery]; every field takes a character, so that the length of the text is enough fuel. *)
Fixpoint readQuery (fuel : nat) (fields : Z) (form : list (str * str)) (s : str) : result (list (str * str)) :=
  match fuel with
  | O => Ok form
  | S fuel =>
      if decide (fields = DFL_FIELD_LIMIT) then Throw PocoException
      else
        '(name, e, rest) ← read_field (is_one_of "=&") MAX_NAME_LENGTH s;
        '(value, _, rest) ← (if decide (e = Some "="%char) then read_field (is_one_of "&") DFL_MAX_VALUE_LENGTH rest else Ok ([], e, rest));
        decoded_name ← uri_decode (if decide (fields = 0) then remove_bom name else name);
        decoded_value ← uri_decode value;
        let form := form ++ [(decoded_name, decoded_value)] in
        match rest with [] => Ok form | _ => readQuery fuel (fields + 1) form rest end
  end.

Definition HTMLForm (uri : str) : result (list (str * str)) :=
  query ← raw_query uri;
  readQuery (S (length query)) 0 [] query.

Definition lower (c : ascii) : ascii := if (65 <=? code c) && (code c <=? 90) then ascii_of_nat (Z.to_nat (code c) + 32) else c.

(** [NameValueCollection]: the first value of a name, whatever its case. *)
Fixpoint form_find (name : str) (form : list (str * str)) : option str :=
  match form with
  | [] => None
  | (k, v) :: form => if decide (map lower k = map lower name) then Some v else form_find name form
  end.

(** ** Payloads *)

Definition fields_of (v : json) : list (str * json) := match v with JObject fs => fs | _ => [] end.

Fixpoint field (key : str) (fs : list (str * json)) : option json :=
  match fs with
  | [] => None
  | (k, v) :: fs => if decide (k = key) then Some v else field key fs
  end.
Definition has (payload : json) (key : str) : bool := match field key (fields_of payload) with Some _ => true | None => false end.
Definition jget (payload : json) (key : str) : option json := field key (fields_of payload).

(** The entries of the maps, by name. *)
Record schema : Type := mkSchema { required : list (str * str); optional : list (str * str) }.

Definition wrong_type (ty : str) (v : json) : bool :=
  (bool_decide (ty = lit "int") && negb (is_integer v)) || (bool_decide (ty = lit "string") && negb (is_string v))
  || (bool_decide (ty = lit "bool") && negb (is_boolean v)) || (bool_decide (ty = lit "double") && negb (is_numeric v)).
Definition wrong_required_type (ty : str) (v : json) : bool := wrong_type ty v || (bool_decide (ty = lit "array") && negb (is_array v)).

Fixpoint check_required (rs : list (str * str)) (payload : json) : option str :=
  match rs with
  | [] => None
  | (key, ty) :: rs =>
      match jget payload key with
      | None => Some (lit "Required param '" ++ key ++ lit "' is missing.")
      | Some v => if wrong_required_type ty v then Some (lit "Invalid type of param '" ++ key ++ lit "'") else check_required rs payload
      end
  end.

Fixpoint check_optional (os : list (str * str)) (payload : json) : option str :=
  match os with
  | [] => None
  | (key, ty) :: os =>
      match jget payload key with
      | Some v => if wrong_type ty v then Some (lit "Invalid type of param '" ++ key ++ lit "'") else check_optional os payload
      | None => check_optional os payload
      end
  end.

(** [validateSchema]: the message of an invalid payload. *)
Definition validateSchema (sc : schema) (payload : json) : option str :=
  match check_required (required sc) payload with
  | Some msg => Some msg
  | None => check_optional (optional sc) payload
  end.

(** ** Answers *)

Definition HTTP_BAD_REQUEST : Z := 400.
Definition HTTP_UNAUTHORIZED : Z := 401.
Definition HTTP_NOT_FOUND : Z := 404.
Definition HTTP_CONFLICT : Z := 409.
Definition HTTP_LENGTH_REQUIRED : Z := 411.
Definition HTTP_REQUESTENTITYTOOLARGE : Z := 413.
Definition HTTP_NOT_IMPLEMENTED : Z := 501.
Definition HTTP_SERVICE_UNAVAILABLE : Z := 503.

Definition jsonErrorResponse (error_msg : str) (error_code : Z) (query_id : str) : str :=
  json_text (JObject [(lit "error_msg", JString error_msg); (lit "code", JInt error_code); (lit "request_id", JString query_id)]).

Definition BAD_REQUEST_CODES : list Z :=
  [ErrorCodes.CANNOT_PARSE_TEXT; ErrorCodes.CANNOT_PARSE_ESCAPE_SEQUENCE; ErrorCodes.CANNOT_PARSE_QUOTED_STRING; ErrorCodes.CANNOT_PARSE_DATE;
   ErrorCodes.CANNOT_PARSE_DATETIME; ErrorCodes.CANNOT_PARSE_NUMBER; ErrorCodes.CANNOT_PARSE_INPUT_ASSERTION_FAILED; ErrorCodes.UNKNOWN_ELEMENT_IN_AST;
   ErrorCodes.UNKNOWN_TYPE_OF_AST_NODE; ErrorCodes.TOO_DEEP_AST; ErrorCodes.TOO_BIG_AST; ErrorCodes.UNEXPECTED_AST_STRUCTURE; ErrorCodes.SYNTAX_ERROR;
   ErrorCodes.INCORRECT_DATA; ErrorCodes.TYPE_MISMATCH].
Definition NOT_FOUND_CODES : list Z :=
  [ErrorCodes.UNKNOWN_TABLE; ErrorCodes.UNKNOWN_FUNCTION; ErrorCodes.UNKNOWN_IDENTIFIER; ErrorCodes.UNKNOWN_TYPE; ErrorCodes.UNKNOWN_STORAGE;
   ErrorCodes.UNKNOWN_DATABASE; ErrorCodes.UNKNOWN_SETTING; ErrorCodes.UNKNOWN_DIRECTION_OF_SORTING; ErrorCodes.UNKNOWN_AGGREGATE_FUNCTION;
   ErrorCodes.UNKNOWN_FORMAT; ErrorCodes.UNKNOWN_DATABASE_ENGINE; ErrorCodes.UNKNOWN_TYPE_OF_QUERY].

Definition exceptionCodeToHTTPStatus (exception_code : Z) : Z :=
  if decide (exception_code = ErrorCodes.REQUIRED_PASSWORD) then HTTP_UNAUTHORIZED
  else if decide (exception_code ∈ BAD_REQUEST_CODES) then HTTP_BAD_REQUEST
  else if decide (exception_code ∈ NOT_FOUND_CODES) then HTTP_NOT_FOUND
  else if decide (exception_code = ErrorCodes.QUERY_IS_TOO_LARGE) then HTTP_REQUESTENTITYTOOLARGE
  else if decide (exception_code = ErrorCodes.NOT_IMPLEMENTED) then HTTP_NOT_IMPLEMENTED
  else if decide (exception_code = ErrorCodes.SOCKET_TIMEOUT \/ exception_code = ErrorCodes.CANNOT_OPEN_FILE) then HTTP_SERVICE_UNAVAILABLE
  else if decide (exception_code = ErrorCodes.HTTP_LENGTH_REQUIRED) then HTTP_LENGTH_REQUIRED
  else DDL.HTTP_INTERNAL_SERVER_ERROR.

(** [getCurrentExceptionCode] *)
Definition exn_code (e : exn) : Z :=
  match e with
  | DBException c => c
  | KeeperException c => c
  | PocoException => ErrorCodes.POCO_EXCEPTION
  | StdOutOfRange | StdInvalidArgument => ErrorCodes.STD_EXCEPTION
  end.

(** The status of an exception; [requireAuthentication] sets 401. *)
Definition exception_status (exception_code : Z) : Z :=
  if decide (exception_code = ErrorCodes.UNKNOWN_USER \/ exception_code = ErrorCodes.WRONG_PASSWORD \/ exception_code = ErrorCodes.REQUIRED_PASSWORD)
  then HTTP_UNAUTHORIZED else exceptionCodeToHTTPStatus exception_code.

(** ** Requests *)

Record request : Type := mkRequest {
  r_meth : str;
  r_uri : str;
  r_headers : list (str * str);
  r_credentials : option (str * str);
  r_content_length : Z;
  r_body : str
}.

Inductive credentials : Type :=
| Basic (user password quota_key : str)
| Negotiate (challenge quota_key : str).

Definition header (req : request) (name : str) : str := default [] (form_find name (r_headers req)).

(** The first part of [authenticateUser]: headers, an authorization or parameters, and never two of them. *)
Definition choose_credentials (req : request) (params : list (str * str)) : result credentials :=
  let user := header req (lit "x-daisy-user") in
  let password := header req (lit "x-daisy-key") in
  let quota_key := header req (lit "x-daisy-quota") in
  let has_param name := match form_find (lit name) params with Some _ => true | None => false end in
  if decide (user = [] /\ password = [] /\ quota_key = []) then
    let quota_key := default [] (form_find (lit "quota_key") params) in
    match r_credentials req with
    | Some (scheme, auth_info) =>
        if has_param "user"%string || has_param "password"%string then Throw (DBException ErrorCodes.AUTHENTICATION_FAILED)
        else if decide (map lower scheme = lit "basic") then '(user, password) ← basic_credentials auth_info; Ok (Basic user password quota_key)
        else if decide (map lower scheme = lit "negotiate") then
          (if decide (auth_info = []) then Throw (DBException ErrorCodes.AUTHENTICATION_FAILED) else Ok (Negotiate auth_info quota_key))
        else Throw (DBException ErrorCodes.AUTHENTICATION_FAILED)
    | None => Ok (Basic (default (lit "default") (form_find (lit "user") params)) (default [] (form_find (lit "password") params)) quota_key)
    end
  else if match r_credentials req with Some _ => true | None => false end || has_param "user"%string || has_param "password"%string || has_param "quota_key"%string
  then Throw (DBException ErrorCodes.AUTHENTICATION_FAILED)
  else Ok (Basic user password quota_key).

Definition getDatabaseByUser (user : str) : str := if decide (user = lit "system") then lit "system" else lit "default".

Inductive verb : Type := VGet | VPost | VPatch | VDelete | VUnknown.
Definition verb_of (method : str) : verb :=
  if decide (method = lit "GET") then VGet else if decide (method = lit "POST") then VPost else if decide (method = lit "PATCH") then VPatch
  else if decide (method = lit "DELETE") then VDelete else VUnknown.

(** ** Handlers *)

(** A handler while it serves a request. *)
Record hctx : Type := mkH { h_ctx : query_context; h_database : str; h_path : gmap str str; h_form : list (str * str) }.

Definition query_id (h : hctx) : str := q_query_id (h_ctx h).
Definition getPathParameter (h : hctx) (name : str) : str := default [] (h_path h !! name).
Definition getQueryParameter (h : hctx) (name : str) : str := default [] (form_find name (h_form h)).
Definition hasQueryParameter (h : hctx) (name : str) : bool := match form_find name (h_form h) with Some _ => true | None => false end.
Definition getQueryParameterBool (h : hctx) (name : str) (default_value : bool) : bool :=
  let v := getQueryParameter h name in
  if decide (v = []) then default_value else if decide (v = lit "false" \/ v = lit "0") then false else true.
Definition isDistributedDDL (h : hctx) : bool := q_distributed (h_ctx h) && getQueryParameterBool h (lit "distributed_ddl") true.

Definition set_param (k v : str) (q : query_context) : query_context :=
  mkQuery (q_distributed q) (q_ddl_operation q) (<[k := v]> (q_params q)) (q_query_id q) (q_user q).
Definition set_ddl_operation (q : query_context) : query_context := mkQuery (q_distributed q) true (q_params q) (q_query_id q) (q_user q).

(** The context that is left by [setupDistributedQueryParameters]. *)
Definition setupDistributedQueryParameters (parameters : list (str * str)) (payload : option json) (h : hctx) : query_context :=
  if negb (isDistributedDDL h) then h_ctx h
  else
    let q := set_param (lit "_payload") (match payload with Some v => json_text v | None => lit "{}" end) (h_ctx h) in
    set_ddl_operation (foldl (fun q kv => set_param kv.1 kv.2 q) q parameters).

(** What the handlers call: the access control, the query engine with the context of the query, and other nodes; a text that is no URI throws. *)
Inductive rcall : Type :=
| RUser (c : credentials) (answer : result (option str))
| RQuery (sql : str) (ctx : query_context) (answer : result unit)
| RForward (uri method query_id user password body : str) (answer : result DDL.http_answer).

Record node : Type := mkNode {
  n_distributed : bool;
  n_set_user : credentials -> list rcall -> result (option str);
  n_query : str -> query_context -> list rcall -> result unit;
  n_forward : str -> str -> str -> str -> str -> str -> list rcall -> result DDL.http_answer;
  n_password : str -> list rcall -> str;
  n_catalog : list rcall -> catalog;
  n_column_exists : str -> str -> str -> list rcall -> bool * bool;
  n_column_type : str -> str -> str -> list rcall -> str;
  n_uuid : list rcall -> str;
  n_message : exn -> str
}.

Section handlers.
Context (nd : node).
Abbreviation rest := (io rcall).

(** The answer of a forwarded request that failed, as it is when it has the form of an answer. *)
Definition jsonErrorResponseFrom (h : hctx) (response : str) (error_code : Z) : str :=
  if contains (lit "request_id") response && contains (lit "error_msg") response then response
  else jsonErrorResponse (lit "Internal server error") error_code (query_id h).

(** A request to another node, in the name of the user. *)
Definition forward (h : hctx) (uri method body : str) (error_code : Z) : rest (str * Z) :=
  let user := q_user (h_ctx h) in
  password ← io_look (n_password nd user);
  answer ← (io_call (n_forward nd uri method (query_id h) user password body) (RForward uri method (query_id h) user password body) ≫= io_lift);
  let '(response, http_status) := DDL.sendRequest answer in
  mret (if decide (http_status = DDL.HTTP_OK) then response else jsonErrorResponseFrom h response error_code, http_status).

Definition handleNotImplemented (h : hctx) : rest (str * Z) :=
  mret (jsonErrorResponse (lit "HTTP method requested is not supported") ErrorCodes.UNKNOWN_TYPE_OF_QUERY (query_id h), HTTP_NOT_IMPLEMENTED).

(** [processQuery]: the engine runs the query with the context as it is now. *)
Definition processQuery (q : query_context) (sql : str) : rest str :=
  _ ← (io_call (n_query nd sql q) (RQuery sql q) ≫= io_lift);
  mret (json_text (JObject [(lit "request_id", JString (q_query_id q))])).

(** The virtual functions of a handler.  [on_create] is what its constructor does to the context; a handler that streams its input has [on_stream]. *)
Record methods : Type := mkMethods {
  on_create : query_context -> query_context;
  on_stream : option (hctx -> str -> rest (str * Z));
  validate : verb -> hctx -> json -> result (option str);
  execute_verb : verb -> hctx -> json -> rest (str * Z)
}.

Definition doExecute (m : methods) (v : verb) (h : hctx) (payload : json) : rest (str * Z) :=
  error ← io_lift (validate m v h payload);
  match error with
  | Some error_msg => mret (jsonErrorResponse error_msg ErrorCodes.BAD_REQUEST_PARAMETER (query_id h), HTTP_BAD_REQUEST)
  | None => execute_verb m v h payload
  end.

(** [execute] of a payload *)
Definition execute_payload (m : methods) (v : verb) (h : hctx) (payload : json) : rest (str * Z) :=
  match v with VUnknown => handleNotImplemented h | _ => doExecute m v h payload end.

Definition parseRequest (req : request) : result json :=
  data ← (if 0 <? r_content_length req then
            if Z.of_nat (length (r_body req)) <? r_content_length req then Throw (DBException ErrorCodes.CANNOT_READ_ALL_DATA)
            else Ok (take (Z.to_nat (r_content_length req)) (r_body req))
          else Ok (lit "{}"));
  v ← json_parse data;
  match v with JObject _ => Ok v | _ => Throw PocoException end.

(** [setupHTTPContext] *)
Definition setupHTTPContext (req : request) (h : hctx) : result hctx :=
  form ← HTMLForm (r_uri req);
  let h := mkH (h_ctx h) (h_database h) (h_path h) form in
  if isDistributedDDL h then query ← raw_query (r_uri req); Ok (mkH (set_param (lit "url_parameters") query (h_ctx h)) (h_database h) (h_path h) form)
  else Ok h.

Definition execute (m : methods) (req : request) (h : hctx) : rest (str * Z) :=
  h ← io_lift (setupHTTPContext req h);
  match on_stream m with
  | Some f => f h (r_body req)
  | None => payload ← io_lift (parseRequest req); execute_payload m (verb_of (r_meth req)) h payload
  end.

Context (methods_of : handler -> methods).

Record response : Type := mkResponse { status : Z; body : str }.

Definition newline : str := [ch_newline].

Definition query_id_of (req : request) (tr : list rcall) : str :=
  let id := match form_find (lit "x-daisy-request-id") (r_headers req) with Some id => id | None => header req (lit "x-daisy-query-id") end in
  if decide (id = []) then n_uuid nd tr else id.

(** A user is known: the request is routed and served. *)
Definition serve (req : request) (user : str) (id : str) : rest response :=
  let q := mkQuery (n_distributed nd) false ∅ id user in
  match get (r_uri req) (r_meth req) with
  | None => mret (mkResponse HTTP_NOT_FOUND (jsonErrorResponse (lit "Unknown URI") ErrorCodes.UNKNOWN_TYPE_OF_QUERY id ++ newline))
  | Some (hd, path) =>
      let m := methods_of hd in
      '(text, st) ← execute m req (mkH (on_create m q) (getDatabaseByUser user) path []);
      mret (mkResponse st text)
  end.

(** The block that is tried. *)
Definition try_request (req : request) (params : list (str * str)) (id : str) : rest response :=
  c ← io_lift (choose_credentials req params);
  answer ← (io_call (n_set_user nd c) (RUser c) ≫= io_lift);
  match answer with
  | None => mret (mkResponse HTTP_UNAUTHORIZED [])
  | Some user => serve req user id
  end.

Definition trySendExceptionToClient (id : str) (e : exn) : rest response :=
  mret (mkResponse (exception_status (exn_code e)) (jsonErrorResponse (n_message nd e) (exn_code e) id ++ newline)).

(** [handleRequest]; the parameters are read before the block that catches exceptions. *)
Definition handleRequest (req : request) : rest response :=
  params ← io_lift (HTMLForm (r_uri req));
  id ← io_look (query_id_of req);
  io_catch (try_request req params id) (trySendExceptionToClient id).
End handlers.
End rest.
End Rest.
Import Rest.

(** ** Examples *)

(** A reader of two texts and a printer of the two values. *)
Definition example_ttl : json := JObject [(lit "ttl_expression", JString (lit "d"))].
Definition example_json : PocoJSON := {|
  json_parse s := if decide (s = lit "{}") then Ok (JObject []) else if decide (s = lit "{ttl_expression:d}") then Ok example_ttl else Throw PocoException;
  json_text v := match v with JObject [] => lit "{}" | JObject _ => lit "{ttl_expression:d}" | _ => lit "null" end;
  var_text v := match v with Some (JString s) => Ok s | Some (JInt z) => Ok (writeIntText z) | _ => Throw PocoException end;
  var_int32 v := match v with JInt z => Ok z | _ => Throw PocoException end;
  var_bool v := match v with JBool b => Ok b | _ => Throw PocoException end;
  is_integer v := match v with JInt _ => true | _ => false end;
  is_string v := match v with JString _ => true | _ => false end;
  is_boolean v := match v with JBool _ => true | _ => false end;
  is_numeric v := match v with JInt _ | JDouble _ => true | _ => false end;
  is_array v := match v with JArray _ => true | _ => false end
|}.

Fixpoint after_question (s : str) : str := match s with [] => [] | c :: s => if decide (c = "?"%char) then s else after_question s end.
Fixpoint before_hash (s : str) : str := match s with [] => [] | c :: s => if decide (c = "#"%char) then [] else c :: before_hash s end.
Definition example_net : PocoNet := {|
  raw_query s := Ok (before_hash (after_question s)); uri_decode s := Ok s; remove_bom s := s; basic_credentials _ := Throw PocoException
|}.

Lemma after_none path : "?"%char ∉ path -> after_question path = [].
Proof. induction path as [|c path IH]; intros H; [done|]. cbn. rewrite decide_False by set_solver. apply IH. set_solver. Qed.
Lemma after_path path q : "?"%char ∉ path -> after_question (path ++ lit "?" ++ q) = q.
Proof. induction path as [|c path IH]; intros H; [done|]. cbn. rewrite decide_False by set_solver. apply IH. set_solver. Qed.
Lemma before_none q : "#"%char ∉ q -> before_hash q = q.
Proof. induction q as [|c q IH]; intros H; [done|]. cbn. rewrite decide_False by set_solver. f_equal. apply IH. set_solver. Qed.

Lemma example_net_laws : PocoNetLaws example_net.
Proof.
  split; try done.
  - intros path q H1 _ H2 _. unfold raw_query, example_net. by rewrite after_path, before_none.
  - intros path H1 _ _. unfold raw_query, example_net. by rewrite after_none.
Qed.

Definition example_node (distributed : bool) (c : catalog) : node :=
  mkNode distributed (fun c _ => match c with Basic user _ _ => Ok (Some user) | Negotiate _ _ => Ok None end) (fun _ _ _ => Ok tt) (fun _ _ _ _ _ _ _ => Ok DDL.OtherError) (fun _ _ => [])
    (fun _ => c) (fun _ _ _ _ => (true, true)) (fun _ _ _ _ => lit "String") (fun _ => lit "id") (fun _ => []).
