(* ===== verification/RestDDL.v ===== *)
(** * RestDDL: statements on tables, columns and databases over REST

    Models the handlers of src/src/Server/RestRouterHandlers: TableRestRouterHandler.{h,cpp} with its two kinds, TabularTableRestRouterHandler.{h,cpp}
    and RawstoreTableRestRouterHandler.{h,cpp}, ColumnRestRouterHandler.cpp, ColumnDefinition.cpp and DatabaseRestRouterHandler.cpp: the
    payload is validated, the catalog is asked when the statement is meant for the cluster, and the text of a statement is made from
    the payload and given to the query engine.

    The lists of tables (buildTablesJSON) rest on the parser of statements and are not modelled. *)

From stdpp Require Import strings.
From S2P Require Import Prelude TextFormat WalRecord KafkaConfig Catalog Placement Io MessageBlock TaskStatus MetadataService DDLService DDLInterpreters RestRoute Rest.
Import Interpreters Routes Rest.
Local Open Scope Z_scope.

Module RestDDL.
Definition typed (l : list (string * string)) : list (str * str) := map (fun p => (lit p.1, lit p.2)) l.

Definition CREATE_TABLE_SETTINGS : list str :=
  map lit ["streaming_storage_cluster_id"; "streaming_storage_subscription_mode"; "streaming_storage_auto_offset_reset"; "streaming_storage_request_required_acks";
           "streaming_storage_request_timeout_ms"; "streaming_storage_retention_bytes"; "streaming_storage_retention_ms"; "streaming_storage_flush_messages";
           "streaming_storage_flush_ms"; "distributed_ingest_mode"; "distributed_flush_threshold_ms"; "distributed_flush_threshold_count";
           "distributed_flush_threshold_bytes"]%string.

(** ** Schemas *)

Definition update_schema : schema := mkSchema [] (typed [("ttl_expression", "string")]%string).
Definition tabular_schema : schema :=
  mkSchema (typed [("columns", "array"); ("name", "string")]%string)
    (typed [("_time_column", "string"); ("order_by_expression", "string"); ("order_by_granularity", "string"); ("partition_by_granularity", "string");
            ("replication_factor", "int"); ("shards", "int"); ("ttl_expression", "string")]%string).
Definition column_schema : schema :=
  mkSchema (typed [("name", "string"); ("type", "string")]%string)
    (typed [("alias", "string"); ("compression_codec", "string"); ("default", "string"); ("nullable", "bool"); ("skipping_index_expression", "string");
            ("ttl_expression", "string")]%string).
Definition rawstore_schema : schema :=
  mkSchema (typed [("name", "string")]%string)
    (typed [("order_by_granularity", "string"); ("partition_by_granularity", "string"); ("replication_factor", "int"); ("shards", "int"); ("ttl_expression", "string")]%string).
Definition column_update_schema : schema :=
  mkSchema []
    (typed [("alias", "string"); ("comment", "string"); ("default", "string"); ("name", "string"); ("skipping_index_expression", "string");
            ("ttl_expression", "string"); ("type", "string")]%string).
Definition database_schema : schema := mkSchema (typed [("name", "string")]%string) [].

(** [granularity_func_mapping]; a missing key gives the empty text. *)
Definition granularity_func_mapping : list (str * str) :=
  typed [("D", "toYYYYMMDD(`_time`)"); ("H", "toStartOfHour(`_time`)"); ("M", "toYYYYMM(`_time`)"); ("m", "toStartOfMinute(`_time`)")]%string.
Fixpoint assoc (key : str) (l : list (str * str)) : option str :=
  match l with [] => None | (k, v) :: l => if decide (k = key) then Some v else assoc key l end.
Definition granularity (key : str) : str := default [] (assoc key granularity_func_mapping).

Section ddl_handlers.
Context {HJ : PocoJSON} {HN : PocoNet} {HR : Re2}.

Definition getStringValueFrom (payload : json) (key : string) (default_value : str) : result str :=
  if has payload (lit key) then var_text (jget payload (lit key)) else Ok default_value.

(** ** Columns *)

(** The text of a part that is there. *)
Definition part (payload : json) (key : string) (f : str -> str) : result (list str) :=
  if has payload (lit key) then s ← var_text (jget payload (lit key)); Ok [f s] else Ok [].

Definition getCreateColumnDefination (column : json) : result str :=
  name ← var_text (jget column (lit "name"));
  nullable ← match jget column (lit "nullable") with Some v => var_bool v | None => Ok false end;
  type ← var_text (jget column (lit "type"));
  default_part ← (if has column (lit "default") then part column "default" (fun d => lit " DEFAULT " ++ (if decide (type = lit "String") then lit "'" ++ d ++ lit "'" else d))
                  else part column "alias" (fun a => lit " ALIAS `" ++ a ++ lit "`"));
  comment ← part column "comment" (fun c => lit " COMMENT '" ++ c ++ lit "'");
  codec ← part column "compression_codec" (fun c => lit " CODEC(" ++ c ++ lit ")");
  ttl ← part column "ttl_expression" (fun c => lit " TTL " ++ c);
  skipping ← part column "skipping_index_expression" (fun c => lit ", " ++ c);
  Ok (join (lit " ") ([lit "`" ++ name ++ lit "`"; (if (nullable : bool) then lit " Nullable(" ++ type ++ lit ")" else lit " " ++ type)]
                      ++ default_part ++ comment ++ codec ++ ttl ++ skipping)).

(** [column_type] is what the catalog says of a column. *)
Definition getUpdateColumnDefination (payload : json) (column_type : str -> str) (column : str) : result str :=
  new_name ← (if has payload (lit "name") then n ← var_text (jget payload (lit "name")); Ok (Some n) else Ok None);
  let rename := match new_name with Some n => [lit " RENAME COLUMN `" ++ column ++ lit "` TO `" ++ n ++ lit "`"] | None => [] end in
  let column := default column new_name in
  let modify text := lit " MODIFY COLUMN `" ++ column ++ lit "` " ++ text in
  type ← part payload "type" modify;
  default_part ← (if has payload (lit "default")
                  then part payload "default" (fun d => modify (lit "DEFAULT " ++ (if decide (column_type column = lit "String") then lit "'" ++ d ++ lit "'" else d)))
                  else part payload "alias" (fun a => modify (lit "ALIAS `" ++ a ++ lit "`")));
  comment ← part payload "comment" (fun c => lit " COMMENT COLUMN `" ++ column ++ lit "` '" ++ c ++ lit "'");
  ttl ← part payload "ttl_expression" (fun t => modify (lit "TTL " ++ t));
  codec ← part payload "compression_codec" (fun c => modify (lit "CODEC(" ++ c ++ lit ")"));
  Ok (join (lit ",") (rename ++ type ++ default_part ++ comment ++ ttl ++ codec)).

(** ** Tables *)

(** What the two kinds of tables differ in. *)
Record table_kind : Type := mkKind {
  k_schema : schema;
  k_columns_checked : bool;
  k_subtype : str;
  k_partition_granularity : str;
  k_order_granularity : str;
  k_columns : json -> result str;
  k_order_by : json -> str -> result str
}.

(** The columns of a payload; [getArray] and [extract] throw for other values. *)
Definition columns_of (payload : json) : result (list json) := match jget payload (lit "columns") with Some (JArray l) => Ok l | _ => Throw PocoException end.
Definition as_object (v : json) : result json := match v with JObject _ => Ok v | _ => Throw PocoException end.

Fixpoint map_result {A B} (f : A -> result B) (l : list A) : result (list B) :=
  match l with [] => Ok [] | a :: l => b ← f a; bs ← map_result f l; Ok (b :: bs) end.

Definition tabular_columns (payload : json) : result str :=
  columns ← columns_of payload;
  defs ← map_result (fun col => col ← as_object col; getCreateColumnDefination col) columns;
  time ← (if has payload (lit "_time_column") then t ← var_text (jget payload (lit "_time_column")); Ok (lit "`_time` DateTime64(3) DEFAULT " ++ t)
          else Ok (lit "`_time` DateTime64(3, UTC) DEFAULT now64(3)"));
  Ok (join (lit ",") (defs ++ [time])).

Definition tabular_order_by (payload : json) (default_granularity : str) : result str :=
  g ← getStringValueFrom payload "order_by_granularity" default_granularity;
  e ← getStringValueFrom payload "order_by_expression" [];
  Ok (if decide (e = []) then granularity g else granularity g ++ lit ", " ++ e).

Definition rawstore_columns (payload : json) : result str :=
  Ok (join (lit ",") (map lit ["`_raw` String"; "`_time` DateTime64(3) DEFAULT now64(3) CODEC (DoubleDelta, LZ4)";
                               "`_index_time` DateTime64(3) DEFAULT now64(3) CODEC (DoubleDelta, LZ4)"; "`sourcetype` LowCardinality(String)"; "`source` String"; "`host` String"]%string)).

Definition rawstore_order_by (payload : json) (default_granularity : str) : result str :=
  g ← getStringValueFrom payload "order_by_granularity" default_granularity;
  Ok (granularity g ++ lit ", sourcetype").

Definition Tabular : table_kind := mkKind tabular_schema true (lit "tabular") (lit "M") (lit "D") tabular_columns tabular_order_by.
Definition Rawstore : table_kind := mkKind rawstore_schema false (lit "rawstore") (lit "D") (lit "m") rawstore_columns rawstore_order_by.

Definition check_granularity (payload : json) (key : string) (error_msg : string) : result (option str) :=
  if has payload (lit key) then
    g ← var_text (jget payload (lit key));
    Ok (match assoc g granularity_func_mapping with Some _ => None | None => Some (lit error_msg) end)
  else Ok None.

(** [TableRestRouterHandler::validatePost] *)
Definition table_validate (h : hctx) (payload : json) : result (option str) :=
  e ← check_granularity payload "partition_by_granularity" "Invalid partition_by_granularity, only `m, H, D, M` are supported";
  match e with Some _ => Ok e | None =>
    e ← check_granularity payload "order_by_granularity" "Invalid order_by_granularity, only `m, H, D, M` are supported";
    match e with Some _ => Ok e | None =>
      if negb (q_distributed (h_ctx h)) || getQueryParameterBool h (lit "distributed") false then
        shards ← match jget payload (lit "shards") with Some v => var_int32 v | None => Ok 1 end;
        replication_factor ← match jget payload (lit "replication_factor") with Some v => var_int32 v | None => Ok 1 end;
        Ok (if decide (shards <> 1 \/ replication_factor <> 1) then Some (lit "Invalid shards / replication factor, local table shall have only 1 shard and 1 replica") else None)
      else Ok None
    end
  end.

Fixpoint validate_columns (cols : list json) : result (option str) :=
  match cols with
  | [] => Ok None
  | c :: cols => c ← as_object c; match validateSchema column_schema c with Some e => Ok (Some e) | None => validate_columns cols end
  end.

(** [validatePost] of the two kinds *)
Definition validatePost (k : table_kind) (h : hctx) (payload : json) : result (option str) :=
  match validateSchema (k_schema k) payload with
  | Some e => Ok (Some e)
  | None =>
      e ← (if k_columns_checked k then cols ← columns_of payload; validate_columns cols else Ok None);
      match e with Some _ => Ok e | None => table_validate h payload end
  end.

Definition getEngineExpr (h : hctx) (payload : json) : result str :=
  if q_distributed (h_ctx h) && bool_decide (getQueryParameter h (lit "distributed") <> lit "false") then
    shards ← getStringValueFrom payload "shards" (lit "1");
    replication_factor ← getStringValueFrom payload "replication_factor" (lit "1");
    shard_by ← getStringValueFrom payload "shard_by_expression" (lit "rand()");
    Ok (lit "DistributedMergeTree(" ++ replication_factor ++ lit ", " ++ shards ++ lit ", " ++ shard_by ++ lit ")")
  else Ok (lit "MergeTree()").

Definition getPartitionExpr (payload : json) (default_granularity : str) : result str :=
  g ← getStringValueFrom payload "partition_by_granularity" default_granularity;
  Ok (granularity g).

(** The empty text for an invalid setting. *)
Definition getAndValidateStorageSetting (h : hctx) (key : str) : str :=
  let value := getQueryParameter h key in
  let quoted := key ++ lit "='" ++ value ++ lit "'" in
  if decide (value = []) then []
  else if decide (key = lit "streaming_storage_subscription_mode") then (if decide (value = lit "shared" \/ value = lit "dedicated") then quoted else [])
  else if decide (key = lit "streaming_storage_auto_offset_reset") then (if decide (value = lit "earliest" \/ value = lit "latest") then quoted else [])
  else if decide (key = lit "distributed_ingest_mode") then
    (if decide (value = lit "async" \/ value = lit "sync" \/ value = lit "fire_and_forget" \/ value = lit "ordered") then quoted else [])
  else key ++ lit "=" ++ value.

Fixpoint storage_settings (h : hctx) (keys : list str) : option (list str) :=
  match keys with
  | [] => Some []
  | key :: keys =>
      if hasQueryParameter h key then
        let r := getAndValidateStorageSetting h key in
        if decide (r = []) then None else rs ← storage_settings h keys; Some ((lit ", " ++ r) :: rs)
      else storage_settings h keys
  end.

Definition getCreationSQL (k : table_kind) (h : hctx) (payload : json) (shard : str) : result str :=
  _ ← getStringValueFrom payload "_time_column" (lit "_time");
  name ← var_text (jget payload (lit "name"));
  columns ← k_columns k payload;
  engine ← getEngineExpr h payload;
  partition ← getPartitionExpr payload (k_partition_granularity k);
  order ← k_order_by k payload (k_order_granularity k);
  ttl ← part payload "ttl_expression" (fun t => lit "TTL " ++ t);
  Ok (match storage_settings h CREATE_TABLE_SETTINGS with
      | None => []
      | Some settings =>
          join (lit " ")
            ([lit "CREATE TABLE " ++ h_database h ++ lit ".`" ++ name ++ lit "`"; lit "("; columns; lit ")"; lit "ENGINE = " ++ engine; lit "PARTITION BY " ++ partition;
              lit "ORDER BY (" ++ order ++ lit ")"] ++ ttl ++ [lit "SETTINGS subtype='" ++ k_subtype k ++ lit "'"]
             ++ (if decide (shard = []) then [] else [lit ", shard=" ++ shard]) ++ settings)
      end).

Section execution.
Context (nd : node).
Abbreviation rest := (io rcall).

Definition refuse (h : hctx) (msg : str) (code st : Z) : rest (str * Z) := mret (jsonErrorResponse msg code (query_id h), st).
Definition answer_query (q : query_context) (sql : str) : rest (str * Z) := text ← processQuery nd q sql; mret (text, DDL.HTTP_OK).

(** The table of a statement for the cluster is looked up in the catalog. *)
Definition catalog_has (h : hctx) (table : str) : rest bool := io_look (fun tr => tableExists (n_catalog nd tr) (h_database h) table).

Definition table_post (k : table_kind) (h : hctx) (payload : json) : rest (str * Z) :=
  table ← io_lift (var_text (jget payload (lit "name")));
  known ← catalog_has h table;
  if isDistributedDDL h && (known : bool)
  then refuse h (lit "Table " ++ h_database h ++ lit "." ++ table ++ lit " already exists.") ErrorCodes.TABLE_ALREADY_EXISTS HTTP_BAD_REQUEST
  else
    query ← io_lift (getCreationSQL k h payload (getQueryParameter h (lit "shard")));
    if decide (query = []) then mret ([], HTTP_BAD_REQUEST)
    else answer_query (setupDistributedQueryParameters [] (Some payload) h) query.

Definition no_table (h : hctx) (table : str) : str := lit "Table " ++ h_database h ++ lit "." ++ table ++ lit " doesn't exist".

Definition table_patch (h : hctx) (payload : json) : rest (str * Z) :=
  let table := getPathParameter h (lit "table") in
  known ← catalog_has h table;
  if isDistributedDDL h && negb known then refuse h (no_table h table) ErrorCodes.UNKNOWN_TABLE HTTP_BAD_REQUEST
  else
    ttl ← io_lift (var_text (jget payload (lit "ttl_expression")));
    answer_query (setupDistributedQueryParameters [] (Some payload) h)
      (join (lit " ") [lit "ALTER TABLE " ++ h_database h ++ lit ".`" ++ table ++ lit "`"; lit " MODIFY TTL " ++ ttl]).

Definition table_delete (h : hctx) : rest (str * Z) :=
  let table := getPathParameter h (lit "table") in
  known ← catalog_has h table;
  if isDistributedDDL h && negb known then refuse h (no_table h table) ErrorCodes.UNKNOWN_TABLE HTTP_BAD_REQUEST
  else answer_query (setupDistributedQueryParameters [] None h) (lit "DROP TABLE " ++ h_database h ++ lit ".`" ++ table ++ lit "`").

(** [tables_json] is the list of the tables of a database, [known] whether the database is on this node. *)
Context (tables_json : table_kind -> hctx -> list rcall -> result str) (known_database : str -> list rcall -> bool).

Definition table_get (k : table_kind) (h : hctx) : rest (str * Z) :=
  known ← io_look (known_database (h_database h));
  if negb known then refuse h (lit "Databases " ++ h_database h ++ lit " does not exist.") ErrorCodes.UNKNOWN_DATABASE HTTP_BAD_REQUEST
  else text ← (io_look (tables_json k h) ≫= io_lift); mret (text, DDL.HTTP_OK).

Definition table_methods (k : table_kind) (create : query_context -> query_context) : methods :=
  mkMethods create None
    (fun v h payload => match v with VPost => validatePost k h payload | VPatch => Ok (validateSchema update_schema payload) | _ => Ok None end)
    (fun v h payload => match v with
                        | VGet => table_get k h | VPost => table_post k h payload | VPatch => table_patch h payload | VDelete => table_delete h
                        | VUnknown => handleNotImplemented h
                        end).

(** *** Columns *)

Definition no_table_named (table : str) : str := lit "TABLE " ++ table ++ lit " does not exist.".

(** [assertColumnExists] and [assertColumnNotExists]: the message of a failure *)
Definition assertColumnExists (h : hctx) (table column : str) : rest (option str) :=
  '(table_exist, column_exist) ← io_look (n_column_exists nd (h_database h) table column);
  mret (if negb table_exist then Some (jsonErrorResponse (no_table_named table) ErrorCodes.UNKNOWN_TABLE (query_id h))
        else if negb column_exist then Some (jsonErrorResponse (lit "Column " ++ column ++ lit " does not exist.") ErrorCodes.NO_SUCH_COLUMN_IN_TABLE (query_id h))
        else None).
Definition assertColumnNotExists (h : hctx) (table column : str) : rest (option str) :=
  '(table_exist, column_exist) ← io_look (n_column_exists nd (h_database h) table column);
  mret (if negb table_exist then Some (jsonErrorResponse (no_table_named table) ErrorCodes.UNKNOWN_TABLE (query_id h))
        else if (column_exist : bool) then Some (jsonErrorResponse (lit "Column " ++ column ++ lit " already exists.") ErrorCodes.ILLEGAL_COLUMN (query_id h))
        else None).

(** A statement on a column: checked when it is for the cluster. *)
Definition column_statement (h : hctx) (check : rest (option str)) (st : Z) (method column : str) (payload : option json) (sql : result str) : rest (str * Z) :=
  failure ← (if isDistributedDDL h then check else mret None);
  match failure with
  | Some message => mret (message, st)
  | None => sql ← io_lift sql; answer_query (setupDistributedQueryParameters [(lit "column", column); (lit "query_method", method)] payload h) sql
  end.

Definition alter_table (h : hctx) (table : str) : str := lit "ALTER TABLE " ++ h_database h ++ lit ".`" ++ table ++ lit "`".

Definition column_post (h : hctx) (payload : json) : rest (str * Z) :=
  let table := getPathParameter h (lit "table") in
  column ← io_lift (var_text (jget payload (lit "name")));
  column_statement h (assertColumnNotExists h table column) HTTP_CONFLICT DDL.HTTP_POST column (Some payload)
    (def ← getCreateColumnDefination payload; Ok (join (lit " ") [alter_table h table; lit "ADD COLUMN "; def])).

Definition column_patch (h : hctx) (payload : json) : rest (str * Z) :=
  let table := getPathParameter h (lit "table") in
  let column := getPathParameter h (lit "column") in
  column_type ← io_look (fun tr c => n_column_type nd (h_database h) table c tr);
  column_statement h (assertColumnExists h table column) HTTP_NOT_FOUND DDL.HTTP_PATCH column (Some payload)
    (def ← getUpdateColumnDefination payload column_type column; Ok (join (lit " ") [alter_table h table; def])).

Definition column_delete (h : hctx) : rest (str * Z) :=
  let table := getPathParameter h (lit "table") in
  let column := getPathParameter h (lit "column") in
  column_statement h (assertColumnExists h table column) HTTP_NOT_FOUND DDL.HTTP_DELETE column None
    (Ok (join (lit " ") [alter_table h table; lit "DROP COLUMN `" ++ column ++ lit "`"])).

Definition column_methods : methods :=
  mkMethods id None
    (fun v h payload => match v with VPost => Ok (validateSchema column_schema payload) | VPatch => Ok (validateSchema column_update_schema payload) | _ => Ok None end)
    (fun v h payload => match v with
                        | VPost => column_post h payload | VPatch => column_patch h payload | VDelete => column_delete h
                        | VGet | VUnknown => handleNotImplemented h
                        end).

(** *** Databases *)

(** [databases] is the answer to SHOW DATABASES as JSON. *)
Context (databases : hctx -> list rcall -> str).

Definition database_post (h : hctx) (payload : json) : rest (str * Z) :=
  name ← io_lift (var_text (jget payload (lit "name")));
  answer_query (setupDistributedQueryParameters [] (Some payload) h) (lit "CREATE DATABASE " ++ name).
Definition database_delete (h : hctx) : rest (str * Z) :=
  answer_query (setupDistributedQueryParameters [] None h) (lit "DROP DATABASE " ++ getPathParameter h (lit "database")).
Definition database_get (h : hctx) : rest (str * Z) :=
  _ ← processQuery nd (h_ctx h) (lit "SHOW DATABASES;");
  text ← io_look (databases h); mret (text, DDL.HTTP_OK).

Definition database_methods : methods :=
  mkMethods id None
    (fun v h payload => match v with VPost => Ok (validateSchema database_schema payload) | _ => Ok None end)
    (fun v h payload => match v with
                        | VGet => database_get h | VPost => database_post h payload | VDelete => database_delete h
                        | VPatch | VUnknown => handleNotImplemented h
                        end).

(** The handlers of this file; [others] are the rest. *)
Context (others : handler -> methods).

Definition methods_of (hd : handler) : methods :=
  match hd with
  | TabularTable => table_methods Tabular id
  | RawstoreTable => table_methods Rawstore (set_param (lit "table_type") (lit "rawstore"))
  | Column => column_methods
  | Database => database_methods
  | _ => others hd
  end.
End execution.
End ddl_handlers.
End RestDDL.
Import RestDDL.

(** ** One request, at most one statement *)

Section facts.
Context {HJ : PocoJSON} {HN : PocoNet} {HR : Re2} (nd : node).

(** The computation ends without a call and without success, or runs one statement in a context that satisfies [Q]; success is answered exactly when the statement succeeded. *)
Definition attempts (Q : query_context -> Prop) (m : io rcall (str * Z)) : Prop :=
  forall tr, (exists r, does m tr [] r /\ forall text st, r = Ok (text, st) -> st <> DDL.HTTP_OK) \/
  (exists sql q, Q q /\ does m tr [RQuery sql q (n_query nd sql q tr)]
    (match n_query nd sql q tr with Ok _ => Ok (json_text (JObject [(lit "request_id", JString (q_query_id q))]), DDL.HTTP_OK) | Throw e => Throw e end)).

Lemma attempts_ret Q text st : st <> DDL.HTTP_OK -> attempts Q (mret (text, st)).
Proof. intros Hst tr. left. eexists. split; [apply does_ret|]. by intros ? ? [= <- <-]. Qed.

Lemma attempts_lift {A} Q (x : result A) f : (forall a, x = Ok a -> attempts Q (f a)) -> attempts Q (io_lift x ≫= f).
Proof.
  intros Hf tr. destruct x as [a|e].
  - apply (Hf a eq_refl tr).
  - left. exists (Throw e). split; [|done]. unfold does. cbn. by rewrite app_nil_r.
Qed.

Lemma attempts_look {A} Q (answer : list rcall -> A) f : (forall a, attempts Q (f a)) -> attempts Q (io_look answer ≫= f).
Proof. intros Hf tr. apply (Hf (answer tr) tr). Qed.

Lemma attempts_answer (Q : query_context -> Prop) q sql : Q q -> attempts Q (answer_query nd q sql).
Proof.
  intros HQ tr. right. exists sql, q. split; [done|]. unfold does, answer_query, processQuery, io_call, io_lift, mbind, io_bind. by destruct (n_query nd sql q tr).
Qed.

Lemma attempts_refuse Q h msg code st : st <> DDL.HTTP_OK -> attempts Q (refuse h msg code st).
Proof. apply attempts_ret. Qed.

(** The flag of a statement for the cluster. *)
Definition flagged (h : hctx) (q : query_context) : Prop := q_ddl_operation q = isDistributedDDL h.

Lemma setup_flagged ps payload h : q_ddl_operation (h_ctx h) = false -> flagged h (setupDistributedQueryParameters ps payload h).
Proof. intros H. unfold flagged, setupDistributedQueryParameters. by destruct (isDistributedDDL h). Qed.

Ltac attempt :=
  repeat (intros; lazymatch goal with
  | |- attempts _ (mret _) => apply attempts_ret; done
  | |- attempts _ (refuse _ _ _ _) => apply attempts_refuse; done
  | |- attempts _ (handleNotImplemented _) => apply attempts_ret; done
  | |- attempts _ (answer_query _ _ _) => apply attempts_answer, setup_flagged; done
  | |- attempts _ (io_lift _ ≫= _) => apply attempts_lift
  | |- attempts _ (catalog_has _ _ _ ≫= _) => apply attempts_look
  | |- attempts _ (io_look _ ≫= _) => apply attempts_look
  | |- attempts _ (if ?b then _ else _) => destruct b
  | |- attempts _ (match ?o with Some _ => _ | None => _ end) => destruct o
  end).

Lemma column_statement_attempts h check st method column payload sql : q_ddl_operation (h_ctx h) = false -> st <> DDL.HTTP_OK ->
  (forall f : option str -> io rcall (str * Z), (forall o, attempts (flagged h) (f o)) -> attempts (flagged h) (check ≫= f)) ->
  attempts (flagged h) (column_statement nd h check st method column payload sql).
Proof.
  intros Hh Hst Hcheck. unfold column_statement.
  assert (Hrest : forall o : option str, attempts (flagged h) match o with
    | Some message => mret (message, st)
    | None => sql ← io_lift sql; answer_query nd (setupDistributedQueryParameters [(lit "column", column); (lit "query_method", method)] payload h) sql end).
  { intros [msg|]; attempt. }
  destruct (isDistributedDDL h); [by apply Hcheck|]. intros tr. exact (Hrest None tr).
Qed.

Lemma assert_attempts Q (answer : list rcall -> bool * bool) (g : bool -> bool -> option str) (f : option str -> io rcall (str * Z)) :
  (forall o, attempts Q (f o)) -> attempts Q (('(table_exist, column_exist) ← io_look answer; mret (g table_exist column_exist)) ≫= f).
Proof.
  intros Hf tr. set (m := mbind _ _). assert (Hm : m tr = f (g (answer tr).1 (answer tr).2) tr) by (unfold m, mbind, io_bind, io_look, mret, io_ret; by destruct (answer tr)).
  unfold does. rewrite Hm. apply Hf.
Qed.

(** The handlers of statements, for every method but GET. *)
Definition is_ddl_handler (hd : handler) : bool := match hd with TabularTable | RawstoreTable | Column | Database => true | _ => false end.

Lemma ddl_handlers_attempt tables_json known_database databases others hd v h payload :
  is_ddl_handler hd = true -> v <> VGet -> q_ddl_operation (h_ctx h) = false ->
  attempts (flagged h) (execute_payload (methods_of nd tables_json known_database databases others hd) v h payload).
Proof.
  intros Hhd Hv Hh. unfold execute_payload, doExecute. destruct v; try done; [| | |by apply attempts_ret]; destruct hd; try done; cbn [methods_of table_methods column_methods database_methods validate execute_verb];
    apply attempts_lift; (intros [e|] _; [by apply (attempts_ret _ _ HTTP_BAD_REQUEST)|]); unfold table_post, table_patch, table_delete, column_post, column_patch, column_delete, database_post, database_delete; attempt;
    intros; apply column_statement_attempts; try done; intros; by apply assert_attempts.
Qed.

Lemma exception_not_ok code : exception_status code <> DDL.HTTP_OK.
Proof. unfold exception_status, exceptionCodeToHTTPStatus. by repeat case_decide. Qed.

Context (tables_json : table_kind -> hctx -> list rcall -> result str) (known_database : str -> list rcall -> bool) (databases : hctx -> list rcall -> str) (others : handler -> methods).
Abbreviation M := (methods_of nd tables_json known_database databases others).

(** Whether a request is meant for the cluster. *)
Definition for_cluster (params : list (str * str)) : bool := n_distributed nd && getQueryParameterBool (mkH (mkQuery false false ∅ [] []) [] ∅ params) (lit "distributed_ddl") true.

Lemma setup_spec req h h' params : HTMLForm (r_uri req) = Ok params -> setupHTTPContext req h = Ok h' ->
  h_form h' = params /\ h_path h' = h_path h /\ h_database h' = h_database h /\ q_ddl_operation (h_ctx h') = q_ddl_operation (h_ctx h) /\ q_distributed (h_ctx h') = q_distributed (h_ctx h) /\
  q_query_id (h_ctx h') = q_query_id (h_ctx h) /\ q_user (h_ctx h') = q_user (h_ctx h).
Proof.
  intros Hf. unfold setupHTTPContext. rewrite Hf. cbn [mbind result_bind]. destruct (isDistributedDDL _); [|by intros [= <-]]. destruct (raw_query (r_uri req)); [|done]. by intros [= <-].
Qed.

Lemma ddl_not_streaming hd : is_ddl_handler hd = true -> on_stream (M hd) = None.
Proof. by destruct hd. Qed.

Lemma on_create_fields hd q : is_ddl_handler hd = true -> q_ddl_operation (on_create (M hd) q) = q_ddl_operation q /\ q_distributed (on_create (M hd) q) = q_distributed q.
Proof. by destruct hd. Qed.

Lemma serve_attempts req params hd path user id tr : HTMLForm (r_uri req) = Ok params -> get (r_uri req) (r_meth req) = Some (hd, path) -> is_ddl_handler hd = true -> verb_of (r_meth req) <> VGet ->
  (exists r, does (serve nd M req user id) tr [] r /\ forall resp, r = Ok resp -> status resp <> DDL.HTTP_OK) \/
  (exists sql q, q_ddl_operation q = for_cluster params /\ exists r, does (serve nd M req user id) tr [RQuery sql q (n_query nd sql q tr)] r /\
     match n_query nd sql q tr with Ok _ => exists resp, r = Ok resp /\ status resp = DDL.HTTP_OK | Throw e => r = Throw e end).
Proof.
  intros Hf Hg Hd Hv. unfold serve. rewrite Hg. set (h := mkH _ _ _ _).
  assert (Ha : attempts (fun q => q_ddl_operation q = for_cluster params) (execute (M hd) req h)).
  { unfold execute. apply attempts_lift. intros h' Hs. rewrite ddl_not_streaming by done. destruct (setup_spec _ _ _ _ Hf Hs) as (H1 & _ & _ & H2 & H3 & _). apply attempts_lift. intros payload _.
    destruct (on_create_fields hd (mkQuery (n_distributed nd) false ∅ id user) Hd) as [H4 H5]. cbn [h h_ctx] in H2, H3. rewrite H4 in H2. rewrite H5 in H3. cbn in H2, H3.
    assert (Hc : isDistributedDDL h' = for_cluster params) by (unfold isDistributedDDL, for_cluster, getQueryParameterBool, getQueryParameter; cbn; by rewrite H1, H3).
    intros tr'. pose proof (ddl_handlers_attempt tables_json known_database databases others hd _ h' payload Hd Hv H2 tr') as Hx. unfold flagged in Hx. by rewrite Hc in Hx. }
  destruct (Ha tr) as [(r & Hr & Hn)|(sql & q & Hq & Hr)].
  - left. destruct r as [[text st]|e].
    + exists (Ok (mkResponse st text)). split; [|intros resp [= <-]; by eapply Hn]. apply (does_bind _ _ _ [] _ [] _ Hr), does_ret.
    + exists (Throw e). split; [|done]. by apply does_bind_throw.
  - right. exists sql, q. split; [done|]. destruct (n_query nd sql q tr) as [[]|e].
    + eexists. split; [rewrite <- (app_nil_r [_]); eapply does_bind; [exact Hr|apply does_ret]|]. by eexists.
    + exists (Throw e). split; [by apply does_bind_throw|done].
Qed.

Definition queries (calls : list rcall) : list (str * query_context * result unit) := omap (fun c => match c with RQuery sql q a => Some (sql, q, a) | _ => None end) calls.

(** A request whose parameters are read. *)
Lemma form_request_answered req params hd path tr : HTMLForm (r_uri req) = Ok params -> get (r_uri req) (r_meth req) = Some (hd, path) -> is_ddl_handler hd = true -> verb_of (r_meth req) <> VGet ->
  exists new resp, does (handleRequest nd M req) tr new (Ok resp) /\
    ((queries new = [] /\ status resp <> DDL.HTTP_OK) \/
     (exists c user sql q a, choose_credentials req params = Ok c /\ new = [RUser c (Ok (Some user)); RQuery sql q a] /\ q_ddl_operation q = for_cluster params /\ (status resp = DDL.HTTP_OK <-> a = Ok tt))).
Proof.
  intros Hf Hg Hd Hv. unfold handleRequest. rewrite Hf. set (id := query_id_of nd req tr). set (m := try_request nd M req params id).
  assert (Hcatch : forall new e, does m tr new (Throw e) -> exists resp, does (io_catch m (trySendExceptionToClient nd id)) tr new (Ok resp) /\ status resp <> DDL.HTTP_OK).
  { intros new e Hm. eexists. rewrite <- (app_nil_r new). split; [eapply does_catch; [exact Hm|apply does_ret]|]. apply exception_not_ok. }
  assert (Hok : forall new resp, does m tr new (Ok resp) -> does (io_catch m (trySendExceptionToClient nd id)) tr new (Ok resp)) by (intros; by apply does_catch_ok).
  enough (exists new resp, does (io_catch m (trySendExceptionToClient nd id)) tr new (Ok resp) /\
    ((queries new = [] /\ status resp <> DDL.HTTP_OK) \/
     (exists c user sql q a, choose_credentials req params = Ok c /\ new = [RUser c (Ok (Some user)); RQuery sql q a] /\ q_ddl_operation q = for_cluster params /\ (status resp = DDL.HTTP_OK <-> a = Ok tt)))) by done.
  destruct (choose_credentials req params) as [c|e] eqn:Ec.
  2:{ destruct (Hcatch [] e) as (resp & H1 & H2); [unfold m, try_request, does; rewrite Ec; by rewrite app_nil_r|]. exists [], resp. split; [done|by left]. }
  assert (Hbody : m tr = match n_set_user nd c tr with
    | Ok None => Some (tr ++ [RUser c (Ok None)], Ok (mkResponse HTTP_UNAUTHORIZED []))
    | Ok (Some user) => serve nd M req user id (tr ++ [RUser c (Ok (Some user))])
    | Throw e => Some (tr ++ [RUser c (Throw e)], Throw e) end).
  { unfold m, try_request. rewrite Ec. unfold io_call, io_lift, mbind, io_bind. by destruct (n_set_user nd c tr) as [[user|]|e]. }
  destruct (n_set_user nd c tr) as [[user|]|e].
  - destruct (serve_attempts req params hd path user id (tr ++ [RUser c (Ok (Some user))]) Hf Hg Hd Hv) as [(r & Hr & Hn)|(sql & q & Hq & r & Hr & Hm)].
    + unfold does in Hr. rewrite app_nil_r, <- Hbody in Hr. destruct r as [resp|e].
      * exists [RUser c (Ok (Some user))], resp. split; [by apply Hok|]. left. split; [done|by apply Hn].
      * destruct (Hcatch _ e Hr) as (resp & H1 & H2). eexists _, resp. split; [exact H1|by left].
    + unfold does in Hr. rewrite <- app_assoc, <- Hbody in Hr. destruct (n_query nd sql q _) as [[]|e] eqn:En.
      * destruct Hm as (resp & -> & Hs). eexists _, resp. split; [by apply Hok, Hr|]. right. exists c, user, sql, q, (Ok tt). done.
      * subst r. destruct (Hcatch _ e Hr) as (resp & H1 & H2). eexists _, resp. split; [exact H1|]. right. exists c, user, sql, q, (Throw e). split; [done|]. split; [done|]. split; [done|]. by split; intros H3.
  - exists [RUser c (Ok None)], (mkResponse HTTP_UNAUTHORIZED []). split; [by apply Hok|]. by left.
  - destruct (Hcatch _ e Hbody) as (resp & H1 & H2). eexists _, resp. split; [exact H1|by left].
Qed.

(** C22: Every request for a statement on a table, a column or a database, the parameters of which can be read, is answered. At most one statement is run for it, after the user was accepted, and as a statement for
    the cluster exactly when the node is part of one and the request does not say otherwise; the answer is 200 exactly when a statement was run and did not throw. When the parameters cannot be read, nothing is
    done, and the exception leaves the handler without an answer of it. *)
Theorem ddl_request_answered req hd path tr : get (r_uri req) (r_meth req) = Some (hd, path) -> is_ddl_handler hd = true -> verb_of (r_meth req) <> VGet ->
  match HTMLForm (r_uri req) with
  | Ok params =>
      exists new resp, does (handleRequest nd M req) tr new (Ok resp) /\
        ((queries new = [] /\ status resp <> DDL.HTTP_OK) \/
         (exists c user sql q a, choose_credentials req params = Ok c /\ new = [RUser c (Ok (Some user)); RQuery sql q a] /\ q_ddl_operation q = for_cluster params /\ (status resp = DDL.HTTP_OK <-> a = Ok tt)))
  | Throw e => does (handleRequest nd M req) tr [] (Throw e)
  end.
Proof.
  intros Hg Hd Hv. destruct (HTMLForm (r_uri req)) as [params|e] eqn:Hf; [by eapply form_request_answered|]. unfold does, handleRequest. rewrite Hf. by rewrite app_nil_r.
Qed.
End facts.

(** ** Examples *)

Definition example_handlers : handler -> methods := fun _ => mkMethods id None (fun _ _ _ => Ok None) (fun _ h _ => handleNotImplemented h (HJ := example_json)).
Definition example_request (method uri text : string) : request := mkRequest (lit method) (lit uri) [(lit "x-daisy-user", lit "u")] None (Z.of_nat (length (lit text))) (lit text).

Lemma ddl_request_answered_witness :
  exists new resp, does (handleRequest (HJ := example_json) (HN := example_net) (HR := backtracking) (example_node false empty_catalog)
      (methods_of (HJ := example_json) (example_node false empty_catalog) (fun _ _ _ => Ok []) (fun _ _ => false) (fun _ _ => []) example_handlers)
      (example_request "DELETE" "/dae/v1/ddl/tables/t" "{}")) [] new (Ok resp) /\
    ((queries new = [] /\ status resp <> DDL.HTTP_OK) \/
     (exists c user sql q a, choose_credentials (HN := example_net) (example_request "DELETE" "/dae/v1/ddl/tables/t" "{}") [([], [])] = Ok c /\ new = [RUser c (Ok (Some user)); RQuery sql q a] /\
        q_ddl_operation q = for_cluster (example_node false empty_catalog) [([], [])] /\ (status resp = DDL.HTTP_OK <-> a = Ok tt))).
Proof.
  assert (Hf : HTMLForm (HN := example_net) (lit "/dae/v1/ddl/tables/t") = Ok [([], [])]) by (vm_compute; reflexivity).
  assert (Hg : get (H := backtracking) (lit "/dae/v1/ddl/tables/t") (lit "DELETE") = Some (TabularTable, {[lit "table" := lit "t"]})) by (vm_compute; reflexivity).
  pose proof (ddl_request_answered (HJ := example_json) (HN := example_net) (HR := backtracking) (example_node false empty_catalog) (fun _ _ _ => Ok []) (fun _ _ => false) (fun _ _ => []) example_handlers
    (example_request "DELETE" "/dae/v1/ddl/tables/t" "{}") TabularTable {[lit "table" := lit "t"]} [] Hg eq_refl ltac:(discriminate)) as H.
  change (r_uri (example_request "DELETE" "/dae/v1/ddl/tables/t" "{}")) with (lit "/dae/v1/ddl/tables/t") in H. rewrite Hf in H. exact H.
Defined.

(** ** Flaws *)

Definition example_hctx (params : list (str * str)) : hctx := mkH (mkQuery true false ∅ (lit "id") (lit "u")) (lit "default") ∅ params.
Definition two_shards : json := JObject [(lit "name", JString (lit "t")); (lit "shards", JInt 2)].

(** A local table on a node of a cluster may have two shards, which are ignored, and a distributed one that is asked for may not; a zero is a local table for the check only. *)
Lemma local_table_shards :
  (let h := example_hctx [(lit "distributed", lit "false")] in validatePost (HJ := example_json) (Rawstore (HJ := example_json)) h two_shards = Ok None /\ getEngineExpr (HJ := example_json) h two_shards = Ok (lit "MergeTree()")) /\
  (let h := example_hctx [(lit "distributed", lit "true")] in
   validatePost (HJ := example_json) (Rawstore (HJ := example_json)) h two_shards = Ok (Some (lit "Invalid shards / replication factor, local table shall have only 1 shard and 1 replica")) /\
   getEngineExpr (HJ := example_json) h two_shards = Ok (lit "DistributedMergeTree(1, 2, rand())")) /\
  (let h := example_hctx [(lit "distributed", lit "0")] in getQueryParameterBool h (lit "distributed") true = false /\ getEngineExpr (HJ := example_json) h two_shards = Ok (lit "DistributedMergeTree(1, 2, rand())")).
Proof. repeat split; vm_compute; reflexivity. Qed.

(** The type of a column that is renamed is looked for under its new name: the default of a text is not quoted. *)
Lemma renamed_default :
  getUpdateColumnDefination (HJ := example_json) (JObject [(lit "name", JString (lit "d")); (lit "default", JString (lit "x"))]) (fun c => if decide (c = lit "c") then lit "String" else []) (lit "c")
  = Ok (lit " RENAME COLUMN `c` TO `d`, MODIFY COLUMN `d` DEFAULT x").
Proof. vm_compute. reflexivity. Qed.

(** An update of nothing passes the check, and its statement has no action. *)
Lemma empty_update : validateSchema (HJ := example_json) column_update_schema (JObject []) = None /\ getUpdateColumnDefination (HJ := example_json) (JObject []) (fun _ => []) (lit "c") = Ok [].
Proof. by split. Qed.

(** Neither is an update of a table without a TTL, for which there is no statement. *)
Lemma update_without_ttl : validateSchema (HJ := example_json) update_schema (JObject []) = None /\ jget (JObject []) (lit "ttl_expression") = None.
Proof. by split. Qed.
