(* ===== verification/RestCluster.v ===== *)
(** * RestCluster: a statement on its way through the cluster

    Puts together the REST interface (Rest, RestDDL), the interpreters of the statements (DDLInterpreters) and the service that executes them
    (DDLService): a client sends a request to a node; the node makes a statement of it and hands it, flagged, to the query engine; the interpreter
    appends a record to the topic of the DDL service; the service sends a request to each node of the table; and there it is a statement again.

    The text that [Poco::URI] sends is a parameter, with its law for paths of plain characters. *)

From stdpp Require Import strings.
From S2P Require Import Prelude TextFormat WalRecord KafkaConfig Catalog Placement Io MessageBlock TaskStatus MetadataService DDLService DDLInterpreters RestRoute Rest RestDDL.
Import DDL Interpreters Routes Rest RestDDL.
Local Open Scope Z_scope.

(** [getPathAndQuery]: nothing of a path of letters, digits and slashes is changed, and a parameter follows a question mark. *)
Definition plain_path (path : str) : Prop := head path = Some "/"%char /\ Forall (fun c => isWordCharASCII c = true \/ c = "/"%char) path.
Class PocoURIText (URI : Type) {HU : PocoURI URI} : Type := path_and_query : URI -> str.
Class PocoURITextLaws (URI : Type) {HU : PocoURI URI} (HT : PocoURIText URI) : Prop := {
  text_of_uri : forall host path u name value, "/"%char ∉ host -> plain_path path -> uri_of (lit "http://" ++ host ++ path) = Ok u ->
    Forall (fun c => isWordCharASCII c = true) name -> Forall (fun c => isWordCharASCII c = true) value ->
    path_and_query (addQueryParameter name value u) = path ++ lit "?" ++ name ++ lit "=" ++ value
}.

(** ** Statements on a table *)

Inductive table_op : Type := OpDrop | OpAlter | OpAddColumn | OpUpdateColumn (column : str) | OpDropColumn (column : str).

#[export] Instance table_op_eq : EqDecision table_op.
Proof. solve_decision. Defined.

Definition op_method (op : table_op) : str := match op with OpDrop | OpDropColumn _ => HTTP_DELETE | OpAlter | OpUpdateColumn _ => HTTP_PATCH | OpAddColumn => HTTP_POST end.
Definition op_verb (op : table_op) : verb := match op with OpDrop | OpDropColumn _ => VDelete | OpAlter | OpUpdateColumn _ => VPatch | OpAddColumn => VPost end.
Definition op_handler (raw : bool) (op : table_op) : handler := match op with OpDrop | OpAlter => if raw then RawstoreTable else TabularTable | _ => Column end.

(** The segments of the path of a request. *)
Definition op_segments (raw : bool) (op : table_op) (table : str) : list str :=
  [lit "dae"; lit "v1"; lit "ddl"] ++
  match op with
  | OpDrop | OpAlter => [(if raw then lit "rawstores" else lit "tables"); table]
  | OpAddColumn => [table; lit "columns"]
  | OpUpdateColumn column | OpDropColumn column => [table; lit "columns"; column]
  end.
Definition op_params (op : table_op) (table : str) : gmap str str :=
  match op with
  | OpUpdateColumn column | OpDropColumn column => <[lit "column" := column]> {[lit "table" := table]}
  | _ => {[lit "table" := table]}
  end.

(** The statement. *)
Definition op_sql `{PocoJSON} (op : table_op) (database table : str) (payload : json) (column_type : str -> str) : result str :=
  let alter := lit "ALTER TABLE " ++ database ++ lit ".`" ++ table ++ lit "`" in
  match op with
  | OpDrop => Ok (lit "DROP TABLE " ++ database ++ lit ".`" ++ table ++ lit "`")
  | OpAlter => ttl ← var_text (jget payload (lit "ttl_expression")); Ok (join (lit " ") [alter; lit " MODIFY TTL " ++ ttl])
  | OpAddColumn => def ← getCreateColumnDefination payload; Ok (join (lit " ") [alter; lit "ADD COLUMN "; def])
  | OpUpdateColumn column => def ← getUpdateColumnDefination payload column_type column; Ok (join (lit " ") [alter; def])
  | OpDropColumn column => Ok (join (lit " ") [alter; lit "DROP COLUMN `" ++ column ++ lit "`"])
  end.

Definition op_invalid `{PocoJSON} (op : table_op) (payload : json) : option str :=
  match op with
  | OpDrop | OpDropColumn _ => None
  | OpAlter => validateSchema update_schema payload
  | OpAddColumn => validateSchema column_schema payload
  | OpUpdateColumn _ => validateSchema column_update_schema payload
  end.

Definition word_name (s : str) : Prop := s <> [] /\ Forall (fun c => isWordCharASCII c = true) s.
Definition op_words (op : table_op) (table : str) : Prop :=
  word_name table /\ match op with OpUpdateColumn column | OpDropColumn column => word_name column | _ => True end.

Lemma escape_word s : Forall (fun c => isWordCharASCII c = true) s -> escapeForFileName s = s.
Proof. induction 1 as [|c s Hc _ IH]; [done|]. cbn. rewrite Hc. cbn. by rewrite IH. Qed.

Lemma unescape_word s : Forall (fun c => isWordCharASCII c = true) s -> unescapeForFileName s = s.
Proof. intros H. by rewrite <- (escape_word s H) at 1; rewrite unescape_escape. Qed.

Section routing.
Context {R : Re2} {HR : Re2Laws R}.

Lemma word_escaped s rest : word_name s -> matches escaped s rest [].
Proof. intros [Hs Hw]. constructor; [done|]. eapply Forall_impl; [exact Hw|]. intros c Hc. by rewrite Hc. Qed.

(** The request of a statement reaches its handler, with the names it is about. *)
Lemma op_routed raw op table q caps : op_words op table -> matches any_query q [] caps ->
  get (path_text (op_segments raw op table) q) (op_method op) = Some (op_handler raw op, op_params op table).
Proof.
  intros [Ht Hc] Hq. assert (caps = []) as -> by (eapply query_tail in Hq as [H _]; [done|]; intros ? ? ? Hp; by inversion Hp).
  pose proof (word_escaped table [] Ht) as Hm. pose proof (unescape_word table (proj2 Ht)) as Hu.
  assert (Hr : forall i r vals, router_handlers !! i = Some r -> serves (op_method op) r = true -> r_tail r = any_query -> Forall2 piece_ok (r_pieces r) vals ->
    op_segments raw op table = vals -> op_handler raw op = r_handler r -> op_params op table = path_parameters (path_caps (r_pieces r) vals ++ []) ->
    get (path_text (op_segments raw op table) q) (op_method op) = Some (op_handler raw op, op_params op table)).
  { intros i r vals Hi Hs Ht' Hf Hv Hh Hp. apply get_iff; [destruct op; cbn; set_solver|]. exists r, vals, q, []. rewrite Ht', Hv. split; [by eapply list_elem_of_lookup_2|]. done. }
  destruct op as [| | |column|column].
  - destruct raw; [eapply (Hr 7%nat)|eapply (Hr 5%nat)]; try reflexivity; repeat (lazymatch goal with |- Forall2 _ _ _ => constructor end); try done; cbn; by rewrite Hu.
  - destruct raw; [eapply (Hr 7%nat)|eapply (Hr 5%nat)]; try reflexivity; repeat (lazymatch goal with |- Forall2 _ _ _ => constructor end); try done; cbn; by rewrite Hu.
  - eapply (Hr 8%nat); try reflexivity; repeat (lazymatch goal with |- Forall2 _ _ _ => constructor end); try done; cbn; by rewrite Hu.
  - pose proof (word_escaped column [] Hc) as Hm'. pose proof (unescape_word column (proj2 Hc)) as Hu'. eapply (Hr 9%nat); try reflexivity; repeat (lazymatch goal with |- Forall2 _ _ _ => constructor end); try done; cbn; by rewrite Hu, Hu'.
  - pose proof (word_escaped column [] Hc) as Hm'. pose proof (unescape_word column (proj2 Hc)) as Hu'. eapply (Hr 9%nat); try reflexivity; repeat (lazymatch goal with |- Forall2 _ _ _ => constructor end); try done; cbn; by rewrite Hu, Hu'.
Qed.
End routing.

(** ** A statement on a node *)

Section node.
Context {HJ : PocoJSON} {HN : PocoNet} {HNL : PocoNetLaws HN} {R : Re2} {HR : Re2Laws R}.

Lemma plain_no path c : plain_path path -> isWordCharASCII c = false -> c <> "/"%char -> c ∉ path.
Proof. intros [_ Hp] Hc Hs Hin. eapply Forall_forall in Hin; [|exact Hp]. cbn in Hin. destruct Hin; congruence. Qed.

Lemma form_none path : plain_path path -> HTMLForm path = Ok [([], [])].
Proof.
  intros Hp. unfold HTMLForm. rewrite raw_query_none by (apply Hp || by apply plain_no). cbn [mbind result_bind length readQuery read_field]. rewrite decide_False by done.
  cbn [mbind result_bind]. rewrite (decide_False (P := None = Some _)) by done. cbn [mbind result_bind]. rewrite (decide_True (P := 0 = 0)) by done.
  rewrite bom_word by constructor. by rewrite decode_word by constructor.
Qed.

Lemma form_local path : plain_path path -> HTMLForm (path ++ lit "?distributed_ddl=false") = Ok [(lit "distributed_ddl", lit "false")].
Proof.
  intros Hp. unfold HTMLForm. change (lit "?distributed_ddl=false") with (lit "?" ++ lit "distributed_ddl=false"). rewrite raw_query_of by (apply Hp || (by apply plain_no) || (cbn; set_solver)).
  assert (Hw : forall s, forallb isWordCharASCII (lit s) = true -> Forall (fun c => isWordCharASCII c = true) (lit s)) by (intros s Hs; apply Forall_forall; intros c Hc%list_elem_of_In; by apply (proj1 (forallb_forall _ _) Hs)).
  pose proof (Hw "distributed_ddl"%string eq_refl) as Hn. pose proof (Hw "false"%string eq_refl) as Hv.
  cbn [mbind result_bind length readQuery]. change (read_field (is_one_of "=&") MAX_NAME_LENGTH (lit "distributed_ddl=false")) with (Ok (lit "distributed_ddl", Some "="%char, lit "false")).
  rewrite (decide_False (P := 0 = DFL_FIELD_LIMIT)) by done. cbn [mbind result_bind]. rewrite (decide_True (P := Some _ = Some _)) by done.
  change (read_field (is_one_of "&") DFL_MAX_VALUE_LENGTH (lit "false")) with (Ok (lit "false", None (A := ascii), [] : str)). cbn [mbind result_bind].
  rewrite (decide_True (P := 0 = 0)) by done. rewrite bom_word, (decode_word _ Hn) by done. cbn [mbind result_bind]. by rewrite (decode_word _ Hv).
Qed.

Context (nd : node) (tables_json : table_kind -> hctx -> list rcall -> result str) (known_database : str -> list rcall -> bool) (databases : hctx -> list rcall -> str) (others : handler -> methods).
Abbreviation M := (methods_of nd tables_json known_database databases others).

(** What the engine is told of a statement for the cluster. *)
Definition op_extra (op : table_op) (payload : json) : result (list (str * str)) :=
  match op with
  | OpDrop | OpAlter => Ok []
  | OpAddColumn => column ← var_text (jget payload (lit "name")); Ok [(lit "column", column); (lit "query_method", HTTP_POST)]
  | OpUpdateColumn column => Ok [(lit "column", column); (lit "query_method", HTTP_PATCH)]
  | OpDropColumn column => Ok [(lit "column", column); (lit "query_method", HTTP_DELETE)]
  end.
Definition op_payload (op : table_op) (payload : json) : option json := match op with OpDrop | OpDropColumn _ => None | _ => Some payload end.

Lemma lift_inv {A} (x : result A) (f : A -> io rcall (str * Z)) tr c new r : does (io_lift x ≫= f) tr (c :: new) r -> exists a, x = Ok a /\ does (f a) tr (c :: new) r.
Proof. unfold does, io_lift, mbind, io_bind. destruct x as [a|e]; [by exists a|]. intros [= H]. rewrite <- (app_nil_r tr) in H at 1. by simplify_list_eq. Qed.
Lemma ret_inv (a : str * Z) tr c new r : ~ does (mret a : io rcall _) tr (c :: new) r.
Proof. unfold does. intros [= H]. rewrite <- (app_nil_r tr) in H at 1. by simplify_list_eq. Qed.
Lemma answer_inv q sql tr c r : does (answer_query nd q sql) tr [c] r -> c = RQuery sql q (n_query nd sql q tr).
Proof. destruct (attempts_answer nd (fun _ => True) q sql I tr) as [(r' & H & _)|(sql' & q' & _ & H)]; unfold does, answer_query, processQuery, io_call, io_lift, mbind, io_bind; destruct (n_query nd sql q tr); intros [= H1 H2]; by simplify_list_eq. Qed.

Lemma op_params_table op table h : h_path h = op_params op table -> getPathParameter h (lit "table") = table.
Proof. intros H. unfold getPathParameter. rewrite H. destruct op; cbn [op_params]; rewrite ?lookup_insert_ne by done; by rewrite lookup_singleton_eq. Qed.
Lemma op_params_column op table h column : h_path h = op_params op table -> op = OpUpdateColumn column \/ op = OpDropColumn column -> getPathParameter h (lit "column") = column.
Proof. intros H Ho. unfold getPathParameter. rewrite H. destruct Ho as [->| ->]; cbn [op_params]; by rewrite lookup_insert_eq. Qed.

(** On a node the statement is not for the cluster of: it is run as it is. *)
Lemma run_local raw op table h payload sql tr : h_path h = op_params op table -> isDistributedDDL h = false -> op_invalid op payload = None -> (op = OpAddColumn -> exists c, var_text (jget payload (lit "name")) = Ok c) ->
  op_sql op (h_database h) table payload (fun c => n_column_type nd (h_database h) table c tr) = Ok sql ->
  execute_payload (M (op_handler raw op)) (op_verb op) h payload tr = answer_query nd (h_ctx h) sql tr.
Proof.
  intros Hp Hd Hi Hname Hs. pose proof (op_params_table op table h Hp) as Ht.
  assert (Hset : forall ps pl, setupDistributedQueryParameters ps pl h = h_ctx h) by (intros; unfold setupDistributedQueryParameters; by rewrite Hd).
  assert (Hcol : forall check st m c pl, column_statement nd h check st m c pl (op_sql op (h_database h) table payload (fun c => n_column_type nd (h_database h) table c tr)) tr = answer_query nd (h_ctx h) sql tr).
  { intros. unfold column_statement. rewrite Hd, Hset, Hs. done. }
  unfold execute_payload, doExecute. destruct op as [| | |column|column]; cbn [op_handler op_verb op_invalid op_sql] in *.
  - destruct raw; cbn [methods_of table_methods validate execute_verb]; unfold table_delete; cbv zeta; rewrite Hd, Ht, Hset; injection Hs as <-; done.
  - destruct (var_text (jget payload (lit "ttl_expression"))) as [ttl|] eqn:Et; [|done]. cbn [mbind result_bind] in Hs. injection Hs as <-.
    destruct raw; cbn [methods_of table_methods validate execute_verb]; rewrite Hi; unfold table_patch; cbv zeta; rewrite Hd, Ht, Hset, Et; done.
  - cbn [methods_of column_methods validate execute_verb]. rewrite Hi. unfold column_post. cbv zeta. destruct (Hname eq_refl) as [c Hc]. rewrite Hc, Ht. apply Hcol.
  - cbn [methods_of column_methods validate execute_verb]. rewrite Hi. unfold column_patch. cbv zeta. rewrite Ht, (op_params_column (OpUpdateColumn column) table h column Hp) by by left. apply Hcol.
  - cbn [methods_of column_methods validate execute_verb]. unfold column_delete. cbv zeta. rewrite Ht, (op_params_column (OpDropColumn column) table h column Hp) by by right. apply Hcol.
Qed.

Lemma column_statement_inv h (answer : list rcall -> bool * bool) (g : bool -> bool -> option str) st m column pl x tr c r :
  does (column_statement nd h ('(table_exist, column_exist) ← io_look answer; mret (g table_exist column_exist)) st m column pl x) tr [c] r ->
  exists sql, x = Ok sql /\ c = RQuery sql (setupDistributedQueryParameters [(lit "column", column); (lit "query_method", m)] pl h) (n_query nd sql (setupDistributedQueryParameters [(lit "column", column); (lit "query_method", m)] pl h) tr).
Proof.
  intros H. unfold column_statement in H.
  assert (Hrest : forall o : option str, does match o with
    | Some message => mret (message, st)
    | None => sql ← io_lift x; answer_query nd (setupDistributedQueryParameters [(lit "column", column); (lit "query_method", m)] pl h) sql end tr [c] r ->
    exists sql, x = Ok sql /\ c = RQuery sql (setupDistributedQueryParameters [(lit "column", column); (lit "query_method", m)] pl h) (n_query nd sql (setupDistributedQueryParameters [(lit "column", column); (lit "query_method", m)] pl h) tr)).
  { intros [msg|] Ho; [by apply ret_inv in Ho|]. apply lift_inv in Ho as (sql & -> & Ho). exists sql. split; [done|]. by apply answer_inv in Ho. }
  destruct (isDistributedDDL h); [|by apply (Hrest None)]. apply (Hrest (g (answer tr).1 (answer tr).2)). unfold does in *. rewrite <- H. unfold mbind, io_bind, io_look, mret, io_ret. by destruct (answer tr).
Qed.

(** A statement that was run is that of the request. *)
Lemma run_inv raw op table h payload sql q a tr r : h_path h = op_params op table ->
  does (execute_payload (M (op_handler raw op)) (op_verb op) h payload) tr [RQuery sql q a] r ->
  op_invalid op payload = None /\ op_sql op (h_database h) table payload (fun c => n_column_type nd (h_database h) table c tr) = Ok sql /\
  exists extra, op_extra op payload = Ok extra /\ q = setupDistributedQueryParameters extra (op_payload op payload) h.
Proof.
  intros Hp H. pose proof (op_params_table op table h Hp) as Ht. unfold execute_payload, doExecute in H.
  destruct op as [| | |column|column]; cbn [op_handler op_verb op_invalid op_sql op_extra op_payload] in *.
  - split; [done|]. assert (H' : does (table_delete nd h) tr [RQuery sql q a] r) by by destruct raw. unfold table_delete in H'. cbv zeta in H'. rewrite Ht in H'.
    change (does (if isDistributedDDL h && negb (tableExists (n_catalog nd tr) (h_database h) table) then refuse h (no_table h table) ErrorCodes.UNKNOWN_TABLE HTTP_BAD_REQUEST
      else answer_query nd (setupDistributedQueryParameters [] None h) (lit "DROP TABLE " ++ h_database h ++ lit ".`" ++ table ++ lit "`")) tr [RQuery sql q a] r) in H'.
    destruct (_ && _); [by apply ret_inv in H'|]. apply answer_inv in H'. injection H' as -> -> ->. split; [done|]. by exists [].
  - assert (H' : does (match validateSchema update_schema payload with Some e => mret (jsonErrorResponse e ErrorCodes.BAD_REQUEST_PARAMETER (query_id h), HTTP_BAD_REQUEST) | None => table_patch nd h payload end) tr [RQuery sql q a] r) by by destruct raw.
    destruct (validateSchema update_schema payload); [by apply ret_inv in H'|]. split; [done|]. unfold table_patch in H'. cbv zeta in H'. rewrite Ht in H'.
    change (does (if isDistributedDDL h && negb (tableExists (n_catalog nd tr) (h_database h) table) then refuse h (no_table h table) ErrorCodes.UNKNOWN_TABLE HTTP_BAD_REQUEST
      else ttl ← io_lift (var_text (jget payload (lit "ttl_expression"))); answer_query nd (setupDistributedQueryParameters [] (Some payload) h)
        (join (lit " ") [lit "ALTER TABLE " ++ h_database h ++ lit ".`" ++ table ++ lit "`"; lit " MODIFY TTL " ++ ttl])) tr [RQuery sql q a] r) in H'.
    destruct (_ && _); [by apply ret_inv in H'|]. apply lift_inv in H' as (ttl & -> & H'). apply answer_inv in H'. injection H' as -> -> ->. split; [done|]. by exists [].
  - apply lift_inv in H as (e & [= <-] & H). destruct (validateSchema column_schema payload); [by apply ret_inv in H|]. split; [done|]. cbn [methods_of column_methods execute_verb] in H. unfold column_post in H. cbv zeta in H. rewrite Ht in H.
    apply lift_inv in H as (c & -> & H). apply column_statement_inv in H as (sql' & Hs & [= -> -> ->]). split; [done|]. by eexists.
  - apply lift_inv in H as (e & [= <-] & H). destruct (validateSchema column_update_schema payload); [by apply ret_inv in H|]. split; [done|]. cbn [methods_of column_methods execute_verb] in H. unfold column_patch in H. cbv zeta in H.
    rewrite Ht, (op_params_column (OpUpdateColumn column) table h column Hp) in H by by left. apply column_statement_inv in H as (sql' & Hs & [= -> -> ->]). split; [done|]. by eexists.
  - split; [done|]. cbn [methods_of column_methods validate execute_verb] in H. unfold column_delete in H. cbv zeta in H. rewrite Ht, (op_params_column (OpDropColumn column) table h column Hp) in H by by right.
    apply lift_inv in H as (e & [= <-] & H). apply column_statement_inv in H as (sql' & Hs & [= -> -> ->]). split; [done|]. by eexists.
Qed.
(** What the engine is told, by name. *)
Definition op_text (op : table_op) (payload : json) : str := match op_payload op payload with Some v => json_text v | None => lit "{}" end.
Definition op_raw (raw : bool) (op : table_op) : bool := match op with OpDrop | OpAlter => raw | _ => false end.
Definition op_column (op : table_op) (payload : json) : result (option str) :=
  match op with
  | OpDrop | OpAlter => Ok None
  | OpAddColumn => column ← var_text (jget payload (lit "name")); Ok (Some column)
  | OpUpdateColumn column | OpDropColumn column => Ok (Some column)
  end.

Record submitted (raw : bool) (op : table_op) (payload : json) (user : str) (q : query_context) : Prop := {
  su_payload : q_params q !! lit "_payload" = Some (op_text op payload);
  su_type : q_params q !! lit "table_type" = (if op_raw raw op then Some (lit "rawstore") else None);
  su_column : op_column op payload = Ok (q_params q !! lit "column");
  su_method : q_params q !! lit "query_method" = (if decide (q_params q !! lit "column" = None) then None else Some (op_method op));
  su_user : q_user q = user
}.

Lemma submitted_setup raw op payload extra h : isDistributedDDL h = true -> op_extra op payload = Ok extra ->
  q_params (h_ctx h) !! lit "table_type" = (if op_raw raw op then Some (lit "rawstore") else None) -> q_params (h_ctx h) !! lit "column" = None -> q_params (h_ctx h) !! lit "query_method" = None ->
  submitted raw op payload (q_user (h_ctx h)) (setupDistributedQueryParameters extra (op_payload op payload) h).
Proof.
  intros Hd He Ht Hc Hm. unfold setupDistributedQueryParameters. rewrite Hd. cbn [negb].
  destruct op as [| | |column|column]; cbn [op_extra] in He.
  3: destruct (var_text (jget payload (lit "name"))) as [column|] eqn:Ev; [|done].
  all: injection He as <-; split; cbn [foldl fst snd set_param set_ddl_operation q_params q_user op_column op_method];
    repeat first [rewrite lookup_insert_eq | rewrite lookup_insert_ne by done]; rewrite ?Ht, ?Hc, ?Hm, ?Ev; done.
Qed.

Lemma path_plain raw op table : op_words op table -> plain_path (path_text (op_segments raw op table) []).
Proof.
  intros [[_ Ht] Hc]. split; [by destruct op|].
  assert (Hall : forall vals, Forall (Forall (fun c => isWordCharASCII c = true)) vals -> Forall (fun c => isWordCharASCII c = true \/ c = "/"%char) (path_text vals [])).
  { induction 1 as [|v vals Hv _ IH]; [constructor|]. cbn [path_text foldr]. constructor; [by right|]. apply Forall_app. split; [|done]. eapply Forall_impl; [exact Hv|]. by left. }
  apply Hall. assert (Hw : forall s, forallb isWordCharASCII (lit s) = true -> Forall (fun c => isWordCharASCII c = true) (lit s))
    by (intros s Hs; apply Forall_forall; intros c Hin%list_elem_of_In; by apply (proj1 (forallb_forall _ _) Hs)).
  destruct op; [destruct raw|destruct raw|..]; repeat first [apply Forall_nil | apply Forall_cons; split]; try done; try apply Hc; apply Hw; reflexivity.
Qed.

(** The form of a request has no parameters: on a node of a cluster the statement is for the cluster. *)
Lemma client_served raw op table req user id sql q a tr r : op_words op table -> n_distributed nd = true ->
  r_uri req = path_text (op_segments raw op table) [] -> r_meth req = op_method op -> does (serve nd M req user id) tr [RQuery sql q a] r ->
  exists payload, parseRequest req = Ok payload /\ op_invalid op payload = None /\ submitted raw op payload user q /\
    op_sql op (getDatabaseByUser user) table payload (fun c => n_column_type nd (getDatabaseByUser user) table c tr) = Ok sql.
Proof.
  intros Hw Hn Hu Hm H. unfold serve in H. rewrite Hu, Hm, (op_routed raw op table [] []) in H by (done || constructor). cbv zeta in H.
  set (h0 := mkH _ _ _ _) in H. pose proof (path_plain raw op table Hw) as Hp.
  assert (Hcreate : on_create (M (op_handler raw op)) (mkQuery (n_distributed nd) false ∅ id user) =
    mkQuery true false (if op_raw raw op then {[lit "table_type" := lit "rawstore"]} else ∅) id user) by (rewrite Hn; by destruct op, raw).
  set (q1 := mkQuery true false (<[lit "url_parameters" := []]> (if op_raw raw op then {[lit "table_type" := lit "rawstore"]} else ∅)) id user).
  set (h := mkH q1 (getDatabaseByUser user) (op_params op table) [([], [])]).
  assert (Hset : setupHTTPContext req h0 = Ok h).
  { unfold setupHTTPContext. rewrite Hu, form_none by done. cbn [mbind result_bind]. unfold h0. rewrite Hcreate. cbn [isDistributedDDL q_distributed h_ctx andb].
    rewrite raw_query_none by (apply Hp || by apply plain_no). reflexivity. }
  assert (Hx : exists r', does (execute (M (op_handler raw op)) req h0) tr [RQuery sql q a] r').
  { unfold does, mbind, io_bind in H. destruct (execute _ _ _ tr) as [[tr' [[text st]|e]]|] eqn:He; [..|done]; [injection H as -> <-|injection H as -> <-]; eexists; exact He. }
  destruct Hx as [r' Hx]. unfold execute in Hx. rewrite Hset in Hx. apply lift_inv in Hx as (h' & [= <-] & Hx).
  rewrite ddl_not_streaming in Hx by (by destruct op, raw). apply lift_inv in Hx as (payload & Hpay & Hx).
  replace (verb_of (r_meth req)) with (op_verb op) in Hx by (rewrite Hm; by destruct op). apply (run_inv raw op table h) in Hx as (Hi & Hs & extra & He & ->); [|done].
  exists payload. split; [done|]. split; [done|]. split; [|exact Hs]. apply (submitted_setup raw op payload extra h); try done; unfold h, q1; cbn [h_ctx q_params]; rewrite lookup_insert_ne by done; by destruct (op_raw raw op).
Qed.

(** What a node receives of a request of the service. *)
Definition received {URI} `{PocoURIText URI} (rq : http_request URI) : request :=
  mkRequest (h_method rq) (path_and_query (h_uri rq)) (h_headers rq) None (Z.of_nat (length (h_payload rq))) (h_payload rq).

Lemma received_user {URI} `{PocoURIText URI} (uri : URI) method query_id user password payload : user <> [] ->
  choose_credentials (received (build_request uri method query_id user password payload)) [(lit "distributed_ddl", lit "false")] = Ok (Basic user password []).
Proof.
  intros Hu. unfold choose_credentials, header, received, build_request. cbn [r_headers h_headers r_credentials].
  assert (H1 : form_find (lit "x-daisy-user") ([(lit "x-daisy-query-id", lit "from-" ++ query_id); (lit "x-daisy-user", user)] ++ (if decide (password = []) then [] else [(lit "x-daisy-key", password)])) = Some user)
    by by destruct (decide (password = [])).
  assert (H2 : default [] (form_find (lit "x-daisy-key") ([(lit "x-daisy-query-id", lit "from-" ++ query_id); (lit "x-daisy-user", user)] ++ (if decide (password = []) then [] else [(lit "x-daisy-key", password)]))) = password)
    by by destruct (decide (password = [])).
  assert (H3 : form_find (lit "x-daisy-quota") ([(lit "x-daisy-query-id", lit "from-" ++ query_id); (lit "x-daisy-user", user)] ++ (if decide (password = []) then [] else [(lit "x-daisy-key", password)])) = None)
    by by destruct (decide (password = [])).
  rewrite H1, H2, H3. cbn [from_option]. by rewrite decide_False by (by intros [? _]).
Qed.

(** A request of the service, on the node it is sent to: the statement is run there. *)
Lemma node_served raw op table req user password payload sql tr : op_words op table ->
  r_uri req = path_text (op_segments raw op table) (lit "?distributed_ddl=false") -> r_meth req = op_method op -> parseRequest req = Ok payload ->
  choose_credentials req [(lit "distributed_ddl", lit "false")] = Ok (Basic user password []) ->
  (forall tr, n_set_user nd (Basic user password []) tr = Ok (Some user)) -> op_invalid op payload = None -> (op = OpAddColumn -> exists c, var_text (jget payload (lit "name")) = Ok c) ->
  (forall tr, op_sql op (getDatabaseByUser user) table payload (fun c => n_column_type nd (getDatabaseByUser user) table c tr) = Ok sql) ->
  exists q a resp, does (handleRequest nd M req) tr [RUser (Basic user password []) (Ok (Some user)); RQuery sql q a] (Ok resp) /\ q_ddl_operation q = false /\ (status resp = HTTP_OK <-> a = Ok tt).
Proof.
  intros Hw Hu Hm Hpay Hc Huser Hi Hname Hs. pose proof (path_plain raw op table Hw) as Hp.
  assert (Htext : path_text (op_segments raw op table) (lit "?distributed_ddl=false") = path_text (op_segments raw op table) [] ++ lit "?distributed_ddl=false").
  { generalize (op_segments raw op table) as vals. unfold path_text. induction vals as [|v vals IH]; [done|]. cbn [foldr]. by rewrite IH, <- !app_assoc. }
  assert (Hform : HTMLForm (r_uri req) = Ok [(lit "distributed_ddl", lit "false")]) by (rewrite Hu, Htext; by apply form_local).
  assert (Hroute : get (r_uri req) (r_meth req) = Some (op_handler raw op, op_params op table)).
  { rewrite Hu, Hm. apply (op_routed raw op table _ []); [done|]. apply m_once, (m_cat _ _ (lit "?") (lit "distributed_ddl=false") [] [] []); [constructor|]. constructor; [done|].
    apply Forall_forall. intros c Hin%list_elem_of_In. exact (proj1 (forallb_forall query_chars (lit "distributed_ddl=false")) eq_refl c Hin). }
  set (tr1 := tr ++ [RUser (Basic user password []) (Ok (Some user))]). set (id := query_id_of nd req tr).
  set (h := mkH (on_create (M (op_handler raw op)) (mkQuery (n_distributed nd) false ∅ id user)) (getDatabaseByUser user) (op_params op table) [(lit "distributed_ddl", lit "false")]).
  assert (Hd : isDistributedDDL h = false) by (unfold isDistributedDDL; apply andb_false_r).
  assert (Hx : execute (M (op_handler raw op)) req (mkH (h_ctx h) (getDatabaseByUser user) (op_params op table) []) tr1 = answer_query nd (h_ctx h) sql tr1).
  { unfold execute, setupHTTPContext. rewrite Hform. cbn [mbind result_bind]. change (isDistributedDDL _) with (isDistributedDDL h). rewrite Hd, Hpay, ddl_not_streaming by (by destruct op, raw).
    replace (verb_of (r_meth req)) with (op_verb op) by (rewrite Hm; by destruct op). by apply (run_local raw op table h payload sql tr1). }
  exists (h_ctx h), (n_query nd sql (h_ctx h) tr1).
  assert (Hq : q_ddl_operation (h_ctx h) = false) by by destruct op, raw.
  assert (Hrun : handleRequest nd M req tr = io_catch (fun _ => serve nd M req user id tr1) (trySendExceptionToClient nd id) tr).
  { unfold handleRequest. rewrite Hform. unfold io_lift, io_look, mbind, io_bind, io_catch. fold id. unfold try_request. rewrite Hc. unfold io_call, io_lift, mbind, io_bind. by rewrite (Huser tr). }
  unfold does. rewrite Hrun. unfold io_catch, serve. rewrite Hroute. cbv zeta. unfold mbind, io_bind. fold (h_ctx h). cbn [h_ctx h] in Hx |- *. rewrite Hx.
  unfold answer_query, processQuery, io_call, io_lift, mbind, io_bind. destruct (n_query nd sql _ tr1) as [[]|e] eqn:En.
  - eexists. split; [unfold tr1; by rewrite <- app_assoc|]. done.
  - eexists. split; [unfold tr1; by rewrite <- app_assoc|]. split; [done|]. split; [|done]. intros Hst. exfalso. revert Hst. apply exception_not_ok.
Qed.
End node.

(** ** The record of a statement *)

Definition interpret (op : table_op) (q : query_context) append (c : catalog) (database table : str) (now : Z) : io (WalRecord MBlock) bool :=
  match op with OpDrop => deleteTableDistributed q append c database table now | _ => alterTableDistributed q append c database table now end.

Lemma copied_lookup q names hs k : copy_parameters q names hs !! k = if decide (k ∈ names) then match q_params q !! k with Some v => Some v | None => hs !! k end else hs !! k.
Proof.
  revert hs. induction names as [|x names IH]; intros hs; cbn [copy_parameters]; [by rewrite decide_False by set_solver|]. rewrite IH. destruct (decide (k = x)) as [->|Hne].
  - rewrite (decide_True (P := x ∈ x :: names)) by set_solver. destruct (q_params q !! x) as [v|]; [rewrite lookup_insert_eq|]; by destruct (decide _).
  - assert (Hx : match q_params q !! x with Some v => <[x := v]> hs | None => hs end !! k = hs !! k) by (destruct (q_params q !! x); [by rewrite lookup_insert_ne|done]). rewrite Hx.
    destruct (decide (k ∈ names)), (decide (k ∈ x :: names)); try done; set_solver.
Qed.

(** A record on its way to the nodes: the path of the requests is that of the client's. *)
Record record_of {URI} (cl : cluster (URI := URI)) (raw : bool) (op : table_op) (database table user text : str) (query_id : str) (record : WalRecord MBlock) : Prop := {
  ro_path : (if is_column_op (op_code record) then getColumnApiPath (headers record) table (op_method op) else Ok (getTableApiPath (headers record) table (op_method op)))
            = Ok (path_text (op_segments raw op table) []);
  ro_cells : common_cells record query_id user text database;
  ro_table : cell (block record) (lit "table") table;
  ro_process : forall `{PocoURI URI} fuel, processRecord cl fuel record = match op with OpDrop => deleteTable cl record | _ => mutateTable cl record (op_method op) end
}.

Definition op_code_of (op : table_op) : OpCode :=
  match op with OpDrop => DELETE_TABLE | OpAlter => ALTER_TABLE | OpAddColumn => CREATE_COLUMN | OpUpdateColumn _ => ALTER_COLUMN | OpDropColumn _ => DELETE_COLUMN end.

Lemma record_path `{PocoJSON} raw op table payload user q b names : op_words op table -> submitted raw op payload user q -> lit "table_type" ∈ names -> (op <> OpDrop -> lit "column" ∈ names) ->
  let record := appended_record q b names (op_code_of op) in
  (if is_column_op (op_code record) then getColumnApiPath (headers record) table (op_method op) else Ok (getTableApiPath (headers record) table (op_method op)))
  = Ok (path_text (op_segments raw op table) []).
Proof.
  intros [[_ Ht] Hc] [_ Hty Hcol _ _] Hn1 Hn2 record.
  assert (Htype : headers record !! lit "table_type" = if op_raw raw op then Some (lit "rawstore") else None).
  { cbn [record appended_record headers]. rewrite copied_lookup, decide_True, Hty by done. by destruct (op_raw raw op). }
  assert (Hcat : op_raw raw op = raw -> getTableCategory (headers record) = if raw then lit "rawstores" else lit "tables").
  { intros Hr. unfold getTableCategory. rewrite Htype, Hr. by destruct raw; [rewrite decide_True|rewrite decide_False]. }
  assert (Hcolumn : forall column, op_column op payload = Ok (Some column) -> op <> OpDrop -> column_of (headers record) = Ok column).
  { intros column Ho Hne. assert (Hq : q_params q !! lit "column" = Some column) by congruence. unfold column_of. cbn [record appended_record headers]. rewrite copied_lookup, decide_True, Hq by auto. done. }
  destruct op as [| | |column|column]; cbn [record appended_record op_code op_code_of is_column_op op_method op_segments].
  - unfold getTableApiPath. rewrite (Hcat eq_refl), escape_word by done. cbn [app path_text foldr]. by destruct raw; simplify_list_eq.
  - unfold getTableApiPath. rewrite (Hcat eq_refl), escape_word by done. cbn [app path_text foldr]. by destruct raw; simplify_list_eq.
  - unfold getColumnApiPath. rewrite escape_word by done. cbn [app path_text foldr]. by simplify_list_eq.
  - unfold getColumnApiPath. rewrite (Hcolumn column) by done. cbn [mbind result_bind]. rewrite !escape_word by (done || apply Hc). cbn [app path_text foldr]. by simplify_list_eq.
  - unfold getColumnApiPath. rewrite (Hcolumn column) by done. cbn [mbind result_bind]. rewrite !escape_word by (done || apply Hc). cbn [app path_text foldr]. by simplify_list_eq.
Qed.

Lemma interpreted `{PocoJSON} {URI} (cl : cluster (URI := URI)) raw op table payload user q append c database now tr tr' : op_words op table -> submitted raw op payload user q ->
  interpret op q append c database table now tr = Some (tr', Ok true) ->
  exists record, tr' = tr ++ [record] /\ record_of cl raw op database table user (op_text op payload) (q_query_id q) record.
Proof.
  intros Hw Hq Hi. pose proof Hq as [Hpay _ Hcol Hmeth Huser].
  assert (Hrec : forall names, let b := buildBlock (table_columns q (op_text op payload) database table) [] [(lit "timestamp", now)] in
    lit "table_type" ∈ names -> (op <> OpDrop -> lit "column" ∈ names) -> tr' = tr ++ [appended_record q b names (op_code_of op)] ->
    exists record, tr' = tr ++ [record] /\ record_of cl raw op database table user (op_text op payload) (q_query_id q) record).
  { intros names b Hn1 Hn2 ->. eexists. split; [done|]. destruct (table_cells q (op_text op payload) database table names (op_code_of op) now) as [C C1]. rewrite Huser in C.
    split; [by eapply record_path|exact C|exact C1|]. intros HU fuel. by destruct op. }
  assert (Hop : op <> OpDrop -> getAlterTableParamOpCode (q_params q) = Some (op_code_of op)).
  { intros Hne. unfold getAlterTableParamOpCode. destruct (q_params q !! lit "column") as [column|] eqn:Ec; [|destruct op as [| | |column|column]; try done; cbn [op_column] in Hcol; by destruct (var_text _)].
    rewrite decide_False in Hmeth by done. rewrite Hmeth. by destruct op. }
  destruct (decide (op = OpDrop)) as [->|Hne].
  - apply on_catalog_table_inv in Hi as (text & Ht & Hi). assert (text = op_text OpDrop payload) as -> by congruence. apply append_true in Hi. by apply (Hrec [lit "table_type"]); [set_solver|..].
  - assert (Ha : alterTableDistributed q append c database table now tr = Some (tr', Ok true)) by by destruct op.
    apply on_catalog_table_inv in Ha as (text & Ht & Ha). assert (text = op_text op payload) as -> by congruence. cbv zeta in Ha. rewrite (Hop Hne) in Ha. apply append_true in Ha.
    apply (Hrec [lit "table_type"; lit "column"; lit "query_method"]); [set_solver..|done].
Qed.

(** ** The requests of the service *)

Section requests.
Context {URI : Type} `{!PocoURI URI} (cl : cluster (URI := URI)).
Context (hosts : list str) (path text method query_id user : str).
Abbreviation address host := (uri_of (lit "http://" ++ host ++ path)).

(** Only the hosts are sent the statement, and when it succeeded each of them has accepted it. *)
Record delivered (calls : list (dcall (URI := URI))) : Prop := {
  de_sent : forall rq a, (rq, a) ∈ requests calls -> exists host u password, host ∈ hosts /\ address host = Ok u /\ rq = build_request (sent_uri u) method query_id user password text;
  de_accepted : forall t, t ∈ statuses calls -> Tasks.t_status t = Tasks.SUCCEEDED -> Forall (fun host => exists u, address host = Ok u /\ accepted text method query_id user calls u) hosts
}.

Lemma uris_of uris : toURIs hosts path = Ok uris -> Forall2 (fun host u => address host = Ok u) hosts uris.
Proof.
  revert uris. induction hosts as [|host hs IH]; intros uris Hu; cbn [toURIs] in Hu; [by injection Hu as <-; constructor|].
  destruct (address host) as [u|] eqn:Ea; [|done]. cbn [mbind result_bind] in Hu. destruct (toURIs hs path) as [us|]; [|done]. cbn [mbind result_bind] in Hu. injection Hu as <-. constructor; [done|by apply IH].
Qed.

Definition sent_to (uris : list URI) (c : dcall (URI := URI)) : Prop :=
  match c with DRequest rq _ => exists u password, u ∈ uris /\ rq = build_request (sent_uri u) method query_id user password text | _ => True end.

Lemma emits_loop_sent uris rq fuel i err : (exists u password, u ∈ uris /\ rq = build_request (sent_uri u) method query_id user password text) -> emits (sent_to uris) (doDDL_loop cl fuel i rq err).
Proof. intros Hrq. revert i err. induction fuel as [|fuel IH]; intros i err; cbn [doDDL_loop]; unfold dsleep; cbv zeta; emit. Qed.

Lemma emits_sent all uris : uris ⊆ all -> emits (sent_to all) (ddl_on_hosts cl uris text method query_id user).
Proof.
  induction uris as [|u uris IH]; intros Hs; cbn [ddl_on_hosts]; cbv zeta; [emit|]. fold (sent_uri u). unfold doDDL.
  apply emits_bind; [apply emits_bind; [emit|]; intros password; apply emits_loop_sent; exists u, password; set_solver|]. intros err. apply emits_bind; [apply IH; set_solver|emit].
Qed.

Lemma hosts_delivered uris tr : toURIs hosts path = Ok uris -> exists calls r, does (doDDLOnHosts cl uris text method query_id user) tr calls r /\ delivered calls.
Proof.
  intros Hu%uris_of. destruct (doDDLOnHosts_spec cl uris text method query_id user tr) as (calls & r & t & H1 & [H2 _ _ _ _ _ H3 _] & _). exists calls, r. split; [done|].
  assert (He : emits (sent_to uris) (doDDLOnHosts cl uris text method query_id user)) by (unfold doDDLOnHosts; apply emits_bind; [by apply emits_sent|]; unfold succeedDDL, failDDL, updateDDLStatus; emit).
  destruct (He _ _ _ H1) as (new & Hn & Hall). simplify_list_eq. split.
  - intros rq a Hin. unfold requests in Hin. apply list_elem_of_omap in Hin as (c & Hc & Hrq). eapply Forall_forall in Hc; [|exact Hall]. destruct c; try done. injection Hrq as -> ->.
    destruct Hc as (u & password & Hin & ->). apply list_elem_of_lookup in Hin as [i Hi]. destruct (Forall2_lookup_r _ _ _ _ _ Hu Hi) as (host & Hh & Ha). exists host, u, password. split; [by eapply list_elem_of_lookup_2|done].
  - intros t' Ht' Hsucc. rewrite H2 in Ht'. apply list_elem_of_singleton in Ht' as ->. specialize (H3 Hsucc). apply Forall_forall. intros host [i Hi]%list_elem_of_lookup.
    destruct (Forall2_lookup_l _ _ _ _ _ Hu Hi) as (u & Hui & Ha). exists u. split; [done|]. eapply Forall_forall; [exact H3|]. by eapply list_elem_of_lookup_2.
Qed.

Lemma fail_delivered reason tr : exists calls r, does (failDDL cl query_id user text reason) tr calls r /\ delivered calls.
Proof.
  eexists _, _. split; [apply update_reports|]. split.
  - intros rq a Hin. by apply not_elem_of_nil in Hin.
  - intros t Ht%list_elem_of_singleton Hs. by subst t.
Qed.
End requests.

Section processing.
Context {URI : Type} {HU : PocoURI URI} (cl : cluster (URI := URI)).

Lemma nothing_delivered hosts path text method query_id user : delivered (URI := URI) hosts path text method query_id user [].
Proof. split; [intros rq a Hin|intros t Hin]; by apply not_elem_of_nil in Hin. Qed.

Lemma mutate_delivered raw op database table user text query_id record tr : record_of cl raw op database table user text query_id record ->
  (forall tr rf s, shardAndReplicationFactor (cl_catalog cl tr) database table = Ok (rf, s) -> in_signed 32 (rf * s) = true) ->
  exists calls r, does (mutateTable cl record (op_method op)) tr calls r /\
    delivered (placed (cl_catalog cl tr) (cl_metrics cl tr) database table) (path_text (op_segments raw op table) []) text (op_method op) query_id user calls.
Proof.
  intros [Hpath [C1 C2 C3 C4 C5] Ct _] Hint. set (hosts := placed _ _ _ _). set (path := path_text _ _) in *.
  assert (Hrun : mutateTable cl record (op_method op) tr = (target_hosts ← io_lift (toURIs hosts path); match target_hosts with
    | [] => failDDL cl query_id user text (lit "Table not found")
    | _ => factors ← (io_look (fun tr => shardAndReplicationFactor (cl_catalog cl tr) database table) ≫= io_lift);
           if negb (in_signed 32 (factors.1 * factors.2)) then io_stuck
           else if decide (Z.of_nat (length target_hosts) <> factors.1 * factors.2) then failDDL cl query_id user text (lit "Table number obtained error")
           else doDDLOnHosts cl target_hosts text (op_method op) query_id user end) tr).
  { unfold mutateTable. cbv zeta. unfold mbind at 1, io_bind at 1. rewrite validate_ok by (repeat first [apply Forall_nil | apply Forall_cons; split]; eauto using cell_has). cbn [negb].
    do 5 (unfold mbind at 1, io_bind at 1; erewrite cell_string_is by eassumption; cbv beta iota). unfold getTargetURIs. rewrite Hpath. reflexivity. }
  unfold does. setoid_rewrite Hrun. destruct (toURIs hosts path) as [uris|e] eqn:Eu; [|exists [], (Throw e); split; [by rewrite app_nil_r|apply nothing_delivered]].
  change (exists calls r, does match uris with
    | [] => failDDL cl query_id user text (lit "Table not found")
    | _ => factors ← (io_look (fun tr => shardAndReplicationFactor (cl_catalog cl tr) database table) ≫= io_lift);
           if negb (in_signed 32 (factors.1 * factors.2)) then io_stuck
           else if decide (Z.of_nat (length uris) <> factors.1 * factors.2) then failDDL cl query_id user text (lit "Table number obtained error")
           else doDDLOnHosts cl uris text (op_method op) query_id user end tr calls r /\ delivered hosts path text (op_method op) query_id user calls).
  destruct uris as [|u uris]; [apply fail_delivered|].
  destruct (shardAndReplicationFactor (cl_catalog cl tr) database table) as [[rf sh]|e] eqn:Hs; unfold does, mbind, io_bind, io_look, io_lift; rewrite Hs.
  - cbn [fst snd]. rewrite (Hint tr rf sh Hs). cbn [negb]. destruct (decide _); [apply fail_delivered|by apply hosts_delivered].
  - exists [], (Throw e). split; [by rewrite app_nil_r|apply nothing_delivered].
Qed.

Lemma process_delivered raw op database table user text query_id record fuel tr : record_of cl raw op database table user text query_id record ->
  (forall tr rf s, shardAndReplicationFactor (cl_catalog cl tr) database table = Ok (rf, s) -> in_signed 32 (rf * s) = true) ->
  exists calls r, does (processRecord cl fuel record) tr calls r /\
    delivered (placed (cl_catalog cl tr) (cl_metrics cl tr) database table) (path_text (op_segments raw op table) []) text (op_method op) query_id user calls.
Proof.
  intros Hr Hint. destruct (mutate_delivered raw op database table user text query_id record tr Hr Hint) as (calls & r & H1 & Hd). rewrite (ro_process _ _ _ _ _ _ _ _ _ Hr).
  destruct op as [| | |column|column]; [|by exists calls, r..]. destruct r as [[]|e]; [|exists calls, (Throw e); split; [by apply does_bind_throw|done]].
  destruct (delete_loop_spec DMeta (cl_wal cl) 4 (context_of (escapeDWALName database table)) 0 (tr ++ calls)) as (mcalls & r & H2 & _); [lia..|].
  exists (calls ++ map DMeta mcalls), r. split.
  - eapply does_bind; [exact H1|]. destruct Hr as [_ [_ C2 _ _ _] Ct _]. unfold does, mbind, io_bind. rewrite (cell_string_is _ _ database) by done. rewrite (cell_string_is _ _ table) by done. exact H2.
  - assert (Hq : requests (URI := URI) (map DMeta mcalls) = []) by (clear; induction mcalls; done). destruct Hd as [D1 D2]. split; rewrite ?requests_app, ?statuses_app, ?statuses_meta, ?Hq, ?app_nil_r; [done|].
    intros t Ht Hs. eapply Forall_impl; [by eapply D2|]. intros host (u & Hu & Ha). exists u. split; [done|]. eapply accepted_mono; [|exact Ha]. by rewrite requests_app, Hq, app_nil_r.
Qed.
End processing.

(** ** From the client to the nodes *)

(** What [Poco::JSON] prints is not empty, and two braces are an object without fields. *)
Class PocoJSONText `(PocoJSON) : Prop := { braces : json_parse (lit "{}") = Ok (JObject []); text_some : forall v, json_text v <> [] }.

Lemma local_statement op q append c database table now tr : q_ddl_operation q = false -> interpret op q append c database table now tr = Some (tr, Ok false).
Proof.
  intros Hq. assert (Ho : forall f, on_catalog_table q c database table f tr = Some (tr, Ok false)).
  { intros f. unfold on_catalog_table. rewrite Hq. destruct (negb (q_distributed q)); [done|]. by destruct (q_params q !! lit "_payload"). }
  destruct op; apply Ho.
Qed.

Section end_to_end.
Context {HJ : PocoJSON} {HJT : PocoJSONText HJ} {HN : PocoNet} {HNL : PocoNetLaws HN} {R : Re2} {HR : Re2Laws R}.
Context {URI : Type} {HU : PocoURI URI} {HT : PocoURIText URI} {HTL : PocoURITextLaws URI HT}.

(** The node that gets the request of a client, the service, and a node of the table, each with the handlers that are not modelled. *)
Definition handlers (nd : node) : Type :=
  ((table_kind -> hctx -> list rcall -> result str) * (str -> list rcall -> bool) * (hctx -> list rcall -> str) * (handler -> methods))%type.
Definition methods_on (nd : node) (hs : handlers nd) : handler -> methods := methods_of nd hs.1.1.1 hs.1.1.2 hs.1.2 hs.2.

Lemma sql_ext op database table payload f g : (forall c, f c = g c) -> op_sql op database table payload f = op_sql op database table payload g.
Proof. intros Hfg. destruct op as [| | |column|column]; try done. cbn [op_sql]. unfold getUpdateColumnDefination. destruct (if has _ _ then _ else _) as [new_name|]; [|done]. cbn [mbind result_bind]. by rewrite (Hfg (default column new_name)). Qed.

Lemma received_payload raw op table req payload user q (u : URI) method query_id password : parseRequest req = Ok payload -> submitted raw op payload user q -> json_parse (json_text payload) = Ok payload ->
  exists payload', parseRequest (received (build_request u method query_id user password (op_text op payload))) = Ok payload' /\ (op_invalid op payload = None -> op_invalid op payload' = None) /\
    (forall database f, op_sql op database table payload' f = op_sql op database table payload f) /\ (op = OpAddColumn -> exists c, var_text (jget payload' (lit "name")) = Ok c).
Proof.
  intros Hp [_ _ Hcol _ _] Hround.
  assert (Hread : forall text v, text <> [] -> json_parse text = Ok v -> (match v with JObject _ => True | _ => False end) -> parseRequest (received (build_request u method query_id user password text)) = Ok v).
  { intros text v Hne Hv Ho. unfold parseRequest, received, build_request. cbn [r_content_length r_body h_payload]. destruct text as [|x text]; [done|]. cbn [length]. rewrite (proj2 (Z.ltb_lt 0 _)) by lia. rewrite Z.ltb_irrefl.
    rewrite Nat2Z.id. change (S (length text)) with (length (x :: text)). rewrite firstn_all. cbn [mbind result_bind]. rewrite Hv. cbn [mbind result_bind]. by destruct v. }
  assert (Hobj : match payload with JObject _ => True | _ => False end).
  { unfold parseRequest in Hp. destruct (if _ <? _ then _ else _) as [data|]; [|done]. cbn [mbind result_bind] in Hp. destruct (json_parse data) as [v|]; [|done]. cbn [mbind result_bind] in Hp. destruct v; try done. by injection Hp as <-. }
  unfold op_text. destruct op as [| | |column|column]; cbn [op_payload].
  1, 5: exists (JObject []); split; [by apply Hread; [|apply braces|]|done].
  all: exists payload; split; [apply Hread; [apply text_some|done|done]|]; split; [done|]; split; [done|]; try done.
  intros _. cbn [op_column] in Hcol. destruct (var_text (jget payload (lit "name"))) as [c|]; [by exists c|done].
Qed.

(** C4: A client sends a node of a cluster a request to drop or alter a table, or to add, update or drop a column, named with letters, digits and underscores, without parameters in the URL
    and with a user, and the node runs a statement for it; the interpreter takes the
    statement and appends a record; and the service processes the record. Then the service sends requests only to the hosts of the table, when it reports success each of the hosts has accepted one,
    and a node that gets one of the requests runs for the user of the client the very statement the first node made, and leaves it to no one else.  That
    node accepts the user, and its columns have the types they have at the first node; a payload printed is read again as itself; the number of replicas fits, and hosts have no slash. *)
Theorem statement_reaches_nodes raw op table (A : node) (hA : handlers A) req user id sql q a trA rA append c now log log' (cl : cluster (URI := URI)) fuel tr :
  op_words op table -> user <> [] -> n_distributed A = true -> r_uri req = path_text (op_segments raw op table) [] -> r_meth req = op_method op ->
  (forall payload, parseRequest req = Ok payload -> json_parse (json_text payload) = Ok payload) ->
  does (serve A (methods_on A hA) req user id) trA [RQuery sql q a] rA ->
  interpret op q append c (getDatabaseByUser user) table now log = Some (log', Ok true) ->
  (forall tr rf s, shardAndReplicationFactor (cl_catalog cl tr) (getDatabaseByUser user) table = Ok (rf, s) -> in_signed 32 (rf * s) = true) ->
  (forall tr, Forall (fun host => "/"%char ∉ host) (placed (cl_catalog cl tr) (cl_metrics cl tr) (getDatabaseByUser user) table)) ->
  exists record calls r, log' = log ++ [record] /\ does (processRecord cl fuel record) tr calls r /\
    let hosts := placed (cl_catalog cl tr) (cl_metrics cl tr) (getDatabaseByUser user) table in
    (forall t, t ∈ statuses calls -> Tasks.t_status t = Tasks.SUCCEEDED -> Forall (fun host => exists u rq answer,
       uri_of (lit "http://" ++ host ++ r_uri req) = Ok u /\ (rq, answer) ∈ requests calls /\ h_uri rq = sent_uri u /\ (sendRequest answer).2 = HTTP_OK) hosts) /\
    (forall rq answer, (rq, answer) ∈ requests calls -> exists host u, host ∈ hosts /\ uri_of (lit "http://" ++ host ++ r_uri req) = Ok u /\ h_uri rq = sent_uri u /\
       forall (B : node) (hB : handlers B) trB, (forall password tr, n_set_user B (Basic user password []) tr = Ok (Some user)) ->
         (forall column tr, n_column_type B (getDatabaseByUser user) table column tr = n_column_type A (getDatabaseByUser user) table column trA) ->
         exists password qB aB resp, does (handleRequest B (methods_on B hB) (received rq)) trB [RUser (Basic user password []) (Ok (Some user)); RQuery sql qB aB] (Ok resp) /\
           (status resp = HTTP_OK <-> aB = Ok tt) /\ forall append c now log, interpret op qB append c (getDatabaseByUser user) table now log = Some (log, Ok false)).
Proof.
  intros Hw Hu Hd Huri Hmeth Hround HA Hint Hfac Hhosts. destruct (client_served A _ _ _ _ raw op table req user id sql q a trA rA Hw Hd Huri Hmeth HA) as (payload & Hp & Hi & Hq & Hs).
  destruct (interpreted cl raw op table payload user q append c _ now log log' Hw Hq Hint) as (record & -> & Hr).
  destruct (process_delivered cl raw op _ table user _ _ record fuel tr Hr Hfac) as (calls & r & Hrun & [Hsent Hacc]). exists record, calls, r. split; [done|]. split; [done|]. rewrite Huri. cbv zeta. split.
  - intros t Ht Hst. eapply Forall_impl; [by eapply Hacc|]. intros host (u & Ha & password & answer & Hin & Hok). exists u. by eexists _, answer.
  - intros rq answer Hin. destruct (Hsent rq answer Hin) as (host & u & password & Hh & Ha & ->). exists host, u. do 3 (split; [done|]). intros B hB trB HB Htypes.
    destruct (received_payload raw op table req payload user q (sent_uri u) (op_method op) (q_query_id q) password Hp Hq (Hround _ Hp)) as (payload' & Hp' & Hi' & Hs' & Hn').
    destruct (node_served B hB.1.1.1 hB.1.1.2 hB.1.2 hB.2 raw op table (received (build_request (sent_uri u) (op_method op) (q_query_id q) user password (op_text op payload))) user password payload' sql trB) as (qB & aB & resp & H1 & H2 & H3).
    all: try done; eauto using received_user.
    + cbn [received r_uri h_uri build_request]. unfold sent_uri. rewrite (text_of_uri host (path_text (op_segments raw op table) []) u); [|exact (proj1 (Forall_forall _ _) (Hhosts tr) host Hh)|by apply path_plain|done|..].
      * generalize (op_segments raw op table) as vals. unfold path_text. induction vals as [|v vals IH]; [done|]. cbn [foldr]. by rewrite <- IH, <- !app_assoc.
      * by apply (bool_decide_unpack _).
      * by apply (bool_decide_unpack _).
    + intros tr'. rewrite Hs', <- Hs. apply sql_ext. intros column. apply Htypes.
    + exists password, qB, aB, resp. split; [exact H1|]. split; [exact H3|]. intros. by apply local_statement.
Qed.
End end_to_end.

(** ** Examples *)

(** The text of a [Poco::URI] that is kept as a text: what follows the host, with a question mark before the first parameter. *)
Fixpoint from_slash (s : str) : str := match s with [] => [] | c :: rest => if decide (c = "/"%char) then s else from_slash rest end.
Fixpoint first_parameter (s : str) : str := match s with [] => [] | c :: rest => if decide (c = "&"%char) then "?"%char :: rest else c :: first_parameter rest end.
Definition text_of : PocoURIText str := fun u => first_parameter (from_slash (drop 7 u)).

Lemma text_of_laws : PocoURITextLaws str text_of.
Proof.
  split. intros host path u name value Hh Hp Hu _ _. assert (u = lit "http://" ++ host ++ path) as -> by (cbv [uri_of text_uri] in Hu; congruence).
  change (path_and_query _) with (first_parameter (from_slash (drop 7 ((lit "http://" ++ host ++ path) ++ lit "&" ++ name ++ lit "=" ++ value)))).
  assert (H1 : forall rest, from_slash (host ++ path ++ rest) = path ++ rest).
  { intros rest. clear -Hh Hp. induction host as [|c host IH]; [|cbn; rewrite decide_False by set_solver; apply IH; set_solver]. destruct path as [|c path]; [by destruct Hp|]. destruct Hp as [[= ->] _]. done. }
  assert (H2 : forall rest, first_parameter (path ++ lit "&" ++ rest) = path ++ lit "?" ++ rest).
  { intros rest. assert (Ha : "&"%char ∉ path) by by apply plain_no. clear -Ha. induction path as [|c path IH]; [done|]. cbn. rewrite decide_False by set_solver. f_equal. apply IH. set_solver. }
  rewrite <- !app_assoc. change (drop 7 (lit "http://" ++ ?x)) with x. by rewrite H1, H2.
Qed.

Lemma example_json_text : PocoJSONText example_json.
Proof. split; [reflexivity|]. intros v. destruct v as [| | | | | |[|]]; discriminate. Qed.

Definition example_distributed : Table :=
  mkTable (lit "h1") (lit "h1") (lit "default") (lit "t") 1 (lit "DistributedMergeTree") [] [] [] [] [] (lit "DistributedMergeTree(1, 1, rand())") [] [] [] [] [] 0.
Definition example_tables : catalog := mkCatalog {[(lit "default", lit "t") := {[(lit "h1", 0) := example_distributed]}]} ∅ ∅ ∅ ∅.
Definition example_service : cluster (URI := str) :=
  let cl := example_cluster (Responded [] 200) in
  mkCluster (cl_wal cl) (cl_http cl) (cl_task cl) (cl_append cl) (cl_commit cl) (cl_password cl) (cl_clock cl) (cl_orders cl) (cl_shuffle cl) (cl_metrics cl) (fun _ => example_tables) (message cl).
Definition example_alter : str := lit "ALTER TABLE default.`t`  MODIFY TTL d".
Definition example_context : query_context :=
  mkQuery true true (<[lit "_payload" := lit "{ttl_expression:d}"]> {[lit "url_parameters" := []]}) (lit "id") (lit "u").
Definition example_others (nd : node) : handlers nd := (fun _ _ _ => Ok [], fun _ _ => false, fun _ _ => [], example_handlers).
Definition example_appended : WalRecord MBlock :=
  appended_record example_context (buildBlock (table_columns example_context (lit "{ttl_expression:d}") (lit "default") (lit "t")) [] [(lit "timestamp", 5)])
    [lit "table_type"; lit "column"; lit "query_method"] ALTER_TABLE.

Lemma statement_reaches_nodes_witness :
  (exists calls r, processRecord example_service 0 example_appended [] = Some (calls, r) /\ map (fun t => Tasks.t_status t) (statuses calls) = [Tasks.SUCCEEDED] /\ length (requests calls) = 1%nat) /\
  exists record calls r, does (processRecord example_service 0 record) [] calls r /\
    (forall t, t ∈ statuses calls -> Tasks.t_status t = Tasks.SUCCEEDED -> Forall (fun host => exists u rq answer,
       uri_of (lit "http://" ++ host ++ lit "/dae/v1/ddl/tables/t") = Ok u /\ (rq, answer) ∈ requests calls /\ h_uri rq = sent_uri u /\ (sendRequest answer).2 = HTTP_OK) [lit "h1:8123"]) /\
    (forall rq answer, (rq, answer) ∈ requests calls -> forall trB, exists password qB aB resp,
       does (handleRequest (HJ := example_json) (HN := example_net) (HR := backtracking) (example_node true example_tables)
         (methods_on (HJ := example_json) (example_node true example_tables) (example_others _)) (received (H := text_of) rq)) trB
         [RUser (Basic (lit "u") password []) (Ok (Some (lit "u"))); RQuery example_alter qB aB] (Ok resp)).
Proof.
  split; [eexists _, _; split; [vm_compute; reflexivity|by split]|].
  destruct (statement_reaches_nodes (HJ := example_json) (HJT := example_json_text) (HN := example_net) (HNL := example_net_laws) (R := backtracking) (HR := backtracking_laws) (HTL := text_of_laws)
    false OpAlter (lit "t") (example_node true example_tables) (example_others _) (example_request "PATCH" "/dae/v1/ddl/tables/t" "{ttl_expression:d}") (lit "u") (lit "id") example_alter example_context
    (Ok tt) [] (Ok (mkResponse 200 (lit "{ttl_expression:d}"))) (fun _ _ => Ok 0) example_tables 5 [] [example_appended] example_service 0 [] ltac:(by split; [split; [|apply (bool_decide_unpack _)]|]) ltac:(done) eq_refl eq_refl eq_refl) as (record & calls & r & _ & H1 & H2 & H3).
  - intros payload Hp. vm_compute in Hp. injection Hp as <-. reflexivity.
  - vm_compute. reflexivity.
  - vm_compute. reflexivity.
  - intros tr rf s Hs. vm_compute in Hs. by injection Hs as <- <-.
  - intros tr. apply (bool_decide_unpack _). vm_compute. reflexivity.
  - exists record, calls, r. split; [exact H1|]. split; [exact H2|]. intros rq answer Hin trB. destruct (H3 rq answer Hin) as (host & u & _ & _ & _ & H4).
    destruct (H4 (example_node true example_tables) (example_others _) trB) as (password & qB & aB & resp & H5 & _); [done|done|]. by exists password, qB, aB, resp.
Defined.
