(* ===== verification/RestIngest.v ===== *)
(** * RestIngest: polling what was ingested, and the requests that are forwarded

    Models the poll identifiers of src/src/Interpreters/Context.cpp ([setupQueryStatusPollId], [parseQueryStatusPollId]), and of
    src/src/Server/RestRouterHandlers/ the handlers IngestStatusHandler.cpp, TaskRestRouterHandler.cpp, ClusterInfoHandler.cpp and PingHandler.cpp:
    a node that ingests a block for a user gives the user an identifier to poll with and the channel of the node; any node takes the poll
    and forwards it to the node with the channel, whose storage knows the state of the ingestion (IngestingBlocks).

    [Poco::Base64Encoder] and its decoder are parameters with their laws; the pieces of [boost::split] and [split_regex] are modelled. *)

From stdpp Require Import strings.
From S2P Require Import Prelude TextFormat WalRecord KafkaConfig Catalog Placement Io IngestingBlocks MessageBlock TaskStatus MetadataService DDLService DDLInterpreters RestRoute Rest RestDDL RestCluster.
Import Interpreters Routes Rest.
Local Open Scope Z_scope.

(** [base64_decode] is all that can be read from the decoder. *)
Class PocoBase64 : Type := { base64_encode : str -> str; base64_decode : str -> str }.
Class PocoBase64Laws `(PocoBase64) : Prop := {
  decode_encode : forall s, base64_decode (base64_encode s) = s;
  encode_length : forall s, length (base64_encode s) = (4 * ((length s + 2) / 3))%nat
}.

#[export] Instance verb_eq : EqDecision verb.
Proof. solve_decision. Defined.

Module Ingest.
(** ** Poll identifiers *)

Definition sep : str := lit "!`$".

(** A character before the first piece. *)
Definition push (c : ascii) (pieces : list str) : list str := match pieces with piece :: pieces => (c :: piece) :: pieces | [] => [[c]] end.

(** [split_regex]: the pieces between the separators. *)
Fixpoint split_sep (s : str) : list str :=
  match s with
  | [] => [[]]
  | c :: s1 =>
      match s1 with
      | d :: e :: rest => if decide ([c; d; e] = sep) then [] :: split_sep rest else push c (split_sep s1)
      | _ => push c (split_sep s1)
      end
  end.

(** [split] with [is_any_of(".")] *)
Fixpoint split_dots (s : str) : list str :=
  match s with
  | [] => [[]]
  | c :: s => if decide (c = "."%char) then [] :: split_dots s else push c (split_dots s)
  end.

(** The components, in the order of the vector. *)
Record poll_parts : Type := mkParts { p_query_id : str; p_database : str; p_table : str; p_user : str; p_identity : str; p_time : str }.

Section poll_ids.
Context {HB : PocoBase64}.

Definition poll_text (query_id database table user identity : str) (milli_now : Z) : str :=
  join sep [query_id; database ++ lit "." ++ table; user; identity; writeIntText milli_now].

(** An identifier that is there is kept. *)
Definition setupQueryStatusPollId (poll_id query_id database table user identity : str) (milli_now : Z) : str :=
  if decide (poll_id <> []) then poll_id else base64_encode (poll_text query_id database table user identity milli_now).

Definition parseQueryStatusPollId (user poll_id : str) : result poll_parts :=
  if 512 <? Z.of_nat (length poll_id) then Throw (DBException ErrorCodes.BAD_ARGUMENTS)
  else match split_sep (take 512 (base64_decode poll_id)) with
       | [query_id; name; owner; identity; time] =>
           match split_dots name with
           | [database; table] => if decide (user <> owner) then Throw (DBException ErrorCodes.ACCESS_DENIED) else Ok (mkParts query_id database table owner identity time)
           | _ => Throw (DBException ErrorCodes.INVALID_POLL_ID)
           end
       | _ => Throw (DBException ErrorCodes.BAD_ARGUMENTS)
       end.

(** [categorizePollIds]: the identifiers of each table, or the message of the first that is invalid. *)
Fixpoint categorizePollIds (user : str) (poll_ids : list str) (table_poll_ids : gmap (str * str) (list str)) : result (gmap (str * str) (list str) + str) :=
  match poll_ids with
  | [] => Ok (inl table_poll_ids)
  | poll_id :: poll_ids =>
      match parseQueryStatusPollId user poll_id with
      | Ok c =>
          let db_table := (p_database c, p_table c) in
          categorizePollIds user poll_ids (<[db_table := default [] (table_poll_ids !! db_table) ++ [poll_id]]> table_poll_ids)
      | Throw (DBException code) => Ok (inr (lit "Invalid query id: " ++ poll_id ++ lit " ErrorCode: " ++ writeIntText code))
      | Throw e => Throw e
      end
  end.
End poll_ids.

(** ** Handlers *)

Definition POLL_SCHEMA : schema := mkSchema [(lit "channel", lit "string"); (lit "poll_ids", lit "array")] [].

(** What the handlers see of a node: its channel and identity; a table, with its engine and the blocks that are being ingested, or an exception; the order of a hash map
    of tables and of one of nodes; the roles of the node; the tasks; and what the placement service prints. *)
Record surroundings : Type := mkSurroundings {
  s_channel : str;
  s_identity : str;
  s_storage : str -> str -> list rcall -> result (option (str * gmap str BlockIdInfo));
  s_orders : gmap (str * str) (list str) -> list ((str * str) * list str);
  s_nodes : list Node -> list Node;
  s_roles : str;
  s_task : str -> list rcall -> option (result (option Tasks.TaskStatus));
  s_tasks : str -> list rcall -> option (result (list Tasks.TaskStatus));
  s_pick : nat -> list rcall -> nat;
  s_cluster_info : hctx -> list rcall -> result str;
  s_build_info : hctx -> list rcall -> result str
}.

Section handlers.
Context {HJ : PocoJSON} {HN : PocoNet} {HR : Re2} {HB : PocoBase64} (nd : node) (sr : surroundings).
Abbreviation rest := (io rcall).

(** [getTableStorage]; an exception of the database is the same as no table. *)
Definition getTableStorage (database table : str) : rest (option (gmap str BlockIdInfo)) :=
  found ← io_look (s_storage sr database table);
  match found with
  | Throw (DBException _) => mret None
  | Throw e => io_throw e
  | Ok None => mret None
  | Ok (Some (engine, blocks)) => mret (if decide (engine <> lit "DistributedMergeTree") then None else Some blocks)
  end.

Definition makeBatchResponse (statuses : list (str * str * Z)) (id : str) : str :=
  json_text (JObject [(lit "status", JArray (map (fun s => JObject [(lit "poll_id", JString s.1.1); (lit "status", JString s.1.2); (lit "progress", JInt s.2)]) statuses));
                      (lit "request_id", JString id)]).

(** The loop over the tables; a table that is unknown is skipped. *)
Fixpoint poll_tables (tables : list ((str * str) * list str)) (statuses : list (str * str * Z)) : rest (list (str * str * Z)) :=
  match tables with
  | [] => mret statuses
  | ((database, table), poll_ids) :: tables =>
      storage ← getTableStorage database table;
      match storage with
      | None => poll_tables tables statuses
      | Some blocks => match getStatuses poll_ids blocks statuses with Some statuses => poll_tables tables statuses | None => io_stuck end
      end
  end.

(** [extract<String>] of each element *)
Fixpoint extract_strings (l : list json) : result (list str) :=
  match l with
  | [] => Ok []
  | JString s :: l => rest ← extract_strings l; Ok (s :: rest)
  | _ :: _ => Throw PocoException
  end.

Definition getIngestStatusLocally (h : hctx) (payload : json) : rest (str * Z) :=
  match jget payload (lit "poll_ids") with
  | Some (JArray l) =>
      poll_ids ← io_lift (extract_strings l);
      categorized ← io_lift (categorizePollIds (q_user (h_ctx h)) poll_ids ∅);
      match categorized with
      | inr error => mret (jsonErrorResponse error ErrorCodes.INVALID_POLL_ID (query_id h), HTTP_BAD_REQUEST)
      | inl table_poll_ids =>
          statuses ← poll_tables (s_orders sr table_poll_ids) [];
          mret (match statuses with
                | [] => (jsonErrorResponse (lit "'poll_ids' are all invalid") ErrorCodes.INVALID_POLL_ID (query_id h), HTTP_BAD_REQUEST)
                | _ => (makeBatchResponse statuses (query_id h), DDL.HTTP_OK)
                end)
      end
  | _ => io_throw PocoException
  end.

Definition node_url (n : Node) (path : str) : str := lit "http://" ++ n_host n ++ lit ":" ++ writeIntText (n_http_port n) ++ path.

(** [executePost] of the status handler *)
Definition status_post (h : hctx) (payload : json) : rest (str * Z) :=
  chan ← io_lift (var_text (jget payload (lit "channel")));
  if decide (s_channel sr = chan) then getIngestStatusLocally h payload
  else
    target ← io_look (fun tr => nodeByChannel (n_catalog nd tr) chan);
    match target with
    | None => mret (jsonErrorResponse (lit "Unknown channel") ErrorCodes.CHANNEL_ID_NOT_EXISTS (query_id h), HTTP_NOT_FOUND)
    | Some n => forward nd h (node_url n (lit "/dae/v1/ingest/statuses")) (lit "POST") (json_text payload) ErrorCodes.SEND_POLL_REQ_ERROR
    end.

Definition buildTaskResponse (tasks : list Tasks.TaskStatus) : json :=
  JArray (map (fun t => JObject [(lit "id", JString (Tasks.t_id t)); (lit "status", JString (Tasks.t_status t)); (lit "progress", JString (Tasks.t_progress t));
                                 (lit "reason", JString (Tasks.t_reason t)); (lit "user", JString (Tasks.t_user t)); (lit "context", JString (Tasks.t_context t));
                                 (lit "last_modified", JInt (Tasks.t_last_modified t)); (lit "created", JInt (Tasks.t_created t))]) tasks).

(** [findById] and [findByUser] of the task service; [None] is a dangling pointer of it. *)
Definition ask {A} (answer : list rcall -> option (result A)) : rest A :=
  found ← io_look answer; match found with Some x => io_lift x | None => io_stuck end.

Definition getTasksLocally (h : hctx) : rest (str * Z) :=
  let task_id := getPathParameter h (lit "task_id") in
  tasks ← (if decide (task_id = []) then ask (s_tasks sr (q_user (h_ctx h)))
           else task ← ask (s_task sr task_id); mret (match task with Some t => [t] | None => [] end));
  mret (json_text (JObject [(lit "request_id", JString (query_id h)); (lit "tasks", buildTaskResponse tasks)]), DDL.HTTP_OK).

Definition task_get (h : hctx) : rest (str * Z) :=
  if contains (lit "task") (s_roles sr) then getTasksLocally h
  else
    nodes ← io_look (fun tr => s_nodes sr (catalog_nodes (n_catalog nd tr) (lit "task")));
    match nodes with
    | [] => mret (jsonErrorResponse (lit "Internal server error") ErrorCodes.RESOURCE_NOT_INITED (query_id h), DDL.HTTP_INTERNAL_SERVER_ERROR)
    | n :: _ => forward nd h (node_url n (lit "/dae/v1/tasks/" ++ getPathParameter h (lit "task_id"))) (lit "GET") [] ErrorCodes.UNKNOWN_EXCEPTION
    end.

(** [distrib(gen)] is below the number of nodes. *)
Definition cluster_info_get (h : hctx) : rest (str * Z) :=
  nodes ← io_look (fun tr => s_nodes sr (catalog_nodes (n_catalog nd tr) (lit "placement")));
  match nodes with
  | [] => mret (jsonErrorResponse (lit "Internal server error") ErrorCodes.RESOURCE_NOT_INITED (query_id h), DDL.HTTP_INTERNAL_SERVER_ERROR)
  | _ =>
      if existsb (fun n => bool_decide (n_identity n = s_identity sr)) nodes then
        info ← (io_look (s_cluster_info sr h) ≫= io_lift); mret (info, DDL.HTTP_OK)
      else
        pos ← (if decide (1 < length nodes)%nat then io_look (s_pick sr (length nodes)) else mret O);
        match nodes !! pos with
        | Some n => forward nd h (node_url n (lit "/dae/v1/clusterinfo")) (lit "GET") [] ErrorCodes.UNKNOWN_EXCEPTION
        | None => io_stuck
        end
  end.

Definition quoted (s : string) : str := [ascii_of_nat 34] ++ lit s ++ [ascii_of_nat 34].
Definition ping_get (h : hctx) : rest (str * Z) :=
  let st := getPathParameter h (lit "status") in
  if decide (st = lit "info") then info ← (io_look (s_build_info sr h) ≫= io_lift); mret (info, DDL.HTTP_OK)
  else if decide (st = lit "ping") then mret (lit "{" ++ quoted "status" ++ lit ":" ++ quoted "UP" ++ lit "}", DDL.HTTP_OK)
  else mret (jsonErrorResponse (lit "Unknown URI") ErrorCodes.UNKNOWN_TYPE_OF_QUERY (query_id h), HTTP_NOT_FOUND).

(** The handlers that have one method. *)
Definition only (verb : verb) (check : json -> option str) (f : hctx -> json -> rest (str * Z)) : methods :=
  mkMethods id None (fun v _ payload => Ok (if decide (v = verb) then check payload else None)) (fun v h payload => if decide (v = verb) then f h payload else handleNotImplemented h).

Definition other_methods (others : handler -> methods) (hd : handler) : methods :=
  match hd with
  | IngestStatus => only VPost (validateSchema POLL_SCHEMA) status_post
  | Task => only VGet (fun _ => None) (fun h _ => task_get h)
  | Ping => only VGet (fun _ => None) (fun h _ => ping_get h)
  | ClusterInfo => only VGet (fun _ => None) (fun h _ => cluster_info_get h)
  | _ => others hd
  end.
End handlers.
End Ingest.
Import Ingest.

(** ** Identifiers are read back *)

Definition no_sep (s : str) : Prop := forall a b, s <> a ++ sep ++ b.

Lemma no_sep_tail c s : no_sep (c :: s) -> no_sep s.
Proof. intros H a b ->. by apply (H (c :: a) b). Qed.

Lemma split_sep_end s : no_sep s -> split_sep s = [s].
Proof.
  induction s as [|c s IH]; intros H; [done|]. specialize (IH (no_sep_tail _ _ H)). cbn [split_sep]. rewrite IH. destruct s as [|d [|e rest]]; try done. destruct (decide _) as [E|]; [|done].
  exfalso. apply (H [] rest). by rewrite <- E.
Qed.

Lemma split_sep_some s : split_sep s <> [].
Proof.
  destruct s as [|c s]; [done|]. cbn [split_sep]. assert (Hp : forall l, push c l <> []) by by intros []. destruct s as [|d [|e rest]]; try apply Hp. destruct (decide _); [done|apply Hp].
Qed.

Lemma push_app c l l' : l <> [] -> push c (l ++ l') = push c l ++ l'.
Proof. by destruct l. Qed.

Lemma split_sep_app s rest : split_sep (s ++ sep ++ rest) = split_sep s ++ split_sep rest.
Proof.
  remember (length s) as n eqn:Hn. revert s Hn. induction (lt_wf n) as [n _ IH]. intros s ->. change (sep ++ rest) with ("!"%char :: "`"%char :: "$"%char :: rest).
  destruct s as [|c [|d [|e s]]].
  - done.
  - cbn [app]. cbn [split_sep]. rewrite decide_False by (by intros [=]). by rewrite decide_True by done.
  - cbn [app]. cbn [split_sep]. rewrite !decide_False by (by intros [=]). by rewrite decide_True by done.
  - cbn [app]. change (split_sep (c :: d :: e :: ?x)) with (if decide ([c; d; e] = sep) then [] :: split_sep x else push c (split_sep (d :: e :: x))). destruct (decide _).
    + cbn [app]. f_equal. apply (IH (length s)); [cbn; lia|done].
    + rewrite <- push_app by apply split_sep_some. f_equal. apply (IH (length (d :: e :: s)) ltac:(cbn; lia) (d :: e :: s) eq_refl).
Qed.

Lemma split_sep_one s : length (split_sep s) = 1%nat -> no_sep s.
Proof.
  intros Hl a b ->. rewrite split_sep_app, length_app in Hl. pose proof (split_sep_some a). pose proof (split_sep_some b). destruct (split_sep a), (split_sep b); cbn in Hl; try done; lia.
Qed.

Lemma split_dots_end s : "."%char ∉ s -> split_dots s = [s].
Proof. induction s as [|c s IH]; intros H; [done|]. cbn. rewrite decide_False by set_solver. rewrite IH by set_solver. done. Qed.
Lemma split_dots_app s rest : "."%char ∉ s -> split_dots (s ++ lit "." ++ rest) = s :: split_dots rest.
Proof. induction s as [|c s IH]; intros H; [done|]. cbn. rewrite decide_False by set_solver. change (split_dots (s ++ "."%char :: rest)) with (split_dots (s ++ lit "." ++ rest)). rewrite IH by set_solver. done. Qed.
Lemma split_dots_pieces s : Forall (fun piece => "."%char ∉ piece) (split_dots s).
Proof.
  induction s as [|c s IH]; [apply Forall_singleton; set_solver|]. cbn. destruct (decide (c = "."%char)) as [|Hne]; [constructor; [set_solver|done]|].
  destruct (split_dots s) as [|p ps]; [apply Forall_singleton; set_solver|]. apply Forall_cons in IH as [Hp Hps]. constructor; [set_solver|done].
Qed.

Section round_trip.
Context {HB : PocoBase64} {HL : PocoBase64Laws HB}.
Context (query_id database table user identity : str) (now : Z).
(** What is joined has no separator of its own. *)
Definition separate : Prop := no_sep query_id /\ no_sep (database ++ lit "." ++ table) /\ no_sep user /\ no_sep identity.
Abbreviation poll_id := (setupQueryStatusPollId [] query_id database table user identity now).
Abbreviation text := (poll_text query_id database table user identity now).

Lemma poll_split : split_sep text = split_sep query_id ++ split_sep (database ++ lit "." ++ table) ++ split_sep user ++ split_sep identity ++ [writeIntText now].
Proof.
  unfold poll_text. cbn [join]. rewrite !split_sep_app. rewrite (split_sep_end (writeIntText now)); [done|]. intros a b E. assert (Hin : "!"%char ∈ writeIntText now) by (rewrite E; set_solver).
  revert Hin. by apply writeIntText_no.
Qed.

Lemma poll_pieces : separate -> split_sep text = [query_id; database ++ lit "." ++ table; user; identity; writeIntText now].
Proof. intros (? & ? & ? & ?). by rewrite poll_split, !split_sep_end by done. Qed.

Lemma five_pieces : length (split_sep text) = 5%nat -> separate.
Proof.
  rewrite poll_split, !length_app. assert (Hp : forall s, (1 <= length (split_sep s))%nat) by (intros s; pose proof (split_sep_some s); destruct (split_sep s); cbn; [done|lia]).
  pose proof (Hp query_id). pose proof (Hp (database ++ lit "." ++ table)). pose proof (Hp user). pose proof (Hp identity). cbn [length]. intros Hl. unfold separate. split_and!; apply split_sep_one; lia.
Qed.

Lemma poll_length : length poll_id = (4 * ((length text + 2) / 3))%nat.
Proof. apply encode_length. Qed.

Lemma poll_too_long who : (384 < length text)%nat -> parseQueryStatusPollId who poll_id = Throw (DBException ErrorCodes.BAD_ARGUMENTS).
Proof.
  intros Hl. unfold parseQueryStatusPollId. pose proof poll_length as Hp. assert (Hle : (129 <= (length text + 2) / 3)%nat) by (apply (Nat.Div0.div_le_mono 387 _ 3); lia).
  destruct (Z.ltb_spec 512 (Z.of_nat (length poll_id))); [done|lia].
Qed.

Lemma poll_text_read who : (length text <= 384)%nat -> parseQueryStatusPollId who poll_id =
  match split_sep text with
  | [query_id; name; owner; identity; time] =>
      match split_dots name with
      | [database; table] => if decide (who <> owner) then Throw (DBException ErrorCodes.ACCESS_DENIED) else Ok (mkParts query_id database table owner identity time)
      | _ => Throw (DBException ErrorCodes.INVALID_POLL_ID)
      end
  | _ => Throw (DBException ErrorCodes.BAD_ARGUMENTS)
  end.
Proof.
  intros Hl. unfold parseQueryStatusPollId. pose proof poll_length as Hp. assert (Hle : ((length text + 2) / 3 <= 128)%nat) by (apply (Nat.Div0.div_le_mono _ 386 3); lia).
  destruct (Z.ltb_spec 512 (Z.of_nat (length poll_id))); [lia|]. change (base64_decode poll_id) with (base64_decode (base64_encode text)). rewrite decode_encode. by rewrite take_ge by lia.
Qed.

Lemma poll_parsed who : separate -> (length text <= 384)%nat -> parseQueryStatusPollId who poll_id =
  match split_dots (database ++ lit "." ++ table) with
  | [d; t] => if decide (who <> user) then Throw (DBException ErrorCodes.ACCESS_DENIED) else Ok (mkParts query_id d t user identity (writeIntText now))
  | _ => Throw (DBException ErrorCodes.INVALID_POLL_ID)
  end.
Proof. intros Hs Hl. by rewrite poll_text_read, poll_pieces by done. Qed.

Lemma poll_not_separate who : ~ separate -> exists code, parseQueryStatusPollId who poll_id = Throw (DBException code).
Proof.
  intros Hs. destruct (decide (length text <= 384)%nat) as [Hl|Hl].
  - exists ErrorCodes.BAD_ARGUMENTS. rewrite poll_text_read by done. destruct (split_sep text) as [|? [|? [|? [|? [|? [|? ?]]]]]] eqn:E; try done. exfalso. apply Hs, five_pieces. by rewrite E.
  - exists ErrorCodes.BAD_ARGUMENTS. apply poll_too_long. lia.
Qed.

(** C36: An identifier is read back, by the user it was made for, exactly when it is made of at most 384 characters, the names have no dot, and the separator is in neither the query
    identifier nor the name of the table, the user or the node; no other user can read one. *)
Theorem poll_id_round_trip :
  (parseQueryStatusPollId user poll_id = Ok (mkParts query_id database table user identity (writeIntText now)) <->
     (length text <= 384)%nat /\ "."%char ∉ database /\ "."%char ∉ table /\ separate) /\
  forall other c, other <> user -> parseQueryStatusPollId other poll_id <> Ok c.
Proof.
  destruct (decide (length text <= 384)%nat) as [Hl|Hl].
  2:{ split; [split; [|lia]|intros other c _]; by rewrite poll_too_long by lia. }
  destruct (decide (length (split_sep text) = 5%nat)) as [Hs%five_pieces|Hs].
  2:{ assert (Hns : ~ separate) by (intros H%poll_pieces; by rewrite H in Hs). split; [split; [|by intros (_ & _ & _ & ?)]|intros other c _].
      - destruct (poll_not_separate user Hns) as (code & ->). done.
      - destruct (poll_not_separate other Hns) as (code & ->). done. }
  split.
  - rewrite poll_parsed by done. split.
    + intros Hp. split; [done|]. pose proof (split_dots_pieces (database ++ lit "." ++ table)) as Hf. destruct (split_dots (database ++ lit "." ++ table)) as [|d [|t [|]]]; try done.
      destruct (decide _); [done|]. injection Hp as -> ->. apply Forall_cons in Hf as [? [? _]%Forall_cons]. done.
    + intros (_ & Hd & Ht & _). rewrite split_dots_app, split_dots_end by done. by rewrite decide_False by naive_solver.
  - intros other c Hne. rewrite poll_parsed by done. destruct (split_dots _) as [|d [|t [|]]]; try done. by rewrite decide_True by done.
Qed.
End round_trip.

(** ** A poll on the node *)

Section poll.
Context {HJ : PocoJSON} {HB : PocoBase64} (sr : surroundings) (user : str).
Context (table_of : str -> str * str) (blocks_of : str * str -> gmap str BlockIdInfo) (tr : list rcall).

Definition valid_id (id : str) : Prop := exists c, parseQueryStatusPollId user id = Ok c /\ table_of id = (p_database c, p_table c).
Definition known_table (dt : str * str) : Prop :=
  s_storage sr dt.1 dt.2 tr = Ok (Some (lit "DistributedMergeTree", blocks_of dt)) /\ forall id info, blocks_of dt !! id = Some info -> total info <> 0.

Lemma concat_perm {A} (l l' : list (list A)) : l ≡ₚ l' -> concat l ≡ₚ concat l'.
Proof. induction 1 as [|x l l' _ IH|x y l|l1 l2 l3 _ IH1 _ IH2]; cbn; [done|by rewrite IH|by rewrite !app_assoc, (Permutation_app_comm x y)|by rewrite IH1]. Qed.

Lemma insert_perm (m : gmap (str * str) (list str)) dt id : concat (map_to_list (<[dt := default [] (m !! dt) ++ [id]]> m)).*2 ≡ₚ concat (map_to_list m).*2 ++ [id].
Proof.
  rewrite <- insert_delete_eq. rewrite (concat_perm _ _ (fmap_Permutation snd _ _ (map_to_list_insert _ _ _ (lookup_delete_eq m dt)))). cbn [fmap list_fmap fst snd concat].
  destruct (m !! dt) as [l|] eqn:Hl.
  - rewrite <- (concat_perm _ _ (fmap_Permutation snd _ _ (map_to_list_delete m dt l Hl))). cbn [fmap list_fmap fst snd concat default from_option]. unfold Datatypes.id. rewrite <- !app_assoc. f_equiv. apply Permutation_app_comm.
  - rewrite delete_id by done. apply Permutation_app_comm.
Qed.

Lemma categorize_valid ids m : Forall valid_id ids -> exists m', categorizePollIds user ids m = Ok (inl m') /\
  (forall dt, m' !! dt = match filter (fun id => table_of id = dt) ids with [] => m !! dt | l => Some (default [] (m !! dt) ++ l) end) /\
  concat (map_to_list m').*2 ≡ₚ concat (map_to_list m).*2 ++ ids.
Proof.
  intros Hv. revert m. induction Hv as [|id ids (c & Hc & Ht) _ IH]; intros m; [exists m; by rewrite app_nil_r|]. cbn [categorizePollIds]. rewrite Hc. cbv zeta. rewrite <- Ht.
  destruct (IH (<[table_of id := default [] (m !! table_of id) ++ [id]]> m)) as (m' & -> & Hm & Hp). exists m'. split; [done|]. split; [|by rewrite Hp, insert_perm, <- app_assoc].
  intros dt. rewrite Hm. clear Hm Hp IH. destruct (decide (table_of id = dt)) as [<-|Hne].
  - rewrite filter_cons_True by done. rewrite lookup_insert_eq. cbn [default from_option]. destruct (filter _ ids) as [|x l]; [done|]. unfold Datatypes.id. by rewrite <- app_assoc.
  - rewrite filter_cons_False by done. by rewrite lookup_insert_ne by done.
Qed.

(** What the answer has of an identifier: its status, and, when the ingestion failed, another entry, with the status it would have without the failure. *)
Definition entries_of (id : str) : list (str * str * Z) :=
  match IngestingBlocks.status id (blocks_of (table_of id)) with
  | Some (st, p) => (id, st, p) :: (if decide (st = lit "Failed") then [(id, if p <? 100 then lit "Processing" else lit "Succeeded", p)] else [])
  | None => []
  end.

(** The entries of the identifiers of [ids], in the order of the tables. *)
Definition entries_for (ids : list str) (entries : list (str * str * Z)) : Prop :=
  Forall (fun id => is_Some (IngestingBlocks.status id (blocks_of (table_of id)))) ids /\ entries ≡ₚ concat (map entries_of ids).

Lemma answers_app ids1 ids2 es1 es2 : entries_for ids1 es1 -> entries_for ids2 es2 -> entries_for (ids1 ++ ids2) (es1 ++ es2).
Proof. intros [A1 B1] [A2 B2]. split; [by apply Forall_app|]. by rewrite map_app, concat_app, B1, B2. Qed.

Lemma statuses_answer dt ids acc : known_table dt -> Forall (fun id => table_of id = dt) ids -> exists es, getStatuses ids (blocks_of dt) acc = Some (acc ++ es) /\ entries_for ids es.
Proof.
  intros [_ Htot] Hdt. destruct (getStatuses_spec ids (blocks_of dt) acc Htot) as (entries & -> & Hf). exists (concat entries). split; [done|]. clear Htot.
  induction Hf as [|id es ids entries (st & p & Hs & ->) _ IH]; [by split|]. apply Forall_cons in Hdt as [Hid Hdt]. rewrite <- Hid in Hs. apply (answers_app [id] ids _ (concat entries)); [|by apply IH].
  split; [apply Forall_singleton; eauto|]. cbn [map concat]. unfold entries_of. by rewrite Hs, app_nil_r.
Qed.

Lemma tables_answer tables acc : Forall (fun t => known_table t.1 /\ Forall (fun id => table_of id = t.1) t.2) tables ->
  exists es, poll_tables sr tables acc tr = Some (tr, Ok (acc ++ es)) /\ entries_for (concat tables.*2) es.
Proof.
  intros Hf. revert acc. induction Hf as [|[[database table] ids] tables [Hk Hids] _ IH]; intros acc.
  { exists []. rewrite app_nil_r. split; [done|]. by split. }
  cbn [fst snd] in Hk, Hids. destruct (statuses_answer _ ids acc Hk Hids) as (es1 & H1 & A1). destruct (IH (acc ++ es1)) as (es2 & H2 & A2). exists (es1 ++ es2). split; [|by apply answers_app].
  cbn [poll_tables]. unfold getTableStorage, io_look, mbind, io_bind. destruct Hk as [Hs _]. cbn [fst snd] in Hs. rewrite Hs. cbn [fst snd]. rewrite decide_False by naive_solver. cbn [mret io_ret]. rewrite H1, H2. by rewrite app_assoc.
Qed.

Lemma answers_same ids ids' es : ids ≡ₚ ids' -> entries_for ids es -> entries_for ids' es.
Proof. intros He [A B]. split; [by rewrite <- He|]. rewrite B. apply concat_perm. by rewrite He. Qed.

Lemma answers_some ids es : ids <> [] -> entries_for ids es -> es <> [].
Proof.
  intros Hne [A B] ->. destruct ids as [|id ids]; [done|]. apply Forall_cons in A as [[[st p] Hs] _]. cbn [map concat] in B. unfold entries_of in B. rewrite Hs in B. by apply Permutation_nil in B.
Qed.

Lemma poll_local h payload ids : jget payload (lit "poll_ids") = Some (JArray (map JString ids)) -> ids <> [] -> q_user (h_ctx h) = user ->
  Forall valid_id ids -> Forall (fun id => known_table (table_of id)) ids -> (forall m, s_orders sr m ≡ₚ map_to_list m) ->
  exists es, getIngestStatusLocally sr h payload tr = Some (tr, Ok (makeBatchResponse es (query_id h), DDL.HTTP_OK)) /\ entries_for ids es.
Proof.
  intros Hp Hne Hu Hv Hk Ho. destruct (categorize_valid ids ∅ Hv) as (m & Hm & Hl & Hperm).
  assert (Htab : forall dt l, (dt, l) ∈ s_orders sr m <-> l = filter (fun id => table_of id = dt) ids /\ l <> []).
  { intros dt l. rewrite (Ho m), elem_of_map_to_list, Hl. destruct (filter _ ids) as [|x l'] eqn:Ef; [rewrite lookup_empty; naive_solver|]. rewrite lookup_empty. cbn. naive_solver. }
  destruct (tables_answer (s_orders sr m) []) as (es & He & Ha).
  { apply Forall_forall. intros [dt l] Hin. apply Htab in Hin as [-> Hl']. cbn [fst snd]. split; [|apply Forall_forall; intros id Hid; by apply list_elem_of_filter in Hid as [? _]].
    destruct (filter _ ids) as [|id l] eqn:Ef; [done|]. assert (Hid : id ∈ filter (fun id => table_of id = dt) ids) by (rewrite Ef; by left). apply list_elem_of_filter in Hid as [<- Hid]. by eapply Forall_forall in Hk. }
  assert (Hids : entries_for ids es).
  { eapply answers_same; [|exact Ha]. rewrite (concat_perm _ _ (fmap_Permutation snd _ _ (Ho m))), Hperm. by rewrite map_to_list_empty. }
  exists es. split; [|done]. unfold getIngestStatusLocally. rewrite Hp, Hu. assert (Hx : extract_strings (map JString ids) = Ok ids) by (clear; induction ids as [|id ids IH]; [done|]; cbn; by rewrite IH).
  rewrite Hx. unfold io_lift, mbind, io_bind. rewrite Hm, He. pose proof (answers_some _ _ Hne Hids). by destruct es.
Qed.
End poll.

(** ** A poll on any node *)

Section any_node.
Context {HJ : PocoJSON} {HN : PocoNet} {HNL : PocoNetLaws HN} {R : Re2} {HR : Re2Laws R} {HB : PocoBase64}.

Definition status_path : str := lit "/dae/v1/ingest/statuses".

Lemma status_plain : plain_path status_path.
Proof.
  split; [done|]. apply Forall_forall. intros c Hc%list_elem_of_In.
  pose proof (proj1 (forallb_forall (fun c => isWordCharASCII c || bool_decide (c = "/"%char)) status_path) eq_refl c Hc) as H. apply orb_true_iff in H as [H|H%bool_decide_eq_true]; auto.
Qed.

Lemma status_routed : get status_path (lit "POST") = Some (IngestStatus, ∅).
Proof.
  apply get_iff; [cbn; set_solver|]. eexists (mkRoute (v1 ["ingest"; "statuses"]%string) no_tail (lit "POST") IngestStatus), (map lit ["dae"; "v1"; "ingest"; "statuses"]%string), [], [].
  split; [apply (list_elem_of_lookup_2 _ 3); reflexivity|]. split; [done|]. split; [done|]. split; [repeat (lazymatch goal with |- Forall2 _ _ _ => constructor end); done|]. split; [constructor|done].
Qed.

Lemma serve_status nd sr others req user id payload tr : r_uri req = status_path -> r_meth req = lit "POST" -> parseRequest req = Ok payload -> validateSchema POLL_SCHEMA payload = None ->
  exists h, q_user (h_ctx h) = user /\ query_id h = id /\
    serve nd (other_methods nd sr others) req user id tr = ('(text, st) ← status_post nd sr h payload; mret (mkResponse st text)) tr.
Proof.
  intros Hu Hm Hp Hv. set (q := mkQuery (n_distributed nd) false ∅ id user).
  assert (Hset : exists h, q_user (h_ctx h) = user /\ query_id h = id /\ setupHTTPContext req (mkH q (getDatabaseByUser user) ∅ []) = Ok h).
  { unfold setupHTTPContext. rewrite Hu, form_none by apply status_plain. cbn [mbind result_bind]. rewrite raw_query_none by (apply status_plain || (apply plain_no; [apply status_plain|done|done])).
    destruct (isDistributedDDL _); cbn [mbind result_bind]; match goal with |- context [Ok ?x = Ok _] => exists x end; done. }
  destruct Hset as (h & H1 & H2 & Hset). exists h. split; [done|]. split; [done|]. unfold serve. rewrite Hu, Hm, status_routed. cbv zeta. cbn [other_methods only on_create]. fold q.
  unfold execute. change (Datatypes.id q) with q. rewrite Hset. cbn [on_stream]. rewrite Hp, Hm. change (verb_of (lit "POST")) with VPost. unfold execute_payload, doExecute. cbn [validate execute_verb].
  unfold only, io_lift, mbind, io_bind. cbn [on_stream validate execute_verb]. cbv beta iota. rewrite (decide_True (P := VPost = VPost)) by done. rewrite Hv. by rewrite (decide_True (P := VPost = VPost)) by done.
Qed.

(** The request a node makes of a poll it forwards; its path is that of the URL. *)
Definition forwarded (query_id user password text : str) : request :=
  mkRequest (lit "POST") status_path
    ([(lit "x-daisy-query-id", lit "from-" ++ query_id); (lit "x-daisy-user", user)] ++ (if decide (password = []) then [] else [(lit "x-daisy-key", password)])) None (Z.of_nat (length text)) text.

Context {HJT : PocoJSONText HJ}.
Context (user chan : str) (ids : list str) (payload : json) (table_of : str -> str * str) (blocks_of : str * str -> gmap str BlockIdInfo).
Context (Hids : ids <> []) (Hpoll : jget payload (lit "poll_ids") = Some (JArray (map JString ids))) (Hchan : var_text (jget payload (lit "channel")) = Ok chan).
Context (Hvalid : validateSchema POLL_SCHEMA payload = None).
(** The node that has the channel, with the tables the identifiers name. *)
Context (N : node) (srN : surroundings) (othersN : handler -> methods) (HchanN : s_channel srN = chan) (Howner : Forall (valid_id user table_of) ids).
Context (Hknown : forall tr, Forall (fun id => known_table srN blocks_of tr (table_of id)) ids) (Horders : forall m, s_orders srN m ≡ₚ map_to_list m).

Lemma poll_served req id tr : r_uri req = status_path -> r_meth req = lit "POST" -> parseRequest req = Ok payload ->
  exists es, serve N (other_methods N srN othersN) req user id tr = Some (tr, Ok (mkResponse DDL.HTTP_OK (makeBatchResponse es id))) /\ entries_for table_of blocks_of ids es.
Proof.
  intros Hu Hm Hp. destruct (serve_status N srN othersN req user id payload tr Hu Hm Hp Hvalid) as (h & H1 & H2 & ->).
  destruct (poll_local srN user table_of blocks_of tr h payload ids Hpoll Hids H1 Howner (Hknown tr) Horders) as (es & He & Ha). exists es. split; [|done].
  unfold mbind, io_bind at 1. unfold status_post. rewrite Hchan. unfold io_lift, mbind, io_bind. rewrite decide_True by done. rewrite He. by rewrite H2.
Qed.

Lemma forwarded_form : HTMLForm status_path = Ok [([], [])].
Proof. apply form_none, status_plain. Qed.

Lemma forwarded_user id password text : user <> [] -> choose_credentials (forwarded id user password text) [([], [])] = Ok (Basic user password []).
Proof.
  intros Hu. unfold choose_credentials, header, forwarded. cbn [r_headers r_credentials]. set (hs := _ ++ _). assert (H1 : form_find (lit "x-daisy-user") hs = Some user) by by destruct (decide (password = [])).
  assert (H2 : default [] (form_find (lit "x-daisy-key") hs) = password) by (unfold hs; by destruct (decide (password = []))). assert (H3 : form_find (lit "x-daisy-quota") hs = None) by (unfold hs; by destruct (decide (password = []))).
  rewrite H1, H2, H3. cbn [from_option]. by rewrite decide_False by (by intros [? _]).
Qed.

Lemma forwarded_answered id password tr : user <> [] -> (match payload with JObject _ => True | _ => False end) -> json_parse (json_text payload) = Ok payload ->
  (forall tr, n_set_user N (Basic user password []) tr = Ok (Some user)) ->
  exists es, handleRequest N (other_methods N srN othersN) (forwarded id user password (json_text payload)) tr
    = Some (tr ++ [RUser (Basic user password []) (Ok (Some user))], Ok (mkResponse DDL.HTTP_OK (makeBatchResponse es (lit "from-" ++ id)))) /\ entries_for table_of blocks_of ids es.
Proof.
  intros Hu Ho Hround Hset. set (req := forwarded id user password (json_text payload)). set (tr1 := tr ++ [RUser (Basic user password []) (Ok (Some user))]).
  assert (Hp : parseRequest req = Ok payload).
  { unfold parseRequest, req, forwarded. cbn [r_content_length r_body]. pose proof (text_some payload) as Hne. destruct (json_text payload) as [|x text] eqn:Et; [done|]. cbn [length]. rewrite (proj2 (Z.ltb_lt 0 _)) by lia. rewrite Z.ltb_irrefl.
    rewrite Nat2Z.id. change (S (length text)) with (length (x :: text)). rewrite firstn_all. cbn [mbind result_bind]. rewrite Hround. cbn [mbind result_bind]. by destruct payload. }
  destruct (poll_served req (lit "from-" ++ id) tr1 eq_refl eq_refl Hp) as (es & Hs & Ha). exists es. split; [|done].
  assert (Hq : query_id_of N req tr = lit "from-" ++ id) by (unfold query_id_of, req, forwarded, header; by destruct (decide (password = []))).
  unfold handleRequest. change (r_uri req) with status_path. rewrite forwarded_form. unfold io_lift, io_look, mbind, io_bind, io_catch. rewrite Hq. unfold try_request. rewrite (forwarded_user id password (json_text payload) Hu : choose_credentials req _ = _).
  unfold io_call, io_lift, mbind, io_bind. rewrite Hset. fold tr1. by rewrite Hs.
Qed.

End any_node.

(** ** Examples *)

(** Three characters as four. *)
Fixpoint to_fours (s : str) : str :=
  match s with
  | [] => []
  | [a] => ["1"%char; a; "="%char; "="%char]
  | [a; b] => ["2"%char; a; b; "="%char]
  | a :: b :: c :: s => "3"%char :: a :: b :: c :: to_fours s
  end.
Fixpoint from_fours (s : str) : str :=
  match s with
  | k :: a :: b :: c :: s => if decide (k = "1"%char) then [a] else if decide (k = "2"%char) then [a; b] else a :: b :: c :: from_fours s
  | _ => []
  end.
Definition example_base64 : PocoBase64 := {| base64_encode := to_fours; base64_decode := from_fours |}.

Lemma example_base64_laws : PocoBase64Laws example_base64.
Proof.
  split; cbn [base64_encode base64_decode example_base64].
  - fix IH 1. intros [|a [|b [|c s]]]; [done..|]. cbn. by rewrite IH.
  - fix IH 1. intros [|a [|b [|c s]]]; [done..|]. cbn [to_fours length]. rewrite IH. replace (S (S (S (length s))) + 2)%nat with (1 * 3 + (length s + 2))%nat by lia. rewrite Nat.div_add_l by lia. lia.
Qed.

Definition example_poll_id (query_id table : string) : str := setupQueryStatusPollId (HB := example_base64) [] (lit query_id) (lit "default") (lit table) (lit "u") (lit "h") 5.

Lemma no_sep_word s : forallb (fun c => negb (bool_decide (c = "!"%char))) s = true -> no_sep s.
Proof. intros H a b ->. assert (Hin : "!"%char ∈ a ++ sep ++ b) by (rewrite elem_of_app; right; by left). apply list_elem_of_In in Hin. by apply (proj1 (forallb_forall _ _) H) in Hin. Qed.

Lemma poll_id_round_trip_witness : parseQueryStatusPollId (HB := example_base64) (lit "u") (example_poll_id "q" "t") = Ok (mkParts (lit "q") (lit "default") (lit "t") (lit "u") (lit "h") (lit "5")).
Proof.
  apply (poll_id_round_trip (HB := example_base64) (HL := example_base64_laws) (lit "q") (lit "default") (lit "t") (lit "u") (lit "h") 5).
  split; [vm_compute; lia|]. split; [apply (bool_decide_unpack _); vm_compute; reflexivity|]. split; [apply (bool_decide_unpack _); vm_compute; reflexivity|].
  split_and!; apply no_sep_word; reflexivity.
Defined.

Definition example_poll : json := JObject [(lit "channel", JString (lit "7")); (lit "poll_ids", JArray [JString (example_poll_id "q" "t")])].
Definition poll_json : PocoJSON := {|
  json_parse s := if decide (s = lit "{}") then Ok (JObject []) else if decide (s = lit "{poll}") then Ok example_poll else Throw PocoException;
  json_text v := match v with JObject ((k, _) :: _) => if decide (k = lit "channel") then lit "{poll}" else lit "{.}" | _ => lit "{}" end;
  var_text v := match v with Some (JString s) => Ok s | _ => Throw PocoException end;
  var_int32 v := Throw PocoException; var_bool v := Throw PocoException; is_integer v := false;
  is_string v := match v with JString _ => true | _ => false end;
  is_boolean v := false; is_numeric v := false;
  is_array v := match v with JArray _ => true | _ => false end
|}.
Lemma poll_json_text : PocoJSONText poll_json.
Proof. split; [reflexivity|]. intros v. destruct v as [| | | | | |[|[k v] l]]; cbn; try discriminate. by destruct (decide _). Qed.

Definition example_blocks : gmap str BlockIdInfo := {[example_poll_id "q" "t" := mkInfo 4 0 {[1; 2]}]}.
Definition example_surroundings (channel : string) : surroundings :=
  mkSurroundings (lit channel) (lit "h") (fun _ _ _ => Ok (Some (lit "DistributedMergeTree", example_blocks))) map_to_list id [] (fun _ _ => None) (fun _ _ => None) (fun _ _ => O) (fun _ _ => Ok []) (fun _ _ => Ok []).
Definition example_target : Node := Catalog.mkNode (lit "h") (lit "h") (lit "7") [] 0 8123 0 9000.
Definition example_owner : node := example_node true empty_catalog.
Definition example_others : handler -> methods := fun _ => mkMethods id None (fun _ _ _ => Ok None) (fun _ h _ => handleNotImplemented (HJ := poll_json) h).
Definition owner_methods : handler -> methods := other_methods (HJ := poll_json) (HB := example_base64) example_owner (example_surroundings "7") example_others.

(** A node that knows the channel, on a network that delivers. *)
Definition example_relay : node :=
  mkNode true (fun _ _ => Ok None) (fun _ _ _ => Ok tt)
    (fun _ _ id user password text _ =>
       match handleRequest (HJ := poll_json) (HN := example_net) (HR := backtracking) example_owner owner_methods (forwarded id user password text) [] with
       | Some (_, Ok resp) => Ok (DDL.Responded (body resp) (status resp))
       | _ => Throw PocoException
       end)
    (fun _ _ => []) (fun _ => mkCatalog ∅ ∅ {[lit "h" := example_target]} ∅ ∅) (fun _ _ _ _ => (true, true)) (fun _ _ _ _ => []) (fun _ => lit "id") (fun _ => []).
Definition example_poll_request : request := mkRequest (lit "POST") status_path [] None 6 (lit "{poll}").


(** A table with a dot in its name, and a query with an identifier of the client that is long or has the separator, give identifiers that are not accepted. *)
Lemma useless_poll_ids :
  parseQueryStatusPollId (HB := example_base64) (lit "u") (example_poll_id "q" "t.x") = Throw (DBException ErrorCodes.INVALID_POLL_ID) /\
  parseQueryStatusPollId (HB := example_base64) (lit "u") (example_poll_id "a!`$b" "t") = Throw (DBException ErrorCodes.BAD_ARGUMENTS) /\
  forall query_id, (384 < length query_id)%nat ->
    parseQueryStatusPollId (HB := example_base64) (lit "u") (setupQueryStatusPollId (HB := example_base64) [] query_id (lit "default") (lit "t") (lit "u") (lit "h") 5) = Throw (DBException ErrorCodes.BAD_ARGUMENTS).
Proof.
  split; [vm_compute; reflexivity|]. split; [vm_compute; reflexivity|]. intros query_id Hl. apply (poll_too_long (HL := example_base64_laws)). unfold poll_text. cbn [join]. rewrite length_app. lia.
Qed.

(** A task that is not known is answered with success and no task. *)
Lemma unknown_task_ok sr h tr : getPathParameter h (lit "task_id") <> [] -> s_task sr (getPathParameter h (lit "task_id")) tr = Some (Ok None) ->
  exists text, getTasksLocally (HJ := poll_json) sr h tr = Some (tr, Ok (text, DDL.HTTP_OK)).
Proof. intros Hne Hn. eexists. unfold getTasksLocally, ask. rewrite decide_False by done. unfold io_look, io_lift, mbind, io_bind. by rewrite Hn. Qed.
