(* ===== verification/KeeperConnection.v ===== *)
(** * KeeperConnection: a client of the coordination service

    Models src/src/Server/KeeperTCPHandler.{h,cpp}: the handshake, the loop that reads the requests of a client, hands them to the dispatcher
    and writes the responses, and the queue and the pipe through which the threads of the dispatcher hand over responses.

    The loop is a transition system.  An event is a statement of the callback of the dispatcher ([Push], then [Signal]), or a part of a
    turn of the loop with what its calls answer.  The bytes a client sends before it is silent are given at the start; to read more than
    that throws.  History variables hold the requests that were handed over and the responses that were pushed and sent. *)

From S2P Require Import Prelude TextFormat Wire ZooKeeper KeeperDelivery.
Local Open Scope Z_scope.

Module Connection.
(** ** Handshake *)

Definition ZOOKEEPER_PROTOCOL_VERSION : Z := 0.
Definition CLIENT_HANDSHAKE_LENGTH : Z := 44.
Definition CLIENT_HANDSHAKE_LENGTH_WITH_READONLY : Z := 45.
Definition SERVER_HANDSHAKE_LENGTH : Z := 36.
Definition PASSWORD_LENGTH : Z := 16.

(** [read] of an array does not ask for all of its bytes. *)
Definition read_array (n : Z) : reader str :=
  size ← zk_read_int32;
  if decide (size <> n) then rthrow (KeeperException Err.ZMARSHALLINGERROR) else fun buf => Ok (take (Z.to_nat n) buf, drop (Z.to_nat n) buf).

(** The timeout of the client, in milliseconds. *)
Definition receiveHandshake : reader Z :=
  handshake_length ← zk_read_int32;
  if decide (handshake_length <> CLIENT_HANDSHAKE_LENGTH /\ handshake_length <> CLIENT_HANDSHAKE_LENGTH_WITH_READONLY)
  then rthrow (DBException ErrorCodes.UNEXPECTED_PACKET_FROM_CLIENT)
  else
    protocol_version ← zk_read_int32;
    if decide (protocol_version <> ZOOKEEPER_PROTOCOL_VERSION) then rthrow (DBException ErrorCodes.UNEXPECTED_PACKET_FROM_CLIENT)
    else
      last_zxid_seen ← zk_read_int64;
      timeout_ms ← zk_read_int32;
      previous_session_id ← zk_read_int64;
      passwd ← read_array PASSWORD_LENGTH;
      readonly ← (if decide (handshake_length = CLIENT_HANDSHAKE_LENGTH_WITH_READONLY) then read_signed 1 else mret 0);
      mret (timeout_ms : Z).

(** [timeout_ms * 1000] is an [int]: beyond its bounds it is undefined. *)
Definition client_timeout (timeout_ms : Z) : option Z := if in_signed 32 (timeout_ms * 1000) then Some (timeout_ms * 1000) else None.

(** [config_ms] is the setting, an unsigned number of 32 bits, as is its product. *)
Definition configured_timeout (config_ms : Z) : Z := wrap 32 (config_ms * 1000).
Definition agreed_timeout (client server : Z) : Z := if decide (client <> 0) then Z.min client server else server.

(** [totalMilliseconds] of a timespan in microseconds *)
Definition total_ms (t : Z) : Z := Z.quot t 1000.

Definition sendHandshake (has_leader : bool) (session_timeout session_id : Z) : str :=
  zk_write_int32 SERVER_HANDSHAKE_LENGTH ++ zk_write_int32 (if has_leader then ZOOKEEPER_PROTOCOL_VERSION else 42)
  ++ zk_write_int32 (to_signed 32 (wrap 32 (total_ms session_timeout))) ++ zk_write_int64 session_id
  ++ zk_write_int32 PASSWORD_LENGTH ++ replicate (Z.to_nat PASSWORD_LENGTH) "000"%char.

(** What [runImpl] does before the loop: nothing, or an answer, or an answer and a session. *)
Inductive opening : Type := Ignored | Refused (answer : str) | Opened (answer : str) (session_id session_timeout : Z) (rest : str).

(** [session] is what [getSessionID] gives for a timeout. *)
Definition open (config_ms : Z) (has_leader : bool) (session : Z -> result Z) (buf : str) : option opening :=
  match buf with
  | [] => Some Ignored
  | _ =>
      match receiveHandshake buf with
      | Throw _ => Some Ignored
      | Ok (timeout_ms, rest) =>
          client ← client_timeout timeout_ms;
          let t := agreed_timeout client (configured_timeout config_ms) in
          Some (if has_leader then
                  match session (total_ms t) with
                  | Ok id => Opened (sendHandshake true t id) id t rest
                  | Throw _ => Refused (sendHandshake false t (-1))
                  end
                else Refused (sendHandshake false t (-1)))
      end
  end.

(** ** The loop *)

(** The exceptions that the handler catches. *)
Definition caught (e : exn) : bool := match e with DBException _ | KeeperException _ => true | _ => false end.

(** The count of responses to write and the error of a poll; how the loop ended: [CloseNumber] is that a response had the number [close_xid], which the handler
    takes for the answer to the closing request. *)
Inductive phase : Type :=
| Polling
| Responding (count : nat) (error : bool)
| CloseNumber
| SessionExpired
| TimedOut
| Failed (e : exn)
| Escaped (e : exn).

Record connection : Type := mkConnection {
  session_timeout : Z;
  input : str;
  responses : list zk_response;
  pipe : nat;
  signals : nat;
  dropped : nat;
  state : phase;
  close_xid : Z;
  close_received : bool;
  output : str;
  finished : bool;
  handed : list zk_message;
  pushed : list zk_response;
  sent : list zk_response
}.

Definition opened (timeout : Z) (buf : str) : connection := mkConnection timeout buf [] 0 0 0 Polling Delivery.CLOSE_XID false [] false [] [] [].

Inductive event : Type :=
| Push (r : zk_response)
| Signal
| Poll (has_requests woken error : bool) (accepted : result bool)
| Respond (delivered : bool)
| EndTurn (elapsed : Z).

Definition set_state (p : phase) (c : connection) : connection :=
  mkConnection (session_timeout c) (input c) (responses c) (pipe c) (signals c) (dropped c) p (close_xid c) (close_received c) (output c) (finished c) (handed c) (pushed c) (sent c).

(** [finishSession] *)
Definition finish (p : phase) (c : connection) : connection :=
  mkConnection (session_timeout c) (input c) (responses c) (pipe c) (signals c) (dropped c) p (close_xid c) (close_received c) (output c) true (handed c) (pushed c) (sent c).

Definition raise (e : exn) (c : connection) : connection := if caught e then finish (Failed e) c else set_state (Escaped e) c.

(** The callback: its two statements; the pipe has room for [capacity] bytes, and a byte that has no room is dropped. *)
Definition push (r : zk_response) (c : connection) : connection :=
  mkConnection (session_timeout c) (input c) (responses c ++ [r]) (pipe c) (S (signals c)) (dropped c) (state c) (close_xid c) (close_received c) (output c) (finished c) (handed c) (pushed c ++ [r]) (sent c).

Definition signal (capacity : nat) (c : connection) : option connection :=
  match signals c with
  | O => None
  | S n =>
      let room := bool_decide (pipe c < capacity)%nat in
      Some (mkConnection (session_timeout c) (input c) (responses c) (if room then S (pipe c) else pipe c) n (if room then dropped c else S (dropped c))
              (state c) (close_xid c) (close_received c) (output c) (finished c) (handed c) (pushed c) (sent c))
  end.

(** [receiveRequest]; [accepted] is what [putRequest] answers. *)
Definition receiveRequest (accepted : result bool) (buf : str) : option (result (zk_message * str)) :=
  match zk_read_int32 buf with
  | Throw e => Some (Throw e)
  | Ok (_, buf) =>
      r ← read_message buf;
      Some (match r with
            | Throw e => Throw e
            | Ok (m, rest) =>
                match accepted with
                | Ok true => Ok (m, rest)
                | Ok false => Throw (DBException ErrorCodes.TIMEOUT_EXCEEDED)
                | Throw e => Throw e
                end
            end)
  end.

(** A pipe that is read is emptied, and the bytes are counted; it is not read when it is empty. *)
Definition poll (woken error : bool) (c : connection) : option connection :=
  if woken && bool_decide (pipe c = O) then None
  else Some (mkConnection (session_timeout c) (input c) (responses c) (if woken then O else pipe c) (signals c) (dropped c) (Responding (if woken then pipe c else O) error)
               (close_xid c) (close_received c) (output c) (finished c) (handed c) (pushed c) (sent c)).

(** A turn up to its responses *)
Definition turn (has_requests woken error : bool) (accepted : result bool) (c : connection) : option connection :=
  c ← poll woken error c;
  if has_requests && negb (close_received c) then
    r ← receiveRequest accepted (input c);
    Some (match r with
          | Throw e => raise e c
          | Ok (m, rest) =>
              let close := bool_decide (request_opnum (body m) = OpClose) in
              mkConnection (session_timeout c) rest (responses c) (pipe c) (signals c) (dropped c) (state c) (if close then xid m else close_xid c) close
                (output c) (finished c) (handed c ++ [m]) (pushed c) (sent c)
          end)
  else Some c.

(** One response; [delivered] tells whether the socket took it. *)
Definition respond (delivered : bool) (c : connection) : option connection :=
  match state c with
  | Responding (S n) error =>
      Some (match responses c with
            | [] => raise (DBException ErrorCodes.LOGICAL_ERROR) c
            | r :: rest =>
                let c := mkConnection (session_timeout c) (input c) rest (pipe c) (signals c) (dropped c) (state c) (close_xid c) (close_received c) (output c) (finished c) (handed c) (pushed c) (sent c) in
                if decide (r_xid r = close_xid c) then set_state CloseNumber c
                else match write_response r with
                     | Throw e => raise e c
                     | Ok bytes =>
                         if negb delivered then raise (DBException ErrorCodes.NETWORK_ERROR) c
                         else
                           let c := mkConnection (session_timeout c) (input c) rest (pipe c) (signals c) (dropped c) (Responding n error) (close_xid c) (close_received c) (output c ++ bytes)
                                      (finished c) (handed c) (pushed c) (sent c ++ [r]) in
                           if decide (r_error r = Err.ZSESSIONEXPIRED) then finish SessionExpired c else c
                     end
            end)
  | _ => None
  end.

(** The end of a turn; the timeout is compared as an unsigned number. *)
Definition end_turn (elapsed : Z) (c : connection) : option connection :=
  match state c with
  | Responding O error =>
      Some (if (error : bool) then raise (DBException ErrorCodes.SYSTEM_ERROR) c
            else if wrap 64 (session_timeout c) <? elapsed then finish TimedOut c
            else set_state Polling c)
  | _ => None
  end.

Definition step (capacity : nat) (c : connection) (e : event) : option connection :=
  match e with
  | Push r => Some (push r c)
  | Signal => signal capacity c
  | Poll has_requests woken error accepted => match state c with Polling => turn has_requests woken error accepted c | _ => None end
  | Respond delivered => respond delivered c
  | EndTurn elapsed => end_turn elapsed c
  end.

Fixpoint run (capacity : nat) (es : list event) (c : connection) : option connection :=
  match es with [] => Some c | e :: es => c ← step capacity c e; run capacity es c end.
End Connection.
Import Connection.

(** ** Nothing is lost or out of order *)

Definition live (p : phase) : bool := match p with Polling | Responding _ _ => true | _ => false end.
Definition left_to_write (p : phase) : nat := match p with Responding n _ => n | _ => O end.
Definition gives_up (p : phase) : bool := match p with SessionExpired | TimedOut | Failed _ => true | _ => false end.

(** The requests that are read from a text, one after the other, and what is left of it. *)
Inductive reads_from (start : str) : list zk_message -> str -> Prop :=
| reads_none : reads_from start [] start
| reads_one l buf z buf' m rest : reads_from start l buf -> zk_read_int32 buf = Ok (z, buf') -> read_message buf' = Some (Ok (m, rest)) -> reads_from start (l ++ [m]) rest.

Definition closes (m : zk_message) : Prop := request_opnum (body m) = OpClose.

Record good (start : str) (c : connection) : Prop := {
  g_count : live (state c) = true -> length (responses c) = (left_to_write (state c) + pipe c + signals c + dropped c)%nat;
  g_order : exists popped, pushed c = sent c ++ popped ++ responses c /\ (length popped <= 1)%nat /\ (live (state c) = true -> popped = []);
  g_output : exists chunks, Forall2 (fun r bytes => write_response r = Ok bytes) (sent c) chunks /\ output c = concat chunks;
  g_input : exists buf, reads_from start (handed c) buf /\ (live (state c) = true -> buf = input c);
  g_close : exists l, handed c = l ++ (match last (handed c) with Some m => if close_received c then [m] else [] | None => [] end) /\ Forall (fun m => ~ closes m) l;
  g_finished : finished c = gives_up (state c)
}.

Lemma opened_good t start : good start (opened t start).
Proof. split; try done; [exists []; cbn; split; [done|]; split; [lia|done]|by exists []; split; [constructor|]|by exists start; split; [constructor|]|by exists []]. Qed.

Lemma raise_good start e c : good start c -> finished c = false -> good start (raise e c).
Proof.
  intros [G1 (popped & H1 & H2 & H3) G3 (buf & H4 & H5) G5 G6] Hf. unfold raise. destruct (caught e); split; try done; try (by exists popped); by exists buf.
Qed.

Lemma push_good start r c : good start c -> good start (push r c).
Proof.
  intros [G1 (popped & H1 & H2 & H3) G3 G4 G5 G6]. split; try done.
  - cbn. intros Hl. rewrite length_app. cbn. rewrite (G1 Hl). lia.
  - exists popped. cbn. rewrite H1, !app_assoc. done.
Qed.

Lemma signal_good start capacity c c' : good start c -> signal capacity c = Some c' -> good start c'.
Proof.
  intros [G1 G2 G3 G4 G5 G6] Hs. unfold signal in Hs. destruct (signals c) as [|n] eqn:En; [done|]. injection Hs as <-. split; try done.
  cbn. intros Hl. rewrite (G1 Hl). destruct (bool_decide _); lia.
Qed.

Lemma end_turn_good start elapsed c c' : good start c -> end_turn elapsed c = Some c' -> good start c'.
Proof.
  intros Hg Hs. unfold end_turn in Hs. destruct (state c) as [|[|n] error| | | | |] eqn:Es; try done. injection Hs as <-. pose proof Hg as [G1 (popped & H1 & H2 & H3) G3 (buf & H4 & H5) G5 G6]. rewrite Es in *. cbn in *.
  destruct error; [by apply (raise_good start (DBException ErrorCodes.SYSTEM_ERROR) c)|]. destruct (_ <? _).
  - split; try done; [by exists popped|by exists buf].
  - split; try done; [by exists popped|by exists buf].
Qed.

Lemma receive_inv accepted buf m rest : receiveRequest accepted buf = Some (Ok (m, rest)) -> exists z buf', zk_read_int32 buf = Ok (z, buf') /\ read_message buf' = Some (Ok (m, rest)).
Proof.
  unfold receiveRequest. destruct (zk_read_int32 buf) as [[z buf']|e]; [|done]. destruct (read_message buf') as [[[m' rest']|e]|] eqn:Er; [|done|done]. cbn [mbind option_bind].
  destruct accepted as [[|]|e]; try done. intros [= -> ->]. by exists z, buf'.
Qed.

Lemma turn_good start has_requests woken error accepted c c' : good start c -> state c = Polling -> turn has_requests woken error accepted c = Some c' -> good start c'.
Proof.
  intros [G1 (popped & H1 & H2 & H3) G3 (buf & H4 & H5) G5 G6] Es Hp. rewrite Es in *. cbn in G1, G6. specialize (G1 eq_refl). specialize (H3 eq_refl). specialize (H5 eq_refl). subst popped buf.
  unfold turn, poll in Hp. destruct (woken && bool_decide (pipe c = O)); [done|]. cbv [mbind option_bind] in Hp. set (c1 := mkConnection _ _ _ (if woken then O else pipe c) _ _ _ _ _ _ _ _ _ _) in Hp.
  assert (Hg1 : good start c1).
  { split; try done; [|by exists []|by exists (input c)]. cbn. intros _. rewrite G1. destruct woken; lia. }
  change (close_received c1) with (close_received c) in Hp. destruct (has_requests && negb (close_received c)) eqn:Hr; [|by injection Hp as <-].
  apply andb_true_iff in Hr as [_ Hr%negb_true_iff]. change (input c1) with (input c) in Hp. destruct (receiveRequest accepted (input c)) as [[[m rest]|e]|] eqn:Er; [| |done].
  2:{ injection Hp as <-. by apply (raise_good start e c1). }
  injection Hp as <-. apply receive_inv in Er as (z & buf' & Hz & Hm). destruct G5 as (l & Hl & Hall). rewrite Hr in Hl.
  split; try done; cbn; [intros _; rewrite G1; destruct woken; lia|by exists []|by exists rest; split; [eapply reads_one|]|].
  exists (handed c ++ (if bool_decide (request_opnum (body m) = OpClose) then [] else [m])). rewrite last_snoc. case_bool_decide as Hc; rewrite ?app_nil_r; (split; [done|]).
  - destruct (last (handed c)); rewrite app_nil_r in Hl; by rewrite Hl.
  - apply Forall_app. split; [destruct (last (handed c)); rewrite app_nil_r in Hl; by rewrite Hl|by apply Forall_singleton].
Qed.

Lemma respond_good start delivered c c' : good start c -> respond delivered c = Some c' -> good start c'.
Proof.
  intros [G1 (popped & H1 & H2 & H3) (chunks & Hc & Ho) (buf & H4 & H5) G5 G6] Hs. unfold respond in Hs. destruct (state c) as [|[|n] error| | | | |] eqn:Es; try done. cbn in G1, G6.
  specialize (G1 eq_refl). specialize (H3 eq_refl). specialize (H5 eq_refl). subst popped buf. destruct (responses c) as [|r rest] eqn:Er; [by cbn in G1|]. cbn [length] in G1. cbv zeta in Hs.
  set (c1 := mkConnection _ _ rest _ _ _ _ _ _ _ _ _ _ _) in Hs.
  assert (Hend : forall p fin, live p = false -> fin = gives_up p -> good start (mkConnection (session_timeout c) (input c) rest (pipe c) (signals c) (dropped c) p (close_xid c) (close_received c) (output c) fin (handed c) (pushed c) (sent c))).
  { intros p fin Hp Hfin. split; cbn; rewrite ?Hp; try done; [exists [r]; split; [done|]; split; [cbn; lia|done]|by exists chunks|by exists (input c)]. }
  assert (Hraise : forall e, good start (raise e c1)) by (intros e; unfold raise; destruct (caught e); by apply Hend).
  destruct (decide (r_xid r = close_xid c1)); [injection Hs as <-; by apply Hend|]. destruct (write_response r) as [bytes|e] eqn:Ew; [|injection Hs as <-; apply Hraise].
  destruct delivered; cbn [negb] in Hs; [|injection Hs as <-; apply Hraise].
  assert (Hsent : forall p fin, (live p = true -> left_to_write p = n) -> fin = gives_up p ->
    good start (mkConnection (session_timeout c) (input c) rest (pipe c) (signals c) (dropped c) p (close_xid c) (close_received c) (output c ++ bytes) fin (handed c) (pushed c) (sent c ++ [r]))).
  { intros p fin Hleft Hfin. split; cbn; try done.
    - intros Hl. rewrite (Hleft Hl). lia.
    - exists []. cbn. rewrite H1, <- app_assoc. split; [done|]. split; [lia|done].
    - exists (chunks ++ [bytes]). split; [apply Forall2_app; [done|by constructor]|]. rewrite concat_app, Ho. cbn. by rewrite app_nil_r.
    - by exists (input c). }
  destruct (decide (r_error r = Err.ZSESSIONEXPIRED)); injection Hs as <-; by apply Hsent.
Qed.

Lemma run_good start capacity es c c' : good start c -> run capacity es c = Some c' -> good start c'.
Proof.
  revert c. induction es as [|e es IH]; intros c Hg Hr; [by injection Hr as <-|]. cbn [run] in Hr. destruct (step capacity c e) as [c1|] eqn:Es; [|done]. cbn [mbind option_bind] in Hr. apply (IH c1); [|done]. clear IH Hr.
  destruct e as [r| |has_requests woken error accepted|delivered|elapsed]; cbn [step] in Es.
  - injection Es as <-. by apply push_good.
  - by eapply signal_good.
  - destruct (state c) eqn:Ep; try done. by eapply turn_good.
  - by eapply respond_good.
  - by eapply end_turn_good.
Qed.

Definition sendable (m : zk_message) : Prop := in_signed 32 (xid m) = true /\ valid_request (body m).

Lemma receive_written m rest : sendable m -> exists z, zk_read_int32 (write_message m ++ rest) = Ok (z, zk_write_int32 (xid m) ++ write_opnum (request_opnum (body m)) ++ write_request (body m) ++ rest).
Proof.
  intros _. unfold write_message, zk_write_string. set (s := zk_write_int32 (xid m) ++ _). destruct (reads_int32_any (Z.of_nat (length s))) as [v Hv]. exists v. rewrite <- app_assoc.
  etransitivity; [apply Hv|]. unfold s. by rewrite <- !app_assoc.
Qed.

Lemma reads_written ms rest l buf : Forall sendable ms -> reads_from (concat (map write_message ms) ++ rest) l buf -> (length l <= length ms)%nat ->
  l = take (length l) ms /\ buf = concat (map write_message (drop (length l) ms)) ++ rest.
Proof.
  intros Hs Hr. induction Hr as [|l buf z buf' m after Hr IH Hz Hm]; intros Hl; [by rewrite take_0, drop_0|]. rewrite length_app in *. cbn [length] in *. destruct IH as [Hpre ->]; [lia|].
  destruct (drop (length l) ms) as [|m0 ms'] eqn:Ed; [apply (f_equal length) in Ed; rewrite length_drop in Ed; cbn in Ed; lia|].
  assert (H0 : ms !! length l = Some m0) by (rewrite <- (Nat.add_0_r (length l)), <- lookup_drop, Ed; done). pose proof (Forall_lookup_1 _ _ _ _ Hs H0) as Hm0.
  cbn [map concat] in Hz. rewrite <- app_assoc in Hz. destruct (receive_written m0 (concat (map write_message ms') ++ rest) Hm0) as (z' & Hz'). rewrite Hz' in Hz.
  assert (Hb : read_message buf' = Some (Ok (m0, concat (map write_message ms') ++ rest))) by (replace buf' with (zk_write_int32 (xid m0) ++ write_opnum (request_opnum (body m0)) ++ write_request (body m0) ++ concat (map write_message ms') ++ rest) by congruence; apply read_message_write; apply Hm0).
  rewrite Hb in Hm. injection Hm as <- <-. rewrite Nat.add_1_r. split; [by rewrite (take_S_r _ _ m0), <- Hpre|].
  change (S (length l)) with (1 + length l)%nat. rewrite Nat.add_comm, <- drop_drop, Ed. done.
Qed.

(** C20: While a client is connected, in whatever order its requests, the responses and the turns of the loop come: the requests are handed to the dispatcher in the order they were sent, each once,
    and none after one that closes the session; the responses are written in the order they were pushed, each once, and the handler never finds the queue empty when it was woken; if no signal was dropped,
    all of them are written when the loop waits again; and the session is given up exactly when the loop ends in another way than by a response that has the number of the closing request
    (CLOSE_XID before there is one), whatever request it answers, or by an exception that is not caught. *)
Theorem connection_in_order capacity timeout (ms : list zk_message) (rest : str) es c : Forall sendable ms -> run capacity es (opened timeout (concat (map write_message ms) ++ rest)) = Some c ->
  (handed c `prefix_of` ms \/ ms `prefix_of` handed c) /\ (forall i m, handed c !! i = Some m -> closes m -> S i = length (handed c)) /\
  (exists popped chunks, pushed c = sent c ++ popped ++ responses c /\ (length popped <= 1)%nat /\ Forall2 (fun r bytes => write_response r = Ok bytes) (sent c) chunks /\ output c = concat chunks) /\
  (forall n error, state c = Responding (S n) error -> responses c <> []) /\
  (state c = Polling -> pipe c = O -> signals c = O -> dropped c = O -> sent c = pushed c) /\
  (finished c = true <-> gives_up (state c) = true).
Proof.
  intros Hs Hr. destruct (run_good _ _ _ _ _ (opened_good timeout _) Hr) as [G1 (popped & H1 & H2 & H3) (chunks & Hc & Ho) (buf & H4 & _) (l & Hl & Hall) G6]. split; [|split; [|split; [|split; [|split]]]].
  - destruct (decide (length (handed c) <= length ms)%nat) as [Hle|Hgt].
    + left. destruct (reads_written ms rest _ _ Hs H4 Hle) as [He _]. rewrite He. apply prefix_take.
    + right. clear -Hs H4 Hgt. induction H4 as [|l buf z buf' m after Hr IH Hz Hm]; [by cbn in Hgt; lia|]. rewrite length_app in Hgt. cbn in Hgt. destruct (decide (length l <= length ms)%nat) as [Hle|Hgt'].
      * destruct (reads_written ms rest _ _ Hs Hr Hle) as [He _]. assert (length l = length ms) by lia. rewrite He, take_ge by lia. by exists [m].
      * etransitivity; [by apply IH|]. by exists [m].
  - intros i m Hi Hm. rewrite Hl in Hi. apply lookup_app_Some in Hi as [Hi|[Hge Hi]]; [by apply (Forall_lookup_1 _ _ _ _ Hall) in Hi|]. rewrite Hl at 1. rewrite length_app.
    destruct (last (handed c)) as [m'|]; [|done]. destruct (close_received c); [|done]. apply list_lookup_singleton_Some in Hi as [Hi _]. cbn. lia.
  - by exists popped, chunks.
  - intros n error Es Er. rewrite Es, Er in G1. cbn in G1. specialize (G1 eq_refl). lia.
  - intros Es Hp Hsig Hd. rewrite Es in *. specialize (G1 eq_refl). rewrite (H3 eq_refl) in H1. cbn in G1. destruct (responses c); [|cbn in G1; lia]. by rewrite H1, app_nil_r.
  - by rewrite G6.
Qed.

(** ** Examples *)

Definition example_messages : list zk_message := [mkMessage 1 HeartbeatRequest; mkMessage 2 CloseRequest].
Definition example_response (x : Z) : zk_response := mkResponse x 5 Err.ZOK HeartbeatResponse.
Definition example_events : list event :=
  [Poll true false false (Ok true); EndTurn 0; Push (example_response 1); Signal; Poll true true false (Ok true); Respond true; EndTurn 0;
   Push (mkResponse 2 6 Err.ZOK CloseResponse); Signal; Poll true true false (Ok true); Respond true].

Lemma connection_in_order_witness :
  exists c, run 16 example_events (opened 1000 (concat (map write_message example_messages) ++ [])) = Some c /\ state c = CloseNumber /\ handed c = example_messages /\ sent c = [example_response 1] /\
    (handed c `prefix_of` example_messages \/ example_messages `prefix_of` handed c) /\ (finished c = true <-> gives_up (state c) = true).
Proof.
  assert (Hs : Forall sendable example_messages) by (repeat apply Forall_cons_2; [split; vm_compute; tauto..|apply Forall_nil_2]).
  destruct (run 16 example_events (opened 1000 (concat (map write_message example_messages) ++ []))) as [c|] eqn:Hr; [|by vm_compute in Hr].
  destruct (connection_in_order 16 1000 example_messages [] example_events c Hs Hr) as (H1 & _ & _ & _ & _ & H6).
  exists c. split; [done|]. split; [|split; [|split; [|exact (conj H1 H6)]]]; vm_compute in Hr; assert (c = _) as -> by (injection Hr as Hc; symmetry; exact Hc); reflexivity.
Defined.

(** ** Flaws *)

(** A client gives two requests the same number, and the second closes the session: the response to the first is taken for the answer to the close. It is not
    written, and the handler returns without giving up the session, whose callback still points to it. *)
Lemma shared_number_closes :
  exists c, run 16 [Poll true false false (Ok true); EndTurn 0; Poll true false false (Ok true); EndTurn 0; Push (example_response 7); Signal; Poll false true false (Ok true); Respond true]
    (opened 1000 (concat (map write_message [mkMessage 7 HeartbeatRequest; mkMessage 7 CloseRequest]) ++ [])) = Some c /\
    state c = CloseNumber /\ sent c = [] /\ finished c = false.
Proof. eexists. split; [vm_compute; reflexivity|]. done. Qed.

(** The byte that wakes the loop is written without looking at the result: when the pipe is full a response stays in the queue while the loop waits. *)
Lemma dropped_signal_stuck :
  exists c, run 2 [Push (example_response 1); Signal; Push (example_response 2); Signal; Push (example_response 3); Signal; Poll false true false (Ok true); Respond true; Respond true; EndTurn 0] (opened 1000 []) = Some c /\
    state c = Polling /\ pipe c = O /\ signals c = O /\ responses c = [example_response 3].
Proof. eexists. split; [vm_compute; reflexivity|]. done. Qed.

(** A client that asks for more than 35 minutes makes the product overflow. *)
Lemma long_timeout_overflows : client_timeout 2147484 = None.
Proof. reflexivity. Qed.

(** One that asks for a negative time gets it, and its connection never times out. *)
Lemma negative_timeout_agreed config_ms : agreed_timeout (-1000) (configured_timeout config_ms) = -1000.
Proof. unfold agreed_timeout, configured_timeout, wrap. rewrite decide_True by done. pose proof (Z.mod_pos_bound (config_ms * 1000) (2 ^ 32)). lia. Qed.

Lemma negative_timeout_never c elapsed error : session_timeout c = -1000 -> state c = Responding O error -> 0 <= elapsed < 2 ^ 63 -> exists c', end_turn elapsed c = Some c' /\ state c' <> TimedOut.
Proof.
  intros Ht Hs He. unfold end_turn. rewrite Hs, Ht. destruct error; [by eexists|]. change (wrap 64 (-1000)) with (2 ^ 64 - 1000). destruct (Z.ltb_spec (2 ^ 64 - 1000) elapsed); [lia|by eexists].
Qed.
