(* ===== verification/KeeperClient.v ===== *)
(** * KeeperClient: the client of the coordination service

    Models src/src/Common/ZooKeeper/ZooKeeperImpl.{h,cpp}, and the chroot prefixes of IKeeper.cpp: how a session is opened, how requests
    are pushed, sent and answered, and how the session ends, when every callback that is left is called.

    The threads of a client, those that call it, the one that sends, the one that receives and the one that finalizes, are a transition system.
    An event is a part of a thread between two points where another one can see what it did, with what the clock, the queue and the socket answer.
    Callbacks do not call the client, as IKeeper.h asks of them; they may throw.  A request is an object that the queue, the table of operations
    and the sending thread share, known by its number, which also stands for its callback and its watch.  History variables hold which
    calls were accepted and refused, what was sent, and which callbacks and watches were called with what. *)

From S2P Require Import Prelude TextFormat SequenceInfo Wire ZooKeeper KeeperStorage KeeperDelivery KeeperConnection.
Local Open Scope Z_scope.

(** ** Ordered maps, as sequences of pairs in the order of the keys *)

Section ordered_map.
Context {K V : Type} `{EqDecision K} (lt : K -> K -> bool).

Definition map_find (k : K) (m : list (K * V)) : option V := snd ∘ snd <$> list_find (fun p => p.1 = k) m.
Definition map_erase (k : K) (m : list (K * V)) : list (K * V) := filter (fun p => p.1 <> k) m.
Definition map_set (k : K) (v : V) (m : list (K * V)) : list (K * V) := insert_sorted (fun a b => lt a.1 b.1) (k, v) (map_erase k m).
End ordered_map.

Module Client.
Definition ZDATAINCONSISTENCY : Z := -3.
Definition PING_XID : Z := -2.
Definition AUTH_XID : Z := -4.
Definition CLOSE_XID : Z := Delivery.CLOSE_XID.
Definition SESSION : Z := -1.
Definition EXPIRED_SESSION : Z := -112.

(** ** The chroot prefix *)

Definition add_root (root_path path : str) : result str :=
  match path with
  | [] => Throw (KeeperException Err.ZBADARGUMENTS)
  | c :: rest =>
      if decide (c <> "/"%char) then Throw (KeeperException Err.ZBADARGUMENTS)
      else if decide (root_path = []) then Ok path
      else if decide (rest = []) then Ok root_path
      else Ok (root_path ++ path)
  end.

Definition remove_root (root_path path : str) : result str :=
  if decide (root_path = []) then Ok path
  else if decide (length path <= length root_path)%nat then Throw (KeeperException ZDATAINCONSISTENCY)
  else Ok (drop (length root_path) path).

(** [addRootPath] of a request; what it did before it threw stays. *)
Fixpoint addRootPath (root_path : str) (r : zk_request) : zk_request * option exn :=
  let on (p : str) (k : str -> zk_request) := match add_root root_path p with Ok p => (k p, None) | Throw e => (r, Some e) end in
  match r with
  | CreateRequest p d e s a => on p (fun p => CreateRequest p d e s a)
  | RemoveRequest p v => on p (fun p => RemoveRequest p v)
  | ExistsRequest p w => on p (fun p => ExistsRequest p w)
  | GetRequest p w => on p (fun p => GetRequest p w)
  | SetRequest p d v => on p (fun p => SetRequest p d v)
  | ListRequest s p w => on p (fun p => ListRequest s p w)
  | CheckRequest p v => on p (fun p => CheckRequest p v)
  | MultiRequest l =>
      let '(l, e) := (fix each (l : list zk_request) :=
        match l with
        | [] => ([], None)
        | r :: l => match addRootPath root_path r with (r, Some e) => (r :: l, Some e) | (r, None) => let '(l, e) := each l in (r :: l, e) end
        end) l in
      (MultiRequest l, e)
  | _ => (r, None)
  end.

(** [removeRootPath] of a response *)
Fixpoint removeRootPath (root_path : str) (b : zk_response_body) : result zk_response_body :=
  match b with
  | CreateResponse p => p ← remove_root root_path p; Ok (CreateResponse p)
  | WatchResponse t s p => p ← remove_root root_path p; Ok (WatchResponse t s p)
  | MultiResponse l =>
      l ← (fix each (l : list (Z * zk_response_body)) :=
        match l with
        | [] => Ok []
        | (e, b) :: l => b ← removeRootPath root_path b; l ← each l; Ok ((e, b) :: l)
        end) l;
      Ok (MultiResponse l)
  | _ => Ok b
  end.

(** ** Opening a session *)

Record settings : Type := mkSettings { root_path : str; default_acls : list ACL; session_timeout : Z; operation_timeout : Z }.

Definition acl_all : Z := 31.

(** The constructor; timeouts are in microseconds. *)
Definition make_settings (root auth_scheme : str) (session operation : Z) : settings :=
  mkSettings (if decide (last root = Some "/"%char) then take (length root - 1) root else root)
    [if decide (auth_scheme = []) then mkACL acl_all (lit "world") (lit "anyone") else mkACL acl_all (lit "auth") []]
    session (Z.min operation session).

Definition sendHandshake (s : settings) : str :=
  zk_write_int32 44 ++ zk_write_int32 Connection.ZOOKEEPER_PROTOCOL_VERSION ++ zk_write_int64 0
  ++ zk_write_int32 (to_signed 32 (wrap 32 (Connection.total_ms (session_timeout s)))) ++ zk_write_int64 0 ++ zk_write_int32 16 ++ replicate 16 "000"%char.

(** The session, and the settings with the timeout of the server, which stay when what follows it cannot be read. *)
Definition receiveHandshake (s : settings) (buf : str) : settings * result (Z * str) :=
  let start : reader Z :=
    handshake_length ← zk_read_int32;
    if decide (handshake_length <> Connection.SERVER_HANDSHAKE_LENGTH) then rthrow (KeeperException Err.ZMARSHALLINGERROR)
    else
      protocol_version_read ← zk_read_int32;
      if decide (protocol_version_read <> Connection.ZOOKEEPER_PROTOCOL_VERSION) then rthrow (KeeperException Err.ZMARSHALLINGERROR)
      else zk_read_int32 in
  match start buf with
  | Throw e => (s, Throw e)
  | Ok (timeout, buf) =>
      (if decide (timeout <> Connection.total_ms (session_timeout s)) then mkSettings (root_path s) (default_acls s) (timeout * 1000) (operation_timeout s) else s,
       (session_id ← zk_read_int64; passwd ← Connection.read_array Connection.PASSWORD_LENGTH; mret (session_id : Z)) buf)
  end.

Definition num_tries : nat := 3.

(** Nodes are tried in order, three times over; [attempt] is what a node answers to the handshake, or how the connection fails. *)
Section connecting.
Context {node : Type} (attempt : nat -> node -> str -> result str).

Fixpoint try_nodes (s : settings) (try_no : nat) (nodes : list node) : settings * option (Z * str) :=
  match nodes with
  | [] => (s, None)
  | n :: nodes =>
      match attempt try_no n (sendHandshake s) with
      | Throw _ => try_nodes s try_no nodes
      | Ok answer =>
          match receiveHandshake s answer with
          | (s, Ok r) => (s, Some r)
          | (s, Throw _) => try_nodes s try_no nodes
          end
      end
  end.

Fixpoint try_times (s : settings) (try_no more : nat) (nodes : list node) : result (settings * (Z * str)) :=
  match more with
  | O => Throw (KeeperException Err.ZCONNECTIONLOSS)
  | S more => match try_nodes s try_no nodes with (s, Some r) => Ok (s, r) | (s, None) => try_times s (S try_no) more nodes end
  end.

Definition connect (s : settings) (nodes : list node) : result (settings * (Z * str)) :=
  if decide (nodes = []) then Throw (KeeperException Err.ZBADARGUMENTS) else try_times s 0 num_tries nodes.
End connecting.

(** [sendAuth]: the request, and its answer, the length of which is what was read. *)
Definition auth_request (scheme data : str) : zk_message := mkMessage AUTH_XID (AuthRequest 0 scheme data).

Definition receiveAuth : reader unit := fun buf =>
  match zk_read_int32 buf with
  | Throw e => Throw e
  | Ok (len, buf) =>
      match (read_xid ← zk_read_int32; zxid ← zk_read_int64; err ← zk_read_int32; mret (read_xid, err)) buf with
      | Throw e => Throw e
      | Ok (read_xid, err, rest) =>
          if decide (read_xid <> AUTH_XID) then Throw (KeeperException Err.ZMARSHALLINGERROR)
          else if decide (len <> to_signed 32 (wrap 32 (Z.of_nat (length buf - length rest)))) then Throw (KeeperException Err.ZMARSHALLINGERROR)
          else if decide (err <> Err.ZOK) then Throw (KeeperException Err.ZMARSHALLINGERROR)
          else Ok (tt, rest)
      end
  end.

(** ** State *)

(** A request that the threads share. *)
Record object : Type := mkObject { o_xid : Z; o_body : zk_request; probably_sent : bool }.

(** What is pushed: a request with its callback, perhaps a watch, and its time; or the request that closes the session, which
    has no callback, and no field of which is looked at. *)
Inductive request_info : Type :=
| CloseInfo
| Info (request : nat) (watch : bool) (time : Z).

(** What a callback is called with: a response that was read, the error of one that could not be read, or an error of [finalize];
    a watch is called with an event of the server or that of [finalize]. *)
Inductive answer : Type :=
| Received (error : Z) (b : zk_response_body)
| Unreadable
| Unfinished (error : Z).

Record watch_event : Type := mkWatchEvent { w_error : Z; w_type : Z; w_state : Z; w_path : str }.

Inductive sender_phase : Type := SLoop | SPopped (i : request_info) | SSending (i : request_info) | SFinalizing | SExited.

(** What [receiveEvent] has found when it reads the rest: the request or the kind of event, the error, the length and the bytes left before the number. *)
Inductive subject : Type := ForRequest (i : request_info) | ForWatches | ForNone.
Record event_head : Type := mkHead { h_subject : subject; h_template : zk_response_body; h_error : Z; h_length : Z; h_before : nat }.

Inductive receiver_phase : Type := RLoop | RPolling (earliest : bool) | RTaken (h : event_head) | RFinalizing | RExited.

(** Where [finalize] is; [error_receive] is kept while it is needed. *)
Inductive finalizer_phase : Type :=
| FIdle
| FClose (error_receive : bool)
| FJoinSender (error_receive : bool)
| FExpire (error_receive : bool)
| FJoinReceiver
| FOperations
| FWatches
| FDrain
| FDone.

#[export] Instance finalizer_phase_eq_dec : EqDecision finalizer_phase.
Proof. solve_decision. Defined.

Record client : Type := mkClient {
  config : settings;
  objects : list object;
  next_xid : Z;
  expired : bool;
  finalization_started : bool;
  requests_queue : list request_info;
  operations : list (Z * request_info);
  watches : list (str * list nat);
  calling : list request_info;
  sender : sender_phase;
  prev_heartbeat_time : Z;
  receiver : receiver_phase;
  waited : Z;
  finalizer : finalizer_phase;
  input : str;
  output : str;
  accepted : list nat;
  refused : list nat;
  sent : list (nat * zk_message);
  written : list zk_message;
  calls : list (nat * answer);
  watch_calls : list (nat * watch_event)
}.

Definition set_objects (os : list object) (c : client) : client :=
  mkClient (config c) os (next_xid c) (expired c) (finalization_started c) (requests_queue c) (operations c) (watches c) (calling c) (sender c) (prev_heartbeat_time c) (receiver c) (waited c) (finalizer c) (input c) (output c) (accepted c) (refused c) (sent c) (written c) (calls c) (watch_calls c).
Definition set_next_xid (x : Z) (c : client) : client :=
  mkClient (config c) (objects c) x (expired c) (finalization_started c) (requests_queue c) (operations c) (watches c) (calling c) (sender c) (prev_heartbeat_time c) (receiver c) (waited c) (finalizer c) (input c) (output c) (accepted c) (refused c) (sent c) (written c) (calls c) (watch_calls c).
Definition set_expired (b : bool) (c : client) : client :=
  mkClient (config c) (objects c) (next_xid c) b (finalization_started c) (requests_queue c) (operations c) (watches c) (calling c) (sender c) (prev_heartbeat_time c) (receiver c) (waited c) (finalizer c) (input c) (output c) (accepted c) (refused c) (sent c) (written c) (calls c) (watch_calls c).
Definition set_queue (q : list request_info) (c : client) : client :=
  mkClient (config c) (objects c) (next_xid c) (expired c) (finalization_started c) q (operations c) (watches c) (calling c) (sender c) (prev_heartbeat_time c) (receiver c) (waited c) (finalizer c) (input c) (output c) (accepted c) (refused c) (sent c) (written c) (calls c) (watch_calls c).
Definition set_operations (m : list (Z * request_info)) (c : client) : client :=
  mkClient (config c) (objects c) (next_xid c) (expired c) (finalization_started c) (requests_queue c) m (watches c) (calling c) (sender c) (prev_heartbeat_time c) (receiver c) (waited c) (finalizer c) (input c) (output c) (accepted c) (refused c) (sent c) (written c) (calls c) (watch_calls c).
Definition set_watches (w : list (str * list nat)) (c : client) : client :=
  mkClient (config c) (objects c) (next_xid c) (expired c) (finalization_started c) (requests_queue c) (operations c) w (calling c) (sender c) (prev_heartbeat_time c) (receiver c) (waited c) (finalizer c) (input c) (output c) (accepted c) (refused c) (sent c) (written c) (calls c) (watch_calls c).
Definition set_calling (l : list request_info) (c : client) : client :=
  mkClient (config c) (objects c) (next_xid c) (expired c) (finalization_started c) (requests_queue c) (operations c) (watches c) l (sender c) (prev_heartbeat_time c) (receiver c) (waited c) (finalizer c) (input c) (output c) (accepted c) (refused c) (sent c) (written c) (calls c) (watch_calls c).
Definition set_sender (p : sender_phase) (c : client) : client :=
  mkClient (config c) (objects c) (next_xid c) (expired c) (finalization_started c) (requests_queue c) (operations c) (watches c) (calling c) p (prev_heartbeat_time c) (receiver c) (waited c) (finalizer c) (input c) (output c) (accepted c) (refused c) (sent c) (written c) (calls c) (watch_calls c).
Definition set_prev_heartbeat_time (t : Z) (c : client) : client :=
  mkClient (config c) (objects c) (next_xid c) (expired c) (finalization_started c) (requests_queue c) (operations c) (watches c) (calling c) (sender c) t (receiver c) (waited c) (finalizer c) (input c) (output c) (accepted c) (refused c) (sent c) (written c) (calls c) (watch_calls c).
Definition set_receiver (p : receiver_phase) (c : client) : client :=
  mkClient (config c) (objects c) (next_xid c) (expired c) (finalization_started c) (requests_queue c) (operations c) (watches c) (calling c) (sender c) (prev_heartbeat_time c) p (waited c) (finalizer c) (input c) (output c) (accepted c) (refused c) (sent c) (written c) (calls c) (watch_calls c).
Definition set_waited (t : Z) (c : client) : client :=
  mkClient (config c) (objects c) (next_xid c) (expired c) (finalization_started c) (requests_queue c) (operations c) (watches c) (calling c) (sender c) (prev_heartbeat_time c) (receiver c) t (finalizer c) (input c) (output c) (accepted c) (refused c) (sent c) (written c) (calls c) (watch_calls c).
Definition start_finalizer (p : finalizer_phase) (c : client) : client :=
  mkClient (config c) (objects c) (next_xid c) (expired c) true (requests_queue c) (operations c) (watches c) (calling c) (sender c) (prev_heartbeat_time c) (receiver c) (waited c) p (input c) (output c) (accepted c) (refused c) (sent c) (written c) (calls c) (watch_calls c).
Definition set_finalizer (p : finalizer_phase) (c : client) : client :=
  mkClient (config c) (objects c) (next_xid c) (expired c) (finalization_started c) (requests_queue c) (operations c) (watches c) (calling c) (sender c) (prev_heartbeat_time c) (receiver c) (waited c) p (input c) (output c) (accepted c) (refused c) (sent c) (written c) (calls c) (watch_calls c).
Definition set_input (s : str) (c : client) : client :=
  mkClient (config c) (objects c) (next_xid c) (expired c) (finalization_started c) (requests_queue c) (operations c) (watches c) (calling c) (sender c) (prev_heartbeat_time c) (receiver c) (waited c) (finalizer c) s (output c) (accepted c) (refused c) (sent c) (written c) (calls c) (watch_calls c).
Definition put_output (m : zk_message) (c : client) : client :=
  mkClient (config c) (objects c) (next_xid c) (expired c) (finalization_started c) (requests_queue c) (operations c) (watches c) (calling c) (sender c) (prev_heartbeat_time c) (receiver c) (waited c) (finalizer c) (input c) (output c ++ write_message m) (accepted c) (refused c) (sent c) (written c ++ [m]) (calls c) (watch_calls c).
Definition accept (o : nat) (c : client) : client :=
  mkClient (config c) (objects c) (next_xid c) (expired c) (finalization_started c) (requests_queue c) (operations c) (watches c) (calling c) (sender c) (prev_heartbeat_time c) (receiver c) (waited c) (finalizer c) (input c) (output c) (accepted c ++ [o]) (refused c) (sent c) (written c) (calls c) (watch_calls c).
Definition refuse (o : nat) (c : client) : client :=
  mkClient (config c) (objects c) (next_xid c) (expired c) (finalization_started c) (requests_queue c) (operations c) (watches c) (calling c) (sender c) (prev_heartbeat_time c) (receiver c) (waited c) (finalizer c) (input c) (output c) (accepted c) (refused c ++ [o]) (sent c) (written c) (calls c) (watch_calls c).
Definition log_sent (m : nat * zk_message) (c : client) : client :=
  mkClient (config c) (objects c) (next_xid c) (expired c) (finalization_started c) (requests_queue c) (operations c) (watches c) (calling c) (sender c) (prev_heartbeat_time c) (receiver c) (waited c) (finalizer c) (input c) (output c) (accepted c) (refused c) (sent c ++ [m]) (written c) (calls c) (watch_calls c).
Definition log_calls (l : list (nat * answer)) (c : client) : client :=
  mkClient (config c) (objects c) (next_xid c) (expired c) (finalization_started c) (requests_queue c) (operations c) (watches c) (calling c) (sender c) (prev_heartbeat_time c) (receiver c) (waited c) (finalizer c) (input c) (output c) (accepted c) (refused c) (sent c) (written c) (calls c ++ l) (watch_calls c).
Definition log_watch_calls (l : list (nat * watch_event)) (c : client) : client :=
  mkClient (config c) (objects c) (next_xid c) (expired c) (finalization_started c) (requests_queue c) (operations c) (watches c) (calling c) (sender c) (prev_heartbeat_time c) (receiver c) (waited c) (finalizer c) (input c) (output c) (accepted c) (refused c) (sent c) (written c) (calls c) (watch_calls c ++ l).

Definition opened (s : settings) (now : Z) (buf : str) : client := mkClient s [] 1 false false [] [] [] [] SLoop now RLoop 0 FIdle buf [] [] [] [] [] [] [].

(** ** Calls *)

Inductive call : Type :=
| Create (path data : str) (is_ephemeral is_sequential : bool) (acls : list ACL)
| Remove (path : str) (version : Z)
| Exists (path : str)
| Get (path : str)
| SetData (path data : str) (version : Z)
| GetList (path : str)
| CheckVersion (path : str) (version : Z)
| Multi (requests : list zk_request).

Definition with_acls (default : list ACL) (acls : list ACL) : list ACL := if decide (acls = []) then default else acls.

(** The constructor of a multi request *)
Fixpoint multi_requests (default : list ACL) (l : list zk_request) : result (list zk_request) :=
  match l with
  | [] => Ok []
  | r :: l =>
      r ← match r with
          | CreateRequest p d e s acls => Ok (CreateRequest p d e s (with_acls default acls))
          | RemoveRequest _ _ | SetRequest _ _ _ | CheckRequest _ _ => Ok r
          | _ => Throw (KeeperException Err.ZBADARGUMENTS)
          end;
      l ← multi_requests default l;
      Ok (r :: l)
  end.

Definition call_request (default : list ACL) (m : call) : result zk_request :=
  match m with
  | Create p d e s acls => Ok (CreateRequest p d e s (with_acls default acls))
  | Remove p v => Ok (RemoveRequest p v)
  | Exists p => Ok (ExistsRequest p false)
  | Get p => Ok (GetRequest p false)
  | SetData p d v => Ok (SetRequest p d v)
  | GetList p => Ok (ListRequest false p false)
  | CheckVersion p v => Ok (CheckRequest p v)
  | Multi l => l ← multi_requests default l; Ok (MultiRequest l)
  end.

(** [finalize] does nothing when it was started before. *)
Definition finalize (p : finalizer_phase) (c : client) : client := if finalization_started c then c else start_finalizer p c.

(** [pushRequest] up to its lock *)
Definition begin_call (m : call) (watch : bool) (now : Z) (c : client) : client :=
  match call_request (default_acls (config c)) m with
  | Throw _ => c
  | Ok body =>
      let o := length (objects c) in
      let x := next_xid c in
      let c := set_objects (objects c ++ [mkObject x body false]) (set_next_xid (to_signed 32 (wrap 32 (x + 1))) c) in
      if decide (x = CLOSE_XID \/ x < 0) then finalize (FClose false) (refuse o c)
      else set_calling (calling c ++ [Info o watch now]) c
  end.

Definition max_fill : nat := 1.

Definition ids_of (i : request_info) : list nat := match i with CloseInfo => [] | Info o _ _ => [o] end.

(** [pushRequest] under its lock; a queue that is full now has been full for the whole timeout. *)
Definition push_call (k : nat) (c : client) : option client :=
  i ← calling c !! k;
  match i with
  | CloseInfo => None
  | Info o _ _ =>
      let c := set_calling (delete k (calling c)) c in
      Some (if expired c || bool_decide (max_fill <= length (requests_queue c))%nat then finalize (FClose false) (refuse o c)
            else set_queue (requests_queue c ++ [i]) (accept o c))
  end.

(** ** Sending *)

(** An exception of the thread *)
Definition sender_fails (c : client) : client := if finalization_started c then set_sender SExited c else start_finalizer (FExpire false) (set_sender SFinalizing c).

(** A turn of the thread: it pops a request or finds none, or sends a heartbeat, for which [later] is the time and [delivered] tells whether the socket took it. *)
Definition send_turn (now later : Z) (popped delivered : bool) (c : client) : option client :=
  match sender c with
  | SLoop =>
      if expired c then Some (set_sender SExited c)
      else if now <? prev_heartbeat_time c + Z.quot (Connection.total_ms (session_timeout (config c))) 3 * 1000000 then
        match requests_queue c with
        | [] => if popped then None else Some c
        | i :: q => if popped then Some (set_sender (SPopped i) (set_queue q c)) else None
        end
      else
        let c := set_prev_heartbeat_time later c in
        Some (if (delivered : bool) then put_output (mkMessage PING_XID HeartbeatRequest) c else sender_fails c)
  | _ => None
  end.

Definition with_watch (r : zk_request) : zk_request :=
  match r with ExistsRequest p _ => ExistsRequest p true | GetRequest p _ => GetRequest p true | ListRequest s p _ => ListRequest s p true | _ => r end.

(** The request is registered, then marked. *)
Definition register (c : client) : option client :=
  match sender c with
  | SPopped CloseInfo => Some (set_sender (SSending CloseInfo) c)
  | SPopped (Info o w t) =>
      ob ← objects c !! o;
      let c := set_sender (SSending (Info o w t)) c in
      let c := if decide (o_xid ob <> CLOSE_XID) then set_operations (map_set Z.ltb (o_xid ob) (Info o w t) (operations c)) c else c in
      Some (if (w : bool) then set_objects (<[o := mkObject (o_xid ob) (with_watch (o_body ob)) (probably_sent ob)]> (objects c)) c else c)
  | _ => None
  end.

(** The request gets its prefix and is written; bytes of a write that throws are not counted. *)
Definition send (delivered : bool) (c : client) : option client :=
  match sender c with
  | SSending i =>
      if expired c then Some (set_sender SExited c)
      else
        match i with
        | CloseInfo => Some (if (delivered : bool) then set_sender SExited (put_output (mkMessage CLOSE_XID CloseRequest) c) else sender_fails c)
        | Info o _ _ =>
            ob ← objects c !! o;
            Some (match addRootPath (root_path (config c)) (o_body ob) with
                  | (body, Some _) => sender_fails (set_objects (<[o := mkObject (o_xid ob) body (probably_sent ob)]> (objects c)) c)
                  | (body, None) =>
                      let m := mkMessage (o_xid ob) body in
                      let c := log_sent (o, m) (set_objects (<[o := mkObject (o_xid ob) body true]> (objects c)) c) in
                      if negb delivered then sender_fails c
                      else set_sender (if decide (o_xid ob = CLOSE_XID) then SExited else SLoop) (put_output m c)
                  end)
        end
  | _ => None
  end.

(** ** Receiving *)

(** An exception of the thread *)
Definition receiver_fails (c : client) : client := if finalization_started c then set_receiver RExited c else start_finalizer (FClose true) (set_receiver RFinalizing c).

(** The deadline of the earliest operation *)
Definition receive_wait (now : Z) (c : client) : option client :=
  match receiver c with
  | RLoop =>
      Some (if expired c then set_receiver RExited c
            else match operations c with
                 | (_, Info _ _ t) :: _ => if t + operation_timeout (config c) * 1000 <? now then receiver_fails c else set_receiver (RPolling true) c
                 | (_, CloseInfo) :: _ => set_receiver (RPolling true) c
                 | [] => set_receiver (RPolling false) c
                 end)
  | _ => None
  end.

(** [receiveEvent] until it has the request: the length, the number, the transaction and the error. *)
Definition receive_head (c : client) : client :=
  match zk_read_int32 (input c) with
  | Throw _ => receiver_fails c
  | Ok (len, buf) =>
      match (x ← zk_read_int32; zxid ← zk_read_int64; err ← zk_read_int32; mret (x, err)) buf with
      | Throw _ => receiver_fails c
      | Ok (x, err, rest) =>
          let c := set_input rest c in
          if decide (x = PING_XID) then
            if decide (err <> Err.ZOK) then receiver_fails c else set_receiver (RTaken (mkHead ForNone HeartbeatResponse err len (length buf))) c
          else if decide (x = Storage.WATCH_XID) then set_receiver (RTaken (mkHead ForWatches (WatchResponse 0 0 []) err len (length buf))) c
          else
            match map_find x (operations c) with
            | Some (Info o w t) =>
                match objects c !! o with
                | Some ob => set_receiver (RTaken (mkHead (ForRequest (Info o w t)) (makeResponse (o_body ob)) err len (length buf))) (set_operations (map_erase x (operations c)) c)
                | None => c
                end
            | _ => receiver_fails c
            end
      end
  end.

(** The poll of the socket, which waits [operation_timeout] when there is no operation. *)
Definition receive_poll (ready : bool) (c : client) : option client :=
  match receiver c with
  | RPolling earliest =>
      Some (if (ready : bool) then if expired c then set_receiver RExited c else receive_head c
            else if (earliest : bool) then receiver_fails c
            else
              let w := waited c + operation_timeout (config c) in
              if session_timeout (config c) <=? w then receiver_fails (set_waited w c) else set_receiver RLoop (set_waited w c))
  | _ => None
  end.

(** The body of a response, when its error is none, without the prefix. *)
Definition read_response (h : event_head) (c : client) : result (Z * zk_response_body * str) :=
  if decide (h_error h <> Err.ZOK) then Ok (h_error h, h_template h, input c)
  else
    '(error, b, rest) ← read_body Err.ZOK (h_template h) (input c);
    b ← removeRootPath (root_path (config c)) b;
    Ok (error, b, rest).

(** The watch of a request is set for a node that exists, or that [exists] asked for. *)
Definition adds_watch (r : zk_request) (error : Z) : bool :=
  if decide (request_opnum r = OpExists) then bool_decide (error = Err.ZOK \/ error = Err.ZNONODE) else bool_decide (error = Err.ZOK).

Definition add_watch (i : subject) (error : Z) (c : client) : client * option exn :=
  match i with
  | ForRequest (Info o true _) =>
      match objects c !! o with
      | None => (c, None)
      | Some ob =>
          if adds_watch (o_body ob) error then
            match remove_root (root_path (config c)) (getPath (o_body ob)) with
            | Throw e => (c, Some e)
            | Ok path => (set_watches (map_set str_lt path (default [] (map_find path (watches c)) ++ [o]) (watches c)) c, None)
            end
          else (c, None)
      end
  | _ => (c, None)
  end.

(** The watches of a path: they are erased unless one of them, the one at [failing], throws. *)
Definition call_watches (e : watch_event) (failing : option nat) (c : client) : client * bool :=
  match map_find (w_path e) (watches c) with
  | None => (c, false)
  | Some l =>
      match failing with
      | Some k =>
          if decide (k < length l)%nat then (log_watch_calls (map (fun o => (o, e)) (take (S k) l)) c, true)
          else (set_watches (map_erase (w_path e) (watches c)) (log_watch_calls (map (fun o => (o, e)) l) c), false)
      | None => (set_watches (map_erase (w_path e) (watches c)) (log_watch_calls (map (fun o => (o, e)) l) c), false)
      end
  end.

(** The event of the watches: when the response cannot be read to its end there is no path, or the path still has its prefix. *)
Definition event_of (error : Z) (b : zk_response_body) : watch_event :=
  match b with WatchResponse t s p => mkWatchEvent error t s p | _ => mkWatchEvent error 0 0 [] end.
Definition broken_event (h : event_head) (c : client) : watch_event :=
  match read_response h c with
  | Ok (_, b, _) => event_of Err.ZCONNECTIONLOSS b
  | Throw _ => match read_body Err.ZOK (h_template h) (input c) with Ok (_, b, _) => event_of Err.ZCONNECTIONLOSS b | Throw _ => mkWatchEvent Err.ZCONNECTIONLOSS 0 0 [] end
  end.

(** The callback, and whether it threw *)
Definition call_back (h : event_head) (a : answer) (e : watch_event) (failing : option nat) (c : client) : client * bool :=
  match h_subject h with
  | ForRequest i => (log_calls (map (fun o => (o, a)) (ids_of i)) c, bool_decide (is_Some failing))
  | ForWatches => call_watches e failing c
  | ForNone => (c, false)
  end.

(** [receiveEvent] from there to its end: a response that is broken is given to the callback as the loss of the connection, then the exception goes on. *)
Definition receive_body (failing : option nat) (c : client) : option client :=
  match receiver c with
  | RTaken h =>
      let broken c' := receiver_fails (call_back h Unreadable (broken_event h c) failing c').1 in
      Some (match read_response h c with
            | Throw _ => broken c
            | Ok (error, b, rest) =>
                match add_watch (h_subject h) error c with
                | (c', Some _) => broken c'
                | (c', None) =>
                    if decide (h_length h <> to_signed 32 (wrap 32 (Z.of_nat (h_before h - length rest)))) then broken c'
                    else
                      let '(c', threw) := call_back h (Received error b) (event_of error b) failing (set_input rest c') in
                      if (threw : bool) then receiver_fails c' else set_waited 0 (set_receiver RLoop c')
                end
            end)
  | _ => None
  end.

(** ** The end of a session *)

(** What [finalize] tells the callback of an operation *)
Definition unfinished (os : list object) (o : nat) : nat * answer :=
  (o, Unfinished (if from_option probably_sent false (os !! o) then Err.ZCONNECTIONLOSS else Err.ZSESSIONEXPIRED)).

Definition expired_event : watch_event := mkWatchEvent Err.ZSESSIONEXPIRED SESSION EXPIRED_SESSION [].

(** The thread that finalizes ends with it. *)
Definition thread_ends (c : client) : client :=
  let c := match sender c with SFinalizing => set_sender SExited c | _ => c end in
  match receiver c with RFinalizing => set_receiver RExited c | _ => c end.

(** A step of [finalize]; a queue that is full when the request to close is pushed has been full for the whole timeout. *)
Definition finalize_step (c : client) : option client :=
  match finalizer c with
  | FIdle | FDone => None
  | FClose er =>
      Some (set_finalizer (FJoinSender er)
              (if decide (max_fill <= length (requests_queue c))%nat then set_expired true c else set_queue (requests_queue c ++ [CloseInfo]) c))
  | FJoinSender er => match sender c with SExited => Some (set_finalizer (FExpire er) c) | _ => None end
  | FExpire er => Some (set_finalizer (if er then FOperations else FJoinReceiver) (set_expired true c))
  | FJoinReceiver => match receiver c with RExited => Some (set_finalizer FOperations c) | _ => None end
  | FOperations =>
      Some (set_finalizer FWatches (set_operations [] (log_calls (map (unfinished (objects c)) (concat (map (ids_of ∘ snd) (operations c)))) c)))
  | FWatches => Some (set_finalizer FDrain (set_watches [] (log_watch_calls (map (fun o => (o, expired_event)) (concat (map snd (watches c)))) c)))
  | FDrain =>
      Some (match requests_queue c with
            | [] => thread_ends (set_finalizer FDone c)
            | i :: q =>
                let c := set_queue q (log_calls (map (fun o => (o, Unfinished Err.ZSESSIONEXPIRED)) (ids_of i)) c) in
                match i with Info o true _ => log_watch_calls [(o, expired_event)] c | _ => c end
            end)
  end.

(** ** Runs *)

Inductive event : Type :=
| BeginCall (m : call) (watch : bool) (now : Z)
| PushCall (k : nat)
| UserFinalize
| SendTurn (now later : Z) (popped delivered : bool)
| Register
| Send (delivered : bool)
| ReceiveWait (now : Z)
| ReceivePoll (ready : bool)
| ReceiveBody (failing : option nat)
| FinalizeStep.

Definition step (c : client) (e : event) : option client :=
  match e with
  | BeginCall m watch now => Some (begin_call m watch now c)
  | PushCall k => push_call k c
  | UserFinalize => Some (finalize (FClose false) c)
  | SendTurn now later popped delivered => send_turn now later popped delivered c
  | Register => register c
  | Send delivered => send delivered c
  | ReceiveWait now => receive_wait now c
  | ReceivePoll ready => receive_poll ready c
  | ReceiveBody failing => receive_body failing c
  | FinalizeStep => finalize_step c
  end.

Fixpoint run (es : list event) (c : client) : option client :=
  match es with [] => Some c | e :: es => c ← step c e; run es c end.
End Client.

Import Client.

(** ** Facts about maps *)

Section map_facts.
Context {K V : Type} `{EqDecision K}.

Lemma map_find_elem (k : K) (v : V) m : map_find k m = Some v -> (k, v) ∈ m.
Proof.
  unfold map_find. intros H. apply fmap_Some in H as ([n [k' v']] & (Hn & Hk & _)%list_find_Some & ->). cbn in *. subst k'. by eapply list_elem_of_lookup_2.
Qed.

Lemma map_erase_fresh (k : K) (m : list (K * V)) : k ∉ map fst m -> map_erase k m = m.
Proof.
  intros H. unfold map_erase. induction m as [|[k' v] m IH]; [done|]. cbn [map fst] in H. apply not_elem_of_cons in H as [H1 H2].
  rewrite filter_cons_True by (cbn; congruence). by rewrite IH.
Qed.

Lemma map_erase_elem (k : K) (v : V) m : NoDup (map fst m) -> (k, v) ∈ m -> m ≡ₚ (k, v) :: map_erase k m.
Proof.
  unfold map_erase. induction m as [|[k' v'] m IH]; [by intros _ H%elem_of_nil|]. cbn [map fst]. intros [Hn Hd]%NoDup_cons Hin.
  destruct (decide (k' = k)) as [->|Hk].
  - rewrite filter_cons_False by (cbn; tauto). fold (map_erase k m). rewrite map_erase_fresh by done. apply elem_of_cons in Hin as [[= ->]|Hin]; [done|].
    destruct Hn. rewrite list_elem_of_fmap. by exists (k, v).
  - rewrite filter_cons_True by done. apply elem_of_cons in Hin as [[= -> ->]|Hin]; [done|]. rewrite (IH Hd Hin) at 1. by rewrite perm_swap.
Qed.

Lemma map_erase_keys (k : K) (m : list (K * V)) : NoDup (map fst m) -> NoDup (map fst (map_erase k m)).
Proof.
  unfold map_erase. induction m as [|[k' v'] m IH]; [done|]. cbn [map fst]. intros [Hn Hd]%NoDup_cons. destruct (decide (k' = k)) as [->|Hk].
  - rewrite filter_cons_False by (cbn; tauto). by apply IH.
  - rewrite filter_cons_True by done. cbn [map fst]. apply NoDup_cons. split; [|by apply IH]. intros (p & -> & Hp)%list_elem_of_fmap. destruct Hn.
    apply list_elem_of_filter in Hp as [_ Hp]. rewrite list_elem_of_fmap. by exists p.
Qed.

Lemma map_set_fresh (lt : K -> K -> bool) (k : K) (v : V) m : k ∉ map fst m -> map_set lt k v m ≡ₚ (k, v) :: m.
Proof. intros H. unfold map_set. rewrite map_erase_fresh by done. apply insert_sorted_perm. Qed.
End map_facts.

(** ** Numbers of requests *)

(** The number of the [k]-th request: an atomic counter of 32 bits wraps around. *)
Definition xid_of (k : nat) : Z := to_signed 32 (wrap 32 (1 + Z.of_nat k)).

Definition NUMBERS : Z := 2 ^ 32.

Lemma to_signed_inj a b : 0 <= a < 2 ^ 32 -> 0 <= b < 2 ^ 32 -> to_signed 32 a = to_signed 32 b -> a = b.
Proof. unfold to_signed. intros Ha Hb. change (2 ^ (32 - 1)) with 2147483648. change (2 ^ 32) with 4294967296 in *. destruct (Z.ltb_spec a 2147483648), (Z.ltb_spec b 2147483648); lia. Qed.

Lemma wrap_bound x : 0 <= wrap 32 x < 2 ^ 32.
Proof. unfold wrap. by apply Z.mod_pos_bound. Qed.

Lemma xid_of_inj a b : Z.of_nat a < NUMBERS -> Z.of_nat b < NUMBERS -> xid_of a = xid_of b -> a = b.
Proof.
  unfold xid_of, NUMBERS. intros Ha Hb H. apply to_signed_inj in H; [|apply wrap_bound..]. unfold wrap in H.
  assert (1 + Z.of_nat a = 2 ^ 32 \/ 1 + Z.of_nat a < 2 ^ 32) as [Ea|Ea] by lia; assert (1 + Z.of_nat b = 2 ^ 32 \/ 1 + Z.of_nat b < 2 ^ 32) as [Eb|Eb] by lia.
  - lia.
  - rewrite Ea, Z_mod_same_full, (Z.mod_small (1 + Z.of_nat b)) in H by lia. lia.
  - rewrite Eb, Z_mod_same_full, (Z.mod_small (1 + Z.of_nat a)) in H by lia. lia.
  - rewrite !Z.mod_small in H by lia. lia.
Qed.

Lemma xid_of_next k : to_signed 32 (wrap 32 (xid_of k + 1)) = xid_of (S k).
Proof.
  unfold xid_of. f_equal. unfold wrap at 1 3. rewrite Nat2Z.inj_succ. set (a := 1 + Z.of_nat k). replace (1 + Z.succ (Z.of_nat k)) with (a + 1) by lia.
  rewrite <- (Z.add_mod_idemp_l a) by done. unfold to_signed. fold (wrap 32 a). destruct (_ <? _); [done|]. replace (wrap 32 a - 2 ^ 32 + 1) with (wrap 32 a + 1 + (-1) * 2 ^ 32) by lia. by rewrite Z_mod_plus_full.
Qed.

(** ** The invariant *)

Definition queued (q : list request_info) : list nat := concat (map ids_of q).
Definition registered (m : list (Z * request_info)) : list nat := concat (map (ids_of ∘ snd) m).
Definition sender_ids (p : sender_phase) : list nat := match p with SPopped i => ids_of i | _ => [] end.
Definition receiver_ids (p : receiver_phase) : list nat := match p with RTaken h => match h_subject h with ForRequest i => ids_of i | _ => [] end | _ => [] end.

#[local] Arguments queued : simpl never.
#[local] Arguments registered : simpl never.

(** The requests whose callbacks are still to be called *)
Definition pending (c : client) : list nat := queued (requests_queue c) ++ sender_ids (sender c) ++ registered (operations c) ++ receiver_ids (receiver c).

Definition sender_done (p : sender_phase) : Prop := p = SExited \/ p = SFinalizing.
Definition receiver_done (p : receiver_phase) : Prop := p = RExited \/ p = RFinalizing.

Definition threads_ok (c : client) : Prop :=
  match finalizer c with
  | FIdle => finalization_started c = false /\ sender c <> SFinalizing /\ receiver c <> RFinalizing /\ expired c = false
  | FClose er | FJoinSender er => finalization_started c = true /\ sender c <> SFinalizing /\ (receiver c = RFinalizing <-> er = true)
  | FExpire er => finalization_started c = true /\ sender_done (sender c) /\ (receiver c = RFinalizing <-> er = true)
  | FJoinReceiver => finalization_started c = true /\ expired c = true /\ sender_done (sender c) /\ receiver c <> RFinalizing
  | FOperations => finalization_started c = true /\ expired c = true /\ sender_done (sender c) /\ receiver_done (receiver c)
  | FWatches | FDrain => finalization_started c = true /\ expired c = true /\ sender_done (sender c) /\ receiver_done (receiver c) /\ operations c = []
  | FDone => finalization_started c = true /\ expired c = true /\ sender c = SExited /\ receiver c = RExited /\ operations c = [] /\ requests_queue c = []
  end.

(** The callbacks that [finalize] calls come after all others. *)
Definition calling_back (p : finalizer_phase) : bool := match p with FWatches | FDrain | FDone => true | _ => false end.

Definition usable (n o : nat) : Prop := (o < n)%nat /\ 0 <= xid_of o /\ xid_of o <> CLOSE_XID.

(** What the sending thread holds and has not handed to the socket *)
Definition held (p : sender_phase) (mid : list nat) : Prop :=
  match p with SLoop => mid = [] | SPopped i | SSending i => mid = ids_of i | _ => True end.

Record good (c : client) : Prop := {
  g_xid : forall k ob, objects c !! k = Some ob -> o_xid ob = xid_of k;
  g_next : next_xid c = xid_of (length (objects c));
  g_usable : Forall (usable (length (objects c))) (accepted c ++ queued (calling c));
  g_refused : Forall (fun o => o < length (objects c))%nat (refused c);
  g_distinct : NoDup (accepted c ++ refused c ++ queued (calling c));
  g_account : accepted c ≡ₚ map fst (calls c) ++ pending c;
  g_keys : NoDup (map fst (operations c));
  g_operations : Forall (fun p => exists o w t, p.2 = Info o w t /\ p.1 = xid_of o) (operations c);
  g_threads : threads_ok c;
  g_sent : exists mid, accepted c = map fst (sent c) ++ mid ++ queued (requests_queue c) /\ held (sender c) mid;
  g_messages : Forall (fun p => exists ob, objects c !! p.1 = Some ob /\ probably_sent ob = true /\ p.2 = mkMessage (o_xid ob) (o_body ob)) (sent c);
  g_finished : forall o e, (o, Unfinished e) ∈ calls c -> calling_back (finalizer c) = true /\ (e = Err.ZSESSIONEXPIRED -> o ∉ map fst (sent c));
  g_output : output c = concat (map write_message (written c))
}.

Lemma client_opened_good s now buf : good (opened s now buf).
Proof. split; try done; try apply Forall_nil; try apply NoDup_nil_2; [by exists []|]. intros o e H. by apply elem_of_nil in H. Qed.

Lemma NoDup_snoc {A} (x : A) l1 l2 l3 : x ∉ l1 ++ l2 ++ l3 -> NoDup (l1 ++ l2 ++ l3) -> NoDup (l1 ++ (l2 ++ [x]) ++ l3).
Proof. intros H1 H2. rewrite <- !app_assoc, (app_assoc l1). cbn. rewrite <- Permutation_middle, <- app_assoc. by apply NoDup_cons. Qed.

(** *** Calls *)

Lemma queued_app q q' : queued (q ++ q') = queued q ++ queued q'.
Proof. unfold queued. by rewrite map_app, concat_app. Qed.

Lemma start_finalizer_good p c : good c -> (p = FClose false \/ p = FClose true) -> finalization_started c = false -> sender c <> SFinalizing -> (receiver c = RFinalizing <-> p = FClose true) -> good (start_finalizer p c).
Proof.
  intros [] Hp Hs Hf Hr. split; try done.
  - cbn. destruct Hp as [->| ->]; (split; [done|]); split; [done| |done|]; rewrite Hr; split; congruence.
  - cbn. intros o e H. destruct (g_finished0 o e H) as [H' _]. unfold threads_ok in g_threads0. rewrite Hs in g_threads0. destruct (finalizer c); try done; naive_solver.
Qed.

Lemma not_started c : threads_ok c -> finalization_started c = false -> sender c <> SFinalizing /\ receiver c <> RFinalizing.
Proof. unfold threads_ok. intros H Hs. rewrite Hs in H. destruct (finalizer c); naive_solver. Qed.

Lemma finalize_good c : good c -> good (finalize (FClose false) c).
Proof.
  intros H. unfold finalize. destruct (finalization_started c) eqn:Hs; [done|]. destruct (not_started c (g_threads c H) Hs) as [H1 H2].
  apply start_finalizer_good; [done|by left|done|done|]. by split.
Qed.

Lemma begin_call_good m w now c : good c -> good (begin_call m w now c).
Proof.
  intros H. unfold begin_call. destruct (call_request (default_acls (config c)) m) as [body|]; [|done]. cbv zeta.
  set (c1 := set_objects _ _).
  assert (Hlt : forall o, usable (length (objects c)) o -> usable (length (objects c1)) o) by (intros o [Ho ?]; split; [cbn; rewrite length_app; lia|done]).
  assert (Hxid : forall k ob, objects c1 !! k = Some ob -> o_xid ob = xid_of k).
  { intros k ob Hk. cbn in Hk. apply lookup_app_Some in Hk as [Hk|[Hge Hk]]; [by apply (g_xid c H)|]. apply list_lookup_singleton_Some in Hk as [Hk <-]. cbn.
    rewrite (g_next c H). f_equal. lia. }
  assert (Hnext : next_xid c1 = xid_of (length (objects c1))).
  { cbn. rewrite (g_next c H), xid_of_next, length_app. cbn. f_equal. lia. }
  assert (Hnew : length (objects c) ∉ accepted c ++ refused c ++ queued (calling c)).
  { intros Hin. rewrite app_assoc, (Permutation_app_comm (accepted c)), <- app_assoc in Hin. apply elem_of_app in Hin as [Hin|Hin].
    - apply (proj1 (Forall_forall _ _) (g_refused c H)) in Hin. lia.
    - apply (proj1 (Forall_forall _ _) (g_usable c H)) in Hin as [Hin _]. lia. }
  assert (Hmsg : Forall (fun p => exists ob, objects c1 !! p.1 = Some ob /\ probably_sent ob = true /\ p.2 = mkMessage (o_xid ob) (o_body ob)) (sent c)).
  { eapply Forall_impl; [apply (g_messages c H)|]. intros p (ob & Hob & Hrest). exists ob. split; [|done]. cbn. by apply lookup_app_l_Some. }
  destruct H. case_decide as Hx.
  - apply finalize_good. split; try done.
    + eapply Forall_impl; [apply g_usable0|]. exact Hlt.
    + cbn. apply Forall_app. split; [eapply Forall_impl; [apply g_refused0|]; intros o Ho; cbn in *; rewrite length_app; lia|]. apply Forall_singleton. rewrite length_app. cbn. lia.
    + by apply NoDup_snoc.
  - split; try done.
    + cbn. rewrite queued_app, app_assoc. apply Forall_app. split; [eapply Forall_impl; [apply g_usable0|]; exact Hlt|]. apply Forall_singleton. split; [rewrite length_app; cbn; lia|].
      rewrite <- g_next0. split; [lia|]. intros E. apply Hx. by left.
    + cbn. eapply Forall_impl; [apply g_refused0|]. intros o Ho. cbn in *. rewrite length_app. lia.
    + cbn. rewrite queued_app. rewrite <- (app_nil_r (queued (calling c))) in g_distinct0, Hnew. rewrite app_assoc in g_distinct0, Hnew |- *. rewrite <- (app_nil_r (queued _ ++ _)). by apply NoDup_snoc.
Qed.

Lemma queued_perm q q' : q ≡ₚ q' -> queued q ≡ₚ queued q'.
Proof. unfold queued. induction 1; cbn [map concat]; [done|by f_equiv| |by etransitivity]. rewrite !app_assoc. f_equiv. apply Permutation_app_comm. Qed.

Lemma registered_perm m m' : m ≡ₚ m' -> registered m ≡ₚ registered m'.
Proof. unfold registered. induction 1; cbn [map concat]; [done|by f_equiv| |by etransitivity]. rewrite !app_assoc. f_equiv. apply Permutation_app_comm. Qed.

Lemma refuse_good o k w t c : good c -> calling c !! k = Some (Info o w t) -> good (refuse o (set_calling (delete k (calling c)) c)).
Proof.
  intros [] Hk. pose proof (queued_perm _ _ (delete_Permutation _ _ _ Hk)) as Hp. change (queued (Info o w t :: delete k (calling c))) with (o :: queued (delete k (calling c))) in Hp.
  rewrite Hp in g_usable0, g_distinct0. split; try done; cbn.
  - rewrite <- Permutation_middle in g_usable0. by apply Forall_cons in g_usable0 as [_ ?].
  - apply Forall_app. split; [done|]. apply Forall_singleton. rewrite <- Permutation_middle in g_usable0. by apply Forall_cons in g_usable0 as [[? _] _].
  - rewrite <- !app_assoc. done.
Qed.

Lemma accept_good o k w t c : good c -> calling c !! k = Some (Info o w t) -> expired c = false ->
  good (set_queue (requests_queue c ++ [Info o w t]) (accept o (set_calling (delete k (calling c)) c))).
Proof.
  intros [] Hk He. pose proof (queued_perm _ _ (delete_Permutation _ _ _ Hk)) as Hp. change (queued (Info o w t :: delete k (calling c))) with (o :: queued (delete k (calling c))) in Hp.
  rewrite Hp in g_usable0, g_distinct0. split; try done; cbn.
  - rewrite <- app_assoc. done.
  - rewrite <- app_assoc. cbn. rewrite (app_assoc (accepted c)), <- Permutation_middle, <- app_assoc in g_distinct0. by rewrite <- Permutation_middle.
  - unfold pending in *. cbn. rewrite queued_app, g_account0. change (queued [Info o w t]) with [o]. rewrite <- (Permutation_cons_append (_ ++ _)), <- (app_assoc (queued _) [o]). cbn [app]. by rewrite (app_assoc (map _ _) _ (o :: _)), <- Permutation_middle, <- app_assoc.
  - unfold threads_ok in *. cbn. destruct (finalizer c); try done. destruct g_threads0 as (_ & E & _). congruence.
  - destruct g_sent0 as (mid & Hs & Hm). exists mid. split; [|done]. rewrite queued_app, Hs. by rewrite <- !app_assoc.
Qed.

Lemma push_call_good k c c' : good c -> push_call k c = Some c' -> good c'.
Proof.
  intros H Hc. unfold push_call in Hc. destruct (calling c !! k) as [[|o w t]|] eqn:Hk; try done. cbn [mbind option_bind] in Hc. injection Hc as <-.
  destruct (expired c || _) eqn:He; [apply finalize_good; by eapply refuse_good|]. cbn in He. apply orb_false_iff in He as [He _]. by apply (accept_good o k w t).
Qed.

(** *** The sending thread *)

Ltac threads := unfold threads_ok, sender_done, receiver_done in *; cbn in *; intuition (auto; congruence).

Lemma set_sender_threads p c : threads_ok c -> sender c <> SFinalizing -> p <> SFinalizing -> (sender c = SExited -> p = SExited) -> threads_ok (set_sender p c).
Proof. intros H H1 H2 H3. unfold threads_ok in *. cbn. destruct (finalizer c); threads. Qed.

(** A change of phases alone *)
Lemma set_sender_good p c : good c -> sender c <> SFinalizing -> p <> SFinalizing -> (sender c = SExited -> p = SExited) -> sender_ids p = sender_ids (sender c) ->
  (forall mid, held (sender c) mid -> held p mid) -> good (set_sender p c).
Proof.
  intros [] Hf Hp He Hi Hh. split; try done; cbn.
  - unfold pending in *. cbn. by rewrite Hi.
  - by apply set_sender_threads.
  - destruct g_sent0 as (mid & Hs & Hm). exists mid. split; [done|]. by apply Hh.
Qed.

Lemma sender_fails_good c : good c -> sender c = SLoop \/ (exists i, sender c = SSending i) -> good (sender_fails c).
Proof.
  intros H Hs. assert (Hi : sender_ids (sender c) = []) by (by destruct Hs as [->|[i ->]]). assert (Hf : sender c <> SFinalizing /\ sender c <> SExited) by (by destruct Hs as [->|[i ->]]).
  unfold sender_fails. destruct (finalization_started c) eqn:Hst; [apply set_sender_good; rewrite ?Hi; tauto || done|]. destruct (not_started c (g_threads c H) Hst) as [_ Hr]. destruct H. split; try done; cbn.
  - unfold pending in *. cbn. by rewrite Hi in g_account0.
  - split; [done|]. split; [by right|]. by split.
  - destruct g_sent0 as (mid & Hm & _). by exists mid.
  - intros o e Ho. destruct (g_finished0 o e Ho) as [H' _]. unfold threads_ok in g_threads0. rewrite Hst in g_threads0. destruct (finalizer c); try done; by destruct g_threads0.
Qed.

Lemma heartbeat_good t c : good c -> good (set_prev_heartbeat_time t c).
Proof. intros []. by split. Qed.

Lemma put_output_good m c : good c -> good (put_output m c).
Proof. intros []. split; try done. cbn. rewrite map_app, concat_app, g_output0. cbn. by rewrite app_nil_r. Qed.

Lemma send_turn_good now later popped delivered c c' : good c -> send_turn now later popped delivered c = Some c' -> good c'.
Proof.
  intros H Hc. unfold send_turn in Hc. destruct (sender c) eqn:Es; try done. destruct (expired c) eqn:Ee.
  { injection Hc as <-. apply set_sender_good; by rewrite ?Es. }
  destruct (_ <? _).
  - destruct (requests_queue c) as [|i q] eqn:Eq; destruct popped; try done; injection Hc as <-; [done|]. destruct H. split; try done; cbn.
    + unfold pending in *. cbn. rewrite Es, Eq in g_account0. rewrite g_account0. change (queued (i :: q)) with (ids_of i ++ queued q). cbn [sender_ids app]. f_equiv.
      rewrite !app_assoc. do 2 f_equiv. apply Permutation_app_comm.
    + unfold threads_ok in *. cbn. rewrite Es in g_threads0. destruct (finalizer c); threads.
    + destruct g_sent0 as (mid & Hm & Hh). rewrite Es in Hh. cbn in Hh. subst mid. exists (ids_of i). split; [|done]. by rewrite Hm, Eq.
  - destruct delivered; injection Hc as <-; [by apply put_output_good, heartbeat_good|]. apply sender_fails_good; [by apply heartbeat_good|]. by left.
Qed.

Lemma pending_distinct c : good c -> NoDup (pending c).
Proof. intros []. apply NoDup_app in g_distinct0 as (H & _ & _). rewrite g_account0 in H. by apply NoDup_app in H as (_ & _ & ?). Qed.

Lemma pending_usable c o : good c -> o ∈ pending c -> usable (length (objects c)) o.
Proof.
  intros [] Ho. apply (proj1 (Forall_forall _ _) g_usable0). apply elem_of_app. left. rewrite g_account0. apply elem_of_app. by right.
Qed.

Lemma registered_elem x o w t m : (x, Info o w t) ∈ m -> o ∈ registered m.
Proof. intros H. unfold registered. apply list_elem_of_In, in_concat. exists [o]. split; [|by left]. apply list_elem_of_In, list_elem_of_fmap. by exists (x, Info o w t). Qed.

(** The number of a request that was popped is not in use. *)
Lemma popped_fresh o w t c : good c -> Z.of_nat (length (objects c)) <= NUMBERS -> sender c = SPopped (Info o w t) -> xid_of o ∉ map fst (operations c).
Proof.
  intros H Hb Es Hin. apply list_elem_of_fmap in Hin as ([x i] & Hx & Hin). pose proof (proj1 (Forall_forall _ _) (g_operations c H) _ Hin) as (o' & w' & t' & Hi & Hx'). cbn in *. subst x i.
  apply registered_elem in Hin. pose proof (pending_distinct c H) as Hd. unfold pending in Hd. rewrite Es in Hd. cbn [sender_ids ids_of] in Hd.
  assert (usable (length (objects c)) o) as [Ho _]. { apply pending_usable; [done|]. unfold pending. rewrite Es. set_solver. }
  assert (usable (length (objects c)) o') as [Ho' _]. { apply pending_usable; [done|]. unfold pending. set_solver. }
  apply xid_of_inj in Hx' as ->; [|lia..]. apply NoDup_app in Hd as (_ & _ & Hd). apply NoDup_app in Hd as (_ & Hd & _). apply (Hd o'); [by left|]. apply elem_of_app. by left.
Qed.

Lemma set_object_good o ob ob' c : good c -> objects c !! o = Some ob -> o_xid ob' = o_xid ob -> o ∉ map fst (sent c) -> good (set_objects (<[o := ob']> (objects c)) c).
Proof.
  intros [] Ho Hx Hn. split; try done; cbn; rewrite ?length_insert; try done.
  - intros k ob1 [(-> & <- & _)|[_ Hk]]%list_lookup_insert_Some; [rewrite Hx|]; by apply g_xid0.
  - apply Forall_forall. intros [o' m] Hin. destruct (proj1 (Forall_forall _ _) g_messages0 _ Hin) as (ob1 & H1 & H2). exists ob1. split; [|done]. cbn in *.
    rewrite list_lookup_insert_ne; [done|]. intros ->. destruct Hn. apply list_elem_of_fmap. by exists (o', m).
Qed.

(** What the sending thread holds was not sent before. *)
Lemma held_unsent o w t c : good c -> sender c = SPopped (Info o w t) \/ sender c = SSending (Info o w t) ->
  accepted c = map fst (sent c) ++ o :: queued (requests_queue c) /\ o ∉ map fst (sent c).
Proof.
  intros [] Hs. destruct g_sent0 as (mid & Hm & Hh). assert (mid = [o]) as -> by (by destruct Hs as [Hs|Hs]; rewrite Hs in Hh). split; [done|].
  apply NoDup_app in g_distinct0 as (Hd & _ & _). rewrite Hm in Hd. apply NoDup_app in Hd as (_ & Hd & _). intros Hin. apply (Hd o Hin). by left.
Qed.

Lemma register_good c c' : good c -> Z.of_nat (length (objects c)) <= NUMBERS -> register c = Some c' -> good c'.
Proof.
  intros H Hb Hc. unfold register in Hc. destruct (sender c) as [|[|o w t]| | |] eqn:Es; try done.
  { injection Hc as <-. apply set_sender_good; by rewrite ?Es. }
  destruct (objects c !! o) as [ob|] eqn:Eo; [|done]. cbn [mbind option_bind] in Hc.
  pose proof (g_xid c H _ _ Eo) as Hx. pose proof (popped_fresh o w t c H Hb Es) as Hf.
  assert (usable (length (objects c)) o) as (_ & _ & Hu). { apply pending_usable; [done|]. unfold pending. rewrite Es. set_solver. }
  rewrite decide_True in Hc by congruence. rewrite Hx in Hc. set (c1 := set_operations _ _) in Hc.
  destruct (held_unsent o w t c H (or_introl Es)) as [_ Hu1].
  assert (H1 : good c1).
  { pose proof (map_set_fresh Z.ltb (xid_of o) (Info o w t) (operations c) Hf) as Hp. destruct H. split; try done; cbn.
    - unfold pending in *. cbn. rewrite (registered_perm _ _ Hp). rewrite Es in g_account0. rewrite g_account0. change (registered ((xid_of o, Info o w t) :: operations c)) with (o :: registered (operations c)). done.
    - rewrite Hp. cbn. by apply NoDup_cons.
    - rewrite Hp. apply Forall_cons. split; [by exists o, w, t|done].
    - unfold threads_ok in *. cbn. rewrite Es in g_threads0. destruct (finalizer c); threads.
    - destruct g_sent0 as (mid & Hm & Hh). exists mid. split; [done|]. by rewrite Es in Hh. }
  injection Hc as <-. destruct w; [|done]. by apply (set_object_good o ob _ c1).
Qed.

Lemma sending_early o e i c : good c -> sender c = SSending i -> (o, Unfinished e) ∉ calls c.
Proof. intros [] Hs Ho. destruct (g_finished0 o e Ho) as [H _]. unfold threads_ok in g_threads0. rewrite Hs in g_threads0. destruct (finalizer c); try done; threads. Qed.

Lemma sent_good o w t ob body p c : good c -> sender c = SSending (Info o w t) -> objects c !! o = Some ob -> p = SLoop \/ p = SExited ->
  good (set_sender p (log_sent (o, mkMessage (o_xid ob) body) (set_objects (<[o := mkObject (o_xid ob) body true]> (objects c)) c))).
Proof.
  intros H Hs Ho Hp. destruct (held_unsent o w t c H (or_intror Hs)) as [Hm Hu].
  pose proof (fun o' e => sending_early o' e _ c H Hs) as Hearly. destruct (set_object_good o ob (mkObject (o_xid ob) body true) c H Ho eq_refl Hu). split; try done; cbn in *.
  - unfold pending in *. cbn in *. rewrite Hs in g_account0. by destruct Hp as [->| ->].
  - assert (sender c <> SFinalizing /\ sender c <> SExited) as [? ?] by (by rewrite Hs). apply (set_sender_threads p c); [apply (g_threads c H)|done| |tauto]. by destruct Hp as [->| ->].
  - exists []. split; [|by destruct Hp as [->| ->]]. rewrite Hm, map_app, <- app_assoc. done.
  - apply Forall_app. split; [done|]. apply Forall_singleton. eexists. cbn. rewrite list_lookup_insert_eq by (by eapply lookup_lt_Some). done.
  - intros o' e H'. by destruct (Hearly o' e).
Qed.

Lemma send_good delivered c c' : good c -> send delivered c = Some c' -> good c'.
Proof.
  intros H Hc. unfold send in Hc. destruct (sender c) as [| |i| |] eqn:Es; try done. destruct (expired c). { injection Hc as <-. apply set_sender_good; by rewrite ?Es. }
  destruct i as [|o w t].
  { destruct delivered; injection Hc as <-; [apply set_sender_good; [by apply put_output_good|..]; cbn; by rewrite ?Es|apply sender_fails_good; [done|]]. right. by eexists. }
  destruct (objects c !! o) as [ob|] eqn:Eo; [|done]. cbn [mbind option_bind] in Hc. injection Hc as <-.
  destruct (held_unsent o w t c H (or_intror Es)) as [_ Hu].
  destruct (addRootPath _ _) as [body [e|]].
  { apply sender_fails_good; [by apply (set_object_good o ob)|]. right. by exists (Info o w t). }
  cbv zeta. set (c1 := log_sent _ _). destruct delivered; cbn [negb].
  - change (good (put_output (mkMessage (o_xid ob) body) (set_sender (if decide (o_xid ob = CLOSE_XID) then SExited else SLoop) c1))). apply put_output_good.
    apply (sent_good o w t ob); [done..|]. case_decide; tauto.
  - replace (sender_fails c1) with (sender_fails (set_sender SLoop c1)) by (unfold sender_fails; cbn; by destruct (finalization_started c)).
    apply sender_fails_good; [|by left]. apply (sent_good o w t ob); [done..|]. by left.
Qed.

(** *** The receiving thread *)

Lemma set_watches_good m c : good c -> good (set_watches m c).
Proof. intros []. by split. Qed.
Lemma log_watch_calls_good l c : good c -> good (log_watch_calls l c).
Proof. intros []. by split. Qed.
Lemma set_input_good s c : good c -> good (set_input s c).
Proof. intros []. by split. Qed.
Lemma set_waited_good t c : good c -> good (set_waited t c).
Proof. intros []. by split. Qed.
Lemma set_receiver_threads p c : threads_ok c -> receiver c <> RFinalizing -> p <> RFinalizing -> (receiver c = RExited -> p = RExited) -> threads_ok (set_receiver p c).
Proof. intros H H1 H2 H3. unfold threads_ok in *. cbn. destruct (finalizer c); threads. Qed.

Lemma set_receiver_good p c : good c -> receiver c <> RFinalizing -> p <> RFinalizing -> (receiver c = RExited -> p = RExited) -> receiver_ids p = receiver_ids (receiver c) -> good (set_receiver p c).
Proof. intros [] Hf Hp He Hi. split; try done; [|by apply set_receiver_threads]. unfold pending in *. cbn. by rewrite Hi. Qed.

Create HintDb good.
#[local] Hint Resolve set_watches_good log_watch_calls_good set_input_good set_waited_good put_output_good : good.

Lemma receiver_fails_good c : good c -> receiver c = RLoop \/ (exists b, receiver c = RPolling b) -> good (receiver_fails c).
Proof.
  intros H Hr. assert (Hi : receiver_ids (receiver c) = []) by (by destruct Hr as [->|[i ->]]). assert (Hf : receiver c <> RFinalizing /\ receiver c <> RExited) by (by destruct Hr as [->|[i ->]]).
  unfold receiver_fails. destruct (finalization_started c) eqn:Hst; [apply set_receiver_good; rewrite ?Hi; tauto || done|]. destruct (not_started c (g_threads c H) Hst) as [Hs _]. destruct H. split; try done; cbn.
  - unfold pending in *. cbn. by rewrite Hi in g_account0.
  - intros o e Ho. destruct (g_finished0 o e Ho) as [H' _]. unfold threads_ok in g_threads0. rewrite Hst in g_threads0. destruct (finalizer c); try done; by destruct g_threads0.
Qed.

Lemma receive_wait_good now c c' : good c -> receive_wait now c = Some c' -> good c'.
Proof.
  intros H Hc. unfold receive_wait in Hc. destruct (receiver c) eqn:Er; try done. injection Hc as <-. destruct (expired c); [apply set_receiver_good; by rewrite ?Er|].
  destruct (operations c) as [|[x [|o w t]] m]; [apply set_receiver_good; by rewrite ?Er..|]. destruct (_ <? _); [|apply set_receiver_good; by rewrite ?Er]. apply receiver_fails_good; [done|by left].
Qed.

Lemma receive_head_good c : good c -> (exists b, receiver c = RPolling b) -> good (receive_head c).
Proof.
  intros H Hr. assert (Hfail : forall s, good (receiver_fails (set_input s c))) by (intros s; apply receiver_fails_good; [by auto with good|by right]).
  assert (Hfail' : good (receiver_fails c)) by (apply receiver_fails_good; [done|by right]). destruct Hr as [b Er].
  assert (Htake : forall s h, receiver_ids (RTaken h) = [] -> good (set_receiver (RTaken h) (set_input s c))).
  { intros s h Hh. apply set_receiver_good; [by auto with good|..]; cbn -[receiver_ids]; by rewrite ?Er. }
  unfold receive_head. destruct (zk_read_int32 (input c)) as [[len buf]|]; [|done]. destruct ((x ← zk_read_int32; _) buf) as [[[x err] rest]|]; [|done]. cbv zeta.
  case_decide as Hping; [case_decide; [done|by apply Htake]|]. case_decide as Hwatch; [by apply Htake|]. cbn [operations objects set_input].
  destruct (map_find x (operations c)) as [[|o w t]|] eqn:Ef; [done| |done]. destruct (objects c !! o) as [ob|]; [|by apply set_input_good].
  apply map_find_elem in Ef. pose proof (map_erase_elem _ _ _ (g_keys c H) Ef) as Hp. destruct H. split; try done; cbn.
  - unfold pending in *. cbn. rewrite Er in g_account0. rewrite g_account0, (registered_perm _ _ Hp). change (registered ((x, Info o w t) :: map_erase x (operations c))) with (o :: registered (map_erase x (operations c))).
    cbn [receiver_ids]. rewrite app_nil_r. do 3 f_equiv. by rewrite Permutation_cons_append.
  - by apply map_erase_keys.
  - rewrite Hp in g_operations0. by apply Forall_cons in g_operations0 as [_ ?].
  - unfold threads_ok in *. cbn. rewrite Er in g_threads0. destruct (finalizer c); threads.
Qed.

Lemma receive_poll_good ready c c' : good c -> receive_poll ready c = Some c' -> good c'.
Proof.
  intros H Hc. unfold receive_poll in Hc. destruct (receiver c) as [|earliest| | |] eqn:Er; try done. injection Hc as <-. destruct ready.
  - destruct (expired c); [apply set_receiver_good; by rewrite ?Er|]. apply receive_head_good; [done|by eexists].
  - destruct earliest; [apply receiver_fails_good; [done|]; right; by eexists|]. destruct (_ <=? _); [apply receiver_fails_good; [by auto with good|]; right; by eexists|].
    apply set_receiver_good; [by auto with good|..]; cbn -[receiver_ids]; by rewrite ?Er.
Qed.

Lemma add_watch_good i error c : good c -> good (add_watch i error c).1 /\ receiver (add_watch i error c).1 = receiver c.
Proof. intros H. unfold add_watch. repeat case_match; cbn; auto with good. Qed.

(** After its callback a request is no longer held. *)
Lemma call_back_good h a e failing c : good c -> receiver c = RTaken h -> (forall err, a <> Unfinished err) -> good (set_receiver RLoop (call_back h a e failing c).1).
Proof.
  intros H Er Ha. unfold call_back. destruct (h_subject h) as [i| |] eqn:Es; cbn [fst].
  - destruct H. split; try done; cbn.
    + unfold pending in *. cbn. rewrite Er in g_account0. cbn [receiver_ids] in *. rewrite Es in g_account0. rewrite g_account0, map_app, map_map. cbn. rewrite map_id, app_nil_r, <- app_assoc. f_equiv.
      by rewrite (Permutation_app_comm (ids_of i)), <- !app_assoc.
    + apply (set_receiver_threads RLoop c); by rewrite ?Er.
    + intros o err [Ho|Ho]%elem_of_app; [by apply g_finished0|]. apply list_elem_of_fmap in Ho as (o' & Ho & _). destruct (Ha err). congruence.
  - assert (Hids : receiver_ids (RTaken h) = []) by (cbn; by rewrite Es). assert (receiver (call_watches e failing c).1 = receiver c) as Er' by (unfold call_watches; by repeat case_match).
    apply set_receiver_good; [unfold call_watches; repeat case_match; cbn; by auto with good|..]; rewrite ?Er', ?Er; done.
  - assert (Hids : receiver_ids (RTaken h) = []) by (cbn; by rewrite Es). by apply set_receiver_good; rewrite ?Er.
Qed.

Lemma receive_body_good failing c c' : good c -> receive_body failing c = Some c' -> good c'.
Proof.
  intros H Hc. unfold receive_body in Hc. destruct (receiver c) as [| |h| |] eqn:Er; try done. cbv zeta in Hc.
  assert (Hb : forall c1 a e, good c1 -> receiver c1 = RTaken h -> (forall err, a <> Unfinished err) -> good (receiver_fails (call_back h a e failing c1).1)).
  { intros c1 a e H1 H2 H3. set (c2 := (call_back _ _ _ _ _).1). replace (receiver_fails c2) with (receiver_fails (set_receiver RLoop c2)) by (unfold receiver_fails; cbn; by destruct (finalization_started c2)).
    apply receiver_fails_good; [by apply call_back_good|by left]. }
  injection Hc as <-. destruct (read_response h c) as [[[error b] rest]|]; [|by apply Hb].
  destruct (add_watch_good (h_subject h) error c H) as [H1 Hr1]. rewrite Er in Hr1. destruct (add_watch (h_subject h) error c) as [c1 [err|]]; cbn [fst] in *; [by apply Hb|]. case_decide; [by apply Hb|].
  pose proof (Hb (set_input rest c1) (Received error b) (event_of error b) (set_input_good _ _ H1) Hr1) as Hthrow. pose proof (call_back_good h (Received error b) (event_of error b) failing (set_input rest c1) (set_input_good _ _ H1) Hr1) as Hok.
  destruct (call_back _ _ _ _ _) as [c2 [|]]; cbn [fst] in *; [by apply Hthrow|]. apply set_waited_good. by apply Hok.
Qed.

(** *** The end of a session *)

Lemma finalize_moves p c c' : good c -> c' = set_finalizer p c \/ c' = set_finalizer p (set_expired true c) -> threads_ok c' -> calling_back p = calling_back (finalizer c) -> good c'.
Proof. intros [] Hc Ht Hp. destruct Hc as [-> | ->]; split; try done; cbn; by rewrite Hp. Qed.

Lemma finalize_close_good er c : good c -> finalizer c = FClose er -> good (set_finalizer (FJoinSender er) (set_queue (requests_queue c ++ [CloseInfo]) c)).
Proof.
  intros [] Hf. assert (Hq : queued (requests_queue c ++ [CloseInfo]) = queued (requests_queue c)) by (rewrite queued_app; apply app_nil_r). split; try done; cbn.
  - unfold pending in *. cbn. by rewrite Hq.
  - unfold threads_ok in *. cbn. by rewrite Hf in g_threads0.
  - by rewrite Hq.
  - intros o e Ho. destruct (g_finished0 o e Ho) as [H _]. by rewrite Hf in H.
Qed.

Lemma map_fst_unfinished os l : map fst (map (unfinished os) l) = l.
Proof. rewrite map_map. cbn. apply map_id. Qed.

Lemma finalize_operations_good c : good c -> finalizer c = FOperations ->
  good (set_finalizer FWatches (set_operations [] (log_calls (map (unfinished (objects c)) (registered (operations c))) c))).
Proof.
  intros [] Hf. split; try done; cbn.
  - unfold pending in *. cbn. rewrite map_app, map_fst_unfinished, g_account0, <- app_assoc. f_equiv. change (registered []) with (@nil nat). cbn [app]. rewrite (app_assoc (queued _)), Permutation_app_swap_app. by rewrite <- app_assoc.
  - apply NoDup_nil_2.
  - unfold threads_ok in *. cbn. rewrite Hf in g_threads0. threads.
  - intros o e [Ho|Ho]%elem_of_app. { destruct (g_finished0 o e Ho) as [H _]. by rewrite Hf in H. }
    split; [done|]. intros -> Hin. apply list_elem_of_fmap in Ho as (o' & [= -> He] & _). apply list_elem_of_fmap in Hin as (p & -> & Hin).
    destruct (proj1 (Forall_forall _ _) g_messages0 _ Hin) as (ob & Hob & Hps & _). rewrite Hob in He. cbn in He. by rewrite Hps in He.
Qed.

Lemma finalize_drain_good i q c : good c -> finalizer c = FDrain -> requests_queue c = i :: q -> good (set_queue q (log_calls (map (fun o => (o, Unfinished Err.ZSESSIONEXPIRED)) (ids_of i)) c)).
Proof.
  intros [] Hf Hq. assert (Hq' : queued (requests_queue c) = ids_of i ++ queued q) by (by rewrite Hq). destruct g_sent0 as (mid & Hm & Hh). unfold threads_ok in g_threads0. rewrite Hf in g_threads0. split; try done; cbn.
  - unfold pending in *. cbn. rewrite map_app, map_map, map_id. rewrite Hq' in g_account0. by rewrite g_account0, <- !app_assoc.
  - unfold threads_ok in *. cbn. by rewrite Hf.
  - exists (mid ++ ids_of i). split; [by rewrite Hm, Hq', <- !app_assoc|]. destruct g_threads0 as (_ & _ & [-> | ->] & _); done.
  - rewrite Hf. intros o e [Ho|Ho]%elem_of_app. { destruct (g_finished0 o e Ho) as [_ H]. done. }
    split; [done|]. intros _ Hin. apply list_elem_of_fmap in Ho as (o' & [= -> He] & Ho). rewrite Hm, Hq' in g_distinct0. apply NoDup_app in g_distinct0 as (Hd & _ & _).
    apply NoDup_app in Hd as (_ & Hd & _). apply (Hd o' Hin). apply elem_of_app. right. apply elem_of_app. by left.
Qed.

Lemma finalize_done_good c : good c -> finalizer c = FDrain -> requests_queue c = [] -> good (thread_ends (set_finalizer FDone c)).
Proof.
  intros [] Hf Hq. unfold threads_ok in g_threads0. rewrite Hf in g_threads0. destruct g_threads0 as (H1 & H2 & H3 & H4 & H5). destruct g_sent0 as (mid & Hm & _). rewrite Hf in g_finished0.
  assert (Hs : sender_ids (sender c) = []) by (by destruct H3 as [-> | ->]). assert (Hr : receiver_ids (receiver c) = []) by (by destruct H4 as [-> | ->]). unfold pending in g_account0. rewrite Hs, Hr in g_account0.
  unfold thread_ends. cbn [sender set_finalizer]. destruct H3 as [E3|E3], H4 as [E4|E4]; rewrite E3; cbn [receiver set_sender set_finalizer]; rewrite E4; (split; try done; cbn; unfold pending; cbn; rewrite ?E3, ?E4; try done); by exists mid.
Qed.

Lemma finalize_step_good c c' : good c -> finalize_step c = Some c' -> good c'.
Proof.
  intros H Hc. pose proof (g_threads c H) as Ht. unfold finalize_step in Hc. unfold threads_ok in Ht. destruct (finalizer c) as [|er|er|er| | | | |] eqn:Hf; try done.
  - injection Hc as <-. case_decide; [|by apply finalize_close_good]. eapply finalize_moves; [done|by right|done|by rewrite Hf].
  - destruct (sender c) eqn:Es; try done. injection Hc as <-. eapply finalize_moves; [done|by left| |by rewrite Hf]. unfold threads_ok. cbn. rewrite Es. threads.
  - injection Hc as <-. eapply finalize_moves; [done|by right| |rewrite Hf; by destruct er]. unfold threads_ok. cbn. destruct er; threads.
  - destruct (receiver c) eqn:Er; try done. injection Hc as <-. eapply finalize_moves; [done|by left| |by rewrite Hf]. unfold threads_ok. cbn. rewrite Er. threads.
  - injection Hc as <-. by apply finalize_operations_good.
  - injection Hc as <-. apply (finalize_moves FDrain (set_watches [] (log_watch_calls (map (fun o => (o, expired_event)) (concat (map snd (watches c)))) c))); [by auto with good|by left|done|]. cbn. by rewrite Hf.
  - destruct (requests_queue c) as [|i q] eqn:Hq; injection Hc as <-; [by apply finalize_done_good|]. pose proof (finalize_drain_good i q c H Hf Hq) as H1. destruct i as [|o [] t]; [done|by apply log_watch_calls_good|done].
Qed.

(** *** Runs *)

Lemma step_good c e c' : good c -> Z.of_nat (length (objects c)) <= NUMBERS -> step c e = Some c' -> good c'.
Proof.
  intros H Hb. destruct e; cbn [step]; intros Hc; [injection Hc as <-; by apply begin_call_good|by eapply push_call_good|injection Hc as <-; by apply finalize_good|by eapply send_turn_good|by eapply register_good|
    by eapply send_good|by eapply receive_wait_good|by eapply receive_poll_good|by eapply receive_body_good|by eapply finalize_step_good].
Qed.

Lemma finalize_objects p c : objects (finalize p c) = objects c.
Proof. unfold finalize. by destruct (finalization_started c). Qed.
Lemma sender_fails_objects c : objects (sender_fails c) = objects c.
Proof. unfold sender_fails. by destruct (finalization_started c). Qed.
Lemma receiver_fails_objects c : objects (receiver_fails c) = objects c.
Proof. unfold receiver_fails. by destruct (finalization_started c). Qed.
Lemma receive_head_objects c : objects (receive_head c) = objects c.
Proof. unfold receive_head. repeat case_match; cbv zeta; repeat case_match; cbn; by rewrite ?receiver_fails_objects. Qed.
Lemma add_watch_objects i error c : objects (add_watch i error c).1 = objects c.
Proof. unfold add_watch. by repeat case_match. Qed.
Lemma call_back_objects h a e failing c : objects (call_back h a e failing c).1 = objects c.
Proof. unfold call_back, call_watches. by repeat case_match. Qed.
Lemma receive_body_objects failing c c' : receive_body failing c = Some c' -> objects c' = objects c.
Proof.
  unfold receive_body. destruct (receiver c) as [| |h| |]; try done. cbv zeta. intros [= <-]. destruct (read_response h c) as [[[error b] rest]|]; [|by rewrite receiver_fails_objects, call_back_objects].
  pose proof (add_watch_objects (h_subject h) error c) as Hw. destruct (add_watch _ _ _) as [c1 [e|]]; cbn in Hw; [by rewrite receiver_fails_objects, call_back_objects|]. case_decide; [by rewrite receiver_fails_objects, call_back_objects|].
  pose proof (call_back_objects h (Received error b) (event_of error b) failing (set_input rest c1)) as Hb. destruct (call_back _ _ _ _ _) as [c2 []]; cbn in *; rewrite ?receiver_fails_objects; cbn; congruence.
Qed.

Lemma step_objects c e c' : step c e = Some c' -> (length (objects c) <= length (objects c'))%nat.
Proof.
  destruct e; cbn [step]; intros Hc; try (injection Hc as <-).
  - unfold begin_call. repeat case_match; rewrite ?finalize_objects; cbn; rewrite ?length_app; lia.
  - unfold push_call in Hc. destruct (calling c !! k) as [[|o w t]|]; try done. injection Hc as <-. case_match; rewrite ?finalize_objects; cbn; lia.
  - by rewrite finalize_objects.
  - unfold send_turn in Hc. repeat case_match; try done; injection Hc as <-; rewrite ?sender_fails_objects; done.
  - unfold register in Hc. destruct (sender c) as [|[|o w t]| | |]; try done; [by injection Hc as <-|]. destruct (objects c !! o) as [ob|]; [|done]. injection Hc as <-. repeat case_match; cbn; rewrite ?length_insert; lia.
  - unfold send in Hc. destruct (sender c) as [| |i| |]; try done. destruct (expired c); [by injection Hc as <-|]. destruct i as [|o w t]; [injection Hc as <-; case_match; by rewrite ?sender_fails_objects|].
    destruct (objects c !! o) as [ob|]; [|done]. injection Hc as <-. repeat case_match; rewrite ?sender_fails_objects; cbn; rewrite ?length_insert; lia.
  - unfold receive_wait in Hc. repeat case_match; try done; injection Hc as <-; rewrite ?receiver_fails_objects; done.
  - unfold receive_poll in Hc. repeat case_match; try done; injection Hc as <-; rewrite ?receiver_fails_objects, ?receive_head_objects; done.
  - by rewrite (receive_body_objects _ _ _ Hc).
  - unfold finalize_step, thread_ends in Hc. repeat case_match; try done; injection Hc as <-; done.
Qed.

Lemma run_objects es c c' : run es c = Some c' -> (length (objects c) <= length (objects c'))%nat.
Proof.
  revert c. induction es as [|e es IH]; cbn [run]; intros c; [by intros [= <-]|]. destruct (step c e) as [c1|] eqn:E; [|done]. cbn [mbind option_bind]. intros H. apply step_objects in E. apply IH in H. lia.
Qed.

Lemma client_run_good es c c' : good c -> run es c = Some c' -> Z.of_nat (length (objects c')) <= NUMBERS -> good c'.
Proof.
  revert c. induction es as [|e es IH]; cbn [run]; intros c Hc; [by intros [= <-]|]. destruct (step c e) as [c1|] eqn:E; [|done]. cbn [mbind option_bind]. intros H Hb. pose proof (run_objects _ _ _ H). pose proof (step_objects _ _ _ E).
  apply (IH c1); [|done..]. eapply step_good; [done| |done]. lia.
Qed.

(** C21: Whatever the threads, the server and the network do: no callback is called twice, a call that throws is never called back, and when the session has ended every call that
    returned has been called back, once.  The requests are sent in the order of the queue, each at most once and under numbers of their own; and one whose
    callback hears at the end that the session expired was never handed to the socket.  The bytes sent are the requests, heartbeats and the request to close, one after another.  At most [2 ^ 32] calls are made, as numbers have 32 bits. *)
Theorem callbacks_once s now buf es c : run es (opened s now buf) = Some c -> Z.of_nat (length (objects c)) <= NUMBERS ->
  NoDup (map fst (calls c)) /\ (forall o, o ∈ map fst (calls c) -> o ∈ accepted c /\ o ∉ refused c) /\
  (forall o, o ∈ accepted c -> o ∈ map fst (calls c) \/ o ∈ pending c) /\ (finalizer c = FDone -> map fst (calls c) ≡ₚ accepted c) /\
  map fst (sent c) `prefix_of` accepted c /\ NoDup (map (xid ∘ snd) (sent c)) /\
  (forall o, (o, Unfinished Err.ZSESSIONEXPIRED) ∈ calls c -> o ∉ map fst (sent c)) /\ output c = concat (map write_message (written c)).
Proof.
  intros Hr Hb. pose proof (client_run_good _ _ _ (client_opened_good s now buf) Hr Hb) as H. destruct H. pose proof g_distinct0 as Hd. apply NoDup_app in Hd as (Hd & Hdisj & _). destruct g_sent0 as (mid & Hm & _).
  split; [rewrite g_account0 in Hd; by apply NoDup_app in Hd as (? & _ & _)|]. split.
  { intros o Ho. assert (Ha : o ∈ accepted c) by (rewrite g_account0; apply elem_of_app; by left). split; [done|]. intros Hf. apply (Hdisj o Ha). apply elem_of_app. by left. }
  split; [intros o Ho; rewrite g_account0 in Ho; by apply elem_of_app in Ho|]. split.
  { intros Hf. rewrite g_account0. unfold threads_ok in g_threads0. rewrite Hf in g_threads0. destruct g_threads0 as (_ & _ & H3 & H4 & H5 & H6). unfold pending. rewrite H3, H4, H5, H6. by rewrite app_nil_r. }
  split; [by eexists|]. split; [|split; [intros o Ho; by apply (g_finished0 o _ Ho)|done]].
  assert (Hs : NoDup (map fst (sent c))) by (rewrite Hm in Hd; by apply NoDup_app in Hd as (? & _ & _)). clear -g_messages0 g_xid0 Hs Hb.
  induction (sent c) as [|[o m] l IH]; [apply NoDup_nil_2|]. cbn [map fst] in *. apply NoDup_cons in Hs as [Hn Hs]. apply Forall_cons in g_messages0 as [(ob & Ho & _ & Hm) Hl]. cbn in *. subst m.
  apply NoDup_cons. split; [|by apply IH]. intros Hin. apply list_elem_of_fmap in Hin as ([o' m'] & Hx & Hin). destruct (proj1 (Forall_forall _ _) Hl _ Hin) as (ob' & Ho' & _ & Hm'). cbn in *. subst m'. cbn in Hx.
  rewrite (g_xid0 _ _ Ho), (g_xid0 _ _ Ho') in Hx. apply lookup_lt_Some in Ho, Ho'. apply xid_of_inj in Hx; [|lia..]. subst o'. destruct Hn. apply list_elem_of_fmap. by exists (o, mkMessage (o_xid ob') (o_body ob')).
Qed.

(** ** Responses *)

(** What a client that expects [template] makes of a response: its body, or a fresh one with its error. *)
Definition readable (template : zk_response_body) (r : zk_response) (error : Z) (b : zk_response_body) : Prop :=
  if decide (r_error r = Err.ZOK) then exists w, write_body Err.ZOK (r_body r) = Ok w /\ forall rest, read_body Err.ZOK template (w ++ rest) = Ok (error, b, rest)
  else error = r_error r /\ b = template.

Lemma fits_readable template r : r_error r = Err.ZOK -> fits template (r_body r) -> readable template r Err.ZOK (r_body r).
Proof. intros He Hf. unfold readable. rewrite decide_True by done. by apply read_body_fits. Qed.

Lemma multi_readable requests r rs : r_error r = Err.ZOK -> r_body r = MultiResponse rs -> Forall2 answers (map (fun r => (Err.ZOK, makeResponse r)) requests) rs ->
  readable (makeResponse (MultiRequest requests)) r (first_error rs) (r_body r).
Proof. intros He Hb HF. unfold readable. rewrite decide_True by done. rewrite Hb. by apply multi_response_round_trip. Qed.

Definition sendable_response (r : zk_response) : Prop :=
  in_signed 32 (r_xid r) = true /\ in_signed 64 (r_zxid r) = true /\ in_signed 32 (r_error r) = true /\ forall t s p, r_body r <> WatchResponse t s p.

(** What is written of a response is read back in two parts, and has the length it says. *)
Lemma write_response_parts r bytes template error b : sendable_response r -> readable template r error b -> write_response r = Ok bytes -> Z.of_nat (length bytes) < 2 ^ 31 ->
  exists w len, (forall rest, zk_read_int32 (bytes ++ rest) = Ok (len, (zk_write_int32 (r_xid r) ++ zk_write_int64 (r_zxid r) ++ zk_write_int32 (r_error r)) ++ w ++ rest)) /\
    len = Z.of_nat (length ((zk_write_int32 (r_xid r) ++ zk_write_int64 (r_zxid r) ++ zk_write_int32 (r_error r)) ++ w)) /\ len < 2 ^ 31 /\
    (if decide (r_error r = Err.ZOK) then forall rest, read_body Err.ZOK template (w ++ rest) = Ok (error, b, rest) else w = [] /\ error = r_error r /\ b = template).
Proof.
  intros (Hx & Hz & He & Hw) Hread Hwrite Hlen. unfold write_response in Hwrite. cbv zeta in Hwrite.
  assert (Hw' : exists w, (if decide (r_error r = Err.ZOK) then write_body (r_error r) (r_body r) else Ok []) = Ok w /\
    (if decide (r_error r = Err.ZOK) then forall rest, read_body Err.ZOK template (w ++ rest) = Ok (error, b, rest) else w = [] /\ error = r_error r /\ b = template)).
  { unfold readable in Hread. destruct (decide (r_error r = Err.ZOK)) as [E|E]; [|by exists []]. destruct Hread as (w & H1 & H2). exists w. by rewrite E. }
  destruct Hw' as (w & Hw1 & Hw2). rewrite Hw1 in Hwrite. cbn [mbind result_bind] in Hwrite. set (p := zk_write_int32 (r_xid r) ++ _ ++ _ ++ w) in Hwrite.
  assert (Hb : bytes = zk_write_int32 (Z.of_nat (length p)) ++ p) by (destruct (r_body r) as [| |ty st pa| | | | | | | | | | | |]; try (by injection Hwrite as <-); by destruct (Hw ty st pa)).
  assert (Hp : Z.of_nat (length p) < 2 ^ 31) by (rewrite Hb, length_app in Hlen; lia). exists w, (Z.of_nat (length p)).
  assert (Ep : p = (zk_write_int32 (r_xid r) ++ zk_write_int64 (r_zxid r) ++ zk_write_int32 (r_error r)) ++ w) by (unfold p; by rewrite <- !app_assoc).
  split; [|split; [by rewrite Ep|done]]. intros rest. rewrite Hb, <- app_assoc. rewrite (app_assoc _ w rest), <- Ep. apply reads_int32. unfold in_signed. change (2 ^ (32 - 1)) with (2 ^ 31). lia.
Qed.

(** C37: A response that the server writes for a request that waits, with a body of the kind the request asks for, and from which and from whose request the prefix of the client can be removed (no
    multi request and no root where the prefix is not empty), is given to its callback, without the prefix, with the error of the whole; the client takes exactly its bytes and goes on,
    and the watch of the request is set if the response allows it. *)
Theorem response_delivered c earliest o w t ob r error b b' path bytes rest :
  receiver c = RPolling earliest -> expired c = false -> map_find (r_xid r) (operations c) = Some (Info o w t) -> objects c !! o = Some ob -> 0 <= r_xid r ->
  sendable_response r -> readable (makeResponse (o_body ob)) r error b -> write_response r = Ok bytes -> Z.of_nat (length bytes) < 2 ^ 31 -> input c = bytes ++ rest ->
  (if decide (r_error r = Err.ZOK) then removeRootPath (root_path (config c)) b = Ok b' else b' = b) -> remove_root (root_path (config c)) (getPath (o_body ob)) = Ok path ->
  exists c1 c2, receive_poll true c = Some c1 /\ receive_body None c1 = Some c2 /\ calls c2 = calls c ++ [(o, Received error b')] /\ input c2 = rest /\ receiver c2 = RLoop /\
    operations c2 = map_erase (r_xid r) (operations c) /\
    watches c2 = (if w && adds_watch (o_body ob) error then map_set str_lt path (default [] (map_find path (watches c)) ++ [o]) (watches c) else watches c).
Proof.
  intros Hr He Hf Ho Hx Hs Hread Hwrite Hlen Hin Hroot Hpath. destruct (write_response_parts r bytes _ error b Hs Hread Hwrite Hlen) as (wr & len & H1 & Hl & Hl' & H2). destruct Hs as (Hs1 & Hs2 & Hs3 & _).
  set (hd := zk_write_int32 (r_xid r) ++ zk_write_int64 (r_zxid r) ++ zk_write_int32 (r_error r)) in *.
  assert (Hhd : forall rest', (x ← zk_read_int32; zxid ← zk_read_int64; err ← zk_read_int32; mret (x, err)) (hd ++ rest') = Ok (r_xid r, r_error r, rest')).
  { intros rest'. unfold hd. rewrite <- !app_assoc. unfold mbind, reader_bind. rewrite reads_int32 by done. rewrite reads_int64 by done. by rewrite reads_int32 by done. }
  unfold receive_poll. rewrite Hr, He. unfold receive_head. rewrite Hin, H1, Hhd. cbv zeta. rewrite decide_False by (unfold PING_XID; lia). rewrite decide_False by (unfold Storage.WATCH_XID; lia).
  cbn [operations objects set_input]. rewrite Hf, Ho. eexists. eexists. split; [done|]. unfold receive_body. cbn [receiver set_receiver]. cbv zeta.
  set (h := mkHead _ _ _ _ _). set (c1 := set_receiver _ _).
  assert (Hrr : read_response h c1 = Ok (error, b', rest)).
  { unfold read_response. cbn [h_error h_template h c1 input config set_receiver set_operations set_input]. destruct (decide (r_error r = Err.ZOK)) as [E|E].
    - rewrite decide_False by tauto. rewrite H2. cbn [mbind result_bind]. by rewrite Hroot.
    - rewrite decide_True by done. destruct H2 as (-> & -> & ->). by subst b'. }
  rewrite Hrr. assert (Hlength : h_length h = to_signed 32 (wrap 32 (Z.of_nat (h_before h - length rest)))).
  { cbn [h_length h_before h]. rewrite (app_assoc hd), length_app, Nat.add_sub, <- Hl. unfold wrap, to_signed. change (2 ^ (32 - 1)) with (2 ^ 31). assert (0 <= len) by lia. rewrite Z.mod_small by (change (2 ^ 32) with (2 * 2 ^ 31); lia). by destruct (Z.ltb_spec len (2 ^ 31)); [|lia]. }
  assert (Ha : add_watch (h_subject h) error c1 = (if w && adds_watch (o_body ob) error then set_watches (map_set str_lt path (default [] (map_find path (watches c)) ++ [o]) (watches c)) c1 else c1, None)).
  { cbn [h_subject h]. unfold add_watch. cbn [objects c1 set_receiver set_operations set_input config watches]. rewrite Ho. destruct w; [|done]. cbn [andb]. destruct (adds_watch (o_body ob) error); [|done]. by rewrite Hpath. }
  rewrite Ha, decide_False by (by intros []). split; [reflexivity|]. by destruct (w && adds_watch (o_body ob) error).
Qed.

(** ** The end is reached *)

(** Steps of the threads of the client, as opposed to calls *)
Definition thread_event (e : event) : bool := match e with BeginCall _ _ _ | PushCall _ | UserFinalize => false | _ => true end.

(** How many steps the threads can still take once the session is expired *)
Definition sender_work (p : sender_phase) : nat := match p with SLoop | SSending _ => 1 | SPopped _ => 2 | _ => 0 end.
Definition receiver_work (p : receiver_phase) : nat := match p with RLoop => 1 | RPolling _ | RTaken _ => 2 | _ => 0 end.
Definition finalizer_work (p : finalizer_phase) : nat :=
  match p with FIdle => 0 | FClose _ => 8 | FJoinSender _ => 6 | FExpire _ => 5 | FJoinReceiver => 4 | FOperations => 3 | FWatches => 2 | FDrain => 1 | FDone => 0 end.
Definition work (c : client) : nat := sender_work (sender c) + receiver_work (receiver c) + finalizer_work (finalizer c) + length (requests_queue c).

Lemma expired_started c : good c -> expired c = true -> finalization_started c = true.
Proof. intros H He. pose proof (g_threads c H) as Ht. unfold threads_ok in Ht. destruct (finalizer c); try tauto. destruct Ht as (_ & _ & _ & Ht). congruence. Qed.

Lemma receiver_fails_started c : finalization_started c = true -> receiver_fails c = set_receiver RExited c.
Proof. intros H. unfold receiver_fails. by rewrite H. Qed.

(** What the receiving thread leaves alone *)
Definition same (c c' : client) : Prop :=
  expired c' = expired c /\ finalization_started c' = finalization_started c /\ sender c' = sender c /\ finalizer c' = finalizer c /\ requests_queue c' = requests_queue c.

#[export] Instance same_trans : Transitive same.
Proof. intros c1 c2 c3 (A1 & A2 & A3 & A4 & A5) (B1 & B2 & B3 & B4 & B5). unfold same. by rewrite B1, B2, B3, B4, B5. Qed.

Lemma call_back_same h a e failing c : same c (call_back h a e failing c).1.
Proof. unfold call_back, call_watches. by repeat case_match. Qed.

Lemma add_watch_same i error c : same c (add_watch i error c).1.
Proof. unfold add_watch. by repeat case_match. Qed.

(** Reading the rest of a response *)
Lemma receive_body_same failing c c' : receive_body failing c = Some c' -> finalization_started c = true -> same c c' /\ (receiver c' = RExited \/ receiver c' = RLoop) /\ exists h, receiver c = RTaken h.
Proof.
  intros Hc Hs. unfold receive_body in Hc. destruct (receiver c) as [| |h| |] eqn:Er; try done. cbv zeta in Hc.
  assert (Hb : forall a e c1, same c c1 -> let c2 := receiver_fails (call_back h a e failing c1).1 in same c c2 /\ receiver c2 = RExited).
  { intros a e c1 H1. cbv zeta. pose proof (call_back_same h a e failing c1) as H2. rewrite receiver_fails_started by (destruct H2 as (_ & -> & _), H1 as (_ & -> & _); done). split; [|done]. by transitivity (call_back h a e failing c1).1; [transitivity c1|]. }
  apply and_assoc. split; [|by exists h]. injection Hc as <-.
  assert (Hr : forall a e c1, same c c1 -> same c (receiver_fails (call_back h a e failing c1).1) /\ (receiver (receiver_fails (call_back h a e failing c1).1) = RExited \/ receiver (receiver_fails (call_back h a e failing c1).1) = RLoop)).
  { intros a e c1 H1. destruct (Hb a e c1 H1). by split; [|left]. }
  destruct (read_response h c) as [[[error b] rest]|]; [|by apply Hr]. pose proof (add_watch_same (h_subject h) error c) as W. destruct (add_watch (h_subject h) error c) as [c1 [err|]]; cbn [fst] in *; [by apply Hr|].
  case_decide; [by apply Hr|]. pose proof (Hr (Received error b) (event_of error b) (set_input rest c1) W) as K. pose proof (call_back_same h (Received error b) (event_of error b) failing (set_input rest c1)) as K'.
  destruct (call_back _ _ _ _ _) as [c2 [|]]; cbn [fst] in *; [done|]. split; [|by right]. assert (same c c2) by (by transitivity (set_input rest c1)). done.
Qed.

Lemma finalize_started p c : finalization_started c = true -> finalize p c = c.
Proof. intros H. unfold finalize. by rewrite H. Qed.

(** Calls change nothing, and every step of a thread is one less. *)
Lemma expired_takes_step c e c' : good c -> expired c = true -> step c e = Some c' -> expired c' = true /\ (if thread_event e then work c' < work c else work c' = work c)%nat.
Proof.
  intros H He Hc. pose proof (expired_started c H He) as Hs. destruct e; cbn [step thread_event] in *; try (injection Hc as <-).
  - unfold begin_call. repeat case_match; rewrite ?finalize_started by done; done.
  - unfold push_call in Hc. destruct (calling c !! k) as [[|o w t]|]; try done. cbn [mbind option_bind] in Hc. injection Hc as <-. cbn. rewrite He. cbn. by rewrite finalize_started.
  - by rewrite finalize_started.
  - unfold send_turn in Hc. destruct (sender c) eqn:Es; try done. rewrite He in Hc. injection Hc as <-. split; [done|]. unfold work. cbn. rewrite Es. cbn. lia.
  - unfold register in Hc. destruct (sender c) as [|[|o w t]| | |] eqn:Es; try done; [injection Hc as <-; split; [done|]; unfold work; cbn; rewrite Es; cbn; lia|].
    destruct (objects c !! o) as [ob|]; [|done]. injection Hc as <-. repeat case_match; (split; [done|]); unfold work; cbn; rewrite Es; cbn; lia.
  - unfold send in Hc. destruct (sender c) eqn:Es; try done. rewrite He in Hc. injection Hc as <-. split; [done|]. unfold work. cbn. rewrite Es. cbn. lia.
  - unfold receive_wait in Hc. destruct (receiver c) eqn:Er; try done. rewrite He in Hc. injection Hc as <-. split; [done|]. unfold work. cbn. rewrite Er. cbn. lia.
  - unfold receive_poll in Hc. destruct (receiver c) as [|earliest| | |] eqn:Er; try done. rewrite He in Hc. injection Hc as <-.
    destruct ready, earliest; cbv zeta; rewrite ?receiver_fails_started by done; [..|destruct (_ <=? _); rewrite ?receiver_fails_started by done]; (split; [done|]); unfold work; cbn; rewrite Er; cbn; lia.
  - destruct (receive_body_same _ _ _ Hc Hs) as ((K1 & _ & K3 & K4 & K5) & K6 & h & Er). split; [congruence|]. unfold work. rewrite K3, K4, K5, Er. destruct K6 as [-> | ->]; cbn; lia.
  - pose proof (g_threads c H) as Ht. unfold threads_ok in Ht. unfold finalize_step in Hc. destruct (finalizer c) as [|er|er|er| | | | |] eqn:Hf; try done.
    + injection Hc as <-. case_decide; (split; [done|]); unfold work; cbn; rewrite Hf, ?length_app; cbn; lia.
    + destruct (sender c) eqn:Es; try done. injection Hc as <-. split; [done|]. unfold work. cbn. rewrite Hf. cbn. lia.
    + injection Hc as <-. split; [done|]. unfold work. cbn. rewrite Hf. destruct er; cbn; lia.
    + destruct (receiver c) eqn:Er; try done. injection Hc as <-. split; [done|]. unfold work. cbn. rewrite Hf. cbn. lia.
    + injection Hc as <-. split; [done|]. unfold work. cbn. rewrite Hf. cbn. lia.
    + injection Hc as <-. split; [done|]. unfold work. cbn. rewrite Hf. cbn. lia.
    + destruct (requests_queue c) as [|i q] eqn:Hq; injection Hc as <-.
      * destruct Ht as (_ & _ & Ht1 & Ht2 & _). unfold thread_ends, work. cbn. destruct Ht1 as [E1|E1], Ht2 as [E2|E2]; rewrite E1; cbn; rewrite E2; cbn; rewrite ?E1, ?E2, Hf; cbn; split; try done; lia.
      * destruct i as [|o [] t]; (split; [done|]); unfold work; cbn; rewrite Hf, Hq; cbn; lia.
Qed.

(** Once the session is expired some thread can go on until [finalize] is done. *)
Lemma expired_progress c : good c -> expired c = true -> finalizer c <> FDone -> exists e c', thread_event e = true /\ step c e = Some c'.
Proof.
  intros H He Hd. pose proof (g_threads c H) as Ht. unfold threads_ok in Ht.
  assert (Hsend : sender c <> SFinalizing -> sender c <> SExited -> exists e c', thread_event e = true /\ step c e = Some c').
  { intros H1 H2. destruct (sender c) as [|[|o w t]|i| |] eqn:Es; try done.
    - exists (SendTurn 0 0 true true). eexists. split; [done|]. cbn. unfold send_turn. by rewrite Es, He.
    - exists Register. eexists. split; [done|]. cbn. unfold register. by rewrite Es.
    - assert (usable (length (objects c)) o) as [Ho _]. { apply pending_usable; [done|]. unfold pending. rewrite Es. set_solver. }
      apply lookup_lt_is_Some in Ho as [ob Ho]. exists Register. eexists. split; [done|]. cbn. unfold register. by rewrite Es, Ho.
    - exists (Send true). eexists. split; [done|]. cbn. unfold send. by rewrite Es, He. }
  assert (Hrecv : receiver c <> RFinalizing -> receiver c <> RExited -> exists e c', thread_event e = true /\ step c e = Some c').
  { intros H1 H2. destruct (receiver c) as [|b|h| |] eqn:Er; try done; [exists (ReceiveWait 0)|exists (ReceivePoll true)|exists (ReceiveBody None)]; eexists; (split; [done|]); cbn; unfold receive_wait, receive_poll, receive_body; by rewrite Er. }
  assert (Hfin : forall c', finalize_step c = Some c' -> exists e c', thread_event e = true /\ step c e = Some c') by (intros c' Hc; by exists FinalizeStep, c'). unfold finalize_step in Hfin.
  destruct (finalizer c) as [|er|er|er| | | | |]; try done; try (exact (Hfin _ eq_refl)); [destruct Ht as (_ & _ & _ & Ht); congruence| |].
  - destruct Ht as (_ & Ht & _). destruct (sender c) eqn:Es; first [exact (Hfin _ eq_refl)|by apply Hsend].
  - destruct Ht as (_ & _ & _ & Ht). destruct (receiver c) eqn:Er; first [exact (Hfin _ eq_refl)|by apply Hrecv].
Qed.

(** Before that [finalize] waits for the sending thread only when the request to close is on its way to it, or in its hands, or it has ended. *)
Definition closing (c : client) : Prop :=
  match finalizer c with
  | FJoinSender _ => expired c = true \/ CloseInfo ∈ requests_queue c \/ sender c = SPopped CloseInfo \/ sender c = SSending CloseInfo \/ sender c = SExited
  | _ => True
  end.

Lemma closing_same c c' : closing c -> finalizer c' = finalizer c -> expired c' = expired c -> sender c' = sender c -> requests_queue c' = requests_queue c -> closing c'.
Proof. unfold closing. intros H -> -> -> ->. done. Qed.

Lemma closing_exited c : sender c = SExited -> closing c.
Proof. intros H. unfold closing. destruct (finalizer c); try done. by do 4 right. Qed.

Lemma sender_fails_closing c : closing (sender_fails c).
Proof. unfold sender_fails. destruct (finalization_started c); [by apply closing_exited|done]. Qed.

Lemma receiver_fails_closing c : closing c -> closing (receiver_fails c).
Proof. intros H. unfold receiver_fails. destruct (finalization_started c); [by apply (closing_same c)|done]. Qed.

Lemma finalize_closing c : closing c -> closing (finalize (FClose false) c).
Proof. intros H. unfold finalize. by destruct (finalization_started c). Qed.

Create HintDb closing.
#[local] Hint Resolve closing_exited sender_fails_closing receiver_fails_closing finalize_closing : closing.

Lemma receive_closing c e c' : closing c -> (exists now, e = ReceiveWait now) \/ (exists ready, e = ReceivePoll ready) \/ (exists failing, e = ReceiveBody failing) -> step c e = Some c' -> closing c'.
Proof.
  intros H He Hc. destruct He as [[now ->]|[[ready ->]|[failing ->]]]; cbn [step] in Hc.
  - unfold receive_wait in Hc. destruct (receiver c); try done. injection Hc as <-. repeat case_match; auto with closing; by apply (closing_same c).
  - unfold receive_poll in Hc. destruct (receiver c); try done. injection Hc as <-. unfold receive_head. repeat case_match; cbv zeta; repeat case_match; auto with closing; try (by apply (closing_same c)); apply receiver_fails_closing; by apply (closing_same c).
  - unfold receive_body in Hc. destruct (receiver c) as [| |h| |]; try done. cbv zeta in Hc. injection Hc as <-.
    assert (Hb : forall a ev c1, closing c1 -> closing (call_back h a ev failing c1).1).
    { intros a ev c1 H1. destruct (call_back_same h a ev failing c1) as (K1 & _ & K3 & K4 & K5). by apply (closing_same c1). }
    destruct (read_response h c) as [[[error b] rest]|]; [|by apply receiver_fails_closing, Hb]. destruct (add_watch_same (h_subject h) error c) as (W1 & _ & W3 & W4 & W5).
    destruct (add_watch (h_subject h) error c) as [c1 [err|]]; cbn [fst] in *; (assert (H1 : closing c1) by (by apply (closing_same c))); [by apply receiver_fails_closing, Hb|]. case_decide; [by apply receiver_fails_closing, Hb|].
    pose proof (Hb (Received error b) (event_of error b) (set_input rest c1) H1) as H2. destruct (call_back _ _ _ _ _) as [c2 [|]]; cbn [fst] in *; [by apply receiver_fails_closing|by apply (closing_same c2)].
Qed.

Lemma closing_step c e c' : closing c -> step c e = Some c' -> closing c'.
Proof.
  intros H Hc. destruct e; try (eapply receive_closing; [exact H| |exact Hc]; naive_solver); cbn [step] in Hc.
  - injection Hc as <-. unfold begin_call. repeat case_match; auto with closing.
  - unfold push_call in Hc. destruct (calling c !! k) as [[|o w t]|]; try done. injection Hc as <-. case_match; [auto with closing|]. unfold closing in *. cbn. destruct (finalizer c); try done. set_solver.
  - injection Hc as <-. auto with closing.
  - unfold send_turn in Hc. destruct (sender c) eqn:Es; try done. destruct (expired c) eqn:Ee; [injection Hc as <-; by apply closing_exited|]. destruct (_ <? _); [|destruct delivered; injection Hc as <-; auto with closing].
    destruct (requests_queue c) as [|i q] eqn:Eq; destruct popped; try done; injection Hc as <-; [done|]. unfold closing in *. cbn. destruct (finalizer c); try done. rewrite Ee, Eq, Es in H. destruct H as [?|[H|H]]; [done| |naive_solver].
    apply elem_of_cons in H as [<-|H]; [by do 2 right; left|by right; left].
  - unfold register in Hc. destruct (sender c) as [|[|o w t]| | |] eqn:Es; try done; [injection Hc as <-; unfold closing in *; cbn; destruct (finalizer c); naive_solver|].
    destruct (objects c !! o) as [ob|]; [|done]. injection Hc as <-. assert (closing (set_sender (SSending (Info o w t)) c)); [unfold closing in *; cbn; destruct (finalizer c); try done; rewrite Es in H; naive_solver|repeat case_match; auto].
  - unfold send in Hc. destruct (sender c) as [| |i| |] eqn:Es; try done. destruct (expired c) eqn:Ee; [injection Hc as <-; by apply closing_exited|]. destruct i as [|o w t]; [destruct delivered; injection Hc as <-; auto with closing|].
    destruct (objects c !! o) as [ob|]; [|done]. injection Hc as <-. destruct (addRootPath _ _) as [body [err|]]; [auto with closing|]. cbv zeta. destruct delivered; cbn [negb]; [|auto with closing].
    unfold closing in *. cbn. destruct (finalizer c); try done. rewrite Ee, Es in H. naive_solver.
  - unfold finalize_step in Hc. destruct (finalizer c) as [|er|er|er| | | | |] eqn:Hf; try done.
    + injection Hc as <-. case_decide; unfold closing; cbn; [by left|]. right. left. set_solver.
    + destruct (sender c); try done. by injection Hc as <-.
    + injection Hc as <-. by destruct er.
    + destruct (receiver c); try done. by injection Hc as <-.
    + by injection Hc as <-.
    + by injection Hc as <-.
    + destruct (requests_queue c) as [|i q]; injection Hc as <-; [unfold thread_ends; by repeat case_match|]. unfold closing. destruct i as [|o [] t]; cbn; by rewrite Hf.
Qed.

Lemma run_closing es c c' : closing c -> run es c = Some c' -> closing c'.
Proof.
  revert c. induction es as [|e es IH]; cbn [run]; intros c Hc; [by intros [= <-]|]. destruct (step c e) as [c1|] eqn:E; [|done]. cbn [mbind option_bind]. apply IH. by eapply closing_step.
Qed.

Lemma expired_run es c c' : good c -> expired c = true -> run es c = Some c' -> Z.of_nat (length (objects c')) <= NUMBERS ->
  expired c' = true /\ (length (filter (fun e => thread_event e = true) es) + work c' <= work c)%nat.
Proof.
  revert c. induction es as [|e es IH]; cbn [run]; intros c H He; [intros [= <-]; cbn; split; [done|lia]|]. destruct (step c e) as [c1|] eqn:E; [|done]. cbn [mbind option_bind]. intros Hr Hb.
  pose proof (run_objects _ _ _ Hr). pose proof (step_objects _ _ _ E). destruct (expired_takes_step c e c1 H He E) as [He1 Hw]. assert (Hg : good c1) by (eapply step_good; [done| |done]; lia).
  destruct (IH c1 Hg He1 Hr Hb) as [He' Hl]. split; [done|]. destruct (thread_event e) eqn:Et; [rewrite filter_cons_True by done; cbn; lia|rewrite filter_cons_False by congruence; lia].
Qed.

Lemma waits_for_sender c : good c -> expired c = false -> forall er, finalizer c = FJoinSender er ->
  false = true \/ CloseInfo ∈ requests_queue c \/ sender c = SPopped CloseInfo \/ sender c = SSending CloseInfo \/ sender c = SExited -> exists e c', thread_event e = true /\ step c e = Some c'.
Proof.
  intros H He er Hf Hcl. pose proof (g_threads c H) as Ht. unfold threads_ok in Ht. rewrite Hf in Ht. destruct Ht as (_ & Ht & _). destruct (sender c) as [|[|o w t]|i| |] eqn:Es; try done.
  - destruct (requests_queue c) as [|i q] eqn:Eq; [set_solver|]. set (next := prev_heartbeat_time c + Z.quot (Connection.total_ms (session_timeout (config c))) 3 * 1000000).
    exists (SendTurn (next - 1) 0 true true). eexists. split; [done|]. cbn. unfold send_turn. rewrite Es, He, Eq. fold next. by rewrite (proj2 (Z.ltb_lt _ _)) by lia.
  - exists Register. eexists. split; [done|]. cbn. unfold register. by rewrite Es.
  - assert (usable (length (objects c)) o) as [Ho _]. { apply pending_usable; [done|]. unfold pending. rewrite Es. set_solver. }
    apply lookup_lt_is_Some in Ho as [ob Ho]. exists Register. eexists. split; [done|]. cbn. unfold register. by rewrite Es, Ho.
  - destruct i as [|o w t]; [exists (Send true); eexists; split; [done|]; cbn; unfold send; by rewrite Es, He|]. destruct (held_unsent o w t c H (or_intror Es)) as [Ha _].
    assert (usable (length (objects c)) o) as [Ho _]. { apply (proj1 (Forall_forall _ _) (g_usable c H)). rewrite Ha. set_solver. }
    apply lookup_lt_is_Some in Ho as [ob Ho]. exists (Send true). eexists. split; [done|]. cbn. unfold send. by rewrite Es, He, Ho.
  - exists FinalizeStep. eexists. split; [done|]. cbn. unfold finalize_step. by rewrite Hf, Es.
Qed.

(** C29: A session that ends does end.  Once it is expired the threads can take only a bounded number of steps, whatever calls are made in between, and when no thread can take one [finalize] is done.
    Until it is expired some thread can go on; and [finalize] waits for the sending thread only when the request to close is in the queue or in the hands of that thread, or it has ended. *)
Theorem finalization_ends s now buf es c : run es (opened s now buf) = Some c -> finalization_started c = true -> Z.of_nat (length (objects c)) <= NUMBERS ->
  (expired c = true -> forall es' c', run es' c = Some c' -> Z.of_nat (length (objects c')) <= NUMBERS ->
     (length (filter (fun e => thread_event e = true) es') <= work c)%nat /\ ((forall e, thread_event e = true -> step c' e = None) -> finalizer c' = FDone)) /\
  (expired c = false -> closing c /\ exists e c', thread_event e = true /\ step c e = Some c').
Proof.
  intros Hr Hs Hb. pose proof (client_run_good _ _ _ (client_opened_good s now buf) Hr Hb) as H. split.
  - intros He es' c' Hr' Hb'. destruct (expired_run es' c c' H He Hr' Hb') as [He' Hw]. split; [lia|]. intros Hn. pose proof (client_run_good _ _ _ H Hr' Hb') as H'.
    destruct (decide (finalizer c' = FDone)) as [|Hd]; [done|]. destruct (expired_progress c' H' He' Hd) as (e & c'' & Ht & Hc). by rewrite (Hn e Ht) in Hc.
  - intros He. pose proof (run_closing es (opened s now buf) c I Hr) as Hcl. split; [done|]. pose proof (g_threads c H) as Ht. unfold threads_ok in Ht. unfold closing in Hcl. rewrite Hs, He in Ht. rewrite He in Hcl.
    destruct (finalizer c) as [|er|er|er| | | | |] eqn:Hf; try (by destruct Ht as (? & ? & ?)); [|exact (waits_for_sender c H He er Hf Hcl)|].
    + exists FinalizeStep. eexists. split; [done|]. cbn. unfold finalize_step. by rewrite Hf.
    + exists FinalizeStep. eexists. split; [done|]. cbn. unfold finalize_step. by rewrite Hf.
Qed.

(** ** Opening a session with the server *)

Lemma reads_array n s : in_signed 32 n = true -> Z.of_nat (length s) = n -> reads (Connection.read_array n) (zk_write_int32 n ++ s) s.
Proof.
  intros Hn Hl. unfold Connection.read_array. eapply reads_bind; [by apply reads_int32|]. rewrite decide_False by (by intros []). intros rest.
  assert (length s = Z.to_nat n) as <- by lia. by rewrite take_app_length, drop_app_length.
Qed.

Lemma signed_small z : 0 <= z < 2 ^ 31 -> to_signed 32 (wrap 32 z) = z.
Proof. intros H. unfold wrap, to_signed. change (2 ^ (32 - 1)) with (2 ^ 31). rewrite Z.mod_small by lia. by destruct (Z.ltb_spec z (2 ^ 31)); [|lia]. Qed.

Lemma in_signed_small z : 0 <= z < 2 ^ 31 -> in_signed 32 z = true.
Proof. intros H. unfold in_signed. change (2 ^ (32 - 1)) with (2 ^ 31). lia. Qed.

Lemma server_reads_handshake s ms rest : Connection.total_ms (session_timeout s) = ms -> 0 <= ms < 2 ^ 31 -> Connection.receiveHandshake (sendHandshake s ++ rest) = Ok (ms, rest).
Proof.
  intros Ht Hms. assert (Hr : reads Connection.receiveHandshake (sendHandshake s) ms); [|apply Hr]. unfold sendHandshake, Connection.receiveHandshake. rewrite Ht, signed_small by done.
  eapply reads_bind; [by apply reads_int32|]. rewrite decide_False by (intros [? _]; done). eapply reads_bind; [by apply reads_int32|]. rewrite decide_False by (by intros []).
  eapply reads_bind; [by apply reads_int64|]. eapply reads_bind; [by apply reads_int32, in_signed_small|]. eapply reads_bind; [by apply reads_int64|]. rewrite <- (app_nil_r (zk_write_int32 16 ++ _)).
  eapply reads_bind; [by apply reads_array|]. rewrite decide_False by done. apply (reads_ret ms).
Qed.

Lemma client_reads_handshake s t id : 0 <= Connection.total_ms t < 2 ^ 31 -> in_signed 64 id = true ->
  receiveHandshake s (Connection.sendHandshake true t id) =
    (if decide (Connection.total_ms t <> Connection.total_ms (session_timeout s)) then mkSettings (root_path s) (default_acls s) (Connection.total_ms t * 1000) (operation_timeout s) else s, Ok (id, [])).
Proof.
  intros Ht Hid. unfold receiveHandshake, Connection.sendHandshake. rewrite signed_small by done. unfold mbind, reader_bind. rewrite reads_int32 by done. rewrite decide_False by (by intros []).
  rewrite reads_int32 by done. rewrite decide_False by (by intros []). rewrite reads_int32 by (by apply in_signed_small). rewrite reads_int64 by done.
  rewrite <- (app_nil_r (zk_write_int32 Connection.PASSWORD_LENGTH ++ _)). by rewrite reads_array.
Qed.

(** A client and a server that has a leader agree: the server opens a session, the client reads its number, and both take the smaller of their timeouts. *)
Lemma handshake_agrees s config_ms session id rest : let ms := Connection.total_ms (session_timeout s) in
  0 < ms < 2147484 -> 0 < config_ms < 4294967 -> session (Z.min ms config_ms) = Ok id -> in_signed 64 id = true ->
  exists answer s', Connection.open config_ms true session (sendHandshake s ++ rest) = Some (Connection.Opened answer id (Z.min ms config_ms * 1000) rest) /\
    receiveHandshake s answer = (s', Ok (id, [])) /\ Connection.total_ms (session_timeout s') = Z.min ms config_ms.
Proof.
  intros ms Hms Hcfg Hid Hi. exists (Connection.sendHandshake true (Z.min ms config_ms * 1000) id). eexists.
  assert (Ht : Connection.total_ms (Z.min ms config_ms * 1000) = Z.min ms config_ms) by (unfold Connection.total_ms; rewrite Z.quot_mul; lia).
  split; [|split; [apply client_reads_handshake; [rewrite Ht; lia|done]|]].
  - unfold Connection.open. pose proof (server_reads_handshake s ms rest eq_refl) as Hr. destruct (sendHandshake s ++ rest) as [|ch buf] eqn:E; [done|]. rewrite Hr by lia.
    unfold Connection.client_timeout. replace (in_signed 32 (ms * 1000)) with true by (symmetry; apply in_signed_small; lia). cbn [mbind option_bind]. cbv zeta.
    assert (Ha : Connection.agreed_timeout (ms * 1000) (Connection.configured_timeout config_ms) = Z.min ms config_ms * 1000).
    { unfold Connection.agreed_timeout, Connection.configured_timeout, wrap. rewrite decide_True by lia. rewrite Z.mod_small by lia. lia. }
    by rewrite Ha, Ht, Hid.
  - rewrite Ht. case_decide as Hd; [cbn; unfold Connection.total_ms; rewrite Z.quot_mul; lia|]. fold ms in Hd. fold ms. lia.
Qed.

(** ** Examples *)

Definition example_settings (root : string) : settings := make_settings (lit root) [] 30000000 10000000.
Definition bytes_of_responses (l : list zk_response) : str := concat (map (fun r => match write_response r with Ok s => s | Throw _ => [] end) l).
Definition example_answer : zk_response := mkResponse 1 7 Err.ZOK (GetResponse (lit "v") zero_stat).

(** A call that goes out, then its answer *)
Definition call_out (m : call) (watch : bool) : list event := [BeginCall m watch 1; PushCall 0; SendTurn 1 1 true true; Register; Send true].
Definition answer_in : list event := [ReceiveWait 1; ReceivePoll true; ReceiveBody None].

(** One call is answered, one is sent and one is in the queue when the session is closed, and one comes too late. *)
Definition example_begin : list event :=
  call_out (Get (lit "/a")) true ++ answer_in ++ call_out (Remove (lit "/b") (-1)) false ++ [BeginCall (Exists (lit "/c")) true 2; PushCall 0; UserFinalize].
Definition example_end : list event :=
  [FinalizeStep; SendTurn 2 2 true true; FinalizeStep; FinalizeStep; ReceiveWait 2; FinalizeStep; FinalizeStep; BeginCall (Get (lit "/d")) false 3; PushCall 0; FinalizeStep; FinalizeStep; FinalizeStep].

Lemma callbacks_once_witness :
  exists c, run (example_begin ++ example_end) (opened (example_settings "/app/") 0 (bytes_of_responses [example_answer])) = Some c /\ finalizer c = FDone /\
    calls c = [(0, Received Err.ZOK (GetResponse (lit "v") zero_stat)); (1, Unfinished Err.ZCONNECTIONLOSS); (2, Unfinished Err.ZSESSIONEXPIRED)]%nat /\ refused c = [3]%nat /\
    map fst (watch_calls c) = [0; 2]%nat /\ NoDup (map fst (calls c)).
Proof.
  destruct (run (example_begin ++ example_end) (opened (example_settings "/app/") 0 (bytes_of_responses [example_answer]))) as [c|] eqn:Hr; [|by vm_compute in Hr].
  destruct (callbacks_once (example_settings "/app/") 0 (bytes_of_responses [example_answer]) (example_begin ++ example_end) c Hr) as (H1 & _); [vm_compute in Hr; injection Hr as <-; by vm_compute|].
  exists c. split; [done|]. split; [|split; [|split; [|split; [|exact H1]]]]; clear H1; vm_compute in Hr; injection Hr as <-; reflexivity.
Defined.

Lemma finalization_ends_witness :
  exists c, run (example_begin ++ [FinalizeStep]) (opened (example_settings "/app/") 0 (bytes_of_responses [example_answer])) = Some c /\ expired c = true /\ work c = 9%nat /\
    (forall es' c', run es' c = Some c' -> Z.of_nat (length (objects c')) <= NUMBERS -> (length (filter (fun e => thread_event e = true) es') <= work c)%nat).
Proof.
  destruct (run (example_begin ++ [FinalizeStep]) (opened (example_settings "/app/") 0 (bytes_of_responses [example_answer]))) as [c|] eqn:Hr; [|by vm_compute in Hr].
  destruct (finalization_ends (example_settings "/app/") 0 (bytes_of_responses [example_answer]) (example_begin ++ [FinalizeStep]) c Hr) as [H1 _]; [vm_compute in Hr; injection Hr as <-; by vm_compute..|].
  assert (He : expired c = true) by (clear H1; vm_compute in Hr; injection Hr as <-; reflexivity). exists c. split; [done|]. split; [done|]. split; [clear H1 He; vm_compute in Hr; injection Hr as <-; reflexivity|].
  intros es' c' Hr' Hb'. by destruct (H1 He es' c' Hr' Hb').
Defined.

Definition example_waiting : client :=
  default (opened (example_settings "/app/") 0 []) (run (call_out (Get (lit "/a")) true ++ [ReceiveWait 1]) (opened (example_settings "/app/") 0 (bytes_of_responses [example_answer]))).

Lemma response_delivered_witness :
  exists c1 c2, receive_poll true example_waiting = Some c1 /\ receive_body None c1 = Some c2 /\ calls c2 = [(0%nat, Received Err.ZOK (GetResponse (lit "v") zero_stat))] /\ watches c2 = [(lit "/a", [0%nat])].
Proof.
  destruct (response_delivered example_waiting true 0 true 1 (mkObject 1 (GetRequest (lit "/app/a") true) true) example_answer Err.ZOK (GetResponse (lit "v") zero_stat) (GetResponse (lit "v") zero_stat)
    (lit "/a") (bytes_of_responses [example_answer]) []) as (c1 & c2 & H1 & H2 & H3 & _ & _ & _ & H7); [vm_compute; reflexivity|vm_compute; reflexivity|vm_compute; reflexivity|vm_compute; reflexivity|by vm_compute| | |vm_compute; reflexivity|by vm_compute|vm_compute; reflexivity|vm_compute; reflexivity|vm_compute; reflexivity|].
  - split; [done|]. split; [done|]. split; [done|]. intros t s p E. discriminate E.
  - apply fits_readable; [done|]. split; [by vm_compute|]. by repeat split.
  - exists c1, c2. split; [done|]. split; [done|]. rewrite H3, H7. by vm_compute.
Defined.

(** ** Flaws *)

(** A watch on the root of a client with a prefix ends its session: the path of the request is then the prefix, from which the prefix cannot be removed. *)
Lemma root_watch_ends_session :
  exists c, run (call_out (Exists (lit "/")) true ++ answer_in) (opened (example_settings "/app") 0 (bytes_of_responses [mkResponse 1 7 Err.ZOK (ExistsResponse zero_stat)])) = Some c /\
    calls c = [(0%nat, Unreadable)] /\ finalizer c = FClose true.
Proof. eexists. split; [vm_compute; reflexivity|]. done. Qed.

(** A path that is not valid is noticed by the sending thread, which ends the session. *)
Lemma bad_path_ends_session :
  exists c, run (call_out (Get (lit "a")) false) (opened (example_settings "") 0 []) = Some c /\ accepted c = [0%nat] /\ finalizer c = FExpire false.
Proof. eexists. split; [vm_compute; reflexivity|]. done. Qed.

(** The watch of a request that waits for its answer is never told that the session ended. *)
Lemma waiting_watch_untold :
  exists c, run (call_out (Get (lit "/a")) true ++ [UserFinalize; FinalizeStep; SendTurn 2 2 true true; Register; Send true; FinalizeStep; FinalizeStep; ReceiveWait 2; FinalizeStep; FinalizeStep; FinalizeStep; FinalizeStep])
      (opened (example_settings "") 0 []) = Some c /\ finalizer c = FDone /\ calls c = [(0%nat, Unfinished Err.ZCONNECTIONLOSS)] /\ watch_calls c = [].
Proof. eexists. split; [vm_compute; reflexivity|]. done. Qed.

(** When a watch throws, those of its path that came before it are called again at the end of the session. *)
Lemma watch_called_twice :
  exists c, run (call_out (Get (lit "/a")) true ++ answer_in ++ call_out (Get (lit "/a")) true ++ answer_in ++ [ReceiveWait 1; ReceivePoll true; ReceiveBody (Some 1%nat)]
        ++ [FinalizeStep; SendTurn 2 2 true true; Register; Send true; FinalizeStep; FinalizeStep; FinalizeStep; FinalizeStep; FinalizeStep])
      (opened (example_settings "") 0 (bytes_of_responses [example_answer; mkResponse 2 8 Err.ZOK (GetResponse (lit "v") zero_stat); mkResponse Storage.WATCH_XID 9 Err.ZOK (WatchResponse 3 3 (lit "/a"))])) = Some c /\
    finalizer c = FDone /\ map fst (watch_calls c) = [0; 1; 0; 1]%nat.
Proof. eexists. split; [vm_compute; reflexivity|]. done. Qed.
