(* ===== verification/KeeperEndToEnd.v ===== *)
(** * KeeperEndToEnd: from a call of the client to the dispatcher of the server

    No code of its own: the bytes that the client of [KeeperClient] writes are what the connection of [KeeperConnection] reads. *)

From S2P Require Import Prelude Wire ZooKeeper KeeperStorage KeeperDelivery KeeperConnection KeeperClient.
Import Client.
Local Open Scope Z_scope.

(** The requests of calls, as opposed to heartbeats and the request to close *)
Definition of_call (m : zk_message) : Prop := xid m <> PING_XID /\ xid m <> CLOSE_XID.

#[export] Instance of_call_dec m : Decision (of_call m).
Proof. unfold of_call. apply _. Defined.

(** ** What is written is what was sent *)

(** All but the last of the requests handed to the socket were written, and the last one too unless the sending thread failed. *)
Definition wrote (c : client) : Prop := exists lost, map snd (sent c) = filter of_call (written c) ++ lost /\ (sender_done (sender c) \/ lost = []).

Definition same_sent (c c' : client) : Prop := sender c' = sender c /\ sent c' = sent c /\ written c' = written c.

Lemma wrote_same c c' : wrote c -> same_sent c c' -> wrote c'.
Proof. unfold wrote. intros H (-> & -> & ->). done. Qed.

Lemma wrote_exited c c' : wrote c -> sent c' = sent c -> written c' = written c -> sender_done (sender c') -> wrote c'.
Proof. intros (lost & H & _) H1 H2 H3. exists lost. rewrite H1, H2. split; [done|by left]. Qed.

Lemma finalize_same_sent p c : same_sent c (finalize p c).
Proof. unfold finalize. by destruct (finalization_started c). Qed.

Lemma receiver_fails_same_sent c c' : same_sent c c' -> same_sent c (receiver_fails c').
Proof. intros (H1 & H2 & H3). unfold receiver_fails. by destruct (finalization_started c'). Qed.

Lemma sender_fails_done c : sent (sender_fails c) = sent c /\ written (sender_fails c) = written c /\ sender_done (sender (sender_fails c)).
Proof. unfold sender_fails. destruct (finalization_started c); (split; [done|]); (split; [done|]); [by left|by right]. Qed.

Lemma call_back_same_sent h a e failing c : same_sent c (call_back h a e failing c).1.
Proof. unfold call_back, call_watches. by repeat case_match. Qed.

Lemma add_watch_same_sent i error c : same_sent c (add_watch i error c).1.
Proof. unfold add_watch. by repeat case_match. Qed.

Lemma same_sent_trans c1 c2 c3 : same_sent c1 c2 -> same_sent c2 c3 -> same_sent c1 c3.
Proof. intros (A1 & A2 & A3) (B1 & B2 & B3). unfold same_sent. by rewrite B1, B2, B3. Qed.

#[local] Hint Resolve finalize_same_sent receiver_fails_same_sent : core.

(** The receiving thread does not touch what is sent. *)
Lemma receive_same_sent c e c' : (exists now, e = ReceiveWait now) \/ (exists ready, e = ReceivePoll ready) \/ (exists failing, e = ReceiveBody failing) -> step c e = Some c' -> same_sent c c'.
Proof.
  intros He Hc. destruct He as [[now ->]|[[ready ->]|[failing ->]]]; cbn [step] in Hc.
  - unfold receive_wait in Hc. destruct (receiver c); try done. injection Hc as <-. repeat case_match; try done; by apply receiver_fails_same_sent.
  - unfold receive_poll in Hc. destruct (receiver c); try done. injection Hc as <-. unfold receive_head. repeat case_match; cbv zeta; repeat case_match; try done; by apply receiver_fails_same_sent.
  - unfold receive_body in Hc. destruct (receiver c) as [| |h| |]; try done. cbv zeta in Hc. injection Hc as <-.
    assert (Hb : forall a ev c1, same_sent c c1 -> same_sent c (call_back h a ev failing c1).1) by (intros a ev c1 H1; eapply same_sent_trans; [done|apply call_back_same_sent]).
    destruct (read_response h c) as [[[error b] rest]|]; [|by apply receiver_fails_same_sent, Hb]. pose proof (add_watch_same_sent (h_subject h) error c) as Hw.
    destruct (add_watch (h_subject h) error c) as [c1 [err|]]; cbn [fst] in *; [by apply receiver_fails_same_sent, Hb|]. case_decide; [by apply receiver_fails_same_sent, Hb|].
    pose proof (Hb (Received error b) (event_of error b) (set_input rest c1) Hw) as H2. destruct (call_back _ _ _ _ _) as [c2 [|]]; cbn [fst] in *; [by apply receiver_fails_same_sent|done].
Qed.

Lemma thread_ends_wrote c : wrote c -> wrote (thread_ends c).
Proof.
  intros H. unfold thread_ends. assert (H1 : wrote match sender c with SFinalizing => set_sender SExited c | _ => c end).
  { destruct (sender c) eqn:Es; try done. apply (wrote_exited c); [done..|]. by left. }
  set (c1 := match sender c with SFinalizing => _ | _ => c end) in *. destruct (receiver c1); done.
Qed.

Lemma finalize_step_wrote c c' : wrote c -> finalize_step c = Some c' -> wrote c'.
Proof.
  intros H Hc. unfold finalize_step in Hc. destruct (finalizer c) as [|er|er|er| | | | |]; try done.
  - injection Hc as <-. by case_decide.
  - destruct (sender c) eqn:Es; try done. injection Hc as <-. by apply (wrote_same c).
  - by injection Hc as <-.
  - destruct (receiver c); try done. by injection Hc as <-.
  - by injection Hc as <-.
  - by injection Hc as <-.
  - destruct (requests_queue c) as [|i q]; injection Hc as <-; [by apply (thread_ends_wrote (set_finalizer FDone c))|]. by destruct i as [|o [] t].
Qed.

Lemma of_call_skip l m : ~ of_call m -> filter of_call (l ++ [m]) = filter of_call l.
Proof. intros H. rewrite filter_app, filter_cons_False by done. apply app_nil_r. Qed.

Lemma of_call_keep l m : of_call m -> filter of_call (l ++ [m]) = filter of_call l ++ [m].
Proof. intros H. by rewrite filter_app, filter_cons_True. Qed.

Lemma send_wrote delivered c c' : good c -> wrote c -> send delivered c = Some c' -> wrote c'.
Proof.
  intros Hg H Hc. unfold send in Hc. destruct (sender c) as [| |i| |] eqn:Es; try done. destruct (expired c); [injection Hc as <-; apply (wrote_exited c); [done..|by left]|].
  destruct H as (lost & Hl & [Hd| ->]); [rewrite Es in Hd; by destruct Hd|]. rewrite app_nil_r in Hl.
  assert (Hfail : forall c1, sent c1 = sent c -> written c1 = written c -> wrote (sender_fails c1)).
  { intros c1 H1 H2. destruct (sender_fails_done c1) as (F1 & F2 & F3). exists []. rewrite F1, F2, H1, H2, app_nil_r. by split; [|left]. }
  destruct i as [|o w t].
  { destruct delivered; injection Hc as <-; [|by apply Hfail]. exists []. rewrite app_nil_r. split; [|by left; left]. etransitivity; [exact Hl|]. symmetry. apply of_call_skip. by intros [_ []]. }
  destruct (objects c !! o) as [ob|] eqn:Eo; [|done]. injection Hc as <-. destruct (addRootPath _ _) as [body' [err|]]; [by apply Hfail|]. cbv zeta.
  assert (Hu : of_call (mkMessage (o_xid ob) body')).
  { destruct (held_unsent o w t c Hg (or_intror Es)) as [Ha _]. assert (usable (length (objects c)) o) as (_ & H0 & H1) by (apply (proj1 (Forall_forall _ _) (g_usable c Hg)); rewrite Ha; set_solver).
    split; cbn; rewrite (g_xid c Hg _ _ Eo); [unfold PING_XID; lia|done]. }
  destruct delivered; cbn [negb].
  - exists []. rewrite app_nil_r. split; [|by right]. etransitivity; [|symmetry; by apply of_call_keep]. cbn. by rewrite map_app, Hl.
  - set (c1 := log_sent _ _). destruct (sender_fails_done c1) as (F1 & F2 & F3). exists [mkMessage (o_xid ob) body']. rewrite F1, F2. cbn. rewrite map_app, Hl. by split; [|left].
Qed.

Lemma step_wrote c e c' : good c -> wrote c -> step c e = Some c' -> wrote c'.
Proof.
  intros Hg H Hc. destruct e; try (eapply wrote_same; [exact H|]; eapply receive_same_sent; [|exact Hc]; naive_solver); cbn [step] in Hc.
  - injection Hc as <-. unfold begin_call. repeat case_match; try done. apply (wrote_same c); [done|]. eapply same_sent_trans; [|apply finalize_same_sent]. done.
  - unfold push_call in Hc. destruct (calling c !! k) as [[|o w t]|]; try done. injection Hc as <-. case_match; [|done]. apply (wrote_same c); [done|]. eapply same_sent_trans; [|apply finalize_same_sent]. done.
  - injection Hc as <-. apply (wrote_same c); [done|]. apply finalize_same_sent.
  - unfold send_turn in Hc. destruct (sender c) eqn:Es; try done. destruct H as (lost & Hl & [Hd| ->]); [rewrite Es in Hd; by destruct Hd|].
    destruct (expired c); [injection Hc as <-; exists []; by split; [|right]|]. destruct (_ <? _).
    + destruct (requests_queue c) as [|i q]; destruct popped; try done; injection Hc as <-; exists []; by split; [|right].
    + destruct delivered; injection Hc as <-.
      * exists []. rewrite app_nil_r in *. split; [|by right]. etransitivity; [exact Hl|]. symmetry. apply of_call_skip. by intros [[] _].
      * destruct (sender_fails_done (set_prev_heartbeat_time later c)) as (F1 & F2 & F3). exists []. rewrite F1, F2. by split; [|right].
  - unfold register in Hc. destruct (sender c) as [|[|o w t]| | |] eqn:Es; try done; (destruct H as (lost & Hl & [Hd| ->]); [rewrite Es in Hd; by destruct Hd|]); [injection Hc as <-; exists []; by split; [|right]|].
    destruct (objects c !! o) as [ob|]; [|done]. injection Hc as <-. exists []. repeat case_match; by split; [|right].
  - by eapply send_wrote.
  - by eapply finalize_step_wrote.
Qed.

Lemma run_wrote es c c' : good c -> wrote c -> run es c = Some c' -> Z.of_nat (length (objects c')) <= NUMBERS -> wrote c'.
Proof.
  revert c. induction es as [|e es IH]; cbn [run]; intros c Hg Hw; [by intros [= <-]|]. destruct (step c e) as [c1|] eqn:E; [|done]. cbn [mbind option_bind]. intros Hr Hb. pose proof (run_objects _ _ _ Hr). pose proof (step_objects _ _ _ E).
  apply (IH c1); [eapply step_good; [done| |done]; lia|by eapply step_wrote|done..].
Qed.

(** ** The server reads what the client wrote *)

Lemma reads_bounded ms l buf : Forall sendable ms -> reads_from (concat (map write_message ms)) l buf -> (length l <= length ms)%nat.
Proof.
  intros Hs Hr. rewrite <- (app_nil_r (concat _)) in Hr. induction Hr as [|l buf z buf' m after Hr IH Hz Hm]; [cbn; lia|]. rewrite length_app. cbn. destruct (decide (length l = length ms)) as [He|Hne]; [|lia].
  destruct (reads_written ms [] l buf Hs Hr IH) as [_ Hb]. rewrite He, drop_all in Hb. by subst buf.
Qed.

Lemma filter_prefix (l k : list zk_message) : l `prefix_of` k -> filter of_call l `prefix_of` filter of_call k.
Proof. intros [x ->]. rewrite filter_app. by eexists. Qed.

Lemma prefix_take_length {A} (l k : list A) : l `prefix_of` k -> l = take (length l) k.
Proof. intros [x ->]. by rewrite take_app_length. Qed.

(** C19: The requests that the server hands to its dispatcher, heartbeats and the request to close apart, are those of the calls that the client accepted, in the order in which it accepted them, each at most once, as the client
    wrote them with their prefix; whatever the threads of both sides and the network do. *)
Theorem calls_reach_dispatcher s now buf es c capacity timeout es' conn : run es (opened s now buf) = Some c -> Z.of_nat (length (objects c)) <= NUMBERS -> Forall sendable (written c) ->
  Connection.run capacity es' (Connection.opened timeout (output c)) = Some conn ->
  exists ids, ids `prefix_of` accepted c /\ NoDup ids /\
    Forall2 (fun o m => exists ob, objects c !! o = Some ob /\ m = mkMessage (o_xid ob) (o_body ob)) ids (filter of_call (Connection.handed conn)).
Proof.
  intros Hr Hb Hs Hc. pose proof (client_run_good _ _ _ (client_opened_good s now buf) Hr Hb) as Hg. assert (Hw0 : wrote (opened s now buf)) by (by exists []; split; [|right]).
  destruct (run_wrote es _ _ (client_opened_good s now buf) Hw0 Hr Hb) as (lost & Hl & _). destruct (run_good _ _ _ _ _ (opened_good timeout (output c)) Hc) as [_ _ _ (b & H4 & _) _ _].
  rewrite (g_output c Hg) in H4. pose proof (reads_bounded _ _ _ Hs H4) as Hle. rewrite <- (app_nil_r (concat _)) in H4. destruct (reads_written _ [] _ _ Hs H4 Hle) as [Hh _].
  assert (Hp : filter of_call (Connection.handed conn) `prefix_of` map snd (sent c)).
  { transitivity (filter of_call (written c)); [apply filter_prefix; rewrite Hh; apply prefix_take|]. rewrite Hl. by exists lost. }
  apply prefix_take_length in Hp. set (n := length (filter of_call (Connection.handed conn))) in *. exists (take n (map fst (sent c))). destruct (g_sent c Hg) as (mid & Hm & _).
  assert (Hpre : take n (map fst (sent c)) `prefix_of` accepted c) by (transitivity (map fst (sent c)); [apply prefix_take|by exists (mid ++ queued (requests_queue c))]).
  split; [done|]. split. { destruct Hpre as [k Hk]. pose proof (g_distinct c Hg) as Hd. apply NoDup_app in Hd as (Hd & _ & _). rewrite Hk in Hd. by apply NoDup_app in Hd as (? & _ & _). }
  rewrite Hp, <- !fmap_take. apply Forall2_fmap, Forall2_same_length_lookup. split; [done|]. intros i p q Hi Hq. assert (p = q) as <- by congruence.
  apply list_elem_of_lookup_2, elem_of_take in Hi as (j & Hj & _). destruct (Forall_lookup_1 _ _ _ _ (g_messages c Hg) Hj) as (ob & H1 & _ & H3). by exists ob.
Qed.

Definition example_calls : list event :=
  call_out (SetData (lit "/a") (lit "v") (-1)) false ++ [SendTurn 20000000000 20000000000 false true] ++ call_out (Get (lit "/b")) true ++ [UserFinalize; FinalizeStep; SendTurn 1 1 true true; Register; Send true].
Definition example_turns : list Connection.event := concat (replicate 4 [Connection.Poll true false false (Ok true); Connection.EndTurn 0]).

Lemma calls_reach_dispatcher_witness :
  exists c conn ids, run example_calls (opened (example_settings "/app") 0 []) = Some c /\ Connection.run 16 example_turns (Connection.opened 1000 (output c)) = Some conn /\
    Connection.handed conn = [mkMessage 1 (SetRequest (lit "/app/a") (lit "v") (-1)); mkMessage PING_XID HeartbeatRequest; mkMessage 2 (GetRequest (lit "/app/b") true); mkMessage CLOSE_XID CloseRequest] /\
    ids `prefix_of` accepted c /\ length ids = 2%nat.
Proof.
  destruct (run example_calls (opened (example_settings "/app") 0 [])) as [c|] eqn:Hr; [|by vm_compute in Hr].
  destruct (Connection.run 16 example_turns (Connection.opened 1000 (output c))) as [conn|] eqn:Hc; [|vm_compute in Hr; injection Hr as <-; by vm_compute in Hc].
  assert (Hh : Connection.handed conn = [mkMessage 1 (SetRequest (lit "/app/a") (lit "v") (-1)); mkMessage PING_XID HeartbeatRequest; mkMessage 2 (GetRequest (lit "/app/b") true); mkMessage CLOSE_XID CloseRequest])
    by (vm_compute in Hr; injection Hr as <-; vm_compute in Hc; injection Hc as <-; reflexivity).
  destruct (calls_reach_dispatcher (example_settings "/app") 0 [] example_calls c 16 1000 example_turns conn Hr) as (ids & H1 & _ & H3); [| |done|].
  - vm_compute in Hr. injection Hr as <-. by vm_compute.
  - clear Hc Hh. vm_compute in Hr. injection Hr as <-. repeat apply Forall_cons_2; try apply Forall_nil_2; split; by vm_compute.
  - exists c, conn, ids. split; [done|]. split; [done|]. split; [done|]. split; [done|]. apply Forall2_length in H3. rewrite H3, Hh. by vm_compute.
Defined.
