(* ===== verification/KeeperCalls.v ===== *)
(** * KeeperCalls: calls of the coordination service that wait for their answers

    Models src/src/Common/ZooKeeper/ZooKeeper.cpp, the wrapper through which the server uses a client: which errors a call returns and which it
    throws, how several requests make one, and the removal of subtrees.  A call waits for its callback; [exec] is what the client and the server make of a
    request, with what others do in between: it changes what the calls can see, and gives the error and the body of the response, or throws.
    Watches are not passed on by the calls modelled here. *)

From S2P Require Import Prelude Wire ZooKeeper KeeperStorage KeeperTree.
Import Storage.
Local Open Scope Z_scope.

(** Calls that see a state; [None] is running out of fuel, or an access out of the bounds of a vector. *)
Definition zk (S A : Type) : Type := S -> option (S * result A).

#[export] Instance zk_ret S : MRet (zk S) := fun A a s => Some (s, Ok a).
#[export] Instance zk_bind S : MBind (zk S) := fun A B f m s =>
  match m s with
  | Some (s, Ok a) => f a s
  | Some (s, Throw e) => Some (s, Throw e)
  | None => None
  end.

Definition zk_throw {S A} (e : exn) : zk S A := fun s => Some (s, Throw e).
Definition zk_lift {S A} (r : option (result A)) : zk S A := fun s => r ← r; Some (s, r).

Module ZkUtil.
Definition MULTI_BATCH_SIZE : nat := 100.

Definition isUserError (code : Z) : bool :=
  bool_decide (code ∈ [Err.ZNONODE; Err.ZBADVERSION; Err.ZNOCHILDRENFOREPHEMERALS; Err.ZNODEEXISTS; Err.ZNOTEMPTY]).

(** [KeeperMultiException]: the operation that failed *)
Fixpoint first_failed (responses : list answer) (index : nat) : option nat :=
  match responses with
  | [] => None
  | r :: responses => if decide (r.1 <> Err.ZOK) then Some index else first_failed responses (S index)
  end.

Definition getFailedOpIndex (responses : list answer) : result nat :=
  match first_failed responses 0 with Some i => Ok i | None => Throw (DBException ErrorCodes.LOGICAL_ERROR) end.

(** The exception of a request that failed, with the index and the path it names; [requests[failed_op_index]] is not checked. *)
Definition multi_exception (requests : list zk_request) (responses : list answer) : option (result (nat * str)) :=
  match getFailedOpIndex responses with
  | Throw e => Some (Throw e)
  | Ok i => r ← requests !! i; Some (Ok (i, getPath r))
  end.

Definition check_multi (code : Z) (requests : list zk_request) (responses : list answer) : option (result unit) :=
  if decide (code = Err.ZOK) then Some (Ok tt)
  else if isUserError code then r ← multi_exception requests responses; Some (_ ← r; Throw (KeeperException code))
  else Some (Throw (KeeperException code)).

Section calls.
Context {S : Type} (exec : zk_request -> S -> S * result answer).

Definition impl (r : zk_request) : zk S answer := fun s => let '(s, a) := exec r s in Some (s, a).

Definition check (code : Z) : zk S unit := if decide (code = Err.ZOK) then mret tt else zk_throw (KeeperException code).

(** Errors that are returned; all others are thrown. *)
Definition returned (codes : list Z) (code : Z) : zk S unit := if decide (code ∈ codes) then mret tt else zk_throw (KeeperException code).

Definition getChildrenImpl (path : str) : zk S (Z * list str) :=
  '(code, b) ← impl (ListRequest false path false);
  mret (code, match b with ListResponse names _ => if decide (code = Err.ZOK) then names else [] | _ => [] end).

Definition tryGetChildren (path : str) : zk S (Z * list str) :=
  '(code, res) ← getChildrenImpl path;
  _ ← returned [Err.ZOK; Err.ZNONODE] code;
  mret (code, res).

Definition getChildren (path : str) : zk S (list str) :=
  '(code, res) ← tryGetChildren path;
  _ ← check code;
  mret res.

Definition createImpl (path data : str) (mode : Z) : zk S (Z * str) :=
  '(code, b) ← impl (CreateRequest path data (Z.testbit mode 0) (Z.testbit mode 1) []);
  mret (code, match b with CreateResponse p => if decide (code = Err.ZOK) then p else [] | _ => [] end).

Definition tryCreate (path data : str) (mode : Z) : zk S (Z * str) :=
  '(code, p) ← createImpl path data mode;
  _ ← returned [Err.ZOK; Err.ZNONODE; Err.ZNODEEXISTS; Err.ZNOCHILDRENFOREPHEMERALS] code;
  mret (code, p).

Definition create (path data : str) (mode : Z) : zk S str :=
  '(code, p) ← tryCreate path data mode;
  _ ← check code;
  mret p.

Definition createIfNotExists (path data : str) : zk S unit :=
  '(code, _) ← createImpl path data 0;
  returned [Err.ZOK; Err.ZNODEEXISTS] code.

(** The positions of slashes from [pos] on *)
Fixpoint slashes (pos : nat) (path : str) : list nat :=
  match path with
  | [] => []
  | c :: path => if decide (c = slash) then pos :: slashes (Datatypes.S pos) path else slashes (Datatypes.S pos) path
  end.

Fixpoint create_all (paths : list str) : zk S unit :=
  match paths with [] => mret tt | p :: paths => _ ← createIfNotExists p []; create_all paths end.

Definition createAncestors (path : str) : zk S unit := create_all (map (fun pos => take pos path) (slashes 1 (drop 1 path))).

Definition removeImpl (path : str) (version : Z) : zk S Z :=
  '(code, _) ← impl (RemoveRequest path version);
  mret code.

Definition tryRemove (path : str) (version : Z) : zk S Z :=
  code ← removeImpl path version;
  _ ← returned [Err.ZOK; Err.ZNONODE; Err.ZBADVERSION; Err.ZNOTEMPTY] code;
  mret code.

Definition remove (path : str) (version : Z) : zk S unit :=
  code ← tryRemove path version;
  check code.

Definition existsImpl (path : str) : zk S Z :=
  '(code, _) ← impl (ExistsRequest path false);
  mret code.

Definition exists_ (path : str) : zk S bool :=
  code ← existsImpl path;
  _ ← returned [Err.ZOK; Err.ZNONODE] code;
  mret (bool_decide (code <> Err.ZNONODE)).

Definition getImpl (path : str) : zk S (Z * str) :=
  '(code, b) ← impl (GetRequest path false);
  mret (code, match b with GetResponse d _ => if decide (code = Err.ZOK) then d else [] | _ => [] end).

(** The data when the node is there, with the code *)
Definition tryGet (path : str) : zk S (option str * Z) :=
  '(code, res) ← getImpl path;
  _ ← returned [Err.ZOK; Err.ZNONODE] code;
  mret (if decide (code = Err.ZOK) then Some res else None, code).

Definition get (path : str) : zk S str :=
  '(r, code) ← tryGet path;
  match r with Some res => mret res | None => zk_throw (KeeperException code) end.

Definition setImpl (path data : str) (version : Z) : zk S Z :=
  '(code, _) ← impl (SetRequest path data version);
  mret code.

Definition trySet (path data : str) (version : Z) : zk S Z :=
  code ← setImpl path data version;
  _ ← returned [Err.ZOK; Err.ZNONODE; Err.ZBADVERSION] code;
  mret code.

Definition set (path data : str) (version : Z) : zk S unit :=
  code ← trySet path data version;
  check code.

Definition createOrUpdate (path data : str) (mode : Z) : zk S unit :=
  code ← trySet path data (-1);
  if decide (code = Err.ZNONODE) then _ ← create path data mode; mret tt else check code.

Definition multiImpl (requests : list zk_request) : zk S (Z * list answer) :=
  if decide (requests = []) then mret (Err.ZOK, [])
  else
    '(code, b) ← impl (MultiRequest requests);
    mret (code, match b with MultiResponse l => l | _ => [] end).

Definition multi (requests : list zk_request) : zk S (list answer) :=
  '(code, responses) ← multiImpl requests;
  _ ← zk_lift (check_multi code requests responses);
  mret responses.

Definition tryMulti (requests : list zk_request) : zk S (Z * list answer) :=
  '(code, responses) ← multiImpl requests;
  if bool_decide (code <> Err.ZOK) && negb (isUserError code) then zk_throw (KeeperException code) else mret (code, responses).

(** ** Subtrees *)

Definition child (path name : str) : str := path ++ root ++ name.

(** The subtrees of a batch of children; the paths of those that are not kept *)
Fixpoint clear_children (clear : str -> zk S unit) (path keep : str) (children : list str) : zk S (list str) :=
  match children with
  | [] => mret []
  | name :: children =>
      _ ← clear (child path name);
      rest ← clear_children clear path keep children;
      mret (if decide (keep = [] \/ keep <> name) then child path name :: rest else rest)
  end.

Definition remove_requests (paths : list str) : list zk_request := map (fun p => RemoveRequest p (-1)) paths.

(** Children are taken from the back, a batch at a time: the sequence is reversed, and each turn takes at least one. *)
Fixpoint remove_batches (clear : str -> zk S unit) (path keep : str) (n : nat) (children : list str) : zk S unit :=
  match n, children with
  | O, _ | _, [] => mret tt
  | Datatypes.S n, _ =>
      batch ← clear_children clear path keep (take MULTI_BATCH_SIZE children);
      _ ← multi (remove_requests batch);
      remove_batches clear path keep n (drop MULTI_BATCH_SIZE children)
  end.

Fixpoint removeChildrenRecursive (fuel : nat) (path keep : str) : zk S unit :=
  match fuel with
  | O => fun _ => None
  | Datatypes.S fuel =>
      children ← getChildren path;
      remove_batches (fun p => removeChildrenRecursive fuel p []) path keep (length children) (rev children)
  end.

Definition removeChildren (path : str) : zk S unit :=
  children ← getChildren path;
  remove_batches (fun _ => mret tt) path [] (length children) (rev children).

Fixpoint try_remove_all (paths : list str) : zk S unit :=
  match paths with [] => mret tt | p :: paths => _ ← tryRemove p (-1); try_remove_all paths end.

Fixpoint try_remove_batches (clear : str -> zk S unit) (path keep : str) (n : nat) (children : list str) : zk S unit :=
  match n, children with
  | O, _ | _, [] => mret tt
  | Datatypes.S n, _ =>
      batch ← clear_children clear path keep (take MULTI_BATCH_SIZE children);
      '(code, _) ← tryMulti (remove_requests batch);
      _ ← (if decide (code <> Err.ZOK) then try_remove_all batch else mret tt);
      try_remove_batches clear path keep n (drop MULTI_BATCH_SIZE children)
  end.

Fixpoint tryRemoveChildrenRecursive (fuel : nat) (path keep : str) : zk S unit :=
  match fuel with
  | O => fun _ => None
  | Datatypes.S fuel =>
      '(code, children) ← tryGetChildren path;
      if decide (code <> Err.ZOK) then mret tt
      else try_remove_batches (fun p => tryRemoveChildrenRecursive fuel p []) path keep (length children) (rev children)
  end.

Definition removeRecursive (fuel : nat) (path : str) : zk S unit :=
  _ ← removeChildrenRecursive fuel path [];
  remove path (-1).

Definition tryRemoveRecursive (fuel : nat) (path : str) : zk S unit :=
  _ ← tryRemoveChildrenRecursive fuel path [];
  _ ← tryRemove path (-1);
  mret tt.
End calls.
End ZkUtil.

Import ZkUtil.

(** ** The operation that failed *)

Lemma first_failed_app l r : Forall (fun a : answer => a.1 = Err.ZOK) l -> forall k, first_failed (l ++ r) k = first_failed r (length l + k).
Proof.
  induction 1 as [|a l Ha Hl IH]; intros k; [done|]. cbn [first_failed app length]. rewrite decide_False by tauto. rewrite IH. f_equal. lia.
Qed.

Lemma first_error_app (l r : list answer) : Forall (fun a : answer => a.1 = Err.ZOK) l -> first_error (l ++ r) = first_error r.
Proof. induction 1 as [|[e b] l Ha Hl IH]; [done|]. cbn in *. by rewrite decide_False by tauto. Qed.

Lemma first_error_skipped n : first_error (replicate n (Err.ZRUNTIMEINCONSISTENCY, ErrorResponse)) = Err.ZOK.
Proof. induction n as [|n IH]; [done|]. cbn [replicate first_error]. rewrite decide_False by (by intros [_ []]). exact IH. Qed.

(** How the reference ends a multi request: all operations, or up to the first that fails *)
Lemma tree_steps_ends T qs zxid session clock processed T' rs : Forall (fun a : answer => a.1 = Err.ZOK) processed -> tree_steps T qs zxid session clock processed = (T', rs) ->
  (is_Some T' /\ Forall (fun a : answer => a.1 = Err.ZOK) rs) \/
  (T' = None /\ exists ok a, rs = failed_responses (ok ++ [a]) (length processed + length qs - length (ok ++ [a])) /\ Forall (fun a : answer => a.1 = Err.ZOK) ok /\ a.1 <> Err.ZOK /\ (length ok < length processed + length qs)%nat).
Proof.
  revert T processed. induction qs as [|q qs IH]; intros T processed Hp; cbn [tree_steps]; [intros [= <- <-]; by left|].
  destruct (tree_step T q zxid session (clock (length processed))) as [T1 a]. case_decide as Ha.
  - intros [= <- <-]. right. split; [done|]. exists processed, a. split; [|split; [done|split; [done|cbn; lia]]]. f_equal. rewrite length_app. cbn. lia.
  - intros H. apply IH in H; [|apply Forall_app; split; [done|]; apply Forall_singleton; by destruct (decide (a.1 = Err.ZOK))]. destruct H as [H|(H1 & ok & b & H2 & H3 & H4 & H5)]; [by left|]. right. split; [done|]. exists ok, b.
    rewrite (length_app processed [a]) in H2, H5. cbn [length] in *. split; [rewrite H2; f_equal; lia|]. split; [done|]. split; [done|]. lia.
Qed.

(** When a multi request fails, the error that the client reads is that of the operation that failed, and the exception names this operation: the one at the place of the first error. *)
Lemma failed_operation_named T requests qs zxid session clock T' rs : concrete_requests requests = Ok qs -> tree_multi T qs zxid session clock = (T', (Err.ZOK, MultiResponse rs)) -> first_error rs <> Err.ZOK ->
  exists i r, requests !! i = Some r /\ multi_exception requests rs = Some (Ok (i, getPath r)) /\ fst <$> rs !! i = Some (first_error rs) /\ Forall (fun a : answer => a.1 = Err.ZOK) (take i rs) /\ T' = T.
Proof.
  intros Hq Hm He. unfold tree_multi in Hm. destruct (tree_steps T qs zxid session clock []) as [T1 rs'] eqn:Hs. assert (rs' = rs) as -> by congruence. apply tree_steps_ends in Hs; [|constructor].
  destruct Hs as [[_ Hall]|(-> & ok & a & Hrs & Hok & Ha & Hlen)]. { destruct He. rewrite <- (app_nil_r rs). by rewrite first_error_app. }
  assert (Hl : length qs = length requests).
  { clear -Hq. revert qs Hq. induction requests as [|r l IH]; cbn [concrete_requests]; intros qs Hq; [by injection Hq as <-|]. destruct (concrete_request r); [|done]. cbn [mbind result_bind] in Hq. destruct (concrete_requests l) as [qs'|]; [|done]. cbn [mbind result_bind] in Hq. injection Hq as <-. cbn. by rewrite (IH qs'). }
  cbn [length] in Hlen. unfold failed_responses in Hrs. rewrite map_app, <- app_assoc in Hrs. set (l1 := map _ ok) in Hrs.
  assert (Hl1 : Forall (fun a : answer => a.1 = Err.ZOK) l1) by (unfold l1; apply Forall_map; exact Hok). assert (Hlen1 : length l1 = length ok) by apply length_map. clearbody l1.
  destruct (lookup_lt_is_Some_2 requests (length ok)) as [r Hr]; [lia|]. exists (length ok), r. split; [done|].
  assert (Hf : first_failed rs 0 = Some (length ok)). { rewrite Hrs, (first_failed_app l1 _ Hl1). cbn [map app first_failed]. rewrite decide_True by done. f_equal. rewrite Nat.add_0_r. exact Hlen1. }
  split; [unfold multi_exception, getFailedOpIndex; rewrite Hf; by rewrite Hr|].
  assert (Hfe : first_error rs = a.1).
  { rewrite Hrs in He |- *. rewrite (first_error_app l1) in He |- * by done. cbn [map app first_error fst] in He |- *. case_decide as Hd; [done|]. destruct (decide (a.1 = Err.ZRUNTIMEINCONSISTENCY)) as [E|E]; [|tauto]. exfalso. apply He.
    apply first_error_skipped. }
  split; [rewrite Hfe, Hrs, lookup_app_r by (rewrite <- Hlen1; done); rewrite <- Hlen1, Nat.sub_diag; done|]. split; [rewrite Hrs, <- Hlen1, take_app_length; done|]. cbn in Hm. congruence.
Qed.

(** ** Paths below a path *)

Definition below (p q : str) : Prop := q = p \/ exists rest, q = p ++ root ++ rest.

Lemma rfind_ge c s i x : s !! i = Some x -> x = c -> exists j, rfind c s = Some j /\ (i <= j)%nat.
Proof.
  revert i. induction s as [|y s IH]; intros i Hi Hx; [done|]. destruct i as [|i]; cbn in *.
  - injection Hi as ->. destruct (rfind c s) as [j|]; [exists (S j); split; [done|lia]|]. rewrite decide_True by done. by exists O.
  - destruct (IH i Hi Hx) as (j & -> & Hj). exists (S j). split; [done|lia].
Qed.

(** The parent of a path below another is below it too. *)
Lemma below_parent p q : p <> [] -> below p q -> q <> p -> below p (parentPath q).
Proof.
  intros Hp [->|[rest ->]] Hne; [done|]. destruct (rfind_ge slash (p ++ root ++ rest) (length p) slash) as (j & Hj & Hle); [by rewrite lookup_app_r, Nat.sub_diag by lia|done|].
  unfold parentPath. rewrite Hj. destruct j as [|j]; [destruct p; [done|cbn in Hle; lia]|]. rewrite take_app_ge by lia. destruct (S j - length p)%nat as [|k]; [left; cbn; by rewrite app_nil_r|]. right. by exists (take k rest).
Qed.

Lemma below_trans p q r : below p q -> below q r -> below p r.
Proof. intros [->|[x ->]] [->|[y ->]]; [by left|right; by exists y|right; by exists x|]. right. exists (x ++ root ++ y). by rewrite <- !app_assoc. Qed.

Lemma below_child p name : below p (child p name).
Proof. right. by exists name. Qed.

Lemma below_not_root p q : p <> [] -> p <> root -> below p q -> q <> root.
Proof. intros H1 H2 [->|[x ->]]; [done|]. intros E. apply (f_equal length) in E. rewrite length_app in E. destruct p; [done|]. cbn in E. lia. Qed.

(** ** A tree that only shrinks *)

Definition wf (T : tree) : Prop := forall q, is_Some (T !! q) -> q <> root -> valid_path q /\ is_Some (T !! parentPath q).

(** Nodes are removed below [p] only, and none is changed but for its counters. *)
Record shrunk (p : str) (T T' : tree) : Prop := {
  s_wf : wf T';
  s_less : forall q, is_Some (T' !! q) -> is_Some (T !! q);
  s_rest : forall q, is_Some (T !! q) -> ~ below p q -> is_Some (T' !! q);
  s_data : forall q a a', T !! q = Some a -> T' !! q = Some a' -> t_data a' = t_data a
}.

Lemma shrunk_refl p T : wf T -> shrunk p T T.
Proof. intros H. split; try done. congruence. Qed.

Lemma shrunk_trans p T1 T2 T3 : shrunk p T1 T2 -> shrunk p T2 T3 -> shrunk p T1 T3.
Proof.
  intros H1 H2. split; [apply H2|intros q Hq; by apply (s_less _ _ _ H1), (s_less _ _ _ H2)|intros q Hq Hb; exact (s_rest _ _ _ H2 q (s_rest _ _ _ H1 q Hq Hb) Hb)|].
  intros q a a' Ha Ha'. destruct (s_less _ _ _ H2 q) as [b Hb]; [by eexists|]. rewrite (s_data _ _ _ H2 q b a' Hb Ha'). by apply (s_data _ _ _ H1 q).
Qed.

Lemma children_less p T T' q : shrunk p T T' -> children_of T q = ∅ -> children_of T' q = ∅.
Proof.
  intros H He. apply set_eq. intros b. split; [|set_solver]. intros (q' & H1 & H2 & H3 & H4)%elem_of_children. exfalso. apply (not_elem_of_empty (C := gset str) b). rewrite <- He. apply elem_of_children.
  exists q'. split; [by apply (s_less _ _ _ H)|done].
Qed.

(** Removing a node below [p]: it succeeds or says why not, and a node without children is gone after it. *)
Lemma remove_shrinks p T q zxid session now : wf T -> p <> [] -> p <> root -> below p q -> let '(T', a) := tree_step T (SRemove q (-1)) zxid session now in
  shrunk p T T' /\ a.2 = RemoveResponse /\ (a.1 = Err.ZOK \/ a.1 = Err.ZNONODE \/ a.1 = Err.ZNOTEMPTY) /\ (a.1 = Err.ZOK \/ children_of T q = ∅ -> T' !! q = None).
Proof.
  intros Hw H1 H2 Hb. pose proof (below_not_root p q H1 H2 Hb) as Hr. cbn [tree_step]. destruct (T !! q) as [n|] eqn:Eq.
  2:{ split; [by apply shrunk_refl|]. split; [done|]. split; [by right; left|]. done. }
  change (version_ok (-1) n) with true. cbn [negb]. case_decide as Hc. { split; [by apply shrunk_refl|]. split; [done|]. split; [by right; right|]. intros [?|?]; done. }
  assert (He : children_of T q = ∅) by (destruct (decide (children_of T q = ∅)); [done|tauto]).
  assert (Hl : forall q', is_Some (delete q (alter (touched 0) (parentPath q) T) !! q') <-> q' <> q /\ is_Some (T !! q')).
  { intros q'. destruct (decide (q' = q)) as [->|Hne]; [rewrite lookup_delete_eq; split; [by intros [? ?]|tauto]|]. rewrite lookup_delete_ne by done. destruct (decide (q' = parentPath q)) as [->|Hn]; [rewrite lookup_alter_eq, fmap_is_Some; tauto|rewrite lookup_alter_ne by done; tauto]. }
  split; [|split; [done|split; [by left|intros _; apply lookup_delete_eq]]]. split.
  - intros q' Hq' Hr'. apply Hl in Hq' as [Hne Hq']. destruct (Hw q' Hq' Hr') as [Hv Hp]. split; [done|]. apply Hl. split; [|done]. intros E. apply (not_elem_of_empty (C := gset str) (getBaseName q')). rewrite <- He. apply elem_of_children. by exists q'.
  - intros q' Hq'. by apply Hl in Hq' as [_ ?].
  - intros q' Hq' Hn. apply Hl. split; [by intros ->|done].
  - intros q' a a' Ha Ha'. destruct (decide (q' = q)) as [->|Hne]; [by rewrite lookup_delete_eq in Ha'|]. rewrite lookup_delete_ne in Ha' by done. destruct (decide (q' = parentPath q)) as [->|Hn]; [|rewrite lookup_alter_ne in Ha' by done; congruence].
    rewrite lookup_alter_eq, Ha in Ha'. by injection Ha' as <-.
Qed.

(** ** A server that others use too *)

Section removal.
Context (order : gset str -> list str) (zxid session : Z) (clock : nat -> Z).

(** What others remove before a call *)
Definition others (qs : list str) (T : tree) : tree := foldl (fun T q => (tree_step T (SRemove q (-1)) zxid session (clock 0)).1) T qs.

(** The reference answers; the client reads the error of a multi request from the errors of its operations. *)
Definition tree_serve (r : zk_request) (T : tree) : tree * result answer :=
  match r with
  | ListRequest _ p _ =>
      (T, Ok match T !! p with
             | None => (Err.ZNONODE, ListResponse [] zero_stat)
             | Some a => (Err.ZOK, ListResponse (order (children_of T p)) (stat_of T p a))
             end)
  | MultiRequest l =>
      match concrete_requests l with
      | Throw e => (T, Throw e)
      | Ok qs => let '(T', rs) := tree_steps T qs zxid session clock [] in (default T T', Ok (first_error rs, MultiResponse rs))
      end
  | _ =>
      match concrete_request r with
      | Throw e => (T, Throw e)
      | Ok q => let '(T, a) := tree_step T q zxid session (clock 0) in (T, Ok a)
      end
  end.

(** A script of what others remove, call by call *)
Definition exec (r : zk_request) (s : tree * list (list str)) : (tree * list (list str)) * result answer :=
  let '(T, script) := s in
  let '(T, a) := tree_serve r (others (default [] (head script)) T) in ((T, tail script), a).

Context (order_elem : forall s x, x ∈ order s <-> x ∈ s) (p : str) (p_nonempty : p <> []) (p_not_root : p <> root).

Definition script_ok (script : list (list str)) : Prop := Forall (Forall (below p)) script.

(** What a call leaves: the tree has shrunk, and the script is still about nodes below [p]. *)
Definition leaves (T : tree) (s : tree * list (list str)) : Prop := shrunk p T s.1 /\ script_ok s.2.

Lemma others_shrinks qs T : wf T -> Forall (below p) qs -> shrunk p T (others qs T).
Proof.
  intros Hw Hq. revert T Hw. induction Hq as [|q qs Hb Hq IH]; intros T Hw; [by apply shrunk_refl|].
  change (others (q :: qs) T) with (others qs (tree_step T (SRemove q (-1)) zxid session (clock 0)).1). pose proof (remove_shrinks p T q zxid session (clock 0) Hw p_nonempty p_not_root Hb) as H.
  destruct (tree_step T (SRemove q (-1)) zxid session (clock 0)) as [T1 a]. destruct H as [H _]. eapply shrunk_trans; [done|]. apply IH. apply H.
Qed.

Lemma script_head script T : wf T -> script_ok script -> shrunk p T (others (default [] (head script)) T) /\ script_ok (tail script).
Proof.
  intros Hw Hs. destruct Hs as [|qs script Hq Hs]; cbn; [split; [by apply shrunk_refl|constructor]|]. split; [by apply others_shrinks|done].
Qed.

Lemma called_list T script q : wf T -> script_ok script -> exists s code names, tryGetChildren exec q (T, script) = Some (s, Ok (code, names)) /\ leaves T s /\
  ((code = Err.ZOK /\ forall x, x ∈ names <-> x ∈ children_of s.1 q) \/ (code = Err.ZNONODE /\ s.1 !! q = None)).
Proof.
  intros Hw Hs. destruct (script_head script T Hw Hs) as [H1 H2]. unfold tryGetChildren, getChildrenImpl, impl, mbind, zk_bind, exec. cbn [tree_serve]. set (T1 := others _ T) in *. destruct (T1 !! q) as [a|] eqn:Eq.
  - eexists (T1, tail script), Err.ZOK, _. split; [reflexivity|]. split; [done|]. left. split; [done|]. intros x. apply order_elem.
  - eexists (T1, tail script), Err.ZNONODE, _. split; [reflexivity|]. split; [done|]. by right.
Qed.

Lemma called_remove T script q : wf T -> script_ok script -> below p q -> exists s code, tryRemove exec q (-1) (T, script) = Some (s, Ok code) /\ leaves T s /\ (children_of T q = ∅ -> s.1 !! q = None).
Proof.
  intros Hw Hs Hb. destruct (script_head script T Hw Hs) as [H1 H2]. unfold tryRemove, removeImpl, impl, mbind, zk_bind, exec. cbn [tree_serve concrete_request]. set (T1 := others _ T) in *.
  pose proof (remove_shrinks p T1 q zxid session (clock 0) (s_wf _ _ _ H1) p_nonempty p_not_root Hb) as H. destruct (tree_step T1 (SRemove q (-1)) zxid session (clock 0)) as [T2 [code b]]. destruct H as (H3 & _ & H4 & H5). cbn [fst snd] in *.
  exists (T2, tail script), code. split; [|split; [split; [by eapply shrunk_trans|done]|]].
  - unfold mret, zk_ret, returned. rewrite decide_True by (destruct H4 as [-> |[-> | ->]]; set_solver). done.
  - intros Hc. apply H5. right. by eapply children_less.
Qed.

Lemma steps_remove T qs processed : wf T -> Forall (below p) qs -> Forall (fun a : answer => a.1 = Err.ZOK) processed ->
  let '(T', rs) := tree_steps T (map (fun q => SRemove q (-1)) qs) zxid session clock processed in
  match T' with Some T1 => shrunk p T T1 /\ Forall (fun q => T1 !! q = None) qs /\ first_error rs = Err.ZOK | None => first_error rs = Err.ZNONODE \/ first_error rs = Err.ZNOTEMPTY end.
Proof.
  intros Hw Hq. revert T processed Hw. induction Hq as [|q qs Hb Hq IH]; intros T processed Hw Hp; cbn [map tree_steps].
  { split; [by apply shrunk_refl|]. split; [done|]. rewrite <- (app_nil_r processed). by rewrite first_error_app. }
  pose proof (remove_shrinks p T q zxid session (clock (length processed)) Hw p_nonempty p_not_root Hb) as H. destruct (tree_step T (SRemove q (-1)) zxid session (clock (length processed))) as [T1 a]. destruct H as (H1 & _ & H2 & H3). case_decide as Ha.
  - unfold failed_responses. rewrite map_app, <- app_assoc, first_error_app by (apply Forall_map; exact Hp). cbn [map app first_error]. rewrite decide_True by (split; [done|]; destruct H2 as [-> |[-> | ->]]; done). tauto.
  - assert (Ha' : a.1 = Err.ZOK) by tauto. specialize (IH T1 (processed ++ [a]) (s_wf _ _ _ H1)). destruct (tree_steps T1 _ zxid session clock (processed ++ [a])) as [[T2|] rs].
    + destruct IH as (H4 & H5 & H6); [apply Forall_app; split; [done|]; by apply Forall_singleton|]. split; [by eapply shrunk_trans|]. split; [|done]. constructor; [|done].
      destruct (T2 !! q) as [n|] eqn:E; [|done]. destruct (s_less _ _ _ H4 q) as [n' E']; [by eexists|]. rewrite H3 in E' by (by left). done.
    + apply IH. apply Forall_app. split; [done|]. by apply Forall_singleton.
Qed.

Lemma concrete_removes qs : concrete_requests (remove_requests qs) = Ok (map (fun q => SRemove q (-1)) qs).
Proof. induction qs as [|q qs IH]; [done|]. cbn [remove_requests map concrete_requests concrete_request mbind result_bind]. unfold remove_requests in IH. by rewrite IH. Qed.

Lemma called_multi T script qs : wf T -> script_ok script -> Forall (below p) qs ->
  exists s code rs, tryMulti exec (remove_requests qs) (T, script) = Some (s, Ok (code, rs)) /\ leaves T s /\ (code = Err.ZOK -> Forall (fun q => s.1 !! q = None) qs).
Proof.
  intros Hw Hs Hq. unfold tryMulti, multiImpl. case_decide as He.
  { exists (T, script), Err.ZOK, []. split; [done|]. split; [split; [by apply shrunk_refl|done]|]. intros _. apply map_eq_nil in He. by subst qs. }
  destruct (script_head script T Hw Hs) as [H1 H2]. unfold impl, mbind, zk_bind, exec. cbn [tree_serve]. rewrite concrete_removes. set (T1 := others _ T) in *.
  pose proof (steps_remove T1 qs [] (s_wf _ _ _ H1) Hq (Forall_nil_2 _)) as H. destruct (tree_steps T1 _ zxid session clock []) as [[T2|] rs].
  - destruct H as (H3 & H4 & H5). rewrite H5. exists (T2, tail script), Err.ZOK, rs. split; [reflexivity|]. split; [split; [by eapply shrunk_trans|done]|done].
  - exists (T1, tail script), (first_error rs), rs. split; [destruct H as [-> | ->]; reflexivity|]. split; [done|]. intros E. rewrite E in H. by destruct H.
Qed.

(** The nodes below [q] are less than [fuel] deep. *)
Definition shallow (fuel : nat) (T : tree) (q : str) : Prop := forall r, is_Some (T !! r) -> below q r -> (length r < length q + fuel)%nat.

Lemma shallow_less fuel T T' q : shrunk p T T' -> shallow fuel T q -> shallow fuel T' q.
Proof. intros H Hd r Hr. apply Hd. by apply (s_less _ _ _ H). Qed.

Lemma shallow_child fuel T q name : shallow (S fuel) T q -> shallow fuel T (child q name).
Proof.
  intros Hd r Hr Hb. specialize (Hd r Hr (below_trans _ _ _ (below_child q name) Hb)). unfold child. rewrite !length_app. cbn. lia.
Qed.

(** What a function that clears subtrees does *)
Definition clears (fuel : nat) (clear : str -> zk (tree * list (list str)) unit) : Prop := forall T script q, wf T -> script_ok script -> below p q -> shallow fuel T q ->
  exists s, clear q (T, script) = Some (s, Ok tt) /\ leaves T s /\ children_of s.1 q = ∅.

Lemma clear_children_ok fuel clear q names : clears fuel clear -> below p q -> forall T script, wf T -> script_ok script -> shallow (S fuel) T q ->
  exists s, clear_children clear q [] names (T, script) = Some (s, Ok (map (child q) names)) /\ leaves T s /\ Forall (fun name => children_of s.1 (child q name) = ∅) names.
Proof.
  intros Hc Hb. induction names as [|name names IH]; intros T script Hw Hs Hd; [exists (T, script); split; [done|]; split; [split; [by apply shrunk_refl|done]|done]|].
  destruct (Hc T script (child q name) Hw Hs) as ([T1 s1] & E1 & [H1 H2] & H3); [eapply below_trans; [done|apply below_child]|by apply shallow_child|]. cbn [fst snd] in *.
  destruct (IH T1 s1 (s_wf _ _ _ H1) H2 (shallow_less _ _ _ _ H1 Hd)) as ([T2 s2] & E2 & [H4 H5] & H6). cbn [fst snd] in *.
  exists (T2, s2). split; [|split; [split; [by eapply shrunk_trans|done]|]].
  - cbn [clear_children]. unfold mbind, zk_bind. rewrite E1, E2. by rewrite decide_True by (by left).
  - constructor; [by apply (children_less p T1)|done].
Qed.

Lemma try_remove_all_ok qs : Forall (below p) qs -> forall T script, wf T -> script_ok script -> Forall (fun q => children_of T q = ∅) qs ->
  exists s, try_remove_all exec qs (T, script) = Some (s, Ok tt) /\ leaves T s /\ Forall (fun q => s.1 !! q = None) qs.
Proof.
  induction 1 as [|q qs Hb Hq IH]; intros T script Hw Hs Hc; [exists (T, script); split; [done|]; split; [split; [by apply shrunk_refl|done]|done]|]. apply Forall_cons in Hc as [Hc1 Hc2].
  destruct (called_remove T script q Hw Hs Hb) as ([T1 s1] & code & E1 & [H1 H2] & H3). cbn [fst snd] in *. destruct (IH T1 s1 (s_wf _ _ _ H1) H2) as ([T2 s2] & E2 & [H4 H5] & H6); [eapply Forall_impl; [exact Hc2|]; intros r Hr; by apply (children_less p T)|]. cbn [fst snd] in *.
  exists (T2, s2). split; [cbn [try_remove_all]; unfold mbind at 1, zk_bind at 1; by rewrite E1|]. split; [split; [by eapply shrunk_trans|done]|]. constructor; [|done]. cbn [fst].
  destruct (T2 !! q) as [n|] eqn:E; [|done]. destruct (s_less _ _ _ H4 q) as [n' E']; [by eexists|]. by rewrite (H3 Hc1) in E'.
Qed.

(** A node that is gone stays gone. *)
Lemma gone_less T T' q : shrunk p T T' -> T !! q = None -> T' !! q = None.
Proof. intros H Hq. destruct (T' !! q) as [n|] eqn:E; [|done]. destruct (s_less _ _ _ H q) as [n' E']; [by eexists|]. congruence. Qed.

Lemma try_remove_batches_ok fuel clear q n : clears fuel clear -> below p q -> forall names T script, (length names <= n)%nat -> wf T -> script_ok script -> shallow (S fuel) T q ->
  exists s, try_remove_batches exec clear q [] n names (T, script) = Some (s, Ok tt) /\ leaves T s /\ Forall (fun name => s.1 !! child q name = None) names.
Proof.
  intros Hc Hb. induction n as [|n IH]; intros names T script Hn Hw Hs Hd; [destruct names; [|cbn in Hn; lia]; exists (T, script); split; [done|]; split; [split; [by apply shrunk_refl|done]|done]|].
  destruct names as [|name names]; [exists (T, script); split; [done|]; split; [split; [by apply shrunk_refl|done]|done]|]. set (all := name :: names) in *. set (batch := take MULTI_BATCH_SIZE all).
  destruct (clear_children_ok fuel clear q batch Hc Hb T script Hw Hs Hd) as ([T1 s1] & E1 & [H1 H2] & H3). cbn [fst snd] in *.
  assert (Hbb : Forall (below p) (map (child q) batch)) by (apply Forall_forall; intros r (x & -> & _)%list_elem_of_fmap; eapply below_trans; [done|apply below_child]).
  destruct (called_multi T1 s1 (map (child q) batch) (s_wf _ _ _ H1) H2 Hbb) as ([T2 s2] & code & rs & E2 & [H4 H5] & H6). cbn [fst snd] in *.
  assert (H7 : exists s, (if decide (code <> Err.ZOK) then try_remove_all exec (map (child q) batch) else mret tt) (T2, s2) = Some (s, Ok tt) /\ leaves T2 s /\ Forall (fun r => s.1 !! r = None) (map (child q) batch)).
  { case_decide as Hcode; [|exists (T2, s2); split; [done|]; split; [split; [by eapply shrunk_refl, (s_wf _ _ _ H4)|done]|]; apply H6; tauto]. apply try_remove_all_ok; [done|apply (s_wf _ _ _ H4)|done|].
    apply Forall_map. eapply Forall_impl; [exact H3|]. intros x Hx. by apply (children_less p T1). }
  destruct H7 as ([T3 s3] & E3 & [H8 H9] & H10). cbn [fst snd] in *. assert (H13 : shrunk p T T3) by (eapply shrunk_trans; [exact H1|]; by eapply shrunk_trans).
  destruct (IH (drop MULTI_BATCH_SIZE all) T3 s3) as ([T4 s4] & E4 & [H11 H12] & H14); [rewrite length_drop; unfold all in *; cbn in *; lia|apply (s_wf _ _ _ H8)|done|by eapply shallow_less|]. cbn [fst snd] in *.
  exists (T4, s4). split; [|split; [split; [by eapply shrunk_trans|done]|]].
  - change (try_remove_batches exec clear q [] (S n) all) with (batch ← clear_children clear q [] batch; '(code, _) ← tryMulti exec (remove_requests batch); _ ← (if decide (code <> Err.ZOK) then try_remove_all exec batch else mret tt); try_remove_batches exec clear q [] n (drop MULTI_BATCH_SIZE all)).
    unfold mbind at 1, zk_bind at 1. rewrite E1. unfold mbind at 1, zk_bind at 1. rewrite E2. unfold mbind at 1, zk_bind at 1. by rewrite E3.
  - rewrite <- (take_drop MULTI_BATCH_SIZE all). apply Forall_app. split; [|done]. apply Forall_map in H10. eapply Forall_impl; [exact H10|]. intros x Hx. by apply (gone_less T3).
Qed.

(** A name listed under a node other than the root is that of the child the wrapper builds. *)
Lemma listed_child T q b : wf T -> q <> root -> b ∈ children_of T q -> is_Some (T !! child q b) /\ is_Some (T !! q).
Proof.
  intros Hw Hq (r & Hr & Hne & <- & <-)%elem_of_children. destruct (Hw r Hr Hne) as [[_ Hj] Hp]. split; [|done]. unfold join in Hj. rewrite decide_False in Hj by done. unfold child. by rewrite Hj.
Qed.

Lemma none_below T q : wf T -> q <> root -> (forall b, b ∈ children_of T q -> T !! child q b = None \/ T !! q = None) -> children_of T q = ∅.
Proof.
  intros Hw Hq H. apply set_eq. intros b. split; [|set_solver]. intros Hb. destruct (listed_child T q b Hw Hq Hb) as [[x Hx] [y Hy]]. destruct (H b Hb); congruence.
Qed.

Lemma tryRemoveChildrenRecursive_clears fuel : clears fuel (fun q => tryRemoveChildrenRecursive exec (S fuel) q []).
Proof.
  induction fuel as [|fuel IH]; intros T script q Hw Hs Hb Hd; pose proof (below_not_root p q p_nonempty p_not_root Hb) as Hq;
    destruct (called_list T script q Hw Hs) as ([T1 s1] & code & names & E1 & [H1 H2] & H3); cbn [fst snd] in *.
  - assert (Hn : T1 !! q = None) by (destruct (T1 !! q) eqn:E; [|done]; pose proof (Hd q (s_less _ _ _ H1 q (mk_is_Some _ _ E)) (or_introl eq_refl)); lia).
    assert (He : children_of T1 q = ∅) by (apply none_below; [apply H1|done|by right]).
    exists (T1, s1). split; [|done]. cbn [tryRemoveChildrenRecursive]. unfold mbind, zk_bind. rewrite E1. destruct H3 as [[-> H3]|[-> _]]; [|done].
    assert (names = []) as -> by (destruct names as [|x names]; [done|]; exfalso; eapply (not_elem_of_empty (C := gset str) x); rewrite <- He; apply H3; left). done.
  - destruct H3 as [[-> H3]|[-> H3]].
    + destruct (try_remove_batches_ok fuel _ q (length names) IH Hb (rev names) T1 s1) as ([T2 s2] & E2 & [H4 H5] & H6); [by rewrite length_rev|apply H1|done|by eapply shallow_less|]. cbn [fst snd] in *.
      exists (T2, s2). split; [|split; [split; [by eapply shrunk_trans|done]|]].
      * change (tryRemoveChildrenRecursive exec (S (S fuel)) q []) with ('(code, children) ← tryGetChildren exec q; if decide (code <> Err.ZOK) then mret tt else try_remove_batches exec (fun p => tryRemoveChildrenRecursive exec (S fuel) p []) q [] (length children) (rev children)).
        unfold mbind at 1, zk_bind at 1. rewrite E1. by rewrite decide_False by tauto.
      * apply none_below; [apply H4|done|]. intros b Hc. left. apply (proj1 (Forall_forall _ _) H6). apply list_elem_of_In, in_rev; rewrite rev_involutive; apply list_elem_of_In, H3.
        apply elem_of_children in Hc as (r & Hr & Hc). apply elem_of_children. exists r. split; [by apply (s_less _ _ _ H4)|done].
    + exists (T1, s1). split; [cbn [tryRemoveChildrenRecursive]; unfold mbind at 1, zk_bind at 1; by rewrite E1|]. split; [done|]. apply none_below; [apply H1|done|by right].
Qed.

Lemma parent_shorter q : valid_path q -> (length (parentPath q) < length q)%nat.
Proof.
  intros [Hq Hj]. apply (f_equal length) in Hj as Hl. unfold join in Hj, Hl. case_decide as E; rewrite !length_app in Hl; cbn [length root] in Hl; [|unfold root in Hl; cbn in Hl; lia].
  rewrite E. destruct (getBaseName q) as [|x b]; [by destruct Hq|]. cbn in *. lia.
Qed.

(** A subtree whose root is gone is gone. *)
Lemma subtree_gone T : wf T -> T !! p = None -> forall q, below p q -> T !! q = None.
Proof.
  intros Hw Hp q. remember (length q) as n eqn:En. revert q En. induction (lt_wf n) as [n _ IH]. intros q -> Hb. destruct (T !! q) as [a|] eqn:E; [|done].
  assert (Hne : q <> p) by congruence. destruct (Hw q (mk_is_Some _ _ E)) as [Hv [b Hpar]]; [by apply (below_not_root p)|].
  pose proof (IH _ (parent_shorter q Hv) _ eq_refl (below_parent p q p_nonempty Hb Hne)). congruence.
Qed.

(** What a removal of the subtree leaves *)
Lemma subtree_left T T' : shrunk p T T' -> T' !! p = None -> forall q, is_Some (T' !! q) <-> is_Some (T !! q) /\ ~ below p q.
Proof.
  intros H Hp q. split; [|intros [H1 H2]; by apply (s_rest _ _ _ H)]. intros Hq. split; [by apply (s_less _ _ _ H)|]. intros Hb. rewrite (subtree_gone T' (s_wf _ _ _ H) Hp q Hb) in Hq. by destruct Hq.
Qed.

(** C28: tryRemoveRecursive ends without an error and removes the node with its subtree and nothing else, whatever nodes of the subtree others remove between its calls; no other node's data changes. *)
Theorem subtree_removed_despite_others fuel T script : wf T -> script_ok script -> shallow fuel T p ->
  exists T' script', tryRemoveRecursive exec (S fuel) p (T, script) = Some ((T', script'), Ok tt)
    /\ (forall q, is_Some (T' !! q) <-> is_Some (T !! q) /\ ~ below p q)
    /\ (forall q a a', T !! q = Some a -> T' !! q = Some a' -> t_data a' = t_data a).
Proof.
  intros Hw Hs Hd. assert (Hb : below p p) by (by left). destruct (tryRemoveChildrenRecursive_clears fuel T script p Hw Hs Hb Hd) as ([T1 s1] & E1 & [H1 H2] & H3). cbn [fst snd] in *.
  destruct (called_remove T1 s1 p (s_wf _ _ _ H1) H2 Hb) as ([T2 s2] & code & E2 & [H4 H5] & H6). cbn [fst snd] in *. assert (H7 : shrunk p T T2) by (by eapply shrunk_trans).
  exists T2, s2. split; [unfold tryRemoveRecursive, mbind at 1, zk_bind at 1; rewrite E1; unfold mbind at 1, zk_bind at 1; by rewrite E2|]. split; [by apply subtree_left; [|apply H6]|apply (s_data _ _ _ H7)].
Qed.
End removal.

(** ** A removal while another goes on *)

Lemma wf_checked T : map_Forall (fun q _ => q <> root -> valid_path q /\ is_Some (T !! parentPath q)) T -> wf T.
Proof. intros H q [a Ha]. exact (H q a Ha). Qed.

Lemma shallow_checked fuel T q : map_Forall (fun r (_ : tnode) => (length r < length q + fuel)%nat) T -> shallow fuel T q.
Proof. intros H r [a Ha] _. exact (H r a Ha). Qed.

Definition ex_node (data : string) : tnode := mkT (lit data) [] false 1 1 0 0 0 0 0 0 1 0.

Definition ex_tree : tree :=
  list_to_map [(root, ex_node ""); (lit "/a", ex_node "top"); (lit "/a/b", ex_node "left"); (lit "/a/c", ex_node "right"); (lit "/a/b/d", ex_node "leaf"); (lit "/ab", ex_node "other")].

(** Another client removes the leaf before its parent is listed, and one of the children before the request that removes both. *)
Definition ex_script : list (list str) := [[]; [lit "/a/b/d"]; []; [lit "/a/b"]].

Lemma subtree_removed_despite_others_witness :
  wf ex_tree /\ exists T' script', tryRemoveRecursive (exec elements 7 1 (fun _ => 0)) 9 (lit "/a") (ex_tree, ex_script) = Some ((T', script'), Ok tt)
    /\ (forall q, is_Some (T' !! q) <-> is_Some (ex_tree !! q) /\ ~ below (lit "/a") q).
Proof.
  assert (Hw : wf ex_tree) by (apply wf_checked, map_Forall_to_list; apply (bool_decide_unpack _); vm_compute; exact I). split; [exact Hw|].
  destruct (subtree_removed_despite_others elements 7 1 (fun _ => 0) ltac:(intros s x; apply elem_of_elements) (lit "/a") ltac:(done) ltac:(done) 8 ex_tree ex_script Hw) as (T' & script' & H1 & H2 & _).
  - assert (H1 : below (lit "/a") (lit "/a/b/d")) by (right; by exists (lit "b/d")). assert (H2 : below (lit "/a") (lit "/a/b")) by (right; by exists (lit "b")).
    exact (Forall_cons_2 _ _ _ (Forall_nil_2 _) (Forall_cons_2 _ _ _ (Forall_cons_2 _ _ _ H1 (Forall_nil_2 _)) (Forall_cons_2 _ _ _ (Forall_nil_2 _) (Forall_cons_2 _ _ _ (Forall_cons_2 _ _ _ H2 (Forall_nil_2 _)) (Forall_nil_2 _))))).

  - apply shallow_checked, map_Forall_to_list. apply (bool_decide_unpack _). vm_compute. exact I.
  - exists T', script'. exact (conj H1 H2).
Defined.
